(* ===== verification/_CoqProject ===== *)
-Q . S2P
Prelude.v
Errors.v
Numerals.v
Hierarchy.v
Resources.v
FsPath.v
Rst.v
Rat.v
Locking.v
Voting.v
Kvp.v
Children.v
Base64.v
Obf.v
HashTable.v
FixedBuffer.v
Coordinating.v
Quota.v
Redirect.v
Desc.v
Pack.v
PackInstruct.v
KeyVal.v
StrArray.v
Delay.v
Hasher.v
Checksum.v
Negotiation.v
Trim.v
RodsPath.v
Schema.v
TableLinks.v
GenQuery.v
QueryText.v
QueryValues.v
SpecialQuery.v
RuleReader.v
RuleLexer.v
RulePrint.v
ConnPool.v
Region.v
PasswordHash.v
ResourceWalk.v
PhysPath.v
QueryRows.v
