(* ===== verification/Prelude.v ===== *)
(** * A verification library for iRODS: replicas, resources, queries and text formats

    iRODS keeps data objects, each with replicas on storage resources that form
    hierarchies. This library models the parts of the server and of the core
    library that decide which replica an agent may touch and what the catalog is
    told about it, and the text and byte formats those parts exchange.

    ** The program's parts and their files

    - [Prelude]: byte strings, [irods::error] and exceptions, the state and
      exception monad [M], [std::string] searches, [std::map] keyed by strings,
      the tactics [run_M] and [by_evaluation] and the hint database [irods].
    - [Errors], [Numerals]: error codes and replica states; [std::to_string],
      [std::stoi] and [boost::lexical_cast] (class [LexicalCast] with laws).
    - [Hierarchy]: [lib/core/src/irods_string_tokenize.cpp] and
      [irods_hierarchy_parser.cpp]; a parser object is its list of names.
    - [Resources]: [server/core/src/irods_resource_manager.cpp]; the manager is a
      heap of resources with a map by name and a map by id, [resource_ptr] is an
      index into the heap.
    - [ResourceWalk]: the rest of the same file: the walks over the tables and the
      subtrees of the manager, the overloads that return an [error], the maintenance
      operations. The order a hash table is iterated in is the class [TableOrder].
    - [FsPath]: [lib/filesystem/src/path.cpp]; a path is its string, an iterator
      its element and position.
    - [PhysPath]: [server/core/src/physPath.cpp], the path checks of
      [server/core/src/fileOpr.cpp] and [server/api/src/rsChkNVPathPerm.cpp]: where the file
      of a replica lies, which physical paths a client may name, and how a file follows
      the rename of its object; the vaults are those of [Resources].
    - [Rst]: [server/core/src/replica_state_table.cpp]; the global map is the
      state of [M]; uses [Resources] to find a replica by leaf resource and
      [FsPath] for the data name.
    - [Rat]: [server/core/src/replica_access_table.cpp]; tokens and the agents
      that hold them, with the operations as steps of a transition system.
    - [Locking]: [server/core/src/logical_locking.cpp]; runs on [Rst] and asks
      [Rat]; JSON text is the class [Json] with laws.
    - [Voting]: [server/core/src/voting.cpp] and the property getters of
      [irods_resource_plugin.cpp]; uses [Hierarchy] and [Rat].
    - [Kvp], [Children]: [lib/core/src/irods_kvp_string_parser.cpp] and
      [irods_children_parser.cpp]; Boost's string algorithms are the class
      [BoostString] with laws.
    - [Base64], [Obf]: [lib/core/src/base64.cpp] and [obf.cpp]; OpenSSL's digests
      are the class [Digest].
    - [HashTable]: [lib/core/src/hashtable.cpp].
    - [FixedBuffer]: [lib/core/include/irods/fixed_buffer_resource.hpp]; the
      allocator's headers at their addresses in the buffer.
    - [Coordinating]: the votes of the coordinating resource plugins
      ([plugins/resources]: passthru, random, deferred, replication, mock archive),
      which forward a vote to their children; a hierarchy is a tree of them.
    - [Quota]: [server/api/src/rsGetRescQuota.cpp] and the policy of
      [msiSetRescQuotaPolicy].
    - [Redirect]: [server/core/src/irods_resource_redirect.cpp] and what it calls of
      [irods_resource_backport.cpp]: which hierarchy a request is sent to, on top of
      [Voting], [Resources] and [Quota]; the votes of the resources are an argument.
    - [Desc]: [server/core/src/objDesc.cpp]; the table of open replicas over an
      explicit memory of requests and replica records; and the writes to a descriptor's
      replica information in [rsDataObjOpen.cpp] and [finalize_utilities.cpp].
    - [Pack], [PackInstruct]: [lib/core/src/packStruct.cpp]; the primitives of the
      wire protocol in XML and in native form; the parser of packing instructions and
      what resolves an item (dependent items, dimensions).
    - [KeyVal], [StrArray]: the arrays of [lib/core/src/rcMisc.cpp]: keyword-value
      pairs, indexed pairs, property strings; arrays of strings and multi-strings.
    - [Delay]: the times and directives of delayed rules in [rcMisc.cpp], and
      [update_entry_for_repeat] of the delay server, which builds its request with
      [KeyVal]. The time zone is the class [Mktime].
    - [Hasher], [Checksum]: [lib/hasher]: the hash schemes, the hasher and its factory;
      the checksums of local files ([checksum.cpp]) and of replicas
      ([server/api/src/rsFileChksum.cpp]). The digests are a parameter with laws.
    - [Negotiation]: [irods_client_negotiation.cpp] and [irods_server_negotiation.cpp]:
      both sides of the negotiation of TLS and the zone keys that authenticate a server.
    - [Trim]: [server/api/src/rsDataObjTrim.cpp]: which replicas of an object are removed.
    - [RodsPath]: the canonical form of a logical path and the paths of a command line in
      [lib/core/src/rodsPath.cpp].
    - [Schema], [TableLinks], [GenQuery], [SpecialQuery], [QueryRows]: the general query of the catalog
      ([plugins/database/src/general_query.cpp] and [general_query_setup.cpp], the
      PostgreSQL build): the tables, columns and links of the catalog; the search for the
      links that join the tables of a query; the SQL text and the bind variables, whose
      static buffers are part of the state, so that what is written over them shows.
      [SpecialQuery] has the quota queries, which [Quota] asks for, and the session that
      the access check is made for; [QueryRows] hands out the rows page by page from the
      statements that are kept open. [QueryText] and [QueryValues] have the theorems about
      the text and the variables, proved with triples over [M].
    - [RuleReader], [RuleLexer], [RulePrint]: the front of the rule language
      ([plugins/rule_engines/irods_rule_language/src/parser.cpp]): pointers into the text of
      rules, which is a string or a file behind a sliding buffer; what the lexer does is a
      program over a pointer ([prog]), which either kind runs; the lexer, with the arrays
      of a token at their size, and the ring that lets the parser take tokens back;
      [RulePrint] has the round trip. The theorems are proved with [wp].
    - [ConnPool]: [lib/core/src/connection_pool.cpp]; the threads that share a pool and the
      proxies they move around are a step relation over the slots.
    - [PasswordHash]: [server/core/src/password_hash.cpp] and the check of a password in
      [plugins/database/src/db_plugin.cpp]; the hash is printed by [Base64], the derivation
      of the key is a parameter with a law.
    - [Region]: [lib/core/src/region.cpp]; the memory the rule language allocates from, as
      blocks and offsets in them.

    ** What the theorems show

    - Locking: the statuses a lock gives, what it saves and what an unlock gives
      back; locks followed by a restoring unlock are the identity on the table;
      only the token of the access table opens a replica that is being written;
      a failed publication restores the entry. The access table's invariant holds
      in every reachable table.
    - Resources: the manager's invariant after loading; ids, names and
      hierarchies translate into each other; votes are zero exactly for replicas
      that may not be served, and creation is admitted exactly when the data fits.
      The child tables agree with the parent links; the leaf bundles of a resource split
      the leaves below it among its children; roots and hierarchies are listed once.
      A coordinating resource answers with a hierarchy that is a path of its tree, or with
      the one the request names, which is not checked;
      the redirection picks the highest vote, the requested replica only, and the
      policy's resource for a new object.
    - Descriptors: in every state that the operations of the table and the handlers' own
      writes to descriptors in use can reach, each descriptor owns what it points to; closing
      one releases all of it. What is assumed of the handlers stands at [Desc.desc_step].
    - Memory: for requests of eight bytes or more the allocator refines first fit on a list of
      blocks, and its blocks are disjoint;
      keyword-value pairs, however they are built up from a request as it was
      unpacked, stay within their arrays and refine a map.
    - Formats: round trips of hierarchies, key-value strings, children strings,
      base64 and both obfuscations, of strings and numbers of the wire protocol, of
      packing instructions, property strings and multi-strings; the tokenizer and the
      path iterator compute the pieces between separators; bounds of the base64
      buffers and of the packed output; the parser of packing instructions returns on
      every text.
    - Hash table: a functional refinement to a map from keys to their values in
      insertion order, across growth.
    - Delayed rules: a rule with a number of repetitions is executed that many times
      and removed; one with an end is removed when it is reached.
    - Checksums: data hashed in any pieces has the checksum of the whole; a replica and a
      local file of the same contents have the same one.
    - Negotiation: both sides come to the same decision, and a server is taken for one
      exactly when its signature is right.
    - Trimming: the replicas that are taken leave the minimum of copies, and none of them
      is open.
    - General queries: nothing of what a client sends gets into the SQL text; every
      variable has its placeholder; a restricted user's query contains the clauses that
      restrict it; the values of comparisons are those of the conditions; the search for
      the links ends and joins the tables it needs; a client that reads page after page
      gets every row once, in order, and the statement is closed.
    - Physical paths: what a path that passes the checks looks like (a leading ../ passes
      them); the paths of two
      objects of a zone differ under the graft scheme; a synced replica has the path that
      the resource gave and the catalog has.
    - Rules: the lexer cuts a text that its arrays can hold into tokens, with nothing but
      blanks and comments between them, and ends; from a file it reads the tokens of the string;
      what a writer prints within the limits of the lexer comes back; the ring of
      tokens refines an unlimited history as long as nothing is taken back at its bottom.
    - Connections: under every interleaving a connection has one client, and none is
      handed out more often than the options allow; a slot whose refresh fails is lost.
    - Passwords: a stored hash accepts exactly the passwords with the same derived key.
    - Regions: the pieces of a region are aligned, lie in their blocks and do not overlap.
    - Some theorems state behaviour that contradicts a comment or a test of the
      code; they are marked as such where they stand.

    ** Conventions, bounds and fuel

    A C++ function that throws returns [res]; a function that also changes state
    runs in [M], where the state reached is kept when an exception leaves it.
    [irods::error] results are values of [error]. Integers are [Z] with their
    width written out where it matters; lengths and list positions are [nat].
    [Eundef] is the result where the language leaves the behaviour undefined: an
    access out of bounds, an [int] out of its range, a null pointer, memory that was
    never written; a theorem that states a result excludes it.
    Loops that are not structural take fuel; the theorems give the fuel that is
    enough: the length of the string for the tokenizer, the path iterator (two
    more) and the parsers, the length of the path to the root for the loops of
    the resource manager, the number of resources for the walks over a subtree, one level for the growth of the hash table, the number of
    tables for the search of links, which marks one at every level, one more than the
    length of the text for the lexer, which consumes a character in every turn. [Ediverge]
    marks exhausted fuel and is excluded by the theorems that state a result.

    Code outside the repository is a parameter with laws, each with a reference
    instance that shows the laws can hold: Boost's casts and string algorithms,
    nlohmann's JSON text, OpenSSL's digests, random UUIDs (a list of draws), the
    time, the time zone and the user id, the ciphers, the split of a path. Plugins and API
    calls made by a modelled function are arguments of it.

    ** What is not modelled

    Log output, including the [dump()] calls whose text only the log receives;
    strings held in JSON values are valid UTF-8. Memory exhaustion, save in [Region].
    Mutexes, save those of [ConnPool]: an operation that runs under one lock is one step,
    and operations of one agent's table run one after the other. Files, sockets, the database behind the catalog, the
    evaluation of rules, the command line tools and the test code. Of the rule language, the
    productions of the parser, its types and its evaluation. Of the general query,
    the branches for Oracle and MySQL. Of the packing, the walk over a C
    structure in memory ([packStruct], [packItem], [packChildStruct] and their
    counterparts), which depends on the layout the compiler gives it.

    ** Plan

    Next in line, in this order: the productions of the rule language's parser over the
    tokens of [RuleLexer]; the names, special
    paths and special collections of [rcMisc.cpp] and [stringOpr.cpp]; the walk of the
    packing over a value that follows its instruction; the rest of
    [fileOpr.cpp] and [physPath.cpp] (orphan files, protected directories); the compound
    resource; [list.cpp]. *)

From stdpp Require Import base gmap list strings.
From Stdlib Require Import ZArith Lia Ascii Sorted.

#[export] Set Default Goal Selector "!".
#[export] Set Default Proof Using "Type".

(** ** Byte strings

    [std::string] and NUL-free C strings are lists of [ascii]; [lit] turns a
    literal of the source into one. *)

Abbreviation bstr := (list ascii).

Definition lit (s : string) : bstr := String.list_ascii_of_string s.

(** The value of a byte as an [unsigned char]. *)
Definition uchar (c : ascii) : Z := Z.of_N (N_of_ascii c).

(** The [char] with a given value, taken modulo 256 as a C cast does. *)
Definition chr (z : Z) : ascii := ascii_of_N (Z.to_N (z mod 256)).

Definition NUL : ascii := ascii_of_nat 0.
Definition newline : ascii := ascii_of_nat 10.

Lemma uchar_range c : (0 <= uchar c < 256)%Z.
Proof. unfold uchar. pose proof (N_ascii_bounded c). lia. Qed.

Lemma chr_uchar c : chr (uchar c) = c.
Proof.
  unfold chr. rewrite Z.mod_small by apply uchar_range.
  unfold uchar. rewrite N2Z.id. apply ascii_N_embedding.
Qed.

Lemma uchar_chr z : uchar (chr z) = (z mod 256)%Z.
Proof.
  unfold uchar, chr.
  assert (0 <= z mod 256 < 256)%Z as Hr by (apply Z.mod_pos_bound; lia).
  rewrite N_ascii_embedding; [lia|].
  apply N2Z.inj_lt. rewrite Z2N.id; lia.
Qed.

Lemma uchar_inj c1 c2 : uchar c1 = uchar c2 -> c1 = c2.
Proof. intros H. rewrite <- (chr_uchar c1), <- (chr_uchar c2). by rewrite H. Qed.

(** ** Results and exceptions

    A C++ function that may throw returns a [res]. The exception is classified
    the way the [catch] clauses of the code classify it: an [irods::exception]
    carries its code; [json::exception] and other [std::exception]s carry none.
    [Eundef] and [Ediverge] are not exceptions of the code: [Eundef] marks behaviour
    the language leaves undefined (a division by zero, a null dereference),
    [Ediverge] a loop that was given too little fuel; the theorems that state a
    result rule them out. *)

Inductive exn : Type :=
| Eirods (code : Z)
| Ejson
| Estd
| Eundef
| Ediverge.

Inductive res (A : Type) : Type :=
| Ok (a : A)
| Throw (e : exn).
Arguments Ok {A} a.
Arguments Throw {A} e.

#[export] Instance exn_eq_dec : EqDecision exn.
Proof. solve_decision. Defined.

#[export] Instance res_ret : MRet res := fun _ a => Ok a.
#[export] Instance res_bind : MBind res := fun _ _ k m =>
  match m with Ok a => k a | Throw e => Throw e end.
#[export] Instance res_fmap : FMap res := fun _ _ f m =>
  match m with Ok a => Ok (f a) | Throw e => Throw e end.

(** A loop whose body can leave it with an error. *)
Section fold.
Context {A B : Type} (f : B -> A -> res B).

Fixpoint fold_res (b : B) (l : list A) : res B :=
  match l with
  | [] => Ok b
  | a :: l' => b' ← f b a; fold_res b' l'
  end.

Lemma fold_res_app b l1 l2 : fold_res b (l1 ++ l2) = (b' ← fold_res b l1; fold_res b' l2).
Proof.
  revert b. induction l1 as [|a l1 IH]; intros b; [done|]. simpl.
  destruct (f b a) as [b'|e]; [apply IH|done].
Qed.
End fold.

(** An [irods::error] value: [SUCCESS()] or [ERROR(code, _)]. *)
Inductive error : Type :=
| SUCCESS
| ERROR (code : Z).

Definition error_ok (e : error) : bool :=
  match e with SUCCESS => true | ERROR _ => false end.

(** ** State and exceptions

    Code that mutates global state and may throw: the state reached so far is
    kept when an exception leaves the function, as in C++. *)

Definition M (S A : Type) : Type := S -> res A * S.

#[export] Instance M_ret {S} : MRet (M S) := fun _ a s => (Ok a, s).
#[export] Instance M_bind {S} : MBind (M S) := fun _ _ k m s =>
  match m s with
  | (Ok a, s') => k a s'
  | (Throw e, s') => (Throw e, s')
  end.

Definition throw {S A} (e : exn) : M S A := fun s => (Throw e, s).
Definition get_state {S} : M S S := fun s => (Ok s, s).
Definition put_state {S} (s : S) : M S unit := fun _ => (Ok tt, s).
Definition lift {S A} (r : res A) : M S A := fun s => (r, s).

(** Running a computation: the monad's operations, unfolded. *)
Ltac run_M := unfold mbind, M_bind, mret, M_ret, get_state, put_state, lift.

(** A decidable statement about concrete data, by evaluation. *)
Ltac by_evaluation := apply (bool_decide_unpack _); vm_compute; exact I.

(** [try { m } catch] with the handler given as a total function on exceptions. *)
Definition try_catch {S A} (m : M S A) (h : exn -> res A) : M S A := fun s =>
  match m s with
  | (Ok a, s') => (Ok a, s')
  | (Throw e, s') => (h e, s')
  end.
(** A range-based [for] over a list that was computed before the loop. *)
Fixpoint for_each {S A} (f : A -> M S unit) (l : list A) : M S unit :=
  match l with
  | [] => mret tt
  | a :: l' => f a ≫= fun _ => for_each f l'
  end.

Lemma M_bind_ok {S A B} (m : M S A) (k : A -> M S B) s a s' :
  m s = (Ok a, s') -> (m ≫= k) s = k a s'.
Proof. intros H. unfold mbind, M_bind. by rewrite H. Qed.

Lemma M_bind_throw {S A B} (m : M S A) (k : A -> M S B) s e s' :
  m s = (Throw e, s') -> (m ≫= k) s = (Throw e, s').
Proof. intros H. unfold mbind, M_bind. by rewrite H. Qed.

Lemma M_bind_inv {S A B} (m : M S A) (k : A -> M S B) s b s'' :
  (m ≫= k) s = (Ok b, s'') -> exists a s', m s = (Ok a, s') /\ k a s' = (Ok b, s'').
Proof.
  unfold mbind, M_bind. destruct (m s) as [[a|e] s'] eqn:E; [eauto|discriminate].
Qed.

(** The C string at the start of a buffer. *)
Fixpoint c_str (buf : bstr) : bstr :=
  match buf with [] => [] | c :: buf' => if Ascii.eqb c NUL then [] else c :: c_str buf' end.

Lemma c_str_app s r : Forall (fun c => c <> NUL) s -> c_str (s ++ NUL :: r) = s.
Proof.
  induction 1 as [|c s Hc H IH]; simpl; [done|].
  by rewrite (proj2 (Ascii.eqb_neq c NUL)), IH.
Qed.

Lemma c_str_id s : Forall (fun c => c <> NUL) s -> c_str s = s.
Proof.
  induction 1 as [|c s Hc H IH]; simpl; [done|].
  by rewrite (proj2 (Ascii.eqb_neq c NUL)), IH.
Qed.

(** ** [std::string] searches

    Positions are [option nat], with [None] for [std::string::npos]. *)

(** Membership of a byte in a set of bytes given as a string. *)
Definition is_any_of (d : bstr) (c : ascii) : bool := existsb (Ascii.eqb c) d.

Fixpoint find_idx {A} (p : A -> bool) (s : list A) : option nat :=
  match s with
  | [] => None
  | c :: s' => if p c then Some O else S <$> find_idx p s'
  end.

(** The first position not before [pos] whose byte satisfies [p]. *)
Definition find_from (p : ascii -> bool) (s : bstr) (pos : option nat) : option nat :=
  match pos with
  | None => None
  | Some n => Nat.add n <$> find_idx p (drop n s)
  end.

Definition find_first_of (s d : bstr) (pos : option nat) : option nat :=
  find_from (is_any_of d) s pos.
Definition find_first_not_of (s d : bstr) (pos : option nat) : option nat :=
  find_from (fun c => negb (is_any_of d c)) s pos.

(** [s.substr(pos, len)] for [pos <= s.size()]; [None] stands for a length
    that reaches past the end, as [npos - pos] does. *)
Definition substr (s : bstr) (pos : nat) (len : option nat) : bstr :=
  match len with
  | None => drop pos s
  | Some n => take n (drop pos s)
  end.

Definition bstr_eqb (s t : bstr) : bool := bool_decide (s = t).

(** [strstr], and [std::string::find] of a string. *)
Fixpoint strstr (s t : bstr) : option nat :=
  if bstr_eqb (take (length t) s) t then Some O
  else match s with [] => None | _ :: s' => S <$> strstr s' t end.

(** Equality of strings as the code tests it. *)
Declare Scope bstr_scope.
Delimit Scope bstr_scope with bstr.
Notation "s =s? t" := (bstr_eqb s t) (at level 70, no associativity) : bstr_scope.

Lemma bstr_eqb_eq s t : bstr_eqb s t = true <-> s = t.
Proof. apply bool_decide_eq_true. Qed.

Lemma bstr_eqb_neq s t : bstr_eqb s t = false <-> s <> t.
Proof. apply bool_decide_eq_false. Qed.

Lemma bstr_eqb_refl s : bstr_eqb s s = true.
Proof. by apply bstr_eqb_eq. Qed.

Lemma is_any_of_true d c : is_any_of d c = true <-> c ∈ d.
Proof.
  unfold is_any_of. rewrite existsb_exists. split.
  - intros (x & Hin & Heq). apply Ascii.eqb_eq in Heq as ->. by apply list_elem_of_In.
  - intros Hin. exists c. rewrite Ascii.eqb_refl. split; [by apply list_elem_of_In|done].
Qed.

Lemma is_any_of_false d c : is_any_of d c = false <-> c ∉ d.
Proof. rewrite <- is_any_of_true. destruct (is_any_of d c); naive_solver. Qed.

(** [find_idx] through the split at the first hit. *)
Lemma find_idx_Some {A} (p : A -> bool) s i :
  find_idx p s = Some i <->
  exists l c r, s = l ++ c :: r /\ length l = i /\ p c = true /\ Forall (fun x => p x = false) l.
Proof.
  revert i. induction s as [|a s IH]; intros i; simpl.
  { split; [done|]. intros (l & c & r & H & _). by destruct l. }
  destruct (p a) eqn:Ep.
  - split.
    + intros [= <-]. exists [], a, s. by repeat split.
    + intros (l & c & r & Heq & <- & Hc & Hall). destruct l as [|b l]; [done|].
      simplify_eq/=. apply Forall_cons in Hall as [? _]. congruence.
  - rewrite fmap_Some. split.
    + intros (j & Hj & ->). apply IH in Hj as (l & c & r & -> & <- & Hc & Hall).
      exists (a :: l), c, r. repeat split; [done|]. by constructor.
    + intros (l & c & r & Heq & <- & Hc & Hall). destruct l as [|b l]; simplify_eq/=; [congruence|].
      exists (length l). split; [|done]. apply IH. apply Forall_cons in Hall as [_ ?].
      by exists l, c, r.
Qed.

Lemma find_idx_None {A} (p : A -> bool) s :
  find_idx p s = None <-> Forall (fun x => p x = false) s.
Proof.
  induction s as [|a s IH]; simpl; [done|].
  rewrite Forall_cons. destruct (p a) eqn:Ep; rewrite ?fmap_None, ?IH; split; try done.
  - by intros [? _].
  - by intros [_ ?].
Qed.

(** ** [std::map<std::string, V>]

    A map is the list of its pairs in iteration order: strictly increasing keys,
    compared as [std::less<std::string>] compares them (bytes as unsigned). *)

Fixpoint str_ltb (s t : bstr) : bool :=
  match s, t with
  | [], [] => false
  | [], _ :: _ => true
  | _ :: _, [] => false
  | c :: s', d :: t' =>
      if Ascii.eqb c d then str_ltb s' t' else (uchar c <? uchar d)%Z
  end.

Lemma str_ltb_irrefl s : str_ltb s s = false.
Proof. induction s; simpl; [done|]. by rewrite Ascii.eqb_refl. Qed.

Lemma str_ltb_trans s t u : str_ltb s t = true -> str_ltb t u = true -> str_ltb s u = true.
Proof.
  revert t u. induction s as [|a s IH]; intros [|b t] [|c u]; simpl; try done.
  destruct (Ascii.eqb_spec a b), (Ascii.eqb_spec b c), (Ascii.eqb_spec a c);
    subst; try congruence; eauto; rewrite ?Z.ltb_lt; lia.
Qed.

Lemma str_ltb_total s t : str_ltb s t = false -> str_ltb t s = false -> s = t.
Proof.
  revert t. induction s as [|a s IH]; intros [|b t]; simpl; try done.
  destruct (Ascii.eqb_spec a b), (Ascii.eqb_spec b a); subst; try congruence.
  - intros H1 H2. by rewrite (IH t).
  - rewrite !Z.ltb_ge. intros H1 H2. exfalso. apply n, uchar_inj. lia.
Qed.

Lemma str_ltb_neq s t : str_ltb s t = true -> s <> t.
Proof. intros H ->. by rewrite str_ltb_irrefl in H. Qed.

Lemma str_ltb_asym s t : str_ltb s t = true -> str_ltb t s = false.
Proof.
  intros H. destruct (str_ltb t s) eqn:E; [|done].
  pose proof (str_ltb_trans _ _ _ H E) as Hc. by rewrite str_ltb_irrefl in Hc.
Qed.

Section smap.
Context {V : Type}.
Implicit Types (m : list (bstr * V)) (k : bstr) (v : V).

(** [m\[k\] = v] *)
Fixpoint smap_set k v m : list (bstr * V) :=
  match m with
  | [] => [(k, v)]
  | (k', v') :: m' =>
      if str_ltb k k' then (k, v) :: m
      else if bstr_eqb k k' then (k, v) :: m'
      else (k', v') :: smap_set k v m'
  end.

(** [m.find(k)] *)
Fixpoint smap_get k m : option V :=
  match m with
  | [] => None
  | (k', v') :: m' => if bstr_eqb k k' then Some v' else smap_get k m'
  end.

(** [m.erase(m.find(k))] *)
Fixpoint smap_erase k m : list (bstr * V) :=
  match m with
  | [] => []
  | (k', v') :: m' => if bstr_eqb k k' then m' else (k', v') :: smap_erase k m'
  end.

(** The invariant of [std::map]: iteration is in strictly increasing key order. *)
Definition smap_wf m : Prop := StronglySorted (fun p q => str_ltb p.1 q.1 = true) m.

Lemma smap_wf_cons k v m :
  smap_wf ((k, v) :: m) <-> Forall (fun q => str_ltb k q.1 = true) m /\ smap_wf m.
Proof.
  split.
  - intros H. inversion H; subst. done.
  - intros [H1 H2]. by constructor.
Qed.

Lemma smap_set_keys k v m (P : bstr -> Prop) :
  P k -> Forall (fun q => P q.1) m -> Forall (fun q => P q.1) (smap_set k v m).
Proof.
  intros Hk. induction m as [|[k' v'] m IH]; simpl; intros Hm.
  - by constructor.
  - apply Forall_cons in Hm as [Hk' Hm]. simpl in Hk'.
    destruct (str_ltb k k'); [by repeat constructor|].
    destruct (bstr_eqb k k'); constructor; auto.
Qed.

Lemma smap_set_wf k v m : smap_wf m -> smap_wf (smap_set k v m).
Proof.
  induction m as [|[k' v'] m IH]; simpl; intros Hwf.
  - repeat constructor.
  - apply smap_wf_cons in Hwf as [Hk' Hm].
    destruct (str_ltb k k') eqn:Elt.
    + apply smap_wf_cons. split; [|by apply smap_wf_cons].
      constructor; [done|]. eapply Forall_impl; [exact Hk'|].
      intros q Hq. simpl. eauto using str_ltb_trans.
    + destruct (bstr_eqb k k') eqn:Eeq.
      * apply bstr_eqb_eq in Eeq as ->. by apply smap_wf_cons.
      * apply smap_wf_cons. split; [|auto].
        apply (smap_set_keys k v m (fun x => str_ltb k' x = true)); [|done].
        destruct (str_ltb k' k) eqn:E2; [done|].
        apply bstr_eqb_neq in Eeq. exfalso. eauto using str_ltb_total.
Qed.

Lemma smap_get_set k k' v m :
  smap_wf m ->
  smap_get k (smap_set k' v m) = if bstr_eqb k k' then Some v else smap_get k m.
Proof.
  induction m as [|[a w] m IH]; simpl; intros Hwf; [done|].
  apply smap_wf_cons in Hwf as [Ha Hm].
  destruct (str_ltb k' a) eqn:Elt; simpl; [done|].
  destruct (bstr_eqb k' a) eqn:Eka; simpl.
  - apply bstr_eqb_eq in Eka as ->. by destruct (bstr_eqb k a).
  - destruct (bstr_eqb k a) eqn:E; [|auto].
    apply bstr_eqb_eq in E as ->.
    destruct (bstr_eqb a k') eqn:E2; [|done].
    apply bstr_eqb_eq in E2. apply bstr_eqb_neq in Eka. congruence.
Qed.

(** Storing a key above every stored key appends it. *)
Lemma smap_set_last k v m :
  Forall (fun q => str_ltb q.1 k = true) m -> smap_set k v m = m ++ [(k, v)].
Proof.
  induction m as [|[a w] m IH]; simpl; intros Hall; [done|].
  apply Forall_cons in Hall as [Ha Hall]. simpl in Ha.
  rewrite (str_ltb_asym _ _ Ha).
  pose proof (not_eq_sym (str_ltb_neq _ _ Ha)) as Hne.
  apply bstr_eqb_neq in Hne. rewrite Hne. f_equal. auto.
Qed.

Lemma smap_wf_app m1 m2 :
  smap_wf (m1 ++ m2) ->
  Forall (fun q => Forall (fun p => str_ltb p.1 q.1 = true) m1) m2.
Proof.
  induction m1 as [|[a w] m1 IH]; simpl; intros Hwf.
  - apply Forall_forall. constructor.
  - apply smap_wf_cons in Hwf as [Ha Hwf]. apply Forall_app in Ha as [_ Ha].
    specialize (IH Hwf). rewrite !Forall_forall in *. intros q Hq.
    constructor; [by apply Ha|by apply IH].
Qed.

(** Storing the pairs of a map one by one rebuilds it. *)
Lemma smap_rebuild m1 m2 :
  smap_wf (m1 ++ m2) -> foldl (fun acc p => smap_set p.1 p.2 acc) m1 m2 = m1 ++ m2.
Proof.
  revert m1. induction m2 as [|[k v] m2 IH]; intros m1 Hwf; simpl; [by rewrite app_nil_r|].
  rewrite smap_set_last.
  - rewrite IH; rewrite <- app_assoc; done.
  - apply smap_wf_app in Hwf. by apply Forall_cons in Hwf as [? _].
Qed.
End smap.

(** ** Automation

    The database [irods] holds the facts on bytes, strings and sorted maps that
    the components' proofs use without naming them. *)

Create HintDb irods discriminated.
#[export] Hint Resolve uchar_range str_ltb_trans str_ltb_neq smap_set_wf : irods.
Create Rewrite HintDb irods.
#[export] Hint Rewrite bstr_eqb_refl chr_uchar str_ltb_irrefl : irods.
