(* ===== verification/Errors.v ===== *)
(** * Error codes

    The codes of [lib/core/include/irods/rodsErrorTable.h] that the modelled code
    returns or throws, and the replica states of [objInfo.h]. *)

From stdpp Require Import base.
From Stdlib Require Import ZArith.
From S2P Require Import Prelude.
Local Open Scope Z_scope.

Definition SYS_HEADER_READ_LEN_ERR : Z := -4000.
Definition SYS_HEADER_TYPE_LEN_ERR : Z := -6000.
Definition SYS_PACK_INSTRUCT_FORMAT_ERR : Z := -15000.
Definition SYS_OUT_OF_FILE_DESC : Z := -18000.
Definition SYS_FILE_DESC_OUT_OF_RANGE : Z := -19000.
Definition SYS_INTERNAL_NULL_INPUT_ERR : Z := -24000.
Definition SYS_INVALID_RESC_INPUT : Z := -32000.
Definition SYS_UNMATCHED_SPEC_COLL_TYPE : Z := -53000.
Definition SYS_COLLINFO_2_FORMAT_ERR : Z := -64000.
Definition SYS_NOT_SUPPORTED : Z := -66000.
Definition SYS_RESC_DOES_NOT_EXIST : Z := -78000.
Definition SYS_RESC_IS_DOWN : Z := -105000.
Definition SYS_RESC_QUOTA_EXCEEDED : Z := -110000.
Definition SYS_INVALID_INPUT_PARAM : Z := -130000.
Definition SYS_NOT_IMPLEMENTED : Z := -146000.
Definition ZONE_KEY_SIGNATURE_MISMATCH : Z := -147000.
Definition SYS_HASH_IMMUTABLE : Z := -148000.
Definition SYS_UNINITIALIZED : Z := -149000.
Definition SYS_INTERNAL_ERR : Z := -154000.
Definition SYS_BAD_INPUT : Z := -158000.
Definition SYS_REPLICA_DOES_NOT_EXIST : Z := -164000.
Definition SYS_UNKNOWN_ERROR : Z := -165000.
Definition SYS_LIBRARY_ERROR : Z := -167000.
Definition SYS_REPLICA_INACCESSIBLE : Z := -168000.
Definition SYS_NOT_ALLOWED : Z := -169000.
Definition CONFIGURATION_ERROR : Z := -180000.
Definition INVALID_INPUT_ARGUMENT_NULL_POINTER : Z := -184000.
Definition USER_STRLEN_TOOLONG : Z := -306000.
Definition USER_PACKSTRUCT_INPUT_ERR : Z := -308000.
Definition USER_FILE_TOO_LARGE : Z := -311000.
Definition UNMATCHED_KEY_OR_INDEX : Z := -313000.
Definition USER_CHKSUM_MISMATCH : Z := -314000.
Definition USER_BAD_KEYWORD_ERR : Z := -315000.
Definition USER__NULL_INPUT_ERR : Z := -316000.
Definition USER_INPUT_PATH_ERR : Z := -317000.
Definition USER_INVALID_USERNAME_FORMAT : Z := -319000.
Definition USER_NO_RESC_INPUT_ERR : Z := -321000.
Definition BASE64_BUFFER_OVERFLOW : Z := -324000.
Definition BASE64_INVALID_PACKET : Z := -325000.
Definition USER_PATH_EXCEEDS_MAX : Z := -346000.
Definition USER_HASH_TYPE_MISMATCH : Z := -380000.
Definition USER_INCOMPATIBLE_PARAMS : Z := -402000.
Definition USER_INVALID_REPLICA_INPUT : Z := -403000.
Definition INTERMEDIATE_REPLICA_ACCESS : Z := -405000.
Definition LOCKED_DATA_OBJECT_ACCESS : Z := -406000.
Definition UNIX_FILE_OPEN_ERR : Z := -510000.
Definition UNIX_FILE_READ_ERR : Z := -512000.
Definition CAT_NO_ROWS_FOUND : Z := -808000.
Definition CAT_INVALID_ARGUMENT : Z := -816000.
Definition CAT_TOO_MANY_TABLES : Z := -822000.
Definition CAT_UNKNOWN_TABLE : Z := -823000.
Definition CAT_FAILED_TO_LINK_TABLES : Z := -825000.
Definition CAT_BIND_VARIABLE_LIMIT_EXCEEDED : Z := -856000.
Definition AUTH_FILE_NOT_ENCRYPTED : Z := -906000.
Definition REMOTE_SERVER_SID_NOT_DEFINED : Z := -913000.
Definition INPUT_ARG_NOT_WELL_FORMED_ERR : Z := -1084000.
Definition DATE_FORMAT_ERR : Z := -1100000.
Definition KEY_NOT_FOUND : Z := -1800000.
Definition KEY_TYPE_MISMATCH : Z := -1801000.
Definition CHILD_EXISTS : Z := -1802000.
Definition HIERARCHY_ERROR : Z := -1803000.
Definition CHILD_NOT_FOUND : Z := -1804000.
Definition NO_NEXT_RESC_FOUND : Z := -1805000.
Definition INVALID_OPERATION : Z := -1811000.
Definition DIRECT_ARCHIVE_ACCESS : Z := -1814000.
Definition ADVANCED_NEGOTIATION_NOT_SUPPORTED : Z := -1815000.
Definition DIRECT_CHILD_ACCESS : Z := -1816000.
Definition INVALID_LEXICAL_CAST : Z := -1819000.
Definition REPLICA_NOT_IN_RESC : Z := -1821000.
Definition BAD_FUNCTION_CALL : Z := -1823000.
Definition CLIENT_NEGOTIATION_ERROR : Z := -1824000.
Definition SERVER_NEGOTIATION_ERROR : Z := -1825000.
Definition DIGEST_INIT_FAILED : Z := -1831000.
Definition DIGEST_UPDATE_FAILED : Z := -1832000.
Definition DIGEST_FINAL_FAILED : Z := -1833000.

(** [repl_status_t] *)
Definition STALE_REPLICA : Z := 0.
Definition GOOD_REPLICA : Z := 1.
Definition INTERMEDIATE_REPLICA : Z := 2.
Definition READ_LOCKED : Z := 3.
Definition WRITE_LOCKED : Z := 4.

(** The status of a resource, [rodsDef.h]. *)
Definition INT_RESC_STATUS_UP : Z := 0.
Definition INT_RESC_STATUS_DOWN : Z := 1.
