(* ===== verification/Numerals.v ===== *)
(** * Decimal numerals

    What the sources use of the C++ standard library and of Boost to move between
    integers and strings: [std::to_string], [std::stoi] and, as a parameter,
    [boost::lexical_cast]. *)

From stdpp Require Import base list strings.
From Stdlib Require Import ZArith Lia Ascii.
From S2P Require Import Prelude.
Local Open Scope Z_scope.

(** Digits of [n >= 0], least significant first. *)
Fixpoint rev_digits (fuel : nat) (n : Z) : list Z :=
  match fuel with
  | O => []
  | S fuel' => if n <? 10 then [n] else (n mod 10) :: rev_digits fuel' (n / 10)
  end.

Definition digit_char (d : Z) : ascii := chr (48 + d).

Definition nat_digits (n : Z) : bstr :=
  map digit_char (rev (rev_digits (S (Z.to_nat (Z.log2 n))) n)).

(** [std::to_string] of an integer. *)
Definition to_string (z : Z) : bstr :=
  if z <? 0 then "-"%char :: nat_digits (- z) else nat_digits z.

(** Appending [k] bits. *)
Lemma lor_shift k t c : 0 <= k -> 0 <= c < 2 ^ k -> Z.lor (Z.shiftl t k) c = t * 2 ^ k + c.
Proof.
  intros Hk Hc. pose proof (Z.add_lor_land (Z.shiftl t k) c) as Hadd.
  assert (Z.land (Z.shiftl t k) c = 0) as Hland.
  { apply Z.bits_inj'. intros n Hn. rewrite Z.land_spec, Z.bits_0.
    destruct (Z.eq_dec c 0) as [->|]; [by rewrite Z.bits_0, andb_false_r|].
    destruct (Z.ltb_spec n k) as [Hlt|Hge]; [by rewrite Z.shiftl_spec_low|].
    rewrite (Z.bits_above_log2 c n), andb_false_r; [done|lia|].
    apply Z.lt_le_trans with k; [|done]. apply Z.log2_lt_pow2; lia. }
  rewrite Hland, Z.shiftl_mul_pow2 in * by lia. lia.
Qed.

(** A byte in hexadecimal, [%2.2x]. *)
Definition hex_digit (z : Z) : ascii := if z <? 10 then chr (48 + z) else chr (87 + z).
Definition hex_byte (c : ascii) : bstr := [hex_digit (uchar c / 16); hex_digit (uchar c mod 16)].

Definition is_digit (c : ascii) : bool := (48 <=? uchar c) && (uchar c <=? 57).

Definition is_space (c : ascii) : bool :=
  (uchar c =? 32) || ((9 <=? uchar c) && (uchar c <=? 13)).

Fixpoint skip_spaces (s : bstr) : bstr :=
  match s with
  | c :: s' => if is_space c then skip_spaces s' else s
  | [] => []
  end.

(** The value of the longest prefix of digits, and how many there are. *)
Fixpoint read_digits (acc : Z) (cnt : nat) (s : bstr) : Z * nat :=
  match s with
  | c :: s' => if is_digit c then read_digits (acc * 10 + (uchar c - 48)) (S cnt) s'
               else (acc, cnt)
  | [] => (acc, cnt)
  end.

Definition INT_MIN : Z := - 2 ^ 31.
Definition INT_MAX : Z := 2 ^ 31 - 1.

(** [std::stoi]: white space, a sign, a run of digits; anything after it is
    ignored. Throws when there is no digit or the value is no [int]. *)
Definition stoi (s : bstr) : res Z :=
  let s := skip_spaces s in
  let '(neg, s) := match s with
                   | c :: s' => if Ascii.eqb c "-" then (true, s')
                                else if Ascii.eqb c "+" then (false, s') else (false, s)
                   | [] => (false, s)
                   end in
  let '(v, cnt) := read_digits 0 0 s in
  match cnt with
  | O => Throw Estd
  | _ => let v := if neg : bool then - v else v in
         if (INT_MIN <=? v) && (v <=? INT_MAX) then Ok v else Throw Estd
  end.

(** [atoi] as glibc has it: [strtol] with its saturation, converted to [int]. No
    digit gives 0. *)
Definition to_int (z : Z) : Z := (z + 2 ^ 31) mod 2 ^ 32 - 2 ^ 31.
Definition atoi (s : bstr) : Z :=
  let s := skip_spaces s in
  let '(neg, s) := match s with
                   | c :: s' => if Ascii.eqb c "-" then (true, s')
                                else if Ascii.eqb c "+" then (false, s') else (false, s)
                   | [] => (false, s)
                   end in
  let v := (read_digits 0 0 s).1 in
  to_int (Z.max (- 2 ^ 63) (Z.min (2 ^ 63 - 1) (if neg : bool then - v else v))).

(** [boost::lexical_cast<T>] of a string to an integer type with the given
    range: [None] is [boost::bad_lexical_cast]. *)
Class LexicalCast := lexical_cast : Z -> Z -> bstr -> option Z.

(** What the callers rely on: a decimal numeral in range is cast to its value. *)
Class LexicalCastLaws (L : LexicalCast) : Prop :=
  lexical_cast_to_string :
    forall lo hi z, lo <= z <= hi -> lexical_cast lo hi (to_string z) = Some z.

(** [rodsLong_t] *)
Definition LONG_MIN : Z := - 2 ^ 63.
Definition LONG_MAX : Z := 2 ^ 63 - 1.

Fixpoint digits_value (ds : list Z) : Z :=
  match ds with [] => 0 | d :: ds' => d + 10 * digits_value ds' end.

Lemma rev_digits_value fuel n :
  0 <= n < 10 ^ Z.of_nat fuel -> digits_value (rev_digits fuel n) = n.
Proof.
  revert n. induction fuel as [|fuel IH]; intros n Hn.
  - simpl in *. lia.
  - cbn [rev_digits]. rewrite Nat2Z.inj_succ, Z.pow_succ_r in Hn by lia.
    destruct (Z.ltb_spec n 10); cbn [digits_value]; [lia|].
    rewrite IH; [pose proof (Z.div_mod n 10); lia|].
    split; [apply Z.div_pos; lia|]. apply Z.div_lt_upper_bound; lia.
Qed.

Lemma rev_digits_range fuel n :
  0 <= n -> Forall (fun d => 0 <= d < 10) (rev_digits fuel n).
Proof.
  revert n. induction fuel as [|fuel IH]; intros n Hn; cbn [rev_digits]; [constructor|].
  destruct (Z.ltb_spec n 10); repeat constructor; try lia.
  - apply Z.mod_pos_bound; lia.
  - apply Z.mod_pos_bound; lia.
  - apply IH, Z.div_pos; lia.
Qed.

Lemma digit_char_value d : 0 <= d < 10 -> uchar (digit_char d) = 48 + d.
Proof. intros H. unfold digit_char. rewrite uchar_chr, Z.mod_small; lia. Qed.

Lemma digit_char_digit d : 0 <= d < 10 -> is_digit (digit_char d) = true.
Proof.
  intros H. unfold is_digit. rewrite digit_char_value by done.
  apply andb_true_iff. rewrite !Z.leb_le. lia.
Qed.

Lemma log2_fuel n : 0 <= n -> n < 10 ^ Z.of_nat (S (Z.to_nat (Z.log2 n))).
Proof.
  intros Hn. rewrite Nat2Z.inj_succ, Z2Nat.id by apply Z.log2_nonneg.
  destruct (Z.eq_dec n 0) as [->|Hz]; [by vm_compute|].
  destruct (Z.log2_spec n) as [_ H]; [lia|].
  eapply Z.lt_le_trans; [exact H|]. apply Z.pow_le_mono_l. lia.
Qed.

Lemma read_digits_app ds acc cnt :
  Forall (fun d => 0 <= d < 10) ds ->
  read_digits acc cnt (map digit_char (rev ds)) =
  (acc * 10 ^ Z.of_nat (length ds) + digits_value ds, (cnt + length ds)%nat).
Proof.
  revert acc cnt. induction ds as [|d ds IH]; intros acc cnt Hall.
  - simpl. by rewrite Z.mul_1_r, Z.add_0_r, Nat.add_0_r.
  - apply Forall_cons in Hall as [Hd Hall].
    cbn [rev length digits_value]. rewrite map_app. cbn [map].
    assert (forall s acc cnt v c, read_digits acc cnt s = (v, c) ->
              Forall (fun x => is_digit x = true) s ->
              read_digits acc cnt (s ++ [digit_char d]) = (v * 10 + d, S c)) as Happ.
    { clear -Hd. intros s. induction s as [|x s IH]; simpl; intros acc cnt v c Heq Hs.
      - simplify_eq. rewrite digit_char_digit, digit_char_value by done. f_equal; lia.
      - apply Forall_cons in Hs as [Hx Hs]. rewrite Hx in *. by apply IH. }
    erewrite Happ; [|by apply IH|].
    + rewrite Nat2Z.inj_succ, Z.pow_succ_r by lia. f_equal; lia.
    + apply Forall_map, Forall_rev. eapply Forall_impl; [exact Hall|].
      intros x. apply digit_char_digit.
Qed.

Lemma read_nat_digits n :
  0 <= n -> exists c, read_digits 0 0 (nat_digits n) = (n, S c).
Proof.
  intros Hn. unfold nat_digits.
  set (ds := rev_digits _ n).
  assert (digits_value ds = n) as Hv by (apply rev_digits_value; split; [done|by apply log2_fuel]).
  rewrite read_digits_app by by apply rev_digits_range.
  rewrite Hv. simpl. unfold ds. cbn [rev_digits].
  destruct (n <? 10); simpl; eauto.
Qed.

(** The first character of a numeral is a digit. *)
Lemma nat_digits_head n : 0 <= n -> exists c s, nat_digits n = c :: s /\ is_digit c = true.
Proof.
  intros Hn. unfold nat_digits.
  set (ds := rev_digits _ n).
  assert (Forall (fun d => 0 <= d < 10) ds) as Hr by by apply rev_digits_range.
  assert (ds <> []) as Hne by (unfold ds; cbn [rev_digits]; by destruct (n <? 10)).
  assert (Forall (fun d => 0 <= d < 10) (rev ds)) as Hr' by by apply Forall_rev.
  destruct (rev ds) as [|d l] eqn:E.
  - apply (f_equal (@rev Z)) in E. rewrite rev_involutive in E. done.
  - apply Forall_cons in Hr' as [Hd _]. exists (digit_char d), (map digit_char l).
    split; [done|by apply digit_char_digit].
Qed.

Lemma digit_not_special c :
  is_digit c = true ->
  is_space c = false /\ Ascii.eqb c "-" = false /\ Ascii.eqb c "+" = false.
Proof.
  unfold is_digit, is_space. rewrite andb_true_iff, !Z.leb_le. intros [H1 H2].
  split_and!.
  - apply orb_false_iff. split; [apply Z.eqb_neq; lia|].
    apply andb_false_iff. right. apply Z.leb_gt. lia.
  - apply Ascii.eqb_neq. intros ->. vm_compute in H1. done.
  - apply Ascii.eqb_neq. intros ->. vm_compute in H1. done.
Qed.

Lemma stoi_to_string z : INT_MIN <= z <= INT_MAX -> stoi (to_string z) = Ok z.
Proof.
  intros Hz. unfold to_string, stoi.
  assert (forall v, INT_MIN <= v <= INT_MAX ->
            (INT_MIN <=? v) && (v <=? INT_MAX) = true) as Hrange.
  { intros v Hv. apply andb_true_iff. rewrite !Z.leb_le. lia. }
  destruct (Z.ltb_spec z 0).
  - cbn [skip_spaces]. change (is_space "-") with false. cbv iota.
    change (Ascii.eqb "-" "-") with true. cbv iota.
    destruct (read_nat_digits (- z)) as (c & ->); [lia|].
    rewrite Z.opp_involutive, Hrange by done. done.
  - destruct (nat_digits_head z) as (c & s & E & Hc); [lia|].
    destruct (read_nat_digits z) as (k & Hk); [lia|]. rewrite E in *.
    destruct (digit_not_special c Hc) as (Hsp & Hm & Hp).
    cbn [skip_spaces]. rewrite Hsp, Hm, Hp. cbv iota beta.
    rewrite Hk, Hrange by done. done.
Qed.

Lemma to_string_inj z1 z2 :
  INT_MIN <= z1 <= INT_MAX -> INT_MIN <= z2 <= INT_MAX ->
  to_string z1 = to_string z2 -> z1 = z2.
Proof.
  intros H1 H2 E. apply stoi_to_string in H1, H2. rewrite E in H1. congruence.
Qed.

Lemma to_string_nonempty z : to_string z <> [].
Proof.
  unfold to_string. destruct (Z.ltb_spec z 0); [done|].
  destruct (nat_digits_head z) as (c & s & -> & _); [lia|done].
Qed.

(** A cast that satisfies the laws, used by the witnesses: the numeral of the
    whole string, if it is in range. *)
Definition lexical_cast_ref : LexicalCast := fun lo hi s =>
  let '(neg, s) := match s with
                   | c :: s' => if Ascii.eqb c "-" then (true, s') else (false, s)
                   | [] => (false, s)
                   end in
  let '(v, cnt) := read_digits 0 0 s in
  if Nat.eqb cnt 0 || negb (Nat.eqb cnt (length s)) then None
  else let v := if neg : bool then - v else v in
       if (lo <=? v) && (v <=? hi) then Some v else None.

Lemma read_digits_length acc cnt s v c :
  read_digits acc cnt s = (v, c) ->
  Forall (fun x => is_digit x = true) s -> c = (cnt + length s)%nat.
Proof.
  revert acc cnt. induction s as [|x s IH]; simpl; intros acc cnt Heq Hs.
  - simplify_eq. lia.
  - apply Forall_cons in Hs as [Hx Hs]. rewrite Hx in Heq.
    rewrite (IH _ _ Heq Hs). lia.
Qed.

Lemma nat_digits_all n : 0 <= n -> Forall (fun c => is_digit c = true) (nat_digits n).
Proof.
  intros Hn. unfold nat_digits. apply Forall_map, Forall_rev.
  eapply Forall_impl; [by apply rev_digits_range|]. intros x. apply digit_char_digit.
Qed.

#[export] Instance lexical_cast_ref_laws : LexicalCastLaws lexical_cast_ref.
Proof.
  intros lo hi z Hz. unfold lexical_cast, lexical_cast_ref, to_string.
  assert ((lo <=? z) && (z <=? hi) = true) as Hr.
  { apply andb_true_iff. rewrite !Z.leb_le. lia. }
  destruct (Z.ltb_spec z 0).
  - destruct (read_nat_digits (- z)) as (c & E); [lia|].
    pose proof (read_digits_length _ _ _ _ _ E (nat_digits_all (- z) ltac:(lia))) as Hl.
    change (Ascii.eqb "-" "-") with true. cbv iota beta. rewrite E.
    simpl in Hl. rewrite Hl, Nat.eqb_refl, Z.opp_involutive, Hr.
    by rewrite <- Hl.
  - destruct (nat_digits_head z) as (c & s & E & Hc); [lia|].
    destruct (read_nat_digits z) as (k & Hk); [lia|].
    pose proof (read_digits_length _ _ _ _ _ Hk (nat_digits_all z ltac:(lia))) as Hl.
    destruct (digit_not_special c Hc) as (Hsp & Hm & Hp).
    rewrite E in *. rewrite Hm. cbv iota beta. rewrite Hk, Hl, Nat.eqb_refl, Hr.
    done.
Qed.
