(* ===== verification/Hierarchy.v ===== *)
(** * Resource hierarchies

    [lib/core/src/irods_string_tokenize.cpp] and
    [lib/core/src/irods_hierarchy_parser.cpp]: the tokenizer every component uses
    to split a string, and the parser of ["root;mid;leaf"] hierarchy strings. The
    parser object is the list of its resources ([resc_list_]). *)

From stdpp Require Import base list strings.
From Stdlib Require Import ZArith Lia Ascii.
From S2P Require Import Prelude Errors.

(** ** [string_tokenize] *)

(** The [while] loop; each round consumes at least one byte of [str]. *)
Fixpoint tokenize_loop (fuel : nat) (str delim : bstr) (last_pos pos : option nat)
    (tok : list bstr) : res (list bstr) :=
  match fuel with
  | O => Throw Ediverge
  | S fuel' =>
      match last_pos, pos with
      | None, None => Ok tok
      | None, Some _ => Throw Estd (* substr(npos, _) throws std::out_of_range *)
      | Some l, _ =>
          let tt := substr str l ((fun p => p - l)%nat <$> pos) in
          let tt := match tt with
                    | c :: tt' => if Ascii.eqb c " " then tt' else tt
                    | [] => tt
                    end in
          let last_pos' := find_first_not_of str delim pos in
          let pos' := find_first_of str delim last_pos' in
          tokenize_loop fuel' str delim last_pos' pos' (tok ++ [tt])
      end
  end.

Definition string_tokenize (str delim : bstr) (tok : list bstr) : res (list bstr) :=
  let last_pos := find_first_not_of str delim (Some O) in
  let pos := find_first_of str delim last_pos in
  tokenize_loop (S (S (length str))) str delim last_pos pos tok.

(** The reference: split at every delimiter byte, drop the empty pieces and
    remove one leading space of each piece that is left. *)
Fixpoint split_any (p : ascii -> bool) (s : bstr) : list bstr :=
  match s with
  | [] => [[]]
  | c :: s' =>
      if p c then [] :: split_any p s'
      else match split_any p s' with
           | t :: ts => (c :: t) :: ts
           | [] => [[c]]
           end
  end.

Definition nonempty (t : bstr) : bool := match t with [] => false | _ => true end.

Definition pieces (p : ascii -> bool) (s : bstr) : list bstr :=
  List.filter nonempty (split_any p s).

Definition strip_space (t : bstr) : bstr :=
  match t with
  | c :: t' => if Ascii.eqb c " " then t' else t
  | [] => t
  end.

Section pieces.
Context (p : ascii -> bool).

Lemma split_any_cons s : exists t ts, split_any p s = t :: ts.
Proof.
  destruct s as [|c s]; simpl; [eauto|].
  destruct (p c); [eauto|]. destruct (split_any p s); eauto.
Qed.

Lemma pieces_skip l s :
  Forall (fun c => p c = true) l -> pieces p (l ++ s) = pieces p s.
Proof.
  induction l as [|c l IH]; simpl; intros Hall; [done|].
  apply Forall_cons in Hall as [Hc Hall]. unfold pieces. simpl. rewrite Hc. by apply IH.
Qed.

Lemma split_any_word w s :
  Forall (fun c => p c = false) w ->
  split_any p (w ++ s) =
  match split_any p s with t :: ts => (w ++ t) :: ts | [] => [w] end.
Proof.
  induction w as [|c w IH]; simpl; intros Hall.
  - destruct (split_any_cons s) as (t & ts & ->). done.
  - apply Forall_cons in Hall as [Hc Hall]. rewrite Hc, (IH Hall).
    destruct (split_any_cons s) as (t & ts & ->). done.
Qed.

Lemma pieces_word w s :
  Forall (fun c => p c = false) w -> w <> [] ->
  match s with [] => True | c :: _ => p c = true end ->
  pieces p (w ++ s) = w :: pieces p s.
Proof.
  intros Hw Hne Hs. unfold pieces. rewrite (split_any_word w s Hw).
  destruct s as [|c s]; simpl; [|rewrite Hs; simpl]; rewrite app_nil_r; by destruct w.
Qed.
End pieces.

Lemma find_from_split (p : ascii -> bool) pre l c r :
  Forall (fun x => p x = false) l -> p c = true ->
  find_from p (pre ++ l ++ c :: r) (Some (length pre)) = Some (length pre + length l)%nat.
Proof.
  intros Hl Hc. unfold find_from. rewrite drop_app_length.
  assert (find_idx p (l ++ c :: r) = Some (length l)) as -> by
    (apply find_idx_Some; by exists l, c, r).
  done.
Qed.

Lemma find_from_none (p : ascii -> bool) pre l :
  Forall (fun x => p x = false) l -> find_from p (pre ++ l) (Some (length pre)) = None.
Proof.
  intros Hl. unfold find_from. rewrite drop_app_length.
  by rewrite (proj2 (find_idx_None p l) Hl).
Qed.

(** Splitting a string at its first byte that satisfies [p]. *)
Lemma span_cases (p : ascii -> bool) s :
  Forall (fun x => p x = false) s \/
  exists l c r, s = l ++ c :: r /\ Forall (fun x => p x = false) l /\ p c = true.
Proof.
  destruct (find_idx p s) as [i|] eqn:E.
  - apply find_idx_Some in E as (l & c & r & ? & _ & ? & ?). right. eauto 10.
  - apply find_idx_None in E. by left.
Qed.

Lemma Forall_negb (p : ascii -> bool) l b :
  Forall (fun x => negb (p x) = b) l <-> Forall (fun x => p x = negb b) l.
Proof.
  split; intros H; (eapply Forall_impl; [exact H|]); intros x; simpl; destruct (p x), b; done.
Qed.

Lemma tokenize_loop_spec fuel delim pre suf tok :
  (length suf + 1 < fuel)%nat ->
  let str := pre ++ suf in
  let last_pos := find_first_not_of str delim (Some (length pre)) in
  tokenize_loop fuel str delim last_pos (find_first_of str delim last_pos) tok =
  Ok (tok ++ map strip_space (pieces (is_any_of delim) suf)).
Proof.
  revert pre suf tok. induction fuel as [|fuel IH]; intros pre suf tok Hf; [lia|].
  unfold find_first_not_of, find_first_of.
  set (q := is_any_of delim). set (nq := fun c => negb (q c)). cbv zeta.
  destruct (span_cases nq suf) as [Hall|(l & c & r & -> & Hl & Hc)].
  { rewrite find_from_none by done. simpl. f_equal.
    apply Forall_negb in Hall. rewrite <- (app_nil_r suf), pieces_skip by done.
    simpl. by rewrite app_nil_r. }
  rewrite find_from_split by done.
  apply Forall_negb in Hl. apply negb_true_iff in Hc.
  rewrite pieces_skip by done.
  assert (pre ++ l ++ c :: r = (pre ++ l) ++ c :: r) as Hassoc by by rewrite app_assoc.
  assert (length pre + length l = length (pre ++ l))%nat as Hlen by by rewrite length_app.
  rewrite Hassoc, Hlen.
  destruct (span_cases q (c :: r)) as [Hall|(w & e & r' & Heq & Hw & He)].
  - rewrite find_from_none by done.
    destruct fuel as [|fuel']; [lia|]. cbn -[pieces].
    rewrite drop_app_length. fold q.
    rewrite <- (app_nil_r (c :: r)) at 2. by rewrite pieces_word by done.
  - rewrite Heq, find_from_split by done. cbn -[strip_space].
    assert (w <> []) as Hwne by (intros ->; simplify_eq/=; congruence).
    unfold substr. rewrite drop_app_length, Nat.add_comm, Nat.add_sub, take_app_length.
    rewrite pieces_word by done.
    specialize (IH ((pre ++ l) ++ w) (e :: r') (tok ++ [strip_space w])).
    cbv zeta in IH. rewrite length_app in IH. unfold find_first_not_of, find_first_of in IH.
    rewrite <- app_assoc in IH. rewrite (Nat.add_comm (length w)).
    etrans; [apply IH|by rewrite <- app_assoc].
    rewrite length_app, Heq, length_app in Hf.
    destruct w; [done|]. simpl in *. lia.
Qed.

Lemma tokenize_ok str delim tok :
  string_tokenize str delim tok =
  Ok (tok ++ map strip_space (pieces (is_any_of delim) str)).
Proof.
  unfold string_tokenize.
  apply (tokenize_loop_spec _ delim [] str). lia.
Qed.

(** ** [hierarchy_parser] *)

Definition DELIM : bstr := lit ";".

(** The constructor from a string: throws when no resource is found. *)
Definition hierarchy_parser (hier : bstr) : res (list bstr) :=
  l ← string_tokenize hier DELIM [];
  match l with
  | [] => Throw (Eirods SYS_INVALID_INPUT_PARAM)
  | _ => Ok l
  end.

(** [set_string]: the list is replaced even when the result is an error. *)
Definition set_string (hier : bstr) : res (error * list bstr) :=
  l ← string_tokenize hier DELIM [];
  Ok (match l with [] => ERROR SYS_INVALID_INPUT_PARAM | _ => SUCCESS end, l).

Definition add_child (resc : bstr) (rescs : list bstr) : error * list bstr :=
  if bstr_eqb resc DELIM then (ERROR SYS_INVALID_INPUT_PARAM, rescs)
  else (SUCCESS, rescs ++ [resc]).

(** The copy constructor: [add_child] for each resource, results ignored. *)
Definition hierarchy_parser_copy (rescs : list bstr) : list bstr :=
  foldl (fun acc r => (add_child r acc).2) [] rescs.

(** [str(_term_resc)]: both overloads build the string this way. *)
Fixpoint str_loop (first : bool) (ret term : bstr) (rescs : list bstr) : bstr :=
  match rescs with
  | [] => ret
  | r :: rescs' =>
      let ret := (if first then ret else ret ++ DELIM) ++ r in
      if bstr_eqb r term then ret else str_loop false ret term rescs'
  end.

Definition hier_str (rescs : list bstr) (term : bstr) : bstr := str_loop true [] term rescs.

Definition num_levels (rescs : list bstr) : Z := Z.of_nat (length rescs).

(** [std::find] followed by [erase]. *)
Fixpoint erase_first (x : bstr) (l : list bstr) : option (list bstr) :=
  match l with
  | [] => None
  | y :: l' => if bstr_eqb y x then Some l' else cons y <$> erase_first x l'
  end.

Definition remove_resource (name : bstr) (rescs : list bstr) : res (list bstr) :=
  if bstr_eqb name [] || bstr_eqb name DELIM then Throw (Eirods SYS_INVALID_INPUT_PARAM)
  else if (num_levels rescs <? 2)%Z then Throw (Eirods SYS_NOT_ALLOWED)
  else match erase_first name rescs with
       | None => Throw (Eirods CHILD_NOT_FOUND)
       | Some l => Ok l
       end.

(** [std::find] followed by [insert] in front of the hit. *)
Fixpoint insert_before (parent child : bstr) (l : list bstr) : option (list bstr) :=
  match l with
  | [] => None
  | y :: l' => if bstr_eqb y child then Some (parent :: y :: l')
               else cons y <$> insert_before parent child l'
  end.

Definition add_parent (parent child : bstr) (rescs : list bstr) : res (list bstr) :=
  if bstr_eqb parent DELIM then Throw (Eirods SYS_INVALID_INPUT_PARAM)
  else if bstr_eqb child [] then Ok (parent :: rescs)
  else match insert_before parent child rescs with
       | None => Throw (Eirods CHILD_NOT_FOUND)
       | Some l => Ok l
       end.

Definition first_resc (rescs : list bstr) : bstr :=
  match rescs with [] => [] | r :: _ => r end.

Definition last_resc (rescs : list bstr) : bstr :=
  match rescs with [] => [] | _ => List.last rescs [] end.

(** [next], the throwing overload. *)
Fixpoint next_resc (current : bstr) (rescs : list bstr) : res bstr :=
  match rescs with
  | [] => Throw (Eirods CHILD_NOT_FOUND)
  | r :: rescs' =>
      if bstr_eqb r current then
        match rescs' with
        | n :: _ => Ok n
        | [] => Throw (Eirods NO_NEXT_RESC_FOUND)
        end
      else next_resc current rescs'
  end.

(** [next], the overload that returns an [error] and clears its result. *)
Fixpoint next_resc_error (current : bstr) (rescs : list bstr) : error * bstr :=
  match rescs with
  | [] => (ERROR CHILD_NOT_FOUND, [])
  | r :: rescs' =>
      if bstr_eqb r current then
        match rescs' with
        | n :: _ => (SUCCESS, n)
        | [] => (ERROR NO_NEXT_RESC_FOUND, [])
        end
      else next_resc_error current rescs'
  end.

Definition contains (name : bstr) (rescs : list bstr) : bool :=
  existsb (fun r => bstr_eqb r name) rescs.
Definition resc_in_hier (resc : bstr) (rescs : list bstr) : bool := contains resc rescs.

(** A name the parser can carry: not empty, no delimiter, no leading space. *)
Definition valid_name (n : bstr) : Prop :=
  n <> [] /\ (";"%char ∉ n) /\ strip_space n = n.

#[export] Instance valid_name_dec n : Decision (valid_name n).
Proof. unfold valid_name. apply _. Defined.

(** The ["root;mid;leaf"] rendering. *)
Fixpoint join_hier (rescs : list bstr) : bstr :=
  match rescs with
  | [] => []
  | [r] => r
  | r :: rescs' => r ++ DELIM ++ join_hier rescs'
  end.

(** The resources up to and including the first occurrence of [term]. *)
Fixpoint upto (term : bstr) (rescs : list bstr) : list bstr :=
  match rescs with
  | [] => []
  | r :: rescs' => r :: (if bstr_eqb r term then [] else upto term rescs')
  end.

Lemma str_loop_spec term rescs ret :
  str_loop false ret term rescs =
  ret ++ match upto term rescs with [] => [] | l => DELIM ++ join_hier l end.
Proof.
  revert ret. induction rescs as [|r rescs IH]; intros ret; simpl; [by rewrite app_nil_r|].
  destruct (bstr_eqb r term); simpl; [by rewrite <- app_assoc|].
  rewrite IH. destruct rescs as [|r' rescs]; simpl; rewrite ?app_nil_r, <- !app_assoc; done.
Qed.

Lemma upto_no_term term rescs : term ∉ rescs -> upto term rescs = rescs.
Proof.
  induction rescs as [|r rescs IH]; simpl; intros Hn; [done|].
  apply not_elem_of_cons in Hn as [Hne Hn].
  rewrite (proj2 (bstr_eqb_neq r term)) by congruence. by rewrite IH.
Qed.

(** The pieces of a joined list of valid names are the names. *)
Lemma pieces_join rescs :
  Forall valid_name rescs ->
  map strip_space (pieces (is_any_of DELIM) (join_hier rescs)) = rescs.
Proof.
  induction rescs as [|r rescs IH]; intros Hall; [done|].
  apply Forall_cons in Hall as [(Hne & Hd & Hsp) Hall].
  assert (Forall (fun c => is_any_of DELIM c = false) r) as Hr.
  { apply Forall_forall. intros c Hc. apply is_any_of_false. unfold DELIM, lit. simpl.
    rewrite list_elem_of_singleton. by intros ->. }
  destruct rescs as [|r' rescs].
  - simpl join_hier. rewrite <- (app_nil_r r). rewrite pieces_word by done. simpl. by rewrite app_nil_r, Hsp.
  - change (join_hier (r :: r' :: rescs)) with (r ++ DELIM ++ join_hier (r' :: rescs)).
    rewrite pieces_word by done. cbn [map]. rewrite Hsp. f_equal.
    rewrite (pieces_skip (is_any_of DELIM) DELIM) by (by repeat constructor).
    by apply IH.
Qed.

Lemma hier_str_eq rescs term :
  hier_str rescs term = join_hier (upto term rescs).
Proof.
  unfold hier_str. destruct rescs as [|r rescs]; [done|]. simpl.
  destruct (bstr_eqb r term); [done|]. rewrite str_loop_spec.
  destruct rescs; simpl; [by rewrite app_nil_r|done].
Qed.

Lemma hierarchy_parser_str rescs :
  rescs <> [] -> Forall valid_name rescs -> hierarchy_parser (hier_str rescs []) = Ok rescs.
Proof.
  intros Hne Hall.
  assert ([] ∉ rescs) as Hnil.
  { intros Hin. rewrite Forall_forall in Hall. by destruct (Hall _ Hin) as [? _]. }
  unfold hierarchy_parser.
  rewrite hier_str_eq, (upto_no_term _ _ Hnil), tokenize_ok, (pieces_join _ Hall).
  by destruct rescs.
Qed.

Lemma hierarchy_parser_one n : valid_name n -> hierarchy_parser n = Ok [n].
Proof.
  intros Hn. pose proof (hierarchy_parser_str [n]) as H.
  rewrite hier_str_eq, upto_no_term in H.
  - apply H; [done|by apply Forall_singleton].
  - rewrite list_elem_of_singleton. intros <-. by destruct Hn.
Qed.

(** Parsing the printed form of a non-empty hierarchy of valid names gives the
    hierarchy back, through the constructor and through set_string. *)
Theorem hierarchy_roundtrip rescs :
  rescs <> [] -> Forall valid_name rescs ->
  hierarchy_parser (hier_str rescs []) = Ok rescs /\
  set_string (hier_str rescs []) = Ok (SUCCESS, rescs).
Proof.
  intros Hne Hall. split; [by apply hierarchy_parser_str|].
  pose proof (hierarchy_parser_str _ Hne Hall) as H.
  unfold hierarchy_parser, set_string in *.
  destruct (string_tokenize _ _ _) as [[|r l]|e]; simplify_eq/=; done.
Qed.

(** The tokenizer's index arithmetic terminates and computes the non-empty pieces
    between delimiters, each without one leading space, appended to the tokens there
    were. *)
Theorem string_tokenize_spec str delim tok :
  string_tokenize str delim tok =
  Ok (tok ++ map strip_space (pieces (is_any_of delim) str)).
Proof. apply tokenize_ok. Qed.

Lemma next_resc_idx current rescs :
  next_resc current rescs =
  match find_idx (fun r => bstr_eqb r current) rescs with
  | None => Throw (Eirods CHILD_NOT_FOUND)
  | Some i => match rescs !! S i with
              | Some n => Ok n
              | None => Throw (Eirods NO_NEXT_RESC_FOUND)
              end
  end.
Proof.
  induction rescs as [|r rescs IH]; simpl; [done|].
  destruct (bstr_eqb r current); [by destruct rescs|].
  rewrite IH. by destruct (find_idx _ rescs).
Qed.

Lemma insert_before_app parent child l1 l2 :
  child ∉ l1 -> insert_before parent child (l1 ++ child :: l2) = Some (l1 ++ parent :: child :: l2).
Proof.
  induction l1 as [|y l1 IH]; simpl; intros Hn; [by rewrite bstr_eqb_refl|].
  apply not_elem_of_cons in Hn as [Hne Hn].
  rewrite (proj2 (bstr_eqb_neq y child)) by congruence. by rewrite IH.
Qed.

Lemma erase_first_app x l1 l2 : x ∉ l1 -> erase_first x (l1 ++ x :: l2) = Some (l1 ++ l2).
Proof.
  induction l1 as [|y l1 IH]; simpl; intros Hn; [by rewrite bstr_eqb_refl|].
  apply not_elem_of_cons in Hn as [Hne Hn].
  rewrite (proj2 (bstr_eqb_neq y x)) by congruence. by rewrite IH.
Qed.

Lemma next_resc_app x n l1 l2 : x ∉ l1 -> next_resc x (l1 ++ x :: n :: l2) = Ok n.
Proof.
  induction l1 as [|y l1 IH]; simpl; intros Hn; [by rewrite bstr_eqb_refl|].
  apply not_elem_of_cons in Hn as [Hne Hn].
  rewrite (proj2 (bstr_eqb_neq y x)) by congruence. by apply IH.
Qed.

Lemma remove_resource_app x l1 l2 :
  valid_name x -> x ∉ l1 -> l1 ++ l2 <> [] ->
  remove_resource x (l1 ++ x :: l2) = Ok (l1 ++ l2).
Proof.
  intros (Hne & Hd & _) Hn Hnil. unfold remove_resource.
  rewrite (proj2 (bstr_eqb_neq x [])) by done.
  rewrite (proj2 (bstr_eqb_neq x DELIM)) by (intros ->; apply Hd; by left).
  assert ((num_levels (l1 ++ x :: l2) <? 2)%Z = false) as ->.
  { apply Z.ltb_ge. unfold num_levels. rewrite length_app. simpl.
    destruct l1, l2; simpl in *; try done; lia. }
  simpl. by rewrite (erase_first_app _ _ _ Hn).
Qed.

(** Inserting a parent before a resource puts it directly above that resource, and
    removing it gives the hierarchy back. *)
Theorem add_parent_remove parent child l1 l2 :
  valid_name parent -> child <> [] -> child ∉ l1 -> parent ∉ l1 ->
  let hier := l1 ++ child :: l2 in
  let hier' := l1 ++ parent :: child :: l2 in
  add_parent parent child hier = Ok hier' /\
  next_resc parent hier' = Ok child /\
  remove_resource parent hier' = Ok hier.
Proof.
  intros Hp Hc Hc1 Hp1 hier hier'. split_and!.
  - destruct Hp as (_ & Hd & _). unfold add_parent.
    rewrite (proj2 (bstr_eqb_neq parent DELIM)) by (intros ->; apply Hd; by left).
    rewrite (proj2 (bstr_eqb_neq child [])) by done.
    unfold hier. by rewrite (insert_before_app _ _ _ _ Hc1).
  - by apply next_resc_app.
  - apply remove_resource_app; [done|done|]. by destruct l1.
Qed.

(** Next returns the resource after the first occurrence of the given one, and its
    two errors tell a leaf from a resource that is not in the hierarchy; both
    overloads agree. *)
Theorem next_resc_spec current rescs :
  next_resc current rescs =
  match find_idx (fun r => bstr_eqb r current) rescs with
  | None => Throw (Eirods CHILD_NOT_FOUND)
  | Some i => match rescs !! S i with
              | Some n => Ok n
              | None => Throw (Eirods NO_NEXT_RESC_FOUND)
              end
  end /\
  next_resc_error current rescs =
  match next_resc current rescs with
  | Ok n => (SUCCESS, n)
  | Throw (Eirods c) => (ERROR c, [])
  | Throw _ => (SUCCESS, [])
  end.
Proof.
  split; [apply next_resc_idx|].
  induction rescs as [|r rescs IH]; simpl; [done|].
  destruct (bstr_eqb r current); [by destruct rescs|]. apply IH.
Qed.

Lemma hierarchy_roundtrip_witness :
  hierarchy_parser (hier_str [lit "root"; lit "leaf"] []) = Ok [lit "root"; lit "leaf"].
Proof.
  exact (proj1 (hierarchy_roundtrip [lit "root"; lit "leaf"] ltac:(discriminate) ltac:(by_evaluation))).
Defined.

Lemma add_parent_remove_witness :
  add_parent (lit "mid") (lit "leaf") [lit "root"; lit "leaf"] =
  Ok [lit "root"; lit "mid"; lit "leaf"].
Proof.
  refine (proj1 (add_parent_remove (lit "mid") (lit "leaf") [lit "root"] [] _ _ _ _)); by_evaluation.
Defined.
