(* ===== verification/Resources.v ===== *)
(** * The resource manager

    [server/core/src/irods_resource_manager.cpp] with the parent and child links
    of [irods_resource_plugin.cpp]. A [resource_ptr] is an index into the table of
    loaded resources; the manager holds the name map and the id map into it. *)

From stdpp Require Import base gmap list strings.
From Stdlib Require Import ZArith Lia Ascii.
From S2P Require Import Prelude Errors Numerals Hierarchy.

(** ** Data *)

(** A row of the query [init_from_catalog] runs: the columns 0..16. *)
Record row : Type := Row {
  c_id : bstr; c_name : bstr; c_zone : bstr; c_type : bstr; c_class : bstr;
  c_location : bstr; c_path : bstr; c_freespace : bstr; c_info : bstr;
  c_comments : bstr; c_create_ts : bstr; c_modify_ts : bstr; c_status : bstr;
  c_children : bstr; c_context : bstr; c_parent : bstr; c_parent_context : bstr
}.

(** The properties [init_from_catalog] sets on a resource plugin. *)
Record props : Type := Props {
  p_id : Z; p_status : Z; p_freespace : bstr; p_zone : bstr; p_name : bstr;
  p_location : bstr; p_type : bstr; p_class : bstr; p_path : bstr; p_info : bstr;
  p_comments : bstr; p_create_ts : bstr; p_modify_ts : bstr; p_children : bstr;
  p_context : bstr; p_parent : bstr; p_parent_context : bstr
}.

(** A loaded resource: its properties, [parent_] and [children_]. *)
Record resource : Type := Resource {
  r_props : props;
  parent_ : option nat;
  children_ : gmap bstr (bstr * nat)
}.

Record resource_manager : Type := ResourceManager {
  heap : list resource;
  resource_name_map_ : gmap bstr nat;
  resource_id_map_ : gmap Z nat
}.

Definition empty_manager : resource_manager := ResourceManager [] ∅ ∅.

Definition r_name (r : resource) : bstr := p_name (r_props r).
Definition r_id (r : resource) : Z := p_id (r_props r).

Definition RESC_DOWN : bstr := lit "down".

(** ** Conversions *)

Definition hex_value (c : ascii) : option Z :=
  let u := uchar c in
  if is_digit c then Some (u - 48)%Z
  else if ((97 <=? u) && (u <=? 102))%Z then Some (u - 87)%Z
  else if ((65 <=? u) && (u <=? 70))%Z then Some (u - 55)%Z
  else None.

Fixpoint read_base (base acc : Z) (s : bstr) : Z :=
  match s with
  | c :: s' => match hex_value c with
               | Some d => if (d <? base)%Z then read_base base (acc * base + d)%Z s' else acc
               | None => acc
               end
  | [] => acc
  end.

(** [std::strtoll(s, 0, 0)]: the base comes from the prefix; saturates. *)
Definition strtoll0 (s : bstr) : Z :=
  let s := skip_spaces s in
  let '(neg, s) := match s with
                   | c :: s' => if Ascii.eqb c "-" then (true, s')
                                else if Ascii.eqb c "+" then (false, s') else (false, s)
                   | [] => (false, s)
                   end in
  let v := match s with
           | a :: b :: s' =>
               if Ascii.eqb a "0" then
                 if Ascii.eqb b "x" || Ascii.eqb b "X" then read_base 16 0 s'
                 else read_base 8 0 (b :: s')
               else read_base 10 0 s
           | _ => read_base 10 0 s
           end in
  let v := if neg : bool then (- v)%Z else v in
  Z.max LONG_MIN (Z.min LONG_MAX v).

Section manager.
Context {L : LexicalCast}.

(** [irods::lexical_cast<rodsLong_t>] *)
Definition cast_id (s : bstr) : res Z :=
  match lexical_cast LONG_MIN LONG_MAX s with
  | Some z => Ok z
  | None => Throw (Eirods INVALID_LEXICAL_CAST)
  end.

(** ** Loading *)

(** The properties set from one row.  The host pointer [RESOURCE_HOST], which comes
    from [resolveHost], and the quota, always [RESC_QUOTA_UNINIT], are
    not kept: no operation of this file reads them. *)
Definition resource_of_row (w : row) : resource :=
  {| r_props := {|
       p_id := strtoll0 (c_id w);
       p_status := if bstr_eqb (c_status w) RESC_DOWN
                   then INT_RESC_STATUS_DOWN else INT_RESC_STATUS_UP;
       p_freespace := c_freespace w; p_zone := c_zone w; p_name := c_name w;
       p_location := c_location w; p_type := c_type w; p_class := c_class w;
       p_path := c_path w; p_info := c_info w; p_comments := c_comments w;
       p_create_ts := c_create_ts w; p_modify_ts := c_modify_ts w;
       p_children := c_children w; p_context := c_context w; p_parent := c_parent w;
       p_parent_context := c_parent_context w |};
     parent_ := None;
     children_ := ∅ |}.

(** The body of the loop over the rows; [plugin_loads] says whether
    [load_resource_plugin] succeeds for the row's type, name and context. *)
Definition load_row (plugin_loads : bstr -> bstr -> bstr -> bool)
    (m : resource_manager) (w : row) : resource_manager :=
  if plugin_loads (c_type w) (c_name w) (c_context w) then
    let r := resource_of_row w in
    let p := length (heap m) in
    {| heap := heap m ++ [r];
       resource_name_map_ := <[c_name w := p]> (resource_name_map_ m);
       resource_id_map_ := <[r_id r := p]> (resource_id_map_ m) |}
  else m.

(** The parent a resource's [RESOURCE_PARENT] property designates. *)
Definition parent_of (ids : gmap Z nat) (pr : props) : option nat :=
  match p_parent pr with
  | [] => None
  | s => lexical_cast LONG_MIN LONG_MAX s ≫= fun i => ids !! i
  end.

Definition add_child_link (name ctx : bstr) (p : nat) (r : resource) : resource :=
  match name with
  | [] => r (* add_child returns an error, which the caller ignores *)
  | _ => {| r_props := r_props r; parent_ := parent_ r;
            children_ := <[name := (ctx, p)]> (children_ r) |}
  end.

Definition set_parent (q : nat) (r : resource) : resource :=
  {| r_props := r_props r; parent_ := Some q; children_ := children_ r |}.

(** One round of [init_child_map]. *)
Definition wire_child (ids : gmap Z nat) (h : list resource) (entry : bstr * nat)
    : list resource :=
  let '(child_name, p) := entry in
  match h !! p with
  | None => h
  | Some child =>
      match parent_of ids (r_props child) with
      | None => h
      | Some q => alter (set_parent q) p
                    (alter (add_child_link child_name (p_parent_context (r_props child)) p) q h)
      end
  end.

Definition init_child_map (m : resource_manager) : resource_manager :=
  {| heap := foldl (wire_child (resource_id_map_ m)) (heap m)
               (map_to_list (resource_name_map_ m));
     resource_name_map_ := resource_name_map_ m;
     resource_id_map_ := resource_id_map_ m |}.

(** [init_from_catalog], up to the start of the plugins' operations: only the
    name map is cleared before the rows are read. *)
Definition init_from_catalog (plugin_loads : bstr -> bstr -> bstr -> bool)
    (rows : list row) (m : resource_manager) : resource_manager :=
  init_child_map
    (foldl (load_row plugin_loads)
       {| heap := heap m; resource_name_map_ := ∅; resource_id_map_ := resource_id_map_ m |}
       rows).

(** ** Lookups *)

Definition resolve_name (m : resource_manager) (key : bstr) : res nat :=
  match key with
  | [] => Throw (Eirods SYS_INVALID_INPUT_PARAM)
  | _ => match resource_name_map_ m !! key with
         | Some p => Ok p
         | None => Throw (Eirods SYS_RESC_DOES_NOT_EXIST)
         end
  end.

Definition resolve_id (m : resource_manager) (id : Z) : res nat :=
  match resource_id_map_ m !! id with
  | Some p => Ok p
  | None => Throw (Eirods SYS_RESC_DOES_NOT_EXIST)
  end.

(** Dereferencing a [resource_ptr]; every pointer the manager holds is valid. *)
Definition deref (m : resource_manager) (p : nat) : res resource :=
  match heap m !! p with Some r => Ok r | None => Throw Estd end.

Definition get_parent_name (m : resource_manager) (p : nat) : res bstr :=
  r ← deref m p;
  match p_parent (r_props r) with
  | [] => Throw (Eirods HIERARCHY_ERROR)
  | s => parent_id ← cast_id s;
         q ← resolve_id m parent_id;
         r_name <$> deref m q
  end.

(** The loop of [get_hier_to_root_for_resc]. *)
Fixpoint hier_to_root_loop (fuel : nat) (m : resource_manager) (parent_name : bstr)
    (hierarchy : list bstr) : res (list bstr) :=
  match fuel with
  | O => Throw Ediverge
  | S fuel' =>
      match parent_name with
      | [] => Ok hierarchy
      | _ =>
          p ← resolve_name m parent_name;
          match get_parent_name m p with
          | Throw (Eirods c) =>
              if (c =? HIERARCHY_ERROR)%Z then Ok hierarchy else Throw (Eirods c)
          | Throw e => Throw e
          | Ok parent_name' =>
              match parent_name' with
              | [] => hier_to_root_loop fuel' m parent_name' hierarchy
              | _ => hierarchy' ← add_parent parent_name' [] hierarchy;
                     hier_to_root_loop fuel' m parent_name' hierarchy'
              end
          end
      end
  end.

Definition get_hier_to_root_for_resc (fuel : nat) (m : resource_manager) (name : bstr)
    : res bstr :=
  match name with
  | [] => Ok []
  | _ => hierarchy ← hierarchy_parser name;
         hierarchy' ← hier_to_root_loop fuel m name hierarchy;
         Ok (hier_str hierarchy' [])
  end.

Definition hier_to_leaf_id (m : resource_manager) (hier : bstr) : res Z :=
  match hier with
  | [] => Throw (Eirods HIERARCHY_ERROR)
  | _ => l ← hierarchy_parser hier;
         match resource_name_map_ m !! last_resc l with
         | None => Throw (Eirods SYS_RESC_DOES_NOT_EXIST)
         | Some p => r_id <$> deref m p
         end
  end.

(** The overload that returns an [error]; it ignores the parser's result. *)
Definition hier_to_leaf_id_error (m : resource_manager) (hier : bstr) : res (Z + Z) :=
  match hier with
  | [] => Ok (inl HIERARCHY_ERROR)
  | _ => '(_, l) ← set_string hier;
         match resource_name_map_ m !! last_resc l with
         | None => Ok (inl SYS_RESC_DOES_NOT_EXIST)
         | Some p => (fun r => inr (r_id r)) <$> deref m p
         end
  end.

(** The loop over the parent pointers in [leaf_id_to_hier]. *)
Fixpoint walk_parents (fuel : nat) (m : resource_manager) (resc : option nat)
    (parser : list bstr) : res (list bstr) :=
  match resc with
  | None => Ok parser
  | Some p =>
      match fuel with
      | O => Throw Ediverge
      | S fuel' =>
          r ← deref m p;
          parser' ← add_parent (r_name r) [] parser;
          walk_parents fuel' m (parent_ r) parser'
      end
  end.

Definition leaf_id_to_hier (fuel : nat) (m : resource_manager) (id : Z) : res bstr :=
  match resource_id_map_ m !! id with
  | None => Throw (Eirods SYS_RESC_DOES_NOT_EXIST)
  | Some p =>
      r ← deref m p;
      parser ← hierarchy_parser (r_name r);
      parser' ← walk_parents fuel m (parent_ r) parser;
      Ok (hier_str parser' [])
  end.

Definition resc_id_to_name (m : resource_manager) (id : Z) : res bstr :=
  if (id =? 0)%Z then Ok []
  else match resource_id_map_ m !! id with
       | None => Throw (Eirods SYS_RESC_DOES_NOT_EXIST)
       | Some p => r_name <$> deref m p
       end.

Definition resc_id_str_to_name (m : resource_manager) (id : bstr) : res bstr :=
  match id with
  | [] => Ok []
  | _ => i ← cast_id id; resc_id_to_name m i
  end.

Definition num_children (r : resource) : nat := size (children_ r).

Definition is_coordinating_resource (m : resource_manager) (name : bstr) : res bool :=
  match resource_name_map_ m !! name with
  | None => Throw (Eirods SYS_RESC_DOES_NOT_EXIST)
  | Some p => (fun r => Nat.ltb 0 (num_children r)) <$> deref m p
  end.
End manager.

(** ** The invariant of a loaded manager *)

(** Every loaded resource is reachable under its name and id and only under
    those; its parent link is the resource its parent property designates. *)
Record manager_wf `{LexicalCast} (m : resource_manager) : Prop := {
  wf_name : forall p r, heap m !! p = Some r -> resource_name_map_ m !! r_name r = Some p;
  wf_id : forall p r, heap m !! p = Some r -> resource_id_map_ m !! r_id r = Some p;
  wf_name_heap : forall n p, resource_name_map_ m !! n = Some p ->
                 exists r, heap m !! p = Some r /\ r_name r = n;
  wf_id_heap : forall i p, resource_id_map_ m !! i = Some p ->
               exists r, heap m !! p = Some r /\ r_id r = i;
  wf_parent : forall p r, heap m !! p = Some r ->
              parent_ r = parent_of (resource_id_map_ m) (r_props r)
}.

(** [ancestry m p l]: following parent links from [p] reaches a root, and [l]
    are the names from that root down to [p]. *)
Inductive ancestry (m : resource_manager) : nat -> list bstr -> Prop :=
| ancestry_root p r :
    heap m !! p = Some r -> parent_ r = None -> ancestry m p [r_name r]
| ancestry_child p r q l :
    heap m !! p = Some r -> parent_ r = Some q -> ancestry m q l ->
    ancestry m p (l ++ [r_name r]).

Section wiring.
Context `{L : LexicalCast}.

Lemma wire_child_length ids h e : length (wire_child ids h e) = length h.
Proof.
  destruct e as [n p]. unfold wire_child. destruct (h !! p) as [r|]; [|done].
  destruct (parent_of ids (r_props r)); [|done]. by rewrite !length_alter.
Qed.

Lemma add_child_link_props n c p r :
  r_props (add_child_link n c p r) = r_props r /\ parent_ (add_child_link n c p r) = parent_ r.
Proof. by destruct n. Qed.

(** What one round does to each resource's properties and parent link. *)
Lemma wire_child_lookup ids h n p i r :
  h !! i = Some r ->
  exists r', wire_child ids h (n, p) !! i = Some r' /\ r_props r' = r_props r /\
    parent_ r' = if decide (i = p)
                 then match parent_of ids (r_props r) with Some q => Some q | None => parent_ r end
                 else parent_ r.
Proof.
  intros Hi. unfold wire_child.
  destruct (h !! p) as [c|] eqn:Hp.
  2:{ exists r. case_decide; [congruence|done]. }
  destruct (parent_of ids (r_props c)) as [q|] eqn:Hq.
  2:{ exists r. case_decide; simplify_eq; by rewrite ?Hq. }
  set (f := add_child_link n (p_parent_context (r_props c)) p).
  assert (exists r1, alter f q h !! i = Some r1 /\ r_props r1 = r_props r /\ parent_ r1 = parent_ r)
    as (r1 & H1 & Hpr & Hpa).
  { destruct (decide (i = q)) as [->|Hne].
    - rewrite list_lookup_alter_eq, Hi. exists (f r). split; [done|]. apply add_child_link_props.
    - rewrite list_lookup_alter_ne by done. eauto. }
  destruct (decide (i = p)) as [->|Hne].
  - rewrite list_lookup_alter_eq, H1. exists (set_parent q r1). simplify_eq. by rewrite Hq.
  - rewrite list_lookup_alter_ne by done. by exists r1.
Qed.

Lemma wire_children_lookup ids l h i r :
  h !! i = Some r -> (parent_ r = None \/ parent_ r = parent_of ids (r_props r)) ->
  exists r', foldl (wire_child ids) h l !! i = Some r' /\ r_props r' = r_props r /\
    parent_ r' = if decide (i ∈ l.*2) then parent_of ids (r_props r) else parent_ r.
Proof.
  revert h r. induction l as [|[n p] l IH]; intros h r Hi Hpar; [by exists r|].
  cbn [foldl fmap list_fmap].
  destruct (wire_child_lookup ids h n p i r Hi) as (r1 & H1 & Hpr & Hpa).
  destruct (IH _ r1 H1) as (r2 & H2 & Hpr2 & Hpa2).
  { rewrite Hpa, Hpr. destruct (decide (i = p)), (parent_of ids (r_props r)), Hpar; auto. }
  exists r2. split; [done|]. split; [congruence|]. rewrite Hpa2, Hpr, Hpa.
  destruct (decide (i ∈ l.*2)) as [Hin|Hnin]; [by rewrite decide_True by by right|].
  destruct (decide (i = p)) as [->|Hne].
  - rewrite decide_True by by left.
    destruct (parent_of ids (r_props r)), Hpar as [E|E]; by rewrite ?E.
  - rewrite decide_False; [done|]. cbn. rewrite elem_of_cons. tauto.
Qed.

Lemma foldl_wire_length ids l h : length (foldl (wire_child ids) h l) = length h.
Proof.
  revert h. induction l as [|e l IH]; intros h; simpl; [done|].
  by rewrite IH, wire_child_length.
Qed.

(** The manager after the rows are read, before the links are made. *)
Lemma load_rows_spec loads rows m :
  Forall (fun w => loads (c_type w) (c_name w) (c_context w) = true) rows ->
  foldl (load_row loads) m rows =
  {| heap := heap m ++ (resource_of_row <$> rows);
     resource_name_map_ :=
       foldl (fun nm iw => <[c_name iw.2 := iw.1]> nm) (resource_name_map_ m)
         (imap (fun i w => (length (heap m) + i, w))%nat rows);
     resource_id_map_ :=
       foldl (fun im iw => <[r_id (resource_of_row iw.2) := iw.1]> im) (resource_id_map_ m)
         (imap (fun i w => (length (heap m) + i, w))%nat rows) |}.
Proof.
  revert m. induction rows as [|w rows IH]; intros m Hall.
  - simpl. rewrite app_nil_r. by destruct m.
  - apply Forall_cons in Hall as [Hw Hall]. cbn [foldl].
    rewrite IH by done. unfold load_row. rewrite Hw. cbn [heap resource_name_map_ resource_id_map_].
    rewrite length_app. cbn [length]. rewrite <- app_assoc. cbn [fmap list_fmap app].
    cbn [imap]. rewrite Nat.add_0_r. cbn [foldl fst snd].
    assert (imap (λ i w0, (length (heap m) + 1 + i, w0)) rows =
            imap ((λ i w0, (length (heap m) + i, w0)) ∘ S) rows) as ->.
    { apply imap_ext. intros i x _. simpl. f_equal. lia. }
    done.
Qed.

(** Inserting along an injective list of keys. *)
Lemma foldl_insert_imap {K A} `{Countable K} (f : A -> K) (l : list A) (m : gmap K nat) k :
  NoDup (f <$> l) ->
  forall x v,
  foldl (fun mm iw => <[f iw.2 := iw.1]> mm) m (imap (fun i w => (k + i, w)) l) !! x = Some v <->
  (exists i a, l !! i = Some a /\ f a = x /\ v = k + i) \/ (m !! x = Some v /\ x ∉ f <$> l).
Proof.
  revert m k. induction l as [|a l IH]; intros m k Hnd x v.
  - simpl. split; [intros Hx; right; split; [done|apply not_elem_of_nil]|].
    by intros [(i & a & Hi & _)|[Hx _]].
  - rewrite fmap_cons in Hnd. apply NoDup_cons in Hnd as [Hna Hnd].
    cbn [imap foldl fst snd].
    assert (imap ((λ i w, (k + i, w)) ∘ S) l = imap (λ i w, (S k + i, w)) l) as ->.
    { apply imap_ext. intros i y _. simpl. f_equal. lia. }
    rewrite IH by done. rewrite Nat.add_0_r, fmap_cons, not_elem_of_cons. split.
    + intros [(i & b & Hb & <- & ->)|[Hx Hn]].
      * left. exists (S i), b. simpl. split_and!; [done|done|lia].
      * destruct (decide (x = f a)) as [->|Hne].
        -- rewrite lookup_insert_eq in Hx. simplify_eq. left. exists 0, a. simpl.
           split_and!; [done|done|lia].
        -- rewrite lookup_insert_ne in Hx by done. by right.
    + intros [(i & b & Hb & <- & ->)|(Hx & Hne & Hn)].
      * destruct i as [|i]; simpl in Hb.
        -- simplify_eq. right. rewrite lookup_insert_eq, Nat.add_0_r. done.
        -- left. exists i, b. split_and!; [done|done|lia].
      * right. by rewrite lookup_insert_ne.
Qed.

Lemma foldl_insert_imap_empty {K A} `{Countable K} (f : A -> K) (l : list A) :
  NoDup (f <$> l) ->
  forall x v,
  foldl (fun mm iw => <[f iw.2 := iw.1]> mm) (∅ : gmap K nat) (imap (fun i w => (0 + i, w)) l) !! x =
    Some v <->
  exists w, l !! v = Some w /\ f w = x.
Proof.
  intros Hnd x v. rewrite (foldl_insert_imap f) by done. split.
  - intros [(i & w & ? & ? & ->)|[? _]]; [by eauto|done].
  - intros (w & ? & ?). left. by exists v, w.
Qed.

End wiring.

Section theorems.
Context `{L : LexicalCast}.

Lemma init_from_catalog_wf_aux loads rows :
  Forall (fun w => loads (c_type w) (c_name w) (c_context w) = true) rows ->
  NoDup (c_name <$> rows) -> NoDup ((fun w => strtoll0 (c_id w)) <$> rows) ->
  manager_wf (init_from_catalog loads rows empty_manager) /\
  Forall2 (fun w r => r_props r = r_props (resource_of_row w)) rows
    (heap (init_from_catalog loads rows empty_manager)).
Proof.
  intros Hl Hn Hi. unfold init_from_catalog. rewrite load_rows_spec by done.
  unfold init_child_map, empty_manager. cbn [heap resource_name_map_ resource_id_map_ length app].
  set (im := foldl _ ∅ _). set (nm := foldl _ ∅ _).
  set (h0 := resource_of_row <$> rows). set (h := foldl _ h0 _).
  assert (forall n v, nm !! n = Some v <-> exists w, rows !! v = Some w /\ c_name w = n) as Hnm.
  { by apply (foldl_insert_imap_empty c_name). }
  assert (forall i v, im !! i = Some v <-> exists w, rows !! v = Some w /\ strtoll0 (c_id w) = i) as Him.
  { by apply (foldl_insert_imap_empty (fun w => strtoll0 (c_id w))). }
  assert (length h = length rows) as Hlen.
  { unfold h. rewrite foldl_wire_length. unfold h0. apply length_fmap. }
  assert (forall p w, rows !! p = Some w -> exists r, h !! p = Some r /\
            r_props r = r_props (resource_of_row w) /\ parent_ r = parent_of im (r_props r)) as Hh.
  { intros p w Hp.
    destruct (wire_children_lookup im (map_to_list nm) h0 p (resource_of_row w)) as (r & Hr & Hpr & Hpa).
    - unfold h0. by rewrite list_lookup_fmap, Hp.
    - by left.
    - exists r. split_and!; [done|done|]. rewrite Hpa, Hpr, decide_True; [done|].
      apply list_elem_of_fmap. exists (c_name w, p). split; [done|].
      apply elem_of_map_to_list, Hnm. eauto. }
  assert (forall p r, h !! p = Some r -> exists w, rows !! p = Some w) as Hback.
  { intros p r Hp. apply lookup_lt_is_Some. rewrite <- Hlen. by eapply lookup_lt_Some. }
  assert (forall p r w, h !! p = Some r -> rows !! p = Some w ->
            r_props r = r_props (resource_of_row w) /\ parent_ r = parent_of im (r_props r)) as Hpw.
  { intros p r w Hp Hw. destruct (Hh p w Hw) as (r' & ? & ? & ?). by simplify_eq. }
  split.
  - constructor; cbn [heap resource_name_map_ resource_id_map_].
    + intros p r Hp. destruct (Hback p r Hp) as [w Hw].
      destruct (Hpw p r w Hp Hw) as [Hpr _]. apply Hnm. exists w. unfold r_name. by rewrite Hpr.
    + intros p r Hp. destruct (Hback p r Hp) as [w Hw].
      destruct (Hpw p r w Hp Hw) as [Hpr _]. apply Him. exists w. unfold r_id. by rewrite Hpr.
    + intros n p Hp. apply Hnm in Hp as (w & Hw & <-).
      destruct (Hh p w Hw) as (r & ? & Hpr & _). exists r. unfold r_name. by rewrite Hpr.
    + intros i p Hp. apply Him in Hp as (w & Hw & <-).
      destruct (Hh p w Hw) as (r & ? & Hpr & _). exists r. unfold r_id. by rewrite Hpr.
    + intros p r Hp. destruct (Hback p r Hp) as [w Hw]. by apply (Hpw p r w).
  - apply Forall2_same_length_lookup_2; [done|].
    intros p w r Hw Hp. by apply (Hpw p r w).
Qed.

(** Well-formed managers whose resource names the parser can carry and whose
    parent properties designate loaded resources. *)
Definition manager_valid (m : resource_manager) : Prop :=
  manager_wf m /\
  forall p r, heap m !! p = Some r ->
    valid_name (r_name r) /\
    (p_parent (r_props r) = [] \/ is_Some (parent_of (resource_id_map_ m) (r_props r))).

Lemma add_parent_front n l : valid_name n -> add_parent n [] l = Ok (n :: l).
Proof.
  intros (_ & Hd & _). unfold add_parent.
  by rewrite (proj2 (bstr_eqb_neq n DELIM)) by (intros ->; apply Hd; by left).
Qed.

Lemma ancestry_valid m p l : manager_valid m -> ancestry m p l -> l <> [] /\ Forall valid_name l.
Proof.
  intros [_ Hv]. induction 1 as [p r Hp _|p r q l Hp _ _ [IH1 IH2]];
    destruct (Hv p r Hp) as [Hn _].
  - split; [done|by apply Forall_singleton].
  - split; [by destruct l|]. by apply Forall_app_2; [|apply Forall_singleton].
Qed.

Lemma walk_parents_spec fuel m q l parser :
  manager_valid m -> ancestry m q l -> (length l <= fuel)%nat ->
  walk_parents fuel m (Some q) parser = Ok (l ++ parser).
Proof.
  intros Hv Hanc. revert fuel parser.
  induction Hanc as [p r Hp Hpar|p r q l Hp Hpar Hanc IH]; intros fuel parser Hf.
  - destruct fuel as [|fuel]; [simpl in Hf; lia|]. simpl. unfold deref. rewrite Hp. simpl.
    rewrite add_parent_front by by apply (proj2 Hv p r). simpl. rewrite Hpar. by destruct fuel.
  - rewrite length_app in Hf. simpl in Hf.
    destruct fuel as [|fuel]; [lia|]. simpl. unfold deref. rewrite Hp. simpl.
    rewrite add_parent_front by by apply (proj2 Hv p r). simpl. rewrite Hpar.
    rewrite IH by lia. by rewrite <- app_assoc.
Qed.

(** The two ways a parent is found agree. *)
Lemma get_parent_name_spec m p r :
  manager_valid m -> heap m !! p = Some r ->
  match parent_ r with
  | None => get_parent_name m p = Throw (Eirods HIERARCHY_ERROR)
  | Some q => exists rq, heap m !! q = Some rq /\ get_parent_name m p = Ok (r_name rq)
  end.
Proof.
  intros [Hwf Hv] Hp. rewrite (wf_parent m Hwf p r Hp).
  destruct (Hv p r Hp) as [_ Hpar]. unfold get_parent_name, deref. rewrite Hp. simpl.
  unfold parent_of in *. destruct (p_parent (r_props r)) as [|c s] eqn:Es; [done|].
  destruct Hpar as [?|[q Hq]]; [done|]. rewrite Hq.
  apply bind_Some in Hq as (i & Hi & Hq). unfold cast_id. rewrite Hi. simpl.
  unfold resolve_id. rewrite Hq. simpl.
  destruct (wf_id_heap m Hwf i q Hq) as (rq & Hrq & _). rewrite Hrq. eauto.
Qed.

Lemma resolve_name_spec m p r :
  manager_valid m -> heap m !! p = Some r -> resolve_name m (r_name r) = Ok p.
Proof.
  intros [Hwf Hv] Hp. destruct (Hv p r Hp) as [(Hne & _) _].
  unfold resolve_name. rewrite (wf_name m Hwf p r Hp). by destruct (r_name r).
Qed.

Lemma hier_to_root_loop_spec m p l r hierarchy fuel :
  manager_valid m -> ancestry m p l -> heap m !! p = Some r -> (length l <= fuel)%nat ->
  exists l', l = l' ++ [r_name r] /\
  hier_to_root_loop fuel m (r_name r) hierarchy = Ok (l' ++ hierarchy).
Proof.
  intros Hv Hanc. revert r hierarchy fuel.
  induction Hanc as [p r Hp Hpar|p r q l Hp Hpar Hanc IH]; intros r' hierarchy fuel Hr Hf;
    simplify_eq; pose proof (get_parent_name_spec m p r Hv Hp) as Hg; rewrite Hpar in Hg.
  - destruct fuel as [|fuel]; [simpl in Hf; lia|]. exists []. split; [done|].
    cbn [hier_to_root_loop]. rewrite (resolve_name_spec m p r Hv Hp). simpl. rewrite Hg. simpl.
    destruct (proj2 Hv p r Hp) as [(Hne & _) _]. by destruct (r_name r).
  - destruct Hg as (rq & Hq & Hg). rewrite length_app in Hf. simpl in Hf.
    destruct fuel as [|fuel]; [lia|].
    destruct (IH rq (r_name rq :: hierarchy) fuel Hq ltac:(lia)) as (l' & -> & Hloop).
    exists (l' ++ [r_name rq]). split; [done|].
    cbn [hier_to_root_loop]. rewrite (resolve_name_spec m p r Hv Hp). simpl. rewrite Hg.
    destruct (proj2 Hv q rq Hq) as [Hvq _]. rewrite (add_parent_front _ _ Hvq). simpl.
    destruct (proj2 Hv p r Hp) as [(Hne & _) _].
    rewrite <- app_assoc. simpl. destruct Hvq as (Hneq & _).
    by destruct (r_name r), (r_name rq).
Qed.

Lemma ancestry_last m p l r :
  ancestry m p l -> heap m !! p = Some r -> exists l', l = l' ++ [r_name r].
Proof. destruct 1; intros; simplify_eq; [by exists []|eauto]. Qed.

Lemma hier_str_nonempty l : l <> [] -> Forall valid_name l -> hier_str l [] <> [].
Proof.
  intros Hne Hall E. pose proof (hierarchy_parser_str l Hne Hall) as H. rewrite E in H.
  unfold hierarchy_parser in H. by rewrite tokenize_ok in H.
Qed.

(** C22: Loading rows with distinct names and ids, whose plugins load, yields a manager
    in which every resource is found under its name and its id and nothing else is,
    has the properties of its row, and is linked to the parent its row designates. *)
Theorem init_from_catalog_wf loads rows :
  Forall (fun w => loads (c_type w) (c_name w) (c_context w) = true) rows ->
  NoDup (c_name <$> rows) -> NoDup ((fun w => strtoll0 (c_id w)) <$> rows) ->
  manager_wf (init_from_catalog loads rows empty_manager) /\
  Forall2 (fun w r => r_props r = r_props (resource_of_row w)) rows
    (heap (init_from_catalog loads rows empty_manager)).
Proof. apply init_from_catalog_wf_aux. Qed.

(** For a resource of a well-formed manager whose parents lead to a root, the
    hierarchy computed from its id and the one computed from its name are the path
    from the root, and the leaf id of that hierarchy is the resource's id; fuel for
    the length of the path is enough. *)
Theorem leaf_hierarchy_roundtrip m p r l fuel :
  manager_valid m -> heap m !! p = Some r -> ancestry m p l -> (length l <= fuel)%nat ->
  leaf_id_to_hier fuel m (r_id r) = Ok (hier_str l []) /\
  get_hier_to_root_for_resc fuel m (r_name r) = Ok (hier_str l []) /\
  hier_to_leaf_id m (hier_str l []) = Ok (r_id r).
Proof.
  intros Hv Hp Hanc Hf.
  destruct (ancestry_valid m p l Hv Hanc) as [Hne Hall].
  destruct (proj2 Hv p r Hp) as [Hname _].
  split_and!.
  - unfold leaf_id_to_hier. rewrite (wf_id m (proj1 Hv) p r Hp). unfold deref. rewrite Hp. simpl.
    rewrite (hierarchy_parser_one _ Hname). simpl.
    destruct Hanc as [p r' Hp' Hpar|p r' q l Hp' Hpar Hanc]; simplify_eq; rewrite Hpar.
    + by destruct fuel.
    + rewrite length_app in Hf. by rewrite (walk_parents_spec fuel m q l) by (done || lia).
  - unfold get_hier_to_root_for_resc. rewrite (hierarchy_parser_one _ Hname). simpl.
    destruct (hier_to_root_loop_spec m p l r [r_name r] fuel Hv Hanc Hp Hf) as (l' & -> & ->).
    destruct Hname as (Hn & _). by destruct (r_name r).
  - unfold hier_to_leaf_id. rewrite (hierarchy_parser_str _ Hne Hall). simpl.
    destruct (ancestry_last m p l r Hanc Hp) as (l' & ->).
    assert (last_resc (l' ++ [r_name r]) = r_name r) as ->.
    { unfold last_resc. rewrite List.last_last. by destruct l'. }
    rewrite (wf_name m (proj1 Hv) p r Hp). unfold deref. rewrite Hp.
    pose proof (hier_str_nonempty _ Hne Hall). by destruct (hier_str _ _).
Qed.
End theorems.

(** ** Instances *)

#[local] Existing Instance lexical_cast_ref.

Definition sample_row (id name parent : string) : row :=
  Row (lit id) (lit name) [] [] [] [] [] [] [] [] [] [] [] [] [] (lit parent) [].

(** A root with one child. *)
Definition sample_rows : list row := [sample_row "10" "root" ""; sample_row "11" "leaf" "10"].
Definition sample_manager : resource_manager :=
  init_from_catalog (fun _ _ _ => true) sample_rows empty_manager.

Lemma init_from_catalog_wf_witness : manager_wf sample_manager.
Proof.
  refine (proj1 (init_from_catalog_wf (fun _ _ _ => true) sample_rows _ _ _)); by_evaluation.
Defined.

Lemma sample_manager_valid : manager_valid sample_manager.
Proof.
  split; [refine (proj1 (init_from_catalog_wf_aux (fun _ _ _ => true) sample_rows _ _ _)); by_evaluation|].
  assert (Forall (fun r => valid_name (r_name r) /\
      (p_parent (r_props r) = [] \/
       is_Some (parent_of (resource_id_map_ sample_manager) (r_props r)))) (heap sample_manager)) as H
    by by_evaluation.
  intros p r Hr. exact (Forall_lookup_1 _ _ _ _ H Hr).
Qed.

Lemma leaf_hierarchy_roundtrip_witness : leaf_id_to_hier 2 sample_manager 11 = Ok (lit "root;leaf").
Proof.
  assert (exists r0 r1, heap sample_manager = [r0; r1] /\ parent_ r0 = None /\ parent_ r1 = Some 0%nat /\
            r_name r0 = lit "root" /\ r_name r1 = lit "leaf" /\ r_id r1 = 11%Z)
    as (r0 & r1 & Hh & P0 & P1 & N0 & N1 & I1) by (do 2 eexists; split_and!; vm_compute; reflexivity).
  pose proof (leaf_hierarchy_roundtrip sample_manager 1 r1 [lit "root"; lit "leaf"] 2 sample_manager_valid) as H.
  rewrite I1 in H. refine (proj1 (H _ _ _)); [by rewrite Hh| |simpl; lia].
  rewrite <- N1. apply (ancestry_child _ 1 r1 0 [lit "root"]); [by rewrite Hh|done|].
  rewrite <- N0. apply ancestry_root; [by rewrite Hh|done].
Defined.
