(* ===== verification/FsPath.v ===== *)
(** * Logical paths

    [lib/filesystem/src/path.cpp]: [irods::experimental::filesystem::path]. A path
    is its [value_]; an iterator is its element and its position in the path it
    was made from. *)

From stdpp Require Import base list strings.
From Stdlib Require Import ZArith Lia Ascii.
From S2P Require Import Prelude Errors Hierarchy.

(** ** Iterators *)

Definition preferred_separator : ascii := "/".
Definition dot : bstr := lit ".".
Definition dot_dot : bstr := lit "..".

Definition is_separator (c : ascii) : bool := Ascii.eqb preferred_separator c.

Definition is_absolute (p : bstr) : bool :=
  match p with c :: _ => is_separator c | [] => false end.

(** [find_first_of(preferred_separator, pos)] *)
Definition find_sep (p : bstr) (pos : nat) : option nat :=
  find_from is_separator p (Some pos).

Definition find_last (f : ascii -> bool) (s : bstr) : option nat :=
  (fun i => length s - 1 - i)%nat <$> find_idx f (rev s).

Record iterator : Type := Iterator { element_ : bstr; pos_ : nat }.

Definition iter_begin (p : bstr) : iterator :=
  match p with
  | [] => Iterator [] 0
  | _ =>
      if is_absolute p then Iterator [preferred_separator] 0
      else Iterator (match find_sep p 0 with
                     | Some e => substr p 0 (Some e)
                     | None => p
                     end) 0
  end.

Definition iter_end (p : bstr) : iterator := Iterator [] (length p).

(** The number of consecutive separators at the front of [s]. *)
Fixpoint count_seps (s : bstr) : nat :=
  match s with
  | c :: s' => if is_separator c then S (count_seps s') else O
  | [] => O
  end.

Definition last_is_separator (p : bstr) : bool :=
  match rev p with c :: _ => is_separator c | [] => false end.

(** [operator++] *)
Definition iter_incr (fp : bstr) (it : iterator) : iterator :=
  let '(Iterator e pos) := it in
  if Nat.eqb (length fp) (S pos) && negb (nonempty e) then Iterator e (S pos)
  else
    let pos := (pos + length e)%nat in
    if Nat.eqb (length fp) pos then Iterator [] pos
    else
      let pos := (pos + count_seps (drop pos fp))%nat in
      if Nat.eqb (length fp) pos && last_is_separator fp then Iterator [] (length fp - 1)
      else match find_sep fp pos with
           | Some e_ => Iterator (substr fp pos (Some (e_ - pos)%nat)) pos
           | None => Iterator (substr fp pos (Some (length fp - pos)%nat)) pos
           end.

Definition sep_at (fp : bstr) (i : nat) : bool :=
  match fp !! i with Some c => is_separator c | None => false end.

(** [while (pos_ > 0 && f(fp\[pos_ - 1\])) --pos_;] *)
Fixpoint back_while (f : ascii -> bool) (fp : bstr) (pos : nat) : nat :=
  match pos with
  | O => O
  | S pos' => match fp !! pos' with
              | Some c => if f c then back_while f fp pos' else pos
              | None => pos
              end
  end.

(** [operator--] *)
Definition iter_decr (fp : bstr) (it : iterator) : iterator :=
  let '(Iterator e pos) := it in
  if Nat.eqb (length fp) pos && Nat.ltb 1 (length fp) && sep_at fp (pos - 1)
  then Iterator [] (pos - 1)
  else
    let at_sep := Nat.ltb 0 pos && sep_at fp (pos - 1) in
    if at_sep && Nat.eqb 0 (pos - 1) then Iterator [preferred_separator] (pos - 1)
    else
      let pos := if at_sep then back_while is_separator fp pos else pos in
      let end_ := pos in
      let pos := back_while (fun c => negb (is_separator c)) fp pos in
      Iterator (substr fp pos (Some (end_ - pos)%nat)) pos.

(** The elements from [it] up to the iterator whose position is [stop];
    [None] when the fuel runs out first. *)
Fixpoint iter_range (fuel : nat) (fp : bstr) (it : iterator) (stop : nat) : option (list bstr) :=
  if Nat.eqb (pos_ it) stop then Some []
  else match fuel with
       | O => None
       | S fuel' => cons (element_ it) <$> iter_range fuel' fp (iter_incr fp it) stop
       end.

(** The elements a range-based [for] over the path visits; every step but the
    one to a trailing empty element moves forward. *)
Definition range_fuel (p : bstr) : nat := S (S (length p)).
Definition elements (p : bstr) : list bstr :=
  default [] (iter_range (range_fuel p) p (iter_begin p) (length p)).

(** ** Operations *)

Definition append_separator_if_needed (value p : bstr) : bstr :=
  match value with
  | [] => value
  | _ => if last_is_separator value || is_absolute p then value
         else value ++ [preferred_separator]
  end.

(** [operator/=] *)
Definition path_append (value p : bstr) : bstr :=
  match p with
  | [] => match value with
          | [] => value
          | _ => if last_is_separator value then value else value ++ [preferred_separator]
          end
  | _ => if is_absolute p then p
         else append_separator_if_needed value p ++ p
  end.

(** [join(first, last)] *)
Definition join (els : list bstr) : bstr := foldl path_append [] els.

Definition root_collection (p : bstr) : bstr :=
  if is_absolute p then element_ (iter_begin p) else [].
Definition has_root_collection (p : bstr) : bool := nonempty (root_collection p).

Definition relative_path (p : bstr) : bstr :=
  if has_root_collection p then
    join (default [] (iter_range (range_fuel p) p (iter_incr p (iter_begin p)) (length p)))
  else p.
Definition has_relative_path (p : bstr) : bool := nonempty (relative_path p).

Definition parent_path (p : bstr) : bstr :=
  if has_relative_path p then
    join (default [] (iter_range (range_fuel p) p (iter_begin p)
                        (pos_ (iter_decr p (iter_end p)))))
  else p.

Definition object_name (p : bstr) : bstr :=
  if nonempty (relative_path p) then element_ (iter_decr p (iter_end p)) else [].
Definition has_object_name (p : bstr) : bool := nonempty (object_name p).

Fixpoint compare_elements (l1 l2 : list bstr) : Z :=
  match l1, l2 with
  | [], [] => 0
  | [], _ => -1
  | _, [] => 1
  | e1 :: l1', e2 :: l2' =>
      if str_ltb e1 e2 then (-1)%Z
      else if str_ltb e2 e1 then 1%Z
      else compare_elements l1' l2'
  end.
Definition path_compare (p q : bstr) : Z := compare_elements (elements p) (elements q).
Definition path_eqb (p q : bstr) : bool := Z.eqb (path_compare p q) 0.

Definition remove_object_name (p : bstr) : bstr :=
  if has_object_name p then
    match find_last is_separator p with
    | Some i => take (S i) p
    | None => p
    end
  else p.

Definition replace_object_name (p replacement : bstr) : bstr :=
  path_append (remove_object_name p) replacement.

Definition is_dot (c : ascii) : bool := Ascii.eqb "." c.

Definition stem (p : bstr) : bstr :=
  if negb (nonempty p) || path_eqb (object_name p) dot || path_eqb (object_name p) dot_dot then []
  else let n := object_name p in
       match find_last is_dot n with Some i => take i n | None => [] end.

Definition extension (p : bstr) : bstr :=
  if negb (nonempty p) || path_eqb (object_name p) dot || path_eqb (object_name p) dot_dot then []
  else let n := object_name p in
       match find_last is_dot n with Some i => drop i n | None => [] end.

Definition replace_extension (p replacement : bstr) : bstr :=
  let v := if nonempty (extension p) then
             match find_last is_dot p with Some i => take i p | None => p end
           else p in
  let v := match replacement with
           | c :: _ => if is_dot c then v else v ++ ["."%char]
           | [] => v
           end in
  v ++ replacement.

(** The body of the loop of [lexically_normal]. *)
Definition normal_step (p next_element : bstr) : bstr :=
  if path_eqb next_element dot then path_append p []
  else if path_eqb next_element dot_dot then
    if has_object_name p && negb (path_eqb (object_name p) dot_dot) then remove_object_name p
    else if negb (path_eqb [preferred_separator] p) then path_append p next_element
    else p
  else path_append p next_element.

(** The element before the last one, as [*std::next(std::rbegin(p))] reads it. *)
Definition next_to_last (p : bstr) : bstr := element_ (iter_decr p (iter_decr p (iter_end p))).

Definition lexically_normal (path : bstr) : bstr :=
  match path with
  | [] => []
  | _ =>
      let p := foldl normal_step [] (elements path) in
      match p with
      | [] => dot
      | _ => if negb (nonempty (element_ (iter_decr p (iter_end p))))
                && path_eqb dot_dot (next_to_last p)
             then parent_path p else p
      end
  end.

(** [std::mismatch] on the elements of two paths. *)
Fixpoint mismatch (l1 l2 : list bstr) : list bstr * list bstr :=
  match l1, l2 with
  | e1 :: l1', e2 :: l2' => if path_eqb e1 e2 then mismatch l1' l2' else (l1, l2)
  | _, _ => (l1, l2)
  end.

Definition lexically_relative (p base : bstr) : bstr :=
  match mismatch (elements p) (elements base) with
  | ([], []) => dot
  | (l1, l2) => foldl path_append (foldl path_append [] (map (fun _ => dot_dot) l2)) l1
  end.

Definition lexically_proximate (p base : bstr) : bstr :=
  let r := lexically_relative p base in if nonempty r then r else p.

Fixpoint lexicographical_compare (l1 l2 : list bstr) : bool :=
  match l1, l2 with
  | e1 :: l1', e2 :: l2' =>
      if str_ltb e1 e2 then true
      else if str_ltb e2 e1 then false
      else lexicographical_compare l1' l2'
  | [], _ :: _ => true
  | _, _ => false
  end.

Definition zone_name (p : bstr) : option bstr :=
  if Nat.leb 2 (length (elements p)) then Some (element_ (iter_incr p (iter_begin p))) else None.

(** ** What iteration visits *)

(** The elements a path denotes: the root separator of an absolute path, its
    non-empty components, and an empty element for a trailing separator. *)
Definition path_elements (p : bstr) : list bstr :=
  (if is_absolute p then [[preferred_separator]] else []) ++
  pieces is_separator p ++
  (if last_is_separator p && Nat.leb 2 (length p) then [[]] else []).

(** The elements that follow one which ends where [suf] starts. *)
Definition tail_elements (suf : bstr) : list bstr :=
  pieces is_separator suf ++ (if last_is_separator suf then [[]] else []).

Lemma last_is_separator_app p q :
  q <> [] -> last_is_separator (p ++ q) = last_is_separator q.
Proof.
  intros Hq. unfold last_is_separator. rewrite rev_app_distr.
  destruct (rev q) eqn:E; [|done]. apply (f_equal (@rev ascii)) in E.
  rewrite rev_involutive in E. done.
Qed.

Lemma last_is_separator_seps l :
  l <> [] -> Forall (fun c => is_separator c = true) l -> last_is_separator l = true.
Proof.
  intros Hne Hall. unfold last_is_separator. apply Forall_rev in Hall.
  destruct (rev l) eqn:E; [|by apply Forall_cons in Hall as [? _]].
  apply (f_equal (@rev ascii)) in E. rewrite rev_involutive in E. done.
Qed.

Lemma last_is_separator_word w :
  Forall (fun c => is_separator c = false) w -> last_is_separator w = false.
Proof.
  intros Hall. unfold last_is_separator. apply Forall_rev in Hall.
  destruct (rev w); [done|]. by apply Forall_cons in Hall as [? _].
Qed.

(** Every string is a run of separators followed by nothing or by a component. *)
Lemma seps_cases s :
  exists seps rest, s = seps ++ rest /\ Forall (fun c => is_separator c = true) seps /\
  (rest = [] \/ exists w suf, rest = w ++ suf /\ w <> [] /\
     Forall (fun c => is_separator c = false) w /\ (suf = [] \/ is_absolute suf = true)).
Proof.
  destruct (span_cases (fun c => negb (is_separator c)) s)
    as [Hall|(seps & c & r & -> & Hs & Hc)].
  - exists s, []. rewrite app_nil_r. apply Forall_negb in Hall. auto.
  - apply Forall_negb in Hs. apply negb_true_iff in Hc.
    exists seps, (c :: r). split_and!; [done|done|right].
    destruct (span_cases is_separator (c :: r)) as [Hall|(w & d & r' & Heq & Hw & Hd)].
    + exists (c :: r), []. rewrite app_nil_r. auto.
    + exists w, (d :: r'). split_and!; [done| |done|by right].
      intros ->. simplify_eq/=. congruence.
Qed.

Lemma count_seps_app seps rest :
  Forall (fun c => is_separator c = true) seps ->
  (rest = [] \/ is_absolute rest = false) -> count_seps (seps ++ rest) = length seps.
Proof.
  intros Hs Hr. induction Hs as [|c l Hc Hl IH]; simpl.
  - destruct Hr as [->|Hr]; [done|]. destruct rest; simpl in *; [done|]. by rewrite Hr.
  - rewrite Hc. by rewrite IH.
Qed.

Lemma find_sep_word pre w suf :
  Forall (fun c => is_separator c = false) w -> (suf = [] \/ is_absolute suf = true) ->
  find_sep (pre ++ w ++ suf) (length pre) =
  match suf with [] => None | _ => Some (length pre + length w)%nat end.
Proof.
  intros Hw Hs. unfold find_sep. destruct suf as [|c suf].
  - rewrite app_nil_r. by apply find_from_none.
  - destruct Hs as [?|Hs]; [done|]. by apply find_from_split.
Qed.

Lemma word_not_absolute w suf :
  w <> [] -> Forall (fun c => is_separator c = false) w -> is_absolute (w ++ suf) = false.
Proof. intros Hne Hw. destruct w as [|c w]; [done|]. by apply Forall_cons in Hw as [? _]. Qed.

(** [operator++] from a non-empty element, when a component follows it. *)
Lemma iter_incr_word pre e seps w suf :
  e <> [] -> Forall (fun c => is_separator c = true) seps ->
  w <> [] -> Forall (fun c => is_separator c = false) w -> (suf = [] \/ is_absolute suf = true) ->
  iter_incr (pre ++ e ++ seps ++ w ++ suf) (Iterator e (length pre)) =
  Iterator w (length (pre ++ e ++ seps)).
Proof.
  intros He Hseps Hw Hwall Hsuf. set (fp := pre ++ e ++ seps ++ w ++ suf).
  assert (fp = (pre ++ e ++ seps) ++ w ++ suf) as Hfp by (unfold fp; by rewrite <- !app_assoc).
  assert (length fp = length pre + length e + length seps + length w + length suf)%nat as Hlen.
  { unfold fp. rewrite !length_app. lia. }
  assert (drop (length pre + length e) fp = seps ++ w ++ suf) as Hdrop.
  { unfold fp. rewrite app_assoc, <- length_app. apply drop_app_length. }
  assert (0 < length w)%nat by (destruct w; simpl; [done|lia]).
  unfold iter_incr. assert (negb (nonempty e) = false) as -> by by destruct e.
  rewrite andb_false_r, (proj2 (Nat.eqb_neq _ _)) by lia. rewrite Hdrop.
  rewrite count_seps_app by (done || right; by apply word_not_absolute).
  rewrite (proj2 (Nat.eqb_neq _ _)) by lia. simpl.
  assert (length pre + length e + length seps = length (pre ++ e ++ seps))%nat as ->
    by (rewrite !length_app; lia).
  rewrite Hfp, find_sep_word by done. unfold substr. rewrite drop_app_length.
  destruct suf as [|c suf].
  - rewrite !app_nil_r. f_equal. rewrite length_app, Nat.add_comm, Nat.add_sub. by rewrite firstn_all.
  - by rewrite Nat.add_comm, Nat.add_sub, take_app_length.
Qed.

(** [operator++] from a non-empty element that only separators follow. *)
Lemma iter_incr_last pre e seps :
  e <> [] -> Forall (fun c => is_separator c = true) seps ->
  iter_incr (pre ++ e ++ seps) (Iterator e (length pre)) =
  Iterator [] (match seps with [] => length (pre ++ e ++ seps)
               | _ => length (pre ++ e ++ seps) - 1 end)%nat.
Proof.
  intros He Hseps. set (fp := pre ++ e ++ seps).
  assert (length fp = length pre + length e + length seps)%nat as Hlen.
  { unfold fp. rewrite !length_app. lia. }
  assert (drop (length pre + length e) fp = seps) as Hdrop.
  { unfold fp. rewrite app_assoc, <- length_app. apply drop_app_length. }
  unfold iter_incr. assert (negb (nonempty e) = false) as -> by by destruct e.
  rewrite andb_false_r. destruct (decide (seps = [])) as [->|Hne].
  - simpl in Hlen. rewrite Nat.add_0_r in Hlen. by rewrite Hlen, Nat.eqb_refl.
  - assert (0 < length seps)%nat by (destruct seps; simpl; [done|lia]).
    rewrite (proj2 (Nat.eqb_neq _ _)) by lia. rewrite Hdrop.
    rewrite <- (app_nil_r seps) at 1. rewrite count_seps_app by (done || by left).
    rewrite Hlen, Nat.eqb_refl. unfold fp.
    rewrite app_assoc, last_is_separator_app by done.
    rewrite last_is_separator_seps by done. by destruct seps.
Qed.

Lemma pieces_seps_only seps :
  Forall (fun c => is_separator c = true) seps -> pieces is_separator seps = [].
Proof. intros H. rewrite <- (app_nil_r seps). by rewrite pieces_skip. Qed.

(** Iteration from a non-empty element visits it and what follows. *)
Lemma iter_range_spec fuel pre e suf :
  e <> [] -> (length suf + 2 <= fuel)%nat ->
  iter_range fuel (pre ++ e ++ suf) (Iterator e (length pre)) (length (pre ++ e ++ suf)) =
  Some (e :: tail_elements suf).
Proof.
  revert pre e suf. induction fuel as [|fuel IH]; intros pre e suf He Hf; [lia|].
  set (fp := pre ++ e ++ suf).
  assert (0 < length e)%nat by (destruct e; simpl; [done|lia]).
  assert (length fp = length pre + length e + length suf)%nat as Hlen
    by (unfold fp; rewrite !length_app; lia).
  cbn [iter_range pos_ element_].
  rewrite (proj2 (Nat.eqb_neq _ _)) by lia.
  destruct (seps_cases suf) as (seps & rest & -> & Hseps & [->|(w & suf' & -> & Hw & Hwall & Hsuf)]);
    unfold fp.
  - rewrite app_nil_r in *. rewrite iter_incr_last by done. fold fp.
    assert (fp = pre ++ e ++ seps) as Hfp by (unfold fp; by rewrite app_nil_r). rewrite <- Hfp.
    unfold tail_elements. rewrite pieces_seps_only by done. simpl.
    destruct (decide (seps = [])) as [->|Hne].
    + destruct fuel; simpl; by rewrite Nat.eqb_refl.
    + rewrite last_is_separator_seps by done. destruct seps as [|c seps]; [done|].
      destruct fuel as [|fuel]; [simpl in Hf; lia|]. cbn [iter_range pos_ element_ iter_incr].
      simpl in Hlen. rewrite (proj2 (Nat.eqb_neq _ _)) by lia.
      replace (length fp =? S (length fp - 1))%nat with true by (symmetry; apply Nat.eqb_eq; lia).
      simpl. replace (S (length fp - 1)) with (length fp) by lia.
      destruct fuel; simpl; by rewrite Nat.eqb_refl.
  - rewrite iter_incr_word by done.
    assert (pre ++ e ++ seps ++ w ++ suf' = (pre ++ e ++ seps) ++ w ++ suf') as ->
      by by rewrite <- !app_assoc.
    rewrite !length_app in Hf. assert (0 < length w)%nat by (destruct w; simpl; [done|lia]).
    rewrite IH by (done || lia). simpl. f_equal. f_equal. unfold tail_elements.
    rewrite pieces_skip by done. rewrite pieces_word; [|done|done|].
    + simpl. f_equal. f_equal. rewrite app_assoc.
      destruct (decide (suf' = [])) as [->|Hne]; [|by rewrite (last_is_separator_app _ suf')].
      rewrite app_nil_r, last_is_separator_app by done. by rewrite (last_is_separator_word w).
    + destruct suf' as [|c suf']; [done|]. by destruct Hsuf.
Qed.

(** How a path begins: with the root separator, or with a component. *)
Lemma iter_begin_spec p :
  p <> [] ->
  exists e suf, p = e ++ suf /\ e <> [] /\ iter_begin p = Iterator e 0 /\
  ((is_absolute p = true /\ e = [preferred_separator]) \/
   (is_absolute p = false /\ Forall (fun c => is_separator c = false) e /\
    (suf = [] \/ is_absolute suf = true))).
Proof.
  intros Hne. unfold iter_begin. destruct p as [|c p]; [done|].
  destruct (is_absolute (c :: p)) eqn:Habs.
  - exists [preferred_separator], p. simpl in Habs. apply Ascii.eqb_eq in Habs as <-.
    split_and!; [done|done|done|by left].
  - destruct (span_cases is_separator (c :: p)) as [Hall|(w & d & r & Heq & Hw & Hd)].
    + exists (c :: p), []. rewrite app_nil_r. split_and!; [done|done| |by auto].
      pose proof (find_sep_word [] (c :: p) [] Hall (or_introl eq_refl)) as Hf.
      simpl in Hf. rewrite app_nil_r in Hf. by rewrite Hf.
    + assert (w <> []) by (intros ->; simplify_eq/=; congruence).
      exists w, (d :: r). split_and!; [done|done| |by auto].
      pose proof (find_sep_word [] w (d :: r) Hw (or_intror Hd)) as Hf. simpl in Hf.
      rewrite Heq, Hf. unfold substr. rewrite drop_0, take_app_length. done.
Qed.

Lemma iter_range_elements p :
  iter_range (range_fuel p) p (iter_begin p) (length p) = Some (path_elements p).
Proof.
  destruct (decide (p = [])) as [->|Hne]; [done|].
  destruct (iter_begin_spec p Hne) as (e & suf & -> & He & -> & Hcase).
  assert (0 < length e)%nat by (destruct e; simpl; [done|lia]).
  rewrite (iter_range_spec _ [] e suf) by (done || unfold range_fuel; rewrite length_app; lia).
  f_equal. unfold path_elements, tail_elements.
  destruct Hcase as [[-> ->]|(-> & Hw & Hsuf)].
  - rewrite (pieces_skip is_separator [preferred_separator] suf) by by repeat constructor.
    cbn [app]. f_equal. f_equal. destruct suf as [|c suf]; [done|].
    change (preferred_separator :: c :: suf) with ([preferred_separator] ++ c :: suf).
    rewrite last_is_separator_app by done. by rewrite andb_true_r.
  - rewrite pieces_word; [|done|done|by destruct suf, Hsuf].
    cbn [app]. f_equal. f_equal.
    destruct (decide (suf = [])) as [->|Hs].
    + by rewrite app_nil_r, (last_is_separator_word e).
    + rewrite last_is_separator_app by done.
      assert (2 <= length (e ++ suf))%nat as Hl by (rewrite length_app; destruct suf; simpl; [done|lia]).
      rewrite (proj2 (Nat.leb_le _ _) Hl). by rewrite andb_true_r.
Qed.

Lemma elements_eq p : elements p = path_elements p.
Proof. unfold elements. by rewrite iter_range_elements. Qed.

(** ** Components and rendering *)

Definition component (c : bstr) : Prop :=
  c <> [] /\ Forall (fun x => is_separator x = false) c.

#[export] Instance component_dec c : Decision (component c).
Proof. unfold component. apply _. Defined.

Lemma split_any_no_sep p s : Forall (Forall (fun x => p x = false)) (split_any p s).
Proof.
  induction s as [|c s IH]; simpl; [by repeat constructor|].
  destruct (p c) eqn:Ec; [by constructor|].
  destruct (split_any p s) as [|t ts]; [by repeat constructor|].
  apply Forall_cons in IH as [Ht Hts]. by repeat constructor.
Qed.

Lemma pieces_components s : Forall component (pieces is_separator s).
Proof.
  unfold pieces. pose proof (split_any_no_sep is_separator s) as H.
  induction H as [|t ts Ht Hts IH]; simpl; [constructor|].
  destruct t as [|c t]; simpl; [done|]. by constructor.
Qed.

Fixpoint join_sep (cs : list bstr) : bstr :=
  match cs with
  | [] => []
  | [c] => c
  | c :: cs' => c ++ preferred_separator :: join_sep cs'
  end.

(** An absolute path with the given components and, if [tr], a trailing separator. *)
Definition render (cs : list bstr) (tr : bool) : bstr :=
  preferred_separator :: join_sep cs ++
  match cs with [] => [] | _ => if tr then [preferred_separator] else [] end.

Lemma join_sep_snoc cs c :
  cs <> [] -> join_sep (cs ++ [c]) = join_sep cs ++ preferred_separator :: c.
Proof.
  induction cs as [|a cs IH]; intros Hne; [done|].
  destruct cs as [|b cs]; [done|].
  change (join_sep ((a :: b :: cs) ++ [c])) with (a ++ preferred_separator :: join_sep ((b :: cs) ++ [c])).
  rewrite IH by done. simpl. by rewrite <- app_assoc.
Qed.

Lemma render_snoc cs c :
  render (cs ++ [c]) false = render cs true ++ c.
Proof.
  unfold render. destruct (decide (cs = [])) as [->|Hne]; simpl; [by rewrite app_nil_r|].
  rewrite join_sep_snoc by done. destruct cs as [|a cs]; [done|].
  simpl app at 2. cbv iota. rewrite app_nil_r. by rewrite <- app_assoc.
Qed.

Lemma component_last c : component c -> last_is_separator c = false.
Proof. intros [_ H]. by apply last_is_separator_word. Qed.

Lemma component_absolute c : component c -> is_absolute c = false.
Proof. intros [Hne H]. rewrite <- (app_nil_r c). by apply word_not_absolute. Qed.

Lemma render_last cs tr :
  Forall component cs ->
  last_is_separator (render cs tr) = match cs with [] => true | _ => tr end.
Proof.
  intros Hcs. destruct (decide (cs = [])) as [->|Hne]; [done|].
  destruct tr.
  - unfold render. destruct cs as [|a cs]; [done|].
    rewrite app_comm_cons, last_is_separator_app by done. done.
  - destruct (exists_last Hne) as (l & c & ->). rewrite render_snoc.
    apply Forall_app in Hcs as [_ Hc]. apply Forall_cons in Hc as [Hc _].
    rewrite last_is_separator_app by apply Hc. rewrite (component_last c Hc).
    by destruct l.
Qed.

Lemma path_append_component cs tr c :
  Forall component cs -> component c ->
  path_append (render cs tr) c = render (cs ++ [c]) false.
Proof.
  intros Hcs Hc. rewrite render_snoc. unfold path_append.
  rewrite (component_absolute c Hc).
  assert (append_separator_if_needed (render cs tr) c = render cs true) as ->.
  { unfold append_separator_if_needed.
    rewrite (render_last cs tr Hcs), (component_absolute c Hc).
    unfold render. destruct cs as [|a cs]; [done|]. destruct tr; simpl; [done|].
    rewrite app_nil_r. done. }
  destruct Hc as [Hne _]. by destruct c.
Qed.

Lemma path_append_empty cs tr :
  Forall component cs -> path_append (render cs tr) [] = render cs true.
Proof.
  intros Hcs. unfold path_append. rewrite (render_last cs tr Hcs).
  unfold render. destruct cs as [|a cs]; [done|]. destruct tr; simpl; [done|].
  by rewrite app_nil_r.
Qed.

Lemma join_components cs ds :
  Forall component cs -> Forall component ds ->
  foldl path_append (render cs false) ds = render (cs ++ ds) false.
Proof.
  revert cs. induction ds as [|d ds IH]; intros cs Hcs Hds; simpl; [by rewrite app_nil_r|].
  apply Forall_cons in Hds as [Hd Hds]. rewrite path_append_component by done.
  rewrite IH; [by rewrite <- app_assoc| |done]. by apply Forall_app_2; [|constructor].
Qed.

Lemma join_elements_absolute p :
  is_absolute p = true ->
  join (elements p) =
  render (pieces is_separator p) (last_is_separator p && Nat.leb 2 (length p)).
Proof.
  intros Habs. rewrite elements_eq. unfold path_elements, join. rewrite Habs.
  rewrite !foldl_app. cbn [foldl].
  change (path_append [] [preferred_separator]) with (render [] false).
  rewrite join_components by (constructor || apply pieces_components). simpl app.
  destruct (last_is_separator p && Nat.leb 2 (length p)); cbn [foldl]; [|done].
  by rewrite path_append_empty by apply pieces_components.
Qed.

Lemma pieces_sep_cons s : pieces is_separator (preferred_separator :: s) = pieces is_separator s.
Proof. done. Qed.

(** The components of a rendered path are the ones it was rendered from. *)
Lemma pieces_render cs tr : Forall component cs -> pieces is_separator (render cs tr) = cs.
Proof.
  intros Hcs. unfold render.
  set (rest := match cs with [] => [] | _ => if tr then [preferred_separator] else [] end).
  assert (pieces is_separator rest = [] /\ (rest = [] \/ is_absolute rest = true)) as [Hr1 Hr2].
  { unfold rest. destruct cs, tr; auto. }
  clearbody rest.
  rewrite pieces_sep_cons.
  induction Hcs as [|c cs [Hne Hc] Hcs IH]; [done|].
  destruct cs as [|d cs].
  - simpl. rewrite pieces_word by (done || by destruct rest, Hr2). by rewrite Hr1.
  - change (join_sep (c :: d :: cs)) with (c ++ preferred_separator :: join_sep (d :: cs)).
    rewrite <- app_assoc. rewrite pieces_word by done. f_equal.
    rewrite <- app_comm_cons, pieces_sep_cons. apply IH.
Qed.

(** ** Going back from the end *)

Lemma lookup_app_last {A} (l : list A) c : (l ++ [c]) !! length l = Some c.
Proof. rewrite lookup_app_r by lia. by rewrite Nat.sub_diag. Qed.

Lemma back_while_run (f : ascii -> bool) l run r :
  Forall (fun c => f c = true) run ->
  (l = [] \/ exists l' c, l = l' ++ [c] /\ f c = false) ->
  back_while f (l ++ run ++ r) (length l + length run) = length l.
Proof.
  revert r. induction run as [|c run IH] using rev_ind; intros r Hrun Hl.
  - rewrite Nat.add_0_r. destruct Hl as [->|(l' & c & -> & Hc)]; [done|].
    rewrite length_app, Nat.add_1_r. cbn [back_while].
    rewrite lookup_app_l by (rewrite length_app; simpl; lia).
    by rewrite lookup_app_last, Hc.
  - apply Forall_app in Hrun as [Hrun Hc]. apply Forall_cons in Hc as [Hc _].
    rewrite length_app. simpl. rewrite Nat.add_1_r, Nat.add_succ_r. cbn [back_while].
    rewrite <- app_assoc, (app_assoc l run), lookup_app_r by (rewrite length_app; lia).
    rewrite length_app, Nat.sub_diag. simpl. rewrite Hc.
    rewrite <- app_assoc. by apply IH.
Qed.

Lemma sep_at_app l r i : (i < length l)%nat -> sep_at (l ++ r) i = sep_at l i.
Proof. intros H. unfold sep_at. by rewrite lookup_app_l. Qed.

Lemma sep_at_last l : l <> [] -> sep_at l (length l - 1) = last_is_separator l.
Proof.
  intros Hne. destruct (exists_last Hne) as (l' & c & ->).
  rewrite length_app. simpl. rewrite Nat.add_sub. unfold sep_at.
  rewrite lookup_app_last. unfold last_is_separator. by rewrite rev_app_distr.
Qed.

(** [operator--] from the end of a component: its start. *)
Lemma iter_decr_word pre w r e :
  component w -> (pre = [] \/ last_is_separator pre = true) ->
  iter_decr (pre ++ w ++ r) (Iterator e (length pre + length w)) = Iterator w (length pre).
Proof.
  intros [Hne Hw] Hpre. unfold iter_decr.
  assert (0 < length w)%nat by (destruct w; simpl; [done|lia]).
  assert (sep_at (pre ++ w ++ r) (length pre + length w - 1) = false) as Hsep.
  { rewrite app_assoc, sep_at_app by (rewrite length_app; lia).
    rewrite <- length_app, sep_at_last by by destruct pre, w.
    rewrite last_is_separator_app by done. by apply last_is_separator_word. }
  rewrite Hsep, !andb_false_r. cbn [andb].
  rewrite back_while_run.
  - unfold substr. rewrite drop_app_length, Nat.add_comm, Nat.add_sub. f_equal. apply take_app_length.
  - eapply Forall_impl; [exact Hw|]. intros x Hx. simpl. by rewrite Hx.
  - destruct Hpre as [->|Hpre]; [by left|right].
    destruct (decide (pre = [])) as [->|Hp]; [done|].
    destruct (exists_last Hp) as (l' & c & ->). exists l', c. split; [done|].
    rewrite last_is_separator_app in Hpre by done.
    change (last_is_separator [c]) with (is_separator c) in Hpre. by rewrite Hpre.
Qed.

(** [operator--] from the end of a path that ends with a separator. *)
Lemma iter_decr_trailing p :
  (2 <= length p)%nat -> last_is_separator p = true ->
  iter_decr p (iter_end p) = Iterator [] (length p - 1).
Proof.
  intros Hl Hs. unfold iter_decr, iter_end. rewrite Nat.eqb_refl.
  rewrite (proj2 (Nat.ltb_lt 1 (length p))) by lia.
  rewrite sep_at_last by (destruct p; simpl in *; [lia|done]). by rewrite Hs.
Qed.

Lemma iter_range_upto fuel pre e suf w r :
  e <> [] -> component w -> (suf = [] \/ last_is_separator suf = true) ->
  (r = [] \/ is_absolute r = true) -> (length suf + 2 <= fuel)%nat ->
  iter_range fuel (pre ++ e ++ suf ++ w ++ r) (Iterator e (length pre)) (length (pre ++ e ++ suf)) =
  Some (e :: pieces is_separator suf).
Proof.
  revert pre e suf. induction fuel as [|fuel IH]; intros pre e suf He Hw Hsuf Hr Hf; [lia|].
  assert (0 < length e)%nat by (destruct e; simpl; [done|lia]).
  cbn [iter_range pos_ element_].
  rewrite (proj2 (Nat.eqb_neq _ _)) by (rewrite !length_app; lia).
  destruct (seps_cases suf) as (seps & rest & -> & Hseps & [->|(w1 & suf1 & -> & Hw1 & Hwall & Hsuf1)]).
  - rewrite app_nil_r in *. rewrite iter_incr_word by (done || apply Hw).
    rewrite pieces_seps_only by done.
    destruct fuel; simpl; by rewrite Nat.eqb_refl.
  - assert (suf1 <> []) as Hne1.
    { intros ->. rewrite app_nil_r in Hsuf. destruct Hsuf as [E|E].
      - by destruct seps, w1.
      - rewrite last_is_separator_app, last_is_separator_word in E by done. done. }
    rewrite <- !app_assoc.
    rewrite (iter_incr_word pre e seps w1 (suf1 ++ w ++ r)) by
      (done || (destruct suf1; [done|destruct Hsuf1; [done|by right]])).
    assert (pre ++ e ++ seps ++ w1 ++ suf1 ++ w ++ r =
            (pre ++ e ++ seps) ++ w1 ++ suf1 ++ w ++ r) as -> by by rewrite <- !app_assoc.
    assert (pre ++ e ++ seps ++ w1 ++ suf1 = (pre ++ e ++ seps) ++ w1 ++ suf1) as ->
      by by rewrite <- !app_assoc.
    rewrite !length_app in Hf. assert (0 < length w1)%nat by (destruct w1; simpl; [done|lia]).
    rewrite IH; [|done|done| |done|lia].
    + simpl. rewrite pieces_skip by done. rewrite pieces_word by (done || by destruct suf1, Hsuf1).
      done.
    + right. destruct Hsuf as [E|E]; [by destruct seps, w1|].
      by rewrite app_assoc, last_is_separator_app in E.
Qed.

Lemma iter_range_more fuel fp it stop l :
  iter_range fuel fp it stop = Some l -> iter_range (S fuel) fp it stop = Some l.
Proof.
  revert it l. induction fuel as [|fuel IH]; intros it l H.
  - simpl in *. by destruct (Nat.eqb (pos_ it) stop).
  - cbn [iter_range] in *. destruct (Nat.eqb (pos_ it) stop); [done|].
    apply fmap_Some in H as (l' & H & ->). specialize (IH _ _ H).
    cbn [iter_range] in IH. by rewrite IH.
Qed.

Lemma iter_range_S fuel fp it stop :
  iter_range (S fuel) fp it stop =
  if Nat.eqb (pos_ it) stop then Some []
  else cons (element_ it) <$> iter_range fuel fp (iter_incr fp it) stop.
Proof. done. Qed.

Lemma relative_path_absolute p :
  is_absolute p = true ->
  relative_path p = join (pieces is_separator p ++
                          (if last_is_separator p && Nat.leb 2 (length p) then [[]] else [])).
Proof.
  intros Habs. unfold relative_path, has_root_collection, root_collection. rewrite Habs.
  pose proof (iter_range_elements p) as H. unfold path_elements in H. rewrite Habs in H.
  assert (iter_begin p = Iterator [preferred_separator] 0) as Hb.
  { unfold iter_begin. rewrite Habs. by destruct p. }
  rewrite Hb in *. cbn [nonempty element_].
  unfold range_fuel in H. rewrite iter_range_S in H. cbn [pos_ element_] in H.
  rewrite (proj2 (Nat.eqb_neq 0 (length p))) in H by (by destruct p).
  apply fmap_Some in H as (l & H & Heq). cbn [app] in Heq. injection Heq as <-.
  apply iter_range_more in H. unfold range_fuel. by rewrite H.
Qed.

Lemma path_append_nonempty v p : v <> [] \/ p <> [] -> path_append v p <> [].
Proof.
  intros H E. unfold path_append, append_separator_if_needed in E.
  destruct p as [|c p].
  - destruct v; [by destruct H|]. by destruct (last_is_separator _).
  - destruct (is_absolute (c :: p)); [done|]. destruct v; [done|].
    by destruct (last_is_separator _ || _).
Qed.

Lemma join_nonempty v els : v <> [] -> foldl path_append v els <> [].
Proof.
  revert v. induction els as [|e els IH]; intros v Hv; [done|].
  simpl. apply IH, path_append_nonempty. by left.
Qed.

Lemma relative_path_nonempty p :
  is_absolute p = true -> pieces is_separator p <> [] -> nonempty (relative_path p) = true.
Proof.
  intros Habs Hp. rewrite relative_path_absolute by done. unfold join.
  pose proof (pieces_components p) as Hc. destruct (pieces is_separator p) as [|c cs]; [done|].
  apply Forall_cons in Hc as [[Hc _] _]. cbn [app foldl].
  pose proof (join_nonempty (path_append [] c) (cs ++ (if last_is_separator p && Nat.leb 2 (length p) then [[]] else []))) as H.
  destruct (foldl _ _ _); [|done]. exfalso. apply H; [|done]. apply path_append_nonempty. by right.
Qed.

Lemma split_any_app_sep f l c s :
  f c = true -> split_any f (l ++ c :: s) = split_any f l ++ split_any f s.
Proof.
  intros Hc. induction l as [|a l IH]; simpl; [by rewrite Hc|].
  rewrite IH. destruct (f a); [done|].
  destruct (split_any_cons f l) as (t & ts & ->). done.
Qed.

Lemma pieces_app l s :
  last_is_separator l = true -> pieces is_separator (l ++ s) =
  pieces is_separator l ++ pieces is_separator s.
Proof.
  intros Hl. destruct (decide (l = [])) as [->|Hne]; [done|].
  destruct (exists_last Hne) as (l' & c & ->). rewrite last_is_separator_app in Hl by done.
  change (last_is_separator [c]) with (is_separator c) in Hl.
  unfold pieces. rewrite <- app_assoc. simpl.
  rewrite !split_any_app_sep by done. rewrite !List.filter_app. simpl. by rewrite app_nil_r.
Qed.

(** An absolute path that does not end with a separator ends with a component. *)
Lemma last_component p :
  is_absolute p = true -> last_is_separator p = false ->
  exists pre w, p = preferred_separator :: pre ++ w /\ component w /\
                (pre = [] \/ last_is_separator pre = true).
Proof.
  intros Habs Hlast. destruct p as [|c p]; [done|]. simpl in Habs.
  apply Ascii.eqb_eq in Habs as <-.
  assert (p <> []) as Hp by (by intros ->).
  change (preferred_separator :: p) with ([preferred_separator] ++ p) in Hlast.
  rewrite last_is_separator_app in Hlast by done.
  destruct (span_cases is_separator (rev p)) as [Hall|(w & d & r & Heq & Hw & Hd)].
  - exists [], p. split_and!; [done| |by left]. split; [done|].
    apply Forall_rev in Hall. by rewrite rev_involutive in Hall.
  - apply (f_equal (@rev ascii)) in Heq. rewrite rev_involutive, rev_app_distr in Heq.
    simpl in Heq. exists (rev r ++ [d]), (rev w). split_and!; [by rewrite Heq| |].
    + split; [|by apply Forall_rev]. intros E. rewrite E, app_nil_r in Heq. subst p.
      rewrite last_is_separator_app in Hlast by done.
      change (last_is_separator [d]) with (is_separator d) in Hlast. congruence.
    + right. by rewrite last_is_separator_app by done.
Qed.

Lemma parent_object_absolute p :
  is_absolute p = true -> last_is_separator p = false ->
  exists cs d, pieces is_separator p = cs ++ [d] /\ component d /\ Forall component cs /\
  object_name p = d /\ parent_path p = render cs false.
Proof.
  intros Habs Hlast. destruct (last_component p Habs Hlast) as (pre & w & Hp & Hw & Hpre).
  exists (pieces is_separator pre), w.
  assert (pieces is_separator p = pieces is_separator pre ++ [w]) as Hpc.
  { rewrite Hp, pieces_sep_cons. destruct Hpre as [->|Hpre].
    - simpl. rewrite <- (app_nil_r w) at 1. by rewrite pieces_word by (done || apply Hw).
    - rewrite pieces_app by done. f_equal. rewrite <- (app_nil_r w) at 1.
      by rewrite pieces_word by (done || apply Hw). }
  assert (nonempty (relative_path p) = true) as Hrel.
  { apply relative_path_nonempty; [done|]. rewrite Hpc. by destruct (pieces is_separator pre). }
  assert (iter_decr p (iter_end p) = Iterator w (length (preferred_separator :: pre))) as Hdec.
  { assert (last_is_separator (preferred_separator :: pre) = true) as Hl.
    { destruct Hpre as [->|Hpre]; [done|]. destruct pre as [|c pre]; [done|].
      change (preferred_separator :: c :: pre) with ([preferred_separator] ++ c :: pre).
      by rewrite last_is_separator_app. }
    pose proof (iter_decr_word (preferred_separator :: pre) w [] [] Hw (or_intror Hl)) as H.
    rewrite app_nil_r in H. unfold iter_end. rewrite Hp, <- H. f_equal.
    rewrite app_comm_cons, length_app. done. }
  split_and!; [done|done|apply pieces_components| |].
  - unfold object_name. by rewrite Hrel, Hdec.
  - unfold parent_path, has_relative_path. rewrite Hrel, Hdec. cbn [pos_].
    assert (iter_begin p = Iterator [preferred_separator] 0) as ->.
    { unfold iter_begin. rewrite Habs. by rewrite Hp. }
    pose proof (iter_range_upto (range_fuel p) [] [preferred_separator] pre w []) as H.
    rewrite app_nil_r in H. simpl app in H. simpl length in H at 2. rewrite <- Hp in H. simpl length in *.
    rewrite H; [|done|done|done|by left|].
    + unfold join. cbn [default from_option id foldl].
      change (path_append [] [preferred_separator]) with (render [] false).
      by rewrite join_components by (constructor || apply pieces_components).
    + unfold range_fuel. rewrite Hp. simpl. rewrite length_app. lia.
Qed.

(** ** Normal form *)

Lemma elements_component c : component c -> elements c = [c].
Proof.
  intros Hc. rewrite elements_eq. unfold path_elements.
  rewrite (component_absolute c Hc), (component_last c Hc). simpl. rewrite app_nil_r.
  rewrite <- (app_nil_r c) at 1. by rewrite pieces_word by (done || apply Hc).
Qed.

Lemma compare_elements_eq l1 l2 : compare_elements l1 l2 = 0%Z <-> l1 = l2.
Proof.
  revert l2. induction l1 as [|e1 l1 IH]; intros [|e2 l2]; simpl; try done.
  destruct (str_ltb e1 e2) eqn:E1.
  { split; [done|]. intros [= -> ->]. by rewrite str_ltb_irrefl in E1. }
  destruct (str_ltb e2 e1) eqn:E2.
  { split; [done|]. intros [= -> ->]. by rewrite str_ltb_irrefl in E2. }
  rewrite IH. rewrite (str_ltb_total _ _ E1 E2). split; congruence.
Qed.

Lemma path_eqb_elements p q : path_eqb p q = true <-> elements p = elements q.
Proof. unfold path_eqb, path_compare. rewrite Z.eqb_eq. apply compare_elements_eq. Qed.

(** A component other than the special ones is not equal to them as a path. *)
Lemma path_eqb_component c d : component c -> component d -> c <> d -> path_eqb c d = false.
Proof.
  intros Hc Hd Hne. destruct (path_eqb c d) eqn:E; [|done].
  apply path_eqb_elements in E. rewrite !elements_component in E by done. congruence.
Qed.

Lemma component_dot : component dot /\ component dot_dot.
Proof. split; (split; [done|by repeat constructor]). Qed.

Lemma normal_step_plain p c : c <> dot -> c <> dot_dot -> component c ->
  normal_step p c = path_append p c.
Proof.
  intros H1 H2 Hc. unfold normal_step.
  rewrite (path_eqb_component c dot), (path_eqb_component c dot_dot) by (done || apply component_dot).
  done.
Qed.

Lemma normal_step_empty p : normal_step p [] = path_append p [].
Proof. done. Qed.

Lemma normal_step_root p : normal_step p [preferred_separator] = [preferred_separator].
Proof. done. Qed.

Lemma foldl_normal_plain p cs :
  Forall component cs -> Forall (fun c => c <> dot /\ c <> dot_dot) cs ->
  foldl normal_step p cs = foldl path_append p cs.
Proof.
  intros Hc. revert p. induction Hc as [|c cs Hc Hcs IH]; intros p Hp; [done|].
  apply Forall_cons in Hp as [[H1 H2] Hp]. simpl. rewrite normal_step_plain by done. by apply IH.
Qed.

(** The last element of a rendered path, and the one before a trailing separator. *)
Lemma render_last_element cs tr :
  Forall component cs ->
  Forall (fun c => c <> dot_dot) cs ->
  negb (nonempty (element_ (iter_decr (render cs tr) (iter_end (render cs tr)))))
    && path_eqb dot_dot (next_to_last (render cs tr)) = false.
Proof.
  intros Hcs Hd. destruct (decide (cs = [])) as [->|Hne]; [done|].
  destruct (exists_last Hne) as (l & c & ->).
  apply Forall_app in Hcs as [Hl Hc]. apply Forall_cons in Hc as [Hc _].
  apply Forall_app in Hd as [_ Hd]. apply Forall_cons in Hd as [Hd _].
  assert (last_is_separator (render l true) = true) as Hlast by (rewrite render_last by done; by destruct l).
  assert (render (l ++ [c]) tr = render l true ++ c ++ (if tr then [preferred_separator] else [])) as Hr.
  { rewrite app_assoc, <- render_snoc. unfold render. destruct (l ++ [c]) eqn:E; [by destruct l|].
    rewrite app_nil_r. by destruct tr. }
  rewrite Hr. destruct tr.
  - set (q := render l true ++ c ++ [preferred_separator]).
    assert (iter_decr q (iter_end q) = Iterator [] (length (render l true) + length c)) as H1.
    { rewrite iter_decr_trailing.
      - f_equal. unfold q. rewrite !length_app. simpl. lia.
      - unfold q. rewrite !length_app. simpl. lia.
      - unfold q. by rewrite app_assoc, last_is_separator_app. }
    unfold next_to_last. rewrite H1.
    unfold q. rewrite (iter_decr_word (render l true) c) by (done || by right). simpl element_.
    rewrite path_eqb_component; [done|apply component_dot|done|congruence].
  - rewrite app_nil_r. unfold iter_end. rewrite length_app.
    pose proof (iter_decr_word (render l true) c [] [] Hc (or_intror Hlast)) as H.
    rewrite app_nil_r in H. rewrite H. destruct Hc as [Hc _]. by destruct c.
Qed.

(** Iterating over a path ends after at most one element per byte and two more, and
    yields the root separator of an absolute path, the non-empty pieces between
    separators, and an empty element for a trailing separator. *)
Theorem path_elements_spec p :
  iter_range (range_fuel p) p (iter_begin p) (length p) =
  Some ((if is_absolute p then [[preferred_separator]] else []) ++
        pieces is_separator p ++
        (if last_is_separator p && Nat.leb 2 (length p) then [[]] else [])).
Proof. apply iter_range_elements. Qed.

(** An absolute path without a trailing separator has its last component as object
    name and the path of the others as parent path; appending the one to the other
    gives the path of its elements. *)
Theorem parent_path_object_name p :
  is_absolute p = true -> last_is_separator p = false ->
  exists cs d, pieces is_separator p = cs ++ [d] /\
  object_name p = d /\ parent_path p = render cs false /\
  path_append (parent_path p) (object_name p) = join (elements p).
Proof.
  intros Habs Hlast.
  destruct (parent_object_absolute p Habs Hlast) as (cs & d & Hp & Hd & Hcs & Ho & Hpar).
  exists cs, d. split_and!; [done..|]. rewrite Ho, Hpar, path_append_component by done.
  rewrite join_elements_absolute by done. by rewrite Hlast, Hp.
Qed.

(** The normal form of an absolute path without dot components is its components
    joined by single separators, with the trailing separator kept; normalising again
    changes nothing. *)
Theorem lexically_normal_plain p :
  is_absolute p = true ->
  Forall (fun c => c <> dot /\ c <> dot_dot) (pieces is_separator p) ->
  lexically_normal p = render (pieces is_separator p) (last_is_separator p) /\
  lexically_normal (lexically_normal p) = lexically_normal p.
Proof.
  assert (forall q, is_absolute q = true ->
    Forall (fun c => c <> dot /\ c <> dot_dot) (pieces is_separator q) ->
    lexically_normal q = render (pieces is_separator q) (last_is_separator q)) as Hmain.
  { clear p. intros q Habs Hpl. pose proof (pieces_components q) as Hc.
    assert (foldl normal_step [] (elements q) =
            render (pieces is_separator q) (last_is_separator q)) as Hfold.
    { rewrite elements_eq. unfold path_elements. rewrite Habs, !foldl_app. cbn [foldl].
      rewrite normal_step_root, (foldl_normal_plain _ (pieces is_separator q)) by done.
      change [preferred_separator] with (render [] false).
      rewrite join_components by (constructor || done). simpl app.
      destruct (last_is_separator q) eqn:El; [|done].
      destruct (Nat.leb_spec 2 (length q)); cbn [andb foldl].
      - by rewrite normal_step_empty, path_append_empty.
      - destruct q as [|a [|b q]]; [done| |simpl in *; lia].
        simpl in Habs. apply Ascii.eqb_eq in Habs as <-. done. }
    unfold lexically_normal. destruct q as [|a q]; [done|]. rewrite Hfold.
    rewrite render_last_element; [by destruct (render _ _) eqn:E|done|].
    eapply Forall_impl; [exact Hpl|]. by intros x [_ ?]. }
  intros Habs Hpl. split; [by apply Hmain|].
  rewrite (Hmain p Habs Hpl). pose proof (pieces_components p) as Hc.
  rewrite Hmain; rewrite ?pieces_render by done; [|done|done].
  rewrite render_last by done. by destruct (pieces is_separator p).
Qed.

(** Two dot-dot components at the end are not both resolved, and one after a
    leading relative component removes only itself. *)
Theorem lexically_normal_dot_dot :
  lexically_normal (lit "/a/b/../..") = lit "/a/.." /\
  lexically_normal (lit "a/../b") = lit "a/b".
Proof. split; vm_compute; reflexivity. Qed.

Lemma parent_path_object_name_witness :
  exists cs d, pieces is_separator (lit "/a//b/c") = cs ++ [d] /\ object_name (lit "/a//b/c") = d /\
    parent_path (lit "/a//b/c") = render cs false.
Proof.
  destruct (parent_path_object_name (lit "/a//b/c")) as (cs & d & H1 & H2 & H3 & _); [done..|].
  exists cs, d. split_and!; assumption.
Defined.

Lemma lexically_normal_plain_witness : lexically_normal (lit "/a//b/") = lit "/a/b/".
Proof.
  refine (proj1 (lexically_normal_plain (lit "/a//b/") _ _)); [reflexivity|].
  by_evaluation.
Defined.
