(* ===== verification/Rst.v ===== *)
(** * The replica state table

    [server/core/src/replica_state_table.cpp]. An agent's table of the data
    objects it has open: for each object, every replica with its catalog columns
    before and after the operation. A replica's JSON object maps column names to
    string values ([replica_proxy.hpp], [to_json]); an entry is the JSON document
    with its ["replicas"] and ["logical_path"]. *)

From stdpp Require Import base gmap list strings.
From Stdlib Require Import ZArith Lia Ascii.
From S2P Require Import Prelude Errors Numerals Hierarchy Resources FsPath.

(** ** Data *)

Abbreviation columns := (gmap string bstr).

(** What [to_json] reads of a [DataObjInfo]. *)
Record replica : Type := Replica {
  d_data_id : Z; d_coll_id : Z; d_logical_path : bstr; d_repl_num : Z; d_version : bstr;
  d_type : bstr; d_size : Z; d_physical_path : bstr; d_owner_name : bstr; d_owner_zone : bstr;
  d_repl_status : Z; d_status : bstr; d_checksum : bstr; d_expiry : bstr; d_map_id : Z;
  d_mode : bstr; d_comments : bstr; d_atime : bstr; d_ctime : bstr; d_mtime : bstr;
  d_resc_id : Z; d_hierarchy : bstr
}.

Definition to_json (r : replica) : columns :=
  list_to_map [
    ("data_id",         to_string (d_data_id r));
    ("coll_id",         to_string (d_coll_id r));
    ("data_name",       object_name (d_logical_path r));
    ("data_repl_num",   to_string (d_repl_num r));
    ("data_version",    d_version r);
    ("data_type_name",  d_type r);
    ("data_size",       to_string (d_size r));
    ("data_path",       d_physical_path r);
    ("data_owner_name", d_owner_name r);
    ("data_owner_zone", d_owner_zone r);
    ("data_is_dirty",   to_string (d_repl_status r));
    ("data_status",     d_status r);
    ("data_checksum",   d_checksum r);
    ("data_expiry_ts",  d_expiry r);
    ("data_map_id",     to_string (d_map_id r));
    ("data_mode",       d_mode r);
    ("r_comment",       d_comments r);
    ("access_ts",       d_atime r);
    ("create_ts",       d_ctime r);
    ("modify_ts",       d_mtime r);
    ("resc_id",         to_string (d_resc_id r))
  ]%string.

(** A [DataObjInfo] list: the head and what follows it. *)
Record data_object : Type := DataObject { o_head : replica; o_rest : list replica }.
Definition o_replicas (o : data_object) : list replica := o_head o :: o_rest o.
Definition o_data_id (o : data_object) : Z := d_data_id (o_head o).
Definition o_logical_path (o : data_object) : bstr := d_logical_path (o_head o).

(** An element of ["replicas"]: ["before"], ["after"] and, while publishing,
    ["file_modified"]. *)
Record rep_entry : Type := RepEntry {
  e_before : columns; e_after : columns; e_file_modified : option columns
}.

Record entry : Type := Entry { e_replicas : list rep_entry; e_logical_path : bstr }.

Abbreviation rst := (gmap Z entry).

Inductive state_type : Type := before | after | both.

(** What the three-argument [at] returns. *)
Inductive at_result : Type := AtOne (c : columns) | AtBoth (e : rep_entry).

(** [json::at] on an object. *)
Definition json_at (c : columns) (k : string) : res bstr :=
  match c !! k with Some v => Ok v | None => Throw Ejson end.

(** [std::map::at] *)
Definition map_at {S} (key : Z) (t : rst) : M S entry :=
  match t !! key with Some e => mret e | None => throw Estd end.

(** What [data_object_finalize] is given. *)
Record publish_input : Type := PublishInput {
  pi_bytes_written : bstr; pi_irods_admin : bool; pi_logical_path : bstr;
  pi_replicas : list rep_entry; pi_trigger_file_modified : bool
}.

(** A replica is designated by its number or by its leaf resource's name. *)
Inductive replica_id_type : Type := ReplNum (n : Z) | LeafName (s : bstr).

Record publish_context : Type := PublishContext {
  pc_key : Z; pc_replica_id : replica_id_type; pc_file_modified_parameters : columns;
  pc_privileged : bool; pc_bytes_written : Z
}.

Section rst.
Context {L : LexicalCast}.
(** The global resource manager. *)
Context (resc_mgr : resource_manager).
(** [rs_data_object_finalize] with the parse of its error string: the call goes
    to the API plugin, which may use the table itself. *)
Context (finalize : publish_input -> M rst (Z * option columns)).

(** ** Finding a replica *)

Definition leaf_resource_id (name : bstr) : res Z :=
  let fuel := S (length (heap resc_mgr)) in
  hier ← get_hier_to_root_for_resc fuel resc_mgr name;
  hier_to_leaf_id resc_mgr hier.

Definition before_num (e : rep_entry) : res Z :=
  s ← json_at (e_before e) "data_repl_num";
  match lexical_cast INT_MIN INT_MAX s with Some z => Ok z | None => Throw Estd end.

Definition before_resc (e : rep_entry) : res Z :=
  s ← json_at (e_before e) "resc_id";
  match lexical_cast LONG_MIN LONG_MAX s with Some z => Ok z | None => Throw Estd end.

(** The loop of the [index_of] overloads: the first element whose column is [v]. *)
Fixpoint find_index (col : rep_entry -> res Z) (v : Z) (l : list rep_entry) : res (option nat) :=
  match l with
  | [] => Ok None
  | e :: l' => c ← col e;
               if (v =? c)%Z then Ok (Some O)
               else i ← find_index col v l'; Ok (option_map S i)
  end.

Definition index_where (col : rep_entry -> res Z) (v : Z) (key : Z) : M rst nat :=
  t ← get_state;
  match t !! key with
  | None => throw (Eirods KEY_NOT_FOUND)
  | Some e => i ← lift (find_index col v (e_replicas e));
              match i with Some i => mret i | None => throw (Eirods KEY_NOT_FOUND) end
  end.

Definition index_of_num (key num : Z) : M rst nat := index_where before_num num key.
Definition index_of_resc_id (key id : Z) : M rst nat := index_where before_resc id key.
Definition index_of_leaf (key : Z) (name : bstr) : M rst nat :=
  t ← get_state;
  match t !! key with
  | None => throw (Eirods KEY_NOT_FOUND)
  | Some _ => id ← lift (leaf_resource_id name); index_where before_resc id key
  end.

(** ** The table's operations *)

Definition rst_init : M rst unit := put_state ∅.
Definition rst_deinit : M rst unit := put_state ∅.

Definition new_rep_entry (r : replica) : rep_entry := RepEntry (to_json r) (to_json r) None.

Definition insert_object (o : data_object) : M rst Z :=
  t ← get_state;
  match t !! o_data_id o with
  | Some _ => mret 0%Z
  | None =>
      put_state (<[o_data_id o := Entry (new_rep_entry <$> o_replicas o) (o_logical_path o)]> t)
        ≫= fun _ => mret 0%Z
  end.

Definition rst_contains (key : Z) : M rst bool :=
  t ← get_state; mret (bool_decide (is_Some (t !! key))).

Definition insert_replica (o : data_object) : M rst Z :=
  c ← rst_contains (o_data_id o);
  if c : bool then
    t ← get_state;
    e ← map_at (o_data_id o) t;
    put_state (<[o_data_id o :=
                   Entry (e_replicas e ++ [new_rep_entry (o_head o)]) (e_logical_path e)]> t)
      ≫= fun _ => mret 0%Z
  else insert_object o.

Definition erase_key (key : Z) : M rst unit :=
  c ← rst_contains key;
  if c : bool then t ← get_state; put_state (delete key t)
  else throw (Eirods KEY_NOT_FOUND).

(** [json::erase(index)] on the array of replicas. *)
Definition erase_index (key : Z) (i : nat) : M rst unit :=
  t ← get_state;
  e ← map_at key t;
  if Nat.ltb i (length (e_replicas e))
  then put_state (<[key := Entry (delete i (e_replicas e)) (e_logical_path e)]> t)
  else throw Ejson.

Definition erase_leaf (key : Z) (name : bstr) : M rst unit :=
  i ← index_of_leaf key name; erase_index key i.
Definition erase_num (key num : Z) : M rst unit :=
  i ← index_of_num key num; erase_index key i.

(** The scan of the two-argument [contains] overloads. *)
Definition contains_where (col : rep_entry -> res Z) (v key : Z) : M rst bool :=
  t ← get_state;
  e ← map_at key t;
  i ← lift (find_index col v (e_replicas e));
  mret (bool_decide (is_Some i)).

Definition contains_leaf (key : Z) (name : bstr) : M rst bool :=
  c ← rst_contains key;
  if c : bool then id ← lift (leaf_resource_id name); contains_where before_resc id key
  else mret false.

Definition contains_num (key num : Z) : M rst bool :=
  c ← rst_contains key;
  if c : bool then contains_where before_num num key else mret false.

Definition rst_at (key : Z) : M rst (list rep_entry) :=
  t ← get_state;
  match t !! key with
  | None => throw (Eirods KEY_NOT_FOUND)
  | Some e => mret (e_replicas e)
  end.

Definition at_where (col : rep_entry -> res Z) (v key : Z) : M rst rep_entry :=
  t ← get_state;
  e ← map_at key t;
  i ← lift (find_index col v (e_replicas e));
  match i ≫= fun i => e_replicas e !! i with
  | Some r => mret r
  | None => throw (Eirods KEY_NOT_FOUND)
  end.

Definition select_state (st : state_type) (r : rep_entry) : at_result :=
  match st with
  | before => AtOne (e_before r)
  | after => AtOne (e_after r)
  | both => AtBoth r
  end.

Definition at_leaf (key : Z) (name : bstr) (st : state_type) : M rst at_result :=
  id ← lift (leaf_resource_id name);
  r ← at_where before_resc id key; mret (select_state st r).

Definition at_num (key num : Z) (st : state_type) : M rst at_result :=
  r ← at_where before_num num key; mret (select_state st r).

(** [json::update]: the new columns win. *)
Definition update_columns (upd c : columns) : columns := upd ∪ c.

Definition update_entry (upd : columns) (r : rep_entry) : rep_entry :=
  RepEntry (e_before r) (update_columns upd (e_after r)) (e_file_modified r).

Definition update_impl (key : Z) (i : nat) (upd : columns) : M rst unit :=
  try_catch
    (t ← get_state;
     e ← map_at key t;
     match e_replicas e !! i with
     | None => throw Ejson
     | Some _ =>
         put_state (<[key := Entry (alter (update_entry upd) i (e_replicas e))
                               (e_logical_path e)]> t)
     end)
    (fun ex => match ex with Ejson => Throw (Eirods SYS_LIBRARY_ERROR) | _ => Throw ex end).

Definition update_leaf (key : Z) (name : bstr) (upd : columns) : M rst unit :=
  i ← index_of_leaf key name; update_impl key i upd.
Definition update_num (key num : Z) (upd : columns) : M rst unit :=
  i ← index_of_num key num; update_impl key i upd.
Definition update_replica (key : Z) (r : replica) : M rst unit :=
  i ← index_of_resc_id key (d_resc_id r); update_impl key i (to_json r).

(** [replica_json.at(name)] on what [at] returned. *)
Definition property_of (a : at_result) (p : string) : res bstr :=
  match a with AtOne c => json_at c p | AtBoth _ => Throw Ejson end.

Definition get_property_num (key num : Z) (p : string) (st : state_type) : M rst bstr :=
  match st with
  | both => throw (Eirods SYS_INVALID_INPUT_PARAM)
  | _ => a ← at_num key num st; lift (property_of a p)
  end.

Definition get_property_leaf (key : Z) (name : bstr) (p : string) (st : state_type) : M rst bstr :=
  match st with
  | both => throw (Eirods SYS_INVALID_INPUT_PARAM)
  | _ => a ← at_leaf key name st; lift (property_of a p)
  end.

Definition get_logical_path (key : Z) : M rst bstr :=
  t ← get_state; e ← map_at key t; mret (e_logical_path e).

Definition insert_entry (key : Z) (e : entry) : M rst Z :=
  t ← get_state; put_state (<[key := e]> t) ≫= fun _ => mret 0%Z.

(** ** Publishing *)

Definition set_file_modified (params : columns) (r : rep_entry) : rep_entry :=
  RepEntry (e_before r) (e_after r) (Some params).

(** [target_entry.at(REPLICAS_KW).at(i)\[FILE_MODIFIED_KW\] = params], when asked. *)
Definition mark_file_modified (key : Z) (i : option nat) (params : columns) : M rst entry :=
  t ← get_state;
  e ← map_at key t;
  match i with
  | None => mret e
  | Some i =>
      match e_replicas e !! i with
      | None => throw Ejson
      | Some _ =>
          let e' := Entry (alter (set_file_modified params) i (e_replicas e)) (e_logical_path e) in
          put_state (<[key := e']> t) ≫= fun _ => mret e'
      end
  end.

(** [publish_to_catalog_impl]; the replica index is [None] when no file_modified
    parameters are given. The entry is restored on every way out once the
    finalize call has returned an error. *)
Definition publish_to_catalog_impl (key : Z) (i : option nat) (params : columns)
    (privileged : bool) (bytes_written : Z) : M rst (columns * Z) :=
  logical_path ← get_logical_path key;
  e ← mark_file_modified key i params;
  let trigger := bool_decide (is_Some i) in
  let input := PublishInput (to_string bytes_written) privileged logical_path (e_replicas e) trigger in
  t ← get_state;
  backup ← map_at key t;
  (if trigger then put_state (delete key t) else mret tt) ≫= fun _ =>
  r ← finalize input;
  let '(ec, ret) := r in
  (if (ec <? 0)%Z && trigger then insert_entry key backup ≫= fun _ => mret tt else mret tt) ≫= fun _ =>
  match ret with
  | None => throw Ejson
  | Some ret => mret (ret, ec)
  end.

Definition to_catalog (ctx : publish_context) : M rst (columns * Z) :=
  try_catch
    (if bool_decide (pc_file_modified_parameters ctx = ∅) then
       publish_to_catalog_impl (pc_key ctx) None ∅ (pc_privileged ctx) (pc_bytes_written ctx)
     else
       i ← match pc_replica_id ctx with
           | ReplNum n => index_of_num (pc_key ctx) n
           | LeafName s => index_of_leaf (pc_key ctx) s
           end;
       publish_to_catalog_impl (pc_key ctx) (Some i) (pc_file_modified_parameters ctx)
         (pc_privileged ctx) (pc_bytes_written ctx))
    (fun ex => match ex with
               | Ejson => Throw (Eirods SYS_LIBRARY_ERROR)
               | Eirods _ | Estd => Throw (Eirods SYS_INTERNAL_ERR)
               | Eundef => Throw Eundef
               | Ediverge => Throw Ediverge
               end).
End rst.

(** ** Replica numbers *)

Section facts.
Context {L : LexicalCast}.

(** The replica numbers of a list of replicas, in order. *)
Definition has_nums (l : list rep_entry) (nums : list Z) : Prop :=
  Forall2 (fun r n => before_num r = Ok n) l nums.

Lemma find_index_nums l nums v :
  has_nums l nums -> find_index before_num v l = Ok (find_idx (Z.eqb v) nums).
Proof.
  induction 1 as [|r n l nums Hr Hl IH]; simpl; [done|].
  rewrite Hr. simpl. destruct (v =? n)%Z; [done|]. rewrite IH. simpl.
  by destruct (find_idx (Z.eqb v) nums).
Qed.

Lemma find_idx_nodup nums i n :
  NoDup nums -> nums !! i = Some n -> find_idx (Z.eqb n) nums = Some i.
Proof.
  intros Hnd Hi. revert i Hi. induction Hnd as [|m nums Hm Hnd IH]; intros [|i] Hi; simplify_eq/=.
  - by rewrite Z.eqb_refl.
  - rewrite (proj2 (Z.eqb_neq n m)).
    + by rewrite (IH i Hi).
    + intros ->. apply Hm. by eapply list_elem_of_lookup_2.
Qed.

Lemma find_idx_absent nums n : n ∉ nums -> find_idx (Z.eqb n) nums = None.
Proof.
  intros Hn. apply find_idx_None, Forall_forall. intros x Hx. apply Z.eqb_neq. by intros ->.
Qed.

Lemma has_nums_length l nums : has_nums l nums -> length l = length nums.
Proof. apply Forall2_length. Qed.

Lemma has_nums_lookup l nums i n :
  has_nums l nums -> nums !! i = Some n -> exists r, l !! i = Some r /\ before_num r = Ok n.
Proof. intros H Hi. by apply (Forall2_lookup_r _ _ _ _ _ H Hi). Qed.

Lemma has_nums_alter l nums i f :
  (forall r, e_before (f r) = e_before r) -> has_nums l nums -> has_nums (alter f i l) nums.
Proof.
  intros Hf H. apply Forall2_same_length_lookup_2.
  - rewrite length_alter. by apply has_nums_length.
  - intros j r n Hr Hn. destruct (has_nums_lookup _ _ _ _ H Hn) as (r0 & Hr0 & Hb).
    destruct (decide (i = j)) as [->|Hne].
    + rewrite list_lookup_alter_eq, Hr0 in Hr. simplify_eq/=.
      unfold before_num in *. by rewrite Hf.
    + rewrite list_lookup_alter_ne in Hr by done. by simplify_eq.
Qed.

Lemma update_columns_lookup upd c p :
  update_columns upd c !! p = match upd !! p with Some v => Some v | None => c !! p end.
Proof.
  unfold update_columns. rewrite lookup_union. by destruct (upd !! p), (c !! p).
Qed.

(** ** Computing the operations *)

Section ops.
Context (t : rst) (key : Z) (e : entry) (nums : list Z).
Hypothesis (Hkey : t !! key = Some e) (Hnums : has_nums (e_replicas e) nums) (Hnd : NoDup nums).

Lemma index_of_num_ok i n : nums !! i = Some n -> index_of_num key n t = (Ok i, t).
Proof using Hkey Hnums Hnd.
  intros Hi. unfold index_of_num, index_where. simpl.
  run_M. rewrite Hkey. unfold lift.
  by rewrite (find_index_nums _ _ _ Hnums), (find_idx_nodup _ _ _ Hnd Hi).
Qed.

Lemma index_of_num_absent n :
  n ∉ nums -> index_of_num key n t = (Throw (Eirods KEY_NOT_FOUND), t).
Proof using Hkey Hnums.
  intros Hn. unfold index_of_num, index_where. run_M. rewrite Hkey.
  unfold lift. by rewrite (find_index_nums _ _ _ Hnums), (find_idx_absent _ _ Hn).
Qed.

Lemma update_num_ok i n upd :
  nums !! i = Some n ->
  update_num key n upd t =
  (Ok tt, <[key := Entry (alter (update_entry upd) i (e_replicas e)) (e_logical_path e)]> t).
Proof using Hkey Hnums Hnd.
  intros Hi. unfold update_num.
  rewrite (M_bind_ok _ _ _ _ _ (index_of_num_ok i n Hi)).
  unfold update_impl, try_catch, map_at; run_M. rewrite Hkey.
  destruct (has_nums_lookup _ _ _ _ Hnums Hi) as (r & Hr & _). simpl. by rewrite Hr.
Qed.

Lemma update_num_absent n upd :
  n ∉ nums -> update_num key n upd t = (Throw (Eirods KEY_NOT_FOUND), t).
Proof using Hkey Hnums.
  intros Hn. unfold update_num. apply M_bind_throw. by apply index_of_num_absent.
Qed.

Lemma at_num_ok i n r st :
  nums !! i = Some n -> e_replicas e !! i = Some r ->
  at_num key n st t = (Ok (select_state st r), t).
Proof using Hkey Hnums Hnd.
  intros Hi Hr. unfold at_num, at_where, map_at; run_M. rewrite Hkey.
  simpl. unfold lift. rewrite (find_index_nums _ _ _ Hnums), (find_idx_nodup _ _ _ Hnd Hi).
  simpl. by rewrite Hr.
Qed.

Lemma get_property_after i n r p :
  nums !! i = Some n -> e_replicas e !! i = Some r ->
  get_property_num key n p after t = (json_at (e_after r) p, t).
Proof using Hkey Hnums Hnd.
  intros Hi Hr. unfold get_property_num.
  rewrite (M_bind_ok _ _ _ _ _ (at_num_ok i n r after Hi Hr)). done.
Qed.

Lemma get_property_before i n r p :
  nums !! i = Some n -> e_replicas e !! i = Some r ->
  get_property_num key n p before t = (json_at (e_before r) p, t).
Proof using Hkey Hnums Hnd.
  intros Hi Hr. unfold get_property_num.
  rewrite (M_bind_ok _ _ _ _ _ (at_num_ok i n r before Hi Hr)). done.
Qed.

Lemma rst_at_ok : rst_at key t = (Ok (e_replicas e), t).
Proof using Hkey. unfold rst_at; run_M. by rewrite Hkey. Qed.

Lemma get_logical_path_ok : get_logical_path key t = (Ok (e_logical_path e), t).
Proof using Hkey. unfold get_logical_path, map_at; run_M. by rewrite Hkey. Qed.
End ops.

(** The number [to_json] stores is read back. *)
Lemma before_num_new `{!LexicalCastLaws L} r :
  (INT_MIN <= d_repl_num r <= INT_MAX)%Z -> before_num (new_rep_entry r) = Ok (d_repl_num r).
Proof.
  intros Hr. unfold before_num, new_rep_entry. simpl e_before.
  assert (json_at (to_json r) "data_repl_num" = Ok (to_string (d_repl_num r))) as -> by done.
  simpl. by rewrite (lexical_cast_to_string _ _ _ Hr).
Qed.

Lemma has_nums_new `{!LexicalCastLaws L} rs :
  Forall (fun r => INT_MIN <= d_repl_num r <= INT_MAX)%Z rs ->
  has_nums (new_rep_entry <$> rs) (d_repl_num <$> rs).
Proof.
  induction 1 as [|r rs Hr Hrs IH]; simpl; constructor; [by apply before_num_new|done].
Qed.

Lemma contains_num_ok t key e nums n :
  t !! key = Some e -> has_nums (e_replicas e) nums ->
  contains_num key n t = (Ok (bool_decide (n ∈ nums)), t).
Proof.
  intros Hkey Hnums. unfold contains_num, rst_contains; run_M.
  rewrite Hkey. rewrite bool_decide_true by eauto.
  unfold contains_where, map_at; run_M. rewrite Hkey. simpl. unfold lift.
  rewrite (find_index_nums _ _ _ Hnums). unfold mret, M_ret. f_equal. f_equal.
  destruct (find_idx (Z.eqb n) nums) as [i|] eqn:E.
  - rewrite !bool_decide_true; [done| |eauto].
    apply find_idx_Some in E as (l & c & r & -> & _ & Hc & _). apply Z.eqb_eq in Hc as ->.
    set_solver.
  - rewrite !bool_decide_false; [done| |by intros [? ?]].
    apply find_idx_None in E. rewrite Forall_forall in E. intros Hin.
    specialize (E n Hin). by rewrite Z.eqb_refl in E.
Qed.
End facts.

(** ** What the table promises *)

Section claims.
Context {L : LexicalCast}.

(** C5: Updating a replica by number changes the after state of that replica only,
    column by column; its before state, the other replicas, the logical path and the
    other data objects are as they were, and get_property reads the new values. *)
Theorem update_num_frame t key e nums i n r upd :
  t !! key = Some e -> has_nums (e_replicas e) nums -> NoDup nums ->
  nums !! i = Some n -> e_replicas e !! i = Some r ->
  exists t' e' r',
    update_num key n upd t = (Ok tt, t') /\
    t' !! key = Some e' /\ e_replicas e' !! i = Some r' /\
    (forall key', key' <> key -> t' !! key' = t !! key') /\
    e_logical_path e' = e_logical_path e /\
    (forall j, j <> i -> e_replicas e' !! j = e_replicas e !! j) /\
    e_before r' = e_before r /\
    (forall p, get_property_num key n p before t' = (json_at (e_before r) p, t')) /\
    (forall p, get_property_num key n p after t' =
               (match upd !! p with Some v => Ok v | None => json_at (e_after r) p end, t')).
Proof.
  intros Hkey Hnums Hnd Hi Hr.
  set (e' := Entry (alter (update_entry upd) i (e_replicas e)) (e_logical_path e)).
  assert (<[key := e']> t !! key = Some e') as Hkey' by apply lookup_insert_eq.
  assert (has_nums (e_replicas e') nums) as Hnums' by by apply has_nums_alter.
  assert (e_replicas e' !! i = Some (update_entry upd r)) as Hr'
    by (simpl; by rewrite list_lookup_alter_eq, Hr).
  exists (<[key := e']> t), e', (update_entry upd r). split_and!; try done.
  - by eapply update_num_ok.
  - intros key' Hne. by rewrite lookup_insert_ne by done.
  - intros j Hj. simpl. by rewrite list_lookup_alter_ne by done.
  - intros p. by rewrite (get_property_before _ _ _ _ Hkey' Hnums' Hnd i n _ p Hi Hr').
  - intros p. rewrite (get_property_after _ _ _ _ Hkey' Hnums' Hnd i n _ p Hi Hr').
    unfold json_at. simpl. rewrite update_columns_lookup. by destruct (upd !! p).
Qed.

Lemma insert_object_fresh t o :
  t !! o_data_id o = None ->
  insert_object o t =
  (Ok 0%Z, <[o_data_id o := Entry (new_rep_entry <$> o_replicas o) (o_logical_path o)]> t).
Proof.
  intros Hk. unfold insert_object; run_M. by rewrite Hk.
Qed.

Lemma insert_object_present t o :
  is_Some (t !! o_data_id o) -> insert_object o t = (Ok 0%Z, t).
Proof.
  intros [e Hk]. unfold insert_object; run_M. by rewrite Hk.
Qed.

(** C10: Inserting a data object the table does not have makes exactly its replica
    numbers findable, with the catalog's columns in both states, leaves the other
    objects alone, and makes a later insert of the same data id a no-op. *)
Theorem insert_object_spec `{!LexicalCastLaws L} t o :
  t !! o_data_id o = None -> NoDup (d_repl_num <$> o_replicas o) ->
  Forall (fun r => INT_MIN <= d_repl_num r <= INT_MAX)%Z (o_replicas o) ->
  exists t',
    insert_object o t = (Ok 0%Z, t') /\
    (forall key, key <> o_data_id o -> t' !! key = t !! key) /\
    (forall n, contains_num (o_data_id o) n t' =
               (Ok (bool_decide (n ∈ d_repl_num <$> o_replicas o)), t')) /\
    (forall r p st, r ∈ o_replicas o -> st <> both ->
       get_property_num (o_data_id o) (d_repl_num r) p st t' = (json_at (to_json r) p, t')) /\
    get_logical_path (o_data_id o) t' = (Ok (o_logical_path o), t') /\
    (forall o', o_data_id o' = o_data_id o -> insert_object o' t' = (Ok 0%Z, t')).
Proof.
  intros Hk Hnd Hr. pose proof (has_nums_new _ Hr) as Hnums.
  set (e := Entry (new_rep_entry <$> o_replicas o) (o_logical_path o)).
  assert (<[o_data_id o := e]> t !! o_data_id o = Some e) as Hk' by apply lookup_insert_eq.
  exists (<[o_data_id o := e]> t). split_and!.
  - by apply insert_object_fresh.
  - intros key Hne. by rewrite lookup_insert_ne by done.
  - intros n. by eapply contains_num_ok.
  - intros r p st Hin Hst. apply list_elem_of_lookup in Hin as [i Hi].
    assert ((d_repl_num <$> o_replicas o) !! i = Some (d_repl_num r)) as Hn
      by by rewrite list_lookup_fmap, Hi.
    assert (e_replicas e !! i = Some (new_rep_entry r)) as He
      by (subst e; unfold e_replicas at 1; by rewrite list_lookup_fmap, Hi).
    destruct st; [| |done].
    + by rewrite (get_property_before _ _ _ _ Hk' Hnums Hnd i _ _ p Hn He).
    + by rewrite (get_property_after _ _ _ _ Hk' Hnums Hnd i _ _ p Hn He).
  - apply (get_logical_path_ok _ _ e Hk').
  - intros o' Ho'. apply insert_object_present. rewrite Ho'. eauto.
Qed.

(** The input [to_catalog] hands to the finalize call when it triggers
    file_modified for replica [i], and the entry it keeps as backup. *)
Definition marked_entry (e : entry) (i : nat) (params : columns) : entry :=
  Entry (alter (set_file_modified params) i (e_replicas e)) (e_logical_path e).

Lemma mark_file_modified_ok t key e i params :
  t !! key = Some e -> is_Some (e_replicas e !! i) ->
  mark_file_modified key (Some i) params t =
  (Ok (marked_entry e i params), <[key := marked_entry e i params]> t).
Proof.
  intros Hk [r Hr]. unfold mark_file_modified, map_at; run_M. rewrite Hk.
  simpl. by rewrite Hr.
Qed.

(** C4: Publishing with file_modified parameters erases the entry before the finalize
    call; when the call returns an error code the entry, with the file_modified
    mark, is put back into the table the call left, and when it returns success the
    table is what the call left. A reply that is no JSON is a library error, after
    the same restoration. *)
Theorem to_catalog_restores resc_mgr finalize t ctx key e nums i n ec ret t1 :
  pc_key ctx = key -> pc_replica_id ctx = ReplNum n -> pc_file_modified_parameters ctx <> ∅ ->
  t !! key = Some e -> has_nums (e_replicas e) nums -> NoDup nums -> nums !! i = Some n ->
  let e' := marked_entry e i (pc_file_modified_parameters ctx) in
  finalize (PublishInput (to_string (pc_bytes_written ctx)) (pc_privileged ctx)
              (e_logical_path e) (e_replicas e') true) (delete key t) = (Ok (ec, ret), t1) ->
  to_catalog resc_mgr finalize ctx t =
  (match ret with
   | Some c => Ok (c, ec)
   | None => Throw (Eirods SYS_LIBRARY_ERROR)
   end,
   if (ec <? 0)%Z then <[key := e']> t1 else t1).
Proof.
  intros <- Hid Hp Hk Hnums Hnd Hi e' Hfin. unfold to_catalog, try_catch.
  rewrite bool_decide_false, Hid by done.
  rewrite (M_bind_ok _ _ _ _ _ (index_of_num_ok _ _ _ _ Hk Hnums Hnd i n Hi)).
  unfold publish_to_catalog_impl.
  rewrite (M_bind_ok _ _ _ _ _ (get_logical_path_ok _ _ _ Hk)).
  destruct (has_nums_lookup _ _ _ _ Hnums Hi) as (r & Hr & _).
  rewrite (M_bind_ok _ _ _ _ _ (mark_file_modified_ok _ _ _ i _ Hk (mk_is_Some _ _ Hr))).
  fold e'. rewrite bool_decide_true by eauto.
  unfold map_at, insert_entry; run_M. rewrite lookup_insert_eq.
  unfold mret, M_ret. rewrite delete_insert_eq, Hfin.
  destruct (ec <? 0)%Z, ret; done.
Qed.

(** Publishing a data object the table does not have throws SYS_INTERNAL_ERR,
    whatever the context, and changes nothing. *)
Theorem to_catalog_missing resc_mgr finalize t ctx :
  t !! pc_key ctx = None ->
  to_catalog resc_mgr finalize ctx t = (Throw (Eirods SYS_INTERNAL_ERR), t).
Proof.
  intros Hk. unfold to_catalog, try_catch. destruct (bool_decide _).
  - unfold publish_to_catalog_impl, get_logical_path, map_at; run_M.
    by rewrite Hk.
  - destruct (pc_replica_id ctx);
      unfold index_of_num, index_of_leaf, index_where, mbind, M_bind, get_state; by rewrite Hk.
Qed.
End claims.

(** ** Instances *)

#[local] Existing Instance lexical_cast_ref.

(** A data object with two good replicas. *)
Definition sample_replica (num : Z) : replica :=
  Replica 7 3 (lit "/tempZone/home/rods/f") num [] (lit "generic") 10 (lit "/vault/f") (lit "rods")
    (lit "tempZone") 1 [] [] [] 0 [] [] [] [] [] 10001 (lit "demoResc").

Definition sample_object : data_object := DataObject (sample_replica 0) [sample_replica 1].
Definition sample_entry : entry :=
  Entry (new_rep_entry <$> o_replicas sample_object) (o_logical_path sample_object).
Definition sample_table : rst := {[ 7%Z := sample_entry ]}.

Lemma sample_nums : has_nums (e_replicas sample_entry) [0; 1]%Z.
Proof. apply (has_nums_new (o_replicas sample_object)). by_evaluation. Qed.

Lemma update_num_frame_witness :
  exists t', update_num 7 1 {["data_size" := lit "20"]} sample_table = (Ok tt, t') /\
    get_property_num 7 1 "data_size" after t' = (Ok (lit "20"), t').
Proof.
  destruct (update_num_frame sample_table 7 sample_entry [0; 1]%Z 1 1
              (new_rep_entry (sample_replica 1)) {["data_size" := lit "20"]})
    as (t' & e' & r' & Hu & _ & _ & _ & _ & _ & _ & _ & Ha);
    [done|apply sample_nums|by_evaluation|done|done|].
  exists t'. split; [exact Hu|exact (Ha "data_size")].
Defined.

Lemma insert_object_spec_witness :
  exists t', insert_object sample_object ∅ = (Ok 0%Z, t') /\
    contains_num 7 1 t' = (Ok true, t') /\ contains_num 7 2 t' = (Ok false, t').
Proof.
  destruct (insert_object_spec ∅ sample_object) as (t' & Hi & _ & Hc & _);
    [done|by_evaluation|by_evaluation|].
  exists t'. split_and!; [exact Hi|exact (Hc 1%Z)|exact (Hc 2%Z)].
Defined.

(** A finalize call that fails and leaves the table alone. *)
Definition failing_finalize : publish_input -> M rst (Z * option columns) :=
  fun _ t => (Ok (-5, Some ∅)%Z, t).

Definition sample_context : publish_context :=
  PublishContext 7 (ReplNum 1) {["file_modified" := []]} false 0.

Lemma to_catalog_restores_witness :
  (to_catalog empty_manager failing_finalize sample_context sample_table).2 =
  <[7%Z := marked_entry sample_entry 1 {["file_modified" := []]}]> (delete 7%Z sample_table).
Proof.
  rewrite (to_catalog_restores empty_manager failing_finalize sample_table sample_context 7
             sample_entry [0; 1]%Z 1 1 (-5) (Some ∅) (delete 7%Z sample_table));
    [done|done|done|discriminate|done|apply sample_nums|by_evaluation|done|done].
Defined.

Lemma to_catalog_missing_witness :
  to_catalog empty_manager failing_finalize sample_context ∅ = (Throw (Eirods SYS_INTERNAL_ERR), ∅).
Proof. by apply to_catalog_missing. Defined.
