(* ===== verification/Rat.v ===== *)
(** * The replica access table

    [server/core/src/replica_access_table.cpp]. A table in shared memory maps a
    replica token (a UUID) to the replica that is open and the agents that hold
    it. An agent that presents the token may open a replica that another agent
    has in the intermediate state. Every operation runs under the table's named
    mutex, so one operation is one step. *)

From stdpp Require Import base gmap list strings.
From Stdlib Require Import ZArith Lia.
From S2P Require Import Prelude.

(** ** Data *)

Record access_entry : Type := AccessEntry {
  a_data_id : Z; a_replica_number : Z; agent_pids : list Z
}.

(** [g_map]; tokens are the keys. *)
Abbreviation rat := (gmap string access_entry).

Record restorable_entry : Type := RestorableEntry {
  r_token : string; r_data_id : Z; r_replica_number : Z; r_pid : Z
}.

#[export] Instance access_entry_eq_dec : EqDecision access_entry.
Proof. solve_decision. Defined.

(** ** Operations

    [replica_access_table_error] is a [std::runtime_error]. *)

(** The test the code makes on an entry: is it for this replica? *)
Definition entry_for (data_id num : Z) (v : access_entry) : bool :=
  (a_data_id v =? data_id)%Z && (a_replica_number v =? num)%Z.

(** The loop of [generate_replica_token] over the draws of the random
    generator: the first that is not a key; the rest is left for later calls. *)
Fixpoint generate_replica_token (draws : list string) (m : rat) : option (string * list string) :=
  match draws with
  | [] => None
  | uuid :: draws' =>
      if decide (is_Some (m !! uuid)) then generate_replica_token draws' m
      else Some (uuid, draws')
  end.

Definition create_new_entry (draws : list string) (data_id num pid : Z)
    : M rat (string * list string) :=
  m ← get_state;
  if existsb (fun kv => entry_for data_id num kv.2) (map_to_list m) then throw Estd
  else match generate_replica_token draws m with
       | None => throw Ediverge
       | Some (uuid, draws') =>
           put_state (<[uuid := AccessEntry data_id num [pid]]> m) ≫= fun _ => mret (uuid, draws')
       end.

Definition push_pid (pid : Z) (v : access_entry) : access_entry :=
  AccessEntry (a_data_id v) (a_replica_number v) (agent_pids v ++ [pid]).

Definition append_pid (token : string) (data_id num pid : Z) : M rat unit :=
  m ← get_state;
  match m !! token with
  | None => throw Estd
  | Some v => if negb (entry_for data_id num v) then throw Estd
              else put_state (<[token := push_pid pid v]> m)
  end.

Definition contains_replica (data_id num : Z) : M rat bool :=
  m ← get_state;
  mret (existsb (fun kv => entry_for data_id num kv.2) (map_to_list m)).

Definition contains_token (token : string) (data_id num : Z) : M rat bool :=
  m ← get_state;
  match m !! token with
  | None => mret false
  | Some v => mret (entry_for data_id num v)
  end.

(** [pids.erase(std::find(..., pid))] *)
Fixpoint erase_first_pid (pid : Z) (l : list Z) : list Z :=
  match l with
  | [] => []
  | p :: l' => if (p =? pid)%Z then l' else p :: erase_first_pid pid l'
  end.

Definition set_pids (l : list Z) (v : access_entry) : access_entry :=
  AccessEntry (a_data_id v) (a_replica_number v) l.

Definition erase_pid_token (token : string) (pid : Z) : M rat (option restorable_entry) :=
  m ← get_state;
  match m !! token with
  | None => mret None
  | Some v =>
      if decide (pid ∈ agent_pids v) then
        let entry := RestorableEntry token (a_data_id v) (a_replica_number v) pid in
        let pids := erase_first_pid pid (agent_pids v) in
        put_state (if decide (pids = []) then delete token m
                   else <[token := set_pids pids v]> m) ≫= fun _ => mret (Some entry)
      else mret None
  end.

Definition remove_pid (pid : Z) (v : access_entry) : access_entry :=
  set_pids (filter (fun p => p <> pid) (agent_pids v)) v.

Definition erase_pid_all (pid : Z) : M rat unit :=
  m ← get_state;
  put_state (filter (fun kv => agent_pids kv.2 <> []) (remove_pid pid <$> m)).

Definition restore (entry : restorable_entry) : M rat unit :=
  m ← get_state;
  match m !! r_token entry with
  | Some v => if negb (entry_for (r_data_id entry) (r_replica_number entry) v) then throw Estd
              else put_state (<[r_token entry := push_pid (r_pid entry) v]> m)
  | None => put_state (<[r_token entry :=
                           AccessEntry (r_data_id entry) (r_replica_number entry) [r_pid entry]]> m)
  end.

(** What a process knows of the table: the process that initialised it, and the
    table itself ([g_map] is null before [init] and after [deinit]). *)
Record process : Type := Process { g_owner_pid : Z; g_map : option rat }.

Definition init (getpid : Z) (p : process) : process :=
  if (getpid =? g_owner_pid p)%Z then p else Process getpid (Some ∅).

Definition deinit (getpid : Z) (p : process) : process :=
  if negb (getpid =? g_owner_pid p)%Z then p else Process 0 None.

(** ** Facts *)

Lemma entry_for_true d n v :
  entry_for d n v = true <-> a_data_id v = d /\ a_replica_number v = n.
Proof. unfold entry_for. rewrite andb_true_iff, !Z.eqb_eq. done. Qed.

Lemma generate_replica_token_fresh draws m uuid draws' :
  generate_replica_token draws m = Some (uuid, draws') -> m !! uuid = None /\ uuid ∈ draws.
Proof.
  induction draws as [|d draws IH]; simpl; [done|].
  destruct (decide (is_Some (m !! d))) as [Hs|Hs].
  - intros H. apply IH in H as [??]. split; [done|]. by right.
  - intros [= <- <-]. split; [by apply eq_None_not_Some|]. by left.
Qed.

(** The loop ends: more distinct draws than there are tokens contain a fresh one. *)
Lemma generate_replica_token_total draws m :
  NoDup draws -> size m < length draws -> is_Some (generate_replica_token draws m).
Proof.
  intros Hnd Hsz. destruct (generate_replica_token draws m) as [[u d]|] eqn:E; [eauto|].
  exfalso. assert (Forall (fun d => is_Some (m !! d)) draws) as Hall.
  { clear -E. induction draws as [|d draws IH]; simpl in *; [done|].
    destruct (decide (is_Some (m !! d))); [|done]. constructor; auto. }
  assert (length draws <= size (dom m)) as Hle.
  { rewrite <- (size_list_to_set (C := gset string) draws Hnd). apply subseteq_size.
    intros d Hd%elem_of_list_to_set. rewrite Forall_forall in Hall.
    by apply elem_of_dom, Hall. }
  rewrite size_dom in Hle. lia.
Qed.

Lemma erase_first_pid_perm pid l : pid ∈ l -> erase_first_pid pid l ++ [pid] ≡ₚ l.
Proof.
  induction l as [|p l IH]; intros Hin; [by apply not_elem_of_nil in Hin|]. simpl.
  destruct (Z.eqb_spec p pid) as [->|Hne].
  - symmetry. apply Permutation_cons_append.
  - simpl. f_equiv. apply IH. by apply elem_of_cons in Hin as [?|?].
Qed.

(** ** The invariant

    No entry is without an agent, and a replica has at most one token. *)

Definition rat_wf (m : rat) : Prop :=
  (forall k v, m !! k = Some v -> agent_pids v <> []) /\
  (forall k1 k2 v1 v2, m !! k1 = Some v1 -> m !! k2 = Some v2 ->
     a_data_id v1 = a_data_id v2 -> a_replica_number v1 = a_replica_number v2 -> k1 = k2).

(** Changing an entry in place, to one for the same replica. *)
Lemma rat_wf_replace m k v v' :
  rat_wf m -> m !! k = Some v -> agent_pids v' <> [] ->
  a_data_id v' = a_data_id v -> a_replica_number v' = a_replica_number v ->
  rat_wf (<[k := v']> m).
Proof.
  intros [H1 H2] Hk Hp Hd Hn. split.
  - intros k' w Hw. apply lookup_insert_Some in Hw as [[-> <-]|[_ Hw]]; eauto.
  - intros k1 k2 v1 v2 Hv1 Hv2 Hd12 Hn12.
    apply lookup_insert_Some in Hv1 as [[<- <-]|[Hne1 Hv1]];
      apply lookup_insert_Some in Hv2 as [[<- <-]|[Hne2 Hv2]]; try done.
    + eapply H2; eauto; congruence.
    + eapply H2; eauto; congruence.
    + eauto.
Qed.

(** Adding an entry for a replica that has none. *)
Lemma rat_wf_new m k v :
  rat_wf m -> m !! k = None -> agent_pids v <> [] ->
  (forall k' v', m !! k' = Some v' -> entry_for (a_data_id v) (a_replica_number v) v' = false) ->
  rat_wf (<[k := v]> m).
Proof.
  intros [H1 H2] Hk Hp Hfree.
  assert (forall k' v', m !! k' = Some v' -> a_data_id v' = a_data_id v ->
            a_replica_number v' = a_replica_number v -> False) as Hno.
  { intros k' v' Hk' Hd Hn. specialize (Hfree _ _ Hk').
    by rewrite (proj2 (entry_for_true _ _ _)) in Hfree. }
  split.
  - intros k' w Hw. apply lookup_insert_Some in Hw as [[-> <-]|[_ Hw]]; eauto.
  - intros k1 k2 v1 v2 Hv1 Hv2 Hd Hn.
    apply lookup_insert_Some in Hv1 as [[<- <-]|[_ Hv1]];
      apply lookup_insert_Some in Hv2 as [[<- <-]|[_ Hv2]]; eauto; exfalso; eauto.
Qed.

(** Keeping some entries, with fewer agents, but at least one. *)
Lemma rat_wf_shrink m m' :
  rat_wf m ->
  (forall k v', m' !! k = Some v' -> agent_pids v' <> [] /\
     exists v, m !! k = Some v /\ a_data_id v' = a_data_id v /\
               a_replica_number v' = a_replica_number v) ->
  rat_wf m'.
Proof.
  intros [H1 H2] Hs. split.
  - intros k v Hv. by apply Hs in Hv as [? _].
  - intros k1 k2 v1 v2 Hv1 Hv2 Hd Hn.
    apply Hs in Hv1 as (_ & w1 & ? & ? & ?). apply Hs in Hv2 as (_ & w2 & ? & ? & ?).
    eapply H2; eauto; congruence.
Qed.

Lemma push_pid_nonempty pid v : agent_pids (push_pid pid v) <> [].
Proof. simpl. intros H. by apply app_eq_nil in H as [_ ?]. Qed.

Lemma existsb_entry d n (m : rat) :
  existsb (fun kv => entry_for d n kv.2) (map_to_list m) = true <->
  exists k v, m !! k = Some v /\ entry_for d n v = true.
Proof.
  rewrite existsb_exists. split.
  - intros ([k v] & Hin & He). exists k, v. split; [|done].
    by apply elem_of_map_to_list, list_elem_of_In.
  - intros (k & v & Hk & He). exists (k, v). split; [|done].
    by apply list_elem_of_In, elem_of_map_to_list.
Qed.

Lemma existsb_entry_false d n (m : rat) :
  existsb (fun kv => entry_for d n kv.2) (map_to_list m) = false <->
  forall k v, m !! k = Some v -> entry_for d n v = false.
Proof.
  rewrite <- not_true_iff_false, existsb_entry. split.
  - intros H k v Hk. apply not_true_iff_false. intros He. apply H. eauto.
  - intros H (k & v & Hk & He). by rewrite (H _ _ Hk) in He.
Qed.

(** ** Steps

    The operations as steps of the shared table, one agent's call at a time.
    [restore] is a step when no other token has been given out for the replica
    since the entry was erased. *)

Inductive step : rat -> rat -> Prop :=
| step_create draws d n pid r m m' :
    create_new_entry draws d n pid m = (Ok r, m') -> step m m'
| step_append token d n pid m m' :
    append_pid token d n pid m = (Ok tt, m') -> step m m'
| step_erase token pid r m m' :
    erase_pid_token token pid m = (Ok r, m') -> step m m'
| step_erase_all pid m m' :
    erase_pid_all pid m = (Ok tt, m') -> step m m'
| step_restore entry m m' :
    (forall k v, m !! k = Some v -> entry_for (r_data_id entry) (r_replica_number entry) v = true ->
       k = r_token entry) ->
    restore entry m = (Ok tt, m') -> step m m'.

Lemma create_wf draws d n pid r m m' :
  rat_wf m -> create_new_entry draws d n pid m = (Ok r, m') -> rat_wf m'.
Proof.
  intros Hwf. unfold create_new_entry; run_M.
  destruct (existsb _ _) eqn:Ex; [done|].
  destruct (generate_replica_token draws m) as [[uuid draws']|] eqn:Eg; [|done].
  intros [= <- <-]. apply generate_replica_token_fresh in Eg as [Hu _].
  apply rat_wf_new; [done..|]. simpl. by apply existsb_entry_false.
Qed.

Lemma append_wf token d n pid m m' :
  rat_wf m -> append_pid token d n pid m = (Ok tt, m') -> rat_wf m'.
Proof.
  intros Hwf. unfold append_pid; run_M.
  destruct (m !! token) as [v|] eqn:Ev; [|done].
  destruct (entry_for d n v) eqn:Ee; simpl; [|done]. intros [= <-].
  eapply rat_wf_replace; eauto using push_pid_nonempty.
Qed.

Lemma erase_wf token pid r m m' :
  rat_wf m -> erase_pid_token token pid m = (Ok r, m') -> rat_wf m'.
Proof.
  intros Hwf. unfold erase_pid_token; run_M.
  destruct (m !! token) as [v|] eqn:Ev; [|intros [= _ <-]; done].
  destruct (decide (pid ∈ agent_pids v)); [|intros [= _ <-]; done].
  simpl. destruct (decide _) as [Hn|Hn]; intros [= _ <-].
  - apply (rat_wf_shrink m); [done|]. intros k w Hw.
    apply lookup_delete_Some in Hw as [_ Hw]. destruct Hwf as [H1 _].
    split; [by eapply H1|by exists w].
  - eapply rat_wf_replace; eauto.
Qed.

Lemma erase_all_wf pid m m' :
  rat_wf m -> erase_pid_all pid m = (Ok tt, m') -> rat_wf m'.
Proof.
  intros Hwf. unfold erase_pid_all; run_M. intros [= <-].
  apply (rat_wf_shrink m); [done|]. intros k w Hw.
  apply map_lookup_filter_Some in Hw as [Hw Hne]. split; [done|].
  apply lookup_fmap_Some in Hw as (v & <- & Hv). eauto.
Qed.

Lemma restore_wf entry m m' :
  rat_wf m ->
  (forall k v, m !! k = Some v -> entry_for (r_data_id entry) (r_replica_number entry) v = true ->
     k = r_token entry) ->
  restore entry m = (Ok tt, m') -> rat_wf m'.
Proof.
  intros Hwf Hfree. unfold restore; run_M.
  destruct (m !! r_token entry) as [v|] eqn:Ev.
  - destruct (entry_for _ _ v) eqn:Ee; simpl; [|done]. intros [= <-].
    eapply rat_wf_replace; eauto using push_pid_nonempty.
  - intros [= <-]. apply rat_wf_new; [done..|]. simpl. intros k v Hk.
    apply not_true_iff_false. intros He. rewrite (Hfree k v Hk He) in Hk. congruence.
Qed.

(** C6: In every table reachable from the empty one by the operations of the agents
    (restoring an entry only while no other token was given out for its replica), no
    entry is without an agent and no replica has two tokens. *)
Theorem rat_reachable_wf m : rtc step ∅ m -> rat_wf m.
Proof.
  assert (rat_wf ∅) as H0 by (split; intros *; rewrite lookup_empty; done).
  revert H0. generalize (∅ : rat). intros m0 H0 Hr. induction Hr as [|a b c Hs _ IH]; [done|].
  apply IH. destruct Hs; eauto using create_wf, append_wf, erase_wf, erase_all_wf, restore_wf.
Qed.

(** The step from two tokens to one replica that [restore] can take when another
    agent created an entry in the meantime. *)
Definition raced_create_restore : res unit * rat :=
  let m1 := (create_new_entry ["t1"] 7 0 100 ∅).2 in
  let r := (erase_pid_token "t1" 100 m1).1 in
  let m2 := (erase_pid_token "t1" 100 m1).2 in
  let m3 := (create_new_entry ["t2"] 7 0 200 m2).2 in
  match r with Ok (Some entry) => restore entry m3 | _ => (Throw Estd, m3) end.

(** Restoring an entry after another agent has created a new one for the same
    replica leaves the replica with two tokens, both accepted. *)
Theorem restore_second_token :
  exists m, raced_create_restore = (Ok tt, m) /\
    (contains_token "t1" 7 0 m).1 = Ok true /\ (contains_token "t2" 7 0 m).1 = Ok true.
Proof. eexists. split; [reflexivity|]. split; reflexivity. Qed.

(** The new token, and no other, is accepted for the replica. *)
Lemma create_new_entry_token draws d n pid m token draws' m' :
  create_new_entry draws d n pid m = (Ok (token, draws'), m') ->
  forall k, contains_token k d n m' = (Ok (bool_decide (k = token)), m').
Proof.
  unfold create_new_entry; run_M.
  destruct (existsb _ _) eqn:Ex; [done|].
  destruct (generate_replica_token draws m) as [[uuid ?]|] eqn:Eg; [|done].
  intros [= <- _ <-] k. unfold contains_token; run_M.
  destruct (decide (k = uuid)) as [->|Hne].
  - rewrite lookup_insert_eq, bool_decide_true by done.
    unfold entry_for; simpl. by rewrite !Z.eqb_refl.
  - rewrite lookup_insert_ne, bool_decide_false by done.
    destruct (m !! k) as [v|] eqn:Ek; [|done].
    by rewrite (proj1 (existsb_entry_false d n m) Ex k v Ek).
Qed.

(** C7: Creating an entry ends as soon as the generator draws a fresh token, which
    distinct draws outnumbering the table guarantee; it fails, changing nothing,
    exactly when the replica already has an entry, and otherwise the new token is
    the only one the table accepts for the replica. *)
Theorem create_new_entry_grants draws d n pid m :
  NoDup draws -> size m < length draws ->
  match create_new_entry draws d n pid m with
  | (Ok (token, _), m') =>
      contains_replica d n m = (Ok false, m) /\ m !! token = None /\
      m' = <[token := AccessEntry d n [pid]]> m /\
      (forall k, contains_token k d n m' = (Ok (bool_decide (k = token)), m'))
  | (Throw e, m') => e = Estd /\ m' = m /\ contains_replica d n m = (Ok true, m)
  end.
Proof.
  intros Hnd Hsz. destruct (create_new_entry draws d n pid m) as [r m'] eqn:E.
  pose proof E as E0. unfold create_new_entry, mbind, M_bind, get_state in E.
  unfold contains_replica; run_M.
  destruct (existsb _ _) eqn:Ex; [by injection E as <- <-|].
  destruct (generate_replica_token_total draws m Hnd Hsz) as [[uuid draws'] Eg].
  rewrite Eg in E. injection E as <- <-. apply generate_replica_token_fresh in Eg as [Hu _].
  split_and!; try done. by eapply create_new_entry_token.
Qed.

(** Two tables that differ in the order in which agents were recorded. *)
Definition same_agents (m1 m2 : rat) : Prop :=
  forall k, option_Forall2 (fun v1 v2 =>
    a_data_id v1 = a_data_id v2 /\ a_replica_number v1 = a_replica_number v2 /\
    agent_pids v1 ≡ₚ agent_pids v2) (m1 !! k) (m2 !! k).

#[export] Instance same_agents_refl : Reflexive same_agents.
Proof. intros m k. destruct (m !! k); constructor; done. Qed.

(** What erase_pid returns restores the table: after erase_pid and restore every
    token has the same replica and the same agents as before, up to their order. *)
Theorem erase_restore token pid m entry m' :
  erase_pid_token token pid m = (Ok (Some entry), m') ->
  exists m'', restore entry m' = (Ok tt, m'') /\ same_agents m m''.
Proof.
  unfold erase_pid_token; run_M.
  destruct (m !! token) as [v|] eqn:Ev; [|done].
  destruct (decide (pid ∈ agent_pids v)) as [Hin|]; [|done]. simpl.
  pose proof (erase_first_pid_perm pid _ Hin) as Hp.
  set (pids := erase_first_pid pid (agent_pids v)) in *.
  assert (forall w, a_data_id w = a_data_id v -> a_replica_number w = a_replica_number v ->
            agent_pids w = pids ++ [pid] -> same_agents m (<[token := w]> m)) as Hsame.
  { intros w Hd Hn Hw k. destruct (decide (k = token)) as [->|Hne].
    - rewrite lookup_insert_eq, Ev. constructor. by rewrite Hd, Hn, Hw, Hp.
    - rewrite lookup_insert_ne by done. apply same_agents_refl. }
  intros [= <- <-]. unfold restore; run_M. simpl.
  destruct (decide (pids = [])) as [Hn|Hn].
  - rewrite lookup_delete_eq. eexists. split; [reflexivity|]. rewrite insert_delete_eq.
    apply Hsame; simpl; [done..|]. by rewrite Hn.
  - rewrite lookup_insert_eq. unfold entry_for. simpl. rewrite !Z.eqb_refl. simpl.
    eexists. split; [reflexivity|]. rewrite insert_insert_eq. by apply Hsame.
Qed.

(** One agent opens a replica, another joins it. *)
Definition joined : rat :=
  (append_pid "t1" 7 0 200 (create_new_entry ["t1"] 7 0 100 ∅).2).2.

Lemma rat_reachable_wf_witness : rat_wf joined.
Proof.
  apply rat_reachable_wf. eapply rtc_l.
  - by eapply (step_create ["t1"] 7 0 100).
  - eapply rtc_l; [|apply rtc_refl]. by eapply (step_append "t1" 7 0 200).
Defined.

Lemma create_new_entry_grants_witness :
  (contains_token "t1" 7 0 (create_new_entry ["t1"] 7 0 100 ∅).2).1 = Ok true.
Proof.
  pose proof (create_new_entry_grants ["t1"] 7 0 100 ∅ ltac:(by_evaluation) ltac:(by_evaluation)) as H.
  assert (create_new_entry ["t1"] 7 0 100 ∅ =
          (Ok ("t1", []), <["t1" := AccessEntry 7 0 [100%Z]]> ∅)) as E by reflexivity.
  rewrite E in H |- *. destruct H as (_ & _ & _ & Hk). simpl. by rewrite (Hk "t1").
Defined.

Lemma erase_restore_witness :
  exists m'', restore (RestorableEntry "t1" 7 0 100) (erase_pid_token "t1" 100 joined).2 = (Ok tt, m'') /\
    same_agents joined m''.
Proof. by apply (erase_restore "t1" 100 joined). Defined.
