(* ===== verification/Locking.v ===== *)
(** * Logical locking

    [server/core/src/logical_locking.cpp]. Opening a replica locks its data
    object: every replica's status is saved in its [data_status] column, the
    target replica becomes intermediate (or read-locked) and its siblings
    write-locked (or read-locked). Unlocking gives the replicas their final
    statuses, or the saved ones. All of it happens in the replica state table;
    [lock_and_publish] and [unlock_and_publish] then write it to the catalog. *)

From stdpp Require Import base gmap list strings.
From Stdlib Require Import ZArith Lia Ascii.
From S2P Require Import Prelude Errors Numerals Hierarchy Resources FsPath Rst Rat.

(** ** JSON text

    [nlohmann::json], as far as a [data_status] value goes. [JOther] stands for
    null, booleans, numbers and arrays. *)

Set Warnings "-register-all".

Inductive json : Type :=
| JObject (members : list (bstr * json))
| JString (s : bstr)
| JOther.

(** [json::parse], with [None] for [json::parse_error], and [dump] on valid UTF-8. *)
Class Json := { json_parse : bstr -> option json; json_dump : json -> bstr }.

(** Printable ASCII that JSON writes without escapes. *)
Definition plain_char (c : ascii) : bool :=
  (32 <=? uchar c)%Z && (uchar c <? 127)%Z && negb (uchar c =? 34)%Z && negb (uchar c =? 92)%Z.
Definition plain (s : bstr) : Prop := Forall (fun c => plain_char c = true) s.

(** A document that was dumped parses to what was dumped. *)
Class JsonLaws (J : Json) : Prop := {
  json_dump_nonempty : forall j, json_dump j <> [];
  json_parse_dump : forall k s, plain k -> plain s ->
    json_parse (json_dump (JObject [(k, JString s)])) = Some (JObject [(k, JString s)])
}.

Fixpoint member (k : bstr) (l : list (bstr * json)) : option json :=
  match l with
  | [] => None
  | (k', j) :: l' => if bstr_eqb k k' then Some j else member k l'
  end.

Inductive lock_type : Type := read | write.

(** [lock_type_to_repl_status_map] *)
Definition lock_type_to_repl_status (lt : lock_type) : Z :=
  match lt with read => READ_LOCKED | write => WRITE_LOCKED end.

Definition restore_status : Z := -1.
Definition unknown_replica_id : Z := -1.

Section locking.
Context {L : LexicalCast} {J : Json}.
Context (resc_mgr : resource_manager).
Context (finalize : publish_input -> M rst (Z * option columns)).

(** ** Saving and restoring statuses *)

Definition original_status_key : bstr := lit "original_status".

Definition get_original_replica_status_impl (r : rep_entry) : res Z :=
  s ← json_at (e_after r) "data_status";
  if bstr_eqb s [] then Ok (-1)%Z
  else match json_parse s with
       | None => Throw Ejson
       | Some (JObject l) =>
           match member original_status_key l with
           | None => Ok (-1)%Z
           | Some (JString v) => stoi v
           | Some _ => Throw Ejson
           end
       | Some _ => Ok (-1)%Z
       end.

(** [std::stoi(json_replica.at("before").at("data_repl_num"))] *)
Definition replica_number (r : rep_entry) : res Z :=
  s ← json_at (e_before r) "data_repl_num"; stoi s.

Definition status_document (old : bstr) : bstr :=
  json_dump (JObject [(original_status_key, JString old)]).

Definition insert_data_status (key : Z) : M rst unit :=
  entry ← rst_at key;
  _ ← get_logical_path key;
  for_each (fun r =>
    n ← lift (replica_number r);
    original ← lift (get_original_replica_status_impl r);
    if negb (original =? -1)%Z then mret tt
    else old ← get_property_num key n "data_is_dirty" before;
         update_num key n {["data_status" := status_document old]}) entry.

Definition remove_data_status (key : Z) : M rst unit :=
  entry ← rst_at key;
  for_each (fun r =>
    n ← lift (replica_number r); update_num key n {["data_status" := []]}) entry.

Definition restore_replica_statuses (key num : Z) : M rst unit :=
  entry ← rst_at key;
  _ ← get_logical_path key;
  for_each (fun r =>
    n ← lift (replica_number r);
    if (num =? n)%Z then mret tt
    else original ← lift (get_original_replica_status_impl r);
         if (original =? -1)%Z then mret tt
         else update_num key n {["data_is_dirty" := to_string original]}) entry.

Definition set_replica_statuses (key num status : Z) : M rst unit :=
  entry ← rst_at key;
  for_each (fun r =>
    n ← lift (replica_number r);
    _ ← get_property_num key n "data_status" before;
    if negb (num =? n)%Z then update_num key n {["data_is_dirty" := to_string status]}
    else mret tt) entry.

(** The [catch] clauses of [lock_impl] and [unlock_impl]. *)
Definition error_code (ex : exn) : res Z :=
  match ex with
  | Eirods c => Ok c
  | Ejson | Estd => Ok SYS_INTERNAL_ERR
  | Eundef => Throw Eundef
  | Ediverge => Throw Ediverge
  end.

Definition lock_impl (key num : Z) (lt : lock_type) : M rst Z :=
  try_catch
    (insert_data_status key ≫= fun _ =>
     let lock_status := lock_type_to_repl_status lt in
     (if negb (unknown_replica_id =? num)%Z then
        match lt with
        | write => update_num key num {["data_is_dirty" := to_string INTERMEDIATE_REPLICA]}
        | read => update_num key num {["data_is_dirty" := to_string lock_status]}
        end
      else mret tt) ≫= fun _ =>
     set_replica_statuses key num lock_status ≫= fun _ => mret 0%Z)
    error_code.

Definition get_original_replica_status (key num : Z) : M rst Z :=
  a ← at_num key num both;
  match a with
  | AtBoth r => lift (get_original_replica_status_impl r)
  | AtOne _ => throw Ejson
  end.

(** The target replica's part of [unlock_impl]. *)
Definition unlock_target (key num status : Z) : M rst unit :=
  if negb (unknown_replica_id =? num)%Z then
    replica_status ← (if (restore_status =? status)%Z then
                        original ← get_original_replica_status key num;
                        mret (if (original =? -1)%Z then STALE_REPLICA else original)
                      else mret status);
    update_num key num {["data_is_dirty" := to_string replica_status]}
  else mret tt.

Definition unlock_impl (key num status others : Z) : M rst Z :=
  try_catch
    (unlock_target key num status ≫= fun _ =>
     (if (restore_status =? others)%Z then restore_replica_statuses key num
      else set_replica_statuses key num others) ≫= fun _ =>
     remove_data_status key ≫= fun _ => mret 0%Z)
    error_code.

Definition lock (key num : Z) (lt : lock_type) : M rst Z := lock_impl key num lt.
Definition unlock (key num status others : Z) : M rst Z := unlock_impl key num status others.

(** [std::get<const int>(_ctx.replica_id)] *)
Definition get_replica_number (ctx : publish_context) : M rst Z :=
  match pc_replica_id ctx with ReplNum n => mret n | LeafName _ => throw Estd end.

Definition lock_and_publish (ctx : publish_context) (lt : lock_type) : M rst Z :=
  num ← get_replica_number ctx;
  ec ← lock_impl (pc_key ctx) num lt;
  if (ec <? 0)%Z then mret ec
  else r ← to_catalog resc_mgr finalize ctx;
       mret (if (r.2 <? 0)%Z then r.2 else 0%Z).

Definition unlock_and_publish (ctx : publish_context) (status others : Z) : M rst Z :=
  num ← get_replica_number ctx;
  ec ← unlock_impl (pc_key ctx) num status others;
  if (ec <? 0)%Z then mret ec
  else r ← to_catalog resc_mgr finalize ctx;
       mret (if (r.2 <? 0)%Z then r.2 else 0%Z).
End locking.

(** ** Asking whether a replica may be opened *)

(** [replica_proxy::at_rest] and [replica_proxy::locked] *)
Definition at_rest (r : replica) : bool := negb (INTERMEDIATE_REPLICA =? d_repl_status r)%Z.
Definition locked (r : replica) : bool :=
  (READ_LOCKED =? d_repl_status r)%Z || (WRITE_LOCKED =? d_repl_status r)%Z.

(** The arguments are converted to [data_id_type] and [replica_number_type]. *)
Definition try_lock_for_intermediate_replica_access (t : rat) (r : replica) (token : string) : Z :=
  let granted :=
    if at_rest r then true
    else if String.eqb token "" then false
    else match contains_token token (d_data_id r mod 2 ^ 64) (d_repl_num r mod 2 ^ 32) t with
         | (Ok b, _) => b
         | (Throw _, _) => false
         end in
  if granted then 0 else INTERMEDIATE_REPLICA_ACCESS.

Fixpoint try_lock_loop (check_intermediate : bool) (rs : list replica) : Z :=
  match rs with
  | [] => 0
  | r :: rs' =>
      let st := d_repl_status r in
      if (st =? INTERMEDIATE_REPLICA)%Z then
        if check_intermediate then LOCKED_DATA_OBJECT_ACCESS
        else try_lock_loop check_intermediate rs'
      else if (st =? WRITE_LOCKED)%Z then LOCKED_DATA_OBJECT_ACCESS
      else try_lock_loop check_intermediate rs'
  end.

Definition try_lock_for_locked_data_object (o : data_object) (lt : lock_type)
    (check_intermediate : bool) : Z :=
  try_lock_loop check_intermediate (o_replicas o).

Definition try_lock_for_specific_replica (t : rat) (r : replica) (token : string) : Z :=
  let ec := try_lock_for_intermediate_replica_access t r token in
  if (ec <? 0)%Z then ec
  else if locked r then LOCKED_DATA_OBJECT_ACCESS else 0.

(** [find_replica] of [data_object_proxy]. *)
Definition find_replica_hierarchy (o : data_object) (h : bstr) : option replica :=
  find (fun r => bstr_eqb (d_hierarchy r) h) (o_replicas o).
Definition find_replica_number (o : data_object) (n : Z) : option replica :=
  find (fun r => (d_repl_num r =? n)%Z) (o_replicas o).

Definition try_lock (o : data_object) (lt : lock_type) : Z :=
  try_lock_for_locked_data_object o lt true.

Definition try_lock_hierarchy (t : rat) (o : data_object) (lt : lock_type) (h : bstr)
    (token : string) : Z :=
  match find_replica_hierarchy o h with
  | None => try_lock_for_locked_data_object o lt true
  | Some r => try_lock_for_specific_replica t r token
  end.

Definition try_lock_number (t : rat) (o : data_object) (lt : lock_type) (n : Z)
    (token : string) : Z :=
  match find_replica_number o n with
  | None => try_lock_for_locked_data_object o lt true
  | Some r => try_lock_for_specific_replica t r token
  end.

(** ** Updating every replica of an entry

    The loops update the replicas one by one; together they apply one set of
    columns per replica. A replica is described by its number and its status in
    the catalog. *)

Definition upd_all (g : Z * Z -> columns) (ps : list (Z * Z)) (e : entry) : entry :=
  Entry (zip_with (fun p r => update_entry (g p) r) ps (e_replicas e)) (e_logical_path e).

(** What [before] says of a replica, as the table was filled from the catalog. *)
Record rep_ok (r : rep_entry) (p : Z * Z) : Prop := RepOk {
  ok_num : e_before r !! "data_repl_num" = Some (to_string p.1);
  ok_num_range : (0 <= p.1 <= INT_MAX)%Z;
  ok_dirty : e_before r !! "data_is_dirty" = Some (to_string p.2);
  ok_dirty_range : (0 <= p.2 <= INT_MAX)%Z;
  ok_status : is_Some (e_before r !! "data_status")
}.

Definition entry_ok (e : entry) (ps : list (Z * Z)) : Prop :=
  Forall2 rep_ok (e_replicas e) ps /\ NoDup ps.*1.

Lemma update_entry_empty r : update_entry ∅ r = r.
Proof.
  destruct r as [b a f]. unfold update_entry, update_columns; simpl.
  by rewrite (left_id_L ∅ (∪)).
Qed.

Lemma update_entry_twice c1 c2 r :
  update_entry c2 (update_entry c1 r) = update_entry (c2 ∪ c1) r.
Proof. unfold update_entry, update_columns; simpl. by rewrite (assoc_L (∪)). Qed.

Lemma upd_all_twice g1 g2 ps e :
  upd_all g2 ps (upd_all g1 ps e) = upd_all (fun p => g2 p ∪ g1 p) ps e.
Proof.
  destruct e as [rs lp]. unfold upd_all; simpl. f_equal.
  revert rs. induction ps as [|p ps IH]; intros [|r rs]; simpl; [done..|].
  by rewrite update_entry_twice, IH.
Qed.

Lemma upd_all_ok g ps e : entry_ok e ps -> entry_ok (upd_all g ps e) ps.
Proof.
  intros [H Hnd]. split; [|done]. simpl. induction H as [|r p rs ps Hr H IH]; simpl; [done|].
  apply NoDup_cons in Hnd as [_ Hnd].
  constructor; [|by apply IH]. by destruct Hr; constructor.
Qed.

Lemma upd_all_skip ps e : length ps = length (e_replicas e) -> upd_all (fun _ => ∅) ps e = e.
Proof.
  destruct e as [rs lp]. unfold upd_all; simpl. intros Hl. f_equal. revert rs Hl.
  induction ps as [|p ps IH]; intros [|r rs] Hl; simpl in *; try done.
  rewrite update_entry_empty, IH; [done|lia].
Qed.

Lemma upd_all_ext g1 g2 ps e :
  (forall p, p ∈ ps -> g1 p = g2 p) -> upd_all g1 ps e = upd_all g2 ps e.
Proof.
  intros Hg. unfold upd_all. f_equal. generalize (e_replicas e).
  induction ps as [|p ps IH]; intros [|r rs]; simpl; [done..|].
  rewrite (Hg p), IH; [done| |by left]. intros q Hq. apply Hg. by right.
Qed.

(** Updating one replica, as an update of all of them. *)
Lemma upd_all_one (c : columns) (ps : list (Z * Z)) e i n :
  length ps = length (e_replicas e) -> NoDup ps.*1 -> ps.*1 !! i = Some n ->
  Entry (alter (update_entry c) i (e_replicas e)) (e_logical_path e) =
  upd_all (fun p => if decide (p.1 = n) then c else ∅) ps e.
Proof.
  destruct e as [rs lp]. unfold upd_all; simpl. intros Hl Hnd Hi. f_equal.
  revert rs i Hl Hi. induction ps as [|p ps IH]; intros [|r rs] i Hl Hi; simpl in *; try done.
  apply NoDup_cons in Hnd as [Hp Hnd]. destruct i as [|i]; simplify_eq/=.
  - rewrite decide_True by done. f_equal. clear IH. revert rs Hl.
    induction ps as [|q ps IH']; intros [|s rs] Hl; simpl in *; try done.
    apply NoDup_cons in Hnd as [_ Hnd]. apply not_elem_of_cons in Hp as [Hq Hp].
    rewrite decide_False, update_entry_empty by congruence. f_equal. apply IH'; [done..|lia].
  - rewrite decide_False, update_entry_empty.
    + f_equal. apply IH; [done|lia|done].
    + intros Heq. apply Hp. rewrite Heq. by eapply list_elem_of_lookup_2.
Qed.

Section facts.
Context {L : LexicalCast} `{!LexicalCastLaws L}.

Lemma rep_ok_before r r' p : e_before r = e_before r' -> rep_ok r p -> rep_ok r' p.
Proof. intros Hb []. constructor; rewrite <- ?Hb; done. Qed.

Lemma rep_ok_before_num r p : rep_ok r p -> before_num r = Ok p.1.
Proof using LexicalCastLaws0.
  intros []. unfold before_num, json_at. rewrite ok_num0. simpl.
  rewrite lexical_cast_to_string; [done|unfold INT_MIN; lia].
Qed.

Lemma rep_ok_number r p : rep_ok r p -> replica_number r = Ok p.1.
Proof.
  intros []. unfold replica_number, json_at. rewrite ok_num0. simpl.
  apply stoi_to_string. unfold INT_MIN; lia.
Qed.

Lemma entry_ok_nums e ps : entry_ok e ps -> has_nums (e_replicas e) ps.*1.
Proof using LexicalCastLaws0.
  intros [H _]. induction H as [|r p rs ps Hr H IH]; simpl; constructor; [|done].
  by apply rep_ok_before_num.
Qed.

Lemma entry_ok_length e ps : entry_ok e ps -> length ps = length (e_replicas e).
Proof. intros [H _]. symmetry. by eapply Forall2_length. Qed.

(** One update, on a table that holds an entry for these replicas. *)
Lemma update_num_all t key e ps i n c :
  t !! key = Some e -> entry_ok e ps -> ps.*1 !! i = Some n ->
  update_num key n c t =
  (Ok tt, <[key := upd_all (fun p => if decide (p.1 = n) then c else ∅) ps e]> t).
Proof using LexicalCastLaws0.
  intros Hk Hok Hi. rewrite <- (upd_all_one c ps e i n); [|by apply entry_ok_length|apply Hok|done].
  eapply update_num_ok; [done|by apply entry_ok_nums|apply Hok|done].
Qed.

Lemma get_property_before_ok t key e ps i p k v :
  t !! key = Some e -> entry_ok e ps -> ps !! i = Some p ->
  (forall r, rep_ok r p -> e_before r !! k = Some (v r)) ->
  exists r, e_replicas e !! i = Some r /\ get_property_num key p.1 k before t = (Ok (v r), t).
Proof using LexicalCastLaws0.
  intros Hk Hok Hi Hv. destruct (Forall2_lookup_r _ _ _ _ _ (proj1 Hok) Hi) as (r & Hr & Hrok).
  exists r. split; [done|].
  rewrite (get_property_before _ _ _ _ Hk (entry_ok_nums _ _ Hok) (proj2 Hok) i p.1 r k);
    [|by rewrite list_lookup_fmap, Hi|done].
  unfold json_at. by rewrite (Hv r Hrok).
Qed.

(** A loop over the snapshot [l] whose body, at the replica described by [p],
    updates that replica with [g p], applies [g] everywhere. The body may rely on
    the table holding an entry for the same replicas. *)
Section loop.
Context (key : Z) (ps : list (Z * Z)) (f : rep_entry -> M rst unit) (g : Z * Z -> columns).

Definition body_ok (r : rep_entry) (p : Z * Z) : Prop :=
  forall t e, t !! key = Some e -> entry_ok e ps ->
  f r t = (Ok tt, <[key := upd_all (fun q => if decide (q.1 = p.1) then g p else ∅) ps e]> t).

Lemma for_each_partial l todo t e :
  Forall2 body_ok l todo -> todo ⊆ ps -> NoDup todo.*1 ->
  t !! key = Some e -> entry_ok e ps ->
  for_each f l t =
  (Ok tt, <[key := upd_all (fun q => if decide (q ∈ todo) then g q else ∅) ps e]> t).
Proof.
  intros H. revert t e. induction H as [|r p l todo Hr H IH]; intros t e Hsub Hnd Hk Hok; simpl.
  - unfold mret, M_ret. f_equal. rewrite upd_all_skip by by apply entry_ok_length.
    by rewrite insert_id.
  - apply NoDup_cons in Hnd as [Hp Hnd].
    rewrite (M_bind_ok _ _ _ _ _ (Hr t e Hk Hok)).
    erewrite IH; [|intros x Hx; apply Hsub; by right|done|apply lookup_insert_eq|by apply upd_all_ok].
    rewrite insert_insert_eq, upd_all_twice. f_equal. f_equal. apply upd_all_ext. intros q Hq.
    destruct (decide (q.1 = p.1)) as [Heq|Hne].
    + assert (q = p) as ->.
      { destruct Hok as [_ Hnd']. apply list_elem_of_lookup in Hq as [i Hi].
        assert (p ∈ ps) as Hpp by (apply Hsub; by left).
        apply list_elem_of_lookup in Hpp as [j Hj].
        assert (i = j) as ->; [|congruence].
        eapply NoDup_lookup; [exact Hnd'| |]; rewrite list_lookup_fmap; [by rewrite Hi|].
        rewrite Hj. simpl. by rewrite Heq. }
      rewrite decide_False, decide_True by (try (by left); intros Hin; by apply Hp, list_elem_of_fmap_2).
      by rewrite (left_id_L ∅ (∪)).
    + rewrite (right_id_L ∅ (∪)).
      destruct (decide (q ∈ todo)) as [Hin|Hnin].
      * by rewrite decide_True by by right.
      * rewrite decide_False; [done|]. rewrite elem_of_cons. intros [->|]; done.
Qed.

Lemma for_each_all l t e :
  Forall2 body_ok l ps -> t !! key = Some e -> entry_ok e ps ->
  for_each f l t = (Ok tt, <[key := upd_all g ps e]> t).
Proof.
  intros H Hk Hok. rewrite (for_each_partial l ps t e H); [|done|apply Hok|done..].
  f_equal. f_equal. apply upd_all_ext. intros q Hq. by rewrite decide_True.
Qed.
End loop.
End facts.

(** ** The operations, on an entry whose replicas are known *)

Section ops.
Context {L : LexicalCast} `{!LexicalCastLaws L} {J : Json}.
Context (key : Z) (ps : list (Z * Z)).

(** Saved statuses: [v p] is what [get_original_replica_status_impl] finds. *)
Definition saved (e : entry) (v : Z * Z -> Z) : Prop :=
  Forall2 (fun r p => get_original_replica_status_impl r = Ok (v p)) (e_replicas e) ps.

Lemma lift_bind {S A B} (x : A) (k : A -> M S B) s : (lift (Ok x) ≫= k) s = k x s.
Proof. done. Qed.

(** The replica's number is read before anything else. *)
Lemma number_bind {B} r p (k : Z -> M rst B) t :
  rep_ok r p -> (lift (replica_number r) ≫= k) t = k p.1 t.
Proof. intros H. by rewrite (rep_ok_number _ _ H). Qed.

Lemma skip_body (t : rst) e n :
  t !! key = Some e -> entry_ok e ps ->
  t = <[key := upd_all (fun q => if decide (q.1 = n) then ∅ else ∅) ps e]> t.
Proof.
  intros Hk Hok. rewrite (upd_all_ext _ (fun _ => ∅)) by (intros q _; by destruct (decide _)).
  rewrite upd_all_skip by by apply entry_ok_length. by rewrite insert_id.
Qed.

Lemma update_body t e p c :
  t !! key = Some e -> entry_ok e ps -> p ∈ ps ->
  update_num key p.1 c t =
  (Ok tt, <[key := upd_all (fun q => if decide (q.1 = p.1) then c else ∅) ps e]> t).
Proof using LexicalCastLaws0.
  intros Hk Hok Hp. apply list_elem_of_lookup in Hp as [i Hi].
  eapply update_num_all; [done..|]. by rewrite list_lookup_fmap, Hi.
Qed.

Lemma property_body t e p k v :
  t !! key = Some e -> entry_ok e ps -> p ∈ ps ->
  (forall r, rep_ok r p -> e_before r !! k = Some v) ->
  get_property_num key p.1 k before t = (Ok v, t).
Proof using LexicalCastLaws0.
  intros Hk Hok Hp Hv. apply list_elem_of_lookup in Hp as [i Hi].
  destruct (get_property_before_ok t key e ps i p k (fun _ => v) Hk Hok Hi Hv) as (r & _ & H).
  exact H.
Qed.

(** Relating the snapshot a loop runs over to the descriptions. *)
Lemma snapshot_Forall2 (P Q : rep_entry -> Z * Z -> Prop) l :
  Forall2 P l ps -> (forall r p, p ∈ ps -> P r p -> Q r p) -> Forall2 Q l ps.
Proof.
  intros H HPQ. apply Forall2_same_length_lookup_2; [by eapply Forall2_length|].
  intros i r p Hr Hp. apply HPQ; [by eapply list_elem_of_lookup_2|].
  by eapply Forall2_lookup_lr.
Qed.

Lemma saved_ok e v :
  entry_ok e ps -> saved e v ->
  Forall2 (fun r p => rep_ok r p /\ get_original_replica_status_impl r = Ok (v p)) (e_replicas e) ps.
Proof.
  intros [H _] Hv. apply Forall2_same_length_lookup_2; [by eapply Forall2_length|].
  intros i r p Hr Hp.
  by split; [apply (Forall2_lookup_lr _ _ _ _ _ _ H Hr Hp)|apply (Forall2_lookup_lr _ _ _ _ _ _ Hv Hr Hp)].
Qed.

Lemma insert_data_status_ok t e v :
  t !! key = Some e -> entry_ok e ps -> saved e v ->
  insert_data_status key t =
  (Ok tt, <[key := upd_all (fun p => if (v p =? -1)%Z
                                     then {["data_status" := status_document (to_string p.2)]}
                                     else ∅) ps e]> t).
Proof using LexicalCastLaws0.
  intros Hk Hok Hv. unfold insert_data_status.
  rewrite (M_bind_ok _ _ _ _ _ (rst_at_ok _ _ _ Hk)).
  rewrite (M_bind_ok _ _ _ _ _ (get_logical_path_ok _ _ _ Hk)).
  apply for_each_all; [|done..].
  apply (snapshot_Forall2 _ _ _ (saved_ok _ _ Hok Hv)). intros r p Hp [Hr Hs] t' e' Hk' Hok'.
  rewrite (number_bind r p _ _ Hr), Hs, lift_bind. destruct (v p =? -1)%Z; simpl.
  - erewrite M_bind_ok; [|eapply property_body; [done..|]; intros r' Hr'; apply Hr'].
    by apply update_body.
  - unfold mret, M_ret. f_equal. by apply skip_body.
Qed.

Lemma remove_data_status_ok t e :
  t !! key = Some e -> entry_ok e ps ->
  remove_data_status key t = (Ok tt, <[key := upd_all (fun _ => {["data_status" := []]}) ps e]> t).
Proof using LexicalCastLaws0.
  intros Hk Hok. unfold remove_data_status.
  rewrite (M_bind_ok _ _ _ _ _ (rst_at_ok _ _ _ Hk)).
  apply for_each_all; [|done..].
  apply (snapshot_Forall2 _ _ _ (proj1 Hok)). intros r p Hp Hr t' e' Hk' Hok'.
  rewrite (number_bind r p _ _ Hr). by apply update_body.
Qed.

Lemma set_replica_statuses_ok t e num st :
  t !! key = Some e -> entry_ok e ps ->
  set_replica_statuses key num st t =
  (Ok tt, <[key := upd_all (fun p => if (num =? p.1)%Z then ∅
                                     else {["data_is_dirty" := to_string st]}) ps e]> t).
Proof using LexicalCastLaws0.
  intros Hk Hok. unfold set_replica_statuses.
  rewrite (M_bind_ok _ _ _ _ _ (rst_at_ok _ _ _ Hk)).
  apply for_each_all; [|done..].
  apply (snapshot_Forall2 _ _ _ (proj1 Hok)). intros r p Hp Hr t' e' Hk' Hok'.
  rewrite (number_bind r p _ _ Hr).
  assert (exists s, get_property_num key p.1 "data_status" before t' = (Ok s, t')) as [s Hs].
  { apply list_elem_of_lookup in Hp as [i Hi].
    destruct (get_property_before_ok t' key e' ps i p "data_status"
                (fun r => default [] (e_before r !! "data_status")) Hk' Hok' Hi) as (r' & _ & Hg).
    - intros r' Hr'. destruct (ok_status _ _ Hr') as [s ->]. done.
    - eauto. }
  rewrite (M_bind_ok _ _ _ _ _ Hs). destruct (num =? p.1)%Z; simpl.
  - unfold mret, M_ret. f_equal. by apply skip_body.
  - by apply update_body.
Qed.

Lemma restore_replica_statuses_ok t e num v :
  t !! key = Some e -> entry_ok e ps -> saved e v ->
  restore_replica_statuses key num t =
  (Ok tt, <[key := upd_all (fun p => if (num =? p.1)%Z then ∅
                                     else if (v p =? -1)%Z then ∅
                                     else {["data_is_dirty" := to_string (v p)]}) ps e]> t).
Proof using LexicalCastLaws0.
  intros Hk Hok Hv. unfold restore_replica_statuses.
  rewrite (M_bind_ok _ _ _ _ _ (rst_at_ok _ _ _ Hk)).
  rewrite (M_bind_ok _ _ _ _ _ (get_logical_path_ok _ _ _ Hk)).
  apply for_each_all; [|done..].
  apply (snapshot_Forall2 _ _ _ (saved_ok _ _ Hok Hv)). intros r p Hp [Hr Hs] t' e' Hk' Hok'.
  rewrite (number_bind r p _ _ Hr).
  destruct (num =? p.1)%Z; [unfold mret, M_ret; f_equal; by apply skip_body|].
  rewrite Hs, lift_bind. destruct (v p =? -1)%Z.
  - unfold mret, M_ret; f_equal; by apply skip_body.
  - by apply update_body.
Qed.
End ops.

Section whole.
Context {L : LexicalCast} `{!LexicalCastLaws L} {J : Json} `{!JsonLaws J}.
Context (key : Z) (ps : list (Z * Z)).

(** The status [lock] gives a replica. *)
Definition lock_status_of (num : Z) (lt : lock_type) (p : Z * Z) : Z :=
  if (num =? p.1)%Z then match lt with write => INTERMEDIATE_REPLICA | read => READ_LOCKED end
  else lock_type_to_repl_status lt.

Definition dirty_column (st : Z) : columns := {["data_is_dirty" := to_string st]}.

Lemma update_target t e num c :
  t !! key = Some e -> entry_ok e ps -> num ∈ ps.*1 ->
  update_num key num c t =
  (Ok tt, <[key := upd_all (fun p => if (num =? p.1)%Z then c else ∅) ps e]> t).
Proof using LexicalCastLaws0.
  intros Hk Hok Hin. apply list_elem_of_fmap in Hin as (p & -> & Hp).
  rewrite (update_body key ps t e p c Hk Hok Hp). f_equal. f_equal. apply upd_all_ext.
  intros q _. destruct (decide (q.1 = p.1)) as [->|Hne]; [by rewrite Z.eqb_refl|].
  by rewrite (proj2 (Z.eqb_neq _ _)) by congruence.
Qed.

Lemma num_not_unknown num e : entry_ok e ps -> num ∈ ps.*1 -> (unknown_replica_id =? num)%Z = false.
Proof.
  intros [H _] Hin. apply list_elem_of_fmap in Hin as (p & -> & Hp).
  apply list_elem_of_lookup in Hp as [i Hi].
  destruct (Forall2_lookup_r _ _ _ _ _ H Hi) as (r & _ & Hr).
  apply Z.eqb_neq. pose proof (ok_num_range _ _ Hr). unfold unknown_replica_id. lia.
Qed.

Lemma unknown_no_target e p :
  entry_ok e ps -> p ∈ ps -> (unknown_replica_id =? p.1)%Z = false.
Proof.
  intros Hok Hp. eapply num_not_unknown; [done|]. by apply list_elem_of_fmap_2.
Qed.

Lemma lock_impl_ok t e num lt v :
  t !! key = Some e -> entry_ok e ps -> saved ps e v ->
  num ∈ ps.*1 \/ num = unknown_replica_id ->
  lock_impl key num lt t =
  (Ok 0%Z, <[key := upd_all (fun p => dirty_column (lock_status_of num lt p) ∪
                               if (v p =? -1)%Z
                               then {["data_status" := status_document (to_string p.2)]}
                               else ∅) ps e]> t).
Proof using LexicalCastLaws0.
  intros Hk Hok Hv Hnum. unfold lock_impl, try_catch.
  rewrite (M_bind_ok _ _ _ _ _ (insert_data_status_ok key ps t e v Hk Hok Hv)).
  set (e1 := upd_all _ ps e). set (t1 := <[key := e1]> t).
  assert (t1 !! key = Some e1) as Hk1 by apply lookup_insert_eq.
  assert (entry_ok e1 ps) as Hok1 by by apply upd_all_ok.
  destruct Hnum as [Hnum| ->].
  - rewrite (num_not_unknown _ _ Hok Hnum). cbn match beta delta [negb].
    rewrite (M_bind_ok _ _ t1 tt
      (<[key := upd_all (fun p => if (num =? p.1)%Z then dirty_column (lock_status_of num lt p)
                                  else ∅) ps e1]> t1)).
    + rewrite (M_bind_ok _ _ _ _ _ (set_replica_statuses_ok key ps _ _ num _
                (lookup_insert_eq _ _ _) (upd_all_ok _ _ _ Hok1))).
      unfold mret, M_ret. f_equal. subst t1 e1. rewrite !insert_insert_eq, !upd_all_twice.
      f_equal. apply upd_all_ext. intros p _. unfold lock_status_of, dirty_column.
      destruct (num =? p.1)%Z; [by rewrite (left_id_L ∅ (∪))|].
      by rewrite (right_id_L ∅ (∪)).
    + assert (forall c, update_num key num (dirty_column c) t1 =
        (Ok tt, <[key := upd_all (fun p => if (num =? p.1)%Z then dirty_column c else ∅) ps e1]> t1))
        as Hupd by (intros c; by apply update_target).
      destruct lt; cbn [lock_type_to_repl_status]; etrans; try apply Hupd; f_equal; f_equal;
        apply upd_all_ext; intros p _; unfold lock_status_of; by destruct (num =? p.1)%Z.
  - rewrite Z.eqb_refl. cbn match beta delta [negb].
    rewrite (M_bind_ok _ _ t1 tt t1) by done.
    rewrite (M_bind_ok _ _ _ _ _ (set_replica_statuses_ok key ps _ _ unknown_replica_id _ Hk1 Hok1)).
    unfold mret, M_ret. f_equal. subst t1 e1. rewrite !insert_insert_eq, !upd_all_twice.
    f_equal. apply upd_all_ext. intros p Hp. unfold lock_status_of.
    by rewrite (unknown_no_target e p Hok Hp).
Qed.

(** The status [unlock] gives a replica, with [v] what was saved: [None] leaves
    the column as it is. *)
Definition unlock_status_of (num status others : Z) (v : Z * Z -> Z) (p : Z * Z) : option Z :=
  if (num =? p.1)%Z then
    Some (if (restore_status =? status)%Z
          then (if (v p =? -1)%Z then STALE_REPLICA else v p) else status)
  else if (restore_status =? others)%Z then (if (v p =? -1)%Z then None else Some (v p))
  else Some others.

Definition status_column (s : option Z) : columns :=
  match s with Some z => dirty_column z | None => ∅ end.

Lemma saved_upd_dirty e v g :
  saved ps e v -> (forall p, g p !! "data_status" = None) -> saved ps (upd_all g ps e) v.
Proof.
  intros H Hg. unfold saved, upd_all in *. simpl. induction H as [|r p rs qs Hr H IH]; simpl; [done|].
  constructor; [|done]. rewrite <- Hr. unfold get_original_replica_status_impl, json_at; simpl.
  by rewrite update_columns_lookup, Hg.
Qed.

Lemma unlock_others_ok t e num others v :
  t !! key = Some e -> entry_ok e ps -> saved ps e v ->
  (if (restore_status =? others)%Z then restore_replica_statuses key num
   else set_replica_statuses key num others) t =
  (Ok tt, <[key := upd_all (fun p => if (num =? p.1)%Z then ∅
                              else status_column (unlock_status_of num 0 others v p)) ps e]> t).
Proof using LexicalCastLaws0.
  intros Hk Hok Hv. unfold unlock_status_of. destruct (restore_status =? others)%Z.
  - rewrite (restore_replica_statuses_ok key ps t e num v Hk Hok Hv). f_equal. f_equal.
    apply upd_all_ext. intros p _. by destruct (num =? p.1)%Z, (v p =? -1)%Z.
  - rewrite (set_replica_statuses_ok key ps t e num others Hk Hok). f_equal. f_equal.
    apply upd_all_ext. intros p _. by destruct (num =? p.1)%Z.
Qed.

Lemma get_original_ok t e v num :
  t !! key = Some e -> entry_ok e ps -> saved ps e v -> num ∈ ps.*1 ->
  exists p, p ∈ ps /\ p.1 = num /\ get_original_replica_status key num t = (Ok (v p), t).
Proof using LexicalCastLaws0.
  intros Hk Hok Hv Hin. apply list_elem_of_fmap in Hin as (p & -> & Hp).
  exists p. split_and!; [done..|]. apply list_elem_of_lookup in Hp as [i Hi].
  destruct (Forall2_lookup_r _ _ _ _ _ Hv Hi) as (r & Hr & Hs).
  unfold get_original_replica_status.
  rewrite (M_bind_ok _ _ _ _ _ (at_num_ok _ _ _ _ Hk (entry_ok_nums _ _ Hok) (proj2 Hok) i p.1 r both
             ltac:(by rewrite list_lookup_fmap, Hi) Hr)).
  simpl. by rewrite Hs.
Qed.

(** The first part of [unlock_impl]: the target replica. *)
Lemma unlock_target_ok t e v num status :
  t !! key = Some e -> entry_ok e ps -> saved ps e v ->
  num ∈ ps.*1 \/ num = unknown_replica_id ->
  unlock_target key num status t =
  (Ok tt, <[key := upd_all (fun p => if (num =? p.1)%Z
                              then status_column (unlock_status_of num status 0 v p)
                              else ∅) ps e]> t).
Proof using LexicalCastLaws0.
  intros Hk Hok Hv [Hnum| ->]; unfold unlock_target.
  - rewrite (num_not_unknown _ _ Hok Hnum). cbn match beta delta [negb].
    destruct (get_original_ok t e v num Hk Hok Hv Hnum) as (p & Hp & Hpn & Hg).
    assert (forall q, q ∈ ps -> (num =? q.1)%Z = true -> q = p) as Huniq.
    { intros q Hq Hqn%Z.eqb_eq. destruct Hok as [_ Hnd].
      apply list_elem_of_lookup in Hq as [i Hi]. apply list_elem_of_lookup in Hp as [j Hj].
      assert (i = j) as ->; [|congruence].
      eapply NoDup_lookup; [exact Hnd| |]; rewrite list_lookup_fmap; [by rewrite Hi|].
      rewrite Hj. simpl. congruence. }
    set (z := if (restore_status =? status)%Z
              then (if (v p =? -1)%Z then STALE_REPLICA else v p) else status).
    rewrite (M_bind_ok _ _ t z t).
    + rewrite (update_target t e num _ Hk Hok Hnum). f_equal. f_equal.
      apply upd_all_ext. intros q Hq. destruct (num =? q.1)%Z eqn:Eq; [|done].
      assert (q = p) as -> by auto. unfold unlock_status_of. by rewrite Eq.
    + subst z. destruct (restore_status =? status)%Z; [|done].
      by rewrite (M_bind_ok _ _ _ _ _ Hg).
  - rewrite Z.eqb_refl. cbn match beta delta [negb]. unfold mret, M_ret. f_equal.
    rewrite (upd_all_ext _ (fun _ => ∅)).
    + rewrite upd_all_skip by by apply entry_ok_length. by rewrite insert_id.
    + intros p Hp. by rewrite (unknown_no_target e p Hok Hp).
Qed.

Lemma unlock_impl_ok t e num status others v :
  t !! key = Some e -> entry_ok e ps -> saved ps e v ->
  num ∈ ps.*1 \/ num = unknown_replica_id ->
  unlock_impl key num status others t =
  (Ok 0%Z, <[key := upd_all (fun p => {["data_status" := []]} ∪
                               status_column (unlock_status_of num status others v p)) ps e]> t).
Proof using LexicalCastLaws0.
  intros Hk Hok Hv Hnum. unfold unlock_impl, try_catch.
  rewrite (M_bind_ok _ _ _ _ _ (unlock_target_ok t e v num status Hk Hok Hv Hnum)).
  set (e1 := upd_all _ ps e).
  assert (entry_ok e1 ps) as Hok1 by by apply upd_all_ok.
  assert (saved ps e1 v) as Hv1.
  { apply saved_upd_dirty; [done|]. intros p. destruct (num =? p.1)%Z; [|done].
    by destruct (unlock_status_of _ _ _ _ _). }
  rewrite (M_bind_ok _ _ _ _ _ (unlock_others_ok _ e1 num others v
             (lookup_insert_eq _ _ _) Hok1 Hv1)).
  rewrite (M_bind_ok _ _ _ _ _ (remove_data_status_ok key ps _ _
             (lookup_insert_eq _ _ _) (upd_all_ok _ _ _ Hok1))).
  unfold mret, M_ret. f_equal. subst e1. rewrite !insert_insert_eq, !upd_all_twice.
  f_equal. apply upd_all_ext. intros p _. rewrite <- (assoc_L (∪)). f_equal.
  unfold unlock_status_of. destruct (num =? p.1)%Z; [by rewrite (left_id_L ∅ (∪))|].
  by rewrite (right_id_L ∅ (∪)).
Qed.

(** ** What is saved is found again *)

Lemma plain_to_string z : (0 <= z)%Z -> plain (to_string z).
Proof.
  intros Hz. unfold to_string. rewrite (proj2 (Z.ltb_ge z 0)) by done.
  eapply Forall_impl; [by apply nat_digits_all|]. intros c. unfold is_digit, plain_char.
  rewrite !andb_true_iff, !Z.leb_le, !negb_true_iff, !Z.eqb_neq, Z.ltb_lt. lia.
Qed.

Lemma saved_document (g : Z * Z -> columns) r p :
  (0 <= p.2 <= INT_MAX)%Z -> g p !! "data_status" = Some (status_document (to_string p.2)) ->
  get_original_replica_status_impl (update_entry (g p) r) = Ok p.2.
Proof using JsonLaws0.
  intros Hp Hg. unfold get_original_replica_status_impl, json_at; simpl.
  rewrite update_columns_lookup, Hg. simpl. unfold status_document.
  rewrite (proj2 (bstr_eqb_neq _ _)) by apply json_dump_nonempty.
  rewrite json_parse_dump; [|by repeat constructor|apply plain_to_string; lia].
  apply stoi_to_string. unfold INT_MIN. lia.
Qed.

Lemma saved_all (g : Z * Z -> columns) e :
  entry_ok e ps ->
  (forall p, p ∈ ps -> g p !! "data_status" = Some (status_document (to_string p.2))) ->
  saved ps (upd_all g ps e) snd.
Proof using JsonLaws0.
  intros [H _] Hg. unfold saved, upd_all; simpl.
  apply Forall2_same_length_lookup_2.
  - rewrite length_zip_with_l_eq; [done|]. symmetry. by eapply Forall2_length.
  - intros i r p Hr Hp. apply lookup_zip_with_Some in Hr as (p' & r0 & -> & Hp' & Hr0).
    rewrite Hp in Hp'. injection Hp' as <-. apply saved_document; [|apply Hg; by eapply list_elem_of_lookup_2].
    apply (Forall2_lookup_lr _ _ _ _ _ _ H Hr0 Hp).
Qed.

(** No status is saved while the object is unlocked. *)
Definition unlocked (e : entry) : Prop :=
  Forall (fun r => e_after r !! "data_status" = Some []) (e_replicas e).

Lemma unlocked_saved e : length ps = length (e_replicas e) -> unlocked e -> saved ps e (fun _ => -1)%Z.
Proof.
  intros Hl H. apply Forall2_same_length_lookup_2; [done|]. intros i r p Hr _.
  unfold get_original_replica_status_impl, json_at.
  by rewrite (Forall_lookup_1 _ _ _ _ H Hr).
Qed.

(** The columns of a locked object: a status each, and the saved one. *)
Definition locked_columns (d : Z * Z -> Z) (p : Z * Z) : columns :=
  dirty_column (d p) ∪ {["data_status" := status_document (to_string p.2)]}.

Lemma locked_saved d e : entry_ok e ps -> saved ps (upd_all (locked_columns d) ps e) snd.
Proof using JsonLaws0. intros Hok. apply saved_all; [done|]. intros p _. done. Qed.

Lemma lock_unlocked t e num lt :
  t !! key = Some e -> entry_ok e ps -> unlocked e ->
  num ∈ ps.*1 \/ num = unknown_replica_id ->
  lock key num lt t =
  (Ok 0%Z, <[key := upd_all (locked_columns (lock_status_of num lt)) ps e]> t).
Proof using LexicalCastLaws0.
  intros Hk Hok Hu Hnum. unfold lock.
  rewrite (lock_impl_ok t e num lt (fun _ => -1)%Z Hk Hok); [|by apply unlocked_saved; [apply entry_ok_length|]|done].
  reflexivity.
Qed.

(** Locking again changes the statuses and keeps what was saved. *)
Lemma lock_locked t e d num lt :
  t !! key = Some (upd_all (locked_columns d) ps e) -> entry_ok e ps ->
  num ∈ ps.*1 \/ num = unknown_replica_id ->
  lock key num lt t =
  (Ok 0%Z, <[key := upd_all (locked_columns (lock_status_of num lt)) ps e]> t).
Proof using LexicalCastLaws0 JsonLaws0.
  intros Hk Hok Hnum. unfold lock.
  rewrite (lock_impl_ok t _ num lt snd Hk); [|by apply upd_all_ok|by apply locked_saved|done].
  rewrite upd_all_twice. f_equal. f_equal. apply upd_all_ext. intros p Hp.
  assert ((p.2 =? -1)%Z = false) as ->.
  { apply list_elem_of_lookup in Hp as [i Hi].
    destruct (Forall2_lookup_r _ _ _ _ _ (proj1 Hok) Hi) as (r & _ & Hr).
    apply Z.eqb_neq. pose proof (ok_dirty_range _ _ Hr). lia. }
  rewrite (right_id_L ∅ (∪)). unfold locked_columns. rewrite (assoc_L (∪)). f_equal.
Qed.
End whole.

(** ** What locking promises *)

Section claims.
Context {L : LexicalCast} `{!LexicalCastLaws L} {J : Json} `{!JsonLaws J}.

Lemma upd_all_lookup g ps e i p r :
  ps !! i = Some p -> e_replicas e !! i = Some r ->
  e_replicas (upd_all g ps e) !! i = Some (update_entry (g p) r).
Proof. intros Hp Hr. simpl. by rewrite lookup_zip_with, Hp, Hr. Qed.

(** How an operation changes one replica of the table: [before] is kept, [after]
    gets these two columns and keeps the others. *)
Definition restatus (r r' : rep_entry) (dirty data_status : bstr) : Prop :=
  e_before r' = e_before r /\
  e_after r' !! "data_is_dirty" = Some dirty /\
  e_after r' !! "data_status" = Some data_status /\
  forall c, c <> "data_is_dirty" -> c <> "data_status" -> e_after r' !! c = e_after r !! c.

Lemma update_entry_restatus (g : columns) r dirty data_status :
  g !! "data_is_dirty" = Some dirty -> g !! "data_status" = Some data_status ->
  (forall c, c <> "data_is_dirty" -> c <> "data_status" -> g !! c = None) ->
  restatus r (update_entry g r) dirty data_status.
Proof.
  intros H1 H2 H3. split; [done|]. simpl. split_and!.
  - by rewrite update_columns_lookup, H1.
  - by rewrite update_columns_lookup, H2.
  - intros c Hc1 Hc2. by rewrite update_columns_lookup, H3.
Qed.

Lemma two_columns (a b : bstr) c :
  c <> "data_is_dirty" -> c <> "data_status" ->
  (({["data_is_dirty" := a]} : columns) ∪ {["data_status" := b]}) !! c = None.
Proof. intros H1 H2. by rewrite lookup_union, !lookup_singleton_ne. Qed.

(** C2: Locking an unlocked data object succeeds; every replica keeps its catalog state,
    saves its original status in data_status, and takes its locked status:
    intermediate for the target of a write lock, write-locked for its siblings,
    read-locked for all under a read lock. No other column and no other object
    changes. *)
Theorem lock_spec t key e ps num lt :
  t !! key = Some e -> entry_ok e ps -> unlocked e ->
  num ∈ ps.*1 \/ num = unknown_replica_id ->
  exists e',
    lock key num lt t = (Ok 0%Z, <[key := e']> t) /\
    e_logical_path e' = e_logical_path e /\
    forall i p r, ps !! i = Some p -> e_replicas e !! i = Some r ->
    exists r', e_replicas e' !! i = Some r' /\
      restatus r r' (to_string (lock_status_of num lt p)) (status_document (to_string p.2)).
Proof using LexicalCastLaws0.
  intros Hk Hok Hu Hnum. eexists. split; [by apply lock_unlocked|]. split; [done|].
  intros i p r Hp Hr. eexists. split; [by apply upd_all_lookup|].
  apply update_entry_restatus; [done..|]. intros c. apply two_columns.
Qed.

Lemma unlock_locked t e d key ps num status others :
  t !! key = Some (upd_all (locked_columns d) ps e) -> entry_ok e ps ->
  num ∈ ps.*1 \/ num = unknown_replica_id ->
  unlock key num status others t =
  (Ok 0%Z, <[key := upd_all (fun p => {["data_status" := []]} ∪
                               status_column (unlock_status_of num status others snd p)) ps
                      (upd_all (locked_columns d) ps e)]> t).
Proof using LexicalCastLaws0 JsonLaws0.
  intros Hk Hok Hnum. apply unlock_impl_ok; [done|by apply upd_all_ok|by apply locked_saved|done].
Qed.

(** The status an unlocked replica has, when the object had been locked. *)
Definition final_status (num status others : Z) (p : Z * Z) : Z :=
  let s := if (num =? p.1)%Z then status else others in
  if (restore_status =? s)%Z then p.2 else s.

Lemma entry_ok_status e ps p : entry_ok e ps -> p ∈ ps -> (p.2 =? -1)%Z = false.
Proof.
  intros [H _] Hp. apply list_elem_of_lookup in Hp as [i Hi].
  destruct (Forall2_lookup_r _ _ _ _ _ H Hi) as (r & _ & Hr).
  apply Z.eqb_neq. pose proof (ok_dirty_range _ _ Hr). lia.
Qed.

Lemma unlock_status_final e ps num status others p :
  entry_ok e ps -> p ∈ ps ->
  unlock_status_of num status others snd p = Some (final_status num status others p).
Proof.
  intros Hok Hp. unfold unlock_status_of, final_status. rewrite (entry_ok_status e ps p Hok Hp).
  by destruct (num =? p.1)%Z, (restore_status =? status)%Z, (restore_status =? others)%Z.
Qed.

(** Unlocking in closed form. *)
Lemma unlock_locked_final t e d key ps num status others :
  t !! key = Some (upd_all (locked_columns d) ps e) -> entry_ok e ps ->
  num ∈ ps.*1 \/ num = unknown_replica_id ->
  unlock key num status others t =
  (Ok 0%Z, <[key := upd_all (fun p => dirty_column (final_status num status others p) ∪
                                       {["data_status" := []]}) ps e]> t).
Proof using LexicalCastLaws0 JsonLaws0.
  intros Hk Hok Hnum. rewrite (unlock_locked t e d key ps num status others Hk Hok Hnum).
  rewrite upd_all_twice. f_equal. f_equal. apply upd_all_ext. intros p Hp.
  rewrite (unlock_status_final e ps _ _ _ p Hok Hp). reflexivity.
Qed.

(** C3: Unlocking after a lock gives the target the status asked for and its siblings
    the status asked for them, or, for restore_status, the one they had before the
    lock; the saved statuses are cleared and no other column changes. *)
Theorem lock_unlock_spec t key e ps num lt status others :
  t !! key = Some e -> entry_ok e ps -> unlocked e ->
  num ∈ ps.*1 \/ num = unknown_replica_id ->
  exists e',
    (lock key num lt ≫= fun _ => unlock key num status others) t = (Ok 0%Z, <[key := e']> t) /\
    e_logical_path e' = e_logical_path e /\ unlocked e' /\
    forall i p r, ps !! i = Some p -> e_replicas e !! i = Some r ->
    exists r', e_replicas e' !! i = Some r' /\
      restatus r r' (to_string (final_status num status others p)) [].
Proof using LexicalCastLaws0 JsonLaws0.
  intros Hk Hok Hu Hnum. rewrite (M_bind_ok _ _ _ _ _ (lock_unlocked key ps t e num lt Hk Hok Hu Hnum)).
  rewrite (unlock_locked_final _ _ _ _ _ _ _ _ (lookup_insert_eq _ _ _) Hok Hnum), insert_insert_eq.
  eexists. split; [reflexivity|]. split; [done|].
  assert (forall i p r, ps !! i = Some p -> e_replicas e !! i = Some r ->
    restatus r (update_entry (dirty_column (final_status num status others p) ∪
                              {["data_status" := []]}) r)
      (to_string (final_status num status others p)) []) as Hr'.
  { intros i p r _ _. apply update_entry_restatus; [done..|]. intros c. apply two_columns. }
  split.
  - apply Forall_lookup. intros i r Hr. simpl in Hr.
    apply lookup_zip_with_Some in Hr as (p & r0 & -> & Hp & Hr0).
    by destruct (Hr' i p r0 Hp Hr0) as (_ & _ & ? & _).
  - intros i p r Hp Hr. eexists. split; [by apply upd_all_lookup|]. exact (Hr' i p r Hp Hr).
Qed.

(** A table entry as [insert_object] leaves it: both states are the catalog's. *)
Definition fresh (e : entry) : Prop :=
  Forall (fun r => e_after r = e_before r /\ e_after r !! "data_status" = Some []) (e_replicas e).

Lemma fresh_unlocked e : fresh e -> unlocked e.
Proof. intros H. eapply Forall_impl; [exact H|]. by intros r [_ ?]. Qed.

(** Writing the catalog's own values changes nothing. *)
Lemma upd_all_fresh e ps :
  fresh e -> entry_ok e ps ->
  upd_all (fun p => dirty_column p.2 ∪ {["data_status" := []]}) ps e = e.
Proof.
  destruct e as [rs lp]. intros Hf [H _]. unfold upd_all, fresh in *; simpl in *. f_equal.
  induction H as [|r p rs ps Hr H IH]; simpl; [done|].
  apply Forall_cons in Hf as [[Ha Hs] Hf]. rewrite (IH Hf). f_equal.
  destruct r as [b a f]. unfold update_entry, update_columns; simpl in *. f_equal.
  apply map_eq. intros c. rewrite !lookup_union. unfold dirty_column.
  destruct (decide (c = "data_is_dirty")) as [->|Hc1].
  { rewrite lookup_singleton_eq, lookup_singleton_ne by done. rewrite Ha.
    pose proof (ok_dirty _ _ Hr) as Hd. simpl in Hd. by rewrite Hd. }
  rewrite lookup_singleton_ne by done. destruct (decide (c = "data_status")) as [->|Hc2].
  - rewrite lookup_singleton_eq. by rewrite Hs.
  - rewrite lookup_singleton_ne by done. by destruct (a !! c).
Qed.

(** Locks in a row. *)
Definition lock_all (key : Z) (locks : list (Z * lock_type)) : M rst unit :=
  for_each (fun nl => lock key nl.1 nl.2 ≫= fun _ => mret tt) locks.

Lemma lock_all_cons key num lt locks t t1 :
  lock key num lt t = (Ok 0%Z, t1) -> lock_all key ((num, lt) :: locks) t = lock_all key locks t1.
Proof.
  intros H. unfold lock_all; simpl. rewrite (M_bind_ok _ _ t tt t1); [done|].
  by rewrite (M_bind_ok _ _ _ _ _ H).
Qed.

Lemma lock_all_locked key ps e locks t d :
  entry_ok e ps -> Forall (fun nl => nl.1 ∈ ps.*1 \/ nl.1 = unknown_replica_id) locks ->
  t !! key = Some (upd_all (locked_columns d) ps e) ->
  exists d', lock_all key locks t = (Ok tt, <[key := upd_all (locked_columns d') ps e]> t).
Proof using LexicalCastLaws0 JsonLaws0.
  intros Hok H. revert t d. induction H as [|[num lt] locks Hnl H IH]; intros t d Hk.
  - exists d. simpl. by rewrite insert_id.
  - rewrite (lock_all_cons _ _ _ _ _ _ (lock_locked key ps t e d num lt Hk Hok Hnl)).
    destruct (IH (<[key := upd_all (locked_columns (lock_status_of num lt)) ps e]> t) _
                (lookup_insert_eq _ _ _)) as [d' ->].
    exists d'. by rewrite insert_insert_eq.
Qed.

(** C1: Any sequence of one or more locks on a data object whose table entry is fresh
    from the catalog (read or write, on any of its replicas or on none), followed by
    an unlock that restores both the target and the others, succeeds and gives back
    exactly the table there was before. *)
Theorem lock_all_unlock_restores t key e ps num lt locks num' :
  t !! key = Some e -> entry_ok e ps -> fresh e ->
  Forall (fun nl => nl.1 ∈ ps.*1 \/ nl.1 = unknown_replica_id) ((num, lt) :: locks) ->
  num' ∈ ps.*1 \/ num' = unknown_replica_id ->
  (lock_all key ((num, lt) :: locks) ≫= fun _ =>
   unlock key num' restore_status restore_status) t = (Ok 0%Z, t).
Proof using LexicalCastLaws0 JsonLaws0.
  intros Hk Hok Hf Hall Hnum'. apply Forall_cons in Hall as [Hnum Hall].
  assert (exists d, lock_all key ((num, lt) :: locks) t =
                    (Ok tt, <[key := upd_all (locked_columns d) ps e]> t)) as [d Hd].
  { rewrite (lock_all_cons _ _ _ _ _ _
               (lock_unlocked key ps t e num lt Hk Hok (fresh_unlocked _ Hf) Hnum)).
    destruct (lock_all_locked key ps e locks
                (<[key := upd_all (locked_columns (lock_status_of num lt)) ps e]> t) _ Hok Hall
                (lookup_insert_eq _ _ _)) as [d ->].
    exists d. by rewrite insert_insert_eq. }
  rewrite (M_bind_ok _ _ _ _ _ Hd).
  rewrite (unlock_locked_final _ _ _ _ _ _ _ _ (lookup_insert_eq _ _ _) Hok Hnum'), insert_insert_eq.
  rewrite (upd_all_ext _ (fun p => dirty_column p.2 ∪ {["data_status" := []]})).
  - rewrite upd_all_fresh by done. by rewrite insert_id.
  - intros p _. unfold final_status. by destruct (num' =? p.1)%Z.
Qed.

(** Locking with a replica number the object does not have returns KEY_NOT_FOUND;
    no status changes, but the original statuses stay saved in data_status. *)
Theorem lock_absent t key e ps num lt :
  t !! key = Some e -> entry_ok e ps -> unlocked e ->
  num ∉ ps.*1 -> num <> unknown_replica_id ->
  lock key num lt t =
  (Ok KEY_NOT_FOUND,
   <[key := upd_all (fun p => {["data_status" := status_document (to_string p.2)]}) ps e]> t).
Proof using LexicalCastLaws0.
  intros Hk Hok Hu Hn Hne. unfold lock, lock_impl, try_catch.
  rewrite (M_bind_ok _ _ _ _ _ (insert_data_status_ok key ps t e (fun _ => -1)%Z Hk Hok
             (unlocked_saved ps e (entry_ok_length _ _ Hok) Hu))).
  rewrite (proj2 (Z.eqb_neq _ _)) by congruence. cbn match beta delta [negb].
  set (e1 := upd_all _ ps e).
  assert (forall c, update_num key num c (<[key := e1]> t) =
                    (Throw (Eirods KEY_NOT_FOUND), <[key := e1]> t)) as Hupd.
  { intros c. eapply update_num_absent; [apply lookup_insert_eq| |exact Hn].
    apply entry_ok_nums. by apply upd_all_ok. }
  erewrite M_bind_throw; [|by destruct lt; apply Hupd]. reflexivity.
Qed.
End claims.

(** ** Who may open a replica *)

Lemma try_lock_loop_spec rs :
  try_lock_loop true rs =
  if decide (Forall (fun r => d_repl_status r <> INTERMEDIATE_REPLICA /\
                              d_repl_status r <> WRITE_LOCKED) rs)
  then 0%Z else LOCKED_DATA_OBJECT_ACCESS.
Proof.
  induction rs as [|r rs IH]; [done|]. cbn [try_lock_loop].
  destruct (Z.eqb_spec (d_repl_status r) INTERMEDIATE_REPLICA) as [E|E];
    [|destruct (Z.eqb_spec (d_repl_status r) WRITE_LOCKED) as [E'|E']].
  - rewrite decide_False; [done|]. by intros [[? _] _]%Forall_cons.
  - rewrite decide_False; [done|]. by intros [[_ ?] _]%Forall_cons.
  - rewrite IH. apply decide_ext. rewrite Forall_cons. naive_solver.
Qed.

(** The token is registered for this replica. *)
Definition token_accepted (t : rat) (r : replica) (token : string) : Prop :=
  token <> ""%string /\
  (contains_token token (d_data_id r mod 2 ^ 64) (d_repl_num r mod 2 ^ 32) t).1 = Ok true.

Lemma specific_replica_spec t r token :
  let ec := try_lock_for_specific_replica t r token in
  (d_repl_status r = INTERMEDIATE_REPLICA ->
     (ec = 0%Z /\ token_accepted t r token) \/
     (ec = INTERMEDIATE_REPLICA_ACCESS /\ ~ token_accepted t r token)) /\
  (d_repl_status r = READ_LOCKED \/ d_repl_status r = WRITE_LOCKED -> ec = LOCKED_DATA_OBJECT_ACCESS) /\
  (d_repl_status r <> INTERMEDIATE_REPLICA -> d_repl_status r <> READ_LOCKED ->
     d_repl_status r <> WRITE_LOCKED -> ec = 0%Z).
Proof.
  unfold try_lock_for_specific_replica, try_lock_for_intermediate_replica_access, at_rest, locked,
    token_accepted.
  split_and!.
  - intros ->. simpl. destruct (String.eqb_spec token "") as [->|Hne]; [right; naive_solver|].
    unfold contains_token; run_M.
    destruct (t !! token) as [v|]; simpl; [destruct (entry_for _ _ v)|];
      [left|right|right]; naive_solver.
  - by intros [-> | ->].
  - intros H1 H2 H3.
    by rewrite (proj2 (Z.eqb_neq INTERMEDIATE_REPLICA _)), (proj2 (Z.eqb_neq READ_LOCKED _)),
      (proj2 (Z.eqb_neq WRITE_LOCKED _)) by congruence.
Qed.

(** C9: Try_lock by replica number: for an existing replica the answer depends on that
    replica only (intermediate: its token decides; locked: refused; at rest:
    allowed); for a number no replica has, opening is allowed exactly when no
    replica of the object is intermediate or write-locked. This is what the code does and not
    what the comment on the overload in logical_locking.hpp says, "If any replica is locked or
    any sibling replica is intermediate, the lock will be tripped": the siblings of a replica that
    exists are not looked at ([sibling_does_not_trip]), and without one read-locked replicas
    trip nothing. *)
Theorem try_lock_number_spec t o lt n token :
  let ec := try_lock_number t o lt n token in
  (exists r, r ∈ o_replicas o /\ d_repl_num r = n /\
     (d_repl_status r = INTERMEDIATE_REPLICA ->
        (ec = 0%Z /\ token_accepted t r token) \/
        (ec = INTERMEDIATE_REPLICA_ACCESS /\ ~ token_accepted t r token)) /\
     (d_repl_status r = READ_LOCKED \/ d_repl_status r = WRITE_LOCKED ->
        ec = LOCKED_DATA_OBJECT_ACCESS) /\
     (d_repl_status r <> INTERMEDIATE_REPLICA -> d_repl_status r <> READ_LOCKED ->
        d_repl_status r <> WRITE_LOCKED -> ec = 0%Z)) \/
  ((forall r, r ∈ o_replicas o -> d_repl_num r <> n) /\
   ec = if decide (Forall (fun r => d_repl_status r <> INTERMEDIATE_REPLICA /\
                                    d_repl_status r <> WRITE_LOCKED) (o_replicas o))
        then 0%Z else LOCKED_DATA_OBJECT_ACCESS).
Proof.
  unfold try_lock_number, find_replica_number.
  destruct (find _ _) as [r|] eqn:E.
  - left. apply find_some in E as [Hin Hn%Z.eqb_eq]. exists r.
    split; [by apply list_elem_of_In|]. split; [done|]. apply specific_replica_spec.
  - right. split; [|apply try_lock_loop_spec]. intros r Hin Hn.
    apply list_elem_of_In, (find_none _ _ E), Z.eqb_neq in Hin. done.
Qed.

(** C8: While a replica is intermediate, the token create_new_entry returned for it is
    the only one with which try_lock lets it be opened; any other token, and none,
    is refused with INTERMEDIATE_REPLICA_ACCESS. *)
Theorem intermediate_token_exclusive draws pid m token draws' m' r :
  d_repl_status r = INTERMEDIATE_REPLICA -> token <> ""%string ->
  create_new_entry draws (d_data_id r mod 2 ^ 64) (d_repl_num r mod 2 ^ 32) pid m =
    (Ok (token, draws'), m') ->
  forall k, try_lock_for_specific_replica m' r k =
            if decide (k = token) then 0%Z else INTERMEDIATE_REPLICA_ACCESS.
Proof.
  intros Hst Hne Hc k. pose proof (create_new_entry_token _ _ _ _ _ _ _ _ Hc k) as Hk.
  destruct (proj1 (specific_replica_spec m' r k) Hst) as [[-> [_ Ha]]|[-> Hna]].
  - rewrite Hk in Ha. simpl in Ha. injection Ha as Ha%bool_decide_eq_true.
    by rewrite decide_True.
  - rewrite decide_False; [done|]. intros ->. apply Hna. split; [done|].
    by rewrite Hk, bool_decide_true.
Qed.

(** ** Instances *)

(** JSON text for objects with one string member, as [nlohmann::json] writes it. *)
Definition quote : ascii := chr 34.

Definition json_ref_dump (j : json) : bstr :=
  match j with
  | JObject [(k, JString s)] =>
      "{"%char :: quote :: k ++ quote :: ":"%char :: quote :: s ++ [quote; "}"%char]
  | _ => lit "null"
  end.

(** The text up to the next quote, and the rest after it. *)
Definition read_string (s : bstr) : option (bstr * bstr) :=
  i ← find_idx (Ascii.eqb quote) s; Some (take i s, drop (S i) s).

Definition json_ref_parse (s : bstr) : option json :=
  match s with
  | "{"%char :: q :: r =>
      p ← read_string r;
      match p.2 with
      | ":"%char :: q' :: r' => p' ← read_string r'; Some (JObject [(p.1, JString p'.1)])
      | _ => None
      end
  | _ => None
  end.

#[local] Instance json_ref : Json := {| json_parse := json_ref_parse; json_dump := json_ref_dump |}.

Lemma read_string_plain k r : plain k -> read_string (k ++ quote :: r) = Some (k, r).
Proof.
  intros Hk. unfold read_string.
  rewrite (proj2 (find_idx_Some (Ascii.eqb quote) (k ++ quote :: r) (length k))); cbn [mbind option_bind].
  - rewrite take_app_length. do 3 f_equal. clear Hk. by induction k.
  - exists k, quote, r. split_and!; [done..|]. eapply Forall_impl; [exact Hk|].
    intros c Hc. apply Ascii.eqb_neq. intros <-. done.
Qed.

#[local] Instance json_ref_laws : JsonLaws json_ref.
Proof.
  constructor.
  - intros [[|[k [| |]] []]| |]; done.
  - intros k s Hk Hs. unfold json_parse, json_dump; simpl. rewrite read_string_plain by done. simpl.
    by rewrite (read_string_plain s [ "}"%char ]) by done.
Qed.

#[local] Existing Instance lexical_cast_ref.

Lemma sample_entry_ok : entry_ok sample_entry [(0, 1); (1, 1)]%Z.
Proof. split; [|by_evaluation]. repeat constructor; done. Qed.

Lemma sample_fresh : fresh sample_entry.
Proof. by_evaluation. Qed.

Lemma lock_spec_witness :
  exists e' r', lock 7 1 write sample_table = (Ok 0%Z, <[7%Z := e']> sample_table) /\
    e_replicas e' !! 1%nat = Some r' /\ e_after r' !! "data_is_dirty" = Some (lit "2").
Proof.
  destruct (lock_spec sample_table 7 sample_entry [(0, 1); (1, 1)]%Z 1 write)
    as (e' & Hl & _ & Hr); [done|apply sample_entry_ok|apply fresh_unlocked, sample_fresh|left; by_evaluation|].
  destruct (Hr 1%nat (1, 1)%Z (new_rep_entry (sample_replica 1))) as (r' & Hr' & _ & Hd & _); [done..|].
  exists e', r'. split_and!; [exact Hl|exact Hr'|exact Hd].
Defined.

Lemma lock_unlock_spec_witness :
  exists e' r', (lock 7 1 write ≫= fun _ => unlock 7 1 GOOD_REPLICA STALE_REPLICA) sample_table =
                (Ok 0%Z, <[7%Z := e']> sample_table) /\
    e_replicas e' !! 0%nat = Some r' /\ e_after r' !! "data_is_dirty" = Some (lit "0").
Proof.
  destruct (lock_unlock_spec sample_table 7 sample_entry [(0, 1); (1, 1)]%Z 1 write 1 0)
    as (e' & Hl & _ & _ & Hr); [done|apply sample_entry_ok|apply fresh_unlocked, sample_fresh|left; by_evaluation|].
  destruct (Hr 0%nat (0, 1)%Z (new_rep_entry (sample_replica 0))) as (r' & Hr' & _ & Hd & _); [done..|].
  exists e', r'. split_and!; [exact Hl|exact Hr'|exact Hd].
Defined.

Lemma lock_all_unlock_restores_witness :
  (lock_all 7 [(1%Z, write); (0%Z, read)] ≫= fun _ => unlock 7 1 restore_status restore_status) sample_table
  = (Ok 0%Z, sample_table).
Proof.
  apply (lock_all_unlock_restores sample_table 7 sample_entry [(0, 1); (1, 1)]%Z);
    [done|apply sample_entry_ok|apply sample_fresh| |left; by_evaluation].
  repeat constructor; left; by_evaluation.
Defined.

Lemma lock_absent_witness : (lock 7 5 write sample_table).1 = Ok KEY_NOT_FOUND.
Proof.
  rewrite (lock_absent sample_table 7 sample_entry [(0, 1); (1, 1)]%Z 5 write);
    [done|done|apply sample_entry_ok|apply fresh_unlocked, sample_fresh|by_evaluation|done].
Defined.

(** A replica being written. *)
Definition intermediate_replica : replica :=
  Replica 7 3 (lit "/tempZone/home/rods/f") 0 [] (lit "generic") 10 (lit "/vault/f") (lit "rods")
    (lit "tempZone") INTERMEDIATE_REPLICA [] [] [] 0 [] [] [] [] [] 10001 (lit "demoResc").

Lemma intermediate_token_exclusive_witness :
  try_lock_for_specific_replica (<["t1" := AccessEntry 7 0 [100%Z]]> ∅) intermediate_replica "t2" =
  INTERMEDIATE_REPLICA_ACCESS.
Proof.
  exact (intermediate_token_exclusive ["t1"] 100 ∅ "t1" [] (<["t1" := AccessEntry 7 0 [100%Z]]> ∅)
           intermediate_replica eq_refl ltac:(discriminate) eq_refl "t2").
Defined.

(** A replica at rest next to one that is being written. *)
Definition resting_replica : replica :=
  Replica 7 3 (lit "/tempZone/home/rods/f") 1 [] (lit "generic") 10 (lit "/vault/g") (lit "rods")
    (lit "tempZone") GOOD_REPLICA [] [] [] 0 [] [] [] [] [] 10002 (lit "otherResc").

(** The comment on the overload would have the intermediate sibling trip the lock. *)
Example sibling_does_not_trip :
  try_lock_number ∅ (DataObject intermediate_replica [resting_replica]) write 1 "" = 0%Z /\
  try_lock (DataObject intermediate_replica [resting_replica]) write = LOCKED_DATA_OBJECT_ACCESS.
Proof. by vm_compute. Qed.
