(* ===== verification/Voting.v ===== *)
(** * Resource voting

    [server/core/src/voting.cpp]: a storage resource votes for serving an
    operation on a data object; the votes drive the resolution of the resource
    hierarchy. The votes are the [float]s 1, 0.5, 0.25 and 0, here rationals. The
    properties of the resource are read as [irods_resource_plugin.cpp] reads
    them. *)

From stdpp Require Import base gmap list strings.
From Stdlib Require Import ZArith Lia Ascii QArith.
From S2P Require Import Prelude Errors Numerals Hierarchy Rat.
Local Open Scope Z_scope.

Definition REPLICA_TOKEN_KW : string := "replicaToken".
Definition UINTMAX_MAX : Z := 2 ^ 64 - 1.

(** [namespace vote] *)
Definition vote_high : Q := 1.
Definition vote_medium : Q := 1 # 2.
Definition vote_low : Q := 1 # 4.
Definition vote_zero : Q := 0.

(** ** Data *)

(** A value of the property map, a [boost::any]. *)
Inductive prop : Type := PInt (z : Z) | PString (s : bstr).
Abbreviation props := (gmap string prop).

(** [prop_map().get<T>]: the error code, or the value. *)
Definition get_string (m : props) (k : string) : Z + bstr :=
  match m !! k with
  | None => inl KEY_NOT_FOUND
  | Some (PString s) => inr s
  | Some (PInt _) => inl KEY_TYPE_MISMATCH
  end.
Definition get_int (m : props) (k : string) : Z + Z :=
  match m !! k with
  | None => inl KEY_NOT_FOUND
  | Some (PInt z) => inr z
  | Some (PString _) => inl KEY_TYPE_MISMATCH
  end.

Record physical_object : Type := PhysicalObject {
  po_id : Z; po_repl_num : Z; po_replica_status : Z; po_resc_hier : bstr; po_vote : Q
}.

Record file_object : Type := FileObject {
  f_size : Z; f_repl_requested : Z; f_cond_input : gmap string string;
  f_replicas : list physical_object
}.

(** [struct context]; the [parser] is not used. *)
Record context : Type := Context_ {
  c_props : props; c_file_obj : file_object; c_hostname : bstr
}.

Section voting.
Context {L : LexicalCast}.
(** The replica access table when the vote is taken. *)
Context (table : rat).

(** ** Properties of the resource *)

Definition or_throw {A} (r : Z + A) : res A :=
  match r with inl code => Throw (Eirods code) | inr a => Ok a end.

Definition get_resource_name (ctx : context) : res bstr :=
  or_throw (get_string (c_props ctx) "resource_property_name").
Definition get_resource_status (ctx : context) : res Z :=
  or_throw (get_int (c_props ctx) "resource_property_status").
Definition get_resource_location (ctx : context) : res bstr :=
  or_throw (get_string (c_props ctx) "resource_property_location").

Definition throw_if_resource_is_down (ctx : context) : res unit :=
  status ← get_resource_status ctx;
  if INT_RESC_STATUS_DOWN =? status then Throw (Eirods SYS_RESC_IS_DOWN) else Ok tt.

(** The resource a replica resides on. *)
Definition leaf_of (r : physical_object) : res bstr :=
  l ← hierarchy_parser (po_resc_hier r); Ok (last_resc l).

(** [std::find_if] over the replicas; the predicate may throw. *)
Fixpoint find_local (name : bstr) (rs : list physical_object) : res (option nat) :=
  match rs with
  | [] => Ok None
  | r :: rs' => leaf ← leaf_of r;
                if bstr_eqb name leaf then Ok (Some O)
                else i ← find_local name rs'; Ok (option_map S i)
  end.

Definition find_local_replica (ctx : context) : res (option nat) :=
  name ← get_resource_name ctx; find_local name (f_replicas (c_file_obj ctx)).

(** ** Votes *)

(** The client's token is valid for the replica. *)
Definition token_valid (ctx : context) (r : physical_object) : bool :=
  match f_cond_input (c_file_obj ctx) !! REPLICA_TOKEN_KW with
  | None => false
  | Some token =>
      match contains_token token (po_id r mod 2 ^ 64) (po_repl_num r mod 2 ^ 32) table with
      | (Ok b, _) => b
      | (Throw _, _) => false
      end
  end.

Definition calculate_with_repl_status (ctx : context) (preferred : Z) : res Q :=
  _ ← throw_if_resource_is_down ctx;
  i ← find_local_replica ctx;
  match i ≫= fun i => f_replicas (c_file_obj ctx) !! i with
  | None => Ok vote_zero
  | Some r =>
      let st := po_replica_status r in
      if (WRITE_LOCKED =? st) || (READ_LOCKED =? st) then Ok vote_zero
      else if (INTERMEDIATE_REPLICA =? st) && negb (token_valid ctx r) then Ok vote_zero
      else
        let requested := f_repl_requested (c_file_obj ctx) in
        if -1 <? requested then Ok (if po_repl_num r =? requested then vote_high else vote_low)
        else if negb (preferred =? st) then Ok vote_low
        else loc ← get_resource_location ctx;
             Ok (if bstr_eqb (c_hostname ctx) loc then vote_high else vote_medium)
  end.

(** The sign check and the cast of a size property. *)
Definition cast_size (s : bstr) : option Z :=
  match s with
  | "-"%char :: _ => None
  | _ => lexical_cast 0 UINTMAX_MAX s
  end.

Definition replica_exceeds_resource_free_space (ctx : context) : res bool :=
  let file_size := f_size (c_file_obj ctx) in
  if file_size <? 0 then Ok false
  else
    _ ← get_resource_name ctx;
    match get_string (c_props ctx) "minimum_free_space_for_create_in_bytes" with
    | inl code => Ok (negb (code =? KEY_NOT_FOUND))
    | inr minimum =>
        match cast_size minimum with
        | None => Ok true
        | Some minimum_free_space =>
            match get_string (c_props ctx) "resource_property_freespace" with
            | inl _ => Ok true
            | inr free =>
                match cast_size free with
                | None => Ok true
                | Some resource_free_space =>
                    if resource_free_space <? minimum_free_space then Ok true
                    else Ok ((resource_free_space - minimum_free_space) mod 2 ^ 64 <?
                             file_size mod 2 ^ 64)
                end
            end
        end
    end.

Definition throw_if_replica_exceeds_resource_free_space (ctx : context) : res unit :=
  b ← replica_exceeds_resource_free_space ctx;
  if b : bool then Throw (Eirods USER_FILE_TOO_LARGE) else Ok tt.

Definition calculate_for_create (ctx : context) : res Q :=
  _ ← throw_if_resource_is_down ctx;
  _ ← throw_if_replica_exceeds_resource_free_space ctx;
  loc ← get_resource_location ctx;
  Ok (if bstr_eqb (c_hostname ctx) loc then vote_high else vote_medium).

Definition calculate_for_open (ctx : context) : res Q := calculate_with_repl_status ctx GOOD_REPLICA.
Definition calculate_for_unlink (ctx : context) : res Q := calculate_with_repl_status ctx STALE_REPLICA.
Definition calculate_for_write (ctx : context) : res Q := calculate_with_repl_status ctx GOOD_REPLICA.

(** [calculators.at(operation)] *)
Definition calculator (operation : string) : res (context -> res Q) :=
  if String.eqb operation "CREATE" then Ok calculate_for_create
  else if String.eqb operation "OPEN" then Ok calculate_for_open
  else if String.eqb operation "WRITE" then Ok calculate_for_write
  else if String.eqb operation "UNLINK" then Ok calculate_for_unlink
  else Throw Estd.

Definition set_vote (v : Q) (r : physical_object) : physical_object :=
  PhysicalObject (po_id r) (po_repl_num r) (po_replica_status r) (po_resc_hier r) v.

(** The vote, and the replicas with the vote recorded at the local one. *)
Definition calculate (operation : string) (ctx : context) : res (Q * list physical_object) :=
  f ← calculator operation;
  vote ← f ctx;
  i ← find_local_replica ctx;
  let rs := f_replicas (c_file_obj ctx) in
  Ok (vote, match i with Some i => alter (set_vote vote) i rs | None => rs end).

Definition vote_is_zero (v : Q) : bool := Qle_bool (v - (1 # 100000000)) vote_zero.
End voting.

(** ** Facts *)

Section facts.
Context {L : LexicalCast} (table : rat).

Lemma res_bind_Ok {A B} (m : res A) (k : A -> res B) b :
  (m ≫= k) = Ok b <-> exists a, m = Ok a /\ k a = Ok b.
Proof. destruct m; simpl; naive_solver. Qed.

Lemma find_local_Some name rs i :
  find_local name rs = Ok (Some i) ->
  exists r, rs !! i = Some r /\ leaf_of r = Ok name /\
  forall j r', (j < i)%nat -> rs !! j = Some r' -> exists n, leaf_of r' = Ok n /\ n <> name.
Proof.
  revert i. induction rs as [|r rs IH]; intros i; simpl; [done|].
  intros H. apply res_bind_Ok in H as (leaf & Hl & H).
  destruct (bstr_eqb name leaf) eqn:E.
  - injection H as <-. apply bstr_eqb_eq in E as ->. exists r. split; [done|]. split; [done|].
    intros j r' Hj. lia.
  - apply res_bind_Ok in H as (o & Ho & H). destruct o as [i'|]; simplify_eq/=.
    destruct (IH i' Ho) as (r1 & Hr1 & Hl1 & Hmin). exists r1. split_and!; [done..|].
    intros [|j] r' Hj Hr'; simplify_eq/=.
    + exists leaf. split; [done|]. apply bstr_eqb_neq in E. congruence.
    + apply (Hmin j); [lia|done].
Qed.

Lemma find_local_None name rs :
  find_local name rs = Ok None -> Forall (fun r => exists n, leaf_of r = Ok n /\ n <> name) rs.
Proof.
  induction rs as [|r rs IH]; simpl; intros H; [done|].
  apply res_bind_Ok in H as (leaf & Hl & H).
  destruct (bstr_eqb name leaf) eqn:E; [done|].
  apply res_bind_Ok in H as (o & Ho & H). destruct o; [done|].
  constructor; [|by apply IH]. exists leaf. apply bstr_eqb_neq in E. split; [done|]. congruence.
Qed.

(** A replica the resource can serve: not locked, and not being written by
    someone else. *)
Definition accessible (ctx : context) (r : physical_object) : Prop :=
  po_replica_status r <> WRITE_LOCKED /\ po_replica_status r <> READ_LOCKED /\
  (po_replica_status r = INTERMEDIATE_REPLICA -> token_valid table ctx r = true).

#[export] Instance accessible_dec ctx r : Decision (accessible ctx r).
Proof. unfold accessible. apply _. Defined.

Lemma with_repl_status_inv ctx preferred v :
  calculate_with_repl_status table ctx preferred = Ok v ->
  exists i, find_local_replica ctx = Ok i /\
    match i ≫= fun i => f_replicas (c_file_obj ctx) !! i with
    | None => v = vote_zero
    | Some r =>
        if decide (accessible ctx r) then
          if -1 <? f_repl_requested (c_file_obj ctx)
          then v = if po_repl_num r =? f_repl_requested (c_file_obj ctx) then vote_high else vote_low
          else if preferred =? po_replica_status r then v = vote_high \/ v = vote_medium
          else v = vote_low
        else v = vote_zero
    end.
Proof.
  unfold calculate_with_repl_status. intros H.
  apply res_bind_Ok in H as (u & _ & H). apply res_bind_Ok in H as (i & Hi & H).
  exists i. split; [done|]. destruct (i ≫= _) as [r|]; [|by simplify_eq].
  destruct (decide (accessible ctx r)) as [(H1 & H2 & H3)|Hna].
  - rewrite (proj2 (Z.eqb_neq WRITE_LOCKED _)), (proj2 (Z.eqb_neq READ_LOCKED _)) in H by congruence.
    cbn [orb] in H. assert ((INTERMEDIATE_REPLICA =? po_replica_status r) && negb (token_valid table ctx r) = false) as E.
    { destruct (Z.eqb_spec INTERMEDIATE_REPLICA (po_replica_status r)); [|done]. by rewrite H3. }
    rewrite E in H. destruct (-1 <? _); [by simplify_eq|].
    destruct (preferred =? _); simpl in H; [|by simplify_eq].
    apply res_bind_Ok in H as (loc & _ & H). destruct (bstr_eqb _ _); simplify_eq; auto.
  - destruct (Z.eqb_spec WRITE_LOCKED (po_replica_status r)) as [E1|E1]; [by simplify_eq/=|].
    destruct (Z.eqb_spec READ_LOCKED (po_replica_status r)) as [E2|E2]; [by simplify_eq/=|].
    cbn [orb] in H. destruct ((INTERMEDIATE_REPLICA =? _) && _) eqn:E; [by simplify_eq|].
    exfalso. apply Hna. split_and!; [congruence..|]. intros E3. rewrite E3 in E. simpl in E.
    by apply negb_false_iff in E.
Qed.

(** The vote for opening is one of the four votes, and it is not zero exactly when
    the first replica on this resource exists and is neither locked nor intermediate
    without a token the replica access table accepts. *)
Theorem open_vote_spec ctx v name :
  calculate_for_open table ctx = Ok v -> get_resource_name ctx = Ok name ->
  (vote_is_zero v = false <->
   exists i r, find_local_replica ctx = Ok (Some i) /\ f_replicas (c_file_obj ctx) !! i = Some r /\
     leaf_of r = Ok name /\ accessible ctx r) /\
  (v = vote_high \/ v = vote_medium \/ v = vote_low \/ v = vote_zero).
Proof.
  intros H Hname. apply with_repl_status_inv in H as (i & Hi & H).
  assert (forall i r, find_local_replica ctx = Ok (Some i) ->
            f_replicas (c_file_obj ctx) !! i = Some r -> leaf_of r = Ok name) as Hleaf.
  { intros j r Hj Hr. unfold find_local_replica in Hj. rewrite Hname in Hj. simpl in Hj.
    apply find_local_Some in Hj as (r' & Hr' & Hl & _). by simplify_eq. }
  destruct i as [i|]; cbn [mbind option_bind] in H; [destruct (f_replicas (c_file_obj ctx) !! i) as [r|] eqn:Er|].
  - destruct (decide (accessible ctx r)) as [Ha|Hna].
    + assert (vote_is_zero v = false /\ (v = vote_high \/ v = vote_medium \/ v = vote_low \/ v = vote_zero)) as [Hz Hv].
      { destruct (-1 <? _); [destruct (po_repl_num r =? _)|destruct (GOOD_REPLICA =? _); [destruct H|]];
          subst v; split; auto. }
      split; [|done]. split; [|done]. intros _. exists i, r. eauto 6.
    + subst v. split; [|auto]. split; [done|]. intros (j & r' & Hj & Hr' & _ & Ha').
      rewrite Hi in Hj. injection Hj as <-. rewrite Er in Hr'. by injection Hr' as <-.
  - subst v. split; [|auto]. split; [done|]. intros (j & r' & Hj & Hr' & _). rewrite Hi in Hj.
    injection Hj as <-. by rewrite Er in Hr'.
  - subst v. split; [|auto]. split; [done|]. intros (j & r' & Hj & _). rewrite Hi in Hj. done.
Qed.
End facts.

Section claims.
Context {L : LexicalCast} `{!LexicalCastLaws L} (table : rat).

(** Calculate records the vote on the first replica that resides on this resource
    and changes nothing else of the replicas; without such a replica it changes
    nothing. *)
Theorem calculate_records_vote op ctx v rs name :
  calculate table op ctx = Ok (v, rs) -> get_resource_name ctx = Ok name ->
  let old := f_replicas (c_file_obj ctx) in
  (rs = old /\ Forall (fun r => exists n, leaf_of r = Ok n /\ n <> name) old) \/
  (exists i r, old !! i = Some r /\ leaf_of r = Ok name /\ rs = <[i := set_vote v r]> old /\
     forall j r', (j < i)%nat -> old !! j = Some r' -> exists n, leaf_of r' = Ok n /\ n <> name).
Proof.
  intros H Hname. unfold calculate in H. apply res_bind_Ok in H as (f & _ & H).
  apply res_bind_Ok in H as (w & _ & H). apply res_bind_Ok in H as (i & Hi & H).
  unfold find_local_replica in Hi. rewrite Hname in Hi. cbn in Hi. simplify_eq.
  destruct i as [i|].
  - right. apply find_local_Some in Hi as (r & Hr & Hl & Hmin). exists i, r. split_and!; [done..| |done].
    apply list_eq. intros j. destruct (decide (i = j)) as [<-|Hne].
    + rewrite list_lookup_alter_eq, Hr, list_lookup_insert_eq; [done|by eapply lookup_lt_Some].
    + by rewrite list_lookup_alter_ne, list_lookup_insert_ne by done.
  - left. split; [done|]. by apply find_local_None.
Qed.

Lemma cast_size_to_string z : 0 <= z <= UINTMAX_MAX -> cast_size (to_string z) = Some z.
Proof using LexicalCastLaws0.
  intros Hz. unfold cast_size. rewrite lexical_cast_to_string by done.
  destruct (nat_digits_head z) as (c & s & Hc & Hd); [lia|].
  unfold to_string. rewrite (proj2 (Z.ltb_ge z 0)), Hc by lia.
  destruct (Ascii.eqb_spec c "-") as [->|Hne]; [done|].
  destruct c as [[] [] [] [] [] [] [] []]; done.
Qed.

(** A resource that is up accepts a new replica exactly when the minimum free space
    plus the size of the data fits its free space, on 64-bit sizes without wrap-
    around; a resource that is down or too full throws the corresponding error. *)
Theorem create_vote_spec ctx minimum free :
  c_props ctx !! "minimum_free_space_for_create_in_bytes" = Some (PString (to_string minimum)) ->
  c_props ctx !! "resource_property_freespace" = Some (PString (to_string free)) ->
  0 <= minimum <= UINTMAX_MAX -> 0 <= free <= UINTMAX_MAX ->
  0 <= f_size (c_file_obj ctx) < 2 ^ 63 ->
  forall name loc status,
  get_resource_name ctx = Ok name -> get_resource_location ctx = Ok loc ->
  get_resource_status ctx = Ok status ->
  calculate_for_create ctx =
  if status =? INT_RESC_STATUS_DOWN then Throw (Eirods SYS_RESC_IS_DOWN)
  else if free <? minimum + f_size (c_file_obj ctx) then Throw (Eirods USER_FILE_TOO_LARGE)
  else Ok (if bstr_eqb (c_hostname ctx) loc then vote_high else vote_medium).
Proof using LexicalCastLaws0.
  intros Hm Hf Hmr Hfr Hs name loc status Hname Hloc Hst.
  unfold calculate_for_create, throw_if_resource_is_down. rewrite Hst. cbn [mbind res_bind].
  rewrite Z.eqb_sym. destruct (status =? INT_RESC_STATUS_DOWN); [done|]. cbn [mbind res_bind].
  unfold throw_if_replica_exceeds_resource_free_space, replica_exceeds_resource_free_space.
  rewrite (proj2 (Z.ltb_ge (f_size _) 0)) by lia. rewrite Hname. cbn [mbind res_bind].
  unfold get_string. rewrite Hm, Hf, !cast_size_to_string by done.
  unfold UINTMAX_MAX in *. rewrite Hloc.
  destruct (Z.ltb_spec free minimum) as [H1|H1].
  - rewrite (proj2 (Z.ltb_lt free _)) by lia. done.
  - rewrite !Z.mod_small by lia. cbn [mbind res_bind].
    destruct (Z.ltb_spec (free - minimum) (f_size (c_file_obj ctx))),
      (Z.ltb_spec free (minimum + f_size (c_file_obj ctx))); try lia; done.
Qed.
End claims.

(** ** Instances *)

#[local] Existing Instance lexical_cast_ref.

(** A resource that is up, with room for ten bytes above the minimum. *)
Definition sample_props : props := list_to_map [
  ("resource_property_name", PString (lit "demoResc"));
  ("resource_property_status", PInt 0);
  ("resource_property_location", PString (lit "host"));
  ("minimum_free_space_for_create_in_bytes", PString (to_string 100));
  ("resource_property_freespace", PString (to_string 110))].

Definition sample_context (size : Z) : context :=
  Context_ sample_props
    (FileObject size (-1) ∅ [PhysicalObject 7 0 GOOD_REPLICA (lit "root;demoResc") vote_zero])
    (lit "host").

Lemma open_vote_spec_witness :
  vote_is_zero vote_high = false <->
  exists i r, find_local_replica (sample_context 10) = Ok (Some i) /\
    f_replicas (c_file_obj (sample_context 10)) !! i = Some r /\
    leaf_of r = Ok (lit "demoResc") /\ accessible ∅ (sample_context 10) r.
Proof.
  refine (proj1 (open_vote_spec ∅ (sample_context 10) vote_high (lit "demoResc") _ _));
    vm_compute; reflexivity.
Defined.

Lemma calculate_records_vote_witness :
  exists rs, calculate ∅ "OPEN" (sample_context 10) = Ok (vote_high, rs) /\
   ((rs = f_replicas (c_file_obj (sample_context 10)) /\
     Forall (fun r => exists n, leaf_of r = Ok n /\ n <> lit "demoResc")
       (f_replicas (c_file_obj (sample_context 10)))) \/
    (exists i r, f_replicas (c_file_obj (sample_context 10)) !! i = Some r /\
       leaf_of r = Ok (lit "demoResc") /\
       rs = <[i := set_vote vote_high r]> (f_replicas (c_file_obj (sample_context 10))) /\
       forall j r', (j < i)%nat -> f_replicas (c_file_obj (sample_context 10)) !! j = Some r' ->
         exists n, leaf_of r' = Ok n /\ n <> lit "demoResc")).
Proof.
  eexists. split; [vm_compute; reflexivity|].
  refine (calculate_records_vote ∅ "OPEN" (sample_context 10) _ _ (lit "demoResc") _ _);
    vm_compute; reflexivity.
Defined.

Lemma create_vote_spec_witness :
  calculate_for_create (sample_context 11) = Throw (Eirods USER_FILE_TOO_LARGE).
Proof.
  rewrite (create_vote_spec (sample_context 11) 100 110) with
    (name := lit "demoResc") (loc := lit "host") (status := 0);
    [reflexivity|vm_compute; reflexivity|vm_compute; reflexivity|by_evaluation|by_evaluation
    |by_evaluation|vm_compute; reflexivity|vm_compute; reflexivity|vm_compute; reflexivity].
Defined.
