(* ===== verification/Kvp.v ===== *)
(** * Key-value strings

    [lib/core/src/irods_kvp_string_parser.cpp]: the context strings of resources
    and rule engines, ["k1=v1;k2=v2"], plain and with escapes. A [kvp_map_t] is a
    [std::map<std::string, std::string>], the sorted list of [Prelude]. A parser
    returns its [error] and the map it was given, with what it stored. *)

From stdpp Require Import base list strings.
From Stdlib Require Import ZArith Lia Ascii.
From S2P Require Import Prelude Errors Hierarchy.

Abbreviation kvp_map := (list (bstr * bstr)).

(** ** Boost's string algorithms

    [boost::starts_with] and [boost::split] with [is_any_of], without and with
    [token_compress_on]; [None] is [boost::bad_function_call]. *)

Class BoostString := {
  starts_with : bstr -> bstr -> bool;
  split : bool -> bstr -> bstr -> option (list bstr)
}.

(** What their documentation says: [starts_with] tests for a prefix; [split]
    cuts at every separator, and merges adjacent separators when compressing. *)
Class BoostStringLaws (B : BoostString) : Prop := {
  starts_with_spec : forall s p, starts_with s p = true <-> exists r, s = p ++ r;
  split_last : forall compress s d,
    Forall (fun c => is_any_of d c = false) s -> split compress s d = Some [s];
  split_first : forall compress s c r d,
    Forall (fun c => is_any_of d c = false) s -> is_any_of d c = true ->
    (compress = true -> forall c' r', r = c' :: r' -> is_any_of d c' = false) ->
    split compress (s ++ c :: r) d = option_map (cons s) (split compress r d)
}.

Definition kvp_delimiter : bstr := lit ";".
Definition kvp_association : bstr := lit "=".
Definition kvp_escape : bstr := lit "\".

(** [s.find(t) != npos] for a non-empty [t]. *)
Fixpoint contains_sub (t s : bstr) : bool :=
  bstr_eqb (take (length t) s) t || match s with [] => false | _ :: s' => contains_sub t s' end.

Section kvp.
Context {B : BoostString}.

(** ** Unescaped *)

Definition parse_token_into_kvp (token : bstr) (kvp : kvp_map) (assoc : bstr) : error * kvp_map :=
  let token_vec := match split true token assoc with Some v => v | None => [] end in
  match token_vec with
  | [k; v] => (SUCCESS, smap_set k v kvp)
  | _ => (ERROR SYS_INVALID_INPUT_PARAM, kvp)
  end.

Fixpoint parse_tokens (tokens : list bstr) (kvp : kvp_map) (assoc : bstr) : error * kvp_map :=
  match tokens with
  | [] => (SUCCESS, kvp)
  | token :: tokens' =>
      if bstr_eqb token [] then parse_tokens tokens' kvp assoc
      else match parse_token_into_kvp token kvp assoc with
           | (SUCCESS, kvp') => parse_tokens tokens' kvp' assoc
           | (ERROR c, kvp') => (ERROR c, kvp')
           end
  end.

Definition parse_kvp_string (s : bstr) (kvp : kvp_map) (assoc delim : bstr) : error * kvp_map :=
  match split false s delim with
  | None => (ERROR BAD_FUNCTION_CALL, kvp)
  | Some tokens => parse_tokens tokens kvp assoc
  end.

(** ** Escaped *)

(** The [for] loop over [_string], on the part from [i] on; [fuel] bounds the
    number of iterations, each of which consumes at least one byte. *)
Fixpoint parse_escaped_loop (fuel : nat) (assoc delim escape s : bstr)
    (key value : bstr) (assoc_encountered : bool) (kvp : kvp_map)
    : option (error * bstr * bstr * bool * kvp_map) :=
  match fuel, s with
  | _, [] => Some (SUCCESS, key, value, assoc_encountered, kvp)
  | O, _ => None
  | S fuel, _ =>
      let fail := Some (ERROR SYS_BAD_INPUT, key, value, assoc_encountered, kvp) in
      let push s :=
        match s with
        | [] => fail
        | c :: s' =>
            if assoc_encountered
            then parse_escaped_loop fuel assoc delim escape s' key (value ++ [c]) true kvp
            else parse_escaped_loop fuel assoc delim escape s' (key ++ [c]) value false kvp
        end in
      if starts_with s escape then push (drop (length escape) s)
      else if starts_with s assoc then
        if assoc_encountered then fail
        else parse_escaped_loop fuel assoc delim escape (drop (length assoc) s) key value true kvp
      else if starts_with s delim then
        if negb assoc_encountered then fail
        else parse_escaped_loop fuel assoc delim escape (drop (length delim) s) [] [] false
               (smap_set key value kvp)
      else push s
  end.

Definition parse_escaped_kvp_string (s : bstr) (kvp : kvp_map) (assoc delim escape : bstr)
    : option (error * kvp_map) :=
  if bstr_eqb delim [] || bstr_eqb assoc [] || bstr_eqb escape [] then Some (ERROR SYS_BAD_INPUT, kvp)
  else if bstr_eqb delim escape || bstr_eqb delim assoc || bstr_eqb assoc escape ||
          starts_with assoc delim || starts_with delim assoc then Some (ERROR SYS_BAD_INPUT, kvp)
  else if contains_sub delim assoc || contains_sub escape assoc ||
          contains_sub assoc delim || contains_sub escape delim ||
          contains_sub assoc escape || contains_sub delim escape
       then Some (ERROR SYS_BAD_INPUT, kvp)
  else match parse_escaped_loop (length s) assoc delim escape s [] [] false kvp with
       | None => None
       | Some (ERROR c, _, _, _, kvp') => Some (ERROR c, kvp')
       | Some (SUCCESS, key, value, assoc_encountered, kvp') =>
           if negb (bstr_eqb key []) && negb assoc_encountered then Some (ERROR SYS_BAD_INPUT, kvp')
           else if assoc_encountered then Some (SUCCESS, smap_set key value kvp')
           else Some (SUCCESS, kvp')
       end.

(** ** Printing *)

(** The loop shared by [kvp_string] and [escaped_kvp_string]. *)
Definition join_pairs (esc : bstr -> bstr) (kvp : kvp_map) : bstr :=
  match kvp with
  | [] => []
  | p :: kvp' =>
      esc p.1 ++ kvp_association ++ esc p.2 ++
      concat (map (fun p => kvp_delimiter ++ esc p.1 ++ kvp_association ++ esc p.2) kvp')
  end.

Definition kvp_string (kvp : kvp_map) : bstr := join_pairs id kvp.

(** [_special_tokens] is a [std::set]: its tokens come in increasing order. *)
Fixpoint escape_loop (fuel : nat) (s escape : bstr) (special : list bstr) : bstr :=
  match fuel, s with
  | _, [] => []
  | O, _ => []
  | S fuel, c :: s' =>
      match find (fun tok => starts_with s tok) special with
      | Some tok => escape ++ tok ++ escape_loop fuel (drop (length tok) s) escape special
      | None =>
          if negb (existsb (bstr_eqb escape) special) && starts_with s escape
          then escape ++ escape ++ escape_loop fuel (drop (length escape) s) escape special
          else c :: escape_loop fuel s' escape special
      end
  end.

Definition escape_string (s escape : bstr) (special : list bstr) : bstr :=
  escape_loop (length s) s escape special.

Definition special_tokens : list bstr := [kvp_delimiter; kvp_association].

Definition escaped_kvp_string (kvp : kvp_map) : bstr :=
  join_pairs (fun s => escape_string s kvp_escape special_tokens) kvp.
End kvp.

(** ** Facts *)

Section facts.
Context {B : BoostString} `{!BoostStringLaws B}.

Lemma starts_with_char c s : starts_with s [c] = match s with [] => false | d :: _ => Ascii.eqb d c end.
Proof using BoostStringLaws0.
  apply eq_true_iff_eq. rewrite starts_with_spec. destruct s as [|d s]; split.
  - intros [r Hr]. done.
  - done.
  - intros [r [= -> ->]]. apply Ascii.eqb_refl.
  - intros ->%Ascii.eqb_eq. by exists s.
Qed.

(** The bytes that are escaped. *)
Definition special_char (c : ascii) : bool :=
  Ascii.eqb c ";" || Ascii.eqb c "=" || Ascii.eqb c "\".

Definition escape_char (c : ascii) : bstr := if special_char c then lit "\" ++ [c] else [c].

Lemma escape_string_eq s :
  escape_string s kvp_escape special_tokens = concat (map escape_char s).
Proof using BoostStringLaws0.
  unfold escape_string. induction s as [|c s IH]; [done|]. cbn [length escape_loop].
  cbn [find special_tokens]. unfold kvp_delimiter, kvp_association, kvp_escape, lit; simpl String.list_ascii_of_string.
  rewrite !starts_with_char. simpl concat. unfold escape_char, special_char.
  destruct (Ascii.eqb_spec c ";") as [->|H1]; [by simpl; rewrite drop_0; do 2 f_equal|].
  destruct (Ascii.eqb_spec c "=") as [->|H2]; [by simpl; rewrite drop_0; do 2 f_equal|].
  assert (existsb (bstr_eqb ["\"%char]) special_tokens = false) as -> by done.
  destruct (Ascii.eqb_spec c "\") as [->|H3]; [by simpl; rewrite drop_0; do 2 f_equal|].
  simpl. by f_equal.
Qed.

(** More fuel than bytes is as good as one unit per byte. *)
Lemma parse_escaped_loop_fuel f1 f2 assoc delim escape s key value ae kvp :
  assoc <> [] -> delim <> [] -> length s <= f1 -> length s <= f2 ->
  parse_escaped_loop f1 assoc delim escape s key value ae kvp =
  parse_escaped_loop f2 assoc delim escape s key value ae kvp.
Proof.
  intros Ha Hd. revert f2 s key value ae kvp. induction f1 as [|f1 IH]; intros [|f2] s key value ae kvp H1 H2;
    destruct s as [|c s]; simpl in *; try done; try lia.
  assert (forall t : bstr, t <> [] -> length (drop (length t) (c :: s)) <= length s) as Hlen.
  { intros [|x t] Ht; [done|]. simpl. rewrite length_drop. lia. }
  assert (forall k : nat, length (drop k (c :: s)) <= S (length s)) as Hlen'.
  { intros k. rewrite length_drop. simpl. lia. }
  pose proof (Hlen assoc Ha). pose proof (Hlen delim Hd). pose proof (Hlen' (length escape)).
  assert (forall t : bstr, length t <= S (length s) ->
    match t with
    | [] => Some (ERROR SYS_BAD_INPUT, key, value, ae, kvp)
    | c :: s' =>
        if ae then parse_escaped_loop f1 assoc delim escape s' key (value ++ [c]) true kvp
        else parse_escaped_loop f1 assoc delim escape s' (key ++ [c]) value false kvp
    end =
    match t with
    | [] => Some (ERROR SYS_BAD_INPUT, key, value, ae, kvp)
    | c :: s' =>
        if ae then parse_escaped_loop f2 assoc delim escape s' key (value ++ [c]) true kvp
        else parse_escaped_loop f2 assoc delim escape s' (key ++ [c]) value false kvp
    end) as Hpush.
  { intros [|x t] Ht; [done|]. simpl in Ht. destruct ae; apply IH; lia. }
  destruct (starts_with _ escape); [by apply Hpush|].
  destruct (starts_with _ assoc); [destruct ae; [done|apply IH; lia]|].
  destruct (starts_with _ delim); [destruct ae; [apply IH; lia|done]|].
  apply (Hpush (c :: s)). simpl; lia.
Qed.

(** The loop with the default tokens. *)
Definition run (s key value : bstr) (ae : bool) (kvp : kvp_map) :=
  parse_escaped_loop (length s) kvp_association kvp_delimiter kvp_escape s key value ae kvp.

Lemma run_fuel f s key value ae kvp :
  length s <= f ->
  parse_escaped_loop f kvp_association kvp_delimiter kvp_escape s key value ae kvp =
  run s key value ae kvp.
Proof. intros Hf. by apply parse_escaped_loop_fuel. Qed.

(** One iteration, with the tests on the first byte. *)
Lemma run_step c s key value ae kvp :
  run (c :: s) key value ae kvp =
  let push s :=
    match s with
    | [] => Some (ERROR SYS_BAD_INPUT, key, value, ae, kvp)
    | c :: s' => if ae then run s' key (value ++ [c]) true kvp else run s' (key ++ [c]) value false kvp
    end in
  if Ascii.eqb c "\" then push s
  else if Ascii.eqb c "=" then
    if ae then Some (ERROR SYS_BAD_INPUT, key, value, ae, kvp) else run s key value true kvp
  else if Ascii.eqb c ";" then
    if ae then run s [] [] false (smap_set key value kvp)
    else Some (ERROR SYS_BAD_INPUT, key, value, ae, kvp)
  else push (c :: s).
Proof using BoostStringLaws0.
  transitivity (parse_escaped_loop (S (length s)) kvp_association kvp_delimiter kvp_escape (c :: s)
                  key value ae kvp); [done|].
  cbn [parse_escaped_loop].
  assert (forall x, starts_with (c :: s) [x] = Ascii.eqb c x) as Hx by (intros; apply starts_with_char).
  rewrite (Hx "\"%char : starts_with _ kvp_escape = _), (Hx "="%char : starts_with _ kvp_association = _),
    (Hx ";"%char : starts_with _ kvp_delimiter = _).
  assert (drop (length kvp_escape) (c :: s) = s) as -> by apply drop_0.
  assert (drop (length kvp_association) (c :: s) = s) as -> by apply drop_0.
  assert (drop (length kvp_delimiter) (c :: s) = s) as -> by apply drop_0.
  destruct (Ascii.eqb c "\").
  { destruct s as [|x s]; [done|]. destruct ae; apply run_fuel; simpl; lia. }
  destruct (Ascii.eqb c "="); [destruct ae; done|].
  destruct (Ascii.eqb c ";"); by destruct ae.
Qed.

Lemma run_char c s key value ae kvp :
  run (escape_char c ++ s) key value ae kvp =
  if ae then run s key (value ++ [c]) true kvp else run s (key ++ [c]) value false kvp.
Proof using BoostStringLaws0.
  unfold escape_char, special_char.
  destruct (Ascii.eqb c ";" || Ascii.eqb c "=" || Ascii.eqb c "\") eqn:E.
  - change ((lit "\" ++ [c]) ++ s) with ("\"%char :: c :: s). by rewrite run_step.
  - apply orb_false_iff in E as [[E1 E2]%orb_false_iff E3].
    change ([c] ++ s) with (c :: s). rewrite run_step. by rewrite E1, E2, E3.
Qed.

Lemma run_escaped t s key value ae kvp :
  run (concat (map escape_char t) ++ s) key value ae kvp =
  if ae then run s key (value ++ t) true kvp else run s (key ++ t) value false kvp.
Proof using BoostStringLaws0.
  revert key value. induction t as [|c t IH]; intros key value; simpl.
  - rewrite !app_nil_r. by destruct ae.
  - rewrite <- app_assoc, run_char.
    destruct ae; rewrite IH; by rewrite <- app_assoc.
Qed.

Lemma run_assoc s key value kvp :
  run (kvp_association ++ s) key value false kvp = run s key value true kvp.
Proof using BoostStringLaws0. change (kvp_association ++ s) with ("="%char :: s). by rewrite run_step. Qed.

Lemma run_delim s key value kvp :
  run (kvp_delimiter ++ s) key value true kvp = run s [] [] false (smap_set key value kvp).
Proof using BoostStringLaws0. change (kvp_delimiter ++ s) with (";"%char :: s). by rewrite run_step. Qed.

(** One printed pair, up to the end or to the next delimiter. *)
Lemma run_pair k v s kvp :
  run ((concat (map escape_char k) ++ kvp_association ++ concat (map escape_char v)) ++ s) [] [] false kvp
  = run s k v true kvp.
Proof using BoostStringLaws0.
  rewrite <- !app_assoc, run_escaped. cbv iota. rewrite run_assoc, run_escaped. done.
Qed.

Definition esc_pair (p : bstr * bstr) : bstr :=
  concat (map escape_char p.1) ++ kvp_association ++ concat (map escape_char p.2).

Lemma run_pairs ps k v kvp :
  exists k' v' kvp', run (concat (map (fun p => kvp_delimiter ++ esc_pair p) ps)) k v true kvp =
                     Some (SUCCESS, k', v', true, kvp') /\
  smap_set k' v' kvp' = foldl (fun acc p => smap_set p.1 p.2 acc) kvp ((k, v) :: ps).
Proof using BoostStringLaws0.
  revert k v kvp. induction ps as [|[k1 v1] ps IH]; intros k v kvp.
  - exists k, v, kvp. done.
  - cbn [map concat]. rewrite <- app_assoc, run_delim. unfold esc_pair at 1. cbn [fst snd].
    rewrite run_pair. destruct (IH k1 v1 (smap_set k v kvp)) as (k' & v' & kvp' & H1 & H2).
    exists k', v', kvp'. split; [exact H1|]. by rewrite H2.
Qed.

Lemma parse_escaped_default s kvp :
  parse_escaped_kvp_string s kvp kvp_association kvp_delimiter kvp_escape =
  match run s [] [] false kvp with
  | None => None
  | Some (ERROR c, _, _, _, kvp') => Some (ERROR c, kvp')
  | Some (SUCCESS, key, value, ae, kvp') =>
      if negb (bstr_eqb key []) && negb ae then Some (ERROR SYS_BAD_INPUT, kvp')
      else if ae then Some (SUCCESS, smap_set key value kvp') else Some (SUCCESS, kvp')
  end.
Proof using BoostStringLaws0.
  unfold parse_escaped_kvp_string, run.
  assert (starts_with kvp_association kvp_delimiter = false) as ->
    by (unfold kvp_delimiter, lit; simpl; by rewrite starts_with_char).
  assert (starts_with kvp_delimiter kvp_association = false) as ->
    by (unfold kvp_association, lit; simpl; by rewrite starts_with_char).
  done.
Qed.

(** Every map of strings, whatever bytes its keys and values have, is recovered
    from its escaped text; in particular one loop iteration per byte is enough. *)
Theorem escaped_kvp_roundtrip m :
  smap_wf m ->
  parse_escaped_kvp_string (escaped_kvp_string m) [] kvp_association kvp_delimiter kvp_escape =
  Some (SUCCESS, m).
Proof using BoostStringLaws0.
  intros Hwf. rewrite parse_escaped_default. destruct m as [|[k v] m]; [done|].
  assert (escaped_kvp_string ((k, v) :: m) =
          esc_pair (k, v) ++ concat (map (fun p => kvp_delimiter ++ esc_pair p) m)) as ->.
  { unfold escaped_kvp_string, join_pairs, esc_pair. cbn [fst snd].
    rewrite !escape_string_eq, <- !app_assoc. do 4 f_equal.
    apply map_ext. intros p. by rewrite !escape_string_eq. }
  unfold esc_pair at 1. cbn [fst snd]. rewrite run_pair.
  destruct (run_pairs m k v []) as (k' & v' & kvp' & -> & H).
  rewrite andb_false_r, H. f_equal. f_equal. by apply (smap_rebuild [] ((k, v) :: m)).
Qed.

(** ** Without escapes *)

(** A key or value that neither separator occurs in. *)
Definition clean (s : bstr) : Prop :=
  Forall (fun c => is_any_of kvp_delimiter c = false) s /\
  Forall (fun c => is_any_of kvp_association c = false) s.

Definition plain_pair (p : bstr * bstr) : bstr := p.1 ++ kvp_association ++ p.2.

Lemma parse_plain_pair p kvp :
  clean p.1 -> clean p.2 ->
  parse_token_into_kvp (plain_pair p) kvp kvp_association = (SUCCESS, smap_set p.1 p.2 kvp).
Proof using BoostStringLaws0.
  intros [_ H1] [_ H2]. unfold parse_token_into_kvp, plain_pair.
  change (kvp_association ++ p.2) with ("="%char :: p.2).
  rewrite split_first; [|done..|].
  - by rewrite split_last.
  - intros _ c' r' Hr. rewrite Hr in H2. by apply Forall_cons in H2 as [? _].
Qed.

Lemma plain_pair_delim p :
  clean p.1 -> clean p.2 -> Forall (fun c => is_any_of kvp_delimiter c = false) (plain_pair p).
Proof. intros [H1 _] [H2 _]. unfold plain_pair. rewrite !Forall_app. split_and!; [done| |done]. by repeat constructor. Qed.

Lemma parse_plain_tokens m kvp :
  Forall (fun p => clean p.1 /\ clean p.2) m ->
  parse_tokens (map plain_pair m) kvp kvp_association =
  (SUCCESS, foldl (fun acc p => smap_set p.1 p.2 acc) kvp m).
Proof using BoostStringLaws0.
  intros H. revert kvp. induction H as [|p m [H1 H2] H IH]; intros kvp; [done|]. simpl.
  rewrite (proj2 (bstr_eqb_neq _ _)) by (unfold plain_pair; by destruct p.1).
  rewrite parse_plain_pair by done. apply IH.
Qed.

Lemma split_pairs p m :
  Forall (fun p => clean p.1 /\ clean p.2) (p :: m) ->
  split false (plain_pair p ++ concat (map (fun p => kvp_delimiter ++ plain_pair p) m)) kvp_delimiter =
  Some (map plain_pair (p :: m)).
Proof using BoostStringLaws0.
  revert p. induction m as [|q m IH]; intros p H; apply Forall_cons in H as [[H1 H2] H]; simpl.
  - rewrite app_nil_r. apply split_last. by apply plain_pair_delim.
  - rewrite split_first; [by rewrite IH|by apply plain_pair_delim|done|done].
Qed.

(** A map whose keys and values contain neither separator is recovered from its
    unescaped text. *)
Theorem kvp_roundtrip m :
  smap_wf m -> Forall (fun p => clean p.1 /\ clean p.2) m ->
  parse_kvp_string (kvp_string m) [] kvp_association kvp_delimiter = (SUCCESS, m).
Proof using BoostStringLaws0.
  intros Hwf H. unfold parse_kvp_string. destruct m as [|p m].
  - by rewrite split_last.
  - assert (kvp_string (p :: m) =
            plain_pair p ++ concat (map (fun p => kvp_delimiter ++ plain_pair p) m)) as ->
      by (unfold kvp_string, join_pairs, plain_pair, id; by rewrite <- !app_assoc).
    rewrite split_pairs, parse_plain_tokens by done. f_equal. by apply (smap_rebuild [] (p :: m)).
Qed.
End facts.

(** ** A reference for Boost's algorithms *)

Fixpoint split_compress (p : ascii -> bool) (s : bstr) : list bstr :=
  match s with
  | [] => [[]]
  | c :: s' =>
      if p c then match s' with
                  | c' :: _ => if p c' then split_compress p s' else [] :: split_compress p s'
                  | [] => [[]; []]
                  end
      else match split_compress p s' with
           | t :: ts => (c :: t) :: ts
           | [] => [[c]]
           end
  end.

Definition boost_ref : BoostString := {|
  starts_with s p := bstr_eqb (take (length p) s) p;
  split compress s d :=
    Some (if compress then split_compress (is_any_of d) s else split_any (is_any_of d) s)
|}.

#[export] Instance boost_ref_laws : BoostStringLaws boost_ref.
Proof.
  constructor.
  - intros s p. simpl. rewrite bstr_eqb_eq. split.
    + intros H. exists (drop (length p) s). rewrite <- H at 1. by rewrite take_drop.
    + intros [r ->]. apply take_app_length.
  - intros [] s d H; simpl; f_equal; induction H as [|c s Hc H IH]; simpl; try done;
      by rewrite Hc, IH.
  - intros [] s c r d H Hc Hr; simpl; f_equal; induction H as [|x s Hx H IH]; simpl.
    + rewrite Hc. destruct r as [|c' r]; [done|]. by rewrite (Hr eq_refl c' r eq_refl).
    + by rewrite Hx, IH.
    + by rewrite Hc.
    + by rewrite Hx, IH.
Qed.

Lemma escaped_kvp_roundtrip_witness :
  parse_escaped_kvp_string (B := boost_ref)
    (escaped_kvp_string (B := boost_ref) [(lit "a;b", lit "x=y"); (lit "k", lit "\v")]) []
    kvp_association kvp_delimiter kvp_escape =
  Some (SUCCESS, [(lit "a;b", lit "x=y"); (lit "k", lit "\v")]).
Proof. apply (escaped_kvp_roundtrip (B := boost_ref)). repeat constructor. Defined.

Lemma kvp_roundtrip_witness :
  parse_kvp_string (B := boost_ref) (kvp_string [(lit "k1", lit "v1"); (lit "k2", lit "v2")]) []
    kvp_association kvp_delimiter =
  (SUCCESS, [(lit "k1", lit "v1"); (lit "k2", lit "v2")]).
Proof. apply (kvp_roundtrip (B := boost_ref)); repeat constructor. Defined.
