(* ===== verification/Children.v ===== *)
(** * The children parser

    [lib/core/src/irods_children_parser.cpp]: a resource's children with their
    contexts, kept as a [std::map] and printed as ["name{context};..."]. *)

From stdpp Require Import base list strings.
From Stdlib Require Import ZArith Lia Ascii.
From S2P Require Import Prelude Errors Hierarchy.

(** [children_list_] *)
Abbreviation children := (list (bstr * bstr)).

(** [s.find(c, 0)] *)
Definition find_char (c : ascii) (s : bstr) : option nat := find_idx (Ascii.eqb c) s.

(** ** Operations *)

Definition child_text (p : bstr * bstr) : bstr := p.1 ++ lit "{" ++ p.2 ++ lit "}".

Definition str (l : children) : bstr :=
  match l with
  | [] => []
  | p :: l' => child_text p ++ concat (map (fun p => lit ";" ++ child_text p) l')
  end.

Definition add_child (child context : bstr) (l : children) : error * children :=
  match smap_get child l with
  | Some _ => (ERROR CHILD_EXISTS, l)
  | None => (SUCCESS, smap_set child context l)
  end.

Definition remove_child (child : bstr) (l : children) : error * children :=
  match smap_get child l with
  | None => (ERROR CHILD_NOT_FOUND, l)
  | Some _ => (SUCCESS, smap_erase child l)
  end.

(** The error and the value left in [_child]. *)
Definition first_child (l : children) : error * bstr :=
  match l with
  | [] => (ERROR CHILD_NOT_FOUND, [])
  | p :: _ => (SUCCESS, p.1)
  end.

Definition last_child (l : children) : error * bstr :=
  match last l with
  | None => (ERROR CHILD_NOT_FOUND, [])
  | Some p => (SUCCESS, p.1)
  end.

(** One complete child: its name and, when a brace opens one, its context. *)
Definition parse_child (complete_child : bstr) : error * bstr * bstr :=
  match find_char "{" complete_child with
  | None => (SUCCESS, complete_child, [])
  | Some context_start =>
      let child := take context_start complete_child in
      let rest := drop (S context_start) complete_child in
      match find_char "}" rest with
      | None => (ERROR CHILD_NOT_FOUND, child, [])
      | Some context_end => (SUCCESS, child, take context_end rest)
      end
  end.

(** The [while] loop of [set_string], on the string from [current_pos] on. *)
Fixpoint set_string_loop (fuel : nat) (s : bstr) (l : children) : option (error * children) :=
  match fuel with
  | O => None
  | S fuel =>
      let end_pos := find_char ";" s in
      let complete_child := match end_pos with Some n => take n s | None => s end in
      match parse_child complete_child with
      | (ERROR c, _, _) => Some (ERROR c, l)
      | (SUCCESS, child, context) =>
          let l' := smap_set child context l in
          match end_pos with
          | None => Some (SUCCESS, l')
          | Some n => match drop (S n) s with
                      | [] => Some (SUCCESS, l')
                      | s' => set_string_loop fuel s' l'
                      end
          end
      end
  end.

Definition set_string (s : bstr) : option (error * children) :=
  match s with
  | [] => Some (SUCCESS, [])
  | _ => set_string_loop (length s) s []
  end.

(** ** Facts *)

Lemma find_char_Some c l r :
  Forall (fun x => x <> c) l -> find_char c (l ++ c :: r) = Some (length l).
Proof.
  intros H. apply find_idx_Some. exists l, c, r. split_and!; [done..|apply Ascii.eqb_refl|].
  eapply Forall_impl; [exact H|]. intros x Hx. apply Ascii.eqb_neq. congruence.
Qed.

Lemma find_char_None c l : Forall (fun x => x <> c) l -> find_char c l = None.
Proof.
  intros H. apply find_idx_None. eapply Forall_impl; [exact H|].
  intros x Hx. apply Ascii.eqb_neq. congruence.
Qed.

(** The loop ends within one iteration per byte. *)
Lemma set_string_loop_total fuel s l :
  length s <= fuel -> s <> [] -> is_Some (set_string_loop fuel s l).
Proof.
  revert s l. induction fuel as [|fuel IH]; intros s l Hf Hs.
  - by destruct s; simpl in *; [|lia].
  - simpl. destruct (parse_child _) as [[[|c] child] context]; [|eauto].
    destruct (find_char ";" s) as [n|] eqn:E; [|eauto].
    destruct (drop (S n) s) as [|x s'] eqn:Ed; [eauto|]. apply IH; [|done].
    rewrite <- Ed, length_drop. lia.
Qed.

(** Names and contexts that print back as themselves. *)
Definition child_ok (p : bstr * bstr) : Prop :=
  Forall (fun c => c <> ";"%char /\ c <> "{"%char) p.1 /\
  Forall (fun c => c <> ";"%char /\ c <> "}"%char) p.2.

Lemma parse_child_text p : child_ok p -> parse_child (child_text p) = (SUCCESS, p.1, p.2).
Proof.
  destruct p as [n c]. intros [Hn Hc]. unfold parse_child, child_text. simpl in *.
  rewrite find_char_Some by (eapply Forall_impl; [exact Hn|]; by intros ? [_ ?]).
  rewrite take_app_length.
  replace (drop (S (length n)) (n ++ "{"%char :: c ++ ["}"%char])) with (c ++ ["}"%char]).
  - rewrite find_char_Some by (eapply Forall_impl; [exact Hc|]; by intros ? [_ ?]).
    by rewrite take_app_length.
  - change ("{"%char :: c ++ ["}"%char]) with (["{"%char] ++ (c ++ ["}"%char])).
    rewrite app_assoc. symmetry. apply drop_app_length'. rewrite length_app; simpl; lia.
Qed.

Lemma child_text_no_semicolon p : child_ok p -> Forall (fun c => c <> ";"%char) (child_text p).
Proof.
  intros [Hn Hc]. unfold child_text. rewrite !Forall_app. split_and!.
  - eapply Forall_impl; [exact Hn|]. by intros ? [? _].
  - by repeat constructor.
  - eapply Forall_impl; [exact Hc|]. by intros ? [? _].
  - by repeat constructor.
Qed.

Lemma set_string_loop_str fuel p l acc :
  Forall child_ok (p :: l) -> length l < fuel ->
  set_string_loop fuel (child_text p ++ concat (map (fun p => lit ";" ++ child_text p) l)) acc =
  Some (SUCCESS, foldl (fun acc p => smap_set p.1 p.2 acc) acc (p :: l)).
Proof.
  revert fuel p acc. induction l as [|q l IH]; intros [|fuel] p acc H Hf; try (simpl in Hf; lia);
    apply Forall_cons in H as [Hp H]; cbn [set_string_loop map concat].
  - rewrite app_nil_r, find_char_None by by apply child_text_no_semicolon.
    by rewrite parse_child_text.
  - cbn [lit String.list_ascii_of_string]. change (([";"%char] ++ child_text q) ++ ?r) with (";"%char :: (child_text q ++ r)).
    rewrite find_char_Some by by apply child_text_no_semicolon.
    rewrite take_app_length, parse_child_text by done.
    replace (drop (S (length (child_text p))) _) with
      (child_text q ++ concat (map (fun p => lit ";" ++ child_text p) l)).
    + simpl in Hf. pose proof (IH fuel q (smap_set p.1 p.2 acc) H ltac:(lia)) as IHq.
      destruct (child_text q ++ _) eqn:E; [|exact IHq].
      unfold child_text in E. by destruct q.1.
    + change (";"%char :: ?r) with ([";"%char] ++ r). rewrite app_assoc. symmetry.
      apply drop_app_length'. rewrite length_app; simpl; lia.
Qed.

(** A map of children is recovered from its printed form when the names have no
    semicolon or opening brace and the contexts no semicolon or closing brace. *)
Theorem children_roundtrip l :
  smap_wf l -> Forall child_ok l -> set_string (str l) = Some (SUCCESS, l).
Proof.
  intros Hwf H. destruct l as [|p l]; [done|]. unfold set_string, str.
  set (s := child_text p ++ _).
  assert (length l < length s) as Hlen.
  { subst s. clear. unfold child_text. rewrite !length_app. simpl.
    induction l as [|q l IH]; simpl; [lia|]. rewrite !length_app in *. simpl in *. lia. }
  replace (match s with [] => _ | _ => set_string_loop (length s) s [] end)
    with (set_string_loop (length s) s []) by (destruct s; [simpl in Hlen; lia|done]).
  subst s. rewrite set_string_loop_str by done. f_equal. f_equal.
  by apply (smap_rebuild [] (p :: l)).
Qed.

(** ** Adding and removing *)

Lemma smap_get_gt (k : bstr) (l : children) :
  Forall (fun q => str_ltb k q.1 = true) l -> smap_get k l = None.
Proof.
  induction l as [|[k' v'] l IH]; simpl; intros H; [done|]. apply Forall_cons in H as [H1 H].
  rewrite (proj2 (bstr_eqb_neq _ _)) by by apply str_ltb_neq. auto.
Qed.

Lemma smap_erase_set k v (l : children) :
  smap_get k l = None -> smap_erase k (smap_set k v l) = l.
Proof.
  induction l as [|[k' v'] l IH]; simpl; intros H; [by rewrite bstr_eqb_refl|].
  destruct (str_ltb k k') eqn:E; simpl; [by rewrite bstr_eqb_refl|].
  destruct (bstr_eqb k k') eqn:E'; [done|]. simpl. rewrite E'. by rewrite IH.
Qed.

(** Adding a child succeeds exactly when the name is new, makes its context found
    and no other name change, and removing it gives the map back; adding a known
    name is refused and changes nothing. *)
Theorem add_remove_child child context l :
  smap_wf l ->
  match add_child child context l with
  | (SUCCESS, l') =>
      smap_get child l = None /\ smap_wf l' /\
      (forall c, smap_get c l' = if bstr_eqb c child then Some context else smap_get c l) /\
      remove_child child l' = (SUCCESS, l) /\
      add_child child context l' = (ERROR CHILD_EXISTS, l')
  | (ERROR c, l') => c = CHILD_EXISTS /\ l' = l /\ is_Some (smap_get child l)
  end.
Proof.
  intros Hwf. unfold add_child at 1. destruct (smap_get child l) as [x|] eqn:E; [by eauto|].
  assert (smap_get child (smap_set child context l) = Some context) as Hg
    by (by rewrite smap_get_set, bstr_eqb_refl).
  split_and!; [done|auto with irods|intros c; by apply smap_get_set| |].
  - unfold remove_child. rewrite Hg. by rewrite smap_erase_set.
  - unfold add_child. by rewrite Hg.
Qed.

Lemma children_roundtrip_witness :
  set_string (str [(lit "a", lit "x"); (lit "b", [])]) = Some (SUCCESS, [(lit "a", lit "x"); (lit "b", [])]).
Proof. apply children_roundtrip; [repeat constructor|]. repeat constructor; discriminate. Defined.

Lemma add_remove_child_witness :
  remove_child (lit "c") [(lit "a", []); (lit "c", [])] = (SUCCESS, [(lit "a", [])]).
Proof.
  pose proof (add_remove_child (lit "c") [] [(lit "a", [])] ltac:(repeat constructor)) as H.
  exact (proj1 (proj2 (proj2 (proj2 H)))).
Defined.
