(* ===== verification/Base64.v ===== *)
(** * Base64

    [lib/core/src/base64.cpp]. Buffers are the bytes written; a call returns its
    code and what it wrote to [out]. Lengths are [unsigned long]. *)

From stdpp Require Import base list strings.
From Stdlib Require Import ZArith Lia Ascii.
From S2P Require Import Prelude Errors Numerals.
Local Open Scope Z_scope.

(** Arithmetic on [unsigned long]. *)
Definition ulong (z : Z) : Z := z mod 2 ^ 64.

Definition codes : bstr := lit "ABCDEFGHIJKLMNOPQRSTUVWXYZabcdefghijklmnopqrstuvwxyz0123456789+/".

Definition mymap : list Z := [
  255; 255; 255; 255; 255; 255; 255; 255; 255; 255; 255; 255; 255; 255; 255; 255;
  255; 255; 255; 255; 255; 255; 255; 255; 255; 255; 255; 255; 255; 255; 255; 255;
  255; 255; 255; 255; 255; 255; 255; 255; 255; 255; 255; 62; 255; 255; 255; 63;
  52; 53; 54; 55; 56; 57; 58; 59; 60; 61; 255; 255; 255; 254; 255; 255;
  255; 0; 1; 2; 3; 4; 5; 6; 7; 8; 9; 10; 11; 12; 13; 14;
  15; 16; 17; 18; 19; 20; 21; 22; 23; 24; 25; 255; 255; 255; 255; 255;
  255; 26; 27; 28; 29; 30; 31; 32; 33; 34; 35; 36; 37; 38; 39; 40;
  41; 42; 43; 44; 45; 46; 47; 48; 49; 50; 51; 255; 255; 255; 255; 255;
  255; 255; 255; 255; 255; 255; 255; 255; 255; 255; 255; 255; 255; 255; 255; 255;
  255; 255; 255; 255; 255; 255; 255; 255; 255; 255; 255; 255; 255; 255; 255; 255;
  255; 255; 255; 255; 255; 255; 255; 255; 255; 255; 255; 255; 255; 255; 255; 255;
  255; 255; 255; 255; 255; 255; 255; 255; 255; 255; 255; 255; 255; 255; 255; 255;
  255; 255; 255; 255; 255; 255; 255; 255; 255; 255; 255; 255; 255; 255; 255; 255;
  255; 255; 255; 255; 255; 255; 255; 255; 255; 255; 255; 255; 255; 255; 255; 255;
  255; 255; 255; 255; 255; 255; 255; 255; 255; 255; 255; 255; 255; 255; 255; 255;
  255; 255; 255; 255; 255; 255; 255; 255; 255; 255; 255; 255; 255; 255; 255; 255
].

Definition code_at (i : Z) : ascii := nth (Z.to_nat i) codes "000"%char.
Definition map_at (c : ascii) : Z := nth (Z.to_nat (Z.land (uchar c) 255)) mymap 0.

(** ** Encoding *)

(** The loop over complete groups of three, then the padding. *)
Fixpoint encode_groups (s : bstr) : bstr :=
  match s with
  | c0 :: c1 :: c2 :: s' =>
      let in0 := uchar c0 in let in1 := uchar c1 in let in2 := uchar c2 in
      code_at (Z.land (Z.shiftr in0 2) 63) ::
      code_at (Z.land (Z.shiftl (Z.land in0 3) 4 + Z.shiftr in1 4) 63) ::
      code_at (Z.land (Z.shiftl (Z.land in1 15) 2 + Z.shiftr in2 6) 63) ::
      code_at (Z.land in2 63) :: encode_groups s'
  | [c0; c1] =>
      let a := uchar c0 in let b := uchar c1 in
      [code_at (Z.land (Z.shiftr a 2) 63);
       code_at (Z.land (Z.shiftl (Z.land a 3) 4 + Z.shiftr b 4) 63);
       code_at (Z.land (Z.shiftl (Z.land b 15) 2) 63); "="%char]
  | [c0] =>
      let a := uchar c0 in let b := 0 in
      [code_at (Z.land (Z.shiftr a 2) 63);
       code_at (Z.land (Z.shiftl (Z.land a 3) 4 + Z.shiftr b 4) 63); "="%char; "="%char]
  | [] => []
  end.

(** The code and the bytes written before the final NUL; [out] is not touched on
    overflow. [*outlen] becomes the number of bytes before the NUL. *)
Definition base64_encode (s : bstr) (outlen : Z) : Z * bstr :=
  let inlen := Z.of_nat (length s) in
  let len2 := ulong (4 * (ulong (inlen + 2) / 3)) in
  if outlen <? ulong (len2 + 1) then (BASE64_BUFFER_OVERFLOW, [])
  else (0, encode_groups s).

(** ** Decoding *)

(** The bytes written for one complete group, with [g] of them asked for. *)
Definition decode_group (t g : Z) : bstr :=
  chr (Z.land (Z.shiftr t 16) 255) ::
  (if 1 <? g then [chr (Z.land (Z.shiftr t 8) 255)] else []) ++
  (if 2 <? g then [chr (Z.land t 255)] else []).

(** The [for] loop; [z] is the number of bytes in [out]. *)
Fixpoint decode_loop (s : bstr) (outlen t y g : Z) (out : bstr) : Z * bstr :=
  match s with
  | [] => if y =? 0 then (0, out) else (BASE64_INVALID_PACKET, out)
  | x :: s' =>
      let c := map_at x in
      if c =? 255 then decode_loop s' outlen t y g out
      else
        let step c g :=
          let t := ulong (Z.lor (Z.shiftl t 6) c) in
          let y := y + 1 in
          if y =? 4 then
            if outlen <? Z.of_nat (length out) + g then (BASE64_BUFFER_OVERFLOW, out)
            else decode_loop s' outlen 0 0 g (out ++ decode_group t g)
          else decode_loop s' outlen t y g out in
        if c =? 254 then
          if g - 1 <? 0 then (BASE64_INVALID_PACKET, out) else step 0 (g - 1)
        else if negb (g =? 3) then (BASE64_INVALID_PACKET, out)
        else step c g
  end.

Definition base64_decode (s : bstr) (outlen : Z) : Z * bstr := decode_loop s outlen 0 0 3 [].

(** ** The tables are inverse to each other *)

Lemma map_code v : 0 <= v < 64 -> map_at (code_at v) = v.
Proof.
  intros Hv. assert (forallb (fun n => map_at (code_at (Z.of_nat n)) =? Z.of_nat n) (List.seq 0 64) = true)
    as H by (vm_compute; reflexivity).
  rewrite forallb_forall in H. specialize (H (Z.to_nat v)). rewrite Z2Nat.id in H by lia.
  apply Z.eqb_eq, H, in_seq. lia.
Qed.

Lemma land_63 z : Z.land z 63 = z mod 64.
Proof. apply (Z.land_ones z 6). lia. Qed.
Lemma land_255 z : Z.land z 255 = z mod 256.
Proof. apply (Z.land_ones z 8). lia. Qed.
Lemma land_15 z : Z.land z 15 = z mod 16.
Proof. apply (Z.land_ones z 4). lia. Qed.
Lemma land_3 z : Z.land z 3 = z mod 4.
Proof. apply (Z.land_ones z 2). lia. Qed.

(** Appending six bits. *)
Lemma lor_shift6 t c : 0 <= c < 64 -> Z.lor (Z.shiftl t 6) c = 64 * t + c.
Proof. intros Hc. rewrite lor_shift by lia. lia. Qed.

(** ** One group of the loop *)

(** Reading one code byte. *)
Lemma decode_code s outlen t y v out :
  0 <= v < 64 -> 0 <= t < 2 ^ 18 ->
  decode_loop (code_at v :: s) outlen t y 3 out =
  let t := 64 * t + v in
  if y + 1 =? 4 then
    if outlen <? Z.of_nat (length out) + 3 then (BASE64_BUFFER_OVERFLOW, out)
    else decode_loop s outlen 0 0 3 (out ++ decode_group t 3)
  else decode_loop s outlen t (y + 1) 3 out.
Proof.
  intros Hv Ht. cbn [decode_loop]. rewrite map_code by done.
  rewrite !(proj2 (Z.eqb_neq v _)) by lia. cbn [negb Z.eqb Pos.eqb].
  rewrite lor_shift6 by done. unfold ulong. rewrite Z.mod_small by lia. done.
Qed.

(** Reading a padding byte. *)
Lemma decode_pad s outlen t y g out :
  0 < g -> 0 <= t < 2 ^ 18 ->
  decode_loop ("="%char :: s) outlen t y g out =
  let t := 64 * t in
  if y + 1 =? 4 then
    if outlen <? Z.of_nat (length out) + (g - 1) then (BASE64_BUFFER_OVERFLOW, out)
    else decode_loop s outlen 0 0 (g - 1) (out ++ decode_group t (g - 1))
  else decode_loop s outlen t (y + 1) (g - 1) out.
Proof.
  intros Hg Ht. cbn [decode_loop]. change (map_at "=") with 254. cbn [Z.eqb Pos.eqb].
  rewrite (proj2 (Z.ltb_ge (g - 1) 0)) by lia.
  rewrite lor_shift6 by lia. rewrite Z.add_0_r. unfold ulong. rewrite Z.mod_small by lia. done.
Qed.

Lemma decode_group_3 a b c :
  0 <= a < 256 -> 0 <= b < 256 -> 0 <= c < 256 ->
  decode_group (a * 65536 + b * 256 + c) 3 = [chr a; chr b; chr c].
Proof.
  intros Ha Hb Hc. unfold decode_group. simpl (1 <? 3). simpl (2 <? 3). cbv iota. simpl app.
  rewrite !land_255, !Z.shiftr_div_pow2 by lia. change (2 ^ 16) with 65536. change (2 ^ 8) with 256.
  repeat f_equal; symmetry.
  - rewrite <- (Z.div_unique (a * 65536 + b * 256 + c) 65536 a (b * 256 + c)) by lia.
    symmetry. apply Z.mod_small. lia.
  - rewrite <- (Z.div_unique (a * 65536 + b * 256 + c) 256 (a * 256 + b) c) by lia.
    apply Z.mod_unique with a; lia.
  - apply Z.mod_unique with (a * 256 + b); lia.
Qed.

(** The four six-bit values of three bytes. *)
Lemma sextets a b c :
  0 <= a < 256 -> 0 <= b < 256 -> 0 <= c < 256 ->
  let v0 := Z.land (Z.shiftr a 2) 63 in
  let v1 := Z.land (Z.shiftl (Z.land a 3) 4 + Z.shiftr b 4) 63 in
  let v2 := Z.land (Z.shiftl (Z.land b 15) 2 + Z.shiftr c 6) 63 in
  let v3 := Z.land c 63 in
  0 <= v0 < 64 /\ 0 <= v1 < 64 /\ 0 <= v2 < 64 /\ 0 <= v3 < 64 /\
  64 * (64 * (64 * v0 + v1) + v2) + v3 = a * 65536 + b * 256 + c.
Proof.
  intros Ha Hb Hc. cbv zeta. rewrite !land_63, land_3, land_15, !Z.shiftr_div_pow2, !Z.shiftl_mul_pow2 by lia.
  change (2 ^ 2) with 4. change (2 ^ 4) with 16. change (2 ^ 6) with 64.
  split_and!; try (apply Z.mod_pos_bound; lia); try (apply Z.mod_pos_bound; lia).
  Z.to_euclidean_division_equations. lia.
Qed.

Lemma sextets_bounds a b c :
  0 <= a < 256 -> 0 <= b < 256 -> 0 <= c < 256 ->
  let v0 := Z.land (Z.shiftr a 2) 63 in
  let v1 := Z.land (Z.shiftl (Z.land a 3) 4 + Z.shiftr b 4) 63 in
  let v2 := Z.land (Z.shiftl (Z.land b 15) 2 + Z.shiftr c 6) 63 in
  0 <= v0 < 2 ^ 18 /\ 0 <= 64 * v0 + v1 < 2 ^ 18 /\ 0 <= 64 * (64 * v0 + v1) + v2 < 2 ^ 18.
Proof. intros Ha Hb Hc. pose proof (sextets a b c Ha Hb Hc). cbv zeta in *. lia. Qed.

Lemma decode_group_take a b c g :
  0 <= a < 256 -> 0 <= b < 256 -> 0 <= c < 256 -> 1 <= g <= 3 ->
  decode_group (a * 65536 + b * 256 + c) g = take (Z.to_nat g) [chr a; chr b; chr c].
Proof.
  intros Ha Hb Hc Hg. pose proof (decode_group_3 a b c Ha Hb Hc) as H3.
  assert (g = 1 \/ g = 2 \/ g = 3) as [-> | [-> | ->]] by lia; [..|done];
    unfold decode_group in *; simpl in *; injection H3 as H31 H32 H33; by rewrite ?H31, ?H32.
Qed.

(** Induction by groups of three bytes. *)
Lemma group_ind (P : bstr -> Prop) :
  P [] -> (forall a, P [a]) -> (forall a b, P [a; b]) ->
  (forall a b c s, P s -> P (a :: b :: c :: s)) -> forall s, P s.
Proof.
  intros H0 H1 H2 H3 s. remember (length s) as n eqn:Hn. revert s Hn.
  induction n as [n IH] using lt_wf_ind. intros [|a [|b [|c s]]] ->; auto.
  apply H3, (IH (length s)); simpl; lia.
Qed.

Ltac bytes :=
  repeat match goal with
  | c : ascii |- _ =>
      lazymatch goal with
      | _ : 0 <= uchar c < 256 |- _ => fail
      | _ => pose proof (uchar_range c)
      end
  end.

Lemma encode_groups_length s :
  Z.of_nat (length (encode_groups s)) = 4 * ((Z.of_nat (length s) + 2) / 3).
Proof.
  induction s as [|a|a b|a b c s IH] using group_ind; [done..|].
  cbn [encode_groups length]. rewrite !Nat2Z.inj_succ, IH.
  replace (Z.succ (Z.succ (Z.succ (Z.of_nat (length s)))) + 2) with (Z.of_nat (length s) + 2 + 1 * 3) by lia.
  rewrite Z.div_add by lia. lia.
Qed.

Ltac decode_steps :=
  repeat (first [rewrite decode_code by lia | rewrite decode_pad by lia]; cbv zeta;
          change (0 + 1 =? 4) with false; change (1 + 1 =? 4) with false;
          change (2 + 1 =? 4) with false; change (3 + 1 =? 4) with true;
          change (0 + 1) with 1; change (1 + 1) with 2; change (2 + 1) with 3;
          change (3 - 1) with 2; change (2 - 1) with 1; cbv iota).

(** The symbols of a group, with [g] bytes of data in it. *)
Lemma decode_quad s outlen a b c out :
  let v0 := Z.land (Z.shiftr (uchar a) 2) 63 in
  let v1 := Z.land (Z.shiftl (Z.land (uchar a) 3) 4 + Z.shiftr (uchar b) 4) 63 in
  let v2 := Z.land (Z.shiftl (Z.land (uchar b) 15) 2 + Z.shiftr (uchar c) 6) 63 in
  let v3 := Z.land (uchar c) 63 in
  decode_loop (code_at v0 :: code_at v1 :: code_at v2 :: code_at v3 :: s) outlen 0 0 3 out =
  if outlen <? Z.of_nat (length out) + 3 then (BASE64_BUFFER_OVERFLOW, out)
  else decode_loop s outlen 0 0 3 (out ++ [a; b; c]).
Proof.
  bytes. destruct (sextets (uchar a) (uchar b) (uchar c)) as (V0 & V1 & V2 & V3 & Ht); [lia..|].
  destruct (sextets_bounds (uchar a) (uchar b) (uchar c)) as (B0 & B1 & B2); [lia..|].
  cbv zeta. decode_steps. rewrite Z.mul_0_r, Z.add_0_l, Ht, decode_group_3 by lia.
  by autorewrite with irods.
Qed.

Lemma decode_two outlen a b out :
  let v0 := Z.land (Z.shiftr (uchar a) 2) 63 in
  let v1 := Z.land (Z.shiftl (Z.land (uchar a) 3) 4 + Z.shiftr (uchar b) 4) 63 in
  let v2 := Z.land (Z.shiftl (Z.land (uchar b) 15) 2) 63 in
  decode_loop [code_at v0; code_at v1; code_at v2; "="%char] outlen 0 0 3 out =
  if outlen <? Z.of_nat (length out) + 2 then (BASE64_BUFFER_OVERFLOW, out) else (0, out ++ [a; b]).
Proof.
  bytes. destruct (sextets (uchar a) (uchar b) 0) as (V0 & V1 & V2 & V3 & Ht); [lia..|].
  destruct (sextets_bounds (uchar a) (uchar b) 0) as (B0 & B1 & B2); [lia..|].
  change (Z.land 0 63) with 0 in *. change (Z.shiftr 0 6) with 0 in *. rewrite !Z.add_0_r in *.
  cbv zeta. decode_steps. rewrite Z.mul_0_r, Z.add_0_l, Ht.
  replace (uchar a * 65536 + uchar b * 256) with (uchar a * 65536 + uchar b * 256 + 0) by lia.
  rewrite decode_group_take by lia. simpl. by autorewrite with irods.
Qed.

Lemma decode_one outlen a out :
  let v0 := Z.land (Z.shiftr (uchar a) 2) 63 in
  let v1 := Z.land (Z.shiftl (Z.land (uchar a) 3) 4 + Z.shiftr 0 4) 63 in
  decode_loop [code_at v0; code_at v1; "="%char; "="%char] outlen 0 0 3 out =
  if outlen <? Z.of_nat (length out) + 1 then (BASE64_BUFFER_OVERFLOW, out) else (0, out ++ [a]).
Proof.
  bytes. destruct (sextets (uchar a) 0 0) as (V0 & V1 & V2 & V3 & Ht); [lia..|].
  destruct (sextets_bounds (uchar a) 0 0) as (B0 & B1 & B2); [lia..|].
  change (Z.land (Z.shiftl (Z.land 0 15) 2 + Z.shiftr 0 6) 63) with 0 in *.
  change (Z.land 0 63) with 0 in *.
  cbv zeta. decode_steps. rewrite Z.mul_0_r, Z.add_0_l.
  replace (64 * _) with (uchar a * 65536 + 0 * 256 + 0) by lia.
  rewrite decode_group_take by lia. simpl. by autorewrite with irods.
Qed.

Lemma decode_encode_groups s outlen out :
  Z.of_nat (length out) <= outlen ->
  if outlen <? Z.of_nat (length out + length s)
  then (decode_loop (encode_groups s) outlen 0 0 3 out).1 = BASE64_BUFFER_OVERFLOW
  else decode_loop (encode_groups s) outlen 0 0 3 out = (0, out ++ s).
Proof.
  revert out. induction s as [|a|a b|a b c s IH] using group_ind; intros out Hout;
    cbn [encode_groups length]; cbv zeta.
  - rewrite app_nil_r, (proj2 (Z.ltb_ge _ _)) by lia. done.
  - rewrite decode_one. rewrite Nat2Z.inj_add. by destruct (outlen <? _).
  - rewrite decode_two. rewrite Nat2Z.inj_add. by destruct (outlen <? _).
  - rewrite decode_quad. destruct (Z.ltb_spec outlen (Z.of_nat (length out) + 3)) as [H|H].
    + rewrite (proj2 (Z.ltb_lt _ _)) by lia. done.
    + specialize (IH (out ++ [a; b; c])). rewrite length_app, <- app_assoc in IH.
      simpl length in IH. simpl app in IH.
      replace (length out + S (S (S (length s))))%nat with (length out + 3 + length s)%nat by lia.
      apply IH. lia.
Qed.

(** Encoding writes four bytes per started group of three when the buffer holds
    them and the final NUL, and reports an overflow without writing otherwise;
    decoding the result gives the input back, or an overflow when the output buffer
    is too small for it. *)
Theorem base64_roundtrip s outlen outlen' :
  Z.of_nat (length s) < 2 ^ 60 -> 0 <= outlen' ->
  (4 * ((Z.of_nat (length s) + 2) / 3) + 1 <= outlen ->
   exists e, base64_encode s outlen = (0, e) /\
     Z.of_nat (length e) = 4 * ((Z.of_nat (length s) + 2) / 3) /\
     if outlen' <? Z.of_nat (length s) then (base64_decode e outlen').1 = BASE64_BUFFER_OVERFLOW
     else base64_decode e outlen' = (0, s)) /\
  (outlen < 4 * ((Z.of_nat (length s) + 2) / 3) + 1 ->
   base64_encode s outlen = (BASE64_BUFFER_OVERFLOW, [])).
Proof.
  intros Hs Ho. set (n := Z.of_nat (length s)) in *. assert (0 <= n) as Hn by lia.
  assert (0 <= (n + 2) / 3 <= n + 2) as Hd
    by (split; [apply Z.div_pos; lia|apply Z.div_le_upper_bound; lia]).
  unfold base64_encode. fold n.
  assert (ulong (ulong (4 * (ulong (n + 2) / 3)) + 1) = 4 * ((n + 2) / 3) + 1) as ->.
  { unfold ulong. rewrite (Z.mod_small (n + 2)) by lia.
    rewrite (Z.mod_small (4 * _)) by lia. by rewrite Z.mod_small by lia. }
  split; intros Hout.
  - rewrite (proj2 (Z.ltb_ge _ _)) by lia. eexists. split; [done|].
    split; [apply encode_groups_length|]. apply (decode_encode_groups s outlen' []). simpl. lia.
  - by rewrite (proj2 (Z.ltb_lt _ _)) by lia.
Qed.

(** ** Bounds of decoding *)

Lemma decode_group_length t g : 0 <= g <= 3 -> Z.of_nat (length (decode_group t g)) = Z.max 1 g.
Proof.
  intros Hg. assert (g = 0 \/ g = 1 \/ g = 2 \/ g = 3) as [-> | [-> | [-> | ->]]] by lia; done.
Qed.

(** The number of padding bytes. *)
Fixpoint pads (s : bstr) : Z :=
  match s with [] => 0 | c :: s' => (if map_at c =? 254 then 1 else 0) + pads s' end.

Lemma pads_nonneg s : 0 <= pads s.
Proof. induction s as [|c s IH]; simpl; [lia|]. destruct (map_at c =? 254); lia. Qed.

Lemma decode_loop_bounds s outlen t y g out :
  0 <= g <= 3 -> Z.of_nat (length out) <= outlen -> 0 < g - pads s ->
  Z.of_nat (length (decode_loop s outlen t y g out).2) <= outlen.
Proof.
  revert t y g out. induction s as [|x s IH]; intros t y g out Hg Hout Hp; simpl in *.
  - by destruct (y =? 0).
  - pose proof (pads_nonneg s) as Hps. destruct (map_at x =? 255); [apply IH; try lia; by destruct (map_at x =? 254); lia|].
    destruct (map_at x =? 254).
    + destruct (Z.ltb_spec (g - 1) 0); [done|]. destruct (y + 1 =? 4); [|apply IH; lia].
      destruct (Z.ltb_spec outlen (Z.of_nat (length out) + (g - 1))); [done|].
      apply IH; try lia. rewrite length_app, Nat2Z.inj_add, decode_group_length by lia. lia.
    + destruct (Z.eqb_spec g 3) as [->|]; [|done]. cbn [negb].
      destruct (y + 1 =? 4); [|apply IH; lia].
      destruct (Z.ltb_spec outlen (Z.of_nat (length out) + 3)); [done|].
      apply IH; try lia. rewrite length_app, Nat2Z.inj_add, decode_group_length by lia. lia.
Qed.

(** Whatever its input, decoding writes at most the announced number of bytes when
    the input has fewer than three padding signs; with three, a byte can be written
    past the end of the output buffer. *)
Theorem base64_decode_bounds :
  (forall s outlen, 0 <= outlen -> pads s < 3 ->
     Z.of_nat (length (base64_decode s outlen).2) <= outlen) /\
  (exists s out, pads s = 3 /\ base64_decode s 3 = (0, out) /\ length out = 4%nat).
Proof.
  split; [intros s outlen Ho Hp; apply decode_loop_bounds; simpl; lia|].
  exists (lit "QUJDA==="). eexists. split_and!; vm_compute; reflexivity.
Qed.

Lemma base64_roundtrip_witness :
  exists e, base64_encode (lit "iRODS") 9 = (0, e) /\ Z.of_nat (length e) = 8 /\
            base64_decode e 5 = (0, lit "iRODS").
Proof.
  destruct (base64_roundtrip (lit "iRODS") 9 5) as [H _]; [by_evaluation..|].
  destruct H as (e & He & Hl & Hd); [by_evaluation|]. exists e. split_and!; [exact He|exact Hl|exact Hd].
Defined.
