(* ===== verification/Obf.v ===== *)
(** * Password obfuscation

    [lib/core/src/obf.cpp]: the obfuscation of the authentication file
    ([obfiEncode], [obfiDecode]) and of passwords on the wire ([obfEncodeByKey],
    [obfDecodeByKey] and their V2). C strings are NUL-free byte lists; the time
    and the user id the functions read are arguments; the digest functions of
    OpenSSL are a parameter. *)

From stdpp Require Import base list strings.
From Stdlib Require Import ZArith Lia Ascii.
From S2P Require Import Prelude Errors Numerals.
Local Open Scope Z_scope.

(** ** The wheel *)

(** [char] is signed. *)
Definition schar (c : ascii) : Z := if uchar c <? 128 then uchar c else uchar c - 256.

Definition char_range (first : Z) (n : nat) : bstr :=
  map (fun i => chr (first + Z.of_nat i)) (List.seq 0 n).

Definition wheel_len : Z := 26 + 26 + 10 + 15.
Definition wheel : bstr :=
  char_range 48 10 ++ char_range 65 26 ++ char_range 97 26 ++ char_range 33 15.

Definition wheel_at (j : Z) : ascii := nth (Z.to_nat j) wheel "000"%char.

(** The [for] loop that searches the wheel. *)
Definition wheel_index (c : ascii) : option Z := Z.of_nat <$> find_idx (Ascii.eqb c) wheel.

(** Turning the wheel by [a] and back; the second loop adds [wheel_len] until
    the index is not negative. Bytes off the wheel are kept. *)
Definition turn (a : Z) (c : ascii) : ascii :=
  match wheel_index c with Some i => wheel_at ((i + a) mod wheel_len) | None => c end.

Definition up_to_wheel (j : Z) : Z := if j <? 0 then j mod wheel_len else j.

Definition turn_back (a : Z) (c : ascii) : ascii :=
  match wheel_index c with Some i => wheel_at (up_to_wheel (i - a)) | None => c end.

Lemma wheel_index_at j : 0 <= j < wheel_len -> wheel_index (wheel_at j) = Some j.
Proof.
  intros Hj.
  assert (forallb (fun n => bool_decide (wheel_index (wheel_at (Z.of_nat n)) = Some (Z.of_nat n)))
            (List.seq 0 77) = true) as H by (vm_compute; reflexivity).
  rewrite forallb_forall in H. specialize (H (Z.to_nat j)). rewrite Z2Nat.id in H by lia.
  apply (bool_decide_eq_true _), H, in_seq. unfold wheel_len in Hj. lia.
Qed.

Lemma wheel_index_Some c i : wheel_index c = Some i -> 0 <= i < wheel_len /\ wheel_at i = c.
Proof.
  unfold wheel_index. rewrite fmap_Some. intros (n & Hn & ->).
  apply find_idx_Some in Hn as (l & d & r & Hw & <- & Heq & _). apply Ascii.eqb_eq in Heq as <-.
  assert (length wheel = 77%nat) as Hlen by done. rewrite Hw, length_app in Hlen. simpl in Hlen.
  split; [unfold wheel_len; lia|]. unfold wheel_at. rewrite Nat2Z.id, Hw.
  rewrite app_nth2, Nat.sub_diag by lia. done.
Qed.

Lemma turn_off c a : wheel_index c = None -> turn a c = c.
Proof. intros H. unfold turn. by rewrite H. Qed.

Lemma turn_on c a : is_Some (wheel_index c) -> is_Some (wheel_index (turn a c)).
Proof.
  intros [i Hi]. unfold turn. rewrite Hi, wheel_index_at; [eauto|].
  apply Z.mod_pos_bound. done.
Qed.

Lemma turn_back_turn a c : 0 <= a -> turn_back a (turn a c) = c.
Proof.
  intros Ha. unfold turn. destruct (wheel_index c) as [i|] eqn:Hi.
  - apply wheel_index_Some in Hi as [Hr <-]. unfold turn_back.
    rewrite wheel_index_at by by apply Z.mod_pos_bound. f_equal.
    unfold up_to_wheel. pose proof (Z.mod_pos_bound (i + a) wheel_len eq_refl) as Hm.
    destruct (Z.ltb_spec ((i + a) mod wheel_len - a) 0).
    + rewrite Zminus_mod_idemp_l. replace (i + a - a) with i by lia. by apply Z.mod_small.
    + assert ((i + a) mod wheel_len - a = i); [|done].
      rewrite (Z.mod_eq (i + a) wheel_len) in * by done. unfold wheel_len in *. lia.
  - unfold turn_back. by rewrite Hi.
Qed.

Lemma wheel_chars c i : wheel_index c = Some i -> 33 <= uchar c < 123.
Proof.
  intros Hi. assert (forallb (fun c => (33 <=? uchar c) && (uchar c <? 123)) wheel = true) as H
    by (vm_compute; reflexivity).
  rewrite forallb_forall in H. apply wheel_index_Some in Hi as [Hr <-].
  specialize (H (wheel_at i)). rewrite andb_true_iff, Z.leb_le, Z.ltb_lt in H. apply H.
  apply nth_In. change (length wheel) with 77%nat. unfold wheel_len in Hr. lia.
Qed.

(** ** The authentication file *)

(** The pattern of offsets chosen by the key. *)
Definition seq_of (rval : Z) : Z :=
  if rval =? 0 then 0xd768b678 else if rval =? 1 then 0xedfdaf56 else
  if rval =? 2 then 0x2420231b else if rval =? 3 then 0x987098d8 else
  if rval =? 4 then 0xc1bdfeee else if rval =? 5 then 0xf572341f else
  if rval =? 6 then 0x478def3a else if rval =? 7 then 0xa830d343 else
  if rval =? 8 then 0x774dfa2a else if rval =? 9 then 0x6720731e else
  if rval =? 10 then 0x346fa320 else if rval =? 11 then 0x6ffdf43a else
  if rval =? 12 then 0x7723a320 else if rval =? 13 then 0xdf67d02e else
  if rval =? 14 then 0x86ad240a else if rval =? 15 then 0xe76d342e else 0.

(** [addin], and [addin_i] for the next byte. *)
Definition addin (sq base addin_i : Z) : Z := Z.land (Z.shiftr sq addin_i) 0x1f + base.
Definition next_addin_i (addin_i : Z) : Z := if 28 <? addin_i + 3 then 0 else addin_i + 3.

Fixpoint encode_chars (sq base addin_i : Z) (s : bstr) : bstr * Z :=
  match s with
  | [] => ([], addin_i)
  | c :: s' =>
      let '(r, i) := encode_chars sq base (next_addin_i addin_i) s' in
      (turn (addin sq base addin_i) c :: r, i)
  end.

Fixpoint decode_chars (sq base addin_i : Z) (s : bstr) : bstr * Z :=
  match s with
  | [] => ([], addin_i)
  | c :: s' =>
      let '(r, i) := decode_chars sq base (next_addin_i addin_i) s' in
      (turn_back (addin sq base addin_i) c :: r, i)
  end.

Definition obfiTimeval (tv_sec : Z) : Z := Z.land tv_sec 0xffff.

(** ['S' - ((rval & 7) * 2)] *)
Definition check_char (rval : Z) : Z := 83 - Z.land rval 7 * 2.

Definition headstring (now rval : Z) : bstr :=
  [chr (check_char rval);
   chr (Z.land (Z.shiftr now 4) 0xf + 97); chr (Z.land now 0xf + 97);
   chr (Z.land (Z.shiftr now 12) 0xf + 97); chr (Z.land (Z.shiftr now 8) 0xf + 97)].

(** [extra] and the masked user id turn every byte. *)
Definition turn_base (extra uid : Z) : Z := extra + Z.land uid 0xf5f.

Definition obfiEncode (tv_sec tv_usec uid timeVal : Z) (s : bstr) (extra : Z) : bstr :=
  let rval := Z.land tv_usec 0xf in
  let sq := seq_of rval in
  let now := if negb (timeVal =? 0) then timeVal else obfiTimeval tv_sec in
  let '(h, i) := encode_chars sq (turn_base extra uid) 0 (headstring now rval) in
  let '(b, _) := encode_chars sq (turn_base extra uid) i s in
  "."%char :: h ++ chr (rval + 101) :: b.

Definition obfiTimeCheck (time1 time2 : Z) : Z :=
  let fudge := 20 in
  if Z.abs (time1 - time2) <? fudge then 0
  else
    let time1 := if time1 <? 65000 then time1 + 65535 else time1 in
    let time2 := if time2 <? 65000 then time2 + 65535 else time2 in
    if Z.abs (time1 - time2) <? fudge then 0 else 1.

(** A byte of a C string; past the end there is the NUL. *)
Definition c_at (s : bstr) (i : nat) : ascii := nth i s "000"%char.

Definition encoded_time (h : bstr) : Z :=
  Z.shiftl (schar (c_at h 1) - 97) 4 + (schar (c_at h 2) - 97) +
  Z.shiftl (schar (c_at h 3) - 97) 12 + Z.shiftl (schar (c_at h 4) - 97) 8.

Definition obfiDecode (uid timeVal : Z) (s : bstr) (extra : Z) : Z * bstr :=
  let too_short := (length s <? 6)%nat in
  let rval := schar (c_at s 6) - 101 in
  if (15 <? rval) || (rval <? 0) || too_short then (AUTH_FILE_NOT_ENCRYPTED, s)
  else
    let sq := seq_of rval in
    let '(h, i) := decode_chars sq (turn_base extra uid) 0 (take 5 (drop 1 s)) in
    let not_en :=
      negb (Ascii.eqb (c_at s 0) ".") || negb (schar (c_at h 0) =? check_char rval) ||
      negb (obfiTimeCheck (encoded_time h) timeVal =? 0) in
    if not_en then (AUTH_FILE_NOT_ENCRYPTED, s)
    else (0, (decode_chars sq (turn_base extra uid) i (drop 7 s)).1).

Lemma addin_nonneg sq base i : 0 <= base -> 0 <= addin sq base i.
Proof.
  intros Hb. unfold addin. assert (0 <= Z.land (Z.shiftr sq i) 0x1f); [|lia].
  apply Z.land_nonneg. lia.
Qed.

Lemma decode_encode_chars sq base i s :
  0 <= base ->
  decode_chars sq base i (encode_chars sq base i s).1 = (s, (encode_chars sq base i s).2).
Proof.
  intros Hb. revert i. induction s as [|c s IH]; intros i; simpl; [done|].
  specialize (IH (next_addin_i i)). destruct (encode_chars sq base (next_addin_i i) s) as [r k].
  simpl in *. rewrite IH. by rewrite turn_back_turn by by apply addin_nonneg.
Qed.

Lemma encode_chars_length sq base i s : length (encode_chars sq base i s).1 = length s.
Proof.
  revert i. induction s as [|c s IH]; intros i; simpl; [done|].
  specialize (IH (next_addin_i i)). destruct (encode_chars _ _ _ s). simpl in *. by rewrite IH.
Qed.

Lemma schar_chr z : 0 <= z < 128 -> schar (chr z) = z.
Proof.
  intros Hz. unfold schar. rewrite uchar_chr, Z.mod_small by lia.
  by rewrite (proj2 (Z.ltb_lt z 128)) by lia.
Qed.

Lemma nibble z : 0 <= Z.land z 0xf < 16.
Proof. change 0xf with (Z.ones 4). rewrite Z.land_ones by lia. apply Z.mod_pos_bound. lia. Qed.

(** The four nibbles of the head string give the time back. *)
Lemma encoded_time_head now rval : 0 <= now < 65536 -> encoded_time (headstring now rval) = now.
Proof.
  intros Hn. unfold encoded_time, headstring, c_at; simpl nth.
  pose proof (nibble (Z.shiftr now 4)). pose proof (nibble now).
  pose proof (nibble (Z.shiftr now 12)). pose proof (nibble (Z.shiftr now 8)).
  rewrite !schar_chr by lia.
  change 0xf with (Z.ones 4). rewrite !Z.land_ones, !Z.shiftr_div_pow2, !Z.shiftl_mul_pow2 by lia.
  change (2 ^ 4) with 16. change (2 ^ 12) with 4096. change (2 ^ 8) with 256.
  Z.to_euclidean_division_equations. lia.
Qed.

Lemma land_7 z : 0 <= Z.land z 7 < 8.
Proof. change 7 with (Z.ones 3). rewrite Z.land_ones by lia. apply Z.mod_pos_bound. lia. Qed.

(** A password obfuscated for the authentication file is recovered by the same
    user, with the same extra key, whenever the time of the file passes the check
    against the time of encoding, whatever key the microseconds picked. *)
Theorem obfi_roundtrip tv_sec tv_usec uid timeVal timeVal' s extra :
  0 <= extra -> 0 <= uid -> 0 <= timeVal < 65536 ->
  let now := if negb (timeVal =? 0) then timeVal else obfiTimeval tv_sec in
  obfiTimeCheck now timeVal' = 0 ->
  obfiDecode uid timeVal' (obfiEncode tv_sec tv_usec uid timeVal s extra) extra = (0, s).
Proof.
  intros He Hu Ht now Hcheck. unfold obfiEncode. fold now.
  set (rval := Z.land tv_usec 0xf). pose proof (nibble tv_usec) as Hr. fold rval in Hr.
  set (base := turn_base extra uid).
  assert (0 <= base) as Hb by (subst base; unfold turn_base; pose proof (proj2 (Z.land_nonneg uid 0xf5f)); lia).
  assert (0 <= now < 65536) as Hnow.
  { subst now. destruct (timeVal =? 0); simpl; [|done]. unfold obfiTimeval.
    change 0xffff with (Z.ones 16). rewrite Z.land_ones by lia. apply Z.mod_pos_bound. lia. }
  pose proof (decode_encode_chars (seq_of rval) base 0 (headstring now rval) Hb) as Dh.
  pose proof (encode_chars_length (seq_of rval) base 0 (headstring now rval)) as Lh.
  destruct (encode_chars (seq_of rval) base 0 (headstring now rval)) as [h i]. simpl in Dh, Lh.
  pose proof (decode_encode_chars (seq_of rval) base i s Hb) as Ds.
  destruct (encode_chars (seq_of rval) base i s) as [b k]. simpl in Ds.
  destruct h as [|h0 [|h1 [|h2 [|h3 [|h4 [|]]]]]]; try done.
  unfold obfiDecode, c_at. cbn [app nth length drop take Nat.ltb Nat.leb].
  rewrite schar_chr by lia. replace (rval + 101 - 101) with rval by lia.
  rewrite (proj2 (Z.ltb_ge 15 rval)), (proj2 (Z.ltb_ge rval 0)) by lia. cbn [orb].
  fold base. rewrite Dh. rewrite encoded_time_head, Hcheck by done. rewrite drop_0, Ds.
  cbn [headstring nth]. pose proof (land_7 rval) as H7. unfold check_char.
  rewrite schar_chr by lia. by rewrite Z.eqb_refl.
Qed.

(** ** Passwords on the wire *)

(** OpenSSL's digests, as [obfMakeOneWayHash] uses them. *)
Class Digest := { md5 : bstr -> bstr; sha1 : bstr -> bstr }.
Class DigestLaws (D : Digest) : Prop := {
  md5_length : forall s, length (md5 s) = 16%nat;
  sha1_length : forall s, length (sha1 s) = 20%nat
}.

Definition HASH_TYPE_MD5 : Z := 1.
Definition HASH_TYPE_SHA1 : Z := 2.
Definition HASH_TYPE_DEFAULT : Z := 3.
Definition MAX_PASSWORD_LEN : nat := 50.
Definition V2_Prefix : bstr := lit "A.ObfV2".

(** [memcpy] into a buffer at an offset; bytes past its end are appended. *)
Definition write_at (off : nat) (d buf : bstr) : bstr :=
  take off buf ++ d ++ drop (off + length d) buf.

Section bykey.
Context {D : Digest}.
(** The global [defaultHashType]. *)
Context (defaultHashType : Z).

Definition obfMakeOneWayHash (hashType : Z) (s : bstr) : bstr :=
  if (hashType =? HASH_TYPE_SHA1) ||
     ((hashType =? HASH_TYPE_DEFAULT) && (defaultHashType =? HASH_TYPE_SHA1))
  then sha1 s else md5 s.

(** [snprintf(keyBuf, 101, "%s", key)] over zeros, without the last byte. *)
Definition key_buf (key : bstr) : bstr := take 100 (key ++ replicate 100 NUL).

(** [buffer] after the four digests. *)
Definition key_buffer (hashType : Z) (key : bstr) : bstr :=
  let buffer := replicate 65 NUL in
  let buffer := write_at 0 (obfMakeOneWayHash hashType (key_buf key)) buffer in
  let buffer := write_at 16 (obfMakeOneWayHash hashType (take 16 buffer)) buffer in
  let buffer := write_at 32 (obfMakeOneWayHash hashType (take 32 buffer)) buffer in
  write_at 48 (obfMakeOneWayHash hashType (take 32 buffer)) buffer.

(** [cpKey++], back to the start past [buffer + 60]. *)
Definition next_key (pos : nat) : nat := if (60 <? S pos)%nat then 0%nat else S pos.

(** The loops, with [pc] the previous output byte when chaining. *)
Fixpoint encode_by_key (cbc : bool) (buffer : bstr) (pos : nat) (pc : Z) (s : bstr) : bstr :=
  match s with
  | [] => []
  | c :: s' =>
      let k := uchar (c_at buffer pos) in
      let c' := turn (k + pc) c in
      let pc' := if cbc && bool_decide (is_Some (wheel_index c)) then uchar c' else pc in
      c' :: encode_by_key cbc buffer (next_key pos) pc' s'
  end.

Fixpoint decode_by_key (cbc : bool) (buffer : bstr) (pos : nat) (pc : Z) (s : bstr) : bstr :=
  match s with
  | [] => []
  | c :: s' =>
      let k := uchar (c_at buffer pos) in
      let pc' := if cbc && bool_decide (is_Some (wheel_index c)) then uchar c else pc in
      turn_back (k + pc) c :: decode_by_key cbc buffer (next_key pos) pc' s'
  end.

Definition obfEncodeByKey (cbc : bool) (s key : bstr) : bstr :=
  (if defaultHashType =? HASH_TYPE_SHA1 then lit "sha1" else []) ++
  encode_by_key cbc (key_buffer HASH_TYPE_DEFAULT key) 0 0 s.

Definition obfDecodeByKey (cbc : bool) (s key : bstr) : bstr :=
  if bstr_eqb (take 4 s) (lit "sha1")
  then decode_by_key cbc (key_buffer HASH_TYPE_SHA1 key) 0 0 (drop 4 s)
  else decode_by_key cbc (key_buffer HASH_TYPE_MD5 key) 0 0 s.

Definition obfGetMD5Hash (s : bstr) : bstr :=
  concat (map hex_byte
    (take 16 (write_at 0 (obfMakeOneWayHash HASH_TYPE_DEFAULT (key_buf s)) (replicate 30 NUL)))).

(** [strncpy(myKey, key, 90); strncat(myKey, key2, 100)], hashed. *)
Definition session_key (key key2 : bstr) : bstr := obfGetMD5Hash (take 90 key ++ take 100 key2).

Definition obfEncodeByKeyV2 (tv_usec : Z) (s key key2 : bstr) : bstr :=
  let rval := Z.land tv_usec 0x1f in
  let myIn := V2_Prefix ++ take 150 s in
  let myIn := match myIn with c :: r => chr (schar c + rval) :: r | [] => [] end in
  obfEncodeByKey true myIn (session_key key key2).

(** [myOut] is static: it keeps what earlier calls wrote. The result is [out] and
    [myOut]. *)
Definition obfDecodeByKeyV2 (myOut : bstr) (s key key2 : bstr) : bstr * bstr :=
  let myOut := write_at 0 (obfDecodeByKey true s (session_key key key2) ++ [NUL]) myOut in
  let matches := bstr_eqb (take 6 (drop 1 myOut)) (drop 1 V2_Prefix) in
  if matches then (c_str (take MAX_PASSWORD_LEN (drop 7 myOut)), myOut)
  else (obfDecodeByKey false s key, myOut).

(** ** Round trips *)

Lemma decode_encode_by_key cbc buffer pos pc s :
  0 <= pc -> decode_by_key cbc buffer pos pc (encode_by_key cbc buffer pos pc s) = s.
Proof.
  revert pos pc. induction s as [|c s IH]; intros pos pc Hpc; simpl; [done|].
  pose proof (uchar_range (c_at buffer pos)) as Hk.
  rewrite turn_back_turn by lia. f_equal. set (c' := turn _ c).
  assert (bool_decide (is_Some (wheel_index c')) = bool_decide (is_Some (wheel_index c))) as ->.
  { apply bool_decide_ext. split; [|by apply turn_on]. intros H.
    destruct (wheel_index c) eqn:E; [eauto|]. subst c'. by rewrite (turn_off _ _ E), E in H. }
  apply IH. destruct (cbc && _); [|done]. pose proof (uchar_range c'). lia.
Qed.

Lemma key_buffer_default key :
  key_buffer HASH_TYPE_DEFAULT key =
  key_buffer (if defaultHashType =? HASH_TYPE_SHA1 then HASH_TYPE_SHA1 else HASH_TYPE_MD5) key.
Proof.
  unfold key_buffer, obfMakeOneWayHash. by destruct (defaultHashType =? HASH_TYPE_SHA1).
Qed.

Lemma by_key_ok cbc s key :
  (defaultHashType =? HASH_TYPE_SHA1) ||
  negb (bstr_eqb (take 4 (obfEncodeByKey cbc s key)) (lit "sha1")) = true ->
  obfDecodeByKey cbc (obfEncodeByKey cbc s key) key = s.
Proof.
  unfold obfEncodeByKey, obfDecodeByKey. rewrite key_buffer_default.
  destruct (defaultHashType =? HASH_TYPE_SHA1); simpl.
  - intros _. by rewrite drop_0, decode_encode_by_key.
  - intros H%negb_true_iff. rewrite H. by rewrite decode_encode_by_key.
Qed.

(** Decoding by key inverts encoding by key, with and without chaining, for every
    digest function, when the default hash is SHA1 or the MD5 text does not begin
    with the bytes sha1. *)
Theorem by_key_roundtrip cbc s key :
  defaultHashType = HASH_TYPE_SHA1 \/ take 4 (obfEncodeByKey cbc s key) <> lit "sha1" ->
  obfDecodeByKey cbc (obfEncodeByKey cbc s key) key = s.
Proof.
  intros H. apply by_key_ok. rewrite orb_true_iff, negb_true_iff, Z.eqb_eq, bstr_eqb_neq. done.
Qed.

Lemma c_str_password s r :
  (length s < MAX_PASSWORD_LEN)%nat -> Forall (fun c => c <> NUL) s ->
  c_str (take MAX_PASSWORD_LEN (s ++ NUL :: r)) = s.
Proof.
  intros Hl Hs. replace MAX_PASSWORD_LEN with (length s + S (49 - length s))%nat
    by (unfold MAX_PASSWORD_LEN in *; lia).
  rewrite take_app_add. simpl. by apply c_str_app.
Qed.

(** A V2 message leaves the prefix, the password and its NUL in [myOut]. *)
Lemma decode_v2_memory tv_usec myOut s key key2 :
  (length s < MAX_PASSWORD_LEN)%nat -> Forall (fun c => c <> NUL) s ->
  defaultHashType = HASH_TYPE_SHA1 \/
    take 4 (obfEncodeByKeyV2 tv_usec s key key2) <> lit "sha1" ->
  exists c r, obfDecodeByKeyV2 myOut (obfEncodeByKeyV2 tv_usec s key key2) key key2 =
              (s, c :: drop 1 V2_Prefix ++ s ++ NUL :: r).
Proof.
  intros Hl Hs H. unfold obfDecodeByKeyV2. unfold obfEncodeByKeyV2 in *. cbv zeta in *.
  rewrite by_key_ok by (rewrite orb_true_iff, negb_true_iff, Z.eqb_eq, bstr_eqb_neq; done).
  rewrite (take_ge s 150) by (unfold MAX_PASSWORD_LEN in Hl; lia).
  unfold write_at. cbn [V2_Prefix lit String.list_ascii_of_string app take drop].
  rewrite take_0. cbn [app]. set (r := drop _ myOut). cbn [drop take].
  rewrite ?take_0, ?drop_0, bstr_eqb_refl. rewrite <- app_assoc. cbn [app].
  rewrite c_str_password by done. by eexists _, r.
Qed.

(** The second version recovers every password shorter than MAX_PASSWORD_LEN,
    whatever the random byte and whatever its static buffer held, under the same
    condition on the text. *)
Theorem by_key_v2_roundtrip tv_usec myOut s key key2 :
  (length s < MAX_PASSWORD_LEN)%nat -> Forall (fun c => c <> NUL) s ->
  defaultHashType = HASH_TYPE_SHA1 \/
    take 4 (obfEncodeByKeyV2 tv_usec s key key2) <> lit "sha1" ->
  (obfDecodeByKeyV2 myOut (obfEncodeByKeyV2 tv_usec s key key2) key key2).1 = s.
Proof.
  intros Hl Hs H. by destruct (decode_v2_memory tv_usec myOut s key key2 Hl Hs H) as (c & r & ->).
Qed.

(** Decoding an empty text after a password was decoded returns that password
    again, for any keys: the static buffer still holds the prefix and the password. *)
Theorem by_key_v2_stale tv_usec myOut s key key2 key' key2' :
  (length s < MAX_PASSWORD_LEN)%nat -> Forall (fun c => c <> NUL) s ->
  defaultHashType = HASH_TYPE_SHA1 \/
    take 4 (obfEncodeByKeyV2 tv_usec s key key2) <> lit "sha1" ->
  let myOut' := (obfDecodeByKeyV2 myOut (obfEncodeByKeyV2 tv_usec s key key2) key key2).2 in
  (obfDecodeByKeyV2 myOut' [] key' key2').1 = s.
Proof.
  intros Hl Hs H. destruct (decode_v2_memory tv_usec myOut s key key2 Hl Hs H) as (c & r & ->).
  unfold obfDecodeByKeyV2. cbn [snd]. change (obfDecodeByKey true [] _) with ([] : bstr).
  unfold write_at. cbn [V2_Prefix lit String.list_ascii_of_string app take drop length Nat.add].
  rewrite ?take_0, ?drop_0. cbn [app drop take]. rewrite ?take_0, ?drop_0, bstr_eqb_refl. cbn [fst].
  by apply c_str_password.
Qed.

Lemma write_at_length off d buf :
  (off <= length buf)%nat -> length (write_at off d buf) = Nat.max (length buf) (off + length d).
Proof. intros H. unfold write_at. rewrite !length_app, length_take, length_drop. lia. Qed.

(** The last digest is written past the 65 bytes of [buffer] when it is SHA1. *)
Theorem key_buffer_size `{!DigestLaws D} key :
  length (key_buffer HASH_TYPE_MD5 key) = 65%nat /\ length (key_buffer HASH_TYPE_SHA1 key) = 68%nat.
Proof.
  assert (forall s, length (obfMakeOneWayHash HASH_TYPE_MD5 s) = 16%nat) as H5
    by (intros s; apply md5_length).
  assert (forall s, length (obfMakeOneWayHash HASH_TYPE_SHA1 s) = 20%nat) as H1
    by (intros s; apply sha1_length).
  split; unfold key_buffer; cbv zeta; by repeat (rewrite write_at_length, ?H5, ?H1;
    rewrite ?write_at_length, ?H5, ?H1, ?length_replicate; try lia).
Qed.
End bykey.

Lemma obfi_roundtrip_witness :
  obfiDecode 1000 54321 (obfiEncode 0 7 1000 54321 (lit "secret") 0) 0 = (0, lit "secret").
Proof. apply obfi_roundtrip; [lia..|reflexivity]. Defined.

(** A stand-in for the digests, with their lengths. *)
Definition digest_ref : Digest := {|
  md5 s := take 16 (s ++ replicate 16 NUL); sha1 s := take 20 (s ++ replicate 20 NUL)
|}.

#[export] Instance digest_ref_laws : DigestLaws digest_ref.
Proof. constructor; intros s; cbn [md5 sha1 digest_ref]; rewrite length_take, length_app, length_replicate; lia. Qed.

Lemma by_key_roundtrip_witness :
  obfDecodeByKey (D := digest_ref) HASH_TYPE_MD5 false
    (obfEncodeByKey (D := digest_ref) HASH_TYPE_MD5 false (lit "secret") (lit "key")) (lit "key")
  = lit "secret".
Proof. apply (by_key_roundtrip (D := digest_ref)). right. vm_compute. discriminate. Defined.

Lemma by_key_v2_roundtrip_witness :
  (obfDecodeByKeyV2 (D := digest_ref) HASH_TYPE_MD5 []
    (obfEncodeByKeyV2 (D := digest_ref) HASH_TYPE_MD5 3 (lit "pw") (lit "k1") (lit "k2"))
    (lit "k1") (lit "k2")).1 = lit "pw".
Proof.
  apply (by_key_v2_roundtrip (D := digest_ref)); [simpl; unfold MAX_PASSWORD_LEN; lia|by_evaluation|].
  right. vm_compute. discriminate.
Defined.

Lemma by_key_v2_stale_witness :
  (obfDecodeByKeyV2 (D := digest_ref) HASH_TYPE_MD5
    (obfDecodeByKeyV2 (D := digest_ref) HASH_TYPE_MD5 []
      (obfEncodeByKeyV2 (D := digest_ref) HASH_TYPE_MD5 3 (lit "pw") (lit "k1") (lit "k2"))
      (lit "k1") (lit "k2")).2 [] (lit "other") (lit "k3")).1 = lit "pw".
Proof.
  apply (by_key_v2_stale (D := digest_ref)); [simpl; unfold MAX_PASSWORD_LEN; lia|by_evaluation|].
  right. vm_compute. discriminate.
Defined.
