(* ===== verification/HashTable.v ===== *)
(** * The hash table

    [lib/core/src/hashtable.cpp]: chained buckets, Bernstein's hash, duplicate
    keys kept in insertion order, and, for tables allocated in a region, growth
    by doubling. A chain of [struct bucket] is the list of its pairs; a pointer
    to a bucket is the rest of its chain, from it on. Allocation succeeds. *)

From stdpp Require Import base list strings.
From Stdlib Require Import ZArith Lia Ascii.
From S2P Require Import Prelude.

(** [B_hash], on [unsigned long]. *)
Definition HASH_BASE : Z := 5381.

Definition hash_step (hash : Z) (c : ascii) : Z :=
  ((Z.shiftl hash 5 + hash + uchar c) mod 2 ^ 64)%Z.

Definition B_hash (s : bstr) : Z := foldl hash_step HASH_BASE s.

Lemma B_hash_range s : (0 <= B_hash s < 2 ^ 64)%Z.
Proof.
  unfold B_hash. destruct s as [|c s] using rev_ind; [done|].
  rewrite foldl_snoc. apply Z.mod_pos_bound. lia.
Qed.

Section hashtable.
Context {V : Type}.
Implicit Types (key : bstr) (value : V).

Abbreviation bucket := (list (bstr * V)).

Record hashtable : Type := Hashtable {
  dynamic : bool; size : nat; buckets : list bucket; len : nat
}.

Definition newHashTable (n : nat) : hashtable := Hashtable false n (replicate n []) 0.
Definition newHashTable2 (n : nat) : hashtable := Hashtable true n (replicate n []) 0.

(** [myhash(key) % h->size] *)
Definition index (n : nat) key : nat := Z.to_nat (B_hash key mod Z.of_nat n).

(** Linking a new bucket at the end of its chain. *)
Definition link key value (h : hashtable) : hashtable :=
  Hashtable (dynamic h) (size h)
    (alter (fun b => b ++ [(key, value)]) (index (size h) key) (buckets h)) (S (len h)).

(** Growth inserts every pair into a table twice the size, with the same
    function; [fuel] bounds how often a table grows while another is filled. *)
Fixpoint insertIntoHashTable (fuel : nat) (h : hashtable) key value : option hashtable :=
  if dynamic h && (size h <=? len h)%nat then
    match fuel with
    | O => None
    | S fuel =>
        let h2 := foldl (fun acc p => acc ≫= fun a => insertIntoHashTable fuel a p.1 p.2)
                    (Some (newHashTable2 (size h * 2))) (concat (buckets h)) in
        h2 ≫= fun h => Some (link key value h)
    end
  else Some (link key value h).

(** The chain a key belongs to. *)
Definition chain (h : hashtable) key : bucket := default [] (buckets h !! index (size h) key).

Fixpoint find_bucket key (b : bucket) : option bucket :=
  match b with
  | [] => None
  | (k, v) :: b' => if bstr_eqb k key then Some b else find_bucket key b'
  end.

Definition lookupFromHashTable (h : hashtable) key : option V :=
  match find_bucket key (chain h key) with Some ((_, v) :: _) => Some v | _ => None end.

Definition lookupBucketFromHashTable (h : hashtable) key : option bucket :=
  find_bucket key (chain h key).

Definition nextBucket (b0 : bucket) key : option bucket := find_bucket key (tail b0).

(** [b0->value = value] at the first bucket of the key, and its old value. *)
Fixpoint update_chain key value (b : bucket) : option V * bucket :=
  match b with
  | [] => (None, [])
  | (k, v) :: b' =>
      if bstr_eqb k key then (Some v, (k, value) :: b')
      else let '(r, b'') := update_chain key value b' in (r, (k, v) :: b'')
  end.

Definition updateInHashTable (h : hashtable) key value : option V * hashtable :=
  let '(r, b) := update_chain key value (chain h key) in
  (r, Hashtable (dynamic h) (size h) (<[index (size h) key := b]> (buckets h)) (len h)).

(** Unlinking the first bucket of the key. *)
Fixpoint delete_chain key (b : bucket) : option V * bucket :=
  match b with
  | [] => (None, [])
  | (k, v) :: b' =>
      if bstr_eqb k key then (Some v, b')
      else let '(r, b'') := delete_chain key b' in (r, (k, v) :: b'')
  end.

Definition deleteFromHashTable (h : hashtable) key : option V * hashtable :=
  let '(r, b) := delete_chain key (chain h key) in
  (r, Hashtable (dynamic h) (size h) (<[index (size h) key := b]> (buckets h))
        (match r with Some _ => pred (len h) | None => len h end)).

(** [deleteHashTable]: the values handed to [f], in order; a chain is deleted
    from its end. *)
Definition deleteBucket (b0 : bucket) : list V := reverse b0.*2.
Definition deleteHashTable (h : hashtable) : list V :=
  if dynamic h then [] else concat (map deleteBucket (buckets h)).

(** ** The abstract table

    For each key, its values in insertion order. *)

Definition values key (b : bucket) : list V :=
  omap (fun p => if bstr_eqb p.1 key then Some p.2 else None) b.

Definition abs (h : hashtable) key : list V := values key (chain h key).

(** Invariant: every pair is in the chain its key hashes to, [len] counts the
    pairs, and a dynamic table has no more pairs than chains. *)
Record wf (h : hashtable) : Prop := Wf {
  wf_size : 0 < size h;
  wf_buckets : length (buckets h) = size h;
  wf_place : forall i b, buckets h !! i = Some b -> Forall (fun p => index (size h) p.1 = i) b;
  wf_len : len h = length (concat (buckets h));
  wf_dynamic : dynamic h = true -> len h <= size h
}.

Lemma index_lt n key : 0 < n -> index n key < n.
Proof.
  intros Hn. unfold index. apply Nat2Z.inj_lt. rewrite Z2Nat.id; apply Z.mod_pos_bound; lia.
Qed.

Lemma values_cons key k v b :
  values key ((k, v) :: b) = if bstr_eqb k key then v :: values key b else values key b.
Proof. unfold values; simpl. by destruct (bstr_eqb k key). Qed.

Lemma values_app key b1 b2 : values key (b1 ++ b2) = values key b1 ++ values key b2.
Proof. apply omap_app. Qed.

Lemma values_one key key' v :
  values key [(key', v)] = if bstr_eqb key' key then [v] else [].
Proof. unfold values; simpl. by destruct (bstr_eqb key' key). Qed.

Lemma length_concat_insert (l : list bucket) i b b' :
  l !! i = Some b ->
  length (concat (<[i := b']> l)) + length b = length (concat l) + length b'.
Proof.
  revert i. induction l as [|c l IH]; intros [|i] H; simplify_eq/=; rewrite !length_app; [lia|].
  specialize (IH i H). lia.
Qed.

Lemma chain_lookup h key : wf h -> buckets h !! index (size h) key = Some (chain h key).
Proof.
  intros Hwf. destruct (lookup_lt_is_Some_2 (buckets h) (index (size h) key)) as [b Hb].
  - rewrite (wf_buckets _ Hwf). apply index_lt, Hwf.
  - unfold chain. by rewrite Hb.
Qed.

(** Replacing the chain of a key. *)
Definition set_chain (h : hashtable) key (b : bucket) (n : nat) : hashtable :=
  Hashtable (dynamic h) (size h) (<[index (size h) key := b]> (buckets h)) n.

Lemma chain_set_chain h key key' b n :
  wf h ->
  chain (set_chain h key b n) key' =
  if decide (index (size h) key = index (size h) key') then b else chain h key'.
Proof.
  intros Hwf. unfold chain, set_chain; simpl. destruct (decide _) as [<-|Hne].
  - rewrite list_lookup_insert_eq; [done|]. rewrite (wf_buckets _ Hwf). apply index_lt, Hwf.
  - by rewrite list_lookup_insert_ne by done.
Qed.

(** A new chain whose pairs are placed right keeps the invariant... *)
Lemma set_chain_wf h key b n :
  wf h -> Forall (fun p => index (size h) p.1 = index (size h) key) b ->
  n + length (chain h key) = len h + length b -> (dynamic h = true -> n <= size h) ->
  wf (set_chain h key b n).
Proof.
  intros Hwf Hb Hn Hd. constructor; simpl.
  - apply Hwf.
  - rewrite length_insert. apply Hwf.
  - intros i b' Hi. apply list_lookup_insert_Some in Hi as [(<- & <- & _)|[_ Hi]]; [done|].
    by apply (wf_place _ Hwf).
  - pose proof (length_concat_insert _ _ _ b (chain_lookup h key Hwf)).
    rewrite (wf_len _ Hwf) in Hn. lia.
  - done.
Qed.

(** ... and changes the values of keys with this hash only. *)
Lemma set_chain_abs h key b n (f : list V -> list V) :
  wf h -> values key b = f (abs h key) ->
  (forall key', key' <> key -> values key' b = values key' (chain h key)) ->
  forall key', abs (set_chain h key b n) key' = if bstr_eqb key' key then f (abs h key) else abs h key'.
Proof.
  intros Hwf Hk Ho key'. unfold abs at 1. rewrite chain_set_chain by done.
  destruct (bstr_eqb key' key) eqn:E.
  - apply bstr_eqb_eq in E as ->. by rewrite decide_True.
  - apply bstr_eqb_neq in E. destruct (decide _) as [Hi|]; [|done].
    rewrite (Ho key' E). unfold abs, chain. by rewrite Hi.
Qed.

Lemma chain_place h key : wf h -> Forall (fun p => index (size h) p.1 = index (size h) key) (chain h key).
Proof. intros Hwf. apply (wf_place _ Hwf). by apply chain_lookup. Qed.

(** ** Insertion *)

Lemma link_set_chain h key value :
  wf h -> link key value h = set_chain h key (chain h key ++ [(key, value)]) (S (len h)).
Proof.
  intros Hwf. unfold link, set_chain. f_equal.
  apply list_eq. intros i. destruct (decide (index (size h) key = i)) as [<-|Hne].
  - rewrite list_lookup_alter_eq, (chain_lookup _ _ Hwf), list_lookup_insert_eq; [done|].
    rewrite (wf_buckets _ Hwf). apply index_lt, Hwf.
  - by rewrite list_lookup_alter_ne, list_lookup_insert_ne by done.
Qed.

Lemma link_spec h key value :
  wf h -> (dynamic h = true -> len h < size h) ->
  wf (link key value h) /\
  forall key', abs (link key value h) key' = if bstr_eqb key' key then abs h key ++ [value] else abs h key'.
Proof.
  intros Hwf Hd. rewrite link_set_chain by done. split.
  - apply set_chain_wf; [done| |rewrite length_app; simpl; lia|intros H; specialize (Hd H); lia].
    apply Forall_app. split; [by apply chain_place|]. by constructor.
  - apply (set_chain_abs _ _ _ _ (fun l => l ++ [value])); [done| |].
    + rewrite values_app, values_one, bstr_eqb_refl. done.
    + intros key' Hne. rewrite values_app, values_one, (proj2 (bstr_eqb_neq _ _)) by congruence.
      apply app_nil_r.
Qed.

Lemma values_place key (l : list bucket) n i :
  (forall j b, l !! j = Some b -> Forall (fun p => index n p.1 = i + j) b) ->
  values key (concat l) = values key (default [] (if decide (i <= index n key) then l !! (index n key - i) else None)).
Proof.
  revert i. induction l as [|b l IH]; intros i H; simpl.
  - by destruct (decide _).
  - rewrite values_app. rewrite (IH (S i)) by (intros j c Hj; rewrite Nat.add_succ_l, <- Nat.add_succ_r; by apply H).
    assert (index n key <> i -> values key b = []) as Hb.
    { intros Hne. specialize (H 0 b eq_refl). rewrite Nat.add_0_r in H. unfold values.
      induction H as [|[k v] b Hk H IHb]; simpl; [done|]. simpl in Hk.
      rewrite (proj2 (bstr_eqb_neq k key)) by congruence. done. }
    destruct (decide (index n key = i)) as [Heq|Hne].
    + rewrite decide_False, decide_True by lia. rewrite Heq, Nat.sub_diag. simpl. apply app_nil_r.
    + rewrite (Hb Hne). simpl. destruct (decide (i <= index n key)).
      * rewrite decide_True by lia. by replace (index n key - i) with (S (index n key - S i)) by lia.
      * by rewrite decide_False by lia.
Qed.

(** A key's values, over the whole table. *)
Lemma values_concat h key : wf h -> values key (concat (buckets h)) = abs h key.
Proof.
  intros Hwf. rewrite (values_place key _ (size h) 0).
  - rewrite decide_True by lia. by rewrite Nat.sub_0_r.
  - intros j b Hj. by apply (wf_place _ Hwf).
Qed.

Lemma new_wf d n : 0 < n -> wf (Hashtable d n (replicate n []) 0).
Proof.
  intros Hn. constructor; simpl; [done|apply length_replicate| | |lia].
  - intros i b Hi. apply lookup_replicate in Hi as [-> _]. done.
  - clear. by induction n.
Qed.

Lemma new_abs d n key : abs (Hashtable d n (replicate n []) 0) key = [].
Proof.
  unfold abs, chain; simpl. destruct (replicate n [] !! _) eqn:E; [|done].
  by apply lookup_replicate in E as [-> _].
Qed.

Lemma insert_room fuel h key value :
  (dynamic h = true -> len h < size h) -> insertIntoHashTable fuel h key value = Some (link key value h).
Proof.
  intros Hd. destruct fuel; simpl; destruct (dynamic h); simpl; try done;
    by rewrite (proj2 (Nat.leb_gt _ _)) by auto.
Qed.

(** Filling a table that has room for everything. *)
Lemma fill_spec fuel l h :
  wf h -> len h + length l <= size h ->
  exists h', foldl (fun acc p => acc ≫= fun a => insertIntoHashTable fuel a p.1 p.2) (Some h) l = Some h' /\
    wf h' /\ dynamic h' = dynamic h /\ size h' = size h /\ len h' = len h + length l /\
    forall key, abs h' key = abs h key ++ values key l.
Proof.
  revert h. induction l as [|[k v] l IH]; intros h Hwf Hroom; simpl.
  - exists h. split_and!; [done..|lia|]. intros key. by rewrite app_nil_r.
  - simpl in Hroom. rewrite insert_room by (intros _; lia).
    destruct (link_spec h k v Hwf) as [Hwf' Habs]; [intros _; lia|].
    destruct (IH (link k v h) Hwf') as (h' & -> & Hwf'' & Hd & Hs & Hl & Ha); [simpl; lia|].
    exists h'. simpl in Hl. split_and!; [done..|lia|]. intros key.
    etrans; [|exact (f_equal (app (abs h key)) (eq_sym (values_app key [(k, v)] l)))].
    rewrite Ha, Habs, values_one, app_assoc. f_equal. destruct (bstr_eqb key k) eqn:E.
    + apply bstr_eqb_eq in E as ->. by rewrite bstr_eqb_refl.
    + apply bstr_eqb_neq in E. rewrite (proj2 (bstr_eqb_neq k key)) by congruence. by rewrite app_nil_r.
Qed.

(** Insertion appends the value to those of its key and leaves the other keys
    alone, also when the table doubles: growth re-inserts every pair in order and
    never grows a second time, so one level of recursion is enough; the invariant is
    kept. *)
Theorem insert_refines fuel h key value :
  wf h -> 0 < fuel ->
  exists h', insertIntoHashTable fuel h key value = Some h' /\ wf h' /\
    size h' = (if dynamic h && (size h <=? len h)%nat then size h * 2 else size h) /\
    len h' = S (len h) /\
    forall key', abs h' key' = if bstr_eqb key' key then abs h key ++ [value] else abs h key'.
Proof.
  intros Hwf Hf. destruct fuel as [|fuel]; [lia|]. simpl.
  destruct (dynamic h && (size h <=? len h)%nat) eqn:E.
  - apply andb_true_iff in E as [Hd Hfull%Nat.leb_le].
    pose proof (wf_dynamic _ Hwf Hd). pose proof (wf_size _ Hwf).
    destruct (fill_spec fuel (concat (buckets h)) (newHashTable2 (size h * 2)))
      as (h2 & -> & Hwf2 & Hd2 & Hs2 & Hl2 & Ha2); [apply new_wf; lia| |].
    { rewrite <- (wf_len _ Hwf). simpl. lia. }
    simpl in *. rewrite <- (wf_len _ Hwf) in Hl2.
    destruct (link_spec h2 key value Hwf2) as [Hwf3 Ha3]; [intros _; lia|].
    eexists. split; [done|]. split; [done|]. split; [done|]. split; [simpl; lia|]. intros key'.
    rewrite Ha3, !Ha2. unfold newHashTable2. rewrite !new_abs, !values_concat by done. done.
  - destruct (link_spec h key value Hwf) as [Hwf' Ha].
    { intros Hd. rewrite Hd in E. simpl in E. by apply Nat.leb_gt. }
    eexists. by split_and!.
Qed.

(** ** Lookup, update, delete *)

Lemma find_bucket_values key b :
  match find_bucket key b with
  | None => values key b = []
  | Some [] => False
  | Some ((k, v) :: b') => k = key /\ values key b = v :: values key b'
  end.
Proof.
  induction b as [|[k v] b IH]; [done|]. rewrite values_cons. simpl.
  destruct (bstr_eqb k key) eqn:E; [by apply bstr_eqb_eq in E|]. exact IH.
Qed.

(** The buckets of a key, as a client walks them with [nextBucket]. *)
Fixpoint walk (fuel : nat) (b : option bucket) key : list V :=
  match fuel, b with
  | S fuel, Some ((k, v) :: b') => v :: walk fuel (nextBucket ((k, v) :: b') key) key
  | _, _ => []
  end.

Lemma walk_values key b fuel :
  length (values key b) <= fuel -> walk fuel (find_bucket key b) key = values key b.
Proof.
  revert b. induction fuel as [|fuel IH]; intros b Hf.
  - simpl. by destruct (values key b); [|simpl in Hf; lia].
  - pose proof (find_bucket_values key b) as H. simpl.
    destruct (find_bucket key b) as [[|[k v] b']|]; [done| |done].
    destruct H as [-> H]. rewrite H in *. simpl in Hf. unfold nextBucket; simpl. by rewrite IH by lia.
Qed.

Lemma lookup_refines h key :
  lookupFromHashTable h key = head (abs h key) /\
  walk (length (abs h key)) (lookupBucketFromHashTable h key) key = abs h key.
Proof.
  split; [|by apply walk_values]. unfold lookupFromHashTable, abs.
  pose proof (find_bucket_values key (chain h key)) as H.
  destruct (find_bucket key _) as [[|[k v] b']|]; [done| |by rewrite H].
  destruct H as [-> H]. by rewrite H.
Qed.

Lemma update_chain_spec key value b :
  let '(r, b') := update_chain key value b in
  r = head (values key b) /\ map fst b' = map fst b /\
  values key b' = match values key b with [] => [] | _ :: vs => value :: vs end /\
  forall key', key' <> key -> values key' b' = values key' b.
Proof.
  induction b as [|[k v] b IH]; [done|]. cbn [update_chain].
  destruct (bstr_eqb k key) eqn:E.
  - rewrite !values_cons, E. split_and!; try done. intros key' Hne.
    apply bstr_eqb_eq in E as ->. by rewrite !values_cons, (proj2 (bstr_eqb_neq key key')) by congruence.
  - destruct (update_chain key value b) as [r b'']. destruct IH as (Hr & Hm & Hv & Ho).
    rewrite !values_cons, E. split_and!; [done|simpl; by rewrite Hm|done|].
    intros key' Hne. by rewrite !values_cons, (Ho key' Hne).
Qed.

Lemma place_map {A} (P : bstr -> Prop) (b b' : list (bstr * A)) :
  map fst b' = map fst b -> Forall (fun p => P p.1) b -> Forall (fun p => P p.1) b'.
Proof.
  revert b'. induction b as [|p b IH]; intros [|q b'] Hm H; simplify_eq/=; [done|].
  apply Forall_cons in H as [Hp H]. constructor; [congruence|]. auto.
Qed.

Lemma update_refines h key value :
  wf h ->
  let '(r, h') := updateInHashTable h key value in
  r = head (abs h key) /\ wf h' /\ len h' = len h /\
  forall key', abs h' key' =
    if bstr_eqb key' key then match abs h key with [] => [] | _ :: vs => value :: vs end
    else abs h key'.
Proof.
  intros Hwf. unfold updateInHashTable. pose proof (update_chain_spec key value (chain h key)) as H.
  destruct (update_chain key value (chain h key)) as [r b]. destruct H as (Hr & Hm & Hv & Ho).
  assert (length b = length (chain h key)) as Hl by (rewrite <- !(length_map fst); by rewrite Hm).
  split_and!; [done| |done|].
  - apply set_chain_wf; [done| |lia|apply Hwf].
    eapply (place_map (fun k => index (size h) k = _)); [done|by apply chain_place].
  - by apply (set_chain_abs _ _ _ _ (fun l => match l with [] => [] | _ :: vs => value :: vs end)).
Qed.

Lemma delete_chain_spec key b :
  let '(r, b') := delete_chain key b in
  r = head (values key b) /\ (forall P, Forall P b -> Forall P b') /\
  length b' + (match r with Some _ => 1 | None => 0 end) = length b /\
  values key b' = tail (values key b) /\
  forall key', key' <> key -> values key' b' = values key' b.
Proof.
  induction b as [|[k v] b IH]; [done|]. cbn [delete_chain].
  destruct (bstr_eqb k key) eqn:E.
  - rewrite values_cons, E. split_and!; [done| |simpl; lia|done|].
    + by intros P [_ ?]%Forall_cons.
    + intros key' Hne. apply bstr_eqb_eq in E as ->.
      by rewrite values_cons, (proj2 (bstr_eqb_neq key key')) by congruence.
  - destruct (delete_chain key b) as [r b'']. destruct IH as (Hr & HP & Hl & Hv & Ho).
    rewrite !values_cons, E. split_and!; [done| |simpl; lia|done|].
    + intros P [? ?]%Forall_cons. constructor; auto.
    + intros key' Hne. by rewrite !values_cons, (Ho key' Hne).
Qed.

Lemma delete_refines h key :
  wf h ->
  let '(r, h') := deleteFromHashTable h key in
  r = head (abs h key) /\ wf h' /\
  forall key', abs h' key' = if bstr_eqb key' key then tail (abs h key) else abs h key'.
Proof.
  intros Hwf. unfold deleteFromHashTable. pose proof (delete_chain_spec key (chain h key)) as H.
  destruct (delete_chain key (chain h key)) as [r b]. destruct H as (Hr & HP & Hl & Hv & Ho).
  assert (length (chain h key) <= len h) as Hc.
  { rewrite (wf_len _ Hwf). pose proof (length_concat_insert _ _ _ [] (chain_lookup h key Hwf)) as Hx.
    simpl in Hx. lia. }
  split_and!; [done| |by apply (set_chain_abs _ _ _ _ tail)].
  apply set_chain_wf; [done|by apply HP, chain_place| |].
  - destruct r; lia.
  - intros Hd. pose proof (wf_dynamic _ Hwf Hd). destruct r; lia.
Qed.

(** C23: Lookup returns the first value of a key, walking its buckets with nextBucket
    visits all of them in insertion order, update replaces the first and delete
    removes it; each returns the old first value, keeps the invariant and leaves the
    other keys alone. *)
Theorem hashtable_refines h key value :
  wf h ->
  lookupFromHashTable h key = head (abs h key) /\
  walk (length (abs h key)) (lookupBucketFromHashTable h key) key = abs h key /\
  (let '(r, h') := updateInHashTable h key value in
   r = head (abs h key) /\ wf h' /\
   forall key', abs h' key' =
     if bstr_eqb key' key then match abs h key with [] => [] | _ :: vs => value :: vs end
     else abs h key') /\
  (let '(r, h') := deleteFromHashTable h key in
   r = head (abs h key) /\ wf h' /\
   forall key', abs h' key' = if bstr_eqb key' key then tail (abs h key) else abs h key').
Proof.
  intros Hwf. destruct (lookup_refines h key) as [Hl Hw].
  pose proof (update_refines h key value Hwf) as Hu. pose proof (delete_refines h key Hwf) as Hd.
  destruct (updateInHashTable h key value) as [r h'], (deleteFromHashTable h key) as [r' h''].
  naive_solver.
Qed.
End hashtable.
Arguments hashtable : clear implicits.

(** A table of one chain, with one pair, about to grow. *)
Definition one_pair : hashtable nat := Hashtable true 1 [[(lit "a", 7)]] 1.

Lemma one_pair_wf : wf one_pair.
Proof.
  constructor; simpl; [lia|done| |done|lia]. intros [|i] b Hi; [|done].
  injection Hi as <-. repeat constructor.
Qed.

Lemma insert_refines_witness :
  exists h', insertIntoHashTable 1 one_pair (lit "a") 8 = Some h' /\ abs h' (lit "a") = [7; 8].
Proof.
  destruct (insert_refines 1 one_pair (lit "a") 8 one_pair_wf) as (h' & H & _ & _ & _ & Ha); [lia|].
  exists h'. split; [exact H|]. rewrite (Ha (lit "a")). vm_compute. reflexivity.
Defined.

Lemma hashtable_refines_witness : lookupFromHashTable one_pair (lit "a") = Some 7.
Proof. exact (proj1 (hashtable_refines one_pair (lit "a") 9 one_pair_wf)). Defined.
