(* ===== verification/FixedBuffer.v ===== *)
(** * The fixed-buffer memory resource

    Models [lib/core/include/irods/fixed_buffer_resource.hpp]: a first-fit
    allocator inside one buffer, with its headers linked through the buffer.

    Memory is a map from addresses to the headers placed there and a map from
    addresses to the [void*] cells the allocator writes in front of the pointers it
    returns; a null pointer is [None], addresses are [Z] and [std::size_t]
    arithmetic wraps at 64 bits. The sizes are those of an LP64 target. The
    abstract state is the list of blocks in address order ([block]), and [rep]
    relates the two. *)

From stdpp Require Import base gmap list.
From Stdlib Require Import ZArith Lia.
From S2P Require Import Prelude.

Open Scope Z_scope.

(** ** The code *)

Definition size_t (z : Z) : Z := z mod 2 ^ 64.

Definition sizeof_ptr : Z := 8.
Definition sizeof_header : Z := 32.
Definition alignof_header : Z := 8.

Record header := mk_header {
  h_size : Z;
  h_prev : option Z;
  h_next : option Z;
  h_used : bool;
}.

Record fixed_buffer := mk_buffer {
  buffer_ : Z;
  buffer_size_ : Z;
  allocated_ : Z;
  headers_ : option Z;
  mem_headers : gmap Z header;
  mem_cells : gmap Z Z;
}.

#[export] Instance header_eq_dec : EqDecision header.
Proof. solve_decision. Defined.

(** What a call of [do_allocate] comes to. [Undefined] is the use of a pointer
    to no header, [Out_of_fuel] a loop that was given too little fuel. *)
Inductive outcome : Type :=
| Returned (p : Z) (s : fixed_buffer)
| Bad_alloc (s : fixed_buffer)
| Undefined
| Out_of_fuel.

Definition align_up (alignment p : Z) : Z := (p + alignment - 1) / alignment * alignment.

(** [std::align(alignment, size, ptr, space)]: the new pointer and the space left. *)
Definition std_align (alignment sz ptr space : Z) : option (Z * Z) :=
  let diff := align_up alignment ptr - ptr in
  if decide (sz <= space /\ diff <= space - sz)
  then Some (align_up alignment ptr, space - diff) else None.

Definition set_cell (a v : Z) (s : fixed_buffer) : fixed_buffer :=
  mk_buffer (buffer_ s) (buffer_size_ s) (allocated_ s) (headers_ s)
    (mem_headers s) (<[a := v]> (mem_cells s)).

Definition set_header (a : Z) (h : header) (s : fixed_buffer) : fixed_buffer :=
  mk_buffer (buffer_ s) (buffer_size_ s) (allocated_ s) (headers_ s)
    (<[a := h]> (mem_headers s)) (mem_cells s).

Definition set_allocated (n : Z) (s : fixed_buffer) : fixed_buffer :=
  mk_buffer (buffer_ s) (buffer_size_ s) n (headers_ s) (mem_headers s) (mem_cells s).

(** Assignments through a pointer to a header. *)
Definition update_header (a : Z) (f : header -> header) (s : fixed_buffer) : option fixed_buffer :=
  h ← mem_headers s !! a; Some (set_header a (f h) s).

(** [h->prev = pv] *)
Definition set_prev (pv : option Z) (h : header) : header :=
  mk_header (h_size h) pv (h_next h) (h_used h).

(** The constructor. [header_storage] keeps the address before [std::align]
    moves [buffer_]. *)
Definition fixed_buffer_resource (_buffer : option Z) (_buffer_size : Z) : res fixed_buffer :=
  match _buffer with
  | None => Throw Estd
  | Some b =>
      if _buffer_size <=? 0 then Throw Estd else
      let header_storage := b in
      match std_align alignof_header sizeof_ptr b _buffer_size with
      | None => Throw Estd
      | Some (aligned, space_remaining) =>
          if space_remaining <=? sizeof_header then Throw Estd else
          Ok (mk_buffer aligned _buffer_size 0 (Some header_storage)
                {[ header_storage :=
                     mk_header (space_remaining - sizeof_header) None None false ]} ∅)
      end
  end.

Definition allocated (s : fixed_buffer) : Z := allocated_ s.

Definition address_of_data_segment (_h : Z) : Z := _h + sizeof_header.

Definition aligned_pointer (_bytes _alignment _h : Z) (hd : header) (s : fixed_buffer) :
    option (Z * Z * fixed_buffer) :=
  let data := address_of_data_segment _h in
  let aligned_ptr := data + sizeof_ptr in
  let space_remaining := size_t (h_size hd - sizeof_ptr) in
  '(aligned_ptr, space_remaining) ← std_align _alignment _bytes aligned_ptr space_remaining;
  if space_remaining <? _bytes then None
  else Some (aligned_ptr, space_remaining, set_cell (aligned_ptr - sizeof_ptr) data s).

(** [None]: [_h] or a link of it points to no header; [Some (None, _)]: the code
    returns [nullptr]. *)
Definition allocate_block (_bytes _alignment _h : Z) (s : fixed_buffer) :
    option (option Z * fixed_buffer) :=
  hd ← mem_headers s !! _h;
  if h_used hd then Some (None, s)
  else if _bytes =? h_size hd then
    match aligned_pointer _bytes _alignment _h hd s with
    | None => Some (None, s)
    | Some (aligned_ptr, _, s) =>
        s ← update_header _h (fun h => mk_header (h_size h) (h_prev h) (h_next h) true) s;
        Some (Some aligned_ptr, set_allocated (size_t (allocated_ s + _bytes)) s)
    end
  else
    let required_space := size_t (sizeof_ptr + _bytes + _alignment - 1) in
    if required_space <=? h_size hd then
      match aligned_pointer _bytes _alignment _h hd s with
      | None => Some (None, s)
      | Some (aligned_ptr, space_remaining, s) =>
          let space_remaining := size_t (space_remaining - _bytes) in
          let s := set_allocated (size_t (allocated_ s + _bytes)) s in
          if space_remaining <=? sizeof_header + alignof_header - 1 then
            s ← update_header _h (fun h => mk_header _bytes (h_prev h) (h_next h) true) s;
            Some (Some aligned_ptr, s)
          else
            match std_align alignof_header sizeof_header (aligned_ptr + _bytes) space_remaining with
            | None => Some (None, s)
            | Some (new_header, space_remaining) =>
                let s := set_header new_header
                  (mk_header (size_t (space_remaining - sizeof_header)) (Some _h) (h_next hd) false) s in
                s ← match h_next hd with
                    | None => Some s
                    | Some next_header =>
                        update_header next_header (set_prev (Some new_header)) s
                    end;
                s ← update_header _h
                      (fun h => mk_header _bytes (h_prev h) (Some new_header) true) s;
                Some (Some aligned_ptr, s)
            end
      end
    else Some (None, s).

(** The loop [for (auto* h = headers_; h; h = h->next)] of [do_allocate]. *)
Fixpoint allocate_loop (fuel : nat) (_bytes _alignment : Z) (h : option Z) (s : fixed_buffer) :
    outcome :=
  match h with
  | None => Bad_alloc s
  | Some a =>
      match fuel with
      | O => Out_of_fuel
      | S fuel =>
          match allocate_block _bytes _alignment a s with
          | None => Undefined
          | Some (Some p, s) => Returned p s
          | Some (None, s) =>
              match mem_headers s !! a with
              | None => Undefined
              | Some hd => allocate_loop fuel _bytes _alignment (h_next hd) s
              end
          end
      end
  end.

Definition do_allocate (fuel : nat) (_bytes _alignment : Z) (s : fixed_buffer) : outcome :=
  allocate_loop fuel _bytes _alignment (headers_ s) s.

Definition calculate_size_for_coalescing (_h1 : Z) (h2 : header) (s : fixed_buffer) : Z :=
  let start := address_of_data_segment _h1 in
  match h_next h2 with
  | Some header_after_h2 => size_t (header_after_h2 - start)
  | None => size_t (buffer_ s + buffer_size_ s - start)
  end.

Definition coalesce_with_next_unused_block (_h : option Z) (s : fixed_buffer) :
    option fixed_buffer :=
  match _h with
  | None => Some s
  | Some a =>
      hd ← mem_headers s !! a;
      if h_used hd then Some s
      else
        match h_next hd with
        | None => Some s
        | Some header_to_remove =>
            rd ← mem_headers s !! header_to_remove;
            if h_used rd then Some s
            else
              let sz := calculate_size_for_coalescing a rd s in
              s ← update_header a (fun h => mk_header sz (h_prev h) (h_next rd) (h_used h)) s;
              match h_next rd with
              | None => Some s
              | Some new_next_header =>
                  update_header new_next_header (set_prev (Some a)) s
              end
        end
  end.

Definition do_deallocate (_p _bytes _alignment : Z) (s : fixed_buffer) : option fixed_buffer :=
  data ← mem_cells s !! (_p - sizeof_ptr);
  let h := data - sizeof_header in
  s ← update_header h (fun x => mk_header (h_size x) (h_prev x) (h_next x) false) s;
  s ← coalesce_with_next_unused_block (Some h) s;
  hd ← mem_headers s !! h;
  s ← coalesce_with_next_unused_block (h_prev hd) s;
  Some (set_allocated (size_t (allocated_ s - _bytes)) s).

(** ** The abstract state *)

(** A block: the address of its header, the size the header records, and the
    pointer handed to the client while the block is in use. *)
Record block := mk_block { b_addr : Z; b_size : Z; b_use : option Z }.

#[export] Instance block_eq_dec : EqDecision block.
Proof. solve_decision. Defined.

Definition b_used (b : block) : bool := match b_use b with Some _ => true | None => false end.
Definition b_data (b : block) : Z := b_addr b + sizeof_header.

(** Where the memory of a block ends: at the next header or at the buffer's end. *)
Definition next_addr (E : Z) (l : list block) : Z :=
  match l with [] => E | b :: _ => b_addr b end.

(** The block's header is aligned, its size fits, and a client pointer leaves room
    for the cell in front of it and lies with its bytes inside the block. *)
Record block_ok (e : Z) (b : block) : Prop := {
  ok_addr : 0 <= b_addr b;
  ok_align : b_addr b mod alignof_header = 0;
  ok_size : 0 <= b_size b;
  ok_fit : b_data b + b_size b <= e;
  ok_use p : b_use b = Some p -> b_data b + sizeof_ptr <= p /\ p + b_size b <= e;
}.

Fixpoint layout (E : Z) (l : list block) : Prop :=
  match l with
  | [] => True
  | b :: l' => block_ok (next_addr E l') b /\ layout E l'
  end.

(** The doubly linked list of headers in memory. *)
Fixpoint chain (H : gmap Z header) (prev : option Z) (l : list block) (next : option Z) : Prop :=
  match l with
  | [] => True
  | b :: l' =>
      H !! b_addr b =
        Some (mk_header (b_size b) prev (from_option (Some ∘ b_addr) next (head l')) (b_used b)) /\
      chain H (Some (b_addr b)) l' next
  end.

Definition cell_ok (C : gmap Z Z) (b : block) : Prop :=
  forall p, b_use b = Some p -> C !! (p - sizeof_ptr) = Some (b_data b).

Definition used_bytes (l : list block) : Z :=
  foldr (fun b n => (if b_used b then b_size b else 0) + n) 0 l.

(** The allocator's memory holds the blocks [l]. *)
Record rep (s : fixed_buffer) (l : list block) : Prop := {
  rep_end : buffer_ s + buffer_size_ s < 2 ^ 63;
  rep_layout : layout (buffer_ s + buffer_size_ s) l;
  rep_chain : chain (mem_headers s) None l None;
  rep_head : headers_ s = b_addr <$> head l;
  rep_cells : Forall (cell_ok (mem_cells s)) l;
  rep_allocated : allocated_ s = used_bytes l;
}.

(** *** What the operations do to the list of blocks *)

Definition required (bytes alignment : Z) : Z := sizeof_ptr + bytes + alignment - 1.

Definition fits (bytes alignment : Z) (b : block) : bool :=
  negb (b_used b) && (required bytes alignment <=? b_size b).

Definition client_ptr (alignment : Z) (b : block) : Z :=
  align_up alignment (b_data b + sizeof_ptr).

(** A block taken for a request, with the block made of what is left. *)
Definition carve (bytes alignment : Z) (b : block) : list block :=
  let p := client_ptr alignment b in
  let left_over := b_data b + b_size b - (p + bytes) in
  let n := align_up alignof_header (p + bytes) in
  mk_block (b_addr b) bytes (Some p) ::
  (if left_over <=? sizeof_header + alignof_header - 1 then []
   else [mk_block n (b_data b + b_size b - (n + sizeof_header)) None]).

Fixpoint first_fit (bytes alignment : Z) (l : list block) : option (Z * list block) :=
  match l with
  | [] => None
  | b :: l' =>
      if fits bytes alignment b
      then Some (client_ptr alignment b, carve bytes alignment b ++ l')
      else '(p, l'') ← first_fit bytes alignment l'; Some (p, b :: l'')
  end.

Definition set_free (b : block) : block := mk_block (b_addr b) (b_size b) None.

(** An unused block takes in an unused block after it, up to where that one ended. *)
Definition merge (E : Z) (b : block) (l : list block) : list block :=
  match l with
  | [] => [b]
  | c :: l' =>
      if b_used b || b_used c then b :: l
      else mk_block (b_addr b) (next_addr E l' - b_data b) None :: l'
  end.

(** Freeing the block in use at [p]: it merges with the block after it, and the
    block before it with the result. *)
Fixpoint release (E p : Z) (l : list block) : list block :=
  match l with
  | [] => []
  | b :: l' =>
      if decide (b_use b = Some p) then merge E (set_free b) l'
      else
        match l' with
        | [] => [b]
        | c :: l'' =>
            if decide (b_use c = Some p)
            then merge E b (merge E (set_free c) l'')
            else b :: release E p l'
        end
  end.

(** ** Alignment and word arithmetic *)

Lemma align_up_bounds a p : 0 < a -> p <= align_up a p <= p + a - 1.
Proof. intros Ha. unfold align_up. Z.to_euclidean_division_equations. nia. Qed.

Lemma align_up_mod a p : 0 < a -> align_up a p mod a = 0.
Proof. intros Ha. unfold align_up. apply Z.mod_mul. lia. Qed.

Lemma size_t_small z : 0 <= z < 2 ^ 64 -> size_t z = z.
Proof. apply Z.mod_small. Qed.

Lemma std_align_some a sz p space :
  sz + (align_up a p - p) <= space -> p <= align_up a p ->
  std_align a sz p space = Some (align_up a p, space - (align_up a p - p)).
Proof. intros H1 H2. unfold std_align. rewrite decide_True by lia. done. Qed.

(** ** Layout and links *)

Lemma layout_app E l1 l2 :
  layout E (l1 ++ l2) <-> layout (next_addr E l2) l1 /\ layout E l2.
Proof.
  induction l1 as [|b l1 IH]; simpl; [tauto|]. rewrite IH.
  assert (next_addr E (l1 ++ l2) = next_addr (next_addr E l2) l1) as -> by by destruct l1.
  tauto.
Qed.

Lemma layout_bounds E l b :
  layout E l -> b ∈ l -> next_addr E l <= b_addr b /\ b_addr b < b_data b /\ b_data b <= E.
Proof.
  revert b. induction l as [|c l IH]; intros b Hl Hin; [by apply not_elem_of_nil in Hin|].
  destruct Hl as [Hc Hl]. destruct Hc as [? ? ? Hfit _]. unfold b_data, sizeof_header in *.
  assert (next_addr E l <= E) as Hn.
  { destruct l as [|d l]; simpl; [lia|]. destruct (IH d Hl); [by left|lia]. }
  apply elem_of_cons in Hin as [->|Hin]; simpl; [lia|].
  destruct (IH b Hl Hin). lia.
Qed.

Lemma next_addr_le E l : layout E l -> next_addr E l <= E.
Proof.
  destruct l as [|b l]; simpl; [lia|]. intros Hl.
  destruct (layout_bounds E (b :: l) b Hl); [by left|]. simpl in *. lia.
Qed.

Lemma chain_app H pv l1 l2 nx :
  chain H pv (l1 ++ l2) nx <->
  chain H pv l1 (from_option (Some ∘ b_addr) nx (head l2)) /\
  chain H (from_option (Some ∘ b_addr) pv (last l1)) l2 nx.
Proof.
  revert pv. induction l1 as [|b l1 IH]; intros pv; simpl; [tauto|].
  rewrite IH. clear IH. destruct l1 as [|c l1]; [simpl; tauto|].
  cbn [app head]. rewrite last_cons_cons. cbn [from_option]. 
  destruct (last (c :: l1)) as [x|] eqn:E; [simpl; tauto|]. by apply last_None in E.
Qed.

Lemma chain_insert_ne H pv l nx a h :
  Forall (fun b => b_addr b <> a) l -> chain (<[a := h]> H) pv l nx <-> chain H pv l nx.
Proof.
  revert pv. induction l as [|b l IH]; intros pv Hne; simpl; [done|].
  apply Forall_cons in Hne as [Hb Hl]. rewrite IH by done. by rewrite lookup_insert_ne.
Qed.

Lemma chain_ext H H' pv l nx :
  Forall (fun b => H' !! b_addr b = H !! b_addr b) l -> chain H pv l nx -> chain H' pv l nx.
Proof.
  revert pv. induction l as [|b l IH]; intros pv Hl Hc; [done|].
  apply Forall_cons in Hl as [Hb Hl]. destruct Hc as [Hc1 Hc2].
  split; [by rewrite Hb|by apply IH].
Qed.

(** The block at a position separates the addresses before it from those after it. *)
Lemma layout_split E pre b post :
  layout E (pre ++ b :: post) ->
  layout (b_addr b) pre /\ block_ok (next_addr E post) b /\ layout E post /\
  next_addr E post <= E /\
  Forall (fun c => b_data c <= b_addr b) pre /\
  Forall (fun c => next_addr E post <= b_addr c) post.
Proof.
  intros Hl. apply layout_app in Hl as [Hpre [Hb Hpost]]. split_and!; try done.
  - by apply next_addr_le.
  - apply Forall_forall. intros c Hc. apply (layout_bounds _ _ _ Hpre Hc).
  - apply Forall_forall. intros c Hc. apply (layout_bounds _ _ _ Hpost Hc).
Qed.

Definition with_headers (H : gmap Z header) (s : fixed_buffer) : fixed_buffer :=
  mk_buffer (buffer_ s) (buffer_size_ s) (allocated_ s) (headers_ s) H (mem_cells s).

Lemma update_header_alter a f s h :
  mem_headers s !! a = Some h ->
  update_header a f s = Some (with_headers (alter f a (mem_headers s)) s).
Proof.
  intros Ha. unfold update_header, set_header, with_headers. rewrite Ha. simpl.
  do 2 f_equal. apply map_eq. intros i. destruct (decide (i = a)) as [->|Hne].
  - by rewrite lookup_insert_eq, lookup_alter_eq, Ha.
  - by rewrite lookup_insert_ne, lookup_alter_ne.
Qed.

(** [relink]: the assignment [next->prev = pv] for the first header of [l], if any. *)
Definition relink (pv : option Z) (l : list block) (H : gmap Z header) : gmap Z header :=
  match l with [] => H | c :: _ => alter (set_prev pv) (b_addr c) H end.

Lemma relink_chain E H pv pv' l nx :
  layout E l -> chain H pv l nx -> chain (relink pv' l H) pv' l nx.
Proof.
  destruct l as [|c l]; [done|]. intros Hl [Hc1 Hc2]. cbn [relink].
  destruct (layout_split E [] c l Hl) as (_ & Hok & _ & _ & _ & Hpost).
  destruct Hok as [_ _ Hsz Hfit _]. unfold b_data, sizeof_header in *.
  split; [by rewrite lookup_alter_eq, Hc1|].
  eapply chain_ext; [|exact Hc2]. eapply Forall_impl; [exact Hpost|].
  intros d Hd. cbv beta in Hd. apply lookup_alter_ne. lia.
Qed.

Lemma relink_other pv E l H a :
  a < next_addr E l -> relink pv l H !! a = H !! a.
Proof. destruct l as [|c l]; [done|]. cbn. intros Ha. apply lookup_alter_ne. lia. Qed.

Lemma relink_cases pv E l s nx :
  chain (mem_headers s) nx l None -> layout E l ->
  match b_addr <$> head l with
  | None => Some s
  | Some a => update_header a (set_prev pv) s
  end = Some (with_headers (relink pv l (mem_headers s)) s).
Proof.
  destruct l as [|c l]; intros Hc _; cbn [head fmap option_fmap option_map relink].
  - by destruct s.
  - destruct Hc as [Hc _]. by apply (update_header_alter _ _ _ _ Hc).
Qed.

Lemma used_bytes_cons b l :
  used_bytes (b :: l) = (if b_used b then b_size b else 0) + used_bytes l.
Proof. done. Qed.

Lemma used_bytes_app l1 l2 : used_bytes (l1 ++ l2) = used_bytes l1 + used_bytes l2.
Proof. induction l1 as [|b l1 IH]; [done|]. cbn [app]. rewrite !used_bytes_cons, IH. lia. Qed.

(** Used bytes are inside the buffer, so the counter does not wrap. *)
Lemma used_bytes_bounds E l :
  layout E l -> 0 <= used_bytes l <= E - next_addr E l.
Proof.
  induction l as [|b l IH]; [cbn; lia|]. intros [[_ _ Hs Hf _] Hl].
  specialize (IH Hl). rewrite used_bytes_cons. cbn [next_addr].
  unfold b_data, sizeof_header in *. destruct (b_used b); lia.
Qed.

(** ** Allocation *)

Section allocate.
Context (bytes alignment : Z).
Context (Hbytes : 8 <= bytes < 2 ^ 63) (Halign : 0 < alignment <= 2 ^ 62).

Lemma required_small : size_t (sizeof_ptr + bytes + alignment - 1) = required bytes alignment.
Proof using Hbytes Halign.
  apply size_t_small. unfold required, sizeof_ptr. lia.
Qed.

(** A block that does not fit is left alone. *)
Lemma allocate_block_skip s b pv nx :
  mem_headers s !! b_addr b = Some (mk_header (b_size b) pv nx (b_used b)) ->
  0 <= b_size b < 2 ^ 63 -> fits bytes alignment b = false ->
  allocate_block bytes alignment (b_addr b) s = Some (None, s).
Proof using Hbytes Halign.
  intros Hh Hsz Hf. unfold allocate_block. rewrite Hh. cbn [mbind option_bind h_used h_size].
  unfold fits in Hf. destruct (b_used b) eqn:Eu; [done|]. cbn [negb andb] in Hf.
  apply Z.leb_gt in Hf.
  destruct (Z.eqb_spec bytes (b_size b)) as [He|Hne].
  - unfold aligned_pointer, std_align. cbn [h_size].
    rewrite size_t_small by (unfold sizeof_ptr; lia).
    rewrite decide_False; [done|]. unfold sizeof_ptr. lia.
  - rewrite required_small. by rewrite (proj2 (Z.leb_gt _ _)).
Qed.

(** The pointer and the space left for a block that fits. *)
Lemma aligned_pointer_fit s b hd :
  h_size hd = b_size b -> b_size b < 2 ^ 63 -> required bytes alignment <= b_size b ->
  aligned_pointer bytes alignment (b_addr b) hd s =
  Some (client_ptr alignment b, b_data b + b_size b - client_ptr alignment b,
        set_cell (client_ptr alignment b - sizeof_ptr) (b_data b) s).
Proof using Hbytes Halign.
  intros Hh Hsz Hreq. unfold aligned_pointer. rewrite Hh. unfold required in Hreq.
  unfold sizeof_ptr in *.
  rewrite size_t_small by lia.
  change (address_of_data_segment (b_addr b)) with (b_data b).
  pose proof (align_up_bounds alignment (b_data b + 8) ltac:(lia)) as Hal.
  rewrite std_align_some by lia. cbn [mbind option_bind].
  unfold client_ptr, sizeof_ptr.
  rewrite (proj2 (Z.ltb_ge _ _)) by lia. do 3 f_equal. lia.
Qed.

Lemma fits_inv b :
  fits bytes alignment b = true -> b_use b = None /\ required bytes alignment <= b_size b.
Proof.
  unfold fits, b_used. rewrite andb_true_iff, Z.leb_le.
  by destruct (b_use b); intros [? ?].
Qed.

Lemma client_ptr_bounds b :
  b_data b + sizeof_ptr <= client_ptr alignment b <= b_data b + sizeof_ptr + alignment - 1.
Proof using Halign. apply align_up_bounds. lia. Qed.

Lemma carve_layout E pre b post :
  layout E (pre ++ b :: post) -> fits bytes alignment b = true ->
  layout E (pre ++ carve bytes alignment b ++ post).
Proof using Hbytes Halign.
  intros Hl Hf. apply fits_inv in Hf as [_ Hreq]. unfold required in Hreq.
  pose proof (client_ptr_bounds b) as Hp.
  apply layout_app in Hl as [Hpre [[Ha Hal Hs Hfit _] Hpost]].
  apply layout_app. split; [done|]. unfold carve.
  pose proof (align_up_bounds alignof_header (client_ptr alignment b + bytes) ltac:(done)) as Hn.
  pose proof (align_up_mod alignof_header (client_ptr alignment b + bytes) ltac:(done)) as Hm.
  unfold b_data, sizeof_header, sizeof_ptr, alignof_header in *.
  destruct (Z.leb_spec (b_addr b + 32 + b_size b - (client_ptr alignment b + bytes)) (32 + 8 - 1));
    cbn [app layout next_addr]; split_and!; try done;
    constructor; cbn [b_addr b_size b_use] in *; unfold b_data, sizeof_header, sizeof_ptr, alignof_header;
    cbn [b_addr]; try done; try lia; intros q [= <-]; lia.
Qed.

Lemma carve_cells E C pre b post :
  layout E (pre ++ b :: post) -> fits bytes alignment b = true ->
  Forall (cell_ok C) (pre ++ b :: post) ->
  Forall (cell_ok (<[client_ptr alignment b - sizeof_ptr := b_data b]> C))
    (pre ++ carve bytes alignment b ++ post).
Proof using Hbytes Halign.
  intros Hl Hf Hc. apply fits_inv in Hf as [_ Hreq]. unfold required in Hreq.
  pose proof (client_ptr_bounds b) as Hp.
  pose proof (layout_split _ _ _ _ Hl) as (Hpre & [Ha Hal Hs Hfit _] & Hpost & _ & Hbef & Haft).
  rewrite Forall_app, Forall_cons in Hc. destruct Hc as (Hc1 & _ & Hc2).
  unfold b_data, sizeof_header, sizeof_ptr in *.
  rewrite !Forall_app. split_and!.
  - rewrite Forall_forall in Hc1 |- *. intros c Hin q Hq. rewrite lookup_insert_ne; [by apply Hc1|].
    apply list_elem_of_split in Hin as (l1 & l2 & ->).
    destruct (layout_split _ _ _ _ Hpre) as (_ & Hok & _ & Hle & _).
    pose proof (ok_use _ _ Hok q Hq). pose proof (ok_size _ _ Hok). unfold sizeof_ptr. lia.
  - unfold carve. constructor.
    + intros q [= <-]. by rewrite lookup_insert_eq.
    + destruct (_ <=? _); by repeat constructor.
  - rewrite Forall_forall in Hc2, Haft |- *. intros c Hin q Hq. rewrite lookup_insert_ne; [by apply Hc2|].
    specialize (Haft c Hin). apply list_elem_of_split in Hin as (l1 & l2 & ->).
    destruct (layout_split _ _ _ _ Hpost) as (_ & Hok & _ & Hle & _).
    pose proof (ok_use _ _ Hok q Hq). pose proof (ok_size _ _ Hok).
    unfold b_data, sizeof_header, sizeof_ptr in *. lia.
Qed.

Lemma carve_used_bytes b : b_use b = None ->
  used_bytes (carve bytes alignment b) = used_bytes [b] + bytes.
Proof.
  intros Hu. unfold carve. rewrite !used_bytes_cons. unfold b_used. rewrite Hu.
  cbn [b_use b_size]. destruct (_ <=? _); cbn; lia.
Qed.

(** The links after the block taken was shortened in place. *)
Lemma shrink_chain E H pre b b' post f :
  layout E (pre ++ b :: post) -> chain H None (pre ++ b :: post) None ->
  b_addr b' = b_addr b ->
  (forall pv nx, f (mk_header (b_size b) pv nx (b_used b)) = mk_header (b_size b') pv nx (b_used b')) ->
  chain (alter f (b_addr b) H) None (pre ++ b' :: post) None.
Proof.
  intros Hl Hc Ha Hf.
  pose proof (layout_split _ _ _ _ Hl) as (_ & [_ _ Hs Hfit _] & _ & _ & Hbef & Haft).
  apply chain_app in Hc as [Hc1 [Hc2 Hc3]]. apply chain_app. cbn [head from_option chain] in *.
  unfold b_data, sizeof_header in *. cbn [compose] in *. rewrite Ha. split_and!.
  - eapply chain_ext; [|exact Hc1]. eapply Forall_impl; [exact Hbef|].
    intros c Hc. cbv beta in Hc. apply lookup_alter_ne. unfold b_data, sizeof_header in Hc. lia.
  - by rewrite lookup_alter_eq, Hc2; cbn; rewrite Hf.
  - eapply chain_ext; [|exact Hc3]. eapply Forall_impl; [exact Haft|].
    intros c Hc. cbv beta in Hc. apply lookup_alter_ne. lia.
Qed.

(** The links after a new block [c] was placed between [b] and what follows it. *)
Lemma split_chain E H pre b b' c post f :
  layout E (pre ++ b :: post) -> chain H None (pre ++ b :: post) None ->
  b_addr b' = b_addr b -> b_addr b < b_addr c < next_addr E post -> b_use c = None ->
  (forall pv nx, f (mk_header (b_size b) pv nx (b_used b)) =
     mk_header (b_size b') pv (Some (b_addr c)) (b_used b')) ->
  chain (alter f (b_addr b)
    (relink (Some (b_addr c)) post
       (<[b_addr c := mk_header (b_size c) (Some (b_addr b)) (b_addr <$> head post) false]> H)))
    None (pre ++ b' :: c :: post) None.
Proof.
  intros Hl Hc Ha Hcn Hu Hf.
  pose proof (layout_split _ _ _ _ Hl) as (_ & [_ _ Hs Hfit _] & Hpost & _ & Hbef & Haft).
  apply chain_app in Hc as [Hc1 [Hc2 Hc3]]. apply chain_app. cbn [head from_option chain] in *.
  unfold b_data, sizeof_header in *. cbn [compose] in *. rewrite Ha. split_and!.
  - eapply chain_ext; [|exact Hc1]. eapply Forall_impl; [exact Hbef|].
    intros x Hx. cbv beta in Hx. unfold b_data, sizeof_header in Hx.
    rewrite lookup_alter_ne, (relink_other _ E), lookup_insert_ne by lia. done.
  - rewrite lookup_alter_eq, (relink_other _ E), lookup_insert_ne, Hc2 by lia. cbn. by rewrite Hf.
  - rewrite lookup_alter_ne, (relink_other _ E), lookup_insert_eq by lia.
    unfold b_used. rewrite Hu. by destruct post.
  - eapply chain_ext; [|eapply (relink_chain E); [done|apply chain_insert_ne; [|exact Hc3]]].
    + eapply Forall_impl; [exact Haft|]. intros x Hx. cbv beta in Hx. apply lookup_alter_ne. lia.
    + eapply Forall_impl; [exact Haft|]. intros x Hx. cbv beta in Hx. lia.
Qed.

(** The counter of allocated bytes does not wrap. *)
Lemma carve_allocated E pre b post :
  E < 2 ^ 63 -> layout E (pre ++ b :: post) -> fits bytes alignment b = true ->
  size_t (used_bytes (pre ++ b :: post) + bytes) =
  used_bytes (pre ++ carve bytes alignment b ++ post).
Proof using Hbytes Halign.
  intros He Hl Hf. pose proof (carve_layout _ _ _ _ Hl Hf) as Hl'.
  pose proof (used_bytes_bounds _ _ Hl') as Hub.
  assert (0 <= next_addr E (pre ++ carve bytes alignment b ++ post)) as H0.
  { destruct pre as [|d pre]; [|by destruct Hl as [[? _ _ _ _] _]].
    by destruct Hl as [[? _ _ _ _] _]. }
  destruct (fits_inv _ Hf) as [Hu _].
  assert (used_bytes (pre ++ b :: post) + bytes =
          used_bytes (pre ++ carve bytes alignment b ++ post)) as ->.
  { rewrite !used_bytes_app, carve_used_bytes, !used_bytes_cons by done. cbn. lia. }
  apply size_t_small. lia.
Qed.

(** What [allocate_block] computes for a block that fits. *)
Lemma allocate_block_fit s b pv nx :
  let p := client_ptr alignment b in
  let n := align_up alignof_header (p + bytes) in
  let s1 := set_allocated (size_t (allocated_ s + bytes)) (set_cell (p - sizeof_ptr) (b_data b) s) in
  mem_headers s !! b_addr b = Some (mk_header (b_size b) pv nx false) ->
  0 <= b_size b < 2 ^ 63 -> fits bytes alignment b = true ->
  allocate_block bytes alignment (b_addr b) s =
  if b_data b + b_size b - (p + bytes) <=? sizeof_header + alignof_header - 1
  then s' ← update_header (b_addr b) (fun h => mk_header bytes (h_prev h) (h_next h) true) s1;
       Some (Some p, s')
  else
    s' ← match nx with
         | None => Some (set_header n
                     (mk_header (b_data b + b_size b - (n + sizeof_header)) (Some (b_addr b)) nx false) s1)
         | Some a => update_header a (set_prev (Some n)) (set_header n
                     (mk_header (b_data b + b_size b - (n + sizeof_header)) (Some (b_addr b)) nx false) s1)
         end;
    s' ← update_header (b_addr b) (fun h => mk_header bytes (h_prev h) (Some n) true) s';
    Some (Some p, s').
Proof using Hbytes Halign.
  intros p n s1 Hh Hsz Hf. destruct (fits_inv _ Hf) as [_ Hreq].
  pose proof (client_ptr_bounds b) as Hp. fold p in Hp.
  pose proof (align_up_bounds alignof_header (p + bytes) ltac:(done)) as Hn. fold n in Hn.
  unfold allocate_block. rewrite Hh. cbn [mbind option_bind h_used h_size h_next].
  pose proof Hreq as Hreq'. unfold required, sizeof_ptr in Hreq'. unfold b_data, sizeof_header, sizeof_ptr in Hp.
  rewrite (proj2 (Z.eqb_neq _ _)), required_small by lia.
  rewrite (proj2 (Z.leb_le _ _)) by done. rewrite aligned_pointer_fit by (done || lia). fold p.
  rewrite (size_t_small (_ - p - bytes)) by (unfold b_data, sizeof_header; lia).
  replace (b_data b + b_size b - p - bytes) with (b_data b + b_size b - (p + bytes)) by lia.
  destruct (Z.leb_spec (b_data b + b_size b - (p + bytes)) (sizeof_header + alignof_header - 1)) as [|Hlt];
    [done|].
  unfold b_data, sizeof_header, alignof_header in Hlt, Hn.
  rewrite std_align_some by (fold n; unfold b_data, sizeof_header; lia). fold n.
  rewrite (size_t_small (_ - sizeof_header)) by (unfold b_data, sizeof_header; lia).
  replace (b_data b + b_size b - (p + bytes) - (n - (p + bytes)) - sizeof_header)
    with (b_data b + b_size b - (n + sizeof_header)) by lia.
  by destruct nx.
Qed.

Lemma insert_chain E H pv c h post :
  layout E post -> b_addr c < next_addr E post ->
  chain H pv post None -> chain (<[b_addr c := h]> H) pv post None.
Proof.
  intros Hl Hlt Hc. apply chain_insert_ne; [|done]. apply Forall_forall. intros d Hd.
  destruct (layout_bounds _ _ _ Hl Hd). lia.
Qed.

(** A block that fits is taken, and the memory represents the carved list. *)
Lemma allocate_block_take s pre b post :
  rep s (pre ++ b :: post) -> fits bytes alignment b = true ->
  exists s', allocate_block bytes alignment (b_addr b) s = Some (Some (client_ptr alignment b), s') /\
    rep s' (pre ++ carve bytes alignment b ++ post) /\
    buffer_ s' = buffer_ s /\ buffer_size_ s' = buffer_size_ s.
Proof using Hbytes Halign.
  intros [He Hl Hc Hh Hcells Hall] Hf.
  pose proof (carve_layout _ _ _ _ Hl Hf) as Hl'.
  pose proof (carve_cells _ _ _ _ _ Hl Hf Hcells) as Hcells'.
  pose proof (carve_allocated _ _ _ _ He Hl Hf) as Hall'. rewrite <- Hall in Hall'.
  destruct (fits_inv _ Hf) as [Hu Hreq].
  pose proof (layout_split _ _ _ _ Hl) as (Hpre & [Ha Hal Hs Hfit _] & Hpost & Hnext & _).
  pose proof (proj2 (proj1 (chain_app _ _ _ _ _) Hc)) as [Hb Hcp].
  assert (b_used b = false) as Hub by (unfold b_used; by rewrite Hu). rewrite Hub in Hb.
  assert (headers_ s = b_addr <$> head (pre ++ carve bytes alignment b ++ post)) as Hh'
    by (rewrite Hh; by destruct pre).
  assert (from_option (Some ∘ b_addr) None (head post) = b_addr <$> head post) as Hnx by by destruct post.
  rewrite Hnx in Hb.
  rewrite (allocate_block_fit _ _ _ _ Hb) by (done || (unfold b_data, sizeof_header in Hfit; lia)).
  rewrite Hall'. unfold carve in *. set (p := client_ptr alignment b) in *.
  set (n := align_up alignof_header (p + bytes)) in *.
  destruct (_ <=? _).
  - erewrite update_header_alter by exact Hb. cbn [mbind option_bind].
    eexists. split_and!; [done| |done|done]. constructor; try done.
    eapply shrink_chain; try done.
  - assert (b_addr b < n < next_addr (buffer_ s + buffer_size_ s) post) as Hn.
    { apply layout_app in Hl' as [_ [[_ _ _ Hx _] [[_ _ Hns Hnf _] _]]].
      unfold b_data, sizeof_header in Hx, Hns, Hnf.
      cbn [b_addr b_size next_addr app] in Hx, Hns, Hnf. lia. }
    set (c := mk_block n _ _) in *.
    rewrite (relink_cases _ (buffer_ s + buffer_size_ s) post _ (Some (b_addr b)))
      by (done || (apply (insert_chain (buffer_ s + buffer_size_ s) _ _ c); [done|apply Hn|exact Hcp])).
    cbn [mbind option_bind].
    erewrite update_header_alter.
    2:{ cbn [mem_headers with_headers set_header set_allocated set_cell].
        rewrite (relink_other _ (buffer_ s + buffer_size_ s)), lookup_insert_ne by lia. exact Hb. }
    eexists. split_and!; [done| |done|done]. constructor; try done.
    apply (split_chain (buffer_ s + buffer_size_ s) _ _ _ (mk_block (b_addr b) bytes (Some p)) c); done.
Qed.

Lemma allocate_loop_spec s l1 l2 fuel :
  rep s (l1 ++ l2) -> (length l2 <= fuel)%nat ->
  match first_fit bytes alignment l2 with
  | Some (p, l') => exists s',
      allocate_loop fuel bytes alignment (b_addr <$> head l2) s = Returned p s' /\
      rep s' (l1 ++ l') /\ buffer_ s' = buffer_ s /\ buffer_size_ s' = buffer_size_ s
  | None => allocate_loop fuel bytes alignment (b_addr <$> head l2) s = Bad_alloc s
  end.
Proof using Hbytes Halign.
  revert l1 fuel. induction l2 as [|b l2 IH]; intros l1 fuel Hr Hfuel; [by destruct fuel|].
  destruct fuel as [|fuel]; [simpl in Hfuel; lia|]. cbn [first_fit head fmap option_fmap option_map allocate_loop].
  destruct (fits bytes alignment b) eqn:Hf.
  - destruct (allocate_block_take _ _ _ _ Hr Hf) as (s' & -> & Hr' & ?). by exists s'.
  - pose proof Hr as [He Hl Hc _ _ _].
    pose proof (layout_split _ _ _ _ Hl) as (_ & [Ha _ Hs Hfit _] & _ & Hnext & _).
    pose proof (proj1 (proj2 (proj1 (chain_app _ _ _ _ _) Hc))) as Hb.
    rewrite (allocate_block_skip _ _ _ _ Hb) by (done || (unfold b_data, sizeof_header in Hfit; lia)).
    rewrite Hb. cbn [h_next].
    replace (from_option (Some ∘ b_addr) None (head l2)) with (b_addr <$> head l2) by by destruct l2.
    specialize (IH (l1 ++ [b]) fuel). rewrite <- app_assoc in IH.
    specialize (IH Hr ltac:(simpl in Hfuel; lia)).
    destruct (first_fit bytes alignment l2) as [[p l']|]; cbn [mbind option_bind]; [|done].
    destruct IH as (s' & ? & Hr' & ?). rewrite <- app_assoc in Hr'. by exists s'.
Qed.
End allocate.

(** ** Deallocation *)

Lemma merged_layout E pre b c post :
  layout E (pre ++ b :: c :: post) ->
  layout E (pre ++ mk_block (b_addr b) (next_addr E post - b_data b) None :: post).
Proof.
  intros Hl. apply layout_app in Hl as [Hpre [[Ha Hal Hs Hf _] [[_ _ Hcs Hcf _] Hpost]]].
  apply layout_app. split; [done|]. split; [|done].
  unfold b_data, sizeof_header in *. cbn [next_addr] in Hf.
  constructor; unfold b_data, sizeof_header; cbn [b_addr b_size b_use]; try done; lia.
Qed.

Lemma merged_chain E H pre b c post sz :
  layout E (pre ++ b :: c :: post) -> chain H None (pre ++ b :: c :: post) None ->
  b_used b = false ->
  chain (relink (Some (b_addr b)) post
    (alter (fun h => mk_header sz (h_prev h) (b_addr <$> head post) (h_used h)) (b_addr b) H))
    None (pre ++ mk_block (b_addr b) sz None :: post) None.
Proof.
  intros Hl Hc Hu.
  pose proof (layout_split _ _ _ _ Hl) as (_ & [_ _ Hs Hfit _] & [[_ _ Hcs Hcf _] Hpost] & _ & Hbef & _).
  cbn [next_addr] in Hfit. unfold b_data, sizeof_header in *.
  apply chain_app in Hc as [Hc1 [Hc2 [_ Hc3]]]. apply chain_app. cbn [head from_option chain compose b_addr] in *.
  split_and!.
  - eapply chain_ext; [|exact Hc1]. eapply Forall_impl; [exact Hbef|].
    intros x Hx. cbv beta in Hx. unfold b_data, sizeof_header in Hx.
    rewrite (relink_other _ E), lookup_alter_ne by lia. done.
  - rewrite (relink_other _ E), lookup_alter_eq, Hc2 by lia. cbn. rewrite Hu. by destruct post.
  - eapply relink_chain; [exact Hpost|]. eapply chain_ext; [|exact Hc3].
    apply Forall_forall. intros x Hx. apply lookup_alter_ne.
    destruct (layout_bounds _ _ _ Hpost Hx). lia.
Qed.

Lemma coalescing_size s pre b c post pv u :
  rep s (pre ++ b :: c :: post) ->
  calculate_size_for_coalescing (b_addr b) (mk_header (b_size c) pv (b_addr <$> head post) u) s =
  next_addr (buffer_ s + buffer_size_ s) post - b_data b.
Proof.
  intros [He Hl _ _ _ _].
  pose proof (merged_layout _ _ _ _ _ Hl) as Hl'.
  destruct (layout_split _ _ _ _ Hl') as (_ & [Ha _ Hs _ _] & _ & Hn & _).
  cbn [b_addr b_size] in *. unfold calculate_size_for_coalescing. cbn [h_next].
  unfold address_of_data_segment, b_data, sizeof_header in *.
  destruct post as [|d post]; cbn [head fmap option_fmap option_map next_addr] in *;
    apply size_t_small; lia.
Qed.

(** A successor that is in use, or no successor: nothing to coalesce. A block that
    is not in use takes its unused successor in. *)
Lemma coalesce_next s pre b post :
  rep s (pre ++ b :: post) ->
  exists s', coalesce_with_next_unused_block (Some (b_addr b)) s = Some s' /\
    rep s' (pre ++ merge (buffer_ s + buffer_size_ s) b post) /\
    buffer_ s' = buffer_ s /\ buffer_size_ s' = buffer_size_ s.
Proof.
  intros Hr. pose proof Hr as [He Hl Hc Hh Hcells Hall].
  pose proof (proj2 (proj1 (chain_app _ _ _ _ _) Hc)) as [Hb Hcp].
  unfold coalesce_with_next_unused_block. rewrite Hb. cbn [mbind option_bind h_used h_next].
  unfold merge. destruct post as [|c post].
  { cbn [head from_option]. exists s. by destruct (b_used b). }
  destruct (b_used b) eqn:Hub; [by exists s|]. cbn [head from_option compose orb].
  destruct Hcp as [Hcc Hcp].
  replace (from_option (Some ∘ b_addr) None (head post)) with (b_addr <$> head post) in Hcc
    by by destruct post.
  rewrite Hcc. cbn [mbind option_bind h_used h_next].
  destruct (b_used c) eqn:Huc; [by exists s|].
  rewrite (coalescing_size s pre b c post _ _ Hr).
  erewrite update_header_alter by exact Hb. cbn [mbind option_bind].
  pose proof (layout_split _ _ _ _ Hl) as (_ & [_ _ Hs Hfit _] & [_ Hpost] & _).
  pose proof (merged_chain _ _ _ _ _ _ (next_addr (buffer_ s + buffer_size_ s) post - b_data b) Hl Hc Hub) as Hc'.
  rewrite (relink_cases _ (buffer_ s + buffer_size_ s) post _ (Some (b_addr c))).
  2:{ eapply chain_ext; [|exact Hcp]. apply Forall_forall. intros x Hx. apply lookup_alter_ne.
      unfold b_data, sizeof_header in *. destruct (layout_split _ _ _ _ Hl) as (_ & _ & [[_ _ ? ? _] _] & _).
      destruct (layout_bounds _ _ _ Hpost Hx). cbn in Hfit. unfold b_data, sizeof_header in *. lia. }
  2: done.
  eexists. split_and!; [done| |done|done]. constructor; try done.
  - by eapply merged_layout.
  - cbn [with_headers headers_]. rewrite Hh. by destruct pre.
  - apply Forall_app in Hcells as [? Hcells]. apply Forall_app. split; [done|].
    rewrite !Forall_cons in Hcells. constructor; [by intros q [=]|apply Hcells].
  - cbn. rewrite Hall, !used_bytes_app, !used_bytes_cons, Hub, Huc. cbn. lia.
Qed.

(** The counter may be set before the links change. *)
Lemma update_header_allocated a f n s :
  update_header a f (set_allocated n s) = set_allocated n <$> update_header a f s.
Proof. unfold update_header. cbn. by destruct (mem_headers s !! a). Qed.

Lemma coalesce_allocated h n s :
  coalesce_with_next_unused_block h (set_allocated n s) =
  set_allocated n <$> coalesce_with_next_unused_block h s.
Proof.
  unfold coalesce_with_next_unused_block. destruct h as [a|]; [|done].
  cbn [set_allocated mem_headers]. destruct (mem_headers s !! a) as [hd|] eqn:Ea; [|done].
  cbn [mbind option_bind]. destruct (h_used hd); [done|]. destruct (h_next hd) as [r|]; [|done].
  destruct (mem_headers s !! r) as [rd|] eqn:Er; [|done]. cbn [mbind option_bind].
  destruct (h_used rd); [done|].
  rewrite update_header_allocated. unfold calculate_size_for_coalescing. cbn [buffer_ buffer_size_ set_allocated].
  destruct (update_header a _ s) as [s'|]; [|done]. cbn [mbind option_bind fmap option_fmap option_map].
  destruct (h_next rd); [apply update_header_allocated|done].
Qed.

(** An operation that commutes with setting the counter leaves it alone. *)
Lemma keeps_allocated (f : fixed_buffer -> option fixed_buffer) s s' :
  (forall n x, f (set_allocated n x) = set_allocated n <$> f x) ->
  f s = Some s' -> allocated_ s' = allocated_ s.
Proof.
  intros Hf Hs. specialize (Hf (allocated_ s) s).
  assert (set_allocated (allocated_ s) s = s) as Heq by by destruct s.
  rewrite Heq, Hs in Hf. cbn in Hf. apply (f_equal (fmap allocated_)) in Hf. by injection Hf.
Qed.

Lemma deallocate_alt p bytes alignment s :
  do_deallocate p bytes alignment s =
  (data ← mem_cells s !! (p - sizeof_ptr);
   s ← update_header (data - sizeof_header)
         (fun x => mk_header (h_size x) (h_prev x) (h_next x) false)
         (set_allocated (size_t (allocated_ s - bytes)) s);
   s ← coalesce_with_next_unused_block (Some (data - sizeof_header)) s;
   hd ← mem_headers s !! (data - sizeof_header);
   coalesce_with_next_unused_block (h_prev hd) s).
Proof.
  unfold do_deallocate. destruct (mem_cells s !! (p - sizeof_ptr)) as [data|]; [|done].
  cbn [mbind option_bind]. rewrite update_header_allocated.
  destruct (update_header _ _ s) as [s1|] eqn:E1; [|done].
  apply (keeps_allocated _ _ _ (fun n x => update_header_allocated _ _ n x)) in E1.
  cbn [mbind option_bind fmap option_fmap option_map]. rewrite coalesce_allocated.
  destruct (coalesce_with_next_unused_block _ s1) as [s2|] eqn:E2; [|done].
  apply (keeps_allocated _ _ _ (fun n x => coalesce_allocated _ n x)) in E2.
  cbn [mbind option_bind fmap option_fmap option_map]. cbn [set_allocated mem_headers].
  destruct (mem_headers s2 !! _) as [hd|]; [|done]. cbn [mbind option_bind].
  rewrite coalesce_allocated.
  destruct (coalesce_with_next_unused_block (h_prev hd) s2) as [s3|] eqn:E3; [|done].
  apply (keeps_allocated _ _ _ (fun n x => coalesce_allocated _ n x)) in E3.
  cbn. by rewrite E3, E2, E1.
Qed.

(** Freeing the block: its header says so, its bytes are no longer counted. *)
Lemma free_header s pre b post p :
  rep s (pre ++ b :: post) -> b_use b = Some p ->
  exists s1, update_header (b_addr b)
      (fun x => mk_header (h_size x) (h_prev x) (h_next x) false)
      (set_allocated (size_t (allocated_ s - b_size b)) s) = Some s1 /\
    rep s1 (pre ++ set_free b :: post) /\
    buffer_ s1 = buffer_ s /\ buffer_size_ s1 = buffer_size_ s.
Proof.
  intros [He Hl Hc Hh Hcells Hall] Hp.
  pose proof (proj1 (proj2 (proj1 (chain_app _ _ _ _ _) Hc))) as Hb.
  erewrite update_header_alter by exact Hb. eexists. split_and!; [done| |done|done].
  assert (layout (buffer_ s + buffer_size_ s) (pre ++ set_free b :: post)) as Hl'.
  { apply layout_app in Hl as [? [[] ?]]. apply layout_app. split; [done|]. split; [|done].
    by constructor. }
  constructor; try done.
  - eapply shrink_chain; try done.
  - cbn [with_headers headers_ set_allocated]. rewrite Hh. by destruct pre.
  - apply Forall_app in Hcells as [? Hcells]. apply Forall_app. split; [done|].
    rewrite Forall_cons in Hcells. constructor; [by intros q [=]|apply Hcells].
  - cbn [with_headers allocated_ set_allocated].
    assert (allocated_ s - b_size b = used_bytes (pre ++ set_free b :: post)) as ->.
    { rewrite Hall, !used_bytes_app, !used_bytes_cons. unfold b_used. rewrite Hp. cbn. lia. }
    pose proof (used_bytes_bounds _ _ Hl') as Hub. apply size_t_small.
    assert (0 <= next_addr (buffer_ s + buffer_size_ s) (pre ++ set_free b :: post)); [|lia].
    destruct pre; by destruct Hl' as [[? _ _ _ _] _].
Qed.

Lemma merge_cons E b l : exists b' l', merge E b l = b' :: l' /\ b_addr b' = b_addr b.
Proof. unfold merge. destruct l as [|c l]; [by eauto|]. destruct (_ || _); by eauto. Qed.

(** The blocks before one in use at [p] are not in use at [p]. *)
Lemma release_at E pre b post p :
  layout E (pre ++ b :: post) -> b_use b = Some p ->
  release E p (pre ++ b :: post) =
  match last pre with
  | None => merge E (set_free b) post
  | Some d => take (length pre - 1) pre ++ merge E d (merge E (set_free b) post)
  end.
Proof.
  intros Hl Hp. induction pre as [|c pre IH].
  { cbn. by rewrite decide_True. }
  pose proof (layout_split E (c :: pre) b post Hl) as (Hpre & Hb & _).
  destruct (ok_use _ _ Hb p Hp) as [Hp1 _].
  assert (b_use c <> Some p) as Hc.
  { intros Hu. destruct Hpre as [Hok Hpre]. destruct (ok_use _ _ Hok p Hu).
    pose proof (next_addr_le _ _ Hpre). pose proof (ok_size _ _ Hok).
    unfold b_data, sizeof_header, sizeof_ptr in *. lia. }
  destruct Hl as [_ Hl]. specialize (IH Hl). cbn [app release]. rewrite decide_False by done.
  destruct pre as [|d pre].
  { cbn [app last length take Nat.sub]. by rewrite decide_True. }
  cbn [app] in IH |- *. rewrite decide_False.
  - rewrite IH, last_cons_cons. destruct (last (d :: pre)) eqn:El; [|by apply last_None in El].
    cbn [length Nat.sub take app]. by rewrite Nat.sub_0_r.
  - intros Hu. destruct Hpre as [_ [Hok Hpre]]. destruct (ok_use _ _ Hok p Hu).
    pose proof (next_addr_le _ _ Hpre). pose proof (ok_size _ _ Hok).
    unfold b_data, sizeof_header, sizeof_ptr in *. lia.
Qed.

Lemma deallocate_at s pre b post p alignment :
  rep s (pre ++ b :: post) -> b_use b = Some p ->
  exists s', do_deallocate p (b_size b) alignment s = Some s' /\
    rep s' (release (buffer_ s + buffer_size_ s) p (pre ++ b :: post)) /\
    buffer_ s' = buffer_ s /\ buffer_size_ s' = buffer_size_ s.
Proof.
  intros Hr Hp. rewrite deallocate_alt.
  rewrite (release_at _ _ _ _ _ (rep_layout _ _ Hr) Hp).
  pose proof (rep_cells _ _ Hr) as Hcells. apply Forall_app in Hcells as [_ Hcells].
  apply Forall_cons in Hcells as [Hcell _]. rewrite (Hcell p Hp). cbn [mbind option_bind].
  replace (b_data b - sizeof_header) with (b_addr b) by (unfold b_data; lia).
  destruct (free_header _ _ _ _ _ Hr Hp) as (s1 & -> & Hr1 & Hb1 & Hs1). cbn [mbind option_bind].
  destruct (coalesce_next _ _ _ _ Hr1) as (s2 & Hc2 & Hr2 & Hb2 & Hs2).
  change (b_addr (set_free b)) with (b_addr b) in Hc2. rewrite Hc2. cbn [mbind option_bind].
  rewrite Hb1 in Hr2, Hb2. rewrite Hs1 in Hr2, Hs2.
  destruct (merge_cons (buffer_ s + buffer_size_ s) (set_free b) post) as (b2 & l2 & Hm & Ha).
  rewrite Hm in *. change (b_addr (set_free b)) with (b_addr b) in Ha. rewrite <- Ha.
  pose proof (proj1 (proj2 (proj1 (chain_app _ _ _ _ _) (rep_chain _ _ Hr2)))) as Hh.
  rewrite Hh. cbn [mbind option_bind h_prev].
  destruct (last pre) as [d|] eqn:El.
  - apply last_Some in El as (pre' & ->). rewrite length_app, Nat.add_sub, take_app_length.
    rewrite <- app_assoc in Hr2. cbn [from_option compose].
    destruct (coalesce_next _ _ _ _ Hr2) as (s3 & -> & Hr3 & Hb3 & Hs3).
    rewrite Hb2, Hs2 in *. by exists s3.
  - apply last_None in El as ->. cbn. by exists s2.
Qed.

(** ** Client allocations *)

(** The pointers and sizes the client holds. *)
Definition uses (l : list block) : list (Z * Z) :=
  omap (fun b => (fun p => (p, b_size b)) <$> b_use b) l.

Lemma elem_of_uses l p n :
  (p, n) ∈ uses l <-> exists b, b ∈ l /\ b_use b = Some p /\ b_size b = n.
Proof.
  unfold uses. rewrite list_elem_of_omap. split.
  - intros (b & Hb & Hu). apply fmap_Some in Hu as (q & Hq & [= -> ->]). by exists b.
  - intros (b & Hb & Hu & <-). exists b. by rewrite Hu.
Qed.

Lemma uses_app l1 l2 : uses (l1 ++ l2) = uses l1 ++ uses l2.
Proof. apply omap_app. Qed.

Lemma uses_unused b l : b_use b = None -> uses (b :: l) = uses l.
Proof. intros Hu. unfold uses. cbn. by rewrite Hu. Qed.

Lemma uses_merge E b l : uses (merge E b l) = uses (b :: l).
Proof.
  unfold merge. destruct l as [|c l]; [done|].
  destruct (b_used b) eqn:Eb; [done|]. destruct (b_used c) eqn:Ec; [done|].
  unfold b_used in Eb, Ec. cbn [orb].
  rewrite !uses_unused; try done; by destruct (b_use b), (b_use c).
Qed.

Lemma uses_carve bytes alignment b l :
  uses (carve bytes alignment b ++ l) = (client_ptr alignment b, bytes) :: uses l.
Proof. unfold carve. by destruct (_ <=? _). Qed.

Lemma uses_bounds E l p n :
  layout E l -> (p, n) ∈ uses l ->
  next_addr E l + sizeof_header + sizeof_ptr <= p /\ 0 <= n /\ p + n <= E.
Proof.
  intros Hl Hin. apply elem_of_uses in Hin as (b & Hin & Hu & <-).
  pose proof (layout_bounds _ _ _ Hl Hin) as [? _].
  apply list_elem_of_split in Hin as (pre & post & ->).
  destruct (layout_split _ _ _ _ Hl) as (_ & Hok & _ & Hle & _).
  destruct (ok_use _ _ Hok p Hu). pose proof (ok_size _ _ Hok).
  unfold b_data, sizeof_header, sizeof_ptr in *. lia.
Qed.

(** Different client pointers have disjoint bytes. *)
Lemma uses_disjoint E l p n q m :
  layout E l -> (p, n) ∈ uses l -> (q, m) ∈ uses l ->
  (p, n) = (q, m) \/ p + n < q \/ q + m < p.
Proof.
  induction l as [|b l IH]; intros Hl Hp Hq; [by apply not_elem_of_nil in Hp|].
  destruct Hl as [Hb Hl].
  destruct (b_use b) as [r|] eqn:Hu; [|rewrite uses_unused in Hp, Hq by done; by apply IH].
  assert (uses (b :: l) = (r, b_size b) :: uses l) as Hus by (unfold uses; cbn; by rewrite Hu).
  rewrite Hus in Hp, Hq. destruct (ok_use _ _ Hb r Hu) as [_ Hr].
  apply elem_of_cons in Hp as [[= -> ->]|Hp]; apply elem_of_cons in Hq as [[= -> ->]|Hq].
  - by left.
  - destruct (uses_bounds _ _ _ _ Hl Hq). unfold sizeof_header, sizeof_ptr in *. lia.
  - destruct (uses_bounds _ _ _ _ Hl Hp). unfold sizeof_header, sizeof_ptr in *. lia.
  - by apply IH.
Qed.

Lemma first_fit_inv bytes alignment l p l' :
  first_fit bytes alignment l = Some (p, l') ->
  exists pre b post, l = pre ++ b :: post /\ fits bytes alignment b = true /\
    p = client_ptr alignment b /\ l' = pre ++ carve bytes alignment b ++ post.
Proof.
  revert l'. induction l as [|b l IH]; intros l' H; [done|]. cbn [first_fit] in H.
  destruct (fits bytes alignment b) eqn:Hf.
  - injection H as <- <-. by exists [], b, l.
  - destruct (first_fit bytes alignment l) as [[q l'']|]; [|done].
    injection H as <- <-. destruct (IH _ eq_refl) as (pre & c & post & -> & ? & ? & ->).
    by exists (b :: pre), c, post.
Qed.

(** The operations of a client that allocates at least eight bytes at a time and
    frees what it was given, with the size it asked for. *)
Inductive client_step : fixed_buffer * gmap Z Z -> fixed_buffer * gmap Z Z -> Prop :=
| client_allocate fuel bytes alignment s live p s' :
    8 <= bytes < 2 ^ 63 -> 0 < alignment <= 2 ^ 62 ->
    do_allocate fuel bytes alignment s = Returned p s' ->
    client_step (s, live) (s', <[p := bytes]> live)
| client_deallocate s live p bytes alignment s' :
    live !! p = Some bytes ->
    do_deallocate p bytes alignment s = Some s' ->
    client_step (s, live) (s', delete p live).

Definition client_inv (b n : Z) (x : fixed_buffer * gmap Z Z) : Prop :=
  buffer_ x.1 = b /\ buffer_size_ x.1 = n /\
  exists l, rep x.1 l /\ next_addr (b + n) l = b /\
    forall p n, x.2 !! p = Some n <-> (p, n) ∈ uses l.

(** More fuel than needed changes nothing. *)
Lemma allocate_loop_mono fuel fuel' bytes alignment h s p s' :
  allocate_loop fuel bytes alignment h s = Returned p s' -> (fuel <= fuel')%nat ->
  allocate_loop fuel' bytes alignment h s = Returned p s'.
Proof.
  revert fuel' h s. induction fuel as [|fuel IH]; intros fuel' h s H Hle;
    destruct h as [a|]; try done; [].
  destruct fuel' as [|fuel']; [lia|]. cbn [allocate_loop] in *.
  destruct (allocate_block bytes alignment a s) as [[[q|] s1]|]; try done.
  destruct (mem_headers s1 !! a); [|done]. apply IH; [done|lia].
Qed.

Lemma do_allocate_spec fuel bytes alignment s l :
  8 <= bytes < 2 ^ 63 -> 0 < alignment <= 2 ^ 62 -> rep s l -> (length l <= fuel)%nat ->
  match first_fit bytes alignment l with
  | Some (p, l') => exists s', do_allocate fuel bytes alignment s = Returned p s' /\ rep s' l' /\
      p mod alignment = 0 /\ buffer_ s' = buffer_ s /\ buffer_size_ s' = buffer_size_ s
  | None => do_allocate fuel bytes alignment s = Bad_alloc s
  end.
Proof.
  intros Hb Ha Hr Hf. unfold do_allocate. rewrite (rep_head _ _ Hr).
  pose proof (allocate_loop_spec bytes alignment Hb Ha s [] l fuel Hr Hf) as H.
  destruct (first_fit bytes alignment l) as [[p l']|] eqn:Eff; [|done].
  destruct H as (s' & ? & ? & ?). exists s'. split_and!; try done; [|tauto|tauto].
  apply first_fit_inv in Eff as (_ & b & _ & _ & _ & -> & _). apply align_up_mod. lia.
Qed.

Lemma do_deallocate_spec s l b p alignment :
  rep s l -> b ∈ l -> b_use b = Some p ->
  exists s', do_deallocate p (b_size b) alignment s = Some s' /\
    rep s' (release (buffer_ s + buffer_size_ s) p l) /\
    buffer_ s' = buffer_ s /\ buffer_size_ s' = buffer_size_ s.
Proof.
  intros Hr Hin Hp. apply list_elem_of_split in Hin as (pre & post & ->).
  by apply deallocate_at.
Qed.

Lemma client_allocate_inv B N s live fuel bytes alignment p s' :
  client_inv B N (s, live) -> 8 <= bytes < 2 ^ 63 -> 0 < alignment <= 2 ^ 62 ->
  do_allocate fuel bytes alignment s = Returned p s' ->
  client_inv B N (s', <[p := bytes]> live).
Proof.
  intros (HB & HN & l & Hr & Hfst & Hlive) Hb Ha Hal. cbn [fst snd] in *.
  apply (allocate_loop_mono _ (fuel + length l)) in Hal; [|lia].
  pose proof (do_allocate_spec (fuel + length l) bytes alignment s l Hb Ha Hr ltac:(lia)) as H.
  unfold do_allocate in H. rewrite Hal in H.
  destruct (first_fit bytes alignment l) as [[q l']|] eqn:Eff; [|done].
  destruct H as (s'' & [= <- <-] & Hr' & _ & Hbuf & Hsz).
  apply first_fit_inv in Eff as (pre & b & post & -> & Hf & -> & ->).
  destruct (fits_inv _ _ _ Hf) as [Hu _].
  assert (forall q m, (q, m) ∈ uses (pre ++ carve bytes alignment b ++ post) <->
            (q, m) = (client_ptr alignment b, bytes) \/ (q, m) ∈ uses (pre ++ b :: post)) as Huses.
  { intros q m. rewrite uses_app, uses_carve, (uses_app pre (b :: post)), uses_unused by done.
    rewrite !elem_of_app, elem_of_cons. tauto. }
  split_and!; [by rewrite <- HB|by rewrite <- HN|].
  exists (pre ++ carve bytes alignment b ++ post). cbn [fst snd]. split_and!; [done| |].
  - rewrite <- Hfst at 2. by destruct pre.
  - intros q m. rewrite Huses. destruct (decide (q = client_ptr alignment b)) as [->|Hne].
    + rewrite lookup_insert_eq. split; [intros [= ->]; by left|].
      intros Hin. f_equal.
      assert ((client_ptr alignment b, bytes) ∈ uses (pre ++ carve bytes alignment b ++ post)) as H1
        by (apply Huses; by left).
      apply Huses in Hin. destruct (uses_bounds _ _ _ _ (rep_layout _ _ Hr') Hin) as (_ & ? & _).
      destruct (uses_disjoint _ _ _ _ _ _ (rep_layout _ _ Hr') H1 Hin) as [[= ->]|]; [done|lia].
    + rewrite lookup_insert_ne, Hlive by done. split; [by right|]. by intros [[= ? ?]|?].
Qed.

Lemma release_uses E l p q m :
  layout E l -> (exists n, (p, n) ∈ uses l) ->
  (q, m) ∈ uses (release E p l) <-> (q, m) ∈ uses l /\ q <> p.
Proof.
  intros Hl (n & Hp). pose proof Hp as Hp'. apply elem_of_uses in Hp as (b & Hin & Hu & <-).
  apply list_elem_of_split in Hin as (pre & post & ->).
  assert (uses (release E p (pre ++ b :: post)) = uses pre ++ uses post) as Heq.
  { rewrite release_at by done. destruct (last pre) as [d|] eqn:El.
    - apply last_Some in El as (pre' & ->). rewrite length_app, Nat.add_sub, take_app_length.
      rewrite !uses_app, uses_merge, <- app_assoc. f_equal.
      change (d :: merge E (set_free b) post) with ([d] ++ merge E (set_free b) post).
      by rewrite uses_app, uses_merge, (uses_unused (set_free b)).
    - apply last_None in El as ->. by rewrite uses_merge, uses_unused. }
  assert (uses (pre ++ b :: post) = uses pre ++ (p, b_size b) :: uses post) as Heq'.
  { rewrite uses_app. f_equal. unfold uses. cbn. by rewrite Hu. }
  destruct (layout_split _ _ _ _ Hl) as (Hpre & Hok & Hpost & _).
  destruct (ok_use _ _ Hok p Hu). pose proof (ok_size _ _ Hok).
  unfold b_data, sizeof_header, sizeof_ptr in *.
  rewrite Heq, Heq', !elem_of_app, elem_of_cons. split.
  - intros Hq. split; [tauto|]. intros ->. destruct Hq as [Hq|Hq].
    + destruct (uses_bounds _ _ _ _ Hpre Hq). lia.
    + destruct (uses_bounds _ _ _ _ Hpost Hq). unfold sizeof_header, sizeof_ptr in *. lia.
  - intros [[?|[[= ? ?]|?]] ?]; [by left|done|by right].
Qed.

Lemma release_next_addr E p l : next_addr E (release E p l) = next_addr E l.
Proof.
  destruct l as [|b l]; [done|]. cbn [release].
  destruct (decide (b_use b = Some p)).
  - destruct (merge_cons E (set_free b) l) as (? & ? & -> & Ha). exact Ha.
  - destruct l as [|c l]; [done|]. destruct (decide (b_use c = Some p)); [|done].
    destruct (merge_cons E b (merge E (set_free c) l)) as (? & ? & -> & Ha). exact Ha.
Qed.

Lemma client_deallocate_inv B N s live p bytes alignment s' :
  client_inv B N (s, live) -> live !! p = Some bytes ->
  do_deallocate p bytes alignment s = Some s' ->
  client_inv B N (s', delete p live).
Proof.
  intros (HB & HN & l & Hr & Hfst & Hlive) Hp Hd. cbn [fst snd] in *.
  apply Hlive in Hp as Hin. apply elem_of_uses in Hin as (b & Hin & Hu & <-).
  destruct (do_deallocate_spec s l b p alignment Hr Hin Hu) as (s'' & Hd' & Hr' & Hb & Hs).
  rewrite Hd in Hd'. injection Hd' as <-.
  rewrite HB, HN in *. split_and!; [done|done|].
  exists (release (B + N) p l). cbn [fst snd]. split_and!; [done| |].
  - by rewrite release_next_addr.
  - intros q m. pose proof (rep_layout _ _ Hr) as Hl. rewrite HB, HN in Hl.
    rewrite release_uses, <- Hlive by (done || (exists (b_size b); by apply Hlive)).
    rewrite lookup_delete_Some. split; intros [? ?]; split; congruence.
Qed.

Lemma client_step_inv B N x y : client_inv B N x -> client_step x y -> client_inv B N y.
Proof. intros Hx Hs. destruct Hs; eauto using client_allocate_inv, client_deallocate_inv. Qed.

Lemma constructed_inv b n s :
  0 <= b -> b mod alignof_header = 0 -> b + n < 2 ^ 63 ->
  fixed_buffer_resource (Some b) n = Ok s ->
  client_inv b n (s, ∅).
Proof.
  intros Hb Hal He. unfold fixed_buffer_resource. destruct (Z.leb_spec n 0); [done|].
  assert (align_up alignof_header b = b) as Hup.
  { unfold align_up, alignof_header in *. Z.to_euclidean_division_equations. lia. }
  unfold std_align. rewrite Hup. case_decide; [|done].
  destruct (Z.leb_spec (n - (b - b)) sizeof_header) as [|Hn]; [done|]. intros [= <-].
  split_and!; [done|done|]. exists [mk_block b (n - (b - b) - sizeof_header) None].
  unfold sizeof_header in *. split_and!; cbn [fst snd]; [|done|].
  - constructor; cbn; try done.
    + split; [|done]. constructor; unfold b_data, sizeof_header; cbn [b_addr b_size b_use]; try done; lia.
    + by rewrite lookup_singleton_eq.
    + constructor; [by intros q [=]|constructor].
  - intros p m. rewrite lookup_empty. cbn. split; [done|]. intros Hin. by apply not_elem_of_nil in Hin.
Qed.

Lemma uses_NoDup E l : layout E l -> NoDup (uses l).
Proof.
  induction l as [|b l IH]; [constructor|]. intros [Hb Hl]. specialize (IH Hl).
  destruct (b_use b) as [p|] eqn:Hu; [|by rewrite uses_unused].
  assert (uses (b :: l) = (p, b_size b) :: uses l) as -> by (unfold uses; cbn; by rewrite Hu).
  constructor; [|done]. intros Hin. destruct (uses_bounds _ _ _ _ Hl Hin).
  destruct (ok_use _ _ Hb p Hu). pose proof (ok_size _ _ Hb). unfold sizeof_header, sizeof_ptr in *. lia.
Qed.

Lemma used_bytes_uses l : used_bytes l = foldr Z.add 0 (snd <$> uses l).
Proof.
  induction l as [|b l IH]; [done|]. rewrite used_bytes_cons, IH.
  unfold uses, b_used. cbn. by destruct (b_use b).
Qed.

Lemma sum_Permutation (l1 l2 : list Z) : l1 ≡ₚ l2 -> foldr Z.add 0 l1 = foldr Z.add 0 l2.
Proof. induction 1; cbn [foldr]; lia. Qed.

Lemma client_inv_allocated B N s live :
  client_inv B N (s, live) -> allocated s = foldr Z.add 0 (snd <$> map_to_list live).
Proof.
  intros (_ & _ & l & Hr & _ & Hlive). cbn [fst snd] in *.
  unfold allocated. rewrite (rep_allocated _ _ Hr), used_bytes_uses.
  apply sum_Permutation, fmap_Permutation, NoDup_Permutation.
  - eapply uses_NoDup, rep_layout, Hr.
  - apply NoDup_map_to_list.
  - intros [p n]. by rewrite elem_of_map_to_list, Hlive.
Qed.

(** ** Properties *)

(** C24: For a request of at least 8 and less than 2^63 bytes with an alignment of at most 2^62,
    do_allocate implements first fit on the list of blocks: it takes the first unused block with
    room for the cell, the bytes and the alignment, carves the request and a new block out of
    it and returns an aligned pointer, or reports std::bad_alloc with nothing changed when no
    block has the room. One iteration per block is enough. Smaller requests are not covered:
    behind one of them the subtraction of the cell's size can wrap around and memory without
    room is handed out ([small_request_overlaps]). *)
Theorem do_allocate_refines fuel bytes alignment s l :
  8 <= bytes < 2 ^ 63 -> 0 < alignment <= 2 ^ 62 -> rep s l -> (length l <= fuel)%nat ->
  match first_fit bytes alignment l with
  | Some (p, l') => exists s', do_allocate fuel bytes alignment s = Returned p s' /\ rep s' l' /\
      p mod alignment = 0 /\ buffer_ s' = buffer_ s /\ buffer_size_ s' = buffer_size_ s
  | None => do_allocate fuel bytes alignment s = Bad_alloc s
  end.
Proof. apply do_allocate_spec. Qed.

(** Freeing a pointer the client holds, with its size, marks the block unused and
    merges it with unused neighbours up to the next header or the buffer's end; the
    links and the counter of allocated bytes stay right. *)
Theorem do_deallocate_refines s l b p alignment :
  rep s l -> b ∈ l -> b_use b = Some p ->
  exists s', do_deallocate p (b_size b) alignment s = Some s' /\
    rep s' (release (buffer_ s + buffer_size_ s) p l) /\
    buffer_ s' = buffer_ s /\ buffer_size_ s' = buffer_size_ s.
Proof. apply do_deallocate_spec. Qed.

(** C25: From an aligned buffer, whatever a client allocates (eight bytes or more at a
    time) and frees: its live allocations lie inside the buffer behind a header, do
    not overlap each other, can each be freed, and [allocated()] is their total. *)
Theorem client_allocations_disjoint b n s0 s live :
  0 <= b -> b mod alignof_header = 0 -> b + n < 2 ^ 63 ->
  fixed_buffer_resource (Some b) n = Ok s0 -> rtc client_step (s0, ∅) (s, live) ->
  (forall p k, live !! p = Some k ->
     b + sizeof_header + sizeof_ptr <= p /\ p + k <= b + n /\
     exists s', do_deallocate p k 1 s = Some s') /\
  (forall p k q m, live !! p = Some k -> live !! q = Some m -> p <> q -> p + k < q \/ q + m < p) /\
  allocated s = foldr Z.add 0 (snd <$> map_to_list live).
Proof.
  intros Hb Hal He Hc Hrtc. pose proof (constructed_inv _ _ _ Hb Hal He Hc) as H0.
  assert (client_inv b n (s, live)) as Hinv.
  { revert H0 Hrtc. generalize (s0, ∅ : gmap Z Z), (s, live). intros x y Hx Hrtc.
    induction Hrtc; eauto using client_step_inv. }
  split_and!; [| |by eapply client_inv_allocated].
  all: destruct Hinv as (HB & HN & l & Hr & Hfst & Hlive); cbn [fst snd] in *.
  all: pose proof (rep_layout _ _ Hr) as Hl; rewrite HB, HN in Hl.
  - intros p k Hp. apply Hlive in Hp. destruct (uses_bounds _ _ _ _ Hl Hp) as (? & _ & ?).
    apply elem_of_uses in Hp as (c & Hin & Hu & <-).
    destruct (do_deallocate_spec s l c p 1 Hr Hin Hu) as (s' & ? & _).
    rewrite Hfst in *. split_and!; eauto.
  - intros p k q m Hp Hq Hne. apply Hlive in Hp, Hq.
    destruct (uses_disjoint _ _ _ _ _ _ Hl Hp Hq) as [[= -> ->]|]; done.
Qed.

(** A block freed after an allocation that left no room for a new header keeps
    the size of that allocation for good when it is the only block: the same
    request, which the buffer served before, is then refused. *)
Theorem freed_block_not_reused fuel bytes alignment s b :
  8 <= bytes < 2 ^ 63 -> 0 < alignment <= 2 ^ 62 -> (1 <= fuel)%nat ->
  rep s [b] -> fits bytes alignment b = true ->
  b_data b + b_size b - (client_ptr alignment b + bytes) <= sizeof_header + alignof_header - 1 ->
  exists p s1 s2,
    do_allocate fuel bytes alignment s = Returned p s1 /\
    do_deallocate p bytes alignment s1 = Some s2 /\
    do_allocate fuel bytes alignment s2 = Bad_alloc s2.
Proof.
  intros Hb Ha Hf Hr Hfit Hleft.
  pose proof (do_allocate_spec fuel bytes alignment s [b] Hb Ha Hr Hf) as H1.
  cbn [first_fit] in H1. rewrite Hfit in H1. destruct H1 as (s1 & H1 & Hr1 & _).
  unfold carve in Hr1. rewrite (proj2 (Z.leb_le _ _) Hleft), app_nil_r in Hr1.
  set (c := mk_block (b_addr b) bytes (Some (client_ptr alignment b))) in *.
  destruct (do_deallocate_spec s1 [c] c (client_ptr alignment b) alignment Hr1)
    as (s2 & H2 & Hr2 & _); [by left|done|].
  cbn [release] in Hr2. rewrite decide_True in Hr2 by done.
  pose proof (do_allocate_spec fuel bytes alignment s2 [set_free c] Hb Ha Hr2 Hf) as H3.
  exists (client_ptr alignment b), s1, s2. split_and!; [done|done|].
  cbn [first_fit] in H3. unfold fits in H3. cbn [set_free c b_used b_use b_size negb andb] in H3.
  rewrite (proj2 (Z.leb_gt _ _)) in H3 by (unfold required, sizeof_ptr; lia). done.
Qed.

(** A sequence of operations, for the concrete runs below: [inl (bytes,
    alignment)] allocates, [inr (p, bytes)] frees. The result has the pointers
    returned, in order. *)
Fixpoint run (ops : list (Z * Z + Z * Z)) (s : fixed_buffer) : option (list Z * fixed_buffer) :=
  match ops with
  | [] => Some ([], s)
  | inl (bytes, alignment) :: ops =>
      match do_allocate 8 bytes alignment s with
      | Returned p s => '(ps, s) ← run ops s; Some (p :: ps, s)
      | _ => None
      end
  | inr (p, bytes) :: ops => s ← do_deallocate p bytes 1 s; run ops s
  end.

Definition start (b n : Z) (ops : list (Z * Z + Z * Z)) : option (list Z * fixed_buffer) :=
  match fixed_buffer_resource (Some b) n with Ok s => run ops s | Throw _ => None end.

(** Requests of fewer than eight bytes are not safe: a freed block of four bytes
    is reused for four bytes with a larger alignment, because the subtraction of
    the cell's size from the block's size wraps around, and the pointer returned
    lies inside the header of the next block, which is in use. *)
Theorem small_request_overlaps :
  exists s hd,
    start 1024 400 [inl (4, 1); inl (100, 1); inr (1064, 4); inl (4, 64)] =
      Some ([1064; 1112; 1088], s) /\
    mem_headers s !! 1072 = Some hd /\ h_used hd = true /\ h_size hd = 100 /\
    1072 <= 1088 /\ 1088 + 4 <= 1072 + sizeof_header.
Proof.
  destruct (start 1024 400 [inl (4, 1); inl (100, 1); inr (1064, 4); inl (4, 64)]) as [[ps s]|] eqn:E;
    [|vm_compute in E; discriminate].
  exists s, (mk_header 100 (Some 1024) (Some 1216) true).
  vm_compute in E. injection E as <- <-. by split_and!.
Qed.

(** The constructor aligns [buffer_] but builds the first header at the address it
    was given and keeps the buffer's size: with a buffer that is not aligned, a
    free block ends up reaching past the end of the buffer. *)
Theorem unaligned_buffer_overruns :
  exists s hd,
    start 1025 400 [inl (40, 1); inr (1065, 40)] = Some ([1065], s) /\
    mem_headers s !! 1025 = Some hd /\ h_used hd = false /\
    1025 + 400 < address_of_data_segment 1025 + h_size hd /\ 1025 mod alignof_header <> 0.
Proof.
  destruct (start 1025 400 [inl (40, 1); inr (1065, 40)]) as [[ps s]|] eqn:E;
    [|vm_compute in E; discriminate].
  exists s, (mk_header 375 None None false).
  vm_compute in E. injection E as <- <-. by split_and!.
Qed.

(** ** Witnesses *)

Definition example_buffer : fixed_buffer :=
  mk_buffer 1024 400 0 (Some 1024) {[ 1024 := mk_header 368 None None false ]} ∅.
Definition example_block : block := mk_block 1024 368 None.

Lemma example_rep : rep example_buffer [example_block].
Proof.
  constructor; try done. constructor; [by intros p [=]|constructor].
Qed.

Lemma do_allocate_refines_witness :
  exists s', do_allocate 1 100 16 example_buffer = Returned 1072 s' /\
    rep s' [mk_block 1024 100 (Some 1072); mk_block 1176 216 None].
Proof.
  destruct (do_allocate_refines 1 100 16 example_buffer [example_block]) as (s' & H1 & H2 & _);
    [done|done|exact example_rep|done|]. exists s'. by split.
Defined.

Definition example_used : fixed_buffer :=
  mk_buffer 1024 400 100 (Some 1024)
    {[ 1024 := mk_header 100 None (Some 1176) true; 1176 := mk_header 216 (Some 1024) None false ]}
    {[ 1064 := 1056 ]}.

Lemma example_used_rep : rep example_used [mk_block 1024 100 (Some 1072); mk_block 1176 216 None].
Proof.
  constructor; try done.
  - split; [|split; [|done]]; constructor; try done; intros p [= <-]; done.
  - constructor; [by intros p [= <-]|]. constructor; [by intros p [=]|constructor].
Qed.

Lemma do_deallocate_refines_witness :
  exists s', do_deallocate 1072 100 16 example_used = Some s' /\ rep s' [mk_block 1024 368 None].
Proof.
  destruct (do_deallocate_refines example_used [mk_block 1024 100 (Some 1072); mk_block 1176 216 None]
    (mk_block 1024 100 (Some 1072)) 1072 16) as (s' & H1 & H2 & _);
    [exact example_used_rep|by left|done|]. exists s'. by split.
Defined.

Lemma client_allocations_disjoint_witness :
  exists s, rtc client_step (example_buffer, ∅) (s, {[ 1072 := 100 ]}) /\ allocated s = 100.
Proof.
  destruct (do_allocate 1 100 16 example_buffer) as [p s| | |] eqn:E; try (vm_compute in E; discriminate).
  assert (p = 1072) as -> by (vm_compute in E; congruence).
  assert (rtc client_step (example_buffer, ∅) (s, {[ 1072 := 100 ]})) as Hrtc.
  { apply rtc_once. by apply (client_allocate 1 100 16). }
  exists s. split; [done|].
  apply (fun H1 H2 H3 H4 => proj2 (proj2
    (client_allocations_disjoint 1024 400 example_buffer s {[ 1072 := 100 ]} H1 H2 H3 H4 Hrtc))); done.
Defined.

Lemma freed_block_not_reused_witness :
  exists p s1 s2,
    do_allocate 1 328 1 example_buffer = Returned p s1 /\
    do_deallocate p 328 1 s1 = Some s2 /\ do_allocate 1 328 1 s2 = Bad_alloc s2.
Proof.
  apply (freed_block_not_reused 1 328 1 example_buffer example_block); try done.
  exact example_rep.
Defined.
