(* ===== verification/Coordinating.v ===== *)
(** * Votes of resource hierarchies

    The operation [RESOURCE_OP_RESOLVE_RESC_HIER] of the resource plugins: storage
    resources ([plugins/resources/unixfilesystem/src/unixfilesystem.cpp], and
    [nonblocking.cpp] and [univmss.cpp] the same way; [mockarchive.cpp]) ask
    [Voting], the coordinating ones ([passthru.cpp], [random.cpp],
    [deferred.cpp], [load_balanced.cpp], [replication/src/librepl.cpp]) ask
    their children. A call runs in [M] over the file object, which the replicas'
    votes are recorded in, and the random numbers still to be drawn; the parser and
    the vote it is given by reference are arguments and part of the answer.

    [resource_child_map] is a hash table: the children are the list of its entries
    in the order the table iterates. Votes are rationals. No policy enforcement
    point changes the result of a call. *)

From stdpp Require Import base gmap list strings.
From Stdlib Require Import ZArith Lia Ascii QArith Sorted.
From S2P Require Import Prelude Errors Numerals Hierarchy Rat Voting Kvp.
Local Open Scope Z_scope.
Local Set Warnings "-register-all".

Definition CREATE_OPERATION : string := "CREATE".
Definition WRITE_OPERATION : string := "WRITE".
Definition OPEN_OPERATION : string := "OPEN".
Definition UNLINK_OPERATION : string := "UNLINK".

Definition RESC_HIER_STR_KW : string := "resc_hier".
Definition MAX_ELAPSE_TIME : Z := 1800.

(** What the calls of one resolution share. *)
Record vstate := VState { v_obj : file_object; v_draws : list Z }.

(** [irods::error], the parser and the vote when the call returns. *)
Definition answer : Type := error * list bstr * Q.

(** [call(comm, RESOURCE_OP_RESOLVE_RESC_HIER, fco, &operation, &host, &parser, &vote)] *)
Definition resolver : Type := string -> bstr -> list bstr -> Q -> M vstate answer.

Definition set_replicas (rs : list physical_object) (s : vstate) : vstate :=
  VState (FileObject (f_size (v_obj s)) (f_repl_requested (v_obj s)) (f_cond_input (v_obj s)) rs)
    (v_draws s).

(** [irods::getRandom<T>() % n]; undefined for [n = 0]. *)
Definition random_index (n : nat) : M vstate nat := fun s =>
  match n with
  | O => (Throw Eundef, s)
  | _ => (Ok (Z.to_nat (from_option id 0 (head (v_draws s)) mod Z.of_nat n)),
          VState (v_obj s) (tail (v_draws s)))
  end.

Section plugins.
Context {L : LexicalCast} {B : BoostString}.
Context (table : rat).

(** ** Storage resources *)

(** [unix_file_resolve_hierarchy]; [props] are the resource's properties. *)
Definition unix_file_resolve_hierarchy (ps : props) : resolver :=
  fun opr host parser vote s =>
  let ctx := Context_ ps (v_obj s) host in
  match get_resource_name ctx with
  | Throw e => (Throw e, s)
  | Ok name =>
      let parser := (add_child name parser).2 in
      match calculate table opr ctx with
      | Ok (v, rs) => (Ok (SUCCESS, parser, v), set_replicas rs s)
      | Throw (Eirods code) => (Ok (ERROR code, parser, vote_zero), s)
      | Throw Estd => (Ok (ERROR INVALID_OPERATION, parser, vote_zero), s)
      | Throw e => (Throw e, s)
      end
  end.

(** [mock_archive_file_resolve_hierarchy]: no creation; the vote is not reset. *)
Definition mock_archive_file_resolve_hierarchy (ps : props) : resolver :=
  fun opr host parser vote s =>
  let ctx := Context_ ps (v_obj s) host in
  match get_string ps "resource_property_name" with
  | inl code => (Ok (ERROR code, parser, vote), s)
  | inr name =>
      let parser := (add_child name parser).2 in
      if String.eqb opr WRITE_OPERATION || String.eqb opr OPEN_OPERATION ||
         String.eqb opr UNLINK_OPERATION then
        match calculate table opr ctx with
        | Ok (v, rs) => (Ok (SUCCESS, parser, v), set_replicas rs s)
        | Throw (Eirods code) => (Ok (ERROR code, parser, vote), s)
        | Throw Estd => (Ok (ERROR INVALID_OPERATION, parser, vote), s)
        | Throw e => (Throw e, s)
        end
      else (Ok (ERROR SYS_INVALID_INPUT_PARAM, parser, vote), s)
  end.

(** ** Pass-through *)

(** [capture_weight]: a weight in the rule results first, then the resource's own. *)
Definition capture_weight (cast_double : bstr -> option Q) (rule_results : bstr)
    (weights : gmap string Q) (type : string) : Q :=
  let from_rule :=
    match rule_results with
    | [] => None
    | _ =>
        let kvp := (parse_kvp_string rule_results [] kvp_association kvp_delimiter).2 in
        smap_get (lit type) kvp ≫= cast_double
    end in
  match from_rule with
  | Some w => w
  | None => from_option id 1%Q (weights !! type)
  end.

(** [apply_weight_to_object_votes]; replicas before a malformed hierarchy have their
    new vote when its exception leaves the loop. *)
Fixpoint apply_weight_to_object_votes (name : bstr) (w : Q) (rs : list physical_object) :
    res unit * list physical_object :=
  match rs with
  | [] => (Ok tt, [])
  | r :: rs' =>
      match hierarchy_parser (po_resc_hier r) with
      | Throw e => (Throw e, rs)
      | Ok l =>
          let '(x, rs'') := apply_weight_to_object_votes name w rs' in
          (x, (if contains name l then set_vote (po_vote r * w) r else r) :: rs'')
      end
  end.

Definition passthru_file_resolve_hierarchy (cast_double : bstr -> option Q) (rule_results : bstr)
    (name : bstr) (weights : gmap string Q) (children : list (bstr * resolver)) : resolver :=
  fun opr host parser vote =>
  let parser := (add_child name parser).2 in
  match children with
  | [(_, child)] =>
      '(err, parser, vote) ← child opr host parser vote;
      let weighted w :=
        s ← get_state;
        let '(x, rs) := apply_weight_to_object_votes name w (f_replicas (v_obj s)) in
        _ ← put_state (set_replicas rs s);
        _ ← lift x;
        mret (err, parser, (vote * w)%Q) in
      if String.eqb opr OPEN_OPERATION then
        weighted (capture_weight cast_double rule_results weights "read")
      else if String.eqb opr CREATE_OPERATION || String.eqb opr WRITE_OPERATION then
        weighted (capture_weight cast_double rule_results weights "write")
      else mret (err, parser, vote)
  | _ => mret (ERROR (-1), parser, vote)
  end.

(** ** Random *)

(** [get_next_child_in_hier] *)
Definition get_next_child_in_hier (name hier : bstr) (children : list (bstr * resolver)) :
    res (error * option resolver) :=
  '(err, l) ← set_string hier;
  match err with
  | ERROR c => Ok (ERROR c, None)
  | SUCCESS =>
      match next_resc_error name l with
      | (ERROR c, _) => Ok (ERROR c, None)
      | (SUCCESS, next) =>
          match smap_get next children with
          | None => Ok (ERROR CHILD_NOT_FOUND, None)
          | Some child => Ok (SUCCESS, Some child)
          end
      end
  end.

(** [get_next_child_for_open_or_write]: the first replica below this resource. *)
Fixpoint get_next_child_for_open_or_write (name : bstr) (objs : list physical_object)
    (children : list (bstr * resolver)) : res (error * option resolver) :=
  match objs with
  | [] => Ok (ERROR REPLICA_NOT_IN_RESC, None)
  | r :: objs' =>
      '(_, l) ← set_string (po_resc_hier r);
      if negb (resc_in_hier name l) then get_next_child_for_open_or_write name objs' children
      else get_next_child_in_hier name (po_resc_hier r) children
  end.

(** The loop of [get_next_valid_child_resource]; it drops a candidate per
    iteration, so the number of candidates is enough fuel. *)
Fixpoint valid_child_loop (fuel : nat) (opr : string) (host : bstr) (parser : list bstr)
    (vote : Q) (candidates : list resolver) : M vstate answer :=
  match candidates with
  | [] => mret (ERROR NO_NEXT_RESC_FOUND, parser, vote)
  | _ =>
      match fuel with
      | O => throw Ediverge
      | S fuel =>
          i ← random_index (length candidates);
          match candidates !! i with
          | None => throw Eundef
          | Some resc =>
              '(err, hierarchy_copy, vote) ← resc opr host (hierarchy_parser_copy parser) vote;
              if error_ok err && negb (Qeq_bool vote 0)
              then mret (SUCCESS, hierarchy_copy, vote)
              else valid_child_loop fuel opr host parser vote (delete i candidates)
          end
      end
  end.

Definition get_next_valid_child_resource (children : list (bstr * resolver)) : resolver :=
  fun opr host parser vote =>
  let candidate_resources := children.*2 in
  valid_child_loop (length candidate_resources) opr host parser vote candidate_resources.

Definition is_open_write_unlink (opr : string) : bool :=
  String.eqb opr OPEN_OPERATION || String.eqb opr WRITE_OPERATION || String.eqb opr UNLINK_OPERATION.

Definition random_file_resolve_hierarchy (name : bstr) (children : list (bstr * resolver)) : resolver :=
  fun opr host parser vote =>
  let parser := (add_child name parser).2 in
  if is_open_write_unlink opr then
    s ← get_state;
    '(err, child) ← lift (get_next_child_for_open_or_write name (f_replicas (v_obj s)) children);
    match err, child with
    | SUCCESS, Some child => child opr host parser vote
    | ERROR c, _ =>
        if c =? REPLICA_NOT_IN_RESC then mret (SUCCESS, parser, 0%Q)
        else mret (ERROR c, parser, vote)
    | SUCCESS, None => throw Eundef
    end
  else if String.eqb opr CREATE_OPERATION then
    get_next_valid_child_resource children opr host parser vote
  else mret (ERROR INVALID_OPERATION, parser, vote).

(** ** Deferred *)

(** [std::map<float, hierarchy_parser>], by increasing vote. *)
Fixpoint result_map_set (v : Q) (p : list bstr) (m : list (Q * list bstr)) : list (Q * list bstr) :=
  match m with
  | [] => [(v, p)]
  | (w, q) :: m' =>
      if Qeq_bool v w then (w, p) :: m'
      else if Qle_bool v w then (v, p) :: m
      else (w, q) :: result_map_set v p m'
  end.

(** The loop over the children: the votes of those that answered. *)
Fixpoint collect_votes (opr : string) (host : bstr) (parser : list bstr)
    (children : list (bstr * resolver)) (m : list (Q * list bstr)) : M vstate (list (Q * list bstr)) :=
  match children with
  | [] => mret m
  | (_, resc) :: children' =>
      '(err, p, vote) ← resc opr host (hierarchy_parser_copy parser) 0%Q;
      collect_votes opr host parser children'
        (if error_ok err then result_map_set vote p m else m)
  end.

Definition deferred_redirect_for_operation (children : list (bstr * resolver)) : resolver :=
  fun opr host parser _ =>
  match children with
  | [] => mret (SUCCESS, parser, 0%Q)
  | _ =>
      result_map ← collect_votes opr host parser children [];
      match last result_map with
      | None => mret (SUCCESS, parser, 0%Q)
      | Some (high_vote, p) =>
          if negb (Qle_bool high_vote 0) then mret (SUCCESS, p, high_vote)
          else mret (SUCCESS, parser, 0%Q)
      end
  end.

Definition deferred_file_resolve_hierarchy (name : bstr) (children : list (bstr * resolver)) :
    resolver :=
  fun opr host parser vote =>
  let parser := (add_child name parser).2 in
  if is_open_write_unlink opr || String.eqb opr CREATE_OPERATION then
    deferred_redirect_for_operation children opr host parser vote
  else mret (ERROR INVALID_OPERATION, parser, vote).

(** ** Load balanced *)

(** [get_load_lists]: the rows of the query, or its status. *)
Definition get_load_lists (rows : Z + list (bstr * bstr * bstr)) : Z + list (bstr * Z * Z) :=
  match rows with
  | inl status => inl status
  | inr rs => inr ((fun '(name, load, time) => (name, atoi load, atoi time)) <$> rs)
  end.

(** The two loops of the create redirect: the child with the least recent load. *)
Definition better_load (time_now : Z) (name : bstr) (child : resolver)
    (acc : Z * option resolver) (row : bstr * Z * Z) : Z * option resolver :=
  let '(n, load, time) := row in
  let '(min_load, _) := acc in
  if bstr_eqb name n && (0 <=? load) && (load <? min_load) && (time_now - time <? MAX_ELAPSE_TIME)
  then (load, Some child) else acc.

Definition select_by_load (time_now : Z) (rows : list (bstr * Z * Z))
    (children : list (bstr * resolver)) : option resolver :=
  (foldl (fun acc '(name, child) => foldl (better_load time_now name child) acc rows)
     (100, None) children).2.

Definition load_balanced_redirect_for_create_operation (rows : Z + list (bstr * bstr * bstr))
    (time_now : Z) (children : list (bstr * resolver)) : resolver :=
  fun opr host parser vote =>
  match get_load_lists rows with
  | inl status => mret (ERROR status, parser, vote)
  | inr lists =>
      match select_by_load time_now lists children with
      | None => mret (ERROR CHILD_NOT_FOUND, parser, vote)
      | Some child =>
          '(_, p, v) ← child opr host (hierarchy_parser_copy parser) 0%Q;
          mret (SUCCESS, p, v)
      end
  end.

Definition load_balanced_redirect_for_open_operation (children : list (bstr * resolver)) : resolver :=
  fun opr host parser _ =>
  match children with
  | [] => mret (SUCCESS, parser, 0%Q)
  | _ =>
      result_map ← collect_votes opr host parser children [];
      match last result_map with
      | None => mret (SUCCESS, parser, 0%Q)
      | Some (high_vote, p) =>
          if Qeq_bool high_vote 0 then mret (SUCCESS, parser, 0%Q)
          else if negb (Qle_bool high_vote 0) then mret (SUCCESS, p, high_vote)
          else mret (ERROR (-1), parser, 0%Q)
      end
  end.

Definition load_balanced_file_resolve_hierarchy (rows : Z + list (bstr * bstr * bstr))
    (time_now : Z) (name : bstr) (children : list (bstr * resolver)) : resolver :=
  fun opr host parser vote =>
  let parser := (add_child name parser).2 in
  if is_open_write_unlink opr then
    load_balanced_redirect_for_open_operation children opr host parser vote
  else if String.eqb opr CREATE_OPERATION then
    load_balanced_redirect_for_create_operation rows time_now children opr host parser vote
  else mret (ERROR INVALID_OPERATION, parser, vote).

(** ** Replication *)

(** [redirect_map_t], a [std::multimap] by decreasing vote: an equal vote goes
    behind those already there. *)
Fixpoint redirect_map_insert (v : Q) (p : list bstr) (m : list (Q * list bstr)) :
    list (Q * list bstr) :=
  match m with
  | [] => [(v, p)]
  | (w, q) :: m' =>
      if Qle_bool v w then (w, q) :: redirect_map_insert v p m' else (v, p) :: m
  end.

(** The loop of [resolve_children]. [out_vote] is declared outside the loop: what a
    child leaves in it is what the next child starts with. *)
Fixpoint resolve_children_loop (opr : string) (host : bstr) (parser : list bstr) (out_vote : Q)
    (children : list (bstr * resolver)) (map : list (Q * list bstr)) (last_err : error) :
    M vstate (list (Q * list bstr) * error) :=
  match children with
  | [] => mret (map, last_err)
  | (_, resc) :: children' =>
      '(ret, p, out_vote) ← resc opr host (hierarchy_parser_copy parser) out_vote;
      match ret with
      | ERROR c =>
          if c =? CHILD_NOT_FOUND
          then resolve_children_loop opr host parser out_vote children'
                 (redirect_map_insert out_vote p map) last_err
          else resolve_children_loop opr host parser out_vote children' map ret
      | SUCCESS =>
          resolve_children_loop opr host parser out_vote children'
            (redirect_map_insert out_vote p map) last_err
      end
  end.

Definition resolve_children (opr : string) (host : bstr) (parser : list bstr)
    (children : list (bstr * resolver)) : M vstate (list (Q * list bstr) * error) :=
  match children with
  | [] => mret ([], ERROR CHILD_NOT_FOUND)
  | _ => resolve_children_loop opr host parser 0%Q children [] SUCCESS
  end.

Definition process_redirect_map_for_random_open (map : list (Q * list bstr)) :
    M vstate (list bstr * Q) :=
  let items := base.filter (fun i => negb (Qle_bool i.1 0)) map in
  rand_index ← random_index (length items);
  match items !! rand_index with
  | None => throw Eundef
  | Some (v, p) => mret (p, v)
  end.

(** [select_child]; [read] is the resource's [read] property. *)
Definition select_child (read : option bstr) (opr : string) (map : list (Q * list bstr))
    (parser : list bstr) : M vstate (list bstr * Q) :=
  match map with
  | [] => mret (parser, 0%Q)
  | (vote, p) :: _ =>
      if String.eqb opr OPEN_OPERATION && from_option (bstr_eqb (lit "random")) false read
      then process_redirect_map_for_random_open map
      else mret (p, vote)
  end.

Definition repl_file_resolve_hierarchy (name : bstr) (read : option bstr)
    (children : list (bstr * resolver)) : resolver :=
  fun opr host parser vote =>
  s ← get_state;
  match f_cond_input (v_obj s) !! RESC_HIER_STR_KW with
  | Some hier =>
      '(_, selected) ← lift (set_string (lit hier));
      mret (SUCCESS, selected, 1%Q)
  | None =>
      match add_child name parser with
      | (ERROR c, parser) => mret (ERROR c, parser, vote)
      | (SUCCESS, parser) =>
          '(redirect_map, last_err) ← resolve_children opr host parser children;
          match redirect_map with
          | [] => mret (last_err, parser, vote)
          | _ =>
              '(p, v) ← select_child read opr redirect_map parser;
              mret (SUCCESS, p, v)
          end
      end
  end.
End plugins.

(** ** Hierarchies of resources *)

(** A resource with its children: a child's key in the child map is its name. *)
Inductive node : Type :=
| Storage (ps : props)
| Archive (ps : props)
| Passthru (name : bstr) (rule_results : bstr) (weights : gmap string Q) (children : list (bstr * node))
| Random (name : bstr) (children : list (bstr * node))
| Deferred (name : bstr) (children : list (bstr * node))
| LoadBalanced (name : bstr) (rows : Z + list (bstr * bstr * bstr)) (children : list (bstr * node))
| Replication (name : bstr) (read : option bstr) (children : list (bstr * node)).

Section tree.
Context {L : LexicalCast} {B : BoostString}.
Context (table : rat) (cast_double : bstr -> option Q) (time_now : Z).

(** [call] on a resource: the operation its plugin registered. *)
Fixpoint resolve (n : node) : resolver :=
  let below := List.map (fun c => (c.1, resolve c.2)) in
  match n with
  | Storage ps => unix_file_resolve_hierarchy table ps
  | Archive ps => mock_archive_file_resolve_hierarchy table ps
  | Passthru name results weights cs =>
      passthru_file_resolve_hierarchy cast_double results name weights (below cs)
  | Random name cs => random_file_resolve_hierarchy name (below cs)
  | Deferred name cs => deferred_file_resolve_hierarchy name (below cs)
  | LoadBalanced name rows cs =>
      load_balanced_file_resolve_hierarchy rows time_now name (below cs)
  | Replication name read cs => repl_file_resolve_hierarchy name read (below cs)
  end.
End tree.

(** ** What a resource promises to the one above it *)

Definition strip (o : file_object) : file_object :=
  FileObject (f_size o) (f_repl_requested o) (f_cond_input o) (set_vote 0 <$> f_replicas o).

(** The hierarchy that the request itself names, which a replication resource returns as it is. *)
Definition requested (o : file_object) (q : list bstr) : Prop :=
  exists hier e, f_cond_input o !! RESC_HIER_STR_KW = Some hier /\ set_string (lit hier) = Ok (e, q).

(** A hierarchy extends the hierarchy [p] by a path in [P], or the request names it. *)
Definition grows (o : file_object) (P : list bstr -> Prop) (p q : list bstr) : Prop :=
  (exists l, P l /\ q = p ++ l) \/ requested o q.

(** A call changed nothing of the file object but votes; an error did not make a
    zero vote positive; and an answer with a vote extends the hierarchy [p] it was
    given by a path in [P], or is the one that the request names. *)
Definition answers (P : list bstr -> Prop) (p : list bstr) (v : Q) (s : vstate)
    (x : res answer) (s' : vstate) : Prop :=
  strip (v_obj s') = strip (v_obj s) /\
  match x with
  | Ok (ERROR _, _, v') => (v == 0)%Q -> (v' == 0)%Q
  | Ok (SUCCESS, p', v') => DELIM ∉ p -> ~ (v' == 0)%Q -> grows (v_obj s) P p p'
  | Throw _ => True
  end.

(** [r] answers so for the operation [opr] on an object that is [o] up to votes. *)
Class Voter (opr : string) (o : file_object) (r : resolver) (P : list bstr -> Prop) : Prop :=
  voter host p v s x s' :
    strip (v_obj s) = o -> r opr host p v s = (x, s') -> answers P p v s x s'.

(** The paths through a coordinating resource. *)
Definition below (name : bstr) (P : list bstr -> Prop) (l : list bstr) : Prop :=
  exists l', l = name :: l' /\ P l'.

Lemma add_child_name name p : name <> DELIM -> add_child name p = (SUCCESS, p ++ [name]).
Proof. intros Hn. unfold add_child. by rewrite (proj2 (bstr_eqb_neq _ _) Hn). Qed.

Lemma parser_copy p : DELIM ∉ p -> hierarchy_parser_copy p = p.
Proof.
  intros Hp. unfold hierarchy_parser_copy.
  assert (forall acc, foldl (fun acc r => (add_child r acc).2) acc p = acc ++ p) as H.
  { induction p as [|r p IH]; intros acc; [by rewrite app_nil_r|].
    apply not_elem_of_cons in Hp as [Hr Hp]. cbn [foldl].
    rewrite add_child_name by congruence. cbn [snd]. rewrite IH by done. by rewrite <- app_assoc. }
  apply H.
Qed.

Lemma no_delim_snoc p name : DELIM ∉ p -> name <> DELIM -> DELIM ∉ p ++ [name].
Proof. intros Hp Hn. rewrite elem_of_app, list_elem_of_singleton. intros [?|?]; congruence. Qed.

Lemma strip_cond o o' : strip o' = strip o -> f_cond_input o' = f_cond_input o.
Proof. intros H. by injection H. Qed.

Lemma grows_strip o o' P p q : strip o' = strip o -> grows o' P p q -> grows o P p q.
Proof. intros H. unfold grows, requested. by rewrite (strip_cond _ _ H). Qed.

Lemma grows_mono o (P P' : list bstr -> Prop) p q : (forall l, P l -> P' l) -> grows o P p q -> grows o P' p q.
Proof. intros HP [(l & ? & ?)|H]; [left; eauto|by right]. Qed.

(** *** Storage resources *)

Lemma strip_set_replicas rs s :
  set_vote 0 <$> rs = set_vote 0 <$> f_replicas (v_obj s) ->
  strip (v_obj (set_replicas rs s)) = strip (v_obj s).
Proof. intros H. unfold strip. cbn. by rewrite H. Qed.

Lemma calculate_strip `{L : LexicalCast} table opr ctx v rs :
  calculate table opr ctx = Ok (v, rs) ->
  set_vote 0 <$> rs = set_vote 0 <$> f_replicas (c_file_obj ctx).
Proof.
  unfold calculate. destruct (calculator table opr) as [f|]; [|done].
  cbn [mbind res_bind]. destruct (f ctx) as [q|]; [|done]. cbn [mbind res_bind].
  destruct (find_local_replica ctx) as [[i|]|]; cbn [mbind res_bind]; intros [= <- <-]; [|done].
  apply list_eq. intros j. rewrite !list_lookup_fmap.
  destruct (decide (j = i)) as [->|Hne].
  - rewrite list_lookup_alter_eq. by destruct (_ !! i).
  - by rewrite list_lookup_alter_ne.
Qed.

Section instances.
Context {L : LexicalCast} {B : BoostString}.
Context (table : rat) (opr : string) (o : file_object).

Definition voters (children : list (bstr * resolver)) (P : list bstr -> Prop) : Prop :=
  Forall (fun c => Voter opr o c.2 P) children.

Lemma answers_mono P P' p v s x s' :
  (forall l, P l -> P' l) -> answers P p v s x s' -> answers P' p v s x s'.
Proof.
  intros HP [H1 H2]. split; [done|]. destruct x as [[[[|c] q] w]|e]; [|done|done].
  intros Hp Hw. eapply grows_mono, H2; eauto.
Qed.

Lemma voter_weaken r P P' : (forall l, P l -> P' l) -> Voter opr o r P -> Voter opr o r P'.
Proof. intros HP Hr host p v s x s' Hs Hx. eapply answers_mono, Hr; eauto. Qed.

(** An answer that leaves the object alone and has no vote. *)
Lemma zero_answer P p v s s' q :
  strip (v_obj s') = strip (v_obj s) -> answers P p v s (Ok (SUCCESS, q, 0%Q)) s'.
Proof. intros Hs. split; [done|]. intros _ Hw. by destruct Hw. Qed.

Lemma error_answer P p v s q c : answers P p v s (Ok (ERROR c, q, v)) s.
Proof. by split. Qed.

Lemma throw_answer P p v s e s' :
  strip (v_obj s') = strip (v_obj s) -> answers P p v s (Throw e) s'.
Proof. by split. Qed.

(** A resource that adds its name and answers for what is below it. *)
Lemma voter_of_answers (r : resolver) name P :
  name <> DELIM ->
  (forall host p v s x s', strip (v_obj s) = o -> r opr host p v s = (x, s') ->
     answers P (p ++ [name]) v s x s') ->
  Voter opr o r (below name P).
Proof.
  intros Hn H host p v s x s' Hs Hx. destruct (H _ _ _ _ _ _ Hs Hx) as [H1 H2].
  split; [done|]. destruct x as [[[[|c] q] w]|e]; [|done|done]. intros Hp Hw.
  destruct (H2 (no_delim_snoc _ _ Hp Hn) Hw) as [(l & Hl & ->)|Hr]; [left|by right].
  exists (name :: l). rewrite <- app_assoc. split; [by exists l|done].
Qed.

(** The answer after an earlier call left the vote [u] and the state [s1]. *)
Lemma answers_step P p v u s s1 x s' :
  strip (v_obj s1) = strip (v_obj s) -> ((v == 0)%Q -> (u == 0)%Q) ->
  answers P p u s1 x s' -> answers P p v s x s'.
Proof.
  intros Hs Hv [H1 H2]. split; [by rewrite H1|]. destruct x as [[[[|c] q] w]|e]; [|by auto|done].
  intros Hp Hw. by eapply grows_strip, H2.
Qed.

Lemma answers_copy P p v s x s' :
  answers P (hierarchy_parser_copy p) v s x s' -> answers P p v s x s'.
Proof.
  intros [H1 H2]. split; [done|]. destruct x as [[[[|c] q] w]|e]; [|done|done].
  intros Hp. rewrite parser_copy in H2 by done. by apply H2.
Qed.

Definition has_name (ps : props) (name : bstr) : Prop :=
  get_string ps "resource_property_name" = inr name /\ name <> DELIM.

Lemma calculated_answer ps name host p v s rs q :
  calculate table opr (Context_ ps (v_obj s) host) = Ok (q, rs) ->
  answers (fun l => l = [name]) p v s (Ok (SUCCESS, p ++ [name], q)) (set_replicas rs s).
Proof.
  intros E. split; [|by left; eauto]. apply strip_set_replicas. by apply calculate_strip in E.
Qed.

Lemma unix_voter ps name :
  has_name ps name -> Voter opr o (unix_file_resolve_hierarchy table ps) (fun l => l = [name]).
Proof.
  intros [Hn Hd] host p v s x s' _. unfold unix_file_resolve_hierarchy, get_resource_name.
  cbn [c_props]. rewrite Hn. cbn [or_throw]. rewrite add_child_name by done. cbn [snd].
  destruct (calculate table opr _) as [[q rs]|e] eqn:E.
  - intros [= <- <-]. by eapply calculated_answer.
  - by destruct e; intros [= <- <-].
Qed.

Lemma archive_voter ps name :
  has_name ps name ->
  Voter opr o (mock_archive_file_resolve_hierarchy table ps) (fun l => l = [name]).
Proof.
  intros [Hn Hd] host p v s x s' _. unfold mock_archive_file_resolve_hierarchy.
  rewrite Hn, add_child_name by done. cbn [snd].
  destruct (_ || _); [|intros [= <- <-]; apply error_answer].
  destruct (calculate table opr _) as [[q rs]|e] eqn:E.
  - intros [= <- <-]. by eapply calculated_answer.
  - by destruct e; intros [= <- <-].
Qed.

(** *** Pass-through *)

Lemma apply_weight_strip name w rs x rs' :
  apply_weight_to_object_votes name w rs = (x, rs') -> set_vote 0 <$> rs' = set_vote 0 <$> rs.
Proof.
  revert x rs'. induction rs as [|r rs IH]; intros x rs'; cbn [apply_weight_to_object_votes];
    [by intros [= _ <-]|].
  destruct (hierarchy_parser (po_resc_hier r)) as [l|e]; [|by intros [= _ <-]].
  destruct (apply_weight_to_object_votes name w rs) as [y rs''] eqn:E. intros [= _ <-].
  rewrite !fmap_cons, (IH _ _ eq_refl). by destruct (contains name l).
Qed.

(** Weighting an answer: the parser stays, and no vote appears. *)
Definition weighted (name : bstr) (w : Q) (a : answer) : M vstate answer :=
  s ← get_state;
  let '(x, rs) := apply_weight_to_object_votes name w (f_replicas (v_obj s)) in
  _ ← put_state (set_replicas rs s);
  _ ← lift x;
  mret (a.1, (a.2 * w)%Q).

Lemma weighted_strip name w a s x s' :
  weighted name w a s = (x, s') -> strip (v_obj s') = strip (v_obj s).
Proof.
  unfold weighted. run_M. destruct (apply_weight_to_object_votes name w _) as [y rs] eqn:E.
  apply apply_weight_strip in E. destruct y; intros [= _ <-]; by apply strip_set_replicas.
Qed.

Lemma weighted_ok name w a s a' s' :
  weighted name w a s = (Ok a', s') -> a' = (a.1, (a.2 * w)%Q).
Proof.
  unfold weighted. run_M. destruct (apply_weight_to_object_votes name w _) as [y rs].
  by destruct y; intros [= <- _].
Qed.

Lemma weighted_answers P name w a p v s s1 x s' :
  answers P p v s (Ok a) s1 -> weighted name w a s1 = (x, s') -> answers P p v s x s'.
Proof.
  intros [Hs Ha] Hw. apply weighted_strip in Hw as Hs'. split; [by rewrite Hs'|].
  destruct x as [b|e]; [|done]. apply weighted_ok in Hw as ->. destruct a as [[[|c] q] u]; cbn [fst snd].
  - intros Hp Hne. apply Ha; [done|]. intros Hu. apply Hne. rewrite Hu. apply Qmult_0_l.
  - intros Hv. rewrite (Ha Hv). apply Qmult_0_l.
Qed.

Lemma passthru_voter cast_double results name weights children P :
  name <> DELIM -> voters children P ->
  Voter opr o (passthru_file_resolve_hierarchy cast_double results name weights children) (below name P).
Proof.
  intros Hn Hc. apply voter_of_answers; [done|]. intros host p v s x s' Hs.
  unfold passthru_file_resolve_hierarchy. rewrite add_child_name by done. cbn [snd].
  destruct children as [|[key child] [|c2 rest]]; try (intros [= <- <-]; apply error_answer).
  apply Forall_cons in Hc as [Hc _]. unfold mbind at 1, M_bind at 1.
  destruct (child opr host (p ++ [name]) v s) as [y s1] eqn:Ec.
  apply (voter _ _ _ _ _ _ Hs) in Ec. destruct y as [[[err q] u]|e]; [|by intros [= <- <-]].
  destruct (String.eqb opr OPEN_OPERATION);
    [exact (weighted_answers _ _ _ (err, q, u) _ _ _ _ _ _ Ec)|].
  destruct (_ || _); [exact (weighted_answers _ _ _ (err, q, u) _ _ _ _ _ _ Ec)|].
  by intros [= <- <-].
Qed.

(** *** Random *)

Lemma smap_get_elem {V} (k : bstr) (m : list (bstr * V)) v : smap_get k m = Some v -> (k, v) ∈ m.
Proof.
  induction m as [|[k' v'] m IH]; [done|]. cbn. destruct (bstr_eqb k k') eqn:E.
  - apply bstr_eqb_eq in E as ->. intros [= ->]. by left.
  - intros H. right. by apply IH.
Qed.

Lemma next_child_elem name objs children err child :
  get_next_child_for_open_or_write name objs children = Ok (err, Some child) ->
  err = SUCCESS /\ exists key, (key, child) ∈ children.
Proof.
  induction objs as [|r objs IH]; [done|]. cbn [get_next_child_for_open_or_write].
  destruct (set_string (po_resc_hier r)) as [[e l]|] eqn:Es; [|done]. cbn [mbind res_bind].
  destruct (negb (resc_in_hier name l)); [exact IH|].
  unfold get_next_child_in_hier. rewrite Es. cbn [mbind res_bind].
  destruct e; [|done]. destruct (next_resc_error name l) as [[|c] next]; [|done].
  destruct (smap_get next children) as [ch|] eqn:Eg; [|done]. intros [= <- <-].
  split; [done|]. exists next. by apply smap_get_elem.
Qed.

Lemma valid_child_loop_answers fuel host p v candidates s x s' P :
  Forall (fun r => Voter opr o r P) candidates -> strip (v_obj s) = o ->
  valid_child_loop fuel opr host p v candidates s = (x, s') -> answers P p v s x s'.
Proof.
  revert v candidates s x s'.
  induction fuel as [|fuel IH]; intros v candidates s x s' Hc Hs;
    destruct candidates as [|r0 rest]; cbn [valid_child_loop]; run_M.
  1, 2, 3: by intros [= <- <-].
  unfold random_index at 1. cbn [length]. set (cs := r0 :: rest) in *.
  destruct (cs !! _) as [r|] eqn:Er; [|by intros [= <- <-]].
  assert (Voter opr o r P) as Hr by (by eapply Forall_lookup_1 in Hc).
  destruct (r opr host _ v _) as [y s1] eqn:Ec.
  apply voter, answers_copy in Ec as [Hs1 Ec]; [|done].
  destruct y as [[[err q] u]|e]; [|intros [= <- <-]; by apply throw_answer].
  destruct (error_ok err && negb (Qeq_bool u 0)) eqn:Eok.
  - intros [= <- <-]. destruct err; [|done]. by split.
  - intros Hx. eapply (answers_step _ _ _ u); [exact Hs1| |].
    + destruct err as [|c]; [|done]. intros _. cbn in Eok.
      apply negb_false_iff in Eok. by apply Qeq_bool_iff.
    + eapply IH; [| |exact Hx]; [by apply Forall_delete|by rewrite Hs1].
Qed.

Lemma random_voter name children P :
  name <> DELIM -> voters children P ->
  Voter opr o (random_file_resolve_hierarchy name children) (below name P).
Proof.
  intros Hn Hc. apply voter_of_answers; [done|].
  intros host p v s x s' Hs. unfold random_file_resolve_hierarchy.
  rewrite add_child_name by done. cbn [snd]. destruct (is_open_write_unlink opr).
  - run_M. destruct (get_next_child_for_open_or_write name _ children) as [[err [child|]]|e] eqn:En.
    + apply next_child_elem in En as (-> & key & Hin). intros Hx.
      assert (Voter opr o child P) by (by apply (proj1 (Forall_forall _ _) Hc _ Hin)). by apply voter in Hx.
    + destruct err as [|c]; [by intros [= <- <-]|].
      destruct (c =? REPLICA_NOT_IN_RESC); intros [= <- <-]; [by apply zero_answer|apply error_answer].
    + by intros [= <- <-].
  - destruct (String.eqb opr CREATE_OPERATION); [|intros [= <- <-]; apply error_answer].
    intros Hx. eapply valid_child_loop_answers; [|done|exact Hx]. by apply Forall_fmap.
Qed.

(** *** Deferred and load balanced *)

Lemma result_map_set_elem v p m w q :
  (w, q) ∈ result_map_set v p m -> (w, q) ∈ m \/ (w == v)%Q /\ q = p.
Proof.
  induction m as [|[w' q'] m IH]; cbn [result_map_set].
  { rewrite list_elem_of_singleton. intros [= -> ->]. by right. }
  destruct (Qeq_bool v w') eqn:Eq.
  { apply Qeq_bool_iff in Eq. rewrite !elem_of_cons.
    intros [[= -> ->]|?]; [right; split; [by symmetry|done]|by left; right]. }
  destruct (Qle_bool v w'); rewrite !elem_of_cons.
  - intros [[= -> ->]|?]; [by right|by left].
  - intros [[= -> ->]|?]; [by left; left|]. destruct IH; [done|by left; right|by right].
Qed.

(** The collected votes that are not zero come with paths of the children. *)
Lemma collect_votes_spec host p children m s x s' P :
  voters children P -> strip (v_obj s) = o ->
  collect_votes opr host p children m s = (x, s') ->
  strip (v_obj s') = strip (v_obj s) /\
  forall m', x = Ok m' -> DELIM ∉ p ->
  forall w q, (w, q) ∈ m' -> ~ (w == 0)%Q -> (w, q) ∈ m \/ grows (v_obj s) P p q.
Proof.
  intros Hc. revert m s x s'. induction Hc as [|[key r] children Hr Hc IH]; intros m s x s' Hs.
  { cbn. intros [= <- <-]. split; [done|]. intros m' [= <-]. by left. }
  cbn [collect_votes snd] in *. run_M.
  destruct (r opr host (hierarchy_parser_copy p) 0%Q s) as [y s1] eqn:Er.
  apply voter, answers_copy in Er as [Hs1 Er]; [|done].
  destruct y as [[[err q0] u]|e]; [|by intros [= <- <-]].
  intros Hx. destruct (IH _ _ _ _ ltac:(by rewrite Hs1) Hx) as [Hs2 Hm].
  split; [by rewrite Hs2|]. intros m' Hm' Hp w q Hin Hw.
  destruct (Hm m' Hm' Hp w q Hin Hw) as [H|H]; [|by right; eapply grows_strip].
  destruct (error_ok err) eqn:Eo; [|by left].
  apply result_map_set_elem in H as [H|[Hwu ->]]; [by left|]. right.
  destruct err; [|done]. apply Er; [done|]. by rewrite <- Hwu.
Qed.

(** The answer made from the highest collected vote. *)
Lemma highest_answer host p v children s m' s1 P w q :
  voters children P -> strip (v_obj s) = o ->
  collect_votes opr host p children [] s = (Ok m', s1) -> last m' = Some (w, q) ->
  answers P p v s (Ok (SUCCESS, q, w)) s1.
Proof.
  intros Hc Ho Hx Hlast. destruct (collect_votes_spec _ _ _ _ _ _ _ _ Hc Ho Hx) as [Hs Hm].
  split; [done|]. intros Hp Hw.
  destruct (Hm m' eq_refl Hp w q) as [H|H]; [|done|by apply not_elem_of_nil in H|done].
  rewrite last_lookup in Hlast. by eapply list_elem_of_lookup_2.
Qed.

Lemma collected_strip host p children s y s1 P :
  voters children P -> strip (v_obj s) = o ->
  collect_votes opr host p children [] s = (y, s1) -> strip (v_obj s1) = strip (v_obj s).
Proof. intros Hc Ho Hx. by destruct (collect_votes_spec _ _ _ _ _ _ _ _ Hc Ho Hx). Qed.

Lemma deferred_voter name children P :
  name <> DELIM -> voters children P ->
  Voter opr o (deferred_file_resolve_hierarchy name children) (below name P).
Proof.
  intros Hn Hc. apply voter_of_answers; [done|].
  intros host p v s x s' Hs. unfold deferred_file_resolve_hierarchy.
  rewrite add_child_name by done. cbn [snd].
  destruct (_ || _); [|intros [= <- <-]; apply error_answer].
  unfold deferred_redirect_for_operation.
  destruct children as [|c children]; [intros [= <- <-]; by apply zero_answer|]. run_M.
  destruct (collect_votes _ _ _ _ _ _) as [y s1] eqn:Ec.
  pose proof (collected_strip _ _ _ _ _ _ _ Hc Hs Ec) as Hs1.
  destruct y as [m'|e]; [|intros [= <- <-]; by apply throw_answer].
  destruct (last m') as [[w q]|] eqn:El; [|intros [= <- <-]; by apply zero_answer].
  destruct (negb _); intros [= <- <-]; [|by apply zero_answer].
  by eapply highest_answer.
Qed.

Lemma better_load_elem time_now name child acc rows :
  let acc' := foldl (better_load time_now name child) acc rows in
  acc'.2 = acc.2 \/ acc'.2 = Some child.
Proof.
  revert acc. induction rows as [|[[n load] t] rows IH]; intros acc; [by left|].
  cbn [foldl]. destruct (IH (better_load time_now name child acc (n, load, t))) as [->| ->]; [|by right].
  unfold better_load. destruct acc as [mn sel]. destruct (_ && _); [by right|by left].
Qed.

Lemma select_by_load_elem time_now rows children child :
  select_by_load time_now rows children = Some child -> exists key, (key, child) ∈ children.
Proof.
  unfold select_by_load.
  assert (forall acc, let acc' := foldl (fun acc '(name, child) =>
      foldl (better_load time_now name child) acc rows) acc children in
    acc'.2 = acc.2 \/ exists key c, acc'.2 = Some c /\ (key, c) ∈ children) as H.
  { induction children as [|[key c] children IH]; intros acc; [by left|]. cbn [foldl].
    destruct (IH (foldl (better_load time_now key c) acc rows)) as [->|(k & c' & -> & Hin)].
    - destruct (better_load_elem time_now key c acc rows) as [->| ->]; [by left|].
      right. exists key, c. split; [done|by left].
    - right. exists k, c'. split; [done|by right]. }
  destruct (H (100, None)) as [->|(key & c & -> & Hin)]; [done|]. intros [= <-]. eauto.
Qed.

Lemma load_balanced_open_answers children P host p v s x s' :
  voters children P -> strip (v_obj s) = o ->
  load_balanced_redirect_for_open_operation children opr host p v s = (x, s') ->
  answers P p v s x s'.
Proof.
  intros Hc Hs. unfold load_balanced_redirect_for_open_operation.
  destruct children as [|c children]; [intros [= <- <-]; by apply zero_answer|]. run_M.
  destruct (collect_votes _ _ _ _ _ _) as [y s1] eqn:Ec.
  pose proof (collected_strip _ _ _ _ _ _ _ Hc Hs Ec) as Hs1.
  destruct y as [m'|e]; [|intros [= <- <-]; by apply throw_answer].
  destruct (last m') as [[w q]|] eqn:El; [|intros [= <- <-]; by apply zero_answer].
  destruct (Qeq_bool w 0); [intros [= <- <-]; by apply zero_answer|].
  destruct (negb _); intros [= <- <-]; [by eapply highest_answer|by split].
Qed.

Lemma load_balanced_voter rows time_now name children P :
  name <> DELIM -> voters children P ->
  Voter opr o (load_balanced_file_resolve_hierarchy rows time_now name children) (below name P).
Proof.
  intros Hn Hc. apply voter_of_answers; [done|].
  intros host p v s x s' Hs. unfold load_balanced_file_resolve_hierarchy.
  rewrite add_child_name by done. cbn [snd].
  destruct (is_open_write_unlink opr); [by apply load_balanced_open_answers|].
  destruct (String.eqb opr CREATE_OPERATION); [|intros [= <- <-]; apply error_answer].
  unfold load_balanced_redirect_for_create_operation.
  destruct (get_load_lists rows) as [status|lists]; [intros [= <- <-]; apply error_answer|].
  destruct (select_by_load time_now lists children) as [child|] eqn:Es;
    [|intros [= <- <-]; apply error_answer].
  apply select_by_load_elem in Es as (key & Hin).
  assert (Voter opr o child P) as Hch by (by apply (proj1 (Forall_forall _ _) Hc _ Hin)). run_M.
  destruct (child _ _ _ _ _) as [y s1] eqn:Er. apply voter, answers_copy in Er as [Hs1 Er]; [|done].
  destruct y as [[[err q] u]|e]; intros [= <- <-]; (split; [done|]); [|done].
  intros Hp Hu. destruct err as [|c]; [by apply Er|]. exfalso. by apply Hu, Er.
Qed.

(** *** Replication *)

(** The resource never answers that a child is missing. *)
Definition never_missing (r : resolver) : Prop :=
  forall host p v s p' v' s', strip (v_obj s) = o ->
    r opr host p v s <> (Ok (ERROR CHILD_NOT_FOUND, p', v'), s').

Lemma redirect_map_insert_elem v p m w q :
  (w, q) ∈ redirect_map_insert v p m <-> (w, q) ∈ m \/ (w, q) = (v, p).
Proof.
  induction m as [|[w' q'] m IH]; cbn [redirect_map_insert].
  - rewrite list_elem_of_singleton, elem_of_nil. tauto.
  - destruct (Qle_bool v w'); rewrite !elem_of_cons; [rewrite IH|]; tauto.
Qed.

Lemma resolve_children_spec host p v children m e s x s' P :
  voters children P -> Forall (fun c => never_missing c.2) children -> strip (v_obj s) = o ->
  resolve_children_loop opr host p v children m e s = (x, s') ->
  strip (v_obj s') = strip (v_obj s) /\
  forall m' e', x = Ok (m', e') -> DELIM ∉ p ->
  forall w q, (w, q) ∈ m' -> ~ (w == 0)%Q -> (w, q) ∈ m \/ grows (v_obj s) P p q.
Proof.
  intros Hc Hn. revert v m e s x s'.
  induction Hc as [|[key r] children Hr Hc IH]; intros v m e s x s' Hs.
  { cbn. intros [= <- <-]. split; [done|]. intros m' e' [= <- _]. by left. }
  apply Forall_cons in Hn as [Hnr Hn]. cbn [resolve_children_loop snd] in *. run_M.
  destruct (r opr host (hierarchy_parser_copy p) v s) as [y s1] eqn:Er.
  assert (forall q u, y <> Ok (ERROR CHILD_NOT_FOUND, q, u)) as Hmiss
    by (intros q u ->; by apply Hnr in Er).
  apply voter, answers_copy in Er as [Hs1 Er]; [|done].
  assert (strip (v_obj s1) = o) as Ho by by rewrite Hs1.
  destruct y as [[[[|c] q0] u]|e0]; [| |by intros [= <- <-]].
  - intros Hx. destruct (IH Hn _ _ _ _ _ _ Ho Hx) as [Hs2 Hm]. split; [by rewrite Hs2|].
    intros m' e' Hm' Hp w q Hin Hw.
    destruct (Hm m' e' Hm' Hp w q Hin Hw) as [H|H]; [|by right; eapply grows_strip].
    apply redirect_map_insert_elem in H as [H|[= -> ->]]; [by left|]. right. by apply Er.
  - destruct (Z.eqb_spec c CHILD_NOT_FOUND) as [->|Hne]; [by destruct (Hmiss q0 u)|].
    intros Hx. destruct (IH Hn _ _ _ _ _ _ Ho Hx) as [Hs2 Hm]. split; [by rewrite Hs2|].
    intros m' e' Hm' Hp w q Hin Hw.
    destruct (Hm m' e' Hm' Hp w q Hin Hw) as [H|H]; [by left|by right; eapply grows_strip].
Qed.

(** No votes at all means that the last child failed. *)
Lemma resolve_children_empty host p v children m e s e' s' :
  resolve_children_loop opr host p v children m e s = (Ok ([], e'), s') ->
  m = [] /\ (e' = SUCCESS -> e = SUCCESS /\ children = []).
Proof.
  revert v m e s. induction children as [|[key r] children IH]; intros v m e s.
  { cbn. by intros [= -> -> _]. }
  cbn [resolve_children_loop]. run_M.
  destruct (r opr host (hierarchy_parser_copy p) v s) as [[[[[|c] q] u]|e0] s1]; [| |done].
  - intros [Hm _]%IH. by destruct m as [|[w q'] m]; [|destruct (Qle_bool u w) eqn:Eq; cbn in Hm; rewrite Eq in Hm].
  - destruct (c =? CHILD_NOT_FOUND); intros [Hm He]%IH.
    + by destruct m as [|[w q'] m]; [|destruct (Qle_bool u w) eqn:Eq; cbn in Hm; rewrite Eq in Hm].
    + split; [done|]. by intros [? _]%He.
Qed.

(** Choosing among the votes: one of the map, or an undefined draw. *)
Lemma select_child_spec read map p s x s' :
  map <> [] -> select_child read opr map p s = (x, s') ->
  v_obj s' = v_obj s /\ forall q w, x = Ok (q, w) -> (w, q) ∈ map.
Proof.
  intros Hne. unfold select_child. destruct map as [|[w0 q0] map]; [done|].
  destruct (_ && _).
  - unfold process_redirect_map_for_random_open. run_M.
    set (items := base.filter _ _). unfold random_index. destruct (length items) eqn:El.
    { intros [= <- <-]. by split. }
    destruct (items !! _) as [[w1 q1]|] eqn:Ei; intros [= <- <-]; (split; [done|]); [|done].
    intros q w [= -> ->]. apply list_elem_of_lookup_2, list_elem_of_filter in Ei. by destruct Ei.
  - intros [= <- <-]. split; [done|]. intros q w [= -> ->]. by left.
Qed.

Lemma repl_voter name read children P :
  name <> DELIM -> voters children P -> Forall (fun c => never_missing c.2) children ->
  Voter opr o (repl_file_resolve_hierarchy name read children) (below name P).
Proof.
  intros Hn Hc Hm. apply voter_of_answers; [done|].
  intros host p v s x s' Hs. unfold repl_file_resolve_hierarchy. unfold mbind at 1, M_bind at 1, get_state.
  destruct (f_cond_input (v_obj s) !! RESC_HIER_STR_KW) as [hier|] eqn:Eh.
  { run_M. destruct (set_string (lit hier)) as [[e q]|e] eqn:Es; intros [= <- <-]; [|by apply throw_answer].
    split; [done|]. intros _ _. right. by exists hier, e. }
  rewrite add_child_name by done. unfold mbind at 1, M_bind at 1.
  unfold resolve_children. destruct children as [|c children]; [intros [= <- <-]; apply error_answer|].
  destruct (resolve_children_loop _ _ _ _ _ _ _ _) as [y s1] eqn:Er.
  destruct (resolve_children_spec _ _ _ _ _ _ _ _ _ _ Hc Hm Hs Er) as [Hs1 Hmap].
  destruct y as [[map e']|e]; [|intros [= <- <-]; by apply throw_answer].
  destruct map as [|i map]; [intros [= <- <-]|].
  { split; [done|]. destruct e' as [|c']; [|done].
    apply resolve_children_empty in Er as [_ Er]. by destruct (Er eq_refl). }
  unfold mbind, M_bind.
  destruct (select_child read opr (i :: map) (p ++ [name]) s1) as [z s2] eqn:Esel.
  apply select_child_spec in Esel as [Hs2 Hsel]; [|done].
  destruct z as [[q w]|e]; intros [= <- <-]; [|apply throw_answer; by rewrite Hs2].
  split; [by rewrite Hs2|]. intros Hp Hw.
  destruct (Hmap _ _ eq_refl Hp w q) as [H|H]; [by apply Hsel|done|by apply not_elem_of_nil in H|done].
Qed.

(** *** Who never answers that a child is missing *)

Definition no_missing {A} (x : res A) : Prop := x <> Throw (Eirods CHILD_NOT_FOUND).

Lemma no_missing_bind {A C} (m : res A) (k : A -> res C) :
  no_missing m -> (forall a, m = Ok a -> no_missing (k a)) -> no_missing (m ≫= k).
Proof. destruct m; cbn; [by eauto|]. unfold no_missing. by intros H _ [= ->]. Qed.

Lemma no_missing_property {A} (x : Z + A) :
  (forall c, x = inl c -> c <> CHILD_NOT_FOUND) -> no_missing (or_throw x).
Proof. intros H. destruct x; cbn; [|done]. intros [= ->]. by eapply H. Qed.

Lemma get_string_codes ps k c : get_string ps k = inl c -> c <> CHILD_NOT_FOUND.
Proof. unfold get_string. by destruct (ps !! k) as [[]|]; intros [= <-]. Qed.

Lemma get_int_codes ps k c : get_int ps k = inl c -> c <> CHILD_NOT_FOUND.
Proof. unfold get_int. by destruct (ps !! k) as [[]|]; intros [= <-]. Qed.

Lemma tokenize_no_missing str delim tok : no_missing (string_tokenize str delim tok).
Proof.
  unfold string_tokenize. generalize (S (S (length str))) as fuel.
  set (lp := find_first_not_of str delim (Some O)). generalize (find_first_of str delim lp).
  generalize lp. clear lp. intros lp pos fuel. revert lp pos tok.
  induction fuel as [|fuel IH]; intros lp pos tok; [done|]. cbn [tokenize_loop].
  destruct lp as [l|]; [apply IH|by destruct pos].
Qed.

Lemma hierarchy_parser_no_missing h : no_missing (hierarchy_parser h).
Proof.
  unfold hierarchy_parser. apply no_missing_bind; [apply tokenize_no_missing|].
  by intros [|a l] _.
Qed.

Lemma find_local_no_missing name rs : no_missing (find_local name rs).
Proof.
  induction rs as [|r rs IH]; [done|]. cbn [find_local]. apply no_missing_bind.
  - apply no_missing_bind; [apply hierarchy_parser_no_missing|done].
  - intros leaf _. destruct (bstr_eqb name leaf); [done|]. by apply no_missing_bind.
Qed.

Lemma property_no_missing ctx :
  no_missing (get_resource_name ctx) /\ no_missing (get_resource_status ctx) /\
  no_missing (get_resource_location ctx).
Proof.
  split_and!; apply no_missing_property;
    eauto using get_string_codes, get_int_codes.
Qed.

Lemma resource_up_no_missing ctx : no_missing (throw_if_resource_is_down ctx).
Proof.
  apply no_missing_bind; [apply property_no_missing|]. intros st _. by destruct (_ =? _).
Qed.

Lemma find_local_replica_no_missing ctx : no_missing (find_local_replica ctx).
Proof.
  apply no_missing_bind; [apply property_no_missing|]. intros; apply find_local_no_missing.
Qed.

Lemma status_vote_no_missing ctx preferred :
  no_missing (calculate_with_repl_status table ctx preferred).
Proof.
  unfold calculate_with_repl_status. apply no_missing_bind; [apply resource_up_no_missing|].
  intros _ _. apply no_missing_bind; [apply find_local_replica_no_missing|]. intros i _.
  destruct (i ≫= _) as [r|]; [|done]. destruct (_ || _); [done|]. destruct (_ && _); [done|].
  destruct (_ <? _); [done|]. destruct (negb _); [done|].
  apply no_missing_bind; [apply property_no_missing|done].
Qed.

Lemma create_vote_no_missing ctx : no_missing (calculate_for_create ctx).
Proof.
  unfold calculate_for_create. apply no_missing_bind; [apply resource_up_no_missing|].
  intros _ _. apply no_missing_bind.
  - apply no_missing_bind; [|by intros [] _].
    unfold replica_exceeds_resource_free_space. destruct (_ <? _); [done|].
    apply no_missing_bind; [apply property_no_missing|]. intros name _.
    repeat (case_match; try done).
  - intros _ _. apply no_missing_bind; [apply property_no_missing|done].
Qed.

Lemma calculate_no_missing ctx : no_missing (calculate table opr ctx).
Proof.
  unfold calculate. apply no_missing_bind.
  - unfold calculator. repeat (case_match; try done).
  - intros f Hf. apply no_missing_bind.
    + unfold calculator in Hf. repeat case_match; simplify_eq;
        first [apply create_vote_no_missing|apply status_vote_no_missing].
    + intros v _. apply no_missing_bind; [apply find_local_replica_no_missing|done].
Qed.

Lemma unix_never_missing ps : never_missing (unix_file_resolve_hierarchy table ps).
Proof.
  intros host p v s p' v' s' _. unfold unix_file_resolve_hierarchy.
  destruct (get_resource_name _); [|by intros [=]].
  pose proof (calculate_no_missing (Context_ ps (v_obj s) host)) as H.
  destruct (calculate table opr _) as [[q rs]|[]]; intros [=]; simplify_eq. done.
Qed.

Lemma archive_never_missing ps : never_missing (mock_archive_file_resolve_hierarchy table ps).
Proof.
  intros host p v s p' v' s' _. unfold mock_archive_file_resolve_hierarchy.
  destruct (get_string ps _) as [c|name] eqn:En.
  { apply get_string_codes in En. by intros [= ->]. }
  destruct (_ || _); [|by intros [=]].
  pose proof (calculate_no_missing (Context_ ps (v_obj s) host)) as H.
  destruct (calculate table opr _) as [[q rs]|[]]; intros [=]; simplify_eq. done.
Qed.

Lemma passthru_never_missing cast_double results name weights children :
  Forall (fun c => never_missing c.2) children ->
  never_missing (passthru_file_resolve_hierarchy cast_double results name weights children).
Proof.
  intros Hc host p v s p' v' s' Hs. unfold passthru_file_resolve_hierarchy.
  destruct children as [|[key child] [|c2 rest]]; [by intros [=]| |by intros [=]].
  apply Forall_cons in Hc as [Hc _]. unfold mbind at 1, M_bind at 1.
  destruct (child _ _ _ _ _) as [[[[err q] u]|e] s1] eqn:Ec; [|by intros [=]].
  assert (err <> ERROR CHILD_NOT_FOUND) as Herr by (intros ->; by apply Hc in Ec).
  destruct (String.eqb opr OPEN_OPERATION);
    [intros Hx; apply (weighted_ok _ _ (err, q, u)) in Hx as [= ? ? ?]; congruence|].
  destruct (_ || _); [|by intros [=]].
  intros Hx. apply (weighted_ok _ _ (err, q, u)) in Hx as [= ? ? ?]. congruence.
Qed.

Lemma deferred_never_missing name children :
  never_missing (deferred_file_resolve_hierarchy name children).
Proof.
  intros host p v s p' v' s' _. unfold deferred_file_resolve_hierarchy.
  destruct (_ || _); [|by intros [=]]. unfold deferred_redirect_for_operation.
  destruct children; [by intros [=]|]. run_M.
  destruct (collect_votes _ _ _ _ _ _) as [[m|e] s1]; [|by intros [=]].
  destruct (last m) as [[w q]|]; [|by intros [=]]. by destruct (negb _); intros [=].
Qed.

Lemma load_balanced_never_missing rows time_now name children :
  String.eqb opr CREATE_OPERATION = false ->
  never_missing (load_balanced_file_resolve_hierarchy rows time_now name children).
Proof.
  intros Hop host p v s p' v' s' _. unfold load_balanced_file_resolve_hierarchy. rewrite Hop.
  destruct (is_open_write_unlink opr); [|by intros [=]].
  unfold load_balanced_redirect_for_open_operation. destruct children; [by intros [=]|]. run_M.
  destruct (collect_votes _ _ _ _ _ _) as [[m|e] s1]; [|by intros [=]].
  destruct (last m) as [[w q]|]; [|by intros [=]].
  destruct (Qeq_bool w 0); [by intros [=]|]. by destruct (negb _); intros [=].
Qed.

Lemma repl_children_last_err host p v children m e s m' e' s' :
  e <> ERROR CHILD_NOT_FOUND ->
  resolve_children_loop opr host p v children m e s = (Ok (m', e'), s') ->
  e' <> ERROR CHILD_NOT_FOUND.
Proof.
  revert v m e s. induction children as [|[key r] children IH]; intros v m e s He.
  { cbn. by intros [= _ <- _]. }
  cbn [resolve_children_loop]. run_M.
  destruct (r _ _ _ _ _) as [[[[[|c] q] u]|e0] s1]; [by apply IH| |by intros [=]].
  destruct (Z.eqb_spec c CHILD_NOT_FOUND) as [->|Hne]; apply IH; congruence.
Qed.

Lemma repl_never_missing name read children :
  name <> DELIM -> children <> [] -> never_missing (repl_file_resolve_hierarchy name read children).
Proof.
  intros Hn Hc host p v s p' v' s' _. unfold repl_file_resolve_hierarchy.
  unfold mbind at 1, M_bind at 1, get_state.
  destruct (f_cond_input (v_obj s) !! RESC_HIER_STR_KW).
  { run_M. by destruct (set_string _) as [[? ?]|]; intros [=]. }
  rewrite add_child_name by done. unfold mbind at 1, M_bind at 1, resolve_children.
  destruct children as [|c children]; [done|].
  destruct (resolve_children_loop _ _ _ _ _ _ _ _) as [[[m e']|e] s1] eqn:Er; [|by intros [=]].
  apply repl_children_last_err in Er; [|done]. destruct m as [|i m]; [by intros [= ? _ _ _]|].
  run_M. by destruct (select_child _ _ _ _ _) as [[[q w]|e] s2]; intros [=].
Qed.

(** In a consistent catalog, a replica below [name] is below one of its children. *)
Definition consistent (name : bstr) (keys : list bstr) : Prop :=
  forall r e l next, r ∈ f_replicas o -> set_string (po_resc_hier r) = Ok (e, l) ->
    next_resc_error name l = (SUCCESS, next) -> next ∈ keys.

Lemma smap_get_key {V} (k : bstr) (m : list (bstr * V)) : k ∈ m.*1 -> is_Some (smap_get k m).
Proof.
  induction m as [|[k' v'] m IH]; [by intros ?%not_elem_of_nil|]. cbn.
  destruct (bstr_eqb k k') eqn:E; [by eauto|]. apply bstr_eqb_neq in E.
  rewrite elem_of_cons. intros [?|?]; [done|by apply IH].
Qed.

Lemma next_resc_error_in name l c x :
  resc_in_hier name l = true -> next_resc_error name l = (ERROR c, x) -> c = NO_NEXT_RESC_FOUND.
Proof.
  unfold resc_in_hier, contains. induction l as [|r l IH]; [done|]. cbn [existsb next_resc_error].
  destruct (bstr_eqb r name); [|exact IH]. by destruct l; intros _ [= <- _].
Qed.

Lemma next_child_codes name objs children c child :
  Forall (fun r => exists r', r' ∈ f_replicas o /\ po_resc_hier r' = po_resc_hier r) objs ->
  consistent name children.*1 ->
  get_next_child_for_open_or_write name objs children = Ok (ERROR c, child) -> c <> CHILD_NOT_FOUND.
Proof.
  intros Hobjs Hcons. induction Hobjs as [|r objs (r' & Hr' & Hh) Hobjs IH]; [by intros [= <- _]|].
  cbn [get_next_child_for_open_or_write].
  destruct (set_string (po_resc_hier r)) as [[e l]|] eqn:Es; [|done]. cbn [mbind res_bind].
  destruct (resc_in_hier name l) eqn:Ein; cbn [negb]; [|exact IH].
  unfold get_next_child_in_hier. rewrite Es. cbn [mbind res_bind].
  destruct e as [|c']; [|intros [= <- _]].
  - destruct (next_resc_error name l) as [[|c'] next] eqn:En.
    + assert (next ∈ children.*1) as Hk by (eapply Hcons; [exact Hr'|by rewrite Hh|done]).
      apply smap_get_key in Hk as [ch ->]. by intros [=].
    + intros [= <- _]. by rewrite (next_resc_error_in _ _ _ _ Ein En).
  - unfold set_string in Es. destruct (string_tokenize _ _ _) as [[|a l']|]; by simplify_eq/=.
Qed.

Lemma valid_child_loop_not_missing fuel host p v cs s p' v' s' :
  valid_child_loop fuel opr host p v cs s <> (Ok (ERROR CHILD_NOT_FOUND, p', v'), s').
Proof.
  revert cs v s. induction fuel as [|fuel IH]; intros cs v s; destruct cs as [|r0 rest];
    cbn [valid_child_loop]; run_M; try by intros [=].
  unfold random_index at 1. cbn [length]. destruct ((r0 :: rest) !! _) as [r|]; [|by intros [=]].
  destruct (r _ _ _ _ _) as [[[[err h] w]|e] s1]; [|by intros [=]].
  destruct (_ && _); [by intros [=]|]. apply IH.
Qed.

Lemma random_never_missing name children :
  (is_open_write_unlink opr = true ->
   consistent name children.*1 /\ Forall (fun c => never_missing c.2) children) ->
  never_missing (random_file_resolve_hierarchy name children).
Proof.
  intros Hopen host p v s p' v' s' Hs. unfold random_file_resolve_hierarchy.
  destruct (is_open_write_unlink opr).
  - destruct (Hopen eq_refl) as [Hcons Hc]. run_M.
    destruct (get_next_child_for_open_or_write name _ children) as [[err child]|e] eqn:En; [|by intros [=]].
    destruct err as [|c].
    + destruct child as [child|]; [|by intros [=]]. apply next_child_elem in En as (_ & key & Hin).
      by apply (proj1 (Forall_forall _ _) Hc _ Hin).
    + apply next_child_codes in En; [|apply Forall_forall|done].
      * destruct (c =? REPLICA_NOT_IN_RESC); [by intros [=]|]. by intros [= ->].
      * intros r Hr. exists (set_vote 0 r). split; [|done]. rewrite <- Hs.
        by apply list_elem_of_fmap_2.
  - destruct (String.eqb opr CREATE_OPERATION); [|by intros [=]].
    apply valid_child_loop_not_missing.
Qed.
End instances.

(** ** Hierarchies *)

Definition children_of (n : node) : list (bstr * node) :=
  match n with
  | Storage _ | Archive _ => []
  | Passthru _ _ _ cs | Random _ cs | Deferred _ cs | LoadBalanced _ _ cs | Replication _ _ cs => cs
  end.

(** Induction on a resource and all that is below it. *)
Fixpoint node_tree_ind (P : node -> Prop)
    (H : forall n, Forall (fun c => P c.2) (children_of n) -> P n) (n : node) : P n :=
  let fix go (cs : list (bstr * node)) : Forall (fun c => P c.2) cs :=
    match cs with
    | [] => List.Forall_nil _
    | c :: cs' => List.Forall_cons _ _ _ (node_tree_ind P H c.2) (go cs')
    end in
  H n (match n with
       | Storage _ | Archive _ => List.Forall_nil _
       | Passthru _ _ _ cs | Random _ cs | Deferred _ cs | LoadBalanced _ _ cs | Replication _ _ cs =>
           go cs
       end).

(** A resource's own name. *)
Definition named (n : node) (name : bstr) : Prop :=
  match n with
  | Storage ps | Archive ps => has_name ps name
  | Passthru nm _ _ _ | Random nm _ | Deferred nm _ | LoadBalanced nm _ _ | Replication nm _ _ =>
      nm = name /\ name <> DELIM
  end.

(** The hierarchies of a resource: from itself down to a storage resource. *)
Inductive path : node -> list bstr -> Prop :=
| path_leaf n name : children_of n = [] -> named n name ->
    match n with Storage _ | Archive _ => True | _ => False end -> path n [name]
| path_inner n name key c l :
    named n name -> (key, c) ∈ children_of n -> path c l -> path n (name :: l).

Section hierarchies.
Context {L : LexicalCast} {B : BoostString}.
Context (table : rat) (cast_double : bstr -> option Q) (time_now : Z).
Context (opr : string) (o : file_object).

Fixpoint all_children (P : node -> Prop) (cs : list (bstr * node)) : Prop :=
  match cs with [] => True | c :: cs' => P c.2 /\ all_children P cs' end.

(** Resources that never answer CHILD_NOT_FOUND for the operation. *)
Fixpoint present (n : node) : Prop :=
  match n with
  | Storage _ | Archive _ | Deferred _ _ => True
  | Passthru _ _ _ cs => all_children present cs
  | Random name cs =>
      is_open_write_unlink opr = true -> consistent o name cs.*1 /\ all_children present cs
  | LoadBalanced _ _ _ => String.eqb opr CREATE_OPERATION = false
  | Replication name _ cs => name <> DELIM /\ cs <> []
  end.

(** Every resource has a usable name, and what is directly below a replication
    resource never answers that a child is missing. *)
Fixpoint well_formed (n : node) : Prop :=
  (exists name, named n name) /\
  match n with
  | Storage _ | Archive _ => True
  | Passthru _ _ _ cs | Random _ cs | Deferred _ cs | LoadBalanced _ _ cs => all_children well_formed cs
  | Replication _ _ cs => all_children well_formed cs /\ all_children present cs
  end.

Lemma all_children_Forall P cs : all_children P cs <-> Forall (fun c => P c.2) cs.
Proof.
  induction cs as [|c cs IH]; cbn; [by split|]. rewrite IH, Forall_cons. done.
Qed.

Definition resolved (cs : list (bstr * node)) : list (bstr * resolver) :=
  List.map (fun c => (c.1, resolve table cast_double time_now c.2)) cs.

Lemma resolved_Forall (P : resolver -> Prop) cs :
  Forall (fun c => P (resolve table cast_double time_now c.2)) cs ->
  Forall (fun c => P c.2) (resolved cs).
Proof. intros H. by apply Forall_fmap. Qed.

Lemma resolved_keys cs : (resolved cs).*1 = cs.*1.
Proof. unfold resolved. induction cs as [|c cs IH]; [done|]. cbn. by rewrite IH. Qed.

Lemma present_never_missing n :
  present n -> never_missing opr o (resolve table cast_double time_now n).
Proof.
  induction n as [n IH] using node_tree_ind. intros Hn.
  assert (all_children present (children_of n) ->
    Forall (fun c => never_missing opr o c.2) (resolved (children_of n))) as Hcs.
  { intros H%all_children_Forall. apply resolved_Forall.
    eapply Forall_impl; [apply Forall_and; split; [exact H|exact IH]|]. by intros c [? ?]; auto. }
  destruct n; cbn [resolve present children_of] in *.
  - apply unix_never_missing.
  - apply archive_never_missing.
  - by apply passthru_never_missing, Hcs.
  - apply random_never_missing. intros Hop. destruct (Hn Hop) as [? ?].
    split; [|by apply Hcs]. by fold (resolved children); rewrite resolved_keys.
  - apply deferred_never_missing.
  - by apply load_balanced_never_missing.
  - destruct Hn as [? ?]. apply repl_never_missing; [done|]. by destruct children.
Qed.

Definition child_path (cs : list (bstr * node)) (l : list bstr) : Prop :=
  exists key c, (key, c) ∈ cs /\ path c l.

Lemma children_voters cs :
  Forall (fun c => well_formed c.2 ->
    Voter opr o (resolve table cast_double time_now c.2) (path c.2)) cs ->
  all_children well_formed cs -> voters opr o (resolved cs) (child_path cs).
Proof.
  intros IH Hwf%all_children_Forall. apply (resolved_Forall (fun r => Voter opr o r (child_path cs))).
  apply Forall_forall. intros [key c] Hin.
  apply (voter_weaken _ _ _ (path c)); [intros l Hl; by exists key, c|].
  apply (proj1 (Forall_forall _ _) IH _ Hin), (proj1 (Forall_forall _ _) Hwf _ Hin).
Qed.

Lemma below_child_path n name :
  named n name -> forall l, below name (child_path (children_of n)) l -> path n l.
Proof. intros Hn l (l' & -> & key & c & Hin & Hp). by eapply path_inner. Qed.

(** Every resource of a well-formed hierarchy answers with its own paths. *)
Lemma resolve_voter n :
  well_formed n -> Voter opr o (resolve table cast_double time_now n) (path n).
Proof.
  induction n as [n IH] using node_tree_ind. intros Hn.
  assert (exists name, named n name) as [name Hname] by (by destruct n; destruct Hn).
  pose proof (children_voters (children_of n) IH) as Hcs.
  pose proof (below_child_path n name Hname) as Hbelow.
  destruct n as [ps|ps|nm res ws cs|nm cs|nm cs|nm rows cs|nm rd cs]; destruct Hn as [_ Hn];
    cbn [children_of resolve] in *.
  1, 2: apply (voter_weaken _ _ _ (fun l => l = [name])); [by intros l ->; apply path_leaf|].
  - by apply unix_voter.
  - by apply archive_voter.
  - destruct Hname as [-> Hd]. eapply voter_weaken; [exact Hbelow|]. by apply passthru_voter, Hcs.
  - destruct Hname as [-> Hd]. eapply voter_weaken; [exact Hbelow|]. by apply random_voter, Hcs.
  - destruct Hname as [-> Hd]. eapply voter_weaken; [exact Hbelow|]. by apply deferred_voter, Hcs.
  - destruct Hname as [-> Hd]. eapply voter_weaken; [exact Hbelow|]. by apply load_balanced_voter, Hcs.
  - destruct Hname as [-> Hd], Hn as [Hn Hpr]. eapply voter_weaken; [exact Hbelow|].
    apply repl_voter; [done|by apply Hcs|]. apply resolved_Forall.
    apply all_children_Forall in Hpr. eapply Forall_impl; [exact Hpr|].
    intros c. apply present_never_missing.
Qed.
End hierarchies.

(** ** Which child is chosen

    Votes recorded on the replicas do not matter to the resources asked later:
    states that agree up to votes are the same to a storage resource. *)

Definition same_object (s1 s2 : vstate) : Prop := strip (v_obj s1) = strip (v_obj s2).

#[export] Instance same_object_equivalence : Equivalence same_object.
Proof. unfold same_object. split; congruence. Qed.

Section determined.
Context {L : LexicalCast} {B : BoostString}.
Context (table : rat).

Lemma find_local_votes name rs1 rs2 :
  set_vote 0 <$> rs1 = set_vote 0 <$> rs2 -> find_local name rs1 = find_local name rs2.
Proof.
  revert rs2. induction rs1 as [|r1 rs1 IH]; intros [|r2 rs2]; try done.
  intros [= H1 H2 H3 H4 H]. cbn [find_local]. unfold leaf_of. rewrite H4.
  destruct (hierarchy_parser (po_resc_hier r2)); [|done]. cbn [mbind res_bind]. by rewrite (IH _ H).
Qed.

Lemma replica_votes (rs1 rs2 : list physical_object) (i : nat) :
  set_vote 0 <$> rs1 = set_vote 0 <$> rs2 -> set_vote 0 <$> rs1 !! i = set_vote 0 <$> rs2 !! i.
Proof. intros H. by rewrite <- !list_lookup_fmap, H. Qed.

Lemma calculate_votes opr ps host o1 o2 :
  strip o1 = strip o2 ->
  fst <$> calculate table opr (Context_ ps o1 host) = fst <$> calculate table opr (Context_ ps o2 host).
Proof.
  intros [= Hsz Hrq Hcond Hrs].
  assert (find_local_replica (Context_ ps o1 host) = find_local_replica (Context_ ps o2 host)) as Hf.
  { unfold find_local_replica, get_resource_name. cbn [c_props c_file_obj].
    destruct (or_throw _); [|done]. by apply find_local_votes. }
  assert (forall pref, calculate_with_repl_status table (Context_ ps o1 host) pref =
                       calculate_with_repl_status table (Context_ ps o2 host) pref) as Hst.
  { intros pref. unfold calculate_with_repl_status, throw_if_resource_is_down, get_resource_status.
    cbn [c_props]. destruct (or_throw _) as [st|]; [|done]. cbn [mbind res_bind].
    destruct (_ =? _); [done|]. cbn [mbind res_bind]. rewrite Hf.
    destruct (find_local_replica (Context_ ps o2 host)) as [[i|]|]; [|done|done].
    cbn [mbind res_bind option_bind c_file_obj].
    pose proof (replica_votes _ _ i Hrs) as Hi.
    destruct (f_replicas o1 !! i) as [r1|], (f_replicas o2 !! i) as [r2|]; try done.
    injection Hi as Hi1 Hi2 Hi3 Hi4. unfold token_valid. cbn [c_file_obj].
    by rewrite Hi1, Hi2, Hi3, Hcond, Hrq. }
  assert (calculate_for_create (Context_ ps o1 host) = calculate_for_create (Context_ ps o2 host)) as Hcr.
  { unfold calculate_for_create, throw_if_replica_exceeds_resource_free_space,
      replica_exceeds_resource_free_space. cbn [c_file_obj]. by rewrite Hsz. }
  unfold calculate. destruct (calculator table opr) as [f|] eqn:Ef; [|done]. cbn [mbind res_bind].
  assert (f (Context_ ps o1 host) = f (Context_ ps o2 host)) as ->.
  { unfold calculator in Ef. repeat case_match; simplify_eq; first [exact Hcr|apply Hst]. }
  rewrite Hf. destruct (f (Context_ ps o2 host)); [|done]. cbn [mbind res_bind].
  destruct (find_local_replica (Context_ ps o2 host)); reflexivity.
Qed.

(** What a storage resource answers does not depend on the votes recorded so far. *)
#[export] Instance unix_answer_proper ps opr host p v :
  Proper (same_object ==> eq) (fun s => (unix_file_resolve_hierarchy table ps opr host p v s).1).
Proof.
  intros s1 s2 Hs. unfold unix_file_resolve_hierarchy.
  change (get_resource_name (Context_ ps (v_obj s1) host))
    with (get_resource_name (Context_ ps (v_obj s2) host)).
  destruct (get_resource_name _) as [name|]; [|done].
  pose proof (calculate_votes opr ps host _ _ Hs) as Hc.
  destruct (calculate table opr (Context_ ps (v_obj s1) host)) as [[q1 rs1]|e1],
           (calculate table opr (Context_ ps (v_obj s2) host)) as [[q2 rs2]|e2];
    cbn in Hc; simplify_eq; [done|]. by destruct e2.
Qed.
End determined.

Section choice.
Context (opr : string) (host : bstr) (o : file_object).

(** Asked with the parser [p], the resource answers [a], whatever vote it is handed
    and whatever votes were recorded before. *)
Definition gives (p : list bstr) (r : resolver) (a : answer) : Prop :=
  forall v s, strip (v_obj s) = o ->
    exists s', r opr host p v s = (Ok a, s') /\ strip (v_obj s') = o.

Definition accepted (a : answer) : Prop := a.1.1 = SUCCESS /\ ~ (a.2 == 0)%Q.

Lemma gives_copy p r a : DELIM ∉ p -> gives p r a -> gives (hierarchy_parser_copy p) r a.
Proof. intros Hp. by rewrite parser_copy. Qed.

(** *** Deferred: the highest vote *)

Definition by_vote (m : list (Q * list bstr)) : Prop := StronglySorted (fun a b => (a.1 < b.1)%Q) m.

Lemma result_map_set_keys v p m (P : Q -> Prop) :
  Proper (Qeq ==> iff) P -> P v -> Forall (fun a => P a.1) m ->
  Forall (fun a => P a.1) (result_map_set v p m).
Proof.
  intros Hproper Hv. induction m as [|[w q] m IH]; cbn [result_map_set]; intros Hm; [by constructor|].
  apply Forall_cons in Hm as [Hw Hm].
  destruct (Qeq_bool v w); [by constructor|]. destruct (Qle_bool v w); repeat constructor; auto.
Qed.

Lemma result_map_set_sorted v p m : by_vote m -> by_vote (result_map_set v p m).
Proof.
  induction m as [|[w q] m IH]; cbn [result_map_set]; intros Hm; [by repeat constructor|].
  inversion Hm as [|? ? Hm' Hw]; subst. destruct (Qeq_bool v w) eqn:Eeq; [by constructor|].
  apply Qeq_bool_neq in Eeq. destruct (Qle_bool v w) eqn:Ele.
  - apply Qle_bool_iff in Ele. assert (v < w)%Q as Hvw by (apply Qle_lteq in Ele; tauto).
    constructor; [done|]. constructor; [done|]. eapply Forall_impl; [exact Hw|].
    intros a Ha. cbn in *. eauto using Qlt_trans.
  - constructor; [by apply IH|]. apply (result_map_set_keys v p m (fun x => w < x)%Q); [| |done].
    + intros x y Hxy. by rewrite Hxy.
    + assert (~ (v <= w)%Q) as Hn by (rewrite <- Qle_bool_iff; by rewrite Ele). by apply Qnot_le_lt.
Qed.

Lemma result_map_set_has v p m :
  (exists w q, (w, q) ∈ result_map_set v p m /\ (w == v)%Q) /\
  forall w q, (w, q) ∈ m -> exists w' q', (w', q') ∈ result_map_set v p m /\ (w' == w)%Q.
Proof.
  induction m as [|[w q] m [IH1 IH2]]; cbn [result_map_set].
  { split; [exists v, p; split; [by left|done]|by intros w q ?%not_elem_of_nil]. }
  destruct (Qeq_bool v w) eqn:Eeq.
  { apply Qeq_bool_iff in Eeq. split; [exists w, p; split; [by left|by symmetry]|].
    intros w' q' [[= -> ->]|Hin]%elem_of_cons; [exists w, p|exists w', q']; split; try done;
      [by left|by right]. }
  destruct (Qle_bool v w).
  { split; [exists v, p; split; [by left|done]|]. intros w' q' Hin. exists w', q'.
    split; [by right|done]. }
  split.
  - destruct IH1 as (w' & q' & ? & ?). exists w', q'. split; [by right|done].
  - intros w' q' [[= -> ->]|Hin]%elem_of_cons; [exists w, q; split; [by left|done]|].
    destruct (IH2 _ _ Hin) as (w'' & q'' & ? & ?). exists w'', q''. split; [by right|done].
Qed.

Lemma by_vote_last m w q : by_vote m -> last m = Some (w, q) -> forall w' q', (w', q') ∈ m -> (w' <= w)%Q.
Proof.
  intros Hm. revert w q. induction Hm as [|[w0 q0] m Hm IH Hw0]; intros w q Hl w' q' Hin; [done|].
  destruct m as [|a m].
  { injection Hl as -> ->. apply list_elem_of_singleton in Hin as [= -> ->]. apply Qle_refl. }
  rewrite last_cons_cons in Hl. apply elem_of_cons in Hin as [[= -> ->]|Hin]; [|by eapply IH].
  apply Qlt_le_weak. apply (proj1 (Forall_forall _ _) Hw0 (w, q)).
  rewrite last_lookup in Hl. by eapply list_elem_of_lookup_2.
Qed.

(** The votes collected from children that answer as given. *)
Lemma collect_votes_gives p children as_ m s :
  DELIM ∉ p -> Forall2 (fun c a => gives p c.2 a) children as_ -> strip (v_obj s) = o -> by_vote m ->
  exists m' s', collect_votes opr host p children m s = (Ok m', s') /\ strip (v_obj s') = o /\ by_vote m' /\
    (forall e q w, (e, q, w) ∈ as_ -> e = SUCCESS -> exists w' q', (w', q') ∈ m' /\ (w' == w)%Q) /\
    (forall w q, (w, q) ∈ m -> exists w' q', (w', q') ∈ m' /\ (w' == w)%Q) /\
    (forall w q, (w, q) ∈ m' -> (w, q) ∈ m \/ exists w', (SUCCESS, q, w') ∈ as_ /\ (w' == w)%Q).
Proof.
  intros Hp Hg. revert m s. induction Hg as [|[key r] [[e q] w] children as_ Hr Hg IH]; intros m s Hs Hm.
  { exists m, s. split_and!; try done;
      [by intros ? ? ? ?%not_elem_of_nil|intros w q Hin; by exists w, q|by eauto]. }
  cbn [collect_votes snd] in *. run_M.
  destruct (gives_copy _ _ _ Hp Hr 0%Q s Hs) as (s1 & -> & Hs1).
  set (m1 := if error_ok e then result_map_set w q m else m).
  assert (by_vote m1) as Hm1 by (unfold m1; destruct (error_ok e); [by apply result_map_set_sorted|done]).
  destruct (IH m1 s1 Hs1 Hm1) as (m' & s' & Hx & Hs' & Hm' & H1 & H2 & H3).
  exists m', s'. split_and!; try done.
  - intros e0 q0 w0 [[= -> -> ->]|Hin]%elem_of_cons He; [|by eapply H1]. subst.
    destruct (result_map_set_has w q m) as [(w1 & q1 & Hin & Hw) _].
    destruct (H2 w1 q1 Hin) as (w2 & q2 & ? & ?). exists w2, q2. split; [done|]. by rewrite <- Hw.
  - intros w0 q0 Hin. destruct (error_ok e); [|by eapply H2].
    destruct (result_map_set_has w q m) as [_ Hh]. destruct (Hh _ _ Hin) as (w1 & q1 & Hin1 & Hw).
    destruct (H2 w1 q1 Hin1) as (w2 & q2 & ? & ?). exists w2, q2. split; [done|]. by rewrite <- Hw.
  - intros w0 q0 Hin. destruct (H3 _ _ Hin) as [Hin1|(w1 & ? & ?)];
      [|right; exists w1; split; [by right|done]].
    unfold m1 in Hin1. destruct (error_ok e) eqn:Ee; [|by left]. destruct e; [|done].
    apply result_map_set_elem in Hin1 as [?|[Hw ->]]; [by left|].
    right. exists w. split; [by left|by symmetry].
Qed.

Lemma deferred_choice p children as_ v s :
  DELIM ∉ p -> Forall2 (fun c a => gives p c.2 a) children as_ -> strip (v_obj s) = o ->
  exists q w s', deferred_redirect_for_operation children opr host p v s = (Ok (SUCCESS, q, w), s') /\
    strip (v_obj s') = o /\
    (forall q' w', (SUCCESS, q', w') ∈ as_ -> (w' <= w)%Q) /\
    ((w == 0)%Q /\ q = p \/ (0 < w)%Q /\ exists w', (SUCCESS, q, w') ∈ as_ /\ (w' == w)%Q).
Proof.
  intros Hp Hg Hs. unfold deferred_redirect_for_operation.
  destruct children as [|c children].
  { apply Forall2_nil_inv_l in Hg as ->. exists p, 0%Q, s. split_and!; [done|done| |by left].
    by intros ? ? ?%not_elem_of_nil. }
  destruct (collect_votes_gives p (c :: children) as_ [] s Hp Hg Hs) as (m & s' & Hx & Hs' & Hm & H1 & _ & H3);
    [constructor|].
  run_M. rewrite Hx. destruct (last m) as [[w q]|] eqn:El.
  - pose proof (by_vote_last m w q Hm El) as Hmax.
    assert (forall q' w', (SUCCESS, q', w') ∈ as_ -> (w' <= w)%Q) as Hle.
    { intros q' w' Hin. destruct (H1 _ _ _ Hin eq_refl) as (w1 & q1 & Hin1 & <-). by eapply Hmax. }
    destruct (Qle_bool w 0) eqn:Ew; cbn [negb].
    + apply Qle_bool_iff in Ew. exists p, 0%Q, s'. split_and!; [done|done| |by left].
      intros q' w' Hin. eauto using Qle_trans.
    + exists q, w, s'. split_and!; [done|done|by eauto|]. right. split.
      * apply Qnot_le_lt. rewrite <- Qle_bool_iff. by rewrite Ew.
      * destruct (H3 w q) as [?%not_elem_of_nil|?]; [|done|done].
        rewrite last_lookup in El. by eapply list_elem_of_lookup_2.
  - apply last_None in El as ->. exists p, 0%Q, s'. split_and!; [done|done| |by left].
    intros q' w' Hin. destruct (H1 _ _ _ Hin eq_refl) as (? & ? & ?%not_elem_of_nil & _). done.
Qed.

(** *** Random: some child that accepts *)

Lemma random_index_lt n s : (0 < n)%nat ->
  exists i s', random_index n s = (Ok i, s') /\ (i < n)%nat /\ v_obj s' = v_obj s.
Proof.
  intros Hn. destruct n as [|n]; [lia|]. eexists _, _. split; [done|]. split; [|done].
  set (d := from_option id 0 (head (v_draws s))).
  pose proof (Z.mod_pos_bound d (Z.of_nat (S n)) ltac:(lia)). lia.
Qed.

Lemma valid_child_loop_gives fuel p v candidates as_ s :
  DELIM ∉ p -> Forall2 (gives p) candidates as_ -> strip (v_obj s) = o ->
  (length candidates <= fuel)%nat ->
  exists x s', valid_child_loop fuel opr host p v candidates s = (Ok x, s') /\
    strip (v_obj s') = o /\
    (x ∈ as_ /\ accepted x \/
     x.1.1 = ERROR NO_NEXT_RESC_FOUND /\ Forall (fun a => ~ accepted a) as_).
Proof.
  intros Hp. revert v candidates as_ s.
  induction fuel as [|fuel IH]; intros v candidates as_ s Hg Hs Hf.
  { destruct candidates; [|simpl in Hf; lia]. apply Forall2_nil_inv_l in Hg as ->.
    eexists _, s. split; [done|]. split; [done|]. right. split; [done|constructor]. }
  destruct candidates as [|r0 rest].
  { apply Forall2_nil_inv_l in Hg as ->.
    eexists _, s. split; [done|]. split; [done|]. right. split; [done|constructor]. }
  cbn [valid_child_loop]. set (cs := r0 :: rest) in *. unfold mbind at 1, M_bind at 1.
  destruct (random_index_lt (length cs) s) as (i & s0 & -> & Hi & Ho); [simpl; lia|].
  cbn beta iota. destruct (_ !! i) as [r|] eqn:Hr; 
    [|exact (False_ind _ (Nat.lt_irrefl _ (Nat.lt_le_trans _ _ _ Hi (proj1 (lookup_ge_None _ _) Hr))))].
  destruct (Forall2_lookup_l _ _ _ _ _ Hg Hr) as ([[e q] w] & Ha & Hra).
  destruct (gives_copy _ _ _ Hp Hra v s0) as (s1 & Hc & Hs1); [by rewrite Ho|].
  run_M. rewrite Hc. destruct (error_ok e && negb (Qeq_bool w 0)) eqn:Eok.
  - exists (SUCCESS, q, w), s1. split; [done|]. split; [done|]. left.
    apply andb_true_iff in Eok as [He Hw]. destruct e; [|done].
    split; [by eapply list_elem_of_lookup_2|]. split; [done|]. by apply Qeq_bool_neq, negb_true_iff.
  - destruct (IH w (delete i cs) (delete i as_) s1) as (x & s' & Hx & Hs' & Hres); [|done| |].
    + by apply Forall2_delete.
    + rewrite length_delete by eauto. lia.
    + exists x, s'. split; [done|]. split; [done|]. destruct Hres as [[Hin ?]|[He Hall]].
      * left. split; [|done]. rewrite (delete_Permutation as_ i _ Ha). by right.
      * right. split; [done|]. rewrite (delete_Permutation as_ i _ Ha). constructor; [|done].
        intros [He' Hw]. cbn in He', Hw. subst e. cbn in Eok.
        by apply Hw, Qeq_bool_iff, negb_false_iff.
Qed.
End choice.

(** A storage resource always gives the answer it gives once. *)
Lemma unix_gives `{L : LexicalCast} table ps name opr host p a s0 :
  has_name ps name -> (unix_file_resolve_hierarchy table ps opr host p 0%Q s0).1 = Ok a ->
  gives opr host (strip (v_obj s0)) p (unix_file_resolve_hierarchy table ps) a.
Proof.
  intros Hn Ha v s Hs. exists (unix_file_resolve_hierarchy table ps opr host p v s).2.
  assert ((unix_file_resolve_hierarchy table ps opr host p v s).1 = Ok a) as Hx.
  { rewrite <- Ha. exact (unix_answer_proper table ps opr host p 0%Q s s0 Hs). }
  split; [rewrite <- Hx; apply surjective_pairing|].
  destruct (unix_file_resolve_hierarchy table ps opr host p v s) as [x s'] eqn:E. cbn [snd].
  destruct (unix_voter table opr (strip (v_obj s)) ps name Hn _ _ _ _ _ _ eq_refl E) as [-> _]. done.
Qed.

(** ** Properties *)

(** C26: A hierarchy that wins a vote is one of the resource's own or the one the request names:
    whatever a well-formed tree of resources is asked, an answer with a vote that is not
    zero comes with a path from its root down to a storage resource, or, if the request has
    the keyword for a resolved hierarchy, with just that hierarchy, which a replication
    resource returns unchecked; and nothing of the file object changed but the recorded
    votes. Well-formed means that every resource has a name and that no child of a
    replication resource answers that a child of its own is missing. *)
Theorem voted_hierarchy_is_path `{L : LexicalCast, B : BoostString}
    table cast_double time_now opr host n s p v s' :
  well_formed opr (strip (v_obj s)) n ->
  resolve table cast_double time_now n opr host [] 0%Q s = (Ok (SUCCESS, p, v), s') ->
  ~ (v == 0)%Q ->
  (path n p \/ requested (v_obj s) p) /\ strip (v_obj s') = strip (v_obj s).
Proof.
  intros Hwf Hx Hv.
  destruct (resolve_voter table cast_double time_now opr (strip (v_obj s)) n Hwf
              host [] 0%Q s _ _ eq_refl Hx) as [Hs Hp].
  destruct Hp as [(l & Hl & ->)|Hr]; [by apply not_elem_of_nil|done|by split; [left|]|by split; [right|]].
Qed.

(** A deferred resource whose children answer returns the highest vote any of
    them gave, with that child's hierarchy, or no vote when none is positive. *)
Theorem deferred_highest opr host o name children as_ p v s :
  is_open_write_unlink opr = true \/ opr = CREATE_OPERATION ->
  name <> DELIM -> DELIM ∉ p -> strip (v_obj s) = o ->
  Forall2 (fun c a => gives opr host o (p ++ [name]) c.2 a) children as_ ->
  exists q w s', deferred_file_resolve_hierarchy name children opr host p v s = (Ok (SUCCESS, q, w), s') /\
    strip (v_obj s') = o /\
    (forall q' w', (SUCCESS, q', w') ∈ as_ -> (w' <= w)%Q) /\
    ((w == 0)%Q /\ q = p ++ [name] \/ (0 < w)%Q /\ exists w', (SUCCESS, q, w') ∈ as_ /\ (w' == w)%Q).
Proof.
  intros Hop Hn Hp Hs Hg. unfold deferred_file_resolve_hierarchy. rewrite add_child_name by done.
  assert (is_open_write_unlink opr || String.eqb opr CREATE_OPERATION = true) as ->
    by (by destruct Hop as [->| ->]).
  apply deferred_choice; [by apply no_delim_snoc|done|done].
Qed.

(** A random resource asked to create, whatever numbers are drawn, finds a child
    that accepts if there is one, after asking every child at most once, and fails
    with NO_NEXT_RESC_FOUND exactly when none accepts. *)
Theorem random_create_complete host o name children as_ p v s :
  name <> DELIM -> DELIM ∉ p -> strip (v_obj s) = o ->
  Forall2 (fun c a => gives CREATE_OPERATION host o (p ++ [name]) c.2 a) children as_ ->
  exists x s', random_file_resolve_hierarchy name children CREATE_OPERATION host p v s = (Ok x, s') /\
    (x ∈ as_ /\ accepted x \/
     x.1.1 = ERROR NO_NEXT_RESC_FOUND /\ Forall (fun a => ~ accepted a) as_).
Proof.
  intros Hn Hp Hs Hg. unfold random_file_resolve_hierarchy. rewrite add_child_name by done. cbn [snd].
  change (is_open_write_unlink CREATE_OPERATION) with false. cbn match. rewrite String.eqb_refl.
  unfold get_next_valid_child_resource.
  destruct (valid_child_loop_gives CREATE_OPERATION host o (length children.*2) (p ++ [name]) v
              children.*2 as_ s) as (x & s' & ? & _ & ?);
    [by apply no_delim_snoc|by apply Forall2_fmap_l|done|done|]. by exists x, s'.
Qed.

(** A replication resource with the random read policy divides by zero when every
    child that answered voted zero: the list of candidates is empty and the random
    index is taken modulo its size. *)
Theorem random_read_without_votes map p s :
  map <> [] -> Forall (fun i => (i.1 <= 0)%Q) map ->
  select_child (Some (lit "random")) OPEN_OPERATION map p s = (Throw Eundef, s).
Proof.
  intros Hne Hmap. destruct map as [|[w q] map]; [done|]. unfold select_child.
  change (String.eqb OPEN_OPERATION OPEN_OPERATION && from_option (bstr_eqb (lit "random")) false
    (Some (lit "random"))) with true. cbn match.
  unfold process_redirect_map_for_random_open.
  assert (base.filter (fun i => negb (Qle_bool i.1 0)) ((w, q) :: map) = []) as ->; [|done].
  clear Hne. induction Hmap as [|i m Hi _ IH]; [done|]. apply Qle_bool_iff in Hi.
  rewrite filter_cons_False; [done|]. rewrite Hi. by intros [].
Qed.

(** ** Witnesses *)

#[local] Existing Instance lexical_cast_ref.
#[local] Existing Instance boost_ref.

Definition disk (name : string) : props := list_to_map [
  ("resource_property_name", PString (lit name));
  ("resource_property_status", PInt 0);
  ("resource_property_location", PString (lit "host"))].

Definition replica_on (num : Z) (hier : string) : physical_object :=
  PhysicalObject 7 num GOOD_REPLICA (lit hier) vote_zero.

Definition sample_tree (read : option bstr) : node :=
  Replication (lit "repl") read
    [(lit "a", Storage (disk "a")); (lit "b", Storage (disk "b"))].

Definition sample_state (rs : list physical_object) (draws : list Z) : vstate :=
  VState (FileObject 5 (-1) ∅ rs) draws.

Lemma disk_name n : lit n <> DELIM -> has_name (disk n) (lit n).
Proof. by split. Qed.

Lemma sample_tree_well_formed opr o : well_formed opr o (sample_tree None).
Proof.
  split; [by exists (lit "repl")|]. split; [|by repeat split].
  repeat split; [exists (lit "a")|exists (lit "b")]; by apply disk_name.
Qed.

Lemma voted_hierarchy_is_path_witness :
  path (sample_tree None) [lit "repl"; lit "b"].
Proof.
  destruct (resolve ∅ (fun _ => None) 0 (sample_tree None) OPEN_OPERATION (lit "host") [] 0%Q
    (sample_state [replica_on 0 "repl;b"] [])) as [x s'] eqn:E.
  assert (x = Ok (SUCCESS, [lit "repl"; lit "b"], 1%Q)) as ->
    by (apply (f_equal fst) in E; change ((x, s').1) with x in E; rewrite <- E; vm_compute; reflexivity).
  destruct (voted_hierarchy_is_path ∅ (fun _ => None) 0 OPEN_OPERATION (lit "host")
    (sample_tree None) _ _ 1%Q s' (sample_tree_well_formed _ _) E) as [[H|(h & e & H & _)] _];
    [discriminate|exact H|discriminate].
Defined.

(** The hierarchy that a request names gets the highest vote of a replication resource, whether
    or not it is one of the resource's. *)
Example requested_hierarchy_unchecked :
  (resolve ∅ (fun _ => None) 0 (sample_tree None) OPEN_OPERATION (lit "host") [] 0%Q
    (VState (FileObject 5 (-1) {[RESC_HIER_STR_KW := "elsewhere"%string]} []) [])).1 =
    Ok (SUCCESS, [lit "elsewhere"], 1%Q).
Proof. vm_compute. reflexivity. Qed.

Definition create_state : vstate := sample_state [] [5; 3].

Lemma disk_gives n : lit n <> DELIM ->
  (unix_file_resolve_hierarchy ∅ (disk n) CREATE_OPERATION (lit "host") [lit "top"] 0%Q create_state).1 =
    Ok (SUCCESS, [lit "top"; lit n], 1%Q) ->
  gives CREATE_OPERATION (lit "host") (strip (v_obj create_state)) [lit "top"]
    (unix_file_resolve_hierarchy ∅ (disk n)) (SUCCESS, [lit "top"; lit n], 1%Q).
Proof. intros Hn. apply (unix_gives ∅ (disk n) (lit n)). by apply disk_name. Qed.

Definition two_disks : list (bstr * resolver) :=
  [(lit "a", unix_file_resolve_hierarchy ∅ (disk "a")); (lit "b", unix_file_resolve_hierarchy ∅ (disk "b"))].

Definition two_answers : list answer :=
  [(SUCCESS, [lit "top"; lit "a"], 1%Q); (SUCCESS, [lit "top"; lit "b"], 1%Q)].

Lemma two_disks_give :
  Forall2 (fun c a => gives CREATE_OPERATION (lit "host") (strip (v_obj create_state)) [lit "top"] c.2 a)
    two_disks two_answers.
Proof.
  repeat constructor; (apply disk_gives; [done|vm_compute; reflexivity]).
Qed.

Lemma deferred_highest_witness :
  exists q w s', deferred_file_resolve_hierarchy (lit "top") two_disks CREATE_OPERATION (lit "host") [] 0%Q
    create_state = (Ok (SUCCESS, q, w), s') /\ (1 <= w)%Q.
Proof.
  destruct (deferred_highest CREATE_OPERATION (lit "host") (strip (v_obj create_state)) (lit "top")
    two_disks two_answers [] 0%Q create_state) as (q & w & s' & H1 & _ & H2 & _);
    [by right|done|by apply not_elem_of_nil|done|exact two_disks_give|].
  exists q, w, s'. split; [done|]. apply (H2 [lit "top"; lit "a"] 1%Q). by left.
Defined.

Lemma random_create_complete_witness :
  exists x s', random_file_resolve_hierarchy (lit "top") two_disks CREATE_OPERATION (lit "host") [] 0%Q
    create_state = (Ok x, s') /\
    (x ∈ two_answers /\ accepted x \/
     x.1.1 = ERROR NO_NEXT_RESC_FOUND /\ Forall (fun a => ~ accepted a) two_answers).
Proof.
  apply (random_create_complete (lit "host") (strip (v_obj create_state)) (lit "top")
    two_disks two_answers [] 0%Q create_state);
    [done|by apply not_elem_of_nil|done|exact two_disks_give].
Defined.

Lemma random_read_without_votes_witness :
  select_child (Some (lit "random")) OPEN_OPERATION [(0%Q, [lit "repl"; lit "a"])] [lit "repl"]
    create_state = (Throw Eundef, create_state).
Proof. apply random_read_without_votes; [done|]. by repeat constructor. Defined.

(** The same in a whole hierarchy: opening an object that has no replica below the
    resource. *)
Example random_read_undefined :
  (resolve ∅ (fun _ => None) 0 (sample_tree (Some (lit "random"))) OPEN_OPERATION (lit "host") [] 0%Q
    (sample_state [replica_on 0 "other"] [0])).1 = Throw Eundef.
Proof. vm_compute. reflexivity. Qed.

(** A child that answers CHILD_NOT_FOUND is entered with the vote of the child
    before it: reading at random can pick a resource that has no children. *)
Example stale_vote_selected :
  (resolve ∅ (fun _ => None) 0
    (Replication (lit "repl") (Some (lit "random"))
       [(lit "a", Storage (disk "a")); (lit "e", Replication (lit "e") None [])])
    OPEN_OPERATION (lit "host") [] 0%Q (sample_state [replica_on 0 "repl;a"] [1])).1 =
  Ok (SUCCESS, [lit "repl"; lit "e"], 1%Q).
Proof. vm_compute. reflexivity. Qed.
