(* ===== verification/Quota.v ===== *)
(** * Resource quotas

    [server/api/src/rsGetRescQuota.cpp], with [msiSetRescQuotaPolicy] of
    [server/re/src/reSysDataObjOpr.cpp]: whether quotas are enforced, the overrun
    recorded at a resource as data is written, and the check made before an object
    is created. The globals [RescQuotaPolicy] and [GlobalQuotaOverrun] and the
    property [RESOURCE_QUOTA_OVERRUN] of every resource are the state. The catalog
    query and the connection to the catalog's host are parameters, and so is the
    policy [acRescQuotaPolicy]: its status, and the calls of
    [msiSetRescQuotaPolicy] it makes. *)

From stdpp Require Import base gmap list strings.
From Stdlib Require Import ZArith Lia Ascii.
From S2P Require Import Prelude Errors Numerals Hierarchy Resources.
Local Open Scope Z_scope.
Local Set Warnings "-register-all".

Definition RESC_QUOTA_UNINIT : Z := -1.
Definition RESC_QUOTA_OFF : Z := 0.
Definition RESC_QUOTA_ON : Z := 1.
Definition GLB_QUOTA : Z := 1.
Definition RESC_QUOTA : Z := 2.
Definition ALL_QUOTA : Z := Z.lor GLB_QUOTA RESC_QUOTA.
Definition GLOBAL_QUOTA : Z := 1.
Definition NAME_LEN : nat := 64.
Definition MAX_NAME_LEN : nat := 1088.

Definition COL_R_RESC_NAME : Z := 302.
Definition COL_QUOTA_USER_ID : Z := 2000.
Definition COL_QUOTA_RESC_ID : Z := 2001.
Definition COL_QUOTA_LIMIT : Z := 2002.
Definition COL_QUOTA_OVER : Z := 2003.

Record quota_state : Type := QuotaState {
  RescQuotaPolicy : Z;
  GlobalQuotaOverrun : Z;
  overruns : gmap nat Z  (* RESOURCE_QUOTA_OVERRUN, where it is set *)
}.

Record rescQuota : Type := RescQuota {
  q_rescName : bstr; q_userId : bstr; q_flags : Z; q_quotaLimit : Z; q_quotaOverrun : Z
}.

(** [genQueryOut_t]: the columns by their index. *)
Record genQueryOut : Type := GenQueryOut { rowCnt : nat; sqlResult : list (Z * list bstr) }.

(** Addition of [rodsLong_t]; overflow of a signed type is undefined. *)
Definition add_long (a b : Z) : res Z :=
  if (LONG_MIN <=? a + b) && (a + b <=? LONG_MAX) then Ok (a + b) else Throw Eundef.

(** [rstrcpy(dest, src, maxLen)] and [snprintf]: what [dest] holds. *)
Definition rstrcpy (src : bstr) (maxLen : nat) : bstr := take (maxLen - 1) src.

(** ** Reading the quotas *)

Fixpoint getSqlResultByInx (attrs : list (Z * list bstr)) (attriInx : Z) : option (list bstr) :=
  match attrs with
  | [] => None
  | (inx, values) :: attrs' => if inx =? attriInx then Some values else getSqlResultByInx attrs' attriInx
  end.

Definition fillRescQuotaStruct (limit over name resc_id user_id : bstr) : rescQuota :=
  let by_resource := 0 <? strtoll0 resc_id in
  {| q_quotaLimit := strtoll0 limit;
     q_quotaOverrun := strtoll0 over;
     q_rescName := if by_resource then rstrcpy name NAME_LEN else [];
     q_flags := if by_resource then 0 else GLOBAL_QUOTA;
     q_userId := rstrcpy user_id NAME_LEN |}.

(** The rows are pushed at the front; a column shorter than [rowCnt] is read out of
    bounds. *)
Fixpoint queue_rows (rows : list nat) (limit over name resc_id user_id : list bstr)
    (head : list rescQuota) : res (list rescQuota) :=
  match rows with
  | [] => Ok head
  | i :: rows' =>
      match limit !! i, over !! i, name !! i, resc_id !! i, user_id !! i with
      | Some l, Some o, Some n, Some r, Some u =>
          queue_rows rows' limit over name resc_id user_id (fillRescQuotaStruct l o n r u :: head)
      | _, _, _, _, _ => Throw Eundef
      end
  end.

(** [queRescQuota]: the status and the list. *)
Definition queRescQuota (head : list rescQuota) (out : genQueryOut) : res (Z * list rescQuota) :=
  let col := getSqlResultByInx (sqlResult out) in
  match col COL_QUOTA_LIMIT, col COL_QUOTA_OVER, col COL_R_RESC_NAME, col COL_QUOTA_RESC_ID,
        col COL_QUOTA_USER_ID with
  | Some limit, Some over, Some name, Some resc_id, Some user_id =>
      head ← queue_rows (seq 0 (rowCnt out)) limit over name resc_id user_id head; Ok (0, head)
  | _, _, _, _, _ => Ok (UNMATCHED_KEY_OR_INDEX, head)
  end.

Record quota_env : Type := QuotaEnv {
  (** [getAndConnRcatHost]: its status, and whether the host is this one. *)
  getAndConnRcatHost : bstr -> Z * bool;
  (** The quota query for a user and, when one is given, a resource. *)
  quota_query : bstr -> option bstr -> Z * genQueryOut;
  (** [rcGetRescQuota]: the request sent to the catalog's host. *)
  rcGetRescQuota : bstr -> bstr -> bstr -> Z * list rescQuota;
  (** [acRescQuotaPolicy]: its status and the flags it sets. *)
  acRescQuotaPolicy : Z * list bstr
}.

Section quota.
Context (env : quota_env) (m : resource_manager) (userName rodsZone : bstr).

Definition getQuotaByResc (user rescName : bstr) : Z * genQueryOut :=
  quota_query env (rstrcpy user MAX_NAME_LEN)
    (match rescName with [] => None | _ => Some (rstrcpy rescName MAX_NAME_LEN) end).

(** [_rsGetRescQuota]: a failed query is reported as success, with no quota. *)
Definition rsGetRescQuota_local (user rescName : bstr) : res (Z * list rescQuota) :=
  let '(status, out) := getQuotaByResc user rescName in
  if 0 <=? status then '(_, head) ← queRescQuota [] out; Ok (0, head) else Ok (0, []).

Definition rsGetRescQuota (zoneHint user rescName : bstr) : res (Z * list rescQuota) :=
  let '(status, local) := getAndConnRcatHost env zoneHint in
  if status <? 0 then Ok (status, [])
  else if local then rsGetRescQuota_local user rescName
  else Ok (rcGetRescQuota env zoneHint user rescName).

(** ** Policy *)

Definition set_policy (p : Z) (s : quota_state) : quota_state :=
  QuotaState p (GlobalQuotaOverrun s) (overruns s).

Definition msiSetRescQuotaPolicy (flag : bstr) : M quota_state Z := fun s =>
  let p := if bstr_eqb flag (lit "on") then RESC_QUOTA_ON else RESC_QUOTA_OFF in
  (Ok p, set_policy p s).

Definition chkRescQuotaPolicy : M quota_state Z :=
  s ← get_state;
  if RescQuotaPolicy s =? RESC_QUOTA_UNINIT then
    let '(status, flags) := acRescQuotaPolicy env in
    _ ← for_each (fun flag => _ ← msiSetRescQuotaPolicy flag; mret tt) flags;
    s ← get_state;
    _ ← (if status <? 0 then put_state (set_policy RESC_QUOTA_OFF s) else mret tt);
    s ← get_state;
    mret (RescQuotaPolicy s)
  else mret (RescQuotaPolicy s).

(** ** Recording and checking *)

(** [get_resource_property<rodsLong_t>(id, RESOURCE_QUOTA_OVERRUN, v)] *)
Definition get_overrun (id : Z) (s : quota_state) : Z + Z :=
  match resolve_id m id with
  | Ok p => match overruns s !! p with Some v => inr v | None => inl KEY_NOT_FOUND end
  | Throw (Eirods c) => inl c
  | Throw _ => inl SYS_RESC_DOES_NOT_EXIST
  end.

(** [set_resource_property<rodsLong_t>(name, RESOURCE_QUOTA_OVERRUN, v)] *)
Definition set_overrun (name : bstr) (v : Z) (s : quota_state) : error * quota_state :=
  match resolve_name m name with
  | Ok p => (SUCCESS, QuotaState (RescQuotaPolicy s) (GlobalQuotaOverrun s) (<[p := v]> (overruns s)))
  | Throw (Eirods c) => (ERROR c, s)
  | Throw _ => (ERROR SYS_RESC_DOES_NOT_EXIST, s)
  end.

Definition setRescQuota (obj_path resc_name : bstr) (data_size : Z) : M quota_state Z :=
  status ← chkRescQuotaPolicy;
  if negb (status =? RESC_QUOTA_ON) then mret 0
  else
    r ← lift (hier_to_leaf_id_error m resc_name);
    match r with
    | inl c => mret c
    | inr resc_id =>
        s ← get_state;
        let checked resc_overrun :=
          '(status, quotas) ← lift (rsGetRescQuota (rstrcpy obj_path MAX_NAME_LEN)
             (rstrcpy (userName ++ lit "#" ++ rodsZone) NAME_LEN) (rstrcpy resc_name NAME_LEN));
          match quotas with
          | [] => mret status
          | q :: _ =>
              if status <? 0 then mret status
              else if q_quotaOverrun q =? 0 then mret 0
              else
                sum ← lift (add_long (q_quotaOverrun q) resc_overrun ≫= fun x => add_long x data_size);
                mret (if 0 <? sum then SYS_RESC_QUOTA_EXCEEDED else 0)
          end in
        match get_overrun resc_id s with
        | inr v => checked v
        | inl c => if c =? KEY_NOT_FOUND then checked 0 else mret c
        end
    end.

(** [GlobalQuotaOverrun += _data_size] *)
Definition add_global (data_size : Z) : M quota_state unit :=
  s ← get_state;
  g ← lift (add_long (GlobalQuotaOverrun s) data_size);
  put_state (QuotaState (RescQuotaPolicy s) g (overruns s)).

Definition updatequotaOverrun (resc_hier : bstr) (data_size flags : Z) : M quota_state Z :=
  _ ← (if 0 <? Z.land flags GLB_QUOTA then add_global data_size else mret tt);
  if 0 <? Z.land flags RESC_QUOTA then
    '(_, l) ← lift (set_string resc_hier);
    let root := first_resc l in
    r ← lift (hier_to_leaf_id_error m root);
    match r with
    | inl c => mret c
    | inr resc_id =>
        s ← get_state;
        over_run ← lift (add_long (match get_overrun resc_id s with inr v => v | inl _ => 0 end) data_size);
        let '(e, s) := set_overrun root over_run s in
        _ ← put_state s;
        mret (match e with SUCCESS => 0 | ERROR c => c end)
    end
  else mret 0.
End quota.

(** ** Facts *)

Section facts.
Context `{L : LexicalCast} (env : quota_env) (m : resource_manager).
Context (Hm : manager_valid m) (p : nat) (r : resource) (Hp : heap m !! p = Some r).

Lemma set_string_one n : valid_name n -> set_string n = Ok (SUCCESS, [n]).
Proof using Type.
  intros Hn. pose proof (hierarchy_parser_one n Hn) as H. unfold hierarchy_parser in H.
  unfold set_string. destruct (string_tokenize n DELIM []) as [[|x l]|]; by simplify_eq/=.
Qed.

Lemma leaf_id_of_name : hier_to_leaf_id_error m (r_name r) = Ok (inr (r_id r)).
Proof using Hm Hp.
  destruct (proj2 Hm p r Hp) as [Hn _]. unfold hier_to_leaf_id_error. rewrite set_string_one by done.
  simpl. rewrite (wf_name m (proj1 Hm) p r Hp). unfold deref. rewrite Hp.
  destruct Hn as (Hne & _). by destruct (r_name r).
Qed.

(** The overrun recorded at the resource, none counting as 0. *)
Definition overrun_of (s : quota_state) : Z := from_option id 0 (overruns s !! p).

Lemma get_overrun_of s :
  get_overrun m (r_id r) s = match overruns s !! p with Some v => inr v | None => inl KEY_NOT_FOUND end.
Proof using Hm Hp. unfold get_overrun, resolve_id. by rewrite (wf_id m (proj1 Hm) p r Hp). Qed.

Lemma add_long_ok a b : LONG_MIN <= a + b <= LONG_MAX -> add_long a b = Ok (a + b).
Proof using Type.
  intros [H1 H2]. unfold add_long. by rewrite (proj2 (Z.leb_le _ _) H1), (proj2 (Z.leb_le _ _) H2).
Qed.

(** A hierarchy below the resource. *)
Definition rooted (hier : bstr) : Prop := exists l, set_string hier = Ok (SUCCESS, r_name r :: l).

Lemma update_spec hier n s :
  rooted hier -> LONG_MIN <= GlobalQuotaOverrun s + n <= LONG_MAX ->
  LONG_MIN <= overrun_of s + n <= LONG_MAX ->
  updatequotaOverrun m hier n ALL_QUOTA s =
    (Ok 0, QuotaState (RescQuotaPolicy s) (GlobalQuotaOverrun s + n)
             (<[p := overrun_of s + n]> (overruns s))).
Proof using Hm Hp.
  intros [l Hl] Hg Ho. unfold updatequotaOverrun, add_global. change (0 <? Z.land ALL_QUOTA GLB_QUOTA) with true.
  change (0 <? Z.land ALL_QUOTA RESC_QUOTA) with true. cbn iota. run_M. rewrite add_long_ok by done.
  rewrite Hl. cbn [first_resc]. rewrite leaf_id_of_name, get_overrun_of. cbn [overruns].
  assert (add_long (match match overruns s !! p with Some v => inr v | None => inl KEY_NOT_FOUND end with
    inr v => v | inl _ => 0 end) n = Ok (overrun_of s + n)) as ->.
  { rewrite <- add_long_ok by done. unfold overrun_of. by destruct (overruns s !! p). }
  unfold set_overrun. by rewrite (resolve_name_spec m p r Hm Hp).
Qed.

(** Writing data of the given sizes below the resource. *)
Definition record_writes (writes : list (bstr * Z)) : M quota_state unit :=
  for_each (fun '(hier, n) => _ ← updatequotaOverrun m hier n ALL_QUOTA; mret tt) writes.

Definition total (writes : list (bstr * Z)) : Z := foldr (fun w => Z.add w.2) 0 writes.

Lemma total_nonneg writes : Forall (fun w => 0 <= w.2) writes -> 0 <= total writes.
Proof using Type. induction 1; simpl; lia. Qed.

Lemma record_writes_spec writes s :
  Forall (fun w => rooted w.1 /\ 0 <= w.2) writes ->
  0 <= GlobalQuotaOverrun s -> GlobalQuotaOverrun s + total writes <= LONG_MAX ->
  0 <= overrun_of s -> overrun_of s + total writes <= LONG_MAX ->
  exists s', record_writes writes s = (Ok tt, s') /\ RescQuotaPolicy s' = RescQuotaPolicy s /\
    overrun_of s' = overrun_of s + total writes.
Proof using Hm Hp.
  revert s. induction writes as [|[hier n] writes IH]; intros s Hw Hg1 Hg2 Ho1 Ho2.
  { exists s. split_and!; [done|done|simpl; lia]. }
  apply Forall_cons in Hw as [[Hr Hn] Hw]. simpl in Hr, Hn, Hg2, Ho2.
  assert (0 <= total writes) by (apply total_nonneg; eapply Forall_impl; [exact Hw|by intros ? []]).
  assert (LONG_MIN <= 0) by by unfold LONG_MIN.
  set (s1 := QuotaState (RescQuotaPolicy s) (GlobalQuotaOverrun s + n)
               (<[p := overrun_of s + n]> (overruns s))).
  assert (overrun_of s1 = overrun_of s + n) as E1
    by (unfold overrun_of at 1; cbn [overruns s1]; by rewrite lookup_insert_eq).
  destruct (IH s1 Hw) as (s' & Hx & Hpol & Hov); cbn [GlobalQuotaOverrun s1]; [lia|lia|lia|lia|].
  exists s'. split_and!; [|by rewrite Hpol|rewrite Hov, E1; simpl; lia].
  unfold record_writes. cbn [for_each]. run_M. rewrite update_spec by (done || lia). exact Hx.
Qed.
End facts.

(** C28: Quotas are enforced on what was written since the catalog computed them: after
    any writes below a root resource, creating an object of [size] bytes there is
    refused with SYS_RESC_QUOTA_EXCEEDED exactly when the catalog's overrun for the
    user is not zero and exceeds zero with the bytes written and [size] added. *)
Theorem quota_enforced `{L : LexicalCast} env m p r user zone path size writes q qs s :
  manager_valid m -> heap m !! p = Some r ->
  RescQuotaPolicy s = RESC_QUOTA_ON ->
  Forall (fun w => rooted r w.1 /\ 0 <= w.2) writes -> 0 <= size ->
  rsGetRescQuota env (rstrcpy path MAX_NAME_LEN) (rstrcpy (user ++ lit "#" ++ zone) NAME_LEN)
    (rstrcpy (r_name r) NAME_LEN) = Ok (0, q :: qs) ->
  LONG_MIN <= q_quotaOverrun q ->
  0 <= GlobalQuotaOverrun s -> GlobalQuotaOverrun s + total writes <= LONG_MAX ->
  0 <= overrun_of p s -> overrun_of p s + total writes <= LONG_MAX ->
  q_quotaOverrun q + overrun_of p s + total writes + size <= LONG_MAX ->
  exists s' s'', record_writes m writes s = (Ok tt, s') /\
    setRescQuota env m user zone path (r_name r) size s' =
      (Ok (if negb (q_quotaOverrun q =? 0) &&
              (0 <? q_quotaOverrun q + overrun_of p s + total writes + size)
           then SYS_RESC_QUOTA_EXCEEDED else 0), s'').
Proof.
  intros Hm Hp Hpol Hw Hsz Hq Hq0 Hg1 Hg2 Ho1 Ho2 Hsum.
  destruct (record_writes_spec m Hm p r Hp writes s Hw Hg1 Hg2 Ho1 Ho2) as (s' & Hx & Hpol' & Hov).
  assert (0 <= total writes) by (apply total_nonneg; eapply Forall_impl; [exact Hw|by intros ? []]).
  exists s', s'. split; [done|].
  assert (chkRescQuotaPolicy env s' = (Ok RESC_QUOTA_ON, s')) as Hc
    by (unfold chkRescQuotaPolicy; run_M; by rewrite Hpol', Hpol).
  unfold setRescQuota. rewrite (M_bind_ok _ _ _ _ _ Hc). change (negb (RESC_QUOTA_ON =? RESC_QUOTA_ON)) with false.
  cbn iota. run_M. rewrite (leaf_id_of_name m Hm p r Hp), (get_overrun_of m Hm p r Hp).
  assert (forall v, overrun_of p s' = v ->
    match add_long (q_quotaOverrun q) v with Ok x => add_long x size | Throw e => Throw e end =
      Ok (q_quotaOverrun q + overrun_of p s + total writes + size)) as Hadd.
  { intros v Hv. rewrite Hov in Hv. subst v.
    assert (LONG_MIN <= 0) by by unfold LONG_MIN.
    rewrite add_long_ok by lia. rewrite add_long_ok by lia. f_equal. lia. }
  unfold overrun_of in Hadd at 1. destruct (overruns s' !! p) as [v|]; cbn [from_option id] in Hadd;
    rewrite Hq; change (0 <? 0) with false; change (KEY_NOT_FOUND =? KEY_NOT_FOUND) with true; cbn iota;
    (destruct (q_quotaOverrun q =? 0); [done|]; unfold res_bind; rewrite (Hadd _ eq_refl); done).
Qed.

(** ** Instances *)

#[local] Existing Instance lexical_cast_ref.

(** One quota, 100 bytes below the limit, for everything the user stores. *)
Definition sample_env : quota_env :=
  QuotaEnv (fun _ => (0, true))
    (fun _ _ => (0, GenQueryOut 1 [(COL_QUOTA_LIMIT, [lit "1000"]); (COL_QUOTA_OVER, [lit "-100"]);
       (COL_R_RESC_NAME, [lit "root"]); (COL_QUOTA_RESC_ID, [lit "0"]); (COL_QUOTA_USER_ID, [lit "7"])]))
    (fun _ _ _ => (0, [])) (0, [lit "on"]).

Lemma quota_enforced_witness :
  exists s' s'',
    record_writes sample_manager [(lit "root;leaf", 60)] (QuotaState RESC_QUOTA_ON 0 ∅) = (Ok tt, s') /\
    setRescQuota sample_env sample_manager (lit "rods") (lit "zone") (lit "/zone/f") (lit "root") 41 s' =
      (Ok SYS_RESC_QUOTA_EXCEEDED, s'').
Proof.
  assert (exists r0 r1, heap sample_manager = [r0; r1] /\ r_name r0 = lit "root")
    as (r0 & r1 & Hh & N0) by (do 2 eexists; split_and!; vm_compute; reflexivity).
  pose proof (quota_enforced sample_env sample_manager 0 r0 (lit "rods") (lit "zone") (lit "/zone/f") 41
    [(lit "root;leaf", 60)] (fillRescQuotaStruct (lit "1000") (lit "-100") (lit "root") (lit "0") (lit "7")) []
    (QuotaState RESC_QUOTA_ON 0 ∅) sample_manager_valid) as H.
  rewrite N0 in H. apply H; [by rewrite Hh|done| |done|vm_compute; reflexivity|by vm_compute ..].
  repeat constructor; [|done]. exists [lit "leaf"]. rewrite N0. vm_compute. reflexivity.
Defined.
