(* ===== verification/Redirect.v ===== *)
(** * Hierarchy resolution and redirect

    [server/core/src/irods_resource_redirect.cpp]: from the client's request and the
    votes of the resources to the hierarchy an operation runs on and the host it
    runs at; with the functions it calls of [irods_resource_backport.cpp]
    ([is_hier_live], [set_default_resource]), [irods_file_object.cpp]
    ([file_object_factory], [get_replica]) and [reSysDataObjOpr.cpp]
    ([msiSetDefaultResc]).

    The code runs in [M] over the file object (with the votes its replicas get, as
    in [Coordinating]), its [resc_hier], the quotas and the list of replicas the
    caller gets back. A resource is asked by the operation of its plugin,
    [voter]; the answers of rules, of the catalog and of the network are
    parameters. *)

From stdpp Require Import base gmap list strings.
From Stdlib Require Import ZArith Lia Ascii QArith Lqa.
From S2P Require Import Prelude Errors Numerals Hierarchy Resources Quota Rat Voting Kvp Coordinating.
Local Open Scope Z_scope.
Local Set Warnings "-register-all".

Definition RESC_NAME_KW : string := "rescName".
Definition DEST_RESC_NAME_KW : string := "destRescName".
Definition DEF_RESC_NAME_KW : string := "defRescName".
Definition REPL_NUM_KW : string := "replNum".
Definition FORCE_FLAG_KW : string := "forceFlag".

Definition PUT_OPR : Z := 1.
Definition REPLICATE_OPR : Z := 6.
Definition COPY_DEST : Z := 9.
Definition RSYNC_OPR : Z := 14.
Definition LOCAL_HOST : Z := 0.
Definition REMOTE_HOST : Z := 1.
Definition LOCAL_PRIV_USER_AUTH : Z := 5.

(** ** Data *)

Record dataObjInp : Type := DataObjInp {
  objPath : bstr; oprType : Z; dataSize : Z; condInput : gmap string string; numThreads : Z; offset : Z
}.

(** The fields of [rsComm_t] that are read. *)
Record rsComm : Type := RsComm {
  clientUserName : bstr; clientRodsZone : bstr; clientAuthFlag : Z; proxyAuthFlag : Z
}.

(** The fields of [dataObjInfo_t] the file object takes. *)
Record dataObjInfo : Type := DataObjInfo {
  i_dataId : Z; i_replNum : Z; i_replStatus : Z; i_rescHier : bstr
}.

(** The caller's [dataObjInfo_t*]. *)
Inductive info_ptr : Type :=
| NullInfo
| LiveInfo (l : list dataObjInfo)
| FreedInfo.

Record rstate : Type := RState {
  r_votes : vstate; r_resc_hier : bstr; r_quota : quota_state; r_info : info_ptr
}.

Definition set_resc_hier (h : bstr) : M rstate unit := fun s =>
  (Ok tt, RState (r_votes s) h (r_quota s) (r_info s)).
Definition set_info (i : info_ptr) : M rstate unit := fun s =>
  (Ok tt, RState (r_votes s) (r_resc_hier s) (r_quota s) i).

(** Running code of the other components. *)
Definition run_votes {A} (c : M vstate A) : M rstate A := fun s =>
  let '(x, v) := c (r_votes s) in (x, RState v (r_resc_hier s) (r_quota s) (r_info s)).
Definition run_quota {A} (c : M quota_state A) : M rstate A := fun s =>
  let '(x, q) := c (r_quota s) in (x, RState (r_votes s) (r_resc_hier s) q (r_info s)).

(** [getValByKey] *)
Definition getValByKey (inp : dataObjInp) (k : string) : option bstr := lit <$> condInput inp !! k.
Definition has_key (inp : dataObjInp) (k : string) : bool := bool_decide (is_Some (condInput inp !! k)).

Section redirect.
Context (m : resource_manager).
(** The operation RESOURCE_OP_RESOLVE_RESC_HIER of the resource at a pointer. *)
Context (voter : nat -> resolver).
(** The [host] entry of the server's configuration. *)
Context (host : bstr).
(** [boost::trim] *)
Context (trim : bstr -> bstr).

(** ** Live resources *)

Definition is_resc_live (id : Z) : res error :=
  match resolve_id m id with
  | Throw (Eirods c) => Ok (ERROR c)
  | Throw e => Throw e
  | Ok p => r ← deref m p;
            Ok (if p_status (r_props r) =? INT_RESC_STATUS_DOWN then ERROR SYS_RESC_IS_DOWN else SUCCESS)
  end.

Fixpoint live_loop (names : list bstr) : res error :=
  match names with
  | [] => Ok SUCCESS
  | name :: names' =>
      id ← hier_to_leaf_id_error m name;
      match id with
      | inl c => Ok (ERROR c)
      | inr id => e ← is_resc_live id;
                  match e with ERROR c => Ok (ERROR c) | SUCCESS => live_loop names' end
      end
  end.

Definition is_hier_live (hier : bstr) : res error :=
  '(e, l) ← set_string hier;
  match e with ERROR c => Ok (ERROR c) | SUCCESS => live_loop l end.

(** ** The default resource *)

(** The resource the client asks for. *)
Definition cond_input_name (cond : gmap string string) : option bstr :=
  match cond !! DEST_RESC_NAME_KW with
  | Some n => Some (lit n)
  | None => match cond !! DEF_RESC_NAME_KW with
            | Some n => Some (lit n)
            | None => lit <$> cond !! RESC_NAME_KW
            end
  end.

(** The last live resource of the list. *)
Fixpoint last_live (names : list bstr) (default_resc_name : bstr) : res bstr :=
  match names with
  | [] => Ok default_resc_name
  | n :: names' => e ← is_hier_live n;
                   last_live names' (if error_ok e then n else default_resc_name)
  end.

(** The choice between the client's resource and the default one. *)
Definition pick_resource (comm : rsComm) (option_ cond_input_resc default_resc_name resc_name : bstr) :
    res (error * bstr) :=
  if bstr_eqb option_ (lit "preferred") && negb (bstr_eqb cond_input_resc []) then
    e ← is_hier_live cond_input_resc;
    if error_ok e then Ok (SUCCESS, cond_input_resc)
    else Ok (ERROR CAT_NO_ROWS_FOUND, resc_name)
  else if bstr_eqb option_ (lit "forced") && (clientAuthFlag comm <? LOCAL_PRIV_USER_AUTH) then
    Ok (SUCCESS, default_resc_name)
  else
    e ← is_hier_live cond_input_resc;
    if error_ok e then Ok (SUCCESS, cond_input_resc)
    else
      e ← is_hier_live default_resc_name;
      match e with
      | SUCCESS => Ok (SUCCESS, default_resc_name)
      | ERROR c => Ok (ERROR c, resc_name)
      end.

(** [set_default_resource]: its result, and [_resc_name] when it returns. *)
Definition set_default_resource (comm : rsComm) (resc_list option_ : bstr)
    (cond_input : option (gmap string string)) (resc_name : bstr) : res (error * bstr) :=
  if bstr_eqb resc_list [] && negb (bool_decide (is_Some cond_input)) then
    Ok (ERROR USER_NO_RESC_INPUT_ERR, resc_name)
  else
    let cond_input_resc :=
      if negb (bstr_eqb resc_list (lit "null")) && bstr_eqb option_ (lit "forced") &&
         (proxyAuthFlag comm <? LOCAL_PRIV_USER_AUTH) then []
      else match cond_input ≫= cond_input_name with Some n => trim n | None => [] end in
    resources ← string_tokenize resc_list (lit "%") [];
    default_resc_name ← last_live resources [];
    pick_resource comm option_ cond_input_resc default_resc_name resc_name.

(** [msiSetDefaultResc]: the status, and [rei->rescName]. *)
Definition msiSetDefaultResc (comm : rsComm) (resc_list option_ : bstr)
    (cond_input : option (gmap string string)) : res (Z * bstr) :=
  '(e, name) ← set_default_resource comm resc_list option_ cond_input [];
  let status := match e with SUCCESS => 0 | ERROR c => c end in
  Ok (status, if 0 <=? status then rstrcpy name NAME_LEN else []).

Definition resolve_resource_name (resc_name : bstr) (cond : gmap string string) : Z + bstr :=
  match resc_name with
  | [] => match cond !! DEST_RESC_NAME_KW with
          | Some n => inr (lit n)
          | None => match cond !! DEF_RESC_NAME_KW with
                    | Some n => inr (lit n)
                    | None => inl INT_RESC_STATUS_DOWN
                    end
          end
  | _ => inr resc_name
  end.

(** ** The request *)

(** [resc->get_parent(parent).ok()] *)
Definition has_parent (p : nat) : res bool :=
  r ← deref m p; Ok (bool_decide (is_Some (parent_ r))).

Definition get_keyword_from_inp (inp : dataObjInp) : res bstr :=
  let key_word := from_option id [] (getValByKey inp RESC_NAME_KW) in
  let key_word := from_option id key_word (getValByKey inp DEST_RESC_NAME_KW) in
  match key_word with
  | [] => Ok key_word
  | _ => p ← resolve_name m key_word;
         b ← has_parent p;
         if b : bool then Throw (Eirods DIRECT_CHILD_ACCESS) else Ok key_word
  end.

Fixpoint hier_has_replica (resc : bstr) (replicas : list physical_object) : res bool :=
  match replicas with
  | [] => Ok false
  | r :: replicas' => l ← hierarchy_parser (po_resc_hier r);
                      if resc_in_hier resc l then Ok true else hier_has_replica resc replicas'
  end.

(** A policy for new objects: the status of the rule, [rei.status] and [rei.rescName]. *)
Definition scheme : Type := string -> dataObjInp -> res (Z * Z * bstr).

Definition apply_policy_for_create_operation (env : quota_env) (applyRule : scheme)
    (comm : rsComm) (inp : dataObjInp) (resc_name : bstr) : M rstate bstr :=
  '(status, rei_status, rescName) ← lift (applyRule
     (if oprType inp =? REPLICATE_OPR then "acSetRescSchemeForRepl" else "acSetRescSchemeForCreate") inp);
  if status <? 0 then throw (Eirods (if rei_status <? 0 then rei_status else status))
  else
    resc_name ← match rescName with
                | [] => '(e, n) ← lift (set_default_resource comm [] [] (Some (condInput inp)) resc_name);
                        match e with
                        | SUCCESS => mret n
                        | ERROR _ => throw (Eirods SYS_INVALID_RESC_INPUT)
                        end
                | _ => mret rescName
                end;
    status ← run_quota (setRescQuota env m (clientUserName comm) (clientRodsZone comm)
                          (objPath inp) resc_name (dataSize inp));
    if status =? SYS_RESC_QUOTA_EXCEEDED then throw (Eirods SYS_RESC_QUOTA_EXCEEDED)
    else mret resc_name.

(** ** Votes *)

(** [request_vote_for_file_object]: a code, or the hierarchy and the vote. *)
Definition request_vote_for_file_object (oper : string) (resc_name : bstr) :
    M rstate (Z + bstr * Q) :=
  match resolve_name m resc_name with
  | Throw (Eirods c) => mret (inl c)
  | Throw e => throw e
  | Ok p =>
      b ← lift (has_parent p);
      if b : bool then mret (inl DIRECT_CHILD_ACCESS)
      else
        '(err, parser, vote) ← run_votes (voter p oper host [] 0%Q);
        match err with
        | SUCCESS => mret (if vote_is_zero vote then inl HIERARCHY_ERROR else inr (hier_str parser [], vote))
        | ERROR c => mret (inl (if c =? 0 then HIERARCHY_ERROR else c))
        end
  end.

(** [root_map]: the roots of the replicas, in the order of [std::map]. *)
Fixpoint root_map (replicas : list physical_object) (acc : list (bstr * Q)) : res (list (bstr * Q)) :=
  match replicas with
  | [] => Ok acc
  | r :: replicas' => l ← hierarchy_parser (po_resc_hier r);
                      root_map replicas' (smap_set (first_resc l) vote_zero acc)
  end.

Record ballot : Type := Ballot { kw_match_found : bool; max_hier : bstr; max_vote : Q }.

(** The body of the loop over [root_map]. *)
Definition poll (key_word : bstr) (oper : string) (root : bstr) (b : ballot) : M rstate ballot :=
  ret ← request_vote_for_file_object oper root;
  match ret with
  | inl _ => mret b
  | inr (voted_hier, vote) =>
      if kw_match_found b then mret b
      else
        let kw := negb (vote_is_zero vote) && negb (bstr_eqb key_word []) && bstr_eqb root key_word in
        _ ← (if kw then set_resc_hier voted_hier else mret tt);
        mret (if Qle_bool vote (max_vote b) then Ballot kw (max_hier b) (max_vote b)
              else Ballot kw voted_hier vote)
  end.

Fixpoint poll_roots (key_word : bstr) (oper : string) (roots : list bstr) (b : ballot) : M rstate ballot :=
  match roots with
  | [] => mret b
  | root :: roots' => b ← poll key_word oper root b; poll_roots key_word oper roots' b
  end.

(** [file_object::get_replica(int)] *)
Definition get_replica (num : Z) (replicas : list physical_object) : option physical_object :=
  List.find (fun r => num =? po_repl_num r) replicas.

Definition resolve_hier_for_open_or_write (key_word : bstr) (oper : string) : M rstate bstr :=
  s ← get_state;
  roots ← lift (root_map (f_replicas (v_obj (r_votes s))) []);
  match roots with
  | [] => throw (Eirods SYS_REPLICA_DOES_NOT_EXIST)
  | _ =>
      b ← poll_roots key_word oper roots.*1 (Ballot false [] (-1));
      if vote_is_zero (max_vote b) then throw (Eirods HIERARCHY_ERROR)
      else
        s ← get_state;
        let obj := v_obj (r_votes s) in
        if -1 <? f_repl_requested obj then
          match get_replica (f_repl_requested obj) (f_replicas obj) with
          | None => throw (Eirods SYS_REPLICA_DOES_NOT_EXIST)
          | Some target =>
              if vote_is_zero (po_vote target) then throw (Eirods SYS_REPLICA_INACCESSIBLE)
              else _ ← set_resc_hier (po_resc_hier target); mret (po_resc_hier target)
          end
        else if kw_match_found b then mret (r_resc_hier s)
        else _ ← set_resc_hier (max_hier b); mret (max_hier b)
  end.

Definition resolve_hier_for_create (key_word : bstr) : M rstate bstr :=
  _ ← set_resc_hier key_word;
  ret ← request_vote_for_file_object CREATE_OPERATION key_word;
  match ret with
  | inl c => throw (Eirods (if c =? 0 then HIERARCHY_ERROR else c))
  | inr (hier, vote) => if Qeq_bool vote vote_zero then throw (Eirods HIERARCHY_ERROR) else mret hier
  end.

(** ** The operation *)

(** What the request runs against: the connection, the quotas, the policy, and
    [collStat], which gives the hierarchy of a special collection. *)
Record request_env : Type := RequestEnv {
  e_comm : option rsComm; e_quota : quota_env; e_policy : scheme;
  e_collStat : dataObjInp -> option bstr
}.

Definition is_logical_operation (inp : dataObjInp) : bool :=
  (PUT_OPR =? oprType inp) || (COPY_DEST =? oprType inp) || (RSYNC_OPR =? oprType inp).

(** The part for open, write and unlink. *)
Definition resolve_existing (oper : string) (inp : dataObjInp) (key_word : bstr) (fac_err : error) :
    M rstate (bool * bstr) :=
  if is_open_write_unlink oper then
    match fac_err with
    | ERROR c => throw (Eirods c)
    | SUCCESS =>
        let key_word :=
          match getValByKey inp DEF_RESC_NAME_KW with
          | Some d => if has_key inp FORCE_FLAG_KW && bstr_eqb key_word [] then d else key_word
          | None => key_word
          end in
        hier ← resolve_hier_for_open_or_write key_word oper;
        mret (true, hier)
    end
  else throw (Eirods SYS_NOT_SUPPORTED).

(** [resolve_resource_hierarchy] for a file object made by [file_object_factory]:
    whether the file object is returned, and the hierarchy. *)
Definition resolve_with_object (env : request_env) (oper_in : string) (inp : dataObjInp)
    (fac_err : error) : M rstate (bool * bstr) :=
  match e_comm env with
  | None => throw (Eirods SYS_INVALID_INPUT_PARAM)
  | Some comm =>
      match e_collStat env inp with
      | Some hier => mret (false, hier)
      | None =>
          key_word ← lift (get_keyword_from_inp inp);
          let oper := if String.eqb oper_in CREATE_OPERATION && has_key inp REPL_NUM_KW
                      then WRITE_OPERATION else oper_in in
          if String.eqb oper CREATE_OPERATION then
            let create_resc_name :=
              match key_word with
              | [] => from_option id [] (getValByKey inp DEF_RESC_NAME_KW)
              | _ => key_word
              end in
            create_resc_name ← apply_policy_for_create_operation (e_quota env) (e_policy env)
                                 comm inp create_resc_name;
            s ← get_state;
            overwrite ← (if error_ok fac_err then
                           if is_logical_operation inp then mret true
                           else lift (hier_has_replica create_resc_name (f_replicas (v_obj (r_votes s))))
                         else mret false);
            if overwrite : bool then resolve_existing WRITE_OPERATION inp key_word fac_err
            else hier ← resolve_hier_for_create create_resc_name; mret (true, hier)
          else resolve_existing oper inp key_word fac_err
      end
  end.

(** ** The file object *)

Definition physical_object_of (i : dataObjInfo) : physical_object :=
  PhysicalObject (i_dataId i) (i_replNum i) (i_replStatus i) (i_rescHier i) (-1).

(** [file_object_factory]: the object, its hierarchy, and the list the caller gets;
    [fetched] is what [getDataObjInfoIncSpecColl] returns. *)
Definition file_object_factory (comm_ok : bool) (inp : dataObjInp) (fetched : Z * list dataObjInfo)
    (obj : file_object) (hier : bstr) : error * file_object * bstr * option (list dataObjInfo) :=
  if negb comm_ok then (ERROR SYS_INTERNAL_NULL_INPUT_ERR, obj, hier, None)
  else
    let make n rs := FileObject (dataSize inp) n (condInput inp) rs in
    let keep n := make n (f_replicas obj) in
    let requested := match getValByKey inp REPL_NUM_KW with
                     | None => Ok (f_repl_requested obj)
                     | Some n => stoi n
                     end in
    match requested with
    | Throw _ => (ERROR USER_INVALID_REPLICA_INPUT, keep (f_repl_requested obj), hier, None)
    | Ok n =>
        let '(status, infos) := fetched in
        match infos with
        | [] =>
            (ERROR (if has_key inp REPL_NUM_KW && (status =? CAT_NO_ROWS_FOUND)
                    then SYS_REPLICA_DOES_NOT_EXIST else status), keep n, hier, None)
        | head :: _ =>
            if status <? 0 then
              (ERROR (if has_key inp REPL_NUM_KW && (status =? CAT_NO_ROWS_FOUND)
                      then SYS_REPLICA_DOES_NOT_EXIST else status), keep n, hier, None)
            else if (n <? 0) || existsb (fun i => i_replNum i =? n) infos then
              (SUCCESS, make n (physical_object_of <$> infos), i_rescHier head, Some infos)
            else (ERROR SYS_REPLICA_DOES_NOT_EXIST, keep n, i_rescHier head, None)
        end
    end.

Definition new_file_object : file_object := FileObject 0 (-1) ∅ [].

(** [resolve_resource_hierarchy(oper, comm, inp, data_obj_info)]; [fetch] is the
    catalog's answer before the resolution, [refetch] the one after. *)
Definition resolve_resource_hierarchy (env : request_env) (oper : string) (inp : dataObjInp)
    (fetch refetch : Z * list dataObjInfo) : M rstate (bool * bstr) :=
  let comm_ok := bool_decide (is_Some (e_comm env)) in
  let '(fac_err, obj, hier, info) := file_object_factory comm_ok inp fetch new_file_object [] in
  s ← get_state;
  _ ← put_state (RState (VState obj (v_draws (r_votes s))) hier (r_quota s)
                  match info with Some l => LiveInfo l | None => r_info s end);
  result ← resolve_with_object env oper inp fac_err;
  s ← get_state;
  _ ← match r_info s with
      | NullInfo => mret tt
      | LiveInfo _ => set_info FreedInfo
      | FreedInfo => throw Eundef
      end;
  let '(_, _, _, info) := file_object_factory comm_ok inp refetch new_file_object [] in
  _ ← match info with Some l => set_info (LiveInfo l) | None => mret tt end;
  mret result.

(** ** The host *)

(** The property RESOURCE_HOST of a resource: a code, or the names of the host
    ([None] for a null pointer); and [svrToSvrConnect] to it. *)
Context (resc_host : nat -> Z + option (list bstr)) (svrToSvrConnect : list bstr -> Z).

Record redirection : Type := Redirection {
  out_hier : bstr; out_host : option (list bstr); out_flag : Z
}.

(** [resource_redirect]: its result, and its output parameters. *)
Definition resource_redirect (env : request_env) (oper : string) (inp : dataObjInp)
    (fetch refetch : Z * list dataObjInfo) (out : redirection) : M rstate (error * redirection) := fun s =>
  let out := Redirection (out_hier out) (out_host out) LOCAL_HOST in
  match resolve_resource_hierarchy env oper inp fetch refetch s with
  | (Throw (Eirods c), s) => (Ok (ERROR c, out), s)
  | (Throw e, s) => (Throw e, s)
  | (Ok (_, []), s) => (Ok (SUCCESS, out), s)
  | (Ok (_, resc_hier), s) =>
      (id ← hier_to_leaf_id_error m resc_hier;
       match id with
       | inl c => Ok (ERROR c, out)
       | inr id =>
           match resolve_id m id with
           | Throw (Eirods c) => Ok (ERROR c, out)
           | Throw e => Throw e
           | Ok p =>
               match resc_host p with
               | inl c => Ok (ERROR c, out)
               | inr None => Ok (SUCCESS, out)
               | inr (Some names) =>
                   if existsb (fun n => bstr_eqb n host) names
                   then Ok (SUCCESS, Redirection resc_hier None LOCAL_HOST)
                   else
                     let conn_err := svrToSvrConnect names in
                     if conn_err <? 0 then Ok (ERROR conn_err, out)
                     else Ok (SUCCESS, Redirection resc_hier (Some names) REMOTE_HOST)
               end
           end
       end, s)
  end.
End redirect.

(** ** Facts *)

(** The winner among the roots is determined by their answers. *)
Definition vote_of (a : answer) : option (bstr * Q) :=
  match a with
  | (SUCCESS, p, v) => if vote_is_zero v then None else Some (hier_str p [], v)
  | (ERROR _, _, _) => None
  end.

(** The loop over the roots, given what each answers: the ballot, and [resc_hier]. *)
Fixpoint tally (kw : bstr) (l : list (bstr * answer)) (b : ballot) (h : bstr) : ballot * bstr :=
  match l with
  | [] => (b, h)
  | (k, a) :: l' =>
      match vote_of a with
      | None => tally kw l' b h
      | Some (voted, v) =>
          if kw_match_found b then tally kw l' b h
          else
            let found := negb (bstr_eqb kw []) && bstr_eqb k kw in
            tally kw l' (if Qle_bool v (max_vote b) then Ballot found (max_hier b) (max_vote b)
                         else Ballot found voted v)
              (if found then voted else h)
      end
  end.

Lemma vote_zero_mono v w : (v <= w)%Q -> vote_is_zero v = false -> vote_is_zero w = false.
Proof.
  unfold vote_is_zero. intros Hle Hv. apply not_true_iff_false. rewrite Qle_bool_iff. intros Hw.
  apply not_true_iff_false in Hv. apply Hv. rewrite Qle_bool_iff. lra.
Qed.

Lemma vote_of_positive a h v : vote_of a = Some (h, v) -> vote_is_zero v = false.
Proof. destruct a as [[[|c] p] w]; simpl; [|done]. destruct (vote_is_zero w) eqn:E; naive_solver. Qed.

Lemma tally_found kw l b h : kw_match_found b = true -> tally kw l b h = (b, h).
Proof.
  intros Hb. induction l as [|[k a] l IH]; [done|]. simpl. destruct (vote_of a) as [[]|]; [|done].
  by rewrite Hb.
Qed.

(** No root under the keyword voted; the highest vote so far is kept. *)
Definition highest (kw : bstr) (l : list (bstr * answer)) (b b' : ballot) : Prop :=
  (kw = [] \/ forall a, (kw, a) ∈ l -> vote_of a = None) /\
  (max_hier b' = max_hier b /\ max_vote b' = max_vote b \/
   exists k a, (k, a) ∈ l /\ vote_of a = Some (max_hier b', max_vote b')) /\
  (max_vote b <= max_vote b')%Q /\
  (forall k a h v, (k, a) ∈ l -> vote_of a = Some (h, v) -> (v <= max_vote b')%Q).

Lemma highest_nil kw b : highest kw [] b b.
Proof.
  split_and!; [right; by intros a ?%elem_of_nil|by left|apply Qle_refl|by intros ???? ?%elem_of_nil].
Qed.

Lemma highest_skip kw k a l b b' : vote_of a = None -> highest kw l b b' -> highest kw ((k, a) :: l) b b'.
Proof.
  intros Ha (H1 & H2 & H3 & H4). split_and!; [| |done|].
  - destruct H1 as [H1|H1]; [by left|right]. intros a' [E|?]%elem_of_cons; [by simplify_eq|eauto].
  - destruct H2 as [H2|(k' & a' & Hin & E)]; [by left|right]. exists k', a'. split; [by right|done].
  - intros k' a' h' v' [E|Hin]%elem_of_cons; [simplify_eq; congruence|eauto].
Qed.

Lemma highest_step kw k a l b b1 b' voted v :
  vote_of a = Some (voted, v) -> kw = [] \/ k <> kw ->
  b1 = (if Qle_bool v (max_vote b) then Ballot false (max_hier b) (max_vote b) else Ballot false voted v) ->
  highest kw l b1 b' -> highest kw ((k, a) :: l) b b'.
Proof.
  intros Ha Hk Hb1 (H1 & H2 & H3 & H4).
  assert ((max_vote b <= max_vote b1)%Q /\ (v <= max_vote b1)%Q) as [Hle1 Hle2].
  { subst b1. destruct (Qle_bool v (max_vote b)) eqn:E; cbn [max_vote].
    - apply Qle_bool_iff in E. split; [apply Qle_refl|done].
    - split; [|apply Qle_refl]. apply Qlt_le_weak, Qnot_le_lt. by rewrite <- Qle_bool_iff, E. }
  split_and!.
  - destruct H1 as [H1|H1]; [by left|]. destruct Hk as [Hk|Hk]; [by left|right].
    intros a' [E|?]%elem_of_cons; [by simplify_eq|eauto].
  - destruct H2 as [[E1 E2]|(k' & a' & Hin & E)].
    + rewrite E1, E2, Hb1. destruct (Qle_bool v (max_vote b)); [by left|right].
      exists k, a. split; [by left|done].
    + right. exists k', a'. split; [by right|done].
  - by eapply Qle_trans.
  - intros k' a' h' v' [E|?]%elem_of_cons Hv; [|eauto]. injection E as -> ->.
    rewrite Ha in Hv. injection Hv as <- <-. by apply (Qle_trans _ (max_vote b1)).
Qed.

Lemma tally_spec kw l b h b' h' :
  tally kw l b h = (b', h') -> kw_match_found b = false ->
  kw_match_found b' = false /\ h' = h /\ highest kw l b b' \/
  kw_match_found b' = true /\ kw <> [] /\
    exists a v, (kw, a) ∈ l /\ vote_of a = Some (h', v) /\ (v <= max_vote b')%Q.
Proof.
  revert b h. induction l as [|[k a] l IH]; intros b h; simpl.
  { intros [= <- <-] Hb. left. split_and!; [done..|apply highest_nil]. }
  destruct (vote_of a) as [[voted v]|] eqn:Ha.
  - intros Ht Hb. rewrite Hb in Ht.
    destruct (negb (bstr_eqb kw []) && bstr_eqb k kw) eqn:Ef.
    + apply andb_true_iff in Ef as [Ef1%negb_true_iff%bstr_eqb_neq Ef2%bstr_eqb_eq]. subst k.
      rewrite tally_found in Ht by by destruct (Qle_bool _ _). simplify_eq. right.
      split_and!; [by destruct (Qle_bool _ _)|done|].
      exists a, v. split_and!; [by left|done|]. destruct (Qle_bool v (max_vote b)) eqn:E; cbn [max_vote].
      * by apply Qle_bool_iff.
      * apply Qle_refl.
    + destruct (IH _ _ Ht) as [(F & -> & Hh)|(F & Hk & a' & v' & Hin & E & Hle)].
      * by destruct (Qle_bool _ _).
      * left. split_and!; [done..|]. eapply highest_step; [exact Ha| |reflexivity|exact Hh].
        apply andb_false_iff in Ef as [?%negb_false_iff%bstr_eqb_eq| ?%bstr_eqb_neq]; [by left|by right].
      * right. split_and!; [done..|]. exists a', v'. split; [by right|done].
  - intros Ht Hb. destruct (IH _ _ Ht Hb) as [(F & -> & Hh)|(F & Hk & a' & v' & Hin & E & Hle)].
    + left. split_and!; [done..|]. by apply highest_skip.
    + right. split_and!; [done..|]. exists a', v'. split; [by right|done].
Qed.

(** A root of the object's replicas. *)
Definition root_of (o : file_object) (k : bstr) : Prop :=
  exists r l, r ∈ f_replicas o /\ hierarchy_parser (po_resc_hier r) = Ok l /\ first_resc l = k.

Definition parsable (r : physical_object) : Prop := exists l, hierarchy_parser (po_resc_hier r) = Ok l.

Lemma smap_set_elem {V} (k k' : bstr) (v : V) l :
  k' ∈ (smap_set k v l).*1 <-> k' = k \/ k' ∈ l.*1.
Proof.
  induction l as [|[k0 v0] l IH]; cbn [smap_set fmap list_fmap fst]; [by rewrite elem_of_cons|].
  destruct (str_ltb k k0); cbn [fmap list_fmap fst]; [by rewrite !elem_of_cons|].
  destruct (bstr_eqb k k0) eqn:E; cbn [fmap list_fmap fst]; rewrite !elem_of_cons.
  - apply bstr_eqb_eq in E. subst. tauto.
  - rewrite IH. tauto.
Qed.

Lemma root_map_keys rs acc :
  Forall parsable rs ->
  exists roots, root_map rs acc = Ok roots /\
    forall k, k ∈ roots.*1 <-> k ∈ acc.*1 \/
      exists r l, r ∈ rs /\ hierarchy_parser (po_resc_hier r) = Ok l /\ first_resc l = k.
Proof.
  revert acc. induction rs as [|r rs IH]; intros acc Hrs.
  { exists acc. split; [done|]. intros k. split; [by left|]. intros [?|(r & l & ?%elem_of_nil & _)]; done. }
  apply Forall_cons in Hrs as [[l Hl] Hrs]. destruct (IH (smap_set (first_resc l) vote_zero acc) Hrs) as (roots & E & H).
  exists roots. split; [simpl; by rewrite Hl|]. intros k. rewrite H, smap_set_elem. split.
  - intros [[->|?]|(r' & l' & ? & ? & ?)]; [right; exists r, l|by left|right; exists r', l'].
    + split; [by left|done].
    + split; [by right|done].
  - intros [?|(r' & l' & [->|?]%elem_of_cons & ? & ?)]; [by left; right|left; left; congruence|].
    right. eauto.
Qed.

Section choice.
Context (m : resource_manager) (voter : nat -> resolver) (host : bstr) (oper : string).
Context (o : file_object).

(** The root [k] is a resource without a parent and answers [a]. *)
Definition root_answer (k : bstr) (a : answer) : Prop :=
  exists p r, resolve_name m k = Ok p /\ heap m !! p = Some r /\ parent_ r = None /\
    gives oper host o [] (voter p) a.

Lemma no_parent p r : heap m !! p = Some r -> parent_ r = None -> has_parent m p = Ok false.
Proof using Type. intros Hp Hr. unfold has_parent, deref. rewrite Hp. simpl. by rewrite Hr. Qed.

Lemma request_vote_answer k a s :
  root_answer k a -> strip (v_obj (r_votes s)) = o ->
  exists x s', request_vote_for_file_object m voter host oper k s = (Ok x, s') /\
    strip (v_obj (r_votes s')) = o /\ r_resc_hier s' = r_resc_hier s /\
    match vote_of a with Some hv => x = inr hv | None => exists c, x = inl c end.
Proof using Type.
  intros (p & r & Hk & Hp & Hpar & Hg) Hs. destruct (Hg 0%Q (r_votes s) Hs) as (vs & Hx & Hvs).
  unfold request_vote_for_file_object, run_votes. rewrite Hk. run_M. rewrite (no_parent p r Hp Hpar).
  rewrite Hx. destruct a as [[[|c] q] w].
  - do 2 eexists. split; [reflexivity|]. split_and!; [done..|]. simpl. destruct (vote_is_zero w); eauto.
  - do 2 eexists. split; [reflexivity|]. split_and!; [done..|]. simpl. eauto.
Qed.

Lemma poll_roots_tally kw l b s :
  Forall (fun ka => root_answer ka.1 ka.2) l -> strip (v_obj (r_votes s)) = o ->
  exists s', poll_roots m voter host kw oper l.*1 b s = (Ok (tally kw l b (r_resc_hier s)).1, s') /\
    strip (v_obj (r_votes s')) = o /\ r_resc_hier s' = (tally kw l b (r_resc_hier s)).2.
Proof using Type.
  revert b s. induction l as [|[k a] l IH]; intros b s Hl Hs; [by exists s|].
  apply Forall_cons in Hl as [Ha Hl].
  destruct (request_vote_answer k a s Ha Hs) as (x & s1 & Hx & Hs1 & Hr1 & Hv).
  cbn [fmap list_fmap poll_roots tally fst]. unfold poll. unfold mbind at 1, M_bind at 1.
  unfold mbind at 1, M_bind at 1. rewrite Hx. destruct (vote_of a) as [[voted v]|] eqn:Ea; [subst x|destruct Hv as [c ->]].
  - destruct (kw_match_found b); cbn [mret M_ret].
    + destruct (IH b s1 Hl Hs1) as (s' & H). exists s'. by rewrite Hr1 in H.
    + rewrite (vote_of_positive _ _ _ Ea). cbn [negb andb]. unfold mbind at 1, M_bind at 1.
      destruct (negb (bstr_eqb kw []) && bstr_eqb k kw); cbn [set_resc_hier mret M_ret].
      * by apply (IH _ (RState (r_votes s1) voted (r_quota s1) (r_info s1))).
      * rewrite <- Hr1. by apply IH.
  - cbn [mret M_ret]. destruct (IH b s1 Hl Hs1) as (s' & H). exists s'. by rewrite Hr1 in H.
Qed.
End choice.

(** The roots with what they answer. *)
Lemma roots_answers m voter host oper answer_of obj :
  f_replicas obj <> [] -> Forall parsable (f_replicas obj) ->
  (forall k, root_of obj k -> root_answer m voter host oper (strip obj) k (answer_of k)) ->
  exists roots l, root_map (f_replicas obj) [] = Ok roots /\ roots <> [] /\ l.*1 = roots.*1 /\
    Forall (fun ka => root_answer m voter host oper (strip obj) ka.1 ka.2) l /\
    forall k a, (k, a) ∈ l <-> root_of obj k /\ a = answer_of k.
Proof.
  intros Hne Hp Hans. destruct (root_map_keys (f_replicas obj) [] Hp) as (roots & Hroots & Hk).
  assert (forall k, k ∈ roots.*1 <-> root_of obj k) as Hkey.
  { intros k. rewrite Hk. unfold root_of. split; [intros [?%elem_of_nil|?]; done|by right]. }
  set (l := (fun k => (k, answer_of k)) <$> roots.*1).
  assert (forall k a, (k, a) ∈ l <-> root_of obj k /\ a = answer_of k) as Hl.
  { intros k a. unfold l. rewrite list_elem_of_fmap. split.
    - intros (k' & [= -> ->] & ?%Hkey). done.
    - intros [? ->]. exists k. split; [done|by apply Hkey]. }
  exists roots, l. split_and!; [done| |unfold l; rewrite <- list_fmap_compose; apply list_fmap_id| |done].
  - intros ->. destruct (f_replicas obj) as [|r rs] eqn:E; [done|].
    apply Forall_cons in Hp as [[lh Hlh] _]. apply (not_elem_of_nil (first_resc lh)), Hkey.
    exists r, lh. rewrite E. split_and!; [by left|done|done].
  - apply Forall_forall. intros [k a] [H1 ->]%Hl. by apply Hans.
Qed.

Lemma match_nonempty {A B} (l : list A) (x y : B) : l <> [] -> match l with [] => x | _ :: _ => y end = y.
Proof. by destruct l. Qed.

Lemma open_or_write_tally m voter host oper kw roots l s :
  let obj := v_obj (r_votes s) in
  let result := tally kw l (Ballot false [] (-1)) (r_resc_hier s) in
  f_repl_requested obj < 0 -> root_map (f_replicas obj) [] = Ok roots -> roots <> [] ->
  l.*1 = roots.*1 -> Forall (fun ka => root_answer m voter host oper (strip obj) ka.1 ka.2) l ->
  exists x s', resolve_hier_for_open_or_write m voter host kw oper s = (x, s') /\
  if vote_is_zero (max_vote result.1) then x = Throw (Eirods HIERARCHY_ERROR)
  else x = Ok (r_resc_hier s') /\
    r_resc_hier s' = if kw_match_found result.1 then result.2 else max_hier result.1.
Proof.
  intros obj result Hreq Hroots Hne Hl Hall.
  destruct (poll_roots_tally m voter host oper (strip obj) kw l (Ballot false [] (-1)) s Hall eq_refl)
    as (s1 & Hx & Hs1 & Hr1). fold result in Hx, Hr1.
  assert (f_repl_requested (v_obj (r_votes s1)) < 0) as Hreq1
    by (replace (f_repl_requested _) with (f_repl_requested (strip (v_obj (r_votes s1)))) by done;
        by rewrite Hs1).
  unfold resolve_hier_for_open_or_write. unfold mbind at 1, M_bind at 1, get_state at 1.
  unfold mbind at 1, M_bind at 1, lift at 1. fold obj. rewrite Hroots.
  rewrite (match_nonempty roots) by done. rewrite Hl in Hx. rewrite (M_bind_ok _ _ _ _ _ Hx).
  destruct (vote_is_zero (max_vote result.1)); [by do 2 eexists|].
  unfold mbind at 1, M_bind at 1, get_state at 1.
  rewrite (proj2 (Z.ltb_ge (-1) (f_repl_requested (v_obj (r_votes s1))))) by lia.
  destruct (kw_match_found result.1).
  - exists (Ok (r_resc_hier s1)), s1. done.
  - do 2 eexists. split; [reflexivity|]. done.
Qed.

(** Opening, writing or unlinking an object without a replica number: every root
    that holds a replica is asked. The hierarchy of the root named by the keyword is
    taken when that root gave a vote; otherwise one with the highest vote is, and it
    becomes the file object's; with no vote at all the operation fails with
    HIERARCHY_ERROR. *)
Theorem open_highest_vote m voter host answer_of kw oper s :
  let obj := v_obj (r_votes s) in
  f_replicas obj <> [] -> f_repl_requested obj < 0 -> Forall parsable (f_replicas obj) ->
  (forall k, root_of obj k -> root_answer m voter host oper (strip obj) k (answer_of k)) ->
  exists x s', resolve_hier_for_open_or_write m voter host kw oper s = (x, s') /\
  match x with
  | Ok h => r_resc_hier s' = h /\
      (kw <> [] /\ root_of obj kw /\ (exists v, vote_of (answer_of kw) = Some (h, v)) \/
       (kw = [] \/ ~ root_of obj kw \/ vote_of (answer_of kw) = None) /\
       exists k v, root_of obj k /\ vote_of (answer_of k) = Some (h, v) /\
         forall k' h' v', root_of obj k' -> vote_of (answer_of k') = Some (h', v') -> (v' <= v)%Q)
  | Throw e => e = Eirods HIERARCHY_ERROR /\ forall k, root_of obj k -> vote_of (answer_of k) = None
  end.
Proof.
  intros obj Hne Hreq Hp Hans.
  destruct (roots_answers m voter host oper answer_of obj Hne Hp Hans) as (roots & l & Hroots & Hnr & El & Hall & Hl).
  destruct (open_or_write_tally m voter host oper kw roots l s Hreq Hroots Hnr El Hall) as (x & s' & Hx & H).
  exists x, s'. split; [done|]. destruct (tally _ _ _ _) as [b h] eqn:Et. cbn [fst snd] in H.
  destruct (tally_spec _ _ _ _ _ _ Et eq_refl) as [(F & -> & H1 & H2 & _ & H4)|(F & Hkw & a & v & Hin & Ha & Hle)].
  - destruct (vote_is_zero (max_vote b)) eqn:Ez.
    + subst x. split; [done|]. intros k Hk. destruct (vote_of (answer_of k)) as [[h v]|] eqn:Ev; [|done].
      pose proof (H4 k _ h v (proj2 (Hl k _) (conj Hk eq_refl)) Ev) as Hle.
      by rewrite (vote_zero_mono _ _ Hle (vote_of_positive _ _ _ Ev)) in Ez.
    + rewrite F in H. destruct H as [-> Hh]. split; [done|right].
      destruct H2 as [[E1 E2]|(k & a & Hka & Ea)]; [by rewrite E2 in Ez|].
      apply Hl in Hka as [Hk ->]. split.
      * destruct H1 as [->|H1]; [by left|right]. destruct (vote_of (answer_of kw)) eqn:Ev; [|by right].
        left. intros Hr. by rewrite (H1 (answer_of kw)) in Ev by by apply Hl.
      * exists k, (max_vote b). rewrite Hh. split_and!; [done..|].
        intros k' h' v' Hk' Hv'. by apply (H4 k' (answer_of k') h' v'), Hv'; apply Hl.
  - apply Hl in Hin as [Hr ->]. rewrite (vote_zero_mono _ _ Hle (vote_of_positive _ _ _ Ha)), F in H.
    destruct H as [-> ->]. split; [done|left]. eauto.
Qed.

(** ** Resources that keep their promise *)

Section promises.
Context (m : resource_manager) (voter : nat -> resolver) (host : bstr) (oper : string).
Context (o : file_object) (P : nat -> list bstr -> Prop).
Context (HV : forall p, Voter oper o (voter p) (P p)).

(** A hierarchy one of the root resources voted for, which is in [Q]. *)
Definition voted (Q : nat -> list bstr -> Prop) (k h : bstr) : Prop :=
  exists p r l, resolve_name m k = Ok p /\ heap m !! p = Some r /\ parent_ r = None /\
    Q p l /\ h = hier_str l [].

(** What the resources promise: a path of their own, or what the request names. *)
Definition promised (p : nat) (l : list bstr) : Prop := P p l \/ requested o l.

Lemma request_vote_promise k s x s' :
  strip (v_obj (r_votes s)) = o -> request_vote_for_file_object m voter host oper k s = (x, s') ->
  strip (v_obj (r_votes s')) = o /\ r_resc_hier s' = r_resc_hier s /\
  forall h v, x = Ok (inr (h, v)) -> voted promised k h /\ vote_is_zero v = false.
Proof using HV.
  intros Hs. unfold request_vote_for_file_object, run_votes.
  destruct (resolve_name m k) as [p|e] eqn:Ek; [|destruct e; intros [= <- <-]; by split_and!].
  run_M. unfold has_parent, deref. destruct (heap m !! p) as [r|] eqn:Ep; [|by intros [= <- <-]].
  cbn. destruct (parent_ r) as [q|] eqn:Eq; [rewrite bool_decide_eq_true_2 by eauto; by intros [= <- <-]|].
  rewrite bool_decide_eq_false_2 by by intros [].
  destruct (voter p oper host [] 0%Q (r_votes s)) as [y vs] eqn:Ev.
  destruct (HV p host [] 0%Q (r_votes s) y vs Hs Ev) as [Hst Hy].
  rewrite Hs in Hst. destruct y as [[[[|c] q] w]|e]; intros [= <- <-]; split_and!; try done.
  intros h v. destruct (vote_is_zero w) eqn:Ew; [done|]. intros [= <- <-]. split; [|done].
  exists p, r, q. split_and!; [done..| |done].
  destruct Hy as [(l & Hl & ->)|Hr]; [by apply not_elem_of_nil| |by left|right].
  - intros E. assert (w <= 0)%Q as Hle by (rewrite E; apply Qle_refl).
    by pose proof (vote_zero_mono w 0%Q Hle Ew).
  - unfold requested in *. by rewrite <- Hs.
Qed.

(** What the ballot holds comes from a root that voted. *)
Definition sound (roots : list bstr) (b : ballot) (s : rstate) : Prop :=
  strip (v_obj (r_votes s)) = o /\
  (vote_is_zero (max_vote b) = false -> exists k, k ∈ roots /\ voted promised k (max_hier b)) /\
  (kw_match_found b = true -> exists k, k ∈ roots /\ voted promised k (r_resc_hier s)).

Lemma poll_sound roots kw root b s b' s' :
  root ∈ roots -> sound roots b s -> poll m voter host kw oper root b s = (Ok b', s') ->
  sound roots b' s'.
Proof using HV.
  intros Hroot (Hs & H1 & H2) Hp. apply M_bind_inv in Hp as (x & s1 & Hx & Hp).
  destruct (request_vote_promise root s _ s1 Hs Hx) as (Hs1 & Hr1 & Hv).
  destruct x as [c|[h v]]; [injection Hp as <- <-; by rewrite <- Hr1 in H2|].
  destruct (Hv h v eq_refl) as [Hh Hz].
  destruct (kw_match_found b) eqn:Ek; [injection Hp as <- <-; rewrite <- Hr1 in H2; by split_and!; [..|rewrite Ek]|].
  set (kw' := negb (vote_is_zero v) && negb (bstr_eqb kw []) && bstr_eqb root kw) in Hp.
  destruct kw'; unfold mbind, M_bind in Hp; cbn in Hp; injection Hp as <- <-;
    (split_and!; [done| |]); destruct (Qle_bool v (max_vote b)); cbn; eauto; done.
Qed.

Lemma poll_roots_sound roots all kw b s b' s' :
  (forall k, k ∈ roots -> k ∈ all) -> sound all b s ->
  poll_roots m voter host kw oper roots b s = (Ok b', s') -> sound all b' s'.
Proof using HV.
  revert b s. induction roots as [|k roots IH]; intros b s Hin Hs; cbn [poll_roots]; [by intros [= <- <-]|].
  intros (b1 & s1 & Hp & Hrest)%M_bind_inv. eapply IH; [| |exact Hrest].
  - intros k' Hk'. apply Hin. by right.
  - eapply poll_sound; [apply Hin; by left|exact Hs|exact Hp].
Qed.

Lemma open_or_write_inv kw s h s' :
  strip (v_obj (r_votes s)) = o ->
  resolve_hier_for_open_or_write m voter host kw oper s = (Ok h, s') ->
  let obj := v_obj (r_votes s') in
  r_resc_hier s' = h /\ strip obj = o /\
  if -1 <? f_repl_requested o then
    exists target, get_replica (f_repl_requested o) (f_replicas obj) = Some target /\
      vote_is_zero (po_vote target) = false /\ h = po_resc_hier target
  else exists roots k, root_map (f_replicas (v_obj (r_votes s))) [] = Ok roots /\ k ∈ roots.*1 /\ voted promised k h.
Proof using HV.
  intros Hs. unfold resolve_hier_for_open_or_write. unfold mbind at 1, M_bind at 1, get_state at 1.
  intros (roots & s0 & [= Hroots <-] & H)%M_bind_inv. destruct roots as [|kv roots]; [done|].
  apply M_bind_inv in H as (b & s1 & Hp & H).
  assert (sound (kv :: roots).*1 b s1) as (Hs1 & H1 & H2)
    by (apply (poll_roots_sound (kv :: roots).*1 _ kw (Ballot false [] (-1)) s b s1);
        [done|by split_and!|exact Hp]).
  destruct (vote_is_zero (max_vote b)) eqn:Ez; [done|].
  unfold mbind at 1, M_bind at 1, get_state at 1 in H.
  assert (f_repl_requested (v_obj (r_votes s1)) = f_repl_requested o) as Er by by rewrite <- Hs1.
  rewrite Er in H. destruct (-1 <? f_repl_requested o).
  - destruct (get_replica _ _) as [t|] eqn:Et; [|done]. destruct (vote_is_zero (po_vote t)) eqn:Etz; [done|].
    unfold mbind, M_bind in H. cbn in H. injection H as <- <-. split_and!; [done..|]. by exists t.
  - destruct (kw_match_found b).
    + injection H as <- <-. split_and!; [done..|]. destruct (H2 eq_refl) as (k & Hk & Hv). eauto.
    + unfold mbind, M_bind in H. cbn in H. injection H as <- <-. split_and!; [done..|].
      destruct (H1 eq_refl) as (k & Hk & Hv). eauto.
Qed.
End promises.

(** Recording votes does not change which replica has a number. *)
Lemma get_replica_strip n rs rs' r' :
  set_vote 0 <$> rs = set_vote 0 <$> rs' -> get_replica n rs' = Some r' ->
  exists r, get_replica n rs = Some r /\ r' = set_vote (po_vote r') r.
Proof.
  revert rs'. induction rs as [|r rs IH]; intros [|r1 rs1]; try done.
  intros [= E1 E2 E3 E4 E5]. unfold get_replica. cbn [List.find]. rewrite E2.
  destruct (n =? po_repl_num r1).
  - intros [= <-]. exists r. split; [done|]. destruct r, r1. simpl in *. by subst.
  - by apply IH.
Qed.

(** C27: A client that asks for a replica number gets that replica or an error, never
    another one: a hierarchy that is returned is the one of the object's replica with
    that number, whose resource gave it a vote, whatever the keyword and the votes of
    the other replicas. *)
Theorem requested_replica_only m voter host kw oper s h s' P :
  let obj := v_obj (r_votes s) in
  0 <= f_repl_requested obj ->
  (forall p, Voter oper (strip obj) (voter p) (P p)) ->
  resolve_hier_for_open_or_write m voter host kw oper s = (Ok h, s') ->
  exists r v, get_replica (f_repl_requested obj) (f_replicas obj) = Some r /\ h = po_resc_hier r /\
    r_resc_hier s' = h /\ vote_is_zero v = false /\ set_vote v r ∈ f_replicas (v_obj (r_votes s')).
Proof.
  intros obj Hreq HV Hx.
  destruct (open_or_write_inv m voter host oper (strip obj) P HV kw s h s' eq_refl Hx) as (Hh & Hs' & H).
  rewrite (proj2 (Z.ltb_lt (-1) (f_repl_requested (strip obj)))) in H by (cbn; lia).
  destruct H as (t & Ht & Hv & ->). cbn [strip f_repl_requested] in Ht.
  destruct (get_replica_strip _ (f_replicas obj) _ _ (eq_sym (f_equal f_replicas Hs')) Ht) as (r & Hr & E).
  exists r, (po_vote t). split_and!; [done|by rewrite E|done|done|]. rewrite <- E.
  unfold get_replica in Ht. apply List.find_some in Ht as [Ht _]. by apply list_elem_of_In.
Qed.

(** The resolution composed with the voting of resource trees: when no replica
    number is asked for, an operation on an existing object runs on a path from the
    root of one of its replicas down to a storage resource of that root's tree; and
    it changes nothing of the file object but the recorded votes. *)
Theorem open_hierarchy_is_path `{L : LexicalCast, B : BoostString} table cast_double time_now
    m host (tree : nat -> node) kw oper s h s' :
  let obj := v_obj (r_votes s) in
  f_repl_requested obj < 0 -> Forall parsable (f_replicas obj) ->
  f_cond_input obj !! RESC_HIER_STR_KW = None -> (forall p, well_formed oper (strip obj) (tree p)) ->
  resolve_hier_for_open_or_write m (fun p => resolve table cast_double time_now (tree p)) host kw oper s =
    (Ok h, s') ->
  strip (v_obj (r_votes s')) = strip obj /\
  exists k p r l, root_of obj k /\ resolve_name m k = Ok p /\ heap m !! p = Some r /\ parent_ r = None /\
    path (tree p) l /\ h = hier_str l [].
Proof.
  intros obj Hreq Hp Hc Hwf Hx.
  destruct (open_or_write_inv m _ host oper (strip obj) (fun p => path (tree p))
    (fun p => resolve_voter table cast_double time_now oper (strip obj) (tree p) (Hwf p))
    kw s h s' eq_refl Hx) as (Hh & Hs' & H).
  rewrite (proj2 (Z.ltb_ge (-1) (f_repl_requested (strip obj)))) in H by (cbn; lia).
  destruct H as (roots & k & Hroots & Hk & p & r & l & H1 & H2 & H3 & [H4|(hr & e & H4 & _)] & H5);
    [|cbn in H4; by rewrite Hc in H4].
  split; [done|]. exists k, p, r, l. split_and!; [|done..].
  destruct (root_map_keys (f_replicas obj) [] Hp) as (roots' & Hr' & Hkeys).
  fold obj in Hroots. rewrite Hr' in Hroots. injection Hroots as <-.
  apply Hkeys in Hk as [?%elem_of_nil|?]; done.
Qed.

(** ** The default resource *)

Section defaults.
Context (m : resource_manager) (trim : bstr -> bstr).

(** The resource exists and is not down. *)
Definition up (name : bstr) : Prop :=
  exists id p r, hier_to_leaf_id_error m name = Ok (inr id) /\ resolve_id m id = Ok p /\
    heap m !! p = Some r /\ p_status (r_props r) <> INT_RESC_STATUS_DOWN.

Definition live (hier : bstr) : Prop :=
  exists l, set_string hier = Ok (SUCCESS, l) /\ Forall up l.

Lemma is_resc_live_up id :
  is_resc_live m id = Ok SUCCESS <-> exists p r, resolve_id m id = Ok p /\ heap m !! p = Some r /\
    p_status (r_props r) <> INT_RESC_STATUS_DOWN.
Proof using Type.
  unfold is_resc_live, deref. destruct (resolve_id m id) as [p|[]]; try by (split; [done|intros (? & ? & ? & _)]).
  destruct (heap m !! p) as [r|] eqn:E; cbn; [|split; [done|intros (q & r & [= <-] & ? & _); congruence]].
  destruct (p_status (r_props r) =? INT_RESC_STATUS_DOWN) eqn:Es.
  - apply Z.eqb_eq in Es. split; [done|]. intros (q & r' & [= <-] & Hr & Hn). congruence.
  - apply Z.eqb_neq in Es. split; [eauto 6|done].
Qed.

Lemma live_loop_up names : live_loop m names = Ok SUCCESS <-> Forall up names.
Proof using Type.
  induction names as [|n names IH]; [split; [constructor|done]|]. rewrite Forall_cons, <- IH. cbn [live_loop].
  unfold up. destruct (hier_to_leaf_id_error m n) as [[c|id]|e]; cbn;
    [by split; [|intros [(? & ? & ? & ? & _) _]]..| |by split; [|intros [(? & ? & ? & ? & _) _]]].
  pose proof (is_resc_live_up id) as Hl. destruct (is_resc_live m id) as [[|c]|e]; cbn; split.
  - intros H. split; [|done]. destruct (proj1 Hl eq_refl) as (p & r & ?). eauto 6.
  - by intros [_ ?].
  - done.
  - intros [(i & p & r & [= <-] & ?) _]. by assert (Ok (ERROR c) = Ok SUCCESS) by (apply Hl; eauto).
  - done.
  - intros [(i & p & r & [= <-] & ?) _]. by assert (Throw e = Ok SUCCESS) by (apply Hl; eauto).
Qed.

Lemma is_hier_live_spec hier : is_hier_live m hier = Ok SUCCESS <-> live hier.
Proof using Type.
  unfold is_hier_live, live. destruct (set_string hier) as [[[|c] l]|e]; cbn.
  - rewrite live_loop_up. split; [eauto|]. by intros (l' & [= <-] & ?).
  - split; [done|]. by intros (l' & ? & _).
  - split; [done|]. by intros (l' & ? & _).
Qed.

Lemma last_live_spec names d x :
  last_live m names d = Ok x -> x = d \/ x ∈ names /\ live x.
Proof using Type.
  revert d. induction names as [|n names IH]; intros d; cbn [last_live]; [intros [= <-]; by left|].
  pose proof (is_hier_live_spec n) as Hn. destruct (is_hier_live m n) as [e|]; cbn; [|done].
  intros [->|[? ?]]%IH; [|right; split; [by right|done]].
  destruct e; cbn; [right; split; [by left|by apply Hn]|by left].
Qed.

Lemma pick_resource_live comm option_ c d old name :
  pick_resource m comm option_ c d old = Ok (SUCCESS, name) ->
  live name \/ option_ = lit "forced" /\ clientAuthFlag comm < LOCAL_PRIV_USER_AUTH /\ name = d.
Proof using Type.
  unfold pick_resource. destruct (_ && negb _).
  { intros ([|] & He & H)%res_bind_Ok; simplify_eq/=. left. by apply is_hier_live_spec. }
  destruct (_ && (_ <? _)) eqn:Ef.
  { apply andb_true_iff in Ef as [?%bstr_eqb_eq ?%Z.ltb_lt]. intros [= <-]. by right. }
  intros ([|] & He & H)%res_bind_Ok; simplify_eq/=; [left; by apply is_hier_live_spec|].
  apply res_bind_Ok in H as ([|] & He2 & H); simplify_eq. left. by apply is_hier_live_spec.
Qed.

Lemma set_default_inv comm resc_list option_ cond old x :
  set_default_resource m trim comm resc_list option_ cond old = Ok x ->
  (resc_list = [] /\ cond = None /\ x = (ERROR USER_NO_RESC_INPUT_ERR, old)) \/
  exists c d, (d = [] \/ live d) /\ pick_resource m comm option_ c d old = Ok x /\
    (option_ <> lit "forced" -> c = match cond ≫= cond_input_name with Some n => trim n | None => [] end).
Proof using Type.
  unfold set_default_resource. destruct (_ && negb (bool_decide _)) eqn:E.
  { apply andb_true_iff in E as [?%bstr_eqb_eq Hc%negb_true_iff%bool_decide_eq_false].
    intros [= <-]. left. split_and!; [done| |done]. by apply eq_None_not_Some. }
  intros (l & Hl & H)%res_bind_Ok. apply res_bind_Ok in H as (d & Hd & H). right. do 2 eexists.
  split_and!; [|exact H|].
  - apply last_live_spec in Hd as [->|[_ ?]]; [by left|by right].
  - intros Hf. rewrite (proj2 (bstr_eqb_neq option_ (lit "forced")) Hf). by rewrite andb_false_r.
Qed.
End defaults.

(** A default resource that is chosen without force is live: it parses, and every
    resource it names exists and is not down. Under force the choice can also be the
    empty name, when no resource of the policy's list is live. *)
Theorem default_resource_live m trim comm resc_list option_ cond old name :
  set_default_resource m trim comm resc_list option_ cond old = Ok (SUCCESS, name) ->
  live m name \/ option_ = lit "forced" /\ clientAuthFlag comm < LOCAL_PRIV_USER_AUTH /\ name = [].
Proof.
  intros [(_ & _ & ?)|(c & d & Hd & H & _)]%set_default_inv; [done|].
  apply pick_resource_live in H as [?|(Hf & Ha & ->)]; [by left|]. destruct Hd as [->|?]; [by right|by left].
Qed.

(** With the option "preferred", a client whose resource is not live gets
    CAT_NO_ROWS_FOUND: the live resources of the policy's list are not used. *)
Theorem preferred_not_live m trim comm resc_list cond name old x :
  cond_input_name cond = Some name -> trim name <> [] -> ~ live m (trim name) ->
  set_default_resource m trim comm resc_list (lit "preferred") (Some cond) old = Ok x ->
  x = (ERROR CAT_NO_ROWS_FOUND, old).
Proof.
  intros Hn Ht Hl [(_ & ? & _)|(c & d & _ & H & Hc)]%set_default_inv; [done|].
  rewrite Hc in H by done. cbn [mbind option_bind] in H. rewrite Hn in H. unfold pick_resource in H.
  rewrite (proj2 (bstr_eqb_neq _ _) Ht) in H. change (bstr_eqb (lit "preferred") (lit "preferred")) with true in H.
  apply res_bind_Ok in H as ([|] & He & H); simplify_eq/=; [|done].
  by destruct (Hl (proj1 (is_hier_live_spec m (trim name)) He)).
Qed.

(** ** New objects *)

(** The resource the policy for new objects designates: the one a rule set, or the
    client's, or the default. *)
Definition designated (m : resource_manager) (trim : bstr -> bstr) (policy : scheme) (comm : rsComm)
    (inp : dataObjInp) (name : bstr) : Prop :=
  exists rule status rei_status rescName old, policy rule inp = Ok (status, rei_status, rescName) /\
    0 <= status /\
    (rescName <> [] /\ name = rescName \/
     rescName = [] /\ set_default_resource m trim comm [] [] (Some (condInput inp)) old = Ok (SUCCESS, name)).

Lemma apply_policy_designated m trim env policy comm inp old s name s' :
  apply_policy_for_create_operation m trim env policy comm inp old s = (Ok name, s') ->
  designated m trim policy comm inp name /\ r_votes s' = r_votes s.
Proof.
  unfold apply_policy_for_create_operation.
  intros ([[status rei] rescName] & s1 & [= Hp <-] & H)%M_bind_inv.
  destruct (status <? 0) eqn:Es; [done|]. apply Z.ltb_ge in Es.
  apply M_bind_inv in H as (n & s2 & Hn & H). apply M_bind_inv in H as (q & s3 & Hq & H).
  destruct (q =? SYS_RESC_QUOTA_EXCEEDED); [done|]. injection H as <- <-.
  assert (r_votes s3 = r_votes s2) as ->
    by (unfold run_quota in Hq; destruct (setRescQuota _ _ _ _ _ _ _ _); by injection Hq as _ <-).
  destruct rescName as [|c rn]; [|injection Hn as <- <-; split; [|done]].
  - apply M_bind_inv in Hn as ([[|e] d] & s4 & [= Hd <-] & Hn); [|done]. injection Hn as <- <-.
    split; [|done]. do 5 eexists. split_and!; [exact Hp|done|]. by right.
  - do 5 eexists. split_and!; [exact Hp|done|]. by left.
Unshelve. exact [].
Qed.

(** An object that does not exist is created on the resource the policy
    designates, never on a child resource and not by the client's word alone: a
    CREATE that succeeds for an object without replicas yields the hierarchy that
    this resource, which has no parent, voted for; the quota was checked before, and
    with a replica number there is no creation. *)
Theorem create_follows_policy m voter host trim env comm inp code s b h s' P :
  e_comm env = Some comm -> e_collStat env inp = None ->
  (forall p, Voter CREATE_OPERATION (strip (v_obj (r_votes s))) (voter p) (P p)) ->
  f_cond_input (v_obj (r_votes s)) !! RESC_HIER_STR_KW = None ->
  resolve_with_object m voter host trim env CREATE_OPERATION inp (ERROR code) s = (Ok (b, h), s') ->
  condInput inp !! REPL_NUM_KW = None /\
  exists name, designated m trim (e_policy env) comm inp name /\ voted m P name h.
Proof.
  intros Hcomm Hcoll HV Hc. unfold resolve_with_object. rewrite Hcomm, Hcoll.
  intros (kw & s1 & [= Hkw <-] & H)%M_bind_inv.
  change (String.eqb CREATE_OPERATION CREATE_OPERATION) with true in H. cbn [andb] in H.
  destruct (has_key inp REPL_NUM_KW) eqn:Er; [done|].
  split; [by apply bool_decide_eq_false, eq_None_not_Some in Er|].
  change (String.eqb CREATE_OPERATION CREATE_OPERATION) with true in H. cbn iota in H.
  apply M_bind_inv in H as (name & s2 & Hp & H). exists name.
  apply apply_policy_designated in Hp as [Hd Hv]. split; [done|].
  unfold mbind, M_bind, get_state, mret, M_ret in H. unfold resolve_hier_for_create, set_resc_hier in H.
  unfold mbind, M_bind in H. cbn [error_ok] in H. cbn iota beta in H.
  destruct (request_vote_for_file_object m voter host CREATE_OPERATION name _) as [x s3] eqn:Ex in H.
  destruct (request_vote_promise m voter host CREATE_OPERATION _ P HV name
    (RState (r_votes s2) name (r_quota s2) (r_info s2)) x s3) as (_ & _ & Hx); [cbn; by rewrite Hv|exact Ex|].
  destruct x as [[c|[h' v]]|e]; [done| |done]. destruct (Qeq_bool v vote_zero); [done|].
  injection H as <- <- <-. destruct (Hx h' v eq_refl) as [(p & r & l & H1 & H2 & H3 & [H4|(hr & e & H4 & _)] & H5) _];
    [|by cbn in H4; rewrite Hc in H4]. by exists p, r, l.
Qed.

(** ** The replicas the caller gets *)

(** Code that leaves the caller's list alone. *)
Definition keeps_info {A} (c : M rstate A) : Prop := forall s x s', c s = (x, s') -> r_info s' = r_info s.

Create HintDb info.
Lemma keeps_bind {A B} (c : M rstate A) (k : A -> M rstate B) :
  keeps_info c -> (forall a, keeps_info (k a)) -> keeps_info (c ≫= k).
Proof.
  intros Hc Hk s x s'. unfold mbind, M_bind. destruct (c s) as [[a|e] s1] eqn:E.
  - intros H. rewrite (Hk a _ _ _ H). by apply (Hc s (Ok a)).
  - intros [= <- <-]. by apply (Hc s (Throw e)).
Qed.
Lemma keeps_ret {A} (a : A) : keeps_info (mret a).
Proof. by intros s x s' [= <- <-]. Qed.
Lemma keeps_throw {A} e : keeps_info (throw e : M rstate A).
Proof. by intros s x s' [= <- <-]. Qed.
Lemma keeps_lift {A} (x : res A) : keeps_info (lift x).
Proof. by intros s y s' [= <- <-]. Qed.
Lemma keeps_get : keeps_info (get_state (S := rstate)).
Proof. by intros s y s' [= <- <-]. Qed.
Lemma keeps_hier h : keeps_info (set_resc_hier h).
Proof. by intros s y s' [= <- <-]. Qed.
Lemma keeps_votes {A} (c : M vstate A) : keeps_info (run_votes c).
Proof. intros s x s'. unfold run_votes. destruct (c _). by intros [= <- <-]. Qed.
Lemma keeps_quota {A} (c : M quota_state A) : keeps_info (run_quota c).
Proof. intros s x s'. unfold run_quota. destruct (c _). by intros [= <- <-]. Qed.
#[export] Hint Resolve keeps_bind keeps_ret keeps_throw keeps_lift keeps_get keeps_hier keeps_votes
  keeps_quota : info.

(** Follow the structure of the code, with the lemmas on its parts. *)
Ltac keeps :=
  repeat (first [solve [auto with info] | apply keeps_bind
                |match goal with
                 | |- keeps_info (match ?x with _ => _ end) => destruct x
                 | |- forall _, _ => intros ?
                 end]).

Section frame.
Context (m : resource_manager) (voter : nat -> resolver) (host : bstr) (trim : bstr -> bstr).

Lemma keeps_request oper k : keeps_info (request_vote_for_file_object m voter host oper k).
Proof using Type. unfold request_vote_for_file_object. keeps. Qed.
#[local] Hint Resolve keeps_request : info.

Lemma keeps_poll_roots kw oper roots b : keeps_info (poll_roots m voter host kw oper roots b).
Proof using Type.
  revert b. induction roots as [|k roots IH]; intros b; cbn [poll_roots]; [auto with info|].
  apply keeps_bind; [unfold poll; keeps|exact IH].
Qed.
#[local] Hint Resolve keeps_poll_roots : info.

Lemma keeps_open kw oper : keeps_info (resolve_hier_for_open_or_write m voter host kw oper).
Proof using Type. unfold resolve_hier_for_open_or_write. keeps. Qed.
#[local] Hint Resolve keeps_open : info.

Lemma keeps_create kw : keeps_info (resolve_hier_for_create m voter host kw).
Proof using Type. unfold resolve_hier_for_create. keeps. Qed.

Lemma keeps_policy env policy comm inp old :
  keeps_info (apply_policy_for_create_operation m trim env policy comm inp old).
Proof using Type. unfold apply_policy_for_create_operation. keeps. Qed.
#[local] Hint Resolve keeps_create keeps_policy : info.

Lemma keeps_existing oper inp kw e : keeps_info (resolve_existing m voter host oper inp kw e).
Proof using Type. unfold resolve_existing. keeps. Qed.
#[local] Hint Resolve keeps_existing : info.

Lemma keeps_resolve env oper inp e : keeps_info (resolve_with_object m voter host trim env oper inp e).
Proof using Type. unfold resolve_with_object. keeps. Qed.
End frame.

(** After a successful resolution the caller's list of replicas is the one fetched
    again, when that worked. When the second fetch fails, for instance because the
    object is gone, and the first succeeded, the caller is left with the list that
    was freed. *)
Theorem refetched_replicas m voter host trim env oper inp fetch refetch s x s' :
  r_info s = NullInfo ->
  resolve_resource_hierarchy m voter host trim env oper inp fetch refetch s = (Ok x, s') ->
  let fetched r := (file_object_factory (bool_decide (is_Some (e_comm env))) inp r new_file_object []).2 in
  r_info s' = match fetched refetch, fetched fetch with
              | Some l, _ => LiveInfo l
              | None, Some _ => FreedInfo
              | None, None => NullInfo
              end.
Proof.
  intros Hnull Hx. unfold resolve_resource_hierarchy in Hx. cbv zeta beta.
  destruct (file_object_factory _ inp fetch _ _) as [[[e1 o1] h1] i1].
  destruct (file_object_factory _ inp refetch _ _) as [[[e2 o2] h2] i2].
  unfold mbind at 1, M_bind at 1, get_state at 1 in Hx.
  unfold mbind at 1, M_bind at 1, put_state at 1 in Hx.
  apply M_bind_inv in Hx as (y & s1 & Hy & Hx). apply keeps_resolve in Hy. cbn [r_info] in Hy.
  rewrite Hnull in Hy. unfold mbind, M_bind, get_state, set_info, mret, M_ret in Hx. rewrite Hy in Hx.
  destruct i1, i2; cbn in Hx; injection Hx as _ <-; by cbn.
Qed.

(** A redirection that reports success found the host of the leaf resource of the
    hierarchy it returns: it is local exactly when this server is one of the host's
    names, and otherwise a connection was made. The exceptions, where the outputs are
    left as they were, are an empty hierarchy and a resource without a host. *)
Theorem redirect_sound m voter host trim resc_host connect env oper inp fetch refetch out s out' s' :
  resource_redirect m voter host trim resc_host connect env oper inp fetch refetch out s =
    (Ok (SUCCESS, out'), s') ->
  exists b hier, resolve_resource_hierarchy m voter host trim env oper inp fetch refetch s = (Ok (b, hier), s') /\
  (hier = [] /\ out' = Redirection (out_hier out) (out_host out) LOCAL_HOST \/
   exists id p, hier_to_leaf_id_error m hier = Ok (inr id) /\ resolve_id m id = Ok p /\
     match resc_host p with
     | inr (Some names) =>
         (host ∈ names) /\ out' = Redirection hier None LOCAL_HOST \/
         (host ∉ names) /\ 0 <= connect names /\ out' = Redirection hier (Some names) REMOTE_HOST
     | inr None => out' = Redirection (out_hier out) (out_host out) LOCAL_HOST
     | inl _ => False
     end).
Proof.
  unfold resource_redirect.
  destruct (resolve_resource_hierarchy _ _ _ _ _ _ _ _ _ _) as [[[b h]|[]] s1]; try done.
  intros H. exists b, h. destruct h as [|c h]; [injection H as <- <-; split; [done|by left]|].
  set (hier := c :: h) in *. injection H as H <-. split; [done|right].
  apply res_bind_Ok in H as ([|id] & Hid & H); [done|].
  destruct (resolve_id m id) as [p|[]] eqn:Ep; try done. exists id, p. split_and!; [done..|].
  destruct (resc_host p) as [|[names|]]; [done| |by injection H as <-].
  destruct (existsb _ names) eqn:Ee; [left|destruct (connect names <? 0) eqn:Ec; [done|right]]; injection H as <-.
  - apply existsb_exists in Ee as (n & Hn & ->%bstr_eqb_eq). by rewrite list_elem_of_In.
  - apply Z.ltb_ge in Ec. split_and!; [|done..]. rewrite list_elem_of_In. intros Hin.
    apply not_true_iff_false in Ee. apply Ee, existsb_exists. exists host. by rewrite bstr_eqb_refl.
Qed.

(** ** Instances *)

#[local] Existing Instance lexical_cast_ref.
#[local] Existing Instance boost_ref.

(** Two storage resources without a parent, and an object with a replica on each. *)
Definition flat : resource_manager :=
  init_from_catalog (fun _ _ _ => true) [sample_row "1" "a" ""; sample_row "2" "b" ""] empty_manager.
Definition flat_tree (p : nat) : node := Storage (disk (if decide (p = 0%nat) then "a" else "b")).
Definition flat_voter (p : nat) : resolver := resolve ∅ (fun _ => None) 0 (flat_tree p).
Definition here : bstr := lit "host".

Definition two_replicas (requested : Z) : rstate :=
  RState (VState (FileObject 5 requested ∅ [replica_on 0 "a"; replica_on 1 "b"]) []) []
    (QuotaState RESC_QUOTA_OFF 0 ∅) NullInfo.

Definition flat_answer (k : bstr) : answer := (SUCCESS, [k], 1%Q).

Lemma flat_roots k : root_of (v_obj (r_votes (two_replicas (-1)))) k -> k = lit "a" \/ k = lit "b".
Proof.
  intros (r & l & Hr & Hl & <-). cbn in Hr.
  apply elem_of_cons in Hr as [->|Hr]; [left|right].
  - assert (hierarchy_parser (po_resc_hier (replica_on 0 "a")) = Ok [lit "a"]) as E by (vm_compute; reflexivity).
    rewrite E in Hl. by injection Hl as <-.
  - apply list_elem_of_singleton in Hr as ->.
    assert (hierarchy_parser (po_resc_hier (replica_on 1 "b")) = Ok [lit "b"]) as E by (vm_compute; reflexivity).
    rewrite E in Hl. by injection Hl as <-.
Qed.

Lemma flat_resource n p :
  (n, p) = ("a"%string, 0%nat) \/ (n, p) = ("b"%string, 1%nat) ->
  exists r, resolve_name flat (lit n) = Ok p /\ heap flat !! p = Some r /\ parent_ r = None.
Proof. intros [[= -> ->]|[= -> ->]]; eexists; split_and!; vm_compute; reflexivity. Qed.

Lemma flat_gives n p :
  (n, p) = ("a"%string, 0%nat) \/ (n, p) = ("b"%string, 1%nat) ->
  root_answer flat flat_voter here OPEN_OPERATION (strip (v_obj (r_votes (two_replicas (-1))))) (lit n)
    (flat_answer (lit n)).
Proof.
  intros Hnp. destruct (flat_resource n p Hnp) as (r & H1 & H2 & H3).
  exists p, r. split_and!; [done..|].
  destruct Hnp as [[= -> ->]|[= -> ->]].
  - apply (unix_gives ∅ (disk "a") (lit "a") OPEN_OPERATION here [] _ (r_votes (two_replicas (-1))));
      [by apply disk_name|vm_compute; reflexivity].
  - apply (unix_gives ∅ (disk "b") (lit "b") OPEN_OPERATION here [] _ (r_votes (two_replicas (-1))));
      [by apply disk_name|vm_compute; reflexivity].
Qed.

Lemma flat_parsable n : Forall parsable (f_replicas (v_obj (r_votes (two_replicas n)))).
Proof. repeat constructor; eexists; vm_compute; reflexivity. Qed.

Lemma flat_well_formed oper o p : well_formed oper o (flat_tree p).
Proof. unfold flat_tree. destruct (decide (p = 0%nat)); (split; [eexists; by apply disk_name|done]). Qed.

Lemma open_highest_vote_witness :
  exists x s', resolve_hier_for_open_or_write flat flat_voter here (lit "b") OPEN_OPERATION
    (two_replicas (-1)) = (x, s') /\ x = Ok (lit "b").
Proof.
  destruct (open_highest_vote flat flat_voter here flat_answer (lit "b") OPEN_OPERATION (two_replicas (-1)))
    as (x & s' & Hx & H);
    [discriminate|reflexivity|apply flat_parsable| |].
  - intros k [->| ->]%flat_roots; [apply (flat_gives "a" 0); by left|apply (flat_gives "b" 1); by right].
  - exists x, s'. split; [exact Hx|]. apply (f_equal fst) in Hx. vm_compute in Hx. by rewrite <- Hx.
Defined.

Lemma requested_replica_only_witness :
  exists r v, get_replica 1 [replica_on 0 "a"; replica_on 1 "b"] = Some r /\ lit "b" = po_resc_hier r /\
    vote_is_zero v = false.
Proof.
  destruct (resolve_hier_for_open_or_write flat flat_voter here (lit "a") OPEN_OPERATION (two_replicas 1))
    as [x s'] eqn:E.
  assert (x = Ok (lit "b")) as -> by (apply (f_equal fst) in E; vm_compute in E; by rewrite <- E).
  destruct (requested_replica_only flat flat_voter here (lit "a") OPEN_OPERATION (two_replicas 1) (lit "b") s'
    (fun p => path (flat_tree p))) as (r & v & H1 & H2 & _ & H3 & _);
    [vm_compute; discriminate| |exact E|exists r, v; exact (conj H1 (conj H2 H3))].
  intros p. apply resolve_voter, flat_well_formed.
Defined.

Lemma open_hierarchy_is_path_witness :
  exists k p l, root_of (v_obj (r_votes (two_replicas (-1)))) k /\ path (flat_tree p) l /\
    lit "a" = hier_str l [].
Proof.
  destruct (resolve_hier_for_open_or_write flat flat_voter here [] OPEN_OPERATION (two_replicas (-1)))
    as [x s'] eqn:E.
  assert (x = Ok (lit "a")) as -> by (apply (f_equal fst) in E; vm_compute in E; by rewrite <- E).
  destruct (open_hierarchy_is_path ∅ (fun _ => None) 0 flat here flat_tree [] OPEN_OPERATION (two_replicas (-1))
    (lit "a") s') as (_ & k & p & r & l & H1 & _ & _ & _ & H2 & H3);
    [reflexivity|apply flat_parsable|reflexivity|intros p; apply flat_well_formed|exact E
    |exists k, p, l; exact (conj H1 (conj H2 H3))].
Defined.

Definition client : rsComm := RsComm (lit "alice") (lit "zone") 3 3.

Lemma default_resource_live_witness : live flat (lit "b").
Proof.
  destruct (default_resource_live flat id client (lit "a%b") (lit "null") None [] (lit "b"))
    as [H|(H & _)]; [vm_compute; reflexivity|exact H|by vm_compute in H].
Defined.

(** The client's resource does not exist; the policy's list has a live one. *)
Lemma preferred_not_live_witness :
  set_default_resource flat id client (lit "a") (lit "preferred") (Some {[DEST_RESC_NAME_KW := "gone"]}) [] =
    Ok (ERROR CAT_NO_ROWS_FOUND, []).
Proof.
  destruct (set_default_resource flat id client (lit "a") (lit "preferred")
    (Some {[DEST_RESC_NAME_KW := "gone"]}) []) as [x|e] eqn:E; [|by vm_compute in E].
  f_equal. apply (preferred_not_live flat id client (lit "a") {[DEST_RESC_NAME_KW := "gone"]} (lit "gone") [] x);
    [reflexivity|discriminate| |exact E].
  clear E. rewrite <- is_hier_live_spec. vm_compute. discriminate.
Defined.

(** A policy that sends every new object to [a]. *)
Definition to_a : scheme := fun _ _ => Ok (0, 0, lit "a").
Definition put_request (resc : string) : dataObjInp :=
  DataObjInp (lit "/zone/f") PUT_OPR 5 {[DEST_RESC_NAME_KW := resc]} 0 0.
Definition simple_env : request_env := RequestEnv (Some client) sample_env to_a (fun _ => None).
Definition no_object : rstate :=
  RState (VState new_file_object []) [] (QuotaState RESC_QUOTA_OFF 0 ∅) NullInfo.

(** The client asked for [b]. *)
Lemma create_follows_policy_witness :
  exists name, designated flat id to_a client (put_request "b") name /\
    voted flat (fun p => path (flat_tree p)) name (lit "a").
Proof.
  destruct (resolve_with_object flat flat_voter here id simple_env CREATE_OPERATION (put_request "b")
    (ERROR CAT_NO_ROWS_FOUND) no_object) as [x s'] eqn:E.
  assert (x = Ok (true, lit "a")) as -> by (apply (f_equal fst) in E; vm_compute in E; by rewrite <- E).
  refine (proj2 (create_follows_policy flat flat_voter here id simple_env client (put_request "b")
    CAT_NO_ROWS_FOUND no_object true (lit "a") s' (fun p => path (flat_tree p)) _ _ _ _ E)); [reflexivity..| |reflexivity].
  intros p. apply resolve_voter, flat_well_formed.
Defined.

Definition stored : Z * list dataObjInfo := (0, [DataObjInfo 7 0 GOOD_REPLICA (lit "a")]).
Definition gone : Z * list dataObjInfo := (CAT_NO_ROWS_FOUND, []).
Definition get_request : dataObjInp := DataObjInp (lit "/zone/f") 0 5 ∅ 0 0.

(** The object is removed while its hierarchy is resolved. *)
Lemma refetched_replicas_witness :
  exists s', resolve_resource_hierarchy flat flat_voter here id simple_env OPEN_OPERATION get_request
    stored gone no_object = (Ok (true, lit "a"), s') /\ r_info s' = FreedInfo.
Proof.
  destruct (resolve_resource_hierarchy flat flat_voter here id simple_env OPEN_OPERATION get_request
    stored gone no_object) as [x s'] eqn:E.
  assert (x = Ok (true, lit "a")) as -> by (apply (f_equal fst) in E; vm_compute in E; by rewrite <- E).
  exists s'. split; [reflexivity|].
  rewrite (refetched_replicas flat flat_voter here id simple_env OPEN_OPERATION get_request stored gone
    no_object (true, lit "a") s' eq_refl E). vm_compute. reflexivity.
Defined.

(** A resource without a host: success, and no hierarchy. *)
Lemma redirect_sound_witness :
  exists b hier s', resolve_resource_hierarchy flat flat_voter here id simple_env OPEN_OPERATION get_request
    stored stored no_object = (Ok (b, hier), s').
Proof.
  destruct (resource_redirect flat flat_voter here id (fun _ => inr None) (fun _ => 0) simple_env OPEN_OPERATION
    get_request stored stored (Redirection [] None REMOTE_HOST) no_object) as [x s'] eqn:E.
  assert (x = Ok (SUCCESS, Redirection [] None LOCAL_HOST)) as ->
    by (apply (f_equal fst) in E; vm_compute in E; by rewrite <- E).
  destruct (redirect_sound flat flat_voter here id (fun _ => inr None) (fun _ => 0) simple_env OPEN_OPERATION
    get_request stored stored (Redirection [] None REMOTE_HOST) no_object _ s' E) as (b & hier & H & _).
  exists b, hier, s'. exact H.
Defined.

(** A random resource asks only the child of the first replica below it: another
    replica below it that is asked for by number is reported inaccessible. *)
Example random_requested_inaccessible :
  let tree := Random (lit "rnd") [(lit "a", Storage (disk "a")); (lit "b", Storage (disk "b"))] in
  let top := init_from_catalog (fun _ _ _ => true) [sample_row "1" "rnd" ""] empty_manager in
  let info n h := DataObjInfo 7 n GOOD_REPLICA (lit h) in
  let found := (0, [info 0 "rnd;a"; info 1 "rnd;b"]) in
  let inp := DataObjInp (lit "/zone/f") 0 5 {[REPL_NUM_KW := "1"]} 0 0 in
  (resolve_resource_hierarchy top (fun _ => resolve ∅ (fun _ => None) 0 tree) here id simple_env
     OPEN_OPERATION inp found found no_object).1 = Throw (Eirods SYS_REPLICA_INACCESSIBLE).
Proof. vm_compute. reflexivity. Qed.
