(* ===== verification/Desc.v ===== *)
(** * Descriptors of open objects

    [server/core/src/objDesc.cpp]: the table [L1desc] of open data objects, the special
    collections' and the collection handles', and the functions that fill a
    descriptor, decide on the number of threads and set up a transfer. A request and a
    replica's information live in [malloc]ed memory that a descriptor points to:
    [mem] holds what is allocated, and freeing or reading a pointer that is not
    is undefined ([Eundef]). [refresh_info] and [apply_static_post_pep] are the places outside of
    the file where a handler changes the pointer to a descriptor's information. Members that are deprecated and never set
    ([pluginData]) and the special collection inside an object are left out. *)

From stdpp Require Import base gmap fin_sets infinite list strings.
From Stdlib Require Import ZArith Lia Ascii.
From S2P Require Import Prelude Errors Numerals Hierarchy Resources Quota Kvp Coordinating Redirect.
Local Open Scope Z_scope.
Local Set Warnings "-register-all".

Definition NUM_L1_DESC : nat := 1026.
Definition NUM_SPEC_COLL_DESC : nat := 100.
Definition FD_FREE : Z := 0.
Definition FD_INUSE : Z := 1.
Definition REG_CHKSUM : Z := 1.
Definition VERIFY_CHKSUM : Z := 2.
Definition CHKSUM_LEN : nat := 64.
Definition SHORT_STR_LEN : nat := 32.
Definition NO_THREADING : Z := -1.
Definition MIN_SZ_FOR_PARA_TRAN : Z := 1024 * 1024.

Definition GET_OPR : Z := 2.
Definition SAME_HOST_COPY_OPR : Z := 3.
Definition COPY_TO_LOCAL_OPR : Z := 4.
Definition COPY_TO_REM_OPR : Z := 5.
Definition REMOTE_ZONE_OPR : Z := 24.

Definition IN_PDMO_KW : string := "in_pdmo".
Definition OPEN_TYPE_KW : string := "openType".
Definition PURGE_CACHE_KW : string := "purgeCache".
Definition KEY_VALUE_PASSTHROUGH_KW : string := "key_value_passthrough".
Definition REG_CHKSUM_KW : string := "regChksum".
Definition VERIFY_CHKSUM_KW : string := "verifyChksum".
Definition NO_PARA_OP_KW : string := "noParaOpr".
Definition STREAMING_KW : string := "streaming".
Definition VERY_VERBOSE_KW : string := "veryVerbose".

(** ** Data *)

Definition ptr : Type := nat.

(** The members of [dataObjInfo_t] that are used. *)
Record info : Type := Info {
  i_objPath : bstr; i_hier : bstr; i_rescName : bstr; i_size : Z; i_status : Z;
  i_dataMode : bstr; i_dataType : bstr; i_condInput : gmap string string; i_next : option ptr
}.

Inductive obj : Type := InpObj (i : dataObjInp) | InfoObj (i : info).

Record l1desc : Type := L1Desc {
  l3descInx : Z; inuseFlag : Z; d_oprType : Z; openType : Z;
  oprStatus : Z; dataObjInpReplFlag : Z; d_dataObjInp : option ptr; d_dataObjInfo : option ptr;
  otherDataObjInfo : option ptr; copiesNeeded : Z; bytesWritten : Z; d_dataSize : Z;
  replStatus : Z; chksumFlag : Z; srcL1descInx : Z; d_chksum : bstr;
  remoteL1descInx : Z; stageFlag : Z; purgeCacheFlag : Z; lockFd : Z;
  replDataObjInfo : option ptr; remoteZoneHost : option ptr; in_pdmo : bstr; replica_token : bstr
}.

Definition init_l1desc : l1desc :=
  L1Desc 0 0 0 0 0 0 None None None 0 0 0 0 0 0 [] 0 0 0 0 None None [] [].

Definition set_inuseFlag (v : Z) (d : l1desc) : l1desc :=
  L1Desc (l3descInx d) v (d_oprType d) (openType d) (oprStatus d) (dataObjInpReplFlag d)
    (d_dataObjInp d) (d_dataObjInfo d) (otherDataObjInfo d) (copiesNeeded d) (bytesWritten d)
    (d_dataSize d) (replStatus d) (chksumFlag d) (srcL1descInx d) (d_chksum d) (remoteL1descInx d)
    (stageFlag d) (purgeCacheFlag d) (lockFd d) (replDataObjInfo d) (remoteZoneHost d) (in_pdmo d)
    (replica_token d).
Definition set_bytesWritten (v : Z) (d : l1desc) : l1desc :=
  L1Desc (l3descInx d) (inuseFlag d) (d_oprType d) (openType d) (oprStatus d) (dataObjInpReplFlag
    d) (d_dataObjInp d) (d_dataObjInfo d) (otherDataObjInfo d) (copiesNeeded d) v (d_dataSize d)
    (replStatus d) (chksumFlag d) (srcL1descInx d) (d_chksum d) (remoteL1descInx d) (stageFlag d)
    (purgeCacheFlag d) (lockFd d) (replDataObjInfo d) (remoteZoneHost d) (in_pdmo d)
    (replica_token d).
Definition set_in_pdmo (v : bstr) (d : l1desc) : l1desc :=
  L1Desc (l3descInx d) (inuseFlag d) (d_oprType d) (openType d) (oprStatus d) (dataObjInpReplFlag
    d) (d_dataObjInp d) (d_dataObjInfo d) (otherDataObjInfo d) (copiesNeeded d) (bytesWritten d)
    (d_dataSize d) (replStatus d) (chksumFlag d) (srcL1descInx d) (d_chksum d) (remoteL1descInx d)
    (stageFlag d) (purgeCacheFlag d) (lockFd d) (replDataObjInfo d) (remoteZoneHost d) v
    (replica_token d).
Definition set_openType (v : Z) (d : l1desc) : l1desc :=
  L1Desc (l3descInx d) (inuseFlag d) (d_oprType d) v (oprStatus d) (dataObjInpReplFlag d)
    (d_dataObjInp d) (d_dataObjInfo d) (otherDataObjInfo d) (copiesNeeded d) (bytesWritten d)
    (d_dataSize d) (replStatus d) (chksumFlag d) (srcL1descInx d) (d_chksum d) (remoteL1descInx d)
    (stageFlag d) (purgeCacheFlag d) (lockFd d) (replDataObjInfo d) (remoteZoneHost d) (in_pdmo d)
    (replica_token d).
Definition set_d_dataObjInp (v : option ptr) (d : l1desc) : l1desc :=
  L1Desc (l3descInx d) (inuseFlag d) (d_oprType d) (openType d) (oprStatus d) (dataObjInpReplFlag
    d) v (d_dataObjInfo d) (otherDataObjInfo d) (copiesNeeded d) (bytesWritten d) (d_dataSize d)
    (replStatus d) (chksumFlag d) (srcL1descInx d) (d_chksum d) (remoteL1descInx d) (stageFlag d)
    (purgeCacheFlag d) (lockFd d) (replDataObjInfo d) (remoteZoneHost d) (in_pdmo d)
    (replica_token d).
Definition set_dataObjInpReplFlag (v : Z) (d : l1desc) : l1desc :=
  L1Desc (l3descInx d) (inuseFlag d) (d_oprType d) (openType d) (oprStatus d) v (d_dataObjInp d)
    (d_dataObjInfo d) (otherDataObjInfo d) (copiesNeeded d) (bytesWritten d) (d_dataSize d)
    (replStatus d) (chksumFlag d) (srcL1descInx d) (d_chksum d) (remoteL1descInx d) (stageFlag d)
    (purgeCacheFlag d) (lockFd d) (replDataObjInfo d) (remoteZoneHost d) (in_pdmo d)
    (replica_token d).
Definition set_d_dataObjInfo (v : option ptr) (d : l1desc) : l1desc :=
  L1Desc (l3descInx d) (inuseFlag d) (d_oprType d) (openType d) (oprStatus d) (dataObjInpReplFlag
    d) (d_dataObjInp d) v (otherDataObjInfo d) (copiesNeeded d) (bytesWritten d) (d_dataSize d)
    (replStatus d) (chksumFlag d) (srcL1descInx d) (d_chksum d) (remoteL1descInx d) (stageFlag d)
    (purgeCacheFlag d) (lockFd d) (replDataObjInfo d) (remoteZoneHost d) (in_pdmo d)
    (replica_token d).
Definition set_d_oprType (v : Z) (d : l1desc) : l1desc :=
  L1Desc (l3descInx d) (inuseFlag d) v (openType d) (oprStatus d) (dataObjInpReplFlag d)
    (d_dataObjInp d) (d_dataObjInfo d) (otherDataObjInfo d) (copiesNeeded d) (bytesWritten d)
    (d_dataSize d) (replStatus d) (chksumFlag d) (srcL1descInx d) (d_chksum d) (remoteL1descInx d)
    (stageFlag d) (purgeCacheFlag d) (lockFd d) (replDataObjInfo d) (remoteZoneHost d) (in_pdmo d)
    (replica_token d).
Definition set_replStatus (v : Z) (d : l1desc) : l1desc :=
  L1Desc (l3descInx d) (inuseFlag d) (d_oprType d) (openType d) (oprStatus d) (dataObjInpReplFlag
    d) (d_dataObjInp d) (d_dataObjInfo d) (otherDataObjInfo d) (copiesNeeded d) (bytesWritten d)
    (d_dataSize d) v (chksumFlag d) (srcL1descInx d) (d_chksum d) (remoteL1descInx d) (stageFlag
    d) (purgeCacheFlag d) (lockFd d) (replDataObjInfo d) (remoteZoneHost d) (in_pdmo d)
    (replica_token d).
Definition set_d_dataSize (v : Z) (d : l1desc) : l1desc :=
  L1Desc (l3descInx d) (inuseFlag d) (d_oprType d) (openType d) (oprStatus d) (dataObjInpReplFlag
    d) (d_dataObjInp d) (d_dataObjInfo d) (otherDataObjInfo d) (copiesNeeded d) (bytesWritten d) v
    (replStatus d) (chksumFlag d) (srcL1descInx d) (d_chksum d) (remoteL1descInx d) (stageFlag d)
    (purgeCacheFlag d) (lockFd d) (replDataObjInfo d) (remoteZoneHost d) (in_pdmo d)
    (replica_token d).
Definition set_chksumFlag (v : Z) (d : l1desc) : l1desc :=
  L1Desc (l3descInx d) (inuseFlag d) (d_oprType d) (openType d) (oprStatus d) (dataObjInpReplFlag
    d) (d_dataObjInp d) (d_dataObjInfo d) (otherDataObjInfo d) (copiesNeeded d) (bytesWritten d)
    (d_dataSize d) (replStatus d) v (srcL1descInx d) (d_chksum d) (remoteL1descInx d) (stageFlag
    d) (purgeCacheFlag d) (lockFd d) (replDataObjInfo d) (remoteZoneHost d) (in_pdmo d)
    (replica_token d).
Definition set_d_chksum (v : bstr) (d : l1desc) : l1desc :=
  L1Desc (l3descInx d) (inuseFlag d) (d_oprType d) (openType d) (oprStatus d) (dataObjInpReplFlag
    d) (d_dataObjInp d) (d_dataObjInfo d) (otherDataObjInfo d) (copiesNeeded d) (bytesWritten d)
    (d_dataSize d) (replStatus d) (chksumFlag d) (srcL1descInx d) v (remoteL1descInx d) (stageFlag
    d) (purgeCacheFlag d) (lockFd d) (replDataObjInfo d) (remoteZoneHost d) (in_pdmo d)
    (replica_token d).
Definition set_purgeCacheFlag (v : Z) (d : l1desc) : l1desc :=
  L1Desc (l3descInx d) (inuseFlag d) (d_oprType d) (openType d) (oprStatus d) (dataObjInpReplFlag
    d) (d_dataObjInp d) (d_dataObjInfo d) (otherDataObjInfo d) (copiesNeeded d) (bytesWritten d)
    (d_dataSize d) (replStatus d) (chksumFlag d) (srcL1descInx d) (d_chksum d) (remoteL1descInx d)
    (stageFlag d) v (lockFd d) (replDataObjInfo d) (remoteZoneHost d) (in_pdmo d) (replica_token
    d).
Definition set_remoteL1descInx (v : Z) (d : l1desc) : l1desc :=
  L1Desc (l3descInx d) (inuseFlag d) (d_oprType d) (openType d) (oprStatus d) (dataObjInpReplFlag
    d) (d_dataObjInp d) (d_dataObjInfo d) (otherDataObjInfo d) (copiesNeeded d) (bytesWritten d)
    (d_dataSize d) (replStatus d) (chksumFlag d) (srcL1descInx d) (d_chksum d) v (stageFlag d)
    (purgeCacheFlag d) (lockFd d) (replDataObjInfo d) (remoteZoneHost d) (in_pdmo d)
    (replica_token d).
Definition set_remoteZoneHost (v : option ptr) (d : l1desc) : l1desc :=
  L1Desc (l3descInx d) (inuseFlag d) (d_oprType d) (openType d) (oprStatus d) (dataObjInpReplFlag
    d) (d_dataObjInp d) (d_dataObjInfo d) (otherDataObjInfo d) (copiesNeeded d) (bytesWritten d)
    (d_dataSize d) (replStatus d) (chksumFlag d) (srcL1descInx d) (d_chksum d) (remoteL1descInx d)
    (stageFlag d) (purgeCacheFlag d) (lockFd d) (replDataObjInfo d) v (in_pdmo d) (replica_token
    d).
Definition set_l3descInx (v : Z) (d : l1desc) : l1desc :=
  L1Desc v (inuseFlag d) (d_oprType d) (openType d) (oprStatus d) (dataObjInpReplFlag d)
    (d_dataObjInp d) (d_dataObjInfo d) (otherDataObjInfo d) (copiesNeeded d) (bytesWritten d)
    (d_dataSize d) (replStatus d) (chksumFlag d) (srcL1descInx d) (d_chksum d) (remoteL1descInx d)
    (stageFlag d) (purgeCacheFlag d) (lockFd d) (replDataObjInfo d) (remoteZoneHost d) (in_pdmo d)
    (replica_token d).


Record specCollDesc : Type := SpecCollDesc_ {
  sc_l3descInx : Z; sc_inuseFlag : Z; sc_dataObjInfo : option ptr; sc_parentInx : Z
}.

(** [collHandle_t]: the members the allocation and [clearCollHandle] touch. *)
Record collHandle : Type := CollHandle_ {
  ch_state : Z; ch_inuseFlag : Z; ch_rowInx : Z; ch_rodsObjStat : option ptr; ch_specColl : option ptr
}.

Record dstate : Type := DState {
  L1desc : list l1desc; SpecCollDesc : list specCollDesc; CollHandle : list collHandle;
  mem : gmap ptr obj
}.

(** ** Memory *)

Definition set_mem (h : gmap ptr obj) (s : dstate) : dstate :=
  DState (L1desc s) (SpecCollDesc s) (CollHandle s) h.

Definition malloc (o : obj) : M dstate ptr := fun s =>
  let p := fresh (dom (mem s)) in (Ok p, set_mem (<[p := o]> (mem s)) s).

Definition free (p : ptr) : M dstate unit := fun s =>
  match mem s !! p with
  | Some _ => (Ok tt, set_mem (delete p (mem s)) s)
  | None => (Throw Eundef, s)
  end.

(** [freeDataObjInfo], [clearDataObjInp] and [free]: nothing for a null pointer. *)
Definition free_opt (p : option ptr) : M dstate unit :=
  match p with Some p => free p | None => mret tt end.

Definition read_info (p : option ptr) : M dstate info := fun s =>
  match p ≫= (mem s !!.) with
  | Some (InfoObj i) => (Ok i, s)
  | _ => (Throw Eundef, s)
  end.

Definition read_inp (p : option ptr) : M dstate dataObjInp := fun s =>
  match p ≫= (mem s !!.) with
  | Some (InpObj i) => (Ok i, s)
  | _ => (Throw Eundef, s)
  end.

Definition write_info (p : ptr) (f : info -> info) : M dstate unit :=
  i ← read_info (Some p);
  s ← get_state;
  put_state (set_mem (<[p := InfoObj (f i)]> (mem s)) s).

Definition write_inp (p : ptr) (f : dataObjInp -> dataObjInp) : M dstate unit :=
  i ← read_inp (Some p);
  s ← get_state;
  put_state (set_mem (<[p := InpObj (f i)]> (mem s)) s).

(** [freeAllDataObjInfo]: each round frees one object of those allocated. *)
Fixpoint free_list (fuel : nat) (p : option ptr) : M dstate unit :=
  match p with
  | None => mret tt
  | Some q =>
      match fuel with
      | O => throw Ediverge
      | S fuel => i ← read_info (Some q); _ ← free q; free_list fuel (i_next i)
      end
  end.

Definition freeAllDataObjInfo (p : option ptr) : M dstate unit := fun s =>
  free_list (S (size (mem s))) p s.

(** ** The table *)

(** [L1desc[i]]; out of the array is undefined. *)
Definition get_l1 (i : Z) : M dstate l1desc := fun s =>
  match (if 0 <=? i then L1desc s !! Z.to_nat i else None) with
  | Some d => (Ok d, s)
  | None => (Throw Eundef, s)
  end.

Definition set_L1desc (l : list l1desc) (s : dstate) : dstate :=
  DState l (SpecCollDesc s) (CollHandle s) (mem s).

Definition upd_l1 (i : Z) (f : l1desc -> l1desc) : M dstate unit :=
  d ← get_l1 i;
  s ← get_state;
  put_state (set_L1desc (<[Z.to_nat i := f d]> (L1desc s)) s).

Definition initL1desc : M dstate Z := fun s =>
  (Ok 0, set_L1desc ((fun _ => init_l1desc) <$> L1desc s) s).

(** The first index from [start] whose flag is free. *)
Definition first_free (start : nat) (flags : list Z) : option nat :=
  (Nat.add start) <$> find_idx (fun f => f <=? FD_FREE) (drop start flags).

Definition allocL1desc : M dstate Z :=
  s ← get_state;
  match first_free 3 (inuseFlag <$> L1desc s) with
  | Some i => _ ← upd_l1 (Z.of_nat i) (set_inuseFlag FD_INUSE); mret (Z.of_nat i)
  | None => mret SYS_OUT_OF_FILE_DESC
  end.

Definition isL1descInuse : M dstate Z :=
  s ← get_state;
  mret (if existsb (fun d => inuseFlag d =? FD_INUSE) (drop 3 (L1desc s)) then 1 else 0).

(** The descriptors [closeAllL1desc] closes, in order; [fds] are those of [FileDesc]. *)
Definition closeAllL1desc (comm_ok : bool) (fds : Z -> Z) : M dstate (list Z) :=
  s ← get_state;
  mret (if comm_ok then
          (fun d => fds (l3descInx d)) <$>
            List.filter (fun d => (inuseFlag d =? FD_INUSE) && (2 <? l3descInx d)) (drop 3 (L1desc s))
        else []).

Definition freeL1desc_struct (i : Z) : M dstate Z :=
  d ← get_l1 i;
  _ ← free_opt (d_dataObjInfo d);
  _ ← freeAllDataObjInfo (otherDataObjInfo d);
  _ ← free_opt (replDataObjInfo d);
  _ ← (if dataObjInpReplFlag d =? 1 then free_opt (d_dataObjInp d) else mret tt);
  _ ← upd_l1 i (fun _ => init_l1desc);
  mret 0.

Definition freeL1desc (l1descInx : Z) : M dstate Z :=
  if (l1descInx <? 3) || (Z.of_nat NUM_L1_DESC <=? l1descInx) then mret SYS_FILE_DESC_OUT_OF_RANGE
  else freeL1desc_struct l1descInx.

(** ** Filling a descriptor *)

(** Keywords of a request that set the checksum. *)
Definition set_checksum (inp : dataObjInp) (d : l1desc) : l1desc :=
  match getValByKey inp REG_CHKSUM_KW, getValByKey inp VERIFY_CHKSUM_KW with
  | Some c, _ => set_d_chksum (rstrcpy c CHKSUM_LEN) (set_chksumFlag REG_CHKSUM d)
  | None, Some c => set_d_chksum (rstrcpy c CHKSUM_LEN) (set_chksumFlag VERIFY_CHKSUM d)
  | None, None => d
  end.

Definition set_pdmo (inp : dataObjInp) : l1desc -> l1desc :=
  set_in_pdmo (rstrcpy (from_option id [] (getValByKey inp IN_PDMO_KW)) MAX_NAME_LEN).

Definition set_hier (h : bstr) (i : info) : info :=
  Info (i_objPath i) h (i_rescName i) (i_size i) (i_status i) (i_dataMode i) (i_dataType i)
    (i_condInput i) (i_next i).
Definition set_resc (n : bstr) (i : info) : info :=
  Info (i_objPath i) (i_hier i) n (i_size i) (i_status i) (i_dataMode i) (i_dataType i)
    (i_condInput i) (i_next i).
Definition set_cond (k v : string) (i : info) : info :=
  Info (i_objPath i) (i_hier i) (i_rescName i) (i_size i) (i_status i) (i_dataMode i) (i_dataType i)
    (<[k := v]> (i_condInput i)) (i_next i).

(** The replica's hierarchy, from the request when it has none. *)
Definition fill_hier (inp : dataObjInp) (p : ptr) : M dstate unit :=
  i ← read_info (Some p);
  match getValByKey inp RESC_HIER_STR_KW with
  | Some resc_hier =>
      if bstr_eqb (i_hier i) [] then
        _ ← write_info p (set_hier (rstrcpy resc_hier MAX_NAME_LEN));
        if bstr_eqb (i_rescName i) [] then
          l ← lift (hierarchy_parser resc_hier);
          write_info p (set_resc (rstrcpy (first_resc l) NAME_LEN))
        else mret tt
      else mret tt
  | None => mret tt
  end.

Definition fillL1desc (i : Z) (inp : dataObjInp) (p : ptr) (status size : Z) : M dstate Z :=
  _ ← upd_l1 i (set_bytesWritten (-1));
  _ ← fill_hier inp p;
  _ ← upd_l1 i (set_pdmo inp);
  _ ← match getValByKey inp OPEN_TYPE_KW with
      | Some t => upd_l1 i (set_openType (atoi t))
      | None => mret tt
      end;
  q ← malloc (InpObj inp);
  _ ← upd_l1 i (fun d => set_dataObjInpReplFlag 1 (set_d_dataObjInp (Some q) d));
  _ ← upd_l1 i (fun d => set_d_dataSize size (set_replStatus status
                 (set_d_oprType (oprType inp) (set_d_dataObjInfo (Some p) d))));
  _ ← upd_l1 i (set_checksum inp);
  _ ← (if has_key inp PURGE_CACHE_KW then upd_l1 i (set_purgeCacheFlag 1) else mret tt);
  _ ← match condInput inp !! KEY_VALUE_PASSTHROUGH_KW with
      | Some v => write_info p (set_cond KEY_VALUE_PASSTHROUGH_KW v)
      | None => mret tt
      end;
  mret 0.

Definition getL1descIndexByDataObjInfo (p : option ptr) : M dstate Z :=
  s ← get_state;
  mret (match find_idx (fun d => bool_decide (d_dataObjInfo d = p)) (drop 3 (L1desc s)) with
        | Some i => Z.of_nat (3 + i)
        | None => -1
        end).

(** [openStat_t] *)
Record openStat : Type := OpenStat {
  o_dataSize : Z; o_dataType : bstr; o_dataMode : bstr; o_l3descInx : Z; o_replStatus : Z
}.

Definition allocAndSetL1descForZoneOpr (remote : Z) (inp : dataObjInp) (host : option ptr)
    (stat : option openStat) : M dstate Z :=
  i ← allocL1desc;
  if i <? 0 then mret i
  else
    _ ← upd_l1 i (fun d => set_remoteZoneHost host (set_d_oprType REMOTE_ZONE_OPR (set_remoteL1descInx remote d)));
    q ← malloc (InpObj inp);
    _ ← upd_l1 i (fun d => set_dataObjInpReplFlag 1 (set_d_dataObjInp (Some q) d));
    let path := rstrcpy (objPath inp) MAX_NAME_LEN in
    p ← malloc (InfoObj match stat with
                        | Some st => Info path [] [] (o_dataSize st) 0 (rstrcpy (o_dataMode st) SHORT_STR_LEN)
                                       (rstrcpy (o_dataType st) NAME_LEN) ∅ None
                        | None => Info path [] [] 0 0 [] [] ∅ None
                        end);
    _ ← upd_l1 i (set_d_dataObjInfo (Some p));
    _ ← match stat with
        | Some st => upd_l1 i (fun d => set_replStatus (o_replStatus st) (set_l3descInx (o_l3descInx st) d))
        | None => mret tt
        end;
    mret i.

Definition set_next (n : option ptr) (i : info) : info :=
  Info (i_objPath i) (i_hier i) (i_rescName i) (i_size i) (i_status i) (i_dataMode i) (i_dataType i)
    (i_condInput i) n.

(** [duplicate_replica]: a copy outside any list. *)
Definition duplicate_replica (i : info) : info := set_next None i.

Definition with_size (n : Z) (inp : dataObjInp) : dataObjInp :=
  DataObjInp (objPath inp) (oprType inp) n (condInput inp) (numThreads inp) (offset inp).

(** Its second part: the request and a duplicate of the replica's information are
    attached. *)
Definition attach_l1desc (i : Z) (inp : dataObjInp) (replica : info) (size : Z) : M dstate Z :=
  q ← malloc (InpObj (with_size size inp));
  _ ← upd_l1 i (set_d_dataObjInp (Some q));
  p ← malloc (InfoObj (duplicate_replica replica));
  _ ← upd_l1 i (set_d_dataObjInfo (Some p));
  _ ← upd_l1 i (fun d => set_checksum inp
        (set_purgeCacheFlag (if has_key inp PURGE_CACHE_KW then 1 else 0)
        (set_d_dataSize size (set_replStatus (i_status replica)
        (set_d_oprType (oprType inp) (set_dataObjInpReplFlag 1 d))))));
  _ ← match condInput inp !! KEY_VALUE_PASSTHROUGH_KW with
      | Some v => write_info p (set_cond KEY_VALUE_PASSTHROUGH_KW v)
      | None => mret tt
      end;
  mret i.

(** [populate_L1desc_with_inp]; the type of the open is read before anything is
    attached. *)
Definition populate_L1desc_with_inp (inp : dataObjInp) (replica : info) (size : Z) : M dstate Z :=
  i ← allocL1desc;
  if i <? 0 then throw (Eirods i)
  else
    _ ← upd_l1 i (set_bytesWritten (-1));
    _ ← upd_l1 i (set_pdmo inp);
    _ ← match getValByKey inp OPEN_TYPE_KW with
        | Some t => n ← lift (stoi t); upd_l1 i (set_openType n)
        | None => mret tt
        end;
    attach_l1desc i inp replica size.

(** ** Copying a descriptor *)

(** [replDataObjInfo]: the list is copied. *)
Fixpoint repl_info (fuel : nat) (src : ptr) : M dstate info :=
  i ← read_info (Some src);
  match i_next i with
  | None => mret i
  | Some n =>
      match fuel with
      | O => throw Ediverge
      | S fuel => i' ← repl_info fuel n; q ← malloc (InfoObj i'); mret (set_next (Some q) i)
      end
  end.

(** The pointers of the copy. A request of [dst] is to be cleared, but the call is given
    [dst] itself for a [dataObjInp_t]. *)
Definition copy_inp (dst src : option ptr) : M dstate (option ptr) :=
  match src, dst with
  | None, _ => mret None
  | Some _, Some _ => throw Eundef
  | Some _, None => i ← read_inp src; q ← malloc (InpObj i); mret (Some q)
  end.

Definition copy_info (dst src : option ptr) : M dstate (option ptr) :=
  match src with
  | None => mret None
  | Some p =>
      s ← get_state;
      i ← repl_info (size (mem s)) p;
      match dst with
      | Some q => _ ← write_info q (fun _ => i); mret (Some q)
      | None => q ← malloc (InfoObj i); mret (Some q)
      end
  end.

(** ** What the handlers write themselves

    [rsDataObjOpen.cpp] replaces the information of a replica it has registered by what the
    catalog gave it. *)
Definition refresh_info (i : Z) (x : info) : M dstate unit :=
  p ← malloc (InfoObj x);
  d ← get_l1 i;
  _ ← free_opt (d_dataObjInfo d);
  upd_l1 i (set_d_dataObjInfo (Some p)).

(** [apply_static_post_pep] of [finalize_utilities.cpp]: the rule gets the pointer and may
    put another one in its place. The properties of the resource, which it may read, are
    looked up by the hierarchy. *)
Definition apply_static_post_pep (rule : option ptr -> M dstate (option ptr * Z)) (i : Z) : M dstate Z :=
  d ← get_l1 i;
  _ ← read_info (d_dataObjInfo d);
  '(doi, status) ← rule (d_dataObjInfo d);
  _ ← upd_l1 i (set_d_dataObjInfo doi);
  mret status.

(** [copy_l1desc]: [_dst] when it returns. *)
Definition copy_l1desc (dst src : l1desc) : M dstate l1desc :=
  inp ← copy_inp (d_dataObjInp dst) (d_dataObjInp src);
  inf ← copy_info (d_dataObjInfo dst) (d_dataObjInfo src);
  mret (L1Desc (l3descInx src) (inuseFlag src) (d_oprType src) (openType src) (oprStatus src)
    (dataObjInpReplFlag src) inp inf (otherDataObjInfo dst) (copiesNeeded src) (bytesWritten src)
    (d_dataSize src) (replStatus src) (chksumFlag src) (srcL1descInx src) (d_chksum src)
    (remoteL1descInx src) (stageFlag src) (purgeCacheFlag src) (lockFd src) (replDataObjInfo dst)
    (remoteZoneHost src) (in_pdmo src) (replica_token src)).

(** ** Special collections and collection handles *)

Definition set_SpecCollDesc (l : list specCollDesc) (s : dstate) : dstate :=
  DState (L1desc s) l (CollHandle s) (mem s).

Definition zero_specColl : specCollDesc := SpecCollDesc_ 0 0 None 0.

Definition initSpecCollDesc : M dstate Z := fun s =>
  (Ok 0, set_SpecCollDesc ((fun _ => zero_specColl) <$> SpecCollDesc s) s).

Definition allocSpecCollDesc : M dstate Z := fun s =>
  match first_free 1 (sc_inuseFlag <$> SpecCollDesc s) with
  | Some i =>
      (Ok (Z.of_nat i),
       set_SpecCollDesc (alter (fun d => SpecCollDesc_ (sc_l3descInx d) FD_INUSE (sc_dataObjInfo d) (sc_parentInx d))
                           i (SpecCollDesc s)) s)
  | None => (Ok SYS_OUT_OF_FILE_DESC, s)
  end.

Definition freeSpecCollDesc (i : Z) : M dstate Z :=
  if (i <? 1) || (Z.of_nat NUM_SPEC_COLL_DESC <=? i) then mret SYS_FILE_DESC_OUT_OF_RANGE
  else
    s ← get_state;
    match SpecCollDesc s !! Z.to_nat i with
    | None => throw Eundef
    | Some d =>
        _ ← free_opt (sc_dataObjInfo d);
        s ← get_state;
        _ ← put_state (set_SpecCollDesc (<[Z.to_nat i := zero_specColl]> (SpecCollDesc s)) s);
        mret 0
    end.

Definition set_CollHandle (l : list collHandle) (s : dstate) : dstate :=
  DState (L1desc s) (SpecCollDesc s) l (mem s).

Definition allocCollHandle : M dstate Z := fun s =>
  match first_free 0 (ch_inuseFlag <$> CollHandle s) with
  | Some i =>
      (Ok (Z.of_nat i),
       set_CollHandle (alter (fun h => CollHandle_ (ch_state h) FD_INUSE (ch_rowInx h) (ch_rodsObjStat h)
                                         (ch_specColl h)) i (CollHandle s)) s)
  | None => (Ok (Z.of_nat (length (CollHandle s))),
             set_CollHandle (CollHandle s ++ [CollHandle_ 0 FD_INUSE 0 None None]) s)
  end.

(** [clearCollHandle(&CollHandle[i], 1)], then zeroes. *)
Definition freeCollHandle (i : Z) : M dstate Z :=
  s ← get_state;
  if (i <? 0) || (Z.of_nat (length (CollHandle s)) <=? i) then mret SYS_FILE_DESC_OUT_OF_RANGE
  else
    match CollHandle s !! Z.to_nat i with
    | None => throw Eundef
    | Some h =>
        _ ← free_opt (ch_specColl h);
        _ ← free_opt (ch_rodsObjStat h);
        s ← get_state;
        _ ← put_state (set_CollHandle (<[Z.to_nat i := CollHandle_ 0 0 0 None None]> (CollHandle s)) s);
        mret 0
    end.

(** ** Transfers *)

(** [dataOprInp_t] *)
Record dataOprInp : Type := DataOprInp {
  op_oprType : Z; op_numThreads : Z; op_offset : Z; op_dataSize : Z;
  op_destL3descInx : Z; op_srcL3descInx : Z; op_condInput : gmap string string
}.

(** A keyword of the request, passed on. *)
Definition pass_key (inp : dataObjInp) (k : string) (m : gmap string string) : gmap string string :=
  if has_key inp k then <[k := ""]> m else m.

Definition initDataOprInp (i : Z) (opr : Z) : M dstate dataOprInp :=
  d ← get_l1 i;
  inp ← read_inp (d_dataObjInp d);
  let cond := pass_key inp VERY_VERBOSE_KW (pass_key inp NO_PARA_OP_KW (pass_key inp STREAMING_KW ∅)) in
  let make sz dest src := DataOprInp opr (numThreads inp) (offset inp) sz dest src cond in
  let source := src ← get_l1 (srcL1descInx d); inf ← read_info (d_dataObjInfo src); mret (src, i_size inf) in
  if opr =? PUT_OPR then mret (make (Z.max 0 (dataSize inp)) (l3descInx d) 0)
  else if opr =? GET_OPR then
    inf ← read_info (d_dataObjInfo d);
    mret (make (if 0 <? i_size inf then i_size inf else dataSize inp) 0 (l3descInx d))
  else if opr =? SAME_HOST_COPY_OPR then
    '(src, sz) ← source; mret (make sz (l3descInx d) (l3descInx src))
  else if opr =? COPY_TO_REM_OPR then '(src, sz) ← source; mret (make sz 0 (l3descInx src))
  else if opr =? COPY_TO_LOCAL_OPR then '(src, sz) ← source; mret (make sz (l3descInx d) 0)
  else mret (make 0 0 0).

(** An entry of [FileDesc]: in use, its descriptor, and its host's local flag. *)
Record fileDesc : Type := FileDesc { fd_inuseFlag : Z; fd_fd : Z; fd_host : option Z }.

Definition convL3descInx (files : list fileDesc) (l3 : Z) : res Z :=
  if l3 <=? 2 then Ok l3
  else
    match files !! Z.to_nat l3 with
    | None => Throw Eundef
    | Some f =>
        if fd_inuseFlag f =? 0 then Ok l3
        else match fd_host f with
             | None => Ok l3
             | Some flag => Ok (if flag =? LOCAL_HOST then l3 else fd_fd f)
             end
    end.

(** ** Number of threads *)

Section threads.
Context (m : resource_manager) (isLocalHost : bstr -> bool).
(** [acSetNumThreads] for a request with so many threads, bytes and of this type; the
    hierarchies whose properties were added to the rule's input, in order. Its status
    and [rei.status]. *)
Context (acSetNumThreads : Z -> Z -> Z -> list bstr -> Z * Z).

Definition get_loc_for_hier_string (hier : bstr) : res (Z + bstr) :=
  id ← hier_to_leaf_id_error m hier;
  match id with
  | inl c => Ok (inl c)
  | inr id => match resolve_id m id with
              | Ok p => (fun r => inr (p_location (r_props r))) <$> deref m p
              | Throw (Eirods c) => Ok (inl c)
              | Throw e => Throw e
              end
  end.

(** The part for the source, after the one for the destination set [numDestThr] and
    added [used]. *)
Definition source_threads (rule : list bstr -> Z * Z) (dest src : bstr) (numDestThr : Z)
    (used : list bstr) : res (option Z * Z * list bstr) :=
  if (0 <? numDestThr) && bstr_eqb dest src then Ok (Some numDestThr, -1, used)
  else
    loc ← get_loc_for_hier_string dest;
    match loc with
    | inl _ => Ok (Some (-1), -1, used)
    | inr _ =>
        e ← is_hier_live m src;
        if error_ok e then
          let used := used ++ [dest] in
          let '(status, n) := rule used in
          if status <? 0 then Ok (None, -1, used)
          else if n =? 0 then Ok (Some 0, n, used)
          else Ok (None, n, used)
        else Ok (None, -1, used)
    end.

Definition dest_threads (rule : list bstr -> Z * Z) (dest : bstr) (src : option bstr) :
    res (option Z * Z * list bstr) :=
  loc ← get_loc_for_hier_string dest;
  match loc with
  | inl _ => Ok (Some (-1), -1, [])
  | inr location =>
      e ← is_hier_live m dest;
      if error_ok e then
        let '(status, n) := rule [dest] in
        if status <? 0 then Ok (None, -1, [dest])
        else if (n =? 0) || (n =? 1) && negb (bool_decide (is_Some src)) && isLocalHost location
        then Ok (Some 0, n, [dest])
        else Ok (None, n, [dest])
      else Ok (None, -1, [])
  end.

Definition nonempty_hier (h : option bstr) : option bstr :=
  match h with Some [] => None | _ => h end.

Definition getNumThreads (size inpNumThr : Z) (inp : dataObjInp) (dest src : option bstr) (opr : Z) : res Z :=
  if inpNumThr =? NO_THREADING then Ok 0
  else if size <? 0 then Ok 0
  else if (size <=? MIN_SZ_FOR_PARA_TRAN) && (inpNumThr <=? 0) then Ok 0
  else if has_key inp NO_PARA_OP_KW then Ok 1
  else
    let rule := acSetNumThreads (if size <=? MIN_SZ_FOR_PARA_TRAN then 1 else inpNumThr) size opr in
    '(done1, numDestThr, used) ← match nonempty_hier dest with
                                 | Some d => dest_threads rule d src
                                 | None => Ok (None, -1, [])
                                 end;
    match done1 with
    | Some n => Ok n
    | None =>
        '(done2, numSrcThr, used) ← match nonempty_hier dest, nonempty_hier src with
                                    | Some d, Some s => source_threads rule d s numDestThr used
                                    | _, _ => Ok (None, -1, used)
                                    end;
        match done2 with
        | Some n => Ok n
        | None =>
            if 0 <? numDestThr then Ok numDestThr
            else if 0 <? numSrcThr then Ok numSrcThr
            else let '(status, n) := rule used in
                 Ok (if status <? 0 then 0 else Z.max 0 n)
        end
    end.
End threads.

(** ** Running code on one descriptor *)

(** The state with descriptor [i] replaced and the memory [h]. *)
Definition put (i : nat) (d : l1desc) (h : gmap ptr obj) (s : dstate) : dstate :=
  DState (<[i := d]> (L1desc s)) (SpecCollDesc s) (CollHandle s) h.

Lemma put_put i d d' h h' s : put i d' h' (put i d h s) = put i d' h' s.
Proof. unfold put. cbn. by rewrite list_insert_insert_eq. Qed.

Lemma put_same i d s : L1desc s !! i = Some d -> s = put i d (mem s) s.
Proof. intros H. unfold put. rewrite list_insert_id by done. by destruct s. Qed.

Section run.
Context (i : nat) (s : dstate) (Hi : (i < length (L1desc s))%nat).

Lemma get_l1_put d h : get_l1 (Z.of_nat i) (put i d h s) = (Ok d, put i d h s).
Proof using Hi.
  unfold get_l1. rewrite (proj2 (Z.leb_le 0 (Z.of_nat i))) by lia. rewrite Nat2Z.id. unfold put. cbn.
  by rewrite list_lookup_insert_eq by done.
Qed.

Lemma upd_put d h f : upd_l1 (Z.of_nat i) f (put i d h s) = (Ok tt, put i (f d) h s).
Proof using Hi.
  unfold upd_l1. rewrite (M_bind_ok _ _ _ _ _ (get_l1_put d h)). run_M. rewrite Nat2Z.id.
  unfold put, set_L1desc. cbn. by rewrite list_insert_insert_eq.
Qed.

Lemma malloc_put d h o : malloc o (put i d h s) = (Ok (fresh (dom h)), put i d (<[fresh (dom h) := o]> h) s).
Proof using Type. done. Qed.

Lemma write_put d h p x f :
  h !! p = Some (InfoObj x) ->
  write_info p f (put i d h s) = (Ok tt, put i d (<[p := InfoObj (f x)]> h) s).
Proof using Type. intros Hp. unfold write_info, read_info. run_M. cbn. by rewrite Hp. Qed.

Lemma free_put d h p x : h !! p = Some x -> free p (put i d h s) = (Ok tt, put i d (delete p h) s).
Proof using Type. intros Hp. unfold free. cbn. by rewrite Hp. Qed.
End run.

(** What the memory invariant sees of a descriptor. *)
Definition same_pointers (d d' : l1desc) : Prop :=
  d_dataObjInp d' = d_dataObjInp d /\ d_dataObjInfo d' = d_dataObjInfo d /\
  otherDataObjInfo d' = otherDataObjInfo d /\ replDataObjInfo d' = replDataObjInfo d /\
  dataObjInpReplFlag d' = dataObjInpReplFlag d /\ inuseFlag d' = inuseFlag d.

(** A descriptor that owns a request and a replica's information. *)
Definition owns (d d' : l1desc) (q p : ptr) : Prop :=
  d_dataObjInp d' = Some q /\ d_dataObjInfo d' = Some p /\
  otherDataObjInfo d' = otherDataObjInfo d /\ replDataObjInfo d' = replDataObjInfo d /\
  dataObjInpReplFlag d' = 1 /\ inuseFlag d' = inuseFlag d.

Lemma same_pointers_checksum inp d : same_pointers d (set_checksum inp d).
Proof. unfold set_checksum. by destruct (getValByKey inp REG_CHKSUM_KW), (getValByKey inp VERIFY_CHKSUM_KW). Qed.

(** One step of a computation that is known to succeed. *)
Ltac step_ok H := rewrite (M_bind_ok _ _ _ _ _ H).

Lemma fill_hier_run i s inp p d h x :
  h !! p = Some (InfoObj x) ->
  exists y x', fill_hier inp p (put i d h s) = (y, put i d (<[p := InfoObj x']> h) s).
Proof.
  intros Hp. unfold fill_hier.
  assert (read_info (Some p) (put i d h s) = (Ok x, put i d h s)) as Hr by (unfold read_info; cbn; by rewrite Hp).
  step_ok Hr. clear Hr. assert (put i d h s = put i d (<[p := InfoObj x]> h) s) as Hsame by by rewrite insert_id.
  destruct (getValByKey inp RESC_HIER_STR_KW) as [hier|]; [|exists (Ok tt), x; by rewrite <- Hsame].
  destruct (bstr_eqb (i_hier x) []); [|exists (Ok tt), x; by rewrite <- Hsame].
  step_ok (write_put i s d h p x (set_hier (rstrcpy hier MAX_NAME_LEN)) Hp).
  set (x1 := set_hier (rstrcpy hier MAX_NAME_LEN) x).
  destruct (bstr_eqb (i_rescName x) []); [|by exists (Ok tt), x1].
  unfold mbind, M_bind, lift. destruct (hierarchy_parser hier) as [l|e]; [|by exists (Throw e), x1].
  rewrite (write_put i s d _ p x1) by by rewrite lookup_insert_eq.
  eexists _, _. f_equal. by rewrite insert_insert_eq.
Qed.

Lemma fresh_insert (h : gmap ptr obj) p o : is_Some (h !! p) -> dom (<[p := o]> h) = dom h.
Proof. intros Hp. rewrite dom_insert_L. apply elem_of_dom in Hp.
  apply set_eq. intros q. rewrite elem_of_union, elem_of_singleton. split; [by intros [->|?]|by right]. Qed.

(** The last part of filling a descriptor: flags and the pass-through keyword. *)
Lemma finish_fill_run i s inp p d h x :
  (i < length (L1desc s))%nat -> h !! p = Some (InfoObj x) ->
  exists d' x', same_pointers d d' /\
    (_ ← upd_l1 (Z.of_nat i) (set_checksum inp);
     _ ← (if has_key inp PURGE_CACHE_KW then upd_l1 (Z.of_nat i) (set_purgeCacheFlag 1) else mret tt);
     _ ← match condInput inp !! KEY_VALUE_PASSTHROUGH_KW with
         | Some v => write_info p (set_cond KEY_VALUE_PASSTHROUGH_KW v)
         | None => mret tt
         end;
     mret 0) (put i d h s) = (Ok 0, put i d' (<[p := InfoObj x']> h) s).
Proof.
  intros Hi Hp. step_ok (upd_put i s Hi d h (set_checksum inp)).
  assert (exists d', same_pointers d d' /\
    (if has_key inp PURGE_CACHE_KW then upd_l1 (Z.of_nat i) (set_purgeCacheFlag 1) else mret tt)
      (put i (set_checksum inp d) h s) = (Ok tt, put i d' h s)) as (d' & Hd' & H).
  { pose proof (same_pointers_checksum inp d) as Hc. destruct (has_key inp PURGE_CACHE_KW).
    - exists (set_purgeCacheFlag 1 (set_checksum inp d)). split; [exact Hc|by rewrite upd_put].
    - by exists (set_checksum inp d). }
  step_ok H. exists d'. destruct (condInput inp !! KEY_VALUE_PASSTHROUGH_KW) as [v|].
  - step_ok (write_put i s d' h p x (set_cond KEY_VALUE_PASSTHROUGH_KW v) Hp). by eexists.
  - exists x. split; [done|]. by rewrite insert_id.
Qed.

Lemma fillL1desc_run i s inp p status sz d h x :
  (i < length (L1desc s))%nat -> h !! p = Some (InfoObj x) ->
  exists d' x',
    (exists e, same_pointers d d' /\
       fillL1desc (Z.of_nat i) inp p status sz (put i d h s) = (Throw e, put i d' (<[p := InfoObj x']> h) s)) \/
    (exists q, (q ∉ dom h) /\ owns d d' q p /\
       fillL1desc (Z.of_nat i) inp p status sz (put i d h s) =
         (Ok 0, put i d' (<[p := InfoObj x']> (<[q := InpObj inp]> h)) s)).
Proof.
  intros Hi Hp. unfold fillL1desc. step_ok (upd_put i s Hi d h (set_bytesWritten (-1))).
  destruct (fill_hier_run i s inp p (set_bytesWritten (-1) d) h x Hp) as ([[]|e] & x1 & Hf);
    [|exists (set_bytesWritten (-1) d), x1; left; exists e; split; [done|by rewrite (M_bind_throw _ _ _ _ _ Hf)]].
  step_ok Hf. set (h1 := <[p := InfoObj x1]> h) in *.
  step_ok (upd_put i s Hi (set_bytesWritten (-1) d) h1 (set_pdmo inp)).
  set (d1 := set_pdmo inp (set_bytesWritten (-1) d)).
  assert (exists d2, same_pointers d d2 /\
    match getValByKey inp OPEN_TYPE_KW with
    | Some t => upd_l1 (Z.of_nat i) (set_openType (atoi t))
    | None => mret tt
    end (put i d1 h1 s) = (Ok tt, put i d2 h1 s)) as (d2 & Hd2 & H2).
  { destruct (getValByKey inp OPEN_TYPE_KW) as [t|]; [|by exists d1].
    exists (set_openType (atoi t) d1). split; [done|]. by rewrite upd_put. }
  step_ok H2. step_ok (malloc_put i s d2 h1 (InpObj inp)). set (q := fresh (dom h1)).
  assert (q ∉ dom h) as Hq by (rewrite <- (fresh_insert h p (InfoObj x1)) by eauto; apply is_fresh).
  assert (q <> p) as Hqp by (intros ->; apply Hq; by apply elem_of_dom_2 in Hp).
  set (h2 := <[q := InpObj inp]> h1).
  step_ok (upd_put i s Hi d2 h2 (fun d => set_dataObjInpReplFlag 1 (set_d_dataObjInp (Some q) d))).
  set (d3 := set_dataObjInpReplFlag 1 (set_d_dataObjInp (Some q) d2)).
  step_ok (upd_put i s Hi d3 h2 (fun d => set_d_dataSize sz
    (set_replStatus status (set_d_oprType (oprType inp) (set_d_dataObjInfo (Some p) d))))).
  set (d4 := set_d_dataSize sz (set_replStatus status (set_d_oprType (oprType inp) (set_d_dataObjInfo (Some p) d3)))).
  assert (h2 !! p = Some (InfoObj x1)) as Hp2
    by (unfold h2, h1; by rewrite lookup_insert_ne, lookup_insert_eq).
  destruct (finish_fill_run i s inp p d4 h2 x1 Hi Hp2) as (d5 & x2 & Hd5 & H5).
  exists d5, x2. right. exists q. split; [done|]. split.
  - destruct Hd2 as (_ & _ & E1 & E2 & _ & E3), Hd5 as (F1 & F2 & F3 & F4 & F5 & F6).
    unfold owns. by rewrite F1, F2, F3, F4, F5, F6.
  - rewrite H5. unfold h2, h1. f_equal. f_equal.
    rewrite (insert_insert_ne _ q p), insert_insert_eq by done. done.
Qed.

(** ** Descriptors own their memory *)

Record table_wf (s : dstate) : Prop := {
  wf_length : length (L1desc s) = NUM_L1_DESC;
  (** A descriptor that is not in use is zero; a request it points to is its own. *)
  wf_clean : forall i d, L1desc s !! i = Some d ->
    otherDataObjInfo d = None /\ replDataObjInfo d = None /\
    (d_dataObjInp d = None \/ dataObjInpReplFlag d = 1) /\
    (inuseFlag d <= FD_FREE -> d = init_l1desc);
  (** What it points to is allocated, and no other descriptor points to it. *)
  wf_inp : forall i d q, L1desc s !! i = Some d -> d_dataObjInp d = Some q ->
    exists x, mem s !! q = Some (InpObj x);
  wf_info : forall i d p, L1desc s !! i = Some d -> d_dataObjInfo d = Some p ->
    exists x, mem s !! p = Some (InfoObj x);
  wf_inp_inj : forall i j d d' q, L1desc s !! i = Some d -> L1desc s !! j = Some d' ->
    d_dataObjInp d = Some q -> d_dataObjInp d' = Some q -> i = j;
  wf_info_inj : forall i j d d' p, L1desc s !! i = Some d -> L1desc s !! j = Some d' ->
    d_dataObjInfo d = Some p -> d_dataObjInfo d' = Some p -> i = j
}.

(** Nobody in the table points to [p]. *)
Definition unowned (s : dstate) (p : ptr) : Prop :=
  forall i d, L1desc s !! i = Some d -> d_dataObjInp d <> Some p /\ d_dataObjInfo d <> Some p.

(** What a rule may leave in the place of a descriptor's information: the pointer it got, none,
    or one to information of its own. *)
Definition doi_ok (s : dstate) (d : l1desc) (doi : option ptr) : Prop :=
  doi = d_dataObjInfo d \/ doi = None \/ exists p x, doi = Some p /\ mem s !! p = Some (InfoObj x) /\ unowned s p.

Lemma lookup_put i d h s j d' :
  (i < length (L1desc s))%nat -> L1desc (put i d h s) !! j = Some d' ->
  i = j /\ d' = d \/ i <> j /\ L1desc s !! j = Some d'.
Proof.
  intros Hi. cbn. destruct (decide (i = j)) as [<-|Hne].
  - rewrite list_lookup_insert_eq by done. naive_solver.
  - rewrite list_lookup_insert_ne by done. naive_solver.
Qed.

(** Replacing a descriptor: what the other descriptors own is still allocated, and what
    the new one owns is nobody else's. *)
Lemma table_wf_put i d h s :
  table_wf s -> (i < length (L1desc s))%nat ->
  otherDataObjInfo d = None -> replDataObjInfo d = None ->
  (d_dataObjInp d = None \/ dataObjInpReplFlag d = 1) -> (inuseFlag d <= FD_FREE -> d = init_l1desc) ->
  (forall j e p, j <> i -> L1desc s !! j = Some e ->
     (d_dataObjInp e = Some p -> exists x, h !! p = Some (InpObj x)) /\
     (d_dataObjInfo e = Some p -> exists x, h !! p = Some (InfoObj x))) ->
  (forall q, d_dataObjInp d = Some q -> (exists x, h !! q = Some (InpObj x)) /\
     forall j e, j <> i -> L1desc s !! j = Some e -> d_dataObjInp e <> Some q) ->
  (forall p, d_dataObjInfo d = Some p -> (exists x, h !! p = Some (InfoObj x)) /\
     forall j e, j <> i -> L1desc s !! j = Some e -> d_dataObjInfo e <> Some p) ->
  table_wf (put i d h s).
Proof.
  intros Hwf Hi H1 H2 H3 H4 Hoth Hq Hp. split.
  - unfold put. cbn. rewrite length_insert. apply (wf_length s Hwf).
  - intros j e [(<- & ->)|(Hne & He)]%lookup_put; [done| |done]. by apply (wf_clean s Hwf j).
  - intros j e q [(<- & ->)|(Hne & He)]%lookup_put E; [by apply Hq| |done]. by apply (Hoth j e q).
  - intros j e q [(<- & ->)|(Hne & He)]%lookup_put E; [by apply Hp| |done]. by apply (Hoth j e q).
  - intros j k e e' q [(<- & ->)|(Hne & He)]%lookup_put [(<- & ->)|(Hne' & He')]%lookup_put E E'; try done.
    + by destruct (proj2 (Hq q E) k e' (not_eq_sym Hne') He').
    + by destruct (proj2 (Hq q E') j e (not_eq_sym Hne) He).
    + by apply (wf_inp_inj s Hwf j k e e' q).
  - intros j k e e' q [(<- & ->)|(Hne & He)]%lookup_put [(<- & ->)|(Hne' & He')]%lookup_put E E'; try done.
    + by destruct (proj2 (Hp q E) k e' (not_eq_sym Hne') He').
    + by destruct (proj2 (Hp q E') j e (not_eq_sym Hne) He).
    + by apply (wf_info_inj s Hwf j k e e' q).
Qed.

(** Memory in which everything allocated is still allocated, as what it was. *)
Definition extends (h h' : gmap ptr obj) : Prop := forall p,
  (forall x, h !! p = Some (InpObj x) -> exists x', h' !! p = Some (InpObj x')) /\
  (forall x, h !! p = Some (InfoObj x) -> exists x', h' !! p = Some (InfoObj x')).

Lemma extends_refl h : extends h h.
Proof. intros p. split; eauto. Qed.

Lemma extends_trans h1 h2 h3 : extends h1 h2 -> extends h2 h3 -> extends h1 h3.
Proof. intros H12 H23 p. split; intros x [y Hy]%H12; by apply H23 in Hy. Qed.

Lemma extends_fresh h q o : q ∉ dom h -> extends h (<[q := o]> h).
Proof.
  intros Hq p. assert (forall y, h !! p = Some y -> <[q := o]> h !! p = Some y) as H.
  { intros y Hy. rewrite lookup_insert_ne; [done|]. intros ->. apply Hq. by apply elem_of_dom_2 in Hy. }
  split; eauto.
Qed.

Lemma extends_write h p x x' : h !! p = Some (InfoObj x) -> extends h (<[p := InfoObj x']> h).
Proof.
  intros Hp q. destruct (decide (p = q)) as [<-|Hne].
  - rewrite lookup_insert_eq, Hp. split; [done|eauto].
  - rewrite lookup_insert_ne by done. split; eauto.
Qed.

Lemma extends_write_inp h p x x' : h !! p = Some (InpObj x) -> extends h (<[p := InpObj x']> h).
Proof.
  intros Hp q. destruct (decide (p = q)) as [<-|Hne].
  - rewrite lookup_insert_eq, Hp. split; [eauto|done].
  - rewrite lookup_insert_ne by done. split; eauto.
Qed.

Lemma wf_extends s h j e p :
  table_wf s -> extends (mem s) h -> L1desc s !! j = Some e ->
  (d_dataObjInp e = Some p -> exists x, h !! p = Some (InpObj x)) /\
  (d_dataObjInfo e = Some p -> exists x, h !! p = Some (InfoObj x)).
Proof.
  intros Hwf Hh He. split; intros Ep.
  - destruct (wf_inp s Hwf j e p He Ep) as [x Hx]. by apply Hh in Hx.
  - destruct (wf_info s Hwf j e p He Ep) as [x Hx]. by apply Hh in Hx.
Qed.

Lemma fresh_unowned s q : table_wf s -> q ∉ dom (mem s) -> unowned s q.
Proof.
  intros Hwf Hq i d Hd. split; intros E.
  - destruct (wf_inp s Hwf i d q Hd E) as [x Hx]. apply Hq. by apply elem_of_dom_2 in Hx.
  - destruct (wf_info s Hwf i d q Hd E) as [x Hx]. apply Hq. by apply elem_of_dom_2 in Hx.
Qed.

Lemma table_wf_same i d d' h s :
  table_wf s -> L1desc s !! i = Some d -> FD_FREE < inuseFlag d -> same_pointers d d' ->
  extends (mem s) h -> table_wf (put i d' h s).
Proof.
  intros Hwf Hd Hu (E1 & E2 & E3 & E4 & E5 & E6) Hh.
  destruct (wf_clean s Hwf i d Hd) as (C1 & C2 & C3 & _).
  apply table_wf_put; [done|by eapply lookup_lt_Some|congruence|congruence|by rewrite E1, E5|rewrite E6; lia| | |].
  - intros j e p _ He. by apply (wf_extends s h j e p).
  - intros q Eq. rewrite E1 in Eq. split; [by apply (wf_extends s h i d q)|].
    intros j e Hj He Ee. by apply Hj, (wf_inp_inj s Hwf j i e d q).
  - intros p Ep. rewrite E2 in Ep. split; [by apply (wf_extends s h i d p)|].
    intros j e Hj He Ee. by apply Hj, (wf_info_inj s Hwf j i e d p).
Qed.

Lemma table_wf_owns i d d' h s q p :
  table_wf s -> L1desc s !! i = Some d -> FD_FREE < inuseFlag d -> owns d d' q p ->
  extends (mem s) h -> unowned s q -> unowned s p ->
  (exists x, h !! q = Some (InpObj x)) -> (exists x, h !! p = Some (InfoObj x)) ->
  table_wf (put i d' h s).
Proof.
  intros Hwf Hd Hu (E1 & E2 & E3 & E4 & E5 & E6) Hh Hq Hp Xq Xp.
  destruct (wf_clean s Hwf i d Hd) as (C1 & C2 & _ & _).
  apply table_wf_put; [done|by eapply lookup_lt_Some|congruence|congruence|by right|rewrite E6; lia| | |].
  - intros j e r _ He. by apply (wf_extends s h j e r).
  - intros r Er. rewrite E1 in Er. injection Er as <-. split; [done|]. intros j e _ He. by apply (Hq j e He).
  - intros r Er. rewrite E2 in Er. injection Er as <-. split; [done|]. intros j e _ He. by apply (Hp j e He).
Qed.

(** ** Each operation *)

Lemma first_free_Some start flags i :
  first_free start flags = Some i ->
  (start <= i)%nat /\ (exists f, flags !! i = Some f /\ f <= FD_FREE) /\
  forall j f, (start <= j < i)%nat -> flags !! j = Some f -> FD_FREE < f.
Proof.
  unfold first_free. intros (k & Hk & ->)%fmap_Some.
  apply find_idx_Some in Hk as (l & c & r & Hs & <- & Hc & Hl).
  assert (forall j, drop start flags !! j = flags !! (start + j)%nat) as Hd by (intros; apply lookup_drop).
  split; [lia|]. split.
  - exists c. split; [|by apply Z.leb_le]. rewrite <- Hd, Hs, lookup_app_r by lia.
    by replace (length l - length l)%nat with 0%nat by lia.
  - intros j f [Hj1 Hj2] Hf. replace j with (start + (j - start))%nat in Hf by lia.
    rewrite <- Hd, Hs, lookup_app_l in Hf by lia. eapply Forall_lookup_1 in Hf; [|exact Hl].
    cbn in Hf. by apply Z.leb_gt in Hf.
Qed.

Lemma first_free_None start flags :
  first_free start flags = None -> forall j f, (start <= j)%nat -> flags !! j = Some f -> FD_FREE < f.
Proof.
  unfold first_free. intros Hn%fmap_None%find_idx_None j f Hj Hf.
  replace j with (start + (j - start))%nat in Hf by lia. rewrite <- lookup_drop in Hf.
  eapply Forall_lookup_1 in Hf; [|exact Hn]. cbn in Hf. by apply Z.leb_gt in Hf.
Qed.

(** A descriptor is allocated: the first free one from 3 on, zero but for its flag. *)
Definition allocated (s : dstate) (i : nat) : Prop :=
  (3 <= i)%nat /\ L1desc s !! i = Some init_l1desc /\
  forall j d, (3 <= j < i)%nat -> L1desc s !! j = Some d -> FD_FREE < inuseFlag d.

Definition new_desc : l1desc := set_inuseFlag FD_INUSE init_l1desc.

Lemma allocL1desc_run s :
  table_wf s ->
  (exists i, allocated s i /\ allocL1desc s = (Ok (Z.of_nat i), put i new_desc (mem s) s)) \/
  (forall j d, (3 <= j)%nat -> L1desc s !! j = Some d -> FD_FREE < inuseFlag d) /\
   allocL1desc s = (Ok SYS_OUT_OF_FILE_DESC, s).
Proof.
  intros Hwf.
  assert (allocL1desc s = match first_free 3 (inuseFlag <$> L1desc s) with
    | Some i => (_ ← upd_l1 (Z.of_nat i) (set_inuseFlag FD_INUSE); mret (Z.of_nat i)) s
    | None => (Ok SYS_OUT_OF_FILE_DESC, s)
    end) as -> by (unfold allocL1desc; run_M; by destruct (first_free _ _)).
  destruct (first_free 3 (inuseFlag <$> L1desc s)) as [i|] eqn:E.
  - left. exists i. apply first_free_Some in E as (H3 & (f & Hf & Hle) & Hmin).
    rewrite list_lookup_fmap in Hf. apply fmap_Some in Hf as (d & Hd & ->).
    destruct (wf_clean s Hwf i d Hd) as (_ & _ & _ & Hz). rewrite (Hz Hle) in Hd.
    assert (allocated s i) as Ha.
    { split_and!; [done..|]. intros j d' Hj Hd'. apply (Hmin j); [done|]. by rewrite list_lookup_fmap, Hd'. }
    split; [done|]. rewrite (put_same i init_l1desc s Hd) at 1.
    step_ok (upd_put i s (lookup_lt_Some _ _ _ Hd) init_l1desc (mem s) (set_inuseFlag FD_INUSE)). done.
  - right. split; [|done]. intros j d Hj Hd. apply (first_free_None 3 _ E j); [done|].
    by rewrite list_lookup_fmap, Hd.
Qed.

Lemma allocated_wf s i : table_wf s -> allocated s i -> table_wf (put i new_desc (mem s) s).
Proof.
  intros Hwf (_ & Hi & _). apply table_wf_put; try done; [by eapply lookup_lt_Some|by left|].
  intros j e p _ He. apply (wf_extends s (mem s) j e p); [done|apply extends_refl|done].
Qed.

(** What is left of an open request when its object is closed. *)
Definition release (d : l1desc) (h : gmap ptr obj) : gmap ptr obj :=
  let h := match d_dataObjInfo d with Some p => delete p h | None => h end in
  match d_dataObjInp d with Some q => delete q h | None => h end.

Lemma info_not_inp s i j d e p q :
  table_wf s -> L1desc s !! i = Some d -> L1desc s !! j = Some e ->
  d_dataObjInfo d = Some p -> d_dataObjInp e = Some q -> p <> q.
Proof.
  intros Hwf Hd He Ep Eq ->. destruct (wf_info s Hwf i d q Hd Ep) as [x Hx].
  destruct (wf_inp s Hwf j e q He Eq) as [y Hy]. congruence.
Qed.

Lemma freeL1desc_run s i d :
  table_wf s -> L1desc s !! i = Some d -> (3 <= i)%nat ->
  freeL1desc (Z.of_nat i) s = (Ok 0, put i init_l1desc (release d (mem s)) s).
Proof.
  intros Hwf Hd H3. pose proof (lookup_lt_Some _ _ _ Hd) as Hi.
  destruct (wf_clean s Hwf i d Hd) as (C1 & C2 & C3 & _). unfold freeL1desc.
  rewrite (proj2 (Z.ltb_ge (Z.of_nat i) 3)), (proj2 (Z.leb_gt (Z.of_nat NUM_L1_DESC) (Z.of_nat i)))
    by (rewrite ?(wf_length s Hwf) in Hi; lia).
  cbn [orb]. unfold freeL1desc_struct. rewrite (put_same i d s Hd) at 1.
  step_ok (get_l1_put i s Hi d (mem s)). rewrite C1, C2.
  assert (free_opt (d_dataObjInfo d) (put i d (mem s) s) = (Ok tt,
    put i d (match d_dataObjInfo d with Some p => delete p (mem s) | None => mem s end) s)) as H1.
  { destruct (d_dataObjInfo d) as [p|] eqn:Ep; [|done]. destruct (wf_info s Hwf i d p Hd Ep) as [x Hx].
    by apply (free_put i s d (mem s) p (InfoObj x)). }
  step_ok H1. set (h1 := match d_dataObjInfo d with Some p => delete p (mem s) | None => mem s end) in *.
  step_ok (eq_refl : freeAllDataObjInfo None (put i d h1 s) = (Ok tt, put i d h1 s)).
  step_ok (eq_refl : free_opt None (put i d h1 s) = (Ok tt, put i d h1 s)).
  assert ((if dataObjInpReplFlag d =? 1 then free_opt (d_dataObjInp d) else mret tt) (put i d h1 s) =
    (Ok tt, put i d (release d (mem s)) s)) as H2.
  { unfold release. fold h1. destruct (d_dataObjInp d) as [q|] eqn:Eq; [|by destruct (_ =? 1)].
    destruct C3 as [?|C3]; [done|]. rewrite C3. destruct (wf_inp s Hwf i d q Hd Eq) as [x Hx].
    apply (free_put i s d h1 q (InpObj x)). unfold h1. destruct (d_dataObjInfo d) as [p|] eqn:Ep; [|done].
    rewrite lookup_delete_ne; [done|]. by apply (info_not_inp s i i d d p q). }
  step_ok H2. step_ok (upd_put i s Hi d (release d (mem s)) (fun _ => init_l1desc)). done.
Qed.

Lemma released_wf s i d :
  table_wf s -> L1desc s !! i = Some d -> table_wf (put i init_l1desc (release d (mem s)) s).
Proof.
  intros Hwf Hd. apply table_wf_put; try done; [by eapply lookup_lt_Some|by left|].
  intros j e p Hj He. unfold release. split; intros Ep.
  - destruct (wf_inp s Hwf j e p He Ep) as [x Hx]. exists x.
    assert ((match d_dataObjInfo d with Some p => delete p (mem s) | None => mem s end) !! p = Some (InpObj x)) as H.
    { destruct (d_dataObjInfo d) as [r|] eqn:Er; [|done].
      rewrite lookup_delete_ne; [done|]. by apply (info_not_inp s i j d e r p). }
    destruct (d_dataObjInp d) as [q|] eqn:Eq; [|done]. rewrite lookup_delete_ne; [done|].
    intros ->. by apply Hj, (wf_inp_inj s Hwf j i e d p).
  - destruct (wf_info s Hwf j e p He Ep) as [x Hx]. exists x.
    assert ((match d_dataObjInfo d with Some p => delete p (mem s) | None => mem s end) !! p = Some (InfoObj x)) as H.
    { destruct (d_dataObjInfo d) as [r|] eqn:Er; [|done].
      rewrite lookup_delete_ne; [done|]. intros ->. by apply Hj, (wf_info_inj s Hwf j i e d p). }
    destruct (d_dataObjInp d) as [q|] eqn:Eq; [|done]. rewrite lookup_delete_ne; [done|].
    intros ->. by apply (info_not_inp s j i e d p p Hwf He Hd Ep Eq).
Qed.

(** A new descriptor with a request and a replica's information allocated for it. *)
Definition opened (s : dstate) (i : nat) (s' : dstate) : Prop :=
  allocated s i /\ exists d' q p x y, (q ∉ dom (mem s)) /\ (p ∉ dom (<[q := InpObj y]> (mem s))) /\
    owns new_desc d' q p /\ s' = put i d' (<[p := InfoObj x]> (<[q := InpObj y]> (mem s))) s.

Lemma opened_wf s i s' : table_wf s -> opened s i s' -> table_wf s'.
Proof.
  intros Hwf (Ha & d' & q & p & x & y & Hq & Hp & Ho & ->).
  pose proof (allocated_wf s i Hwf Ha) as Hwf'.
  assert (p ∉ dom (mem s)) as Hp' by (rewrite dom_insert_L in Hp; by apply not_elem_of_union in Hp as [_ ?]).
  assert (p <> q) as Hpq by (intros ->; apply Hp; rewrite dom_insert_L; apply elem_of_union_l; by apply elem_of_singleton).
  rewrite <- (put_put i new_desc d' (mem s)).
  apply (table_wf_owns i new_desc d' _ (put i new_desc (mem s) s) q p); [done| |done|done| | | | |].
  - destruct Ha as (_ & Hi & _). cbn. by rewrite list_lookup_insert_eq by by eapply lookup_lt_Some.
  - cbn [put mem]. eapply extends_trans; [by apply (extends_fresh _ q (InpObj y))|by apply extends_fresh].
  - by apply fresh_unowned.
  - by apply fresh_unowned.
  - exists y. by rewrite lookup_insert_ne, lookup_insert_eq.
  - exists x. by rewrite lookup_insert_eq.
Qed.

Lemma zone_run remote inp host stat s :
  table_wf s ->
  (exists i s', opened s i s' /\ allocAndSetL1descForZoneOpr remote inp host stat s = (Ok (Z.of_nat i), s')) \/
  allocAndSetL1descForZoneOpr remote inp host stat s = (Ok SYS_OUT_OF_FILE_DESC, s).
Proof.
  intros Hwf. unfold allocAndSetL1descForZoneOpr.
  destruct (allocL1desc_run s Hwf) as [(i & Ha & H)|(_ & H)]; step_ok H; [|by right].
  left. assert (i < length (L1desc s))%nat as Hi by (destruct Ha as (_ & E & _); by eapply lookup_lt_Some).
  rewrite (proj2 (Z.ltb_ge (Z.of_nat i) 0)) by lia.
  set (f := fun d => set_remoteZoneHost host (set_d_oprType REMOTE_ZONE_OPR (set_remoteL1descInx remote d))).
  step_ok (upd_put i s Hi new_desc (mem s) f). step_ok (malloc_put i s (f new_desc) (mem s) (InpObj inp)).
  set (q := fresh (dom (mem s))). set (h1 := <[q := InpObj inp]> (mem s)).
  set (g := fun d => set_dataObjInpReplFlag 1 (set_d_dataObjInp (Some q) d)).
  step_ok (upd_put i s Hi (f new_desc) h1 g).
  match goal with |- context [malloc (InfoObj ?z)] => set (x := z) end.
  step_ok (malloc_put i s (g (f new_desc)) h1 (InfoObj x)).
  set (p := fresh (dom h1)). set (h2 := <[p := InfoObj x]> h1).
  step_ok (upd_put i s Hi (g (f new_desc)) h2 (set_d_dataObjInfo (Some p))).
  set (d := set_d_dataObjInfo (Some p) (g (f new_desc))).
  assert (exists d', owns new_desc d' q p /\
    match stat with
    | Some st => upd_l1 (Z.of_nat i) (fun d => set_replStatus (o_replStatus st) (set_l3descInx (o_l3descInx st) d))
    | None => mret tt
    end (put i d h2 s) = (Ok tt, put i d' h2 s)) as (d' & Ho & H').
  { destruct stat as [st|]; [|by exists d].
    exists (set_replStatus (o_replStatus st) (set_l3descInx (o_l3descInx st) d)). split; [done|].
    by rewrite (upd_put i s Hi). }
  step_ok H'. exists i, (put i d' h2 s). split; [|done]. split; [done|].
  exists d', q, p, x, inp. split_and!; [apply is_fresh|apply is_fresh|done|done].
Qed.

Lemma attach_run i inp replica size d s :
  (i < length (L1desc s))%nat -> same_pointers new_desc d ->
  exists d' q p x y, (q ∉ dom (mem s)) /\ (p ∉ dom (<[q := InpObj y]> (mem s))) /\ owns new_desc d' q p /\
    attach_l1desc (Z.of_nat i) inp replica size (put i d (mem s) s) =
      (Ok (Z.of_nat i), put i d' (<[p := InfoObj x]> (<[q := InpObj y]> (mem s))) s).
Proof.
  intros Hi Hd. unfold attach_l1desc. step_ok (malloc_put i s d (mem s) (InpObj (with_size size inp))).
  set (q := fresh (dom (mem s))). set (y := with_size size inp). set (h1 := <[q := InpObj y]> (mem s)).
  step_ok (upd_put i s Hi d h1 (set_d_dataObjInp (Some q))). set (d4 := set_d_dataObjInp (Some q) d).
  step_ok (malloc_put i s d4 h1 (InfoObj (duplicate_replica replica))).
  set (p := fresh (dom h1)). set (h2 := <[p := InfoObj (duplicate_replica replica)]> h1).
  step_ok (upd_put i s Hi d4 h2 (set_d_dataObjInfo (Some p))). set (d5 := set_d_dataObjInfo (Some p) d4).
  match goal with |- context [upd_l1 (Z.of_nat i) ?z] => set (g := z) end.
  step_ok (upd_put i s Hi d5 h2 g).
  assert (owns new_desc (g d5) q p) as Ho.
  { destruct Hd as (_ & _ & E1 & E2 & _ & E3).
    destruct (same_pointers_checksum inp (set_purgeCacheFlag (if has_key inp PURGE_CACHE_KW then 1 else 0)
      (set_d_dataSize size (set_replStatus (i_status replica) (set_d_oprType (oprType inp) (set_dataObjInpReplFlag 1 d5))))))
      as (F1 & F2 & F3 & F4 & F5 & F6).
    unfold owns, g. by rewrite F1, F2, F3, F4, F5, F6. }
  exists (g d5), q, p. destruct (condInput inp !! KEY_VALUE_PASSTHROUGH_KW) as [v|]; eexists _, y.
  - assert (h2 !! p = Some (InfoObj (duplicate_replica replica))) as Hp by apply lookup_insert_eq.
    step_ok (write_put i s (g d5) h2 p _ (set_cond KEY_VALUE_PASSTHROUGH_KW v) Hp). unfold h2.
    rewrite insert_insert_eq. split_and!; [apply is_fresh|apply is_fresh|done|reflexivity].
  - split_and!; [apply is_fresh|apply is_fresh|done|reflexivity].
Qed.

Lemma populate_run inp replica size s :
  table_wf s ->
  (exists i s', opened s i s' /\ (forall t e, getValByKey inp OPEN_TYPE_KW = Some t -> stoi t <> Throw e) /\
     populate_L1desc_with_inp inp replica size s = (Ok (Z.of_nat i), s')) \/
  ((forall j d, (3 <= j)%nat -> L1desc s !! j = Some d -> FD_FREE < inuseFlag d) /\
   populate_L1desc_with_inp inp replica size s = (Throw (Eirods SYS_OUT_OF_FILE_DESC), s)) \/
  (exists i d t e, allocated s i /\ same_pointers new_desc d /\ getValByKey inp OPEN_TYPE_KW = Some t /\
     stoi t = Throw e /\ populate_L1desc_with_inp inp replica size s = (Throw e, put i d (mem s) s)).
Proof.
  intros Hwf. unfold populate_L1desc_with_inp.
  destruct (allocL1desc_run s Hwf) as [(i & Ha & H)|(Hfull & H)]; step_ok H; [|by right; left].
  assert (i < length (L1desc s))%nat as Hi by (destruct Ha as (_ & E & _); by eapply lookup_lt_Some).
  rewrite (proj2 (Z.ltb_ge (Z.of_nat i) 0)) by lia.
  step_ok (upd_put i s Hi new_desc (mem s) (set_bytesWritten (-1))).
  set (d1 := set_bytesWritten (-1) new_desc). step_ok (upd_put i s Hi d1 (mem s) (set_pdmo inp)).
  set (d2 := set_pdmo inp d1).
  assert ((exists d3, same_pointers new_desc d3 /\
      (forall t e, getValByKey inp OPEN_TYPE_KW = Some t -> stoi t <> Throw e) /\
      match getValByKey inp OPEN_TYPE_KW with
      | Some t => n ← lift (stoi t); upd_l1 (Z.of_nat i) (set_openType n)
      | None => mret tt
      end (put i d2 (mem s) s) = (Ok tt, put i d3 (mem s) s)) \/
    exists t e, getValByKey inp OPEN_TYPE_KW = Some t /\ stoi t = Throw e) as [(d3 & Hd3 & Hok & H3)|(t & e & Et & Ee)].
  { destruct (getValByKey inp OPEN_TYPE_KW) as [t|]; [|by left; exists d2].
    destruct (stoi t) as [n|e] eqn:Es; [left|right; by exists t, e].
    exists (set_openType n d2). split_and!; [done|congruence|].
    unfold mbind, M_bind, lift. by rewrite (upd_put i s Hi). }
  - left. step_ok H3.
    destruct (attach_run i inp replica size d3 s Hi Hd3) as (d' & q & p & x & y & Hq & Hp & Ho & H').
    rewrite H'. eexists i, _. split_and!; [|done|reflexivity]. split; [done|]. by exists d', q, p, x, y.
  - right; right. exists i, d2, t, e. split_and!; [done..|]. rewrite Et. unfold mbind, M_bind, lift. by rewrite Ee.
Qed.

(** ** The server's use of the table *)

(** The operations of [objDesc.cpp], what the handlers write to a descriptor in use
    themselves, and between them the memory of the handlers, who allocate replica information
    of their own and free what no descriptor points to. Operations may throw.

    Two conditions are the handlers': [fillL1desc], which nothing in the repository calls, is
    given a descriptor that holds nothing and information that no other descriptor has, and a
    rule that changes the pointer of [apply_static_post_pep] leaves none or one to information
    that is in no descriptor. The rule itself may do any of the steps; [step_post_pep] is the
    assignment behind it. *)
Inductive desc_step (s : dstate) : dstate -> Prop :=
| step_alloc x s' : allocL1desc s = (x, s') -> desc_step s s'
| step_fill i d inp p x status size y s' :
    L1desc s !! i = Some d -> FD_FREE < inuseFlag d -> d_dataObjInp d = None -> d_dataObjInfo d = None ->
    mem s !! p = Some (InfoObj x) -> unowned s p ->
    fillL1desc (Z.of_nat i) inp p status size s = (y, s') -> desc_step s s'
| step_free i x s' : freeL1desc i s = (x, s') -> desc_step s s'
| step_zone remote inp host stat x s' :
    allocAndSetL1descForZoneOpr remote inp host stat s = (x, s') -> desc_step s s'
| step_populate inp replica size x s' :
    populate_L1desc_with_inp inp replica size s = (x, s') -> desc_step s s'
| step_refresh i d x y s' :
    L1desc s !! i = Some d -> FD_FREE < inuseFlag d -> refresh_info (Z.of_nat i) x s = (y, s') -> desc_step s s'
| step_post_pep i d doi y s' :
    L1desc s !! i = Some d -> FD_FREE < inuseFlag d -> doi_ok s d doi ->
    upd_l1 (Z.of_nat i) (set_d_dataObjInfo doi) s = (y, s') -> desc_step s s'
| step_members i d d' :
    L1desc s !! i = Some d -> FD_FREE < inuseFlag d -> same_pointers d d' -> desc_step s (put i d' (mem s) s)
| step_write_info p f y s' : write_info p f s = (y, s') -> desc_step s s'
| step_write_inp p f y s' : write_inp p f s = (y, s') -> desc_step s s'
| step_malloc o p s' : malloc o s = (Ok p, s') -> desc_step s s'
| step_release p s' : unowned s p -> free p s = (Ok tt, s') -> desc_step s s'.

Definition start_table : dstate := DState (replicate NUM_L1_DESC init_l1desc) [] [] ∅.

Inductive desc_reachable : dstate -> Prop :=
| reach_start : desc_reachable start_table
| reach_step s s' : desc_reachable s -> desc_step s s' -> desc_reachable s'.

Lemma start_wf : table_wf start_table.
Proof.
  assert (forall i d, L1desc start_table !! i = Some d -> d = init_l1desc) as H
    by (intros i d Hd; cbn [start_table L1desc] in Hd; by apply lookup_replicate in Hd as [-> _]).
  split; [by cbn [start_table L1desc]; rewrite length_replicate|..].
  - intros i d ->%H. by split_and!; [| |left|].
  - by intros i d q ->%H.
  - by intros i d q ->%H.
  - by intros i j d d' q ->%H.
  - by intros i j d d' q ->%H.
Qed.

Lemma wf_mem s h : table_wf s -> (forall j e p, L1desc s !! j = Some e ->
    (d_dataObjInp e = Some p -> exists x, h !! p = Some (InpObj x)) /\
    (d_dataObjInfo e = Some p -> exists x, h !! p = Some (InfoObj x))) -> table_wf (set_mem h s).
Proof.
  intros Hwf Hh. split; cbn; try apply Hwf.
  - intros i d q Hd. by apply (Hh i d q).
  - intros i d q Hd. by apply (Hh i d q).
Qed.

Lemma free_step_wf s i x s' : table_wf s -> freeL1desc i s = (x, s') -> table_wf s'.
Proof.
  intros Hwf H. destruct (decide (3 <= i < Z.of_nat NUM_L1_DESC)) as [Hi|Hi].
  - destruct (lookup_lt_is_Some_2 (L1desc s) (Z.to_nat i)) as [d Hd]; [rewrite (wf_length s Hwf); lia|].
    replace i with (Z.of_nat (Z.to_nat i)) in H by lia.
    rewrite (freeL1desc_run s (Z.to_nat i) d Hwf Hd) in H by lia. injection H as <- <-. by apply released_wf.
  - unfold freeL1desc in H. replace ((i <? 3) || (Z.of_nat NUM_L1_DESC <=? i)) with true in H.
    + by injection H as <- <-.
    + symmetry. apply orb_true_iff. rewrite Z.ltb_lt, Z.leb_le. lia.
Qed.

Lemma fill_step_wf s i d inp p x status size y s' :
  table_wf s -> L1desc s !! i = Some d -> FD_FREE < inuseFlag d ->
  mem s !! p = Some (InfoObj x) -> unowned s p ->
  fillL1desc (Z.of_nat i) inp p status size s = (y, s') -> table_wf s'.
Proof.
  intros Hwf Hd Hu Hp Hun H. rewrite (put_same i d s Hd) in H.
  destruct (fillL1desc_run i s inp p status size d (mem s) x (lookup_lt_Some _ _ _ Hd) Hp)
    as (d' & x' & [(e & Hsp & E)|(q & Hq & Ho & E)]); rewrite E in H; injection H as <- <-.
  - apply (table_wf_same i d); [done..|]. by apply (extends_write _ p x).
  - assert (p <> q) as Hpq by (intros ->; apply Hq; by apply elem_of_dom_2 in Hp).
    apply (table_wf_owns i d d' _ s q p); [done|done|done|done| |by apply fresh_unowned|done| |].
    + eapply extends_trans; [by apply (extends_fresh _ q (InpObj inp))|].
      apply (extends_write _ p x). by rewrite lookup_insert_ne.
    + exists inp. by rewrite lookup_insert_ne, lookup_insert_eq.
    + exists x'. by rewrite lookup_insert_eq.
Qed.

(** A descriptor in use gets other information, which no descriptor has; what it had may be
    freed. *)
Lemma table_wf_info i d doi h s :
  table_wf s -> L1desc s !! i = Some d -> FD_FREE < inuseFlag d ->
  (forall p x, mem s !! p = Some x -> d_dataObjInfo d <> Some p -> h !! p = Some x) ->
  (forall p, doi = Some p -> unowned s p /\ exists x, h !! p = Some (InfoObj x)) ->
  table_wf (put i (set_d_dataObjInfo doi d) h s).
Proof.
  intros Hwf Hd Hu Hh Hdoi. destruct (wf_clean s Hwf i d Hd) as (C1 & C2 & C3 & _).
  assert (forall j e q, L1desc s !! j = Some e -> d_dataObjInp e = Some q -> exists x, h !! q = Some (InpObj x)) as Hinp.
  { intros j e q He Eq. destruct (wf_inp s Hwf j e q He Eq) as [x Hx]. exists x. apply Hh; [done|].
    intros Ed. destruct (wf_info s Hwf i d q Hd Ed). congruence. }
  apply table_wf_put; try done; [by eapply lookup_lt_Some|cbn; lia| | |].
  - intros j e p Hj He. split; intros Ep; [by eapply Hinp|]. destruct (wf_info s Hwf j e p He Ep) as [x Hx].
    exists x. apply Hh; [done|]. intros E. by apply Hj, (wf_info_inj s Hwf j i e d p).
  - cbn. intros q Eq. split; [by eapply Hinp|]. intros j e Hj He Ee. by apply Hj, (wf_inp_inj s Hwf j i e d q).
  - cbn. intros p Ep. destruct (Hdoi p Ep) as [Hun Hx]. split; [done|]. intros j e _ He. by apply (Hun j e He).
Qed.

Lemma refresh_wf s i d x y s' : table_wf s -> L1desc s !! i = Some d -> FD_FREE < inuseFlag d ->
  refresh_info (Z.of_nat i) x s = (y, s') -> table_wf s'.
Proof.
  intros Hwf Hd Hu H. pose proof (lookup_lt_Some _ _ _ Hd) as Hi. set (p := fresh (dom (mem s))) in *.
  assert (p ∉ dom (mem s)) as Hp by apply is_fresh. set (h := <[p := InfoObj x]> (mem s)).
  assert (set_mem h s = put i d h s) as Es by (unfold put, set_mem; by rewrite list_insert_id).
  unfold refresh_info in H.
  rewrite (M_bind_ok _ _ _ p (put i d h s)) in H by (by rewrite <- Es). rewrite (M_bind_ok _ _ _ _ _ (get_l1_put i s Hi d h)) in H.
  assert (forall h', (forall q z, mem s !! q = Some z -> d_dataObjInfo d <> Some q -> h' !! q = Some z) -> h' !! p = Some (InfoObj x) ->
    table_wf (put i (set_d_dataObjInfo (Some p) d) h' s)) as Hput.
  { intros h' H1 H2. apply table_wf_info; [done..|]. intros q [= <-]. split; [by apply fresh_unowned|by exists x]. }
  assert (forall q z, mem s !! q = Some z -> h !! q = Some z) as Hh.
  { intros q z Hz. unfold h. rewrite lookup_insert_ne; [done|]. intros ->. apply Hp. by apply elem_of_dom_2 in Hz. }
  destruct (d_dataObjInfo d) as [q|] eqn:Eq.
  - destruct (wf_info s Hwf i d q Hd Eq) as [z Hz]. assert (q <> p) as Hqp by (intros ->; apply Hp; by apply elem_of_dom_2 in Hz).
    rewrite (M_bind_ok _ _ _ tt (put i d (delete q h) s)) in H.
    2:{ cbn [free_opt]. unfold free. cbn [put mem]. by rewrite (Hh q _ Hz). }
    rewrite (upd_put i s Hi) in H. injection H as <- <-. apply Hput.
    + intros r w Hw Hr. rewrite lookup_delete_ne by congruence. by apply Hh.
    + rewrite lookup_delete_ne by done. unfold h. by rewrite lookup_insert_eq.
  - rewrite (M_bind_ok _ _ _ tt (put i d h s)) in H by done. rewrite (upd_put i s Hi) in H. injection H as <- <-. apply Hput.
    + intros r w Hw _. by apply Hh.
    + unfold h. by rewrite lookup_insert_eq.
Qed.

Lemma post_pep_wf s i d doi y s' : table_wf s -> L1desc s !! i = Some d -> FD_FREE < inuseFlag d -> doi_ok s d doi ->
  upd_l1 (Z.of_nat i) (set_d_dataObjInfo doi) s = (y, s') -> table_wf s'.
Proof.
  intros Hwf Hd Hu Hdoi H. rewrite (put_same i d s Hd), (upd_put i s (lookup_lt_Some _ _ _ Hd)) in H. injection H as <- <-.
  destruct Hdoi as [->|[->|(p & x & -> & Hx & Hun)]].
  - by apply (table_wf_same i d); [| | | |apply extends_refl].
  - by apply table_wf_info.
  - apply table_wf_info; [done..|]. intros q [= <-]. split; [done|by exists x].
Qed.

Lemma write_wf s h : table_wf s -> extends (mem s) h -> table_wf (set_mem h s).
Proof. intros Hwf Hh. apply wf_mem; [done|]. intros j e p He. by apply (wf_extends s h j e p). Qed.

Lemma desc_step_wf s s' : table_wf s -> desc_step s s' -> table_wf s'.
Proof.
  intros Hwf. destruct 1 as [x s' H|i d inp p x status size y s' Hd Hu _ _ Hp Hun H|i x s' H
    |remote inp host stat x s' H|inp replica size x s' H|i d x y s' Hd Hu H|i d doi y s' Hd Hu Hdoi H|i d d' Hd Hu Hp
    |p f y s' H|p f y s' H|o p s' H|p s' Hun H].
  - destruct (allocL1desc_run s Hwf) as [(i & Ha & E)|(_ & E)]; rewrite E in H; injection H as <- <-;
      [by apply allocated_wf|done].
  - by eapply fill_step_wf.
  - by eapply free_step_wf.
  - destruct (zone_run remote inp host stat s Hwf) as [(i & s1 & Ho & E)|E]; rewrite E in H; injection H as <- <-;
      [by eapply opened_wf|done].
  - destruct (populate_run inp replica size s Hwf) as [(i & s1 & Ho & _ & E)|[[_ E]|(i & d & t & e & Ha & Hsp & _ & _ & E)]];
      rewrite E in H; injection H as <- <-; [by eapply opened_wf|done|].
    rewrite <- (put_put i new_desc d (mem s)). apply (table_wf_same i new_desc); [by apply allocated_wf| |done|done|apply extends_refl].
    destruct Ha as (_ & Hi & _). cbn. by rewrite list_lookup_insert_eq by by eapply lookup_lt_Some.
  - by eapply refresh_wf.
  - by eapply post_pep_wf.
  - by apply (table_wf_same i d); [| | | |apply extends_refl].
  - unfold write_info, read_info in H. unfold mbind, M_bind, get_state, put_state in H. cbn in H. destruct (mem s !! p) as [[x|x]|] eqn:E; injection H as <- <-; try done.
    by apply write_wf, (extends_write _ p x).
  - unfold write_inp, read_inp in H. unfold mbind, M_bind, get_state, put_state in H. cbn in H. destruct (mem s !! p) as [[x|x]|] eqn:E; injection H as <- <-; try done.
    by apply write_wf, (extends_write_inp _ p x).
  - injection H as <- <-. by apply write_wf, extends_fresh, is_fresh.
  - unfold free in H. destruct (mem s !! p) eqn:E; [|done]. injection H as <-. apply wf_mem; [done|].
    intros j e r He. destruct (Hun j e He) as [N1 N2].
    destruct (wf_extends s (mem s) j e r Hwf (extends_refl _) He) as [H1 H2].
    split; intros Er; (rewrite lookup_delete_ne; [eauto|congruence]).
Qed.

Lemma reachable_wf s : desc_reachable s -> table_wf s.
Proof. induction 1 as [|s s' _ IH Hs]; [apply start_wf|by eapply desc_step_wf]. Qed.

(** ** Properties *)

(** What a rule of [apply_static_post_pep] leaves behind is one more step. *)
Lemma static_post_pep_reachable (rule : option ptr -> M dstate (option ptr * Z)) s i d doi status s1 d1 :
  desc_reachable s -> L1desc s !! i = Some d -> d_dataObjInfo d <> None ->
  rule (d_dataObjInfo d) s = (Ok (doi, status), s1) -> desc_reachable s1 ->
  L1desc s1 !! i = Some d1 -> FD_FREE < inuseFlag d1 -> doi_ok s1 d1 doi ->
  exists s', apply_static_post_pep rule (Z.of_nat i) s = (Ok status, s') /\ desc_reachable s'.
Proof.
  intros Hr Hd Hn Hrule Hr1 Hd1 Hu Hdoi. pose proof (reachable_wf s Hr) as Hwf.
  destruct (d_dataObjInfo d) as [p|] eqn:Ep; [|done]. destruct (wf_info s Hwf i d p Hd Ep) as [x Hx].
  assert (get_l1 (Z.of_nat i) s = (Ok d, s)) as Hg.
  { rewrite (put_same i d s Hd). apply get_l1_put, (lookup_lt_Some _ _ _ Hd). }
  assert (upd_l1 (Z.of_nat i) (set_d_dataObjInfo doi) s1 = (Ok tt, put i (set_d_dataObjInfo doi d1) (mem s1) s1)) as Hup.
  { rewrite (put_same i d1 s1 Hd1) at 1. apply upd_put, (lookup_lt_Some _ _ _ Hd1). }
  exists (put i (set_d_dataObjInfo doi d1) (mem s1) s1). split; [|by eapply reach_step, step_post_pep].
  unfold apply_static_post_pep. step_ok Hg. rewrite Ep. rewrite (M_bind_ok _ _ _ x s) by (unfold read_info; cbn; by rewrite Hx).
  step_ok Hrule. by step_ok Hup.
Qed.

(** C30: In every state that the operations of objDesc.cpp and the handlers' own writes to
    descriptors in use can reach (the information of a registered replica that an open puts in
    the place of its own, the pointer a rule leaves behind a close, the members other than
    pointers and the flag of use, and the contents of what is pointed to), each descriptor's
    request and replica information are allocated and its own: no two descriptors share memory,
    and a descriptor that is not in use holds nothing. Of the callers it is assumed that a rule
    which replaces the pointer leaves none or one to information that no descriptor has, that
    memory a descriptor points to is freed through the descriptor only, and that fillL1desc,
    which nothing calls, gets an empty descriptor and information that no descriptor has. *)
Theorem desc_memory_owned s : desc_reachable s -> table_wf s.
Proof. apply reachable_wf. Qed.

(** C29: Closing is safe and complete: in every reachable state, freeing a descriptor in
    range frees exactly the request and the replica information it points to, each once,
    makes it free for the next allocation and touches no other descriptor. *)
Theorem close_releases s i d :
  desc_reachable s -> (3 <= i)%nat -> L1desc s !! i = Some d ->
  exists s', freeL1desc (Z.of_nat i) s = (Ok 0, s') /\ desc_reachable s' /\
    L1desc s' = <[i := init_l1desc]> (L1desc s) /\
    forall p, mem s' !! p = if bool_decide (d_dataObjInp d = Some p \/ d_dataObjInfo d = Some p)
                            then None else mem s !! p.
Proof.
  intros Hr H3 Hd. pose proof (reachable_wf s Hr) as Hwf.
  exists (put i init_l1desc (release d (mem s)) s). split_and!; [by apply freeL1desc_run| |done|].
  - eapply reach_step; [exact Hr|]. eapply step_free. by apply (freeL1desc_run s i d).
  - intros p. cbn [put mem]. unfold release. case_bool_decide as Hp.
    + destruct Hp as [-> | ->]; [by rewrite lookup_delete_eq|].
      destruct (d_dataObjInp d) as [q|]; [|by rewrite lookup_delete_eq].
      destruct (decide (q = p)) as [->|]; [by rewrite lookup_delete_eq|].
      by rewrite lookup_delete_ne, lookup_delete_eq.
    + apply Decidable.not_or in Hp as [N1 N2].
      destruct (d_dataObjInp d) as [q|]; [rewrite lookup_delete_ne by congruence|];
        (destruct (d_dataObjInfo d) as [r|]; [by rewrite lookup_delete_ne by congruence|done]).
Qed.

(** An allocation takes the lowest free descriptor from 3 on, which is zero, and
    changes only its flag; it fails with SYS_OUT_OF_FILE_DESC exactly when every
    descriptor from 3 on is in use. *)
Theorem alloc_lowest s x s' :
  desc_reachable s -> allocL1desc s = (x, s') ->
  (exists i, x = Ok (Z.of_nat i) /\ allocated s i /\ L1desc s' = <[i := new_desc]> (L1desc s) /\ mem s' = mem s) \/
  (x = Ok SYS_OUT_OF_FILE_DESC /\ s' = s /\
   forall j d, (3 <= j)%nat -> L1desc s !! j = Some d -> FD_FREE < inuseFlag d).
Proof.
  intros Hr%reachable_wf H.
  destruct (allocL1desc_run s Hr) as [(i & Ha & E)|(Hf & E)]; rewrite E in H; injection H as <- <-.
  - left. by exists i.
  - right. done.
Qed.

(** Opening [n] times with the same request, whatever each attempt throws. *)
Fixpoint attempts (n : nat) (inp : dataObjInp) (replica : info) (size : Z) (s : dstate) : dstate :=
  match n with
  | O => s
  | S n => attempts n inp replica size (populate_L1desc_with_inp inp replica size s).2
  end.

(** The first [n] descriptors from 3 on are in use, the others are not. *)
Definition filled (n : nat) (s : dstate) : Prop :=
  table_wf s /\ (forall j d, (3 <= j < 3 + n)%nat -> L1desc s !! j = Some d -> FD_FREE < inuseFlag d) /\
  (forall j d, (3 + n <= j)%nat -> L1desc s !! j = Some d -> d = init_l1desc).

Lemma bad_open_fills n inp replica size s t e :
  getValByKey inp OPEN_TYPE_KW = Some t -> stoi t = Throw e ->
  filled n s -> (3 + n < NUM_L1_DESC)%nat ->
  filled (S n) (populate_L1desc_with_inp inp replica size s).2.
Proof.
  intros Ht He (Hwf & Hu & Hf) Hn.
  destruct (lookup_lt_is_Some_2 (L1desc s) (3 + n)) as [d0 Hd0]; [rewrite (wf_length s Hwf); lia|].
  pose proof (Hf _ _ (le_n _) Hd0) as ->.
  destruct (populate_run inp replica size s Hwf) as [(i & s1 & _ & Hok & _)|[[Hfull _]|(i & d & t' & e' & Ha & Hsp & _ & _ & E)]].
  - by destruct (Hok t e Ht He).
  - by pose proof (Hfull _ _ (Nat.le_add_r 3 n) Hd0).
  - destruct Ha as (H3 & Hi & Hmin). assert (i = 3 + n)%nat as ->.
    { destruct (decide (i < 3 + n)%nat) as [Hlt|]; [by pose proof (Hu i _ (conj H3 Hlt) Hi)|].
      destruct (decide (3 + n < i)%nat) as [Hlt|]; [|lia].
      by pose proof (Hmin (3 + n)%nat _ (conj (Nat.le_add_r 3 n) Hlt) Hd0). }
    rewrite E. cbn [snd]. split_and!.
    + eapply desc_step_wf; [exact Hwf|]. by eapply step_populate.
    + intros j d' Hj Hd'. apply lookup_put in Hd' as [[<- ->]|[Hne Hd']]; [| |by eapply lookup_lt_Some].
      * by destruct Hsp as (_ & _ & _ & _ & _ & ->).
      * apply (Hu j); [lia|done].
    + intros j d' Hj Hd'. apply lookup_put in Hd' as [[<- ->]|[Hne Hd']]; [lia| |by eapply lookup_lt_Some].
      apply (Hf j); [lia|done].
Qed.

(** An open whose OPEN_TYPE keyword is not a number keeps the descriptor it
    allocated: after as many such attempts as there are descriptors, every open of the
    agent fails with SYS_OUT_OF_FILE_DESC, and none was opened. *)
Theorem bad_open_type_exhausts inp replica size t e :
  getValByKey inp OPEN_TYPE_KW = Some t -> stoi t = Throw e ->
  let s := attempts (NUM_L1_DESC - 3) inp replica size start_table in
  allocL1desc s = (Ok SYS_OUT_OF_FILE_DESC, s).
Proof.
  intros Ht He. assert (3 <= NUM_L1_DESC)%nat as H3n by by apply Nat.leb_le.
  assert (forall k n s, filled n s -> (3 + n + k <= NUM_L1_DESC)%nat ->
    filled (n + k) (attempts k inp replica size s)) as Hk.
  { induction k as [|k IH]; intros n s Hs Hn; cbn [attempts]; [by rewrite Nat.add_0_r|].
    rewrite <- Nat.add_succ_comm. apply IH; [|lia]. eapply bad_open_fills; [done|done|done|lia]. }
  assert (filled 0 start_table) as H0.
  { split_and!; [apply start_wf|lia|]. intros j d _ Hd. cbn [start_table L1desc] in Hd.
    by apply lookup_replicate in Hd as [-> _]. }
  destruct (Hk (NUM_L1_DESC - 3)%nat 0%nat start_table H0) as (Hwf & Hu & _); [lia|].
  cbv zeta. set (s := attempts _ _ _ _ _) in *. clearbody s.
  destruct (allocL1desc_run s Hwf) as [(i & (H3 & Hi & _) & _)|(_ & ->)]; [|done].
  pose proof (lookup_lt_Some _ _ _ Hi) as Hlt. rewrite (wf_length s Hwf) in Hlt.
  assert (3 <= i < 3 + (0 + (NUM_L1_DESC - 3)))%nat as Hr by lia. by pose proof (Hu i _ Hr Hi).
Qed.

(** The number of threads of a copy does not depend on the source resource: two
    sources that are both live, or both not, and are not the destination give the same
    number, wherever they are and whatever their properties. *)
Theorem threads_ignore_source m local rule size n inp dest src1 src2 opr :
  src1 <> [] -> src2 <> [] -> dest <> Some src1 -> dest <> Some src2 ->
  is_hier_live m src1 = is_hier_live m src2 ->
  getNumThreads m local rule size n inp dest (Some src1) opr =
  getNumThreads m local rule size n inp dest (Some src2) opr.
Proof.
  intros N1 N2 D1 D2 Hl. unfold getNumThreads. destruct (n =? NO_THREADING); [done|].
  destruct (size <? 0); [done|]. destruct (_ && _); [done|]. destruct (has_key inp NO_PARA_OP_KW); [done|].
  set (r := rule _ _ _).
  assert (forall s, s <> [] -> nonempty_hier (Some s) = Some s) as Hne by by intros [].
  rewrite !Hne by done. destruct (nonempty_hier dest) as [d|] eqn:Ed; [|done].
  assert (dest = Some d) as -> by (destruct dest as [[|]|]; naive_solver).
  assert (dest_threads m local r d (Some src1) = dest_threads m local r d (Some src2)) as -> by reflexivity.
  destruct (dest_threads m local r d (Some src2)) as [[[[k|] nd] used]|]; [done| |done]. cbn.
  assert (source_threads m r d src1 nd used = source_threads m r d src2 nd used) as ->; [|done].
  unfold source_threads. rewrite (proj2 (bstr_eqb_neq d src1)), (proj2 (bstr_eqb_neq d src2)) by congruence.
  rewrite !andb_false_r, Hl. done.
Qed.

(** A descriptor that has a request cannot be copied over. *)
Theorem copy_over_request_undefined dst src q p s :
  d_dataObjInp dst = Some q -> d_dataObjInp src = Some p -> copy_l1desc dst src s = (Throw Eundef, s).
Proof. intros Hd Hs. unfold copy_l1desc. by rewrite Hd, Hs. Qed.

(** ** Instances *)

#[local] Existing Instance lexical_cast_ref.

Definition open_request (open_type : string) : dataObjInp :=
  DataObjInp (lit "/zone/f") PUT_OPR 5 {[OPEN_TYPE_KW := open_type]} 0 0.
Definition some_replica : info := Info (lit "/zone/f") (lit "a") (lit "a") 5 INTERMEDIATE_REPLICA [] [] ∅ None.

(** One open object, in descriptor 3. *)
Definition one_open : dstate := (populate_L1desc_with_inp (open_request "2") some_replica 5 start_table).2.

Lemma one_open_reachable : desc_reachable one_open.
Proof.
  eapply reach_step; [apply reach_start|]. eapply (step_populate _ (open_request "2") some_replica 5).
  apply surjective_pairing.
Qed.

(** Its replica is registered, the catalog's information takes the place of its own, and a rule
    behind the close leaves another one. *)
Definition registered : dstate := (refresh_info 3 (set_resc (lit "b") some_replica) one_open).2.
Definition replaced : dstate := (apply_static_post_pep (fun _ => p ← malloc (InfoObj some_replica); mret (Some p, 0)) 3 registered).2.

Lemma replaced_reachable : desc_reachable replaced.
Proof.
  assert (desc_reachable registered) as Hr.
  { eapply reach_step; [apply one_open_reachable|]. eapply (step_refresh _ 3); [vm_compute; reflexivity|done|apply surjective_pairing]. }
  set (rule := fun _ : option ptr => p ← malloc (InfoObj some_replica); mret (Some p, 0)).
  assert (exists d, L1desc registered !! 3%nat = Some d /\ inuseFlag d = FD_INUSE /\ d_dataObjInfo d <> None) as (d & Hd & Hu & Hn)
    by (eexists; split_and!; [vm_compute; reflexivity|reflexivity|discriminate]).
  set (p := fresh (dom (mem registered))). set (s1 := set_mem (<[p := InfoObj some_replica]> (mem registered)) registered).
  assert (desc_reachable s1) as Hr1 by (eapply reach_step; [exact Hr|]; by eapply (step_malloc _ (InfoObj some_replica) p)).
  destruct (static_post_pep_reachable rule registered 3 d (Some p) 0 s1 d Hr Hd Hn eq_refl Hr1 Hd) as (s' & E & Hs').
  - by rewrite Hu.
  - right; right. exists p, some_replica. split_and!; [done|cbn; by rewrite lookup_insert_eq|].
    apply (fresh_unowned registered); [by apply reachable_wf|apply is_fresh].
  - unfold replaced. change 3 with (Z.of_nat 3). unfold rule in E. by rewrite E.
Qed.

Lemma desc_memory_owned_witness : table_wf replaced.
Proof. apply desc_memory_owned, replaced_reachable. Defined.

Lemma close_releases_witness :
  exists s', freeL1desc 3 one_open = (Ok 0, s') /\ mem s' !! 0%nat = None /\ mem s' !! 1%nat = None /\
    size (mem one_open) = 2%nat.
Proof.
  assert (exists d, L1desc one_open !! 3%nat = Some d /\ d_dataObjInp d = Some 0%nat /\ d_dataObjInfo d = Some 1%nat)
    as (d & Hd & Hq & Hp) by (eexists; split_and!; vm_compute; reflexivity).
  destruct (close_releases one_open 3 d one_open_reachable (le_n 3) Hd) as (s' & H1 & _ & _ & H2).
  exists s'. split_and!; [exact H1| | |vm_compute; reflexivity].
  - rewrite H2, bool_decide_eq_true_2; [reflexivity|by left].
  - rewrite H2, bool_decide_eq_true_2; [reflexivity|by right].
Defined.

Lemma alloc_lowest_witness : exists s', allocL1desc one_open = (Ok 4, s').
Proof.
  destruct (allocL1desc one_open) as [x s'] eqn:E. exists s'.
  assert (x = Ok 4) as Hx by (apply (f_equal fst) in E; vm_compute in E; symmetry; exact E).
  destruct (alloc_lowest one_open x s' one_open_reachable E) as [_|(_ & _ & H)]; [by rewrite Hx|].
  by pose proof (H 4%nat init_l1desc ltac:(lia) ltac:(vm_compute; reflexivity)).
Defined.

Lemma bad_open_type_exhausts_witness :
  let s := attempts (NUM_L1_DESC - 3) (open_request "x") some_replica 5 start_table in
  allocL1desc s = (Ok SYS_OUT_OF_FILE_DESC, s).
Proof. apply (bad_open_type_exhausts (open_request "x") some_replica 5 (lit "x") Estd); reflexivity. Defined.

Lemma threads_ignore_source_witness :
  getNumThreads flat (fun _ => true) (fun n _ _ _ => (0, n)) (2 ^ 21) 4 (open_request "2") (Some (lit "a"))
    (Some (lit "b")) PUT_OPR =
  getNumThreads flat (fun _ => true) (fun n _ _ _ => (0, n)) (2 ^ 21) 4 (open_request "2") (Some (lit "a"))
    (Some (lit "b;b")) PUT_OPR.
Proof. apply threads_ignore_source; [discriminate..|vm_compute; reflexivity]. Defined.
