(* ===== verification/Pack.v ===== *)
(** * Packing

    [lib/core/src/packStruct.cpp]: the primitives the wire protocol is made of, in its
    XML and its native form, and the parser of packing instructions. A C string is the
    list of its bytes up to the terminator; a pointer into a text that is being read is
    what is left of it, and a pointer that is advanced is part of the result. An array
    of numbers that is packed or unpacked is a list. Memory is never exhausted. *)

From stdpp Require Import base list strings.
From Stdlib Require Import ZArith Lia Ascii.
From S2P Require Import Prelude Errors Numerals Resources Quota.
Local Open Scope Z_scope.

Definition MAX_PI_LEN : nat := 1024.
Definition PACKED_OUT_ALLOC_SZ : Z := 16 * 1024.
Definition MAX_PACKED_OUT_ALLOC_SZ : Z := 1024 * 1024.
Definition NULL_PTR_PACK_STR : bstr := lit "%@#ANULLSTR$%".

(** [n] bytes from position [a]. *)
Definition slice (s : bstr) (a n : nat) : bstr := take n (drop a s).

(** ** The output buffer *)

(** [packedOutput_t]: the bytes written, and the capacity. *)
Record packedOutput : Type := PackedOutput { bytes : bstr; bufSize : Z }.

Definition initPackedOutput (len : Z) : packedOutput := PackedOutput [] len.

(** Lengths are [int]: beyond its range the code is undefined. *)
Definition int_range (z : Z) : res Z :=
  if (INT_MIN <=? z) && (z <=? INT_MAX) then Ok z else Throw Eundef.

Definition extendPackedOutput (out : packedOutput) (extLen : Z) : res packedOutput :=
  newOutLen ← int_range (Z.of_nat (length (bytes out)) + extLen);
  if newOutLen <=? bufSize out then Ok out
  else
    newBufSize ← int_range (bufSize out + bufSize out);
    newBufSize ← (if (newBufSize <=? newOutLen) || (MAX_PACKED_OUT_ALLOC_SZ <? bufSize out)
                  then int_range (newOutLen + PACKED_OUT_ALLOC_SZ) else Ok newBufSize);
    Ok (PackedOutput (bytes out) newBufSize).

(** Extend by [ext] and write [s], which is not longer. *)
Definition append (out : packedOutput) (ext : Z) (s : bstr) : res packedOutput :=
  out ← extendPackedOutput out ext; Ok (PackedOutput (bytes out ++ s) (bufSize out)).

(** ** XML *)

(** [use_correct_xml_encoding]: the peer is at least 4.2.9. *)
Definition use_correct_xml_encoding (peer : option (Z * Z * Z)) : bool :=
  match peer with
  | None => false
  | Some (major, minor, patch) =>
      (4 <? major) || (major =? 4) && ((2 <? minor) || (minor =? 2) && (9 <=? patch))
  end.

Definition quot : ascii := ascii_of_nat 34.
Definition apos : ascii := ascii_of_nat 39.
Definition back_quote : ascii := ascii_of_nat 96.

(** The cases of the [switch]. *)
Definition entity (correct : bool) (c : ascii) : option bstr :=
  if Ascii.eqb c "&" then Some (lit "&amp;")
  else if Ascii.eqb c "<" then Some (lit "&lt;")
  else if Ascii.eqb c ">" then Some (lit "&gt;")
  else if Ascii.eqb c quot then Some (lit "&quot;")
  else if Ascii.eqb c apos then if correct then Some (lit "&apos;") else None
  else if Ascii.eqb c back_quote then if correct then None else Some (lit "&apos;")
  else None.

(** The loop of [strToXmlStr]: the bytes from [copy_from] to [i] are still to be
    written. *)
Fixpoint to_xml_loop (correct : bool) (inStr rest : bstr) (i copy_from : nat) (xml : bstr) : bstr :=
  match rest with
  | [] => xml ++ slice inStr copy_from (i - copy_from)
  | c :: rest' =>
      match entity correct c with
      | Some e => to_xml_loop correct inStr rest' (S i) (S i) (xml ++ slice inStr copy_from (i - copy_from) ++ e)
      | None => to_xml_loop correct inStr rest' (S i) copy_from xml
      end
  end.

Definition strToXmlStr (correct : bool) (inStr : bstr) : bstr := to_xml_loop correct inStr inStr 0 0 [].

(** The [strncmp]s of [xmlStrToStr] after an ampersand: the byte, and how far they
    match. *)
Definition decode_entity (correct : bool) (s : bstr) : option (ascii * nat) :=
  if bstr_eqb (take 4 s) (lit "amp;") then Some ("&"%char, 4%nat)
  else if bstr_eqb (take 3 s) (lit "lt;") then Some ("<"%char, 3%nat)
  else if bstr_eqb (take 3 s) (lit "gt;") then Some (">"%char, 3%nat)
  else if bstr_eqb (take 5 s) (lit "quot;") then Some (quot, 5%nat)
  else if bstr_eqb (take 5 s) (lit "apos;") then Some (if correct then apos else back_quote, 5%nat)
  else None.

(** Its loop; [len - copy_from] wraps around when an entity ends behind [len]. *)
Fixpoint from_xml_loop (fuel : nat) (correct : bool) (inStr : bstr) (len i copy_from : nat) (s : bstr) :
    res bstr :=
  let last := if (copy_from <=? len)%nat then fun s => Ok (s ++ slice inStr copy_from (len - copy_from))
              else fun _ => Throw Eundef in
  match fuel with
  | O => Throw Ediverge
  | S fuel =>
      if (len <=? i)%nat then last s
      else if bstr_eqb (slice inStr i 1) (lit "&") then
        let s := s ++ slice inStr copy_from (i - copy_from) in
        match decode_entity correct (drop (S i) inStr) with
        | Some (c, n) => from_xml_loop fuel correct inStr len (S (i + n)) (S (i + n)) (s ++ [c])
        | None => last s
        end
      else from_xml_loop fuel correct inStr len (S i) copy_from s
  end.

Definition xmlStrToStr (correct : bool) (inStr : bstr) (len : nat) : res bstr :=
  match len with
  | O => Ok []
  | _ => from_xml_loop (S len) correct inStr len 0 0 []
  end.

(** *** Tags *)

Inductive tag : Type := START_TAG | START_TAG_LF | END_TAG.

Definition packXmlTag (name : bstr) (out : packedOutput) (flag : tag) : res packedOutput :=
  append out (Z.of_nat (length name) + 5)
    (match flag with
     | END_TAG => lit "</" ++ name ++ lit ">" ++ [newline]
     | START_TAG_LF => lit "<" ++ name ++ lit ">" ++ [newline]
     | START_TAG => lit "<" ++ name ++ lit ">"
     end).

(** [parseXmlTag]: a code, or the length of the tag and of what is before it. *)
Definition parseXmlTag (s name : bstr) (flag : tag) : Z + nat * nat :=
  match flag with
  | END_TAG =>
      match strstr s (rstrcpy (lit "</" ++ name ++ lit ">") MAX_NAME_LEN) with
      | None => inl SYS_PACK_INSTRUCT_FORMAT_ERR
      | Some skip =>
          let n := (length name + 3)%nat in
          inr (if bstr_eqb (slice s (skip + n) 1) [newline] then S n else n, skip)
      end
  | _ =>
      match strstr s (lit "<") with
      | None => inl SYS_PACK_INSTRUCT_FORMAT_ERR
      | Some skip =>
          let s := drop (S skip) s in
          if negb (bstr_eqb (take (length name) s) name) then inl SYS_PACK_INSTRUCT_FORMAT_ERR
          else
            let s := drop (length name) s in
            if negb (bstr_eqb (take 1 s) (lit ">")) then inl SYS_PACK_INSTRUCT_FORMAT_ERR
            else
              let lf := match flag with START_TAG_LF => bstr_eqb (slice s 1 1) [newline] | _ => false end in
              inr ((length name + 2 + if lf then 1 else 0)%nat, skip)
      end
  end.

(** [parseXmlValue]: a code, or the text from the value on, its length and the
    length of the end tag. *)
Definition parseXmlValue (s name : bstr) : Z + bstr * nat * nat :=
  match parseXmlTag s name START_TAG with
  | inl c => inl c
  | inr (n, skip) =>
      let s := drop (n + skip) s in
      match parseXmlTag s name END_TAG with
      | inl c => inl c
      | inr (endTagLen, strLen) => inr (s, strLen, endTagLen)
      end
  end.

(** *** Strings *)

(** The limit on a string of [maxStrLen] bytes with its terminator; negative for none. *)
Definition too_long (s : bstr) (maxStrLen : Z) : bool :=
  (0 <=? maxStrLen) && (maxStrLen <=? Z.of_nat (length s)).

(** [packXmlString]: the status, the output and how far [inPtr] is advanced. *)
Definition packXmlString (correct : bool) (inPtr : option bstr) (out : packedOutput) (maxStrLen : Z)
    (name : bstr) : res (Z * packedOutput * Z) :=
  match inPtr with
  | None => Ok (SYS_INTERNAL_NULL_INPUT_ERR, out, 0)
  | Some s =>
      let xmlStr := strToXmlStr correct s in
      if too_long s maxStrLen then Ok (USER_PACKSTRUCT_INPUT_ERR, out, 0)
      else
        out ← packXmlTag name out START_TAG;
        out ← append out (Z.of_nat (length xmlStr) + 1) xmlStr;
        out ← packXmlTag name out END_TAG;
        Ok (0, out, if 0 <? maxStrLen then maxStrLen else Z.of_nat (length xmlStr) + 1)
  end.

(** [unpackXmlStringToOutPtr]: a code, or the string and what is left. *)
Definition unpackXmlStringToOutPtr (correct : bool) (inPtr : bstr) (maxStrLen : Z) (name : bstr) :
    res (Z + bstr * bstr) :=
  match parseXmlValue inPtr name with
  | inl c => Ok (inl c)
  | inr (s, origStrLen, endTagLen) =>
      str ← xmlStrToStr correct s origStrLen;
      Ok (if too_long str maxStrLen then inl USER_PACKSTRUCT_INPUT_ERR
          else inr (str, drop (origStrLen + endTagLen) s))
  end.

(** [unpackXmlString]: the string, the bytes written at the end of the output and the
    number of bytes they were given. It advances one byte past the value. *)
Definition unpackXmlString (correct : bool) (inPtr : bstr) (out : packedOutput) (maxStrLen : Z)
    (name : bstr) : res (Z + bstr * bstr * Z * packedOutput) :=
  match parseXmlValue inPtr name with
  | inl c => Ok (inl c)
  | inr (s, origStrLen, _) =>
      str ← xmlStrToStr correct s origStrLen;
      if too_long str maxStrLen then Ok (inl USER_PACKSTRUCT_INPUT_ERR)
      else
        let extLen := if maxStrLen <? 0 then Z.of_nat (length str) else maxStrLen in
        out ← extendPackedOutput out extLen;
        let written := str ++ [NUL] in
        Ok (inr (written, drop (origStrLen + 1) s, extLen,
              PackedOutput (bytes out ++ written ++
                replicate (Z.to_nat maxStrLen - length written) NUL) (bufSize out)))
  end.

Definition packNullString (out : packedOutput) : res packedOutput :=
  append out (Z.of_nat (length NULL_PTR_PACK_STR) + 1) (NULL_PTR_PACK_STR ++ [NUL]).

(** *** Numbers *)

(** The loop of [packInt], [packInt16] and [packDouble]: [digits] is the size of the
    buffer [snprintf] writes to. *)
Fixpoint pack_xml_numbers (digits : nat) (name : bstr) (vs : list Z) (out : packedOutput) : res packedOutput :=
  match vs with
  | [] => Ok out
  | v :: vs' =>
      out ← packXmlTag name out START_TAG;
      out ← append out (Z.of_nat digits) (rstrcpy (to_string v) digits);
      out ← packXmlTag name out END_TAG;
      pack_xml_numbers digits name vs' out
  end.

(** The loop of [unpackXmlIntToOutPtr], [unpackXmlInt16ToOutPtr] and
    [unpackXmlDoubleToOutPtr]: [n] numbers, and what is left. *)
Fixpoint unpack_xml_numbers (convert : bstr -> Z) (name : bstr) (n : nat) (s : bstr) : Z + list Z * bstr :=
  match n with
  | O => inr ([], s)
  | S n =>
      match parseXmlValue s name with
      | inl c => inl c
      | inr (s, strLen, endTagLen) =>
          if (NAME_LEN <=? strLen)%nat then inl USER_PACKSTRUCT_INPUT_ERR
          else
            match unpack_xml_numbers convert name n (drop (strLen + endTagLen) s) with
            | inl c => inl c
            | inr (vs, rest) => inr (convert (take strLen s) :: vs, rest)
            end
      end
  end.

Definition to_short (z : Z) : Z := (z + 2 ^ 15) mod 2 ^ 16 - 2 ^ 15.

Definition unpackXmlIntToOutPtr : bstr -> nat -> bstr -> Z + list Z * bstr := unpack_xml_numbers atoi.
Definition unpackXmlInt16ToOutPtr : bstr -> nat -> bstr -> Z + list Z * bstr :=
  unpack_xml_numbers (fun s => to_short (atoi s)).
Definition unpackXmlDoubleToOutPtr : bstr -> nat -> bstr -> Z + list Z * bstr := unpack_xml_numbers strtoll0.

(** ** Native *)

(** [size] bytes of a number, most significant first. *)
Fixpoint big_endian (size : nat) (z : Z) : bstr :=
  match size with
  | O => []
  | S n => chr (z / 256 ^ Z.of_nat n) :: big_endian n z
  end.

Fixpoint read_big_endian (acc : Z) (s : bstr) : Z :=
  match s with
  | [] => acc
  | c :: s' => read_big_endian (acc * 256 + uchar c) s'
  end.

(** A two's complement number of [size] bytes. *)
Definition to_signed (size : nat) (z : Z) : Z :=
  let m := 256 ^ Z.of_nat size in (z + m / 2) mod m - m / 2.

(** [numElement] numbers of an array; reading behind its end is undefined. *)
Definition read_array (numElement : nat) (vs : list Z) : res (list Z) :=
  if (length vs <? numElement)%nat then Throw Eundef else Ok (take numElement vs).

(** A null pointer is packed as zeroes. *)
Definition native_numbers (size numElement : nat) (inPtr : option (list Z)) : res bstr :=
  match inPtr with
  | None => Ok (replicate (size * numElement) NUL)
  | Some vs => vs ← read_array numElement vs; Ok (mjoin (big_endian size <$> vs))
  end.

(** [packInt], [packInt16] and [packDouble]: the value returned, and the output. *)
Definition pack_numbers (xml : bool) (size digits : nat) (inPtr : option (list Z)) (out : packedOutput)
    (numElement : nat) (name : bstr) : res (Z * packedOutput) :=
  match numElement with
  | O => Ok (0, out)
  | _ =>
      let first := match inPtr with Some (v :: _) => Z.max 0 v | _ => 0 end in
      if xml then
        match inPtr with
        | None => Ok (0, out)
        | Some vs =>
            vs ← read_array numElement vs;
            out ← pack_xml_numbers digits name vs out;
            Ok (first, out)
        end
      else
        numbers ← native_numbers size numElement inPtr;
        out ← append out (Z.of_nat (size * numElement)) numbers;
        Ok (first, out)
  end.

Definition packInt (xml : bool) := pack_numbers xml 4 12.
Definition packInt16 (xml : bool) := pack_numbers xml 2 12.
Definition packDouble (xml : bool) (inPtr : option (list Z)) (out : packedOutput) (numElement : nat)
    (name : bstr) : res (Z * packedOutput) :=
  '(_, out) ← pack_numbers xml 8 20 inPtr out numElement name; Ok (0, out).

(** [unpackNatIntToOutPtr] and the like: the numbers, and what is left of the input;
    reading behind its end is undefined. *)
Fixpoint unpack_nat_numbers (size n : nat) (s : bstr) : res (list Z * bstr) :=
  match n with
  | O => Ok ([], s)
  | S n =>
      if (length s <? size)%nat then Throw Eundef
      else '(vs, rest) ← unpack_nat_numbers size n (drop size s);
           Ok (to_signed size (read_big_endian 0 (take size s)) :: vs, rest)
  end.

(** [unpackInt]: the value returned and, unless a number could not be read, the numbers and
    what is left of the input. *)
Definition unpackInt (xml : bool) (inPtr : bstr) (numElement : nat) (name : bstr) :
    res (Z * option (list Z * bstr)) :=
  match numElement with
  | O => Ok (0, Some ([], inPtr))
  | _ =>
      if xml then
        Ok (match unpackXmlIntToOutPtr name numElement inPtr with
            | inl c => (Z.max 0 c, None)
            | inr (vs, rest) => (Z.max 0 (hd 0 vs), Some (vs, rest))
            end)
      else
        '(vs, rest) ← unpack_nat_numbers 4 numElement inPtr;
        Ok (Z.max 0 (hd 0 vs), Some (vs, rest))
  end.

Definition packNatString (inPtr : option bstr) (out : packedOutput) (maxStrLen : Z) : res (Z * packedOutput * Z) :=
  let s := from_option id [] inPtr in
  if too_long s maxStrLen then Ok (USER_PACKSTRUCT_INPUT_ERR, out, 0)
  else
    out ← append out (Z.of_nat (length s) + 1) (s ++ [NUL]);
    Ok (0, out, if 0 <? maxStrLen then maxStrLen else Z.of_nat (length s) + 1).

(** [unpackNatStringToOutPtr], on bytes that hold a terminator. *)
Definition unpackNatStringToOutPtr (inPtr : bstr) (maxStrLen : Z) : res (Z + bstr * bstr) :=
  match find_idx (Ascii.eqb NUL) inPtr with
  | None => Throw Eundef
  | Some n =>
      let s := take n inPtr in
      Ok (if too_long s maxStrLen then inl USER_PACKSTRUCT_INPUT_ERR else inr (s, drop (S n) inPtr))
  end.

(** ** The encoding *)

(** What is written for a byte. *)
Definition xml_char (correct : bool) (c : ascii) : bstr := from_option id [c] (entity correct c).
Definition xml_encode (correct : bool) (s : bstr) : bstr := mjoin (xml_char correct <$> s).

Lemma xml_encode_cons correct c s : xml_encode correct (c :: s) = xml_char correct c ++ xml_encode correct s.
Proof. reflexivity. Qed.

(** The bytes up to [i] are those up to [copy_from] and the ones between. *)
Lemma slice_snoc s a i c rest :
  (a <= i)%nat -> drop i s = c :: rest -> slice s a (S i - a) = slice s a (i - a) ++ [c].
Proof.
  intros Ha Hd. unfold slice. replace (S i - a)%nat with (S (i - a)) by lia.
  apply take_S_r. rewrite lookup_drop. replace (a + (i - a))%nat with (i + 0)%nat by lia.
  by rewrite <- lookup_drop, Hd.
Qed.

Lemma drop_next {A} (s : list A) i c rest : drop i s = c :: rest -> drop (S i) s = rest.
Proof. intros H. by rewrite <- Nat.add_1_r, <- drop_drop, H. Qed.

Lemma slice_nil s a : slice s a (a - a) = [].
Proof. unfold slice. by rewrite Nat.sub_diag. Qed.

Lemma to_xml_loop_spec correct s rest i copy_from xml :
  (copy_from <= i)%nat -> drop i s = rest ->
  to_xml_loop correct s rest i copy_from xml =
    xml ++ slice s copy_from (i - copy_from) ++ xml_encode correct rest.
Proof.
  revert i copy_from xml. induction rest as [|c rest IH]; intros i cf xml Hle Hd; cbn [to_xml_loop].
  - unfold xml_encode. by rewrite app_nil_r.
  - rewrite xml_encode_cons. unfold xml_char. destruct (entity correct c) as [e|]; simpl.
    + rewrite IH by eauto using drop_next. by rewrite slice_nil, <- !app_assoc.
    + rewrite IH by eauto using drop_next. by rewrite (slice_snoc _ _ _ c rest), <- !app_assoc by done.
Qed.

Lemma strToXmlStr_spec correct s : strToXmlStr correct s = xml_encode correct s.
Proof. unfold strToXmlStr. rewrite to_xml_loop_spec by done. by rewrite slice_nil. Qed.

(** Every byte is either written as it is, and is no ampersand, or as an entity that is
    read as that byte. *)
Lemma xml_char_cases correct c :
  xml_char correct c = [c] /\ c <> "&"%char \/
  exists e, xml_char correct c = "&"%char :: e /\
            forall rest, decode_entity correct (e ++ rest) = Some (c, length e).
Proof.
  unfold xml_char, entity.
  repeat match goal with
  | |- context [Ascii.eqb c ?d] => destruct (Ascii.eqb_spec c d); [subst c|]
  end.
  all: try (right; eexists; split; [reflexivity|]; intros rest; reflexivity).
  1-2: destruct correct; [|].
  all: try (right; eexists; split; [reflexivity|]; intros rest; reflexivity).
  all: left; by split.
Qed.

Lemma xml_encode_no_lt correct s : Forall (fun c => c <> "<"%char) (xml_encode correct s).
Proof.
  induction s as [|c s IH]; [constructor|]. rewrite xml_encode_cons. apply Forall_app. split; [|done].
  unfold xml_char, entity.
  repeat match goal with
  | |- context [Ascii.eqb c ?d] => destruct (Ascii.eqb_spec c d)
  end; try destruct correct; simpl; repeat constructor; try done; by subst.
Qed.

Lemma slice_one s i rest c : drop i s = c :: rest -> slice s i 1 = [c].
Proof. unfold slice. by intros ->. Qed.

Lemma from_xml_loop_spec correct t tail fuel s i copy_from len acc :
  (copy_from <= i)%nat -> drop i t = xml_encode correct s ++ tail ->
  len = (i + length (xml_encode correct s))%nat -> (len - i < fuel)%nat ->
  from_xml_loop fuel correct t len i copy_from acc =
    Ok (acc ++ slice t copy_from (i - copy_from) ++ s).
Proof.
  revert fuel i copy_from acc. induction s as [|c s IH]; intros fuel i cf acc Hle Hd Hlen Hf;
    destruct fuel as [|fuel]; try lia; cbn [from_xml_loop].
  - simpl in Hlen. rewrite Nat.add_0_r in Hlen. subst len.
    rewrite (proj2 (Nat.leb_le i i)) by done. rewrite (proj2 (Nat.leb_le cf i)) by done.
    by rewrite app_nil_r.
  - rewrite xml_encode_cons, length_app in Hlen. rewrite xml_encode_cons, <- app_assoc in Hd.
    destruct (xml_char_cases correct c) as [[Hc Hamp]|(e & Hc & He)]; rewrite Hc in *; simpl in Hlen, Hd.
    + rewrite (proj2 (Nat.leb_gt len i)) by lia. rewrite (slice_one _ _ _ _ Hd).
      rewrite (proj2 (bstr_eqb_neq _ _)) by (intros [= ?]; by subst).
      rewrite IH; [|lia|by eapply drop_next|lia|lia].
      rewrite (slice_snoc _ _ _ _ _ Hle Hd). by rewrite <- !app_assoc.
    + rewrite (proj2 (Nat.leb_gt len i)) by lia. rewrite (slice_one _ _ _ _ Hd).
      rewrite bstr_eqb_refl, (drop_next _ _ _ _ Hd), He. cbv iota beta.
      rewrite IH; [|lia| |lia|lia].
      * by rewrite slice_nil, <- !app_assoc.
      * replace (S (i + length e)) with (S i + length e)%nat by lia.
        by rewrite <- drop_drop, (drop_next _ _ _ _ Hd), drop_app_length.
Qed.

(** The XML encoding of a text is read as that text, whatever follows it, for the
    encoding of the newer and of the older peers. *)
Lemma xml_encoding_roundtrip correct s rest :
  xmlStrToStr correct (strToXmlStr correct s ++ rest) (length (strToXmlStr correct s)) = Ok s.
Proof.
  rewrite strToXmlStr_spec. unfold xmlStrToStr.
  destruct (length (xml_encode correct s)) as [|n] eqn:E.
  - destruct s as [|c s]; [done|]. rewrite xml_encode_cons, length_app in E.
    destruct (xml_char_cases correct c) as [[Hc _]|(e & Hc & _)]; rewrite Hc in E; simpl in E; lia.
  - rewrite (from_xml_loop_spec correct _ rest _ s); rewrite ?slice_nil; done || lia.
Qed.

(** ** The output buffer *)

(** What is written fits, and the capacity can be doubled. *)
Definition out_wf (out : packedOutput) : Prop :=
  Z.of_nat (length (bytes out)) <= bufSize out < 2 ^ 30.

(** What may still be written. *)
Definition room (out : packedOutput) : Z := 2 ^ 30 - 1 - PACKED_OUT_ALLOC_SZ - Z.of_nat (length (bytes out)).

Lemma int_range_ok z : INT_MIN <= z <= INT_MAX -> int_range z = Ok z.
Proof.
  intros [H1 H2]. unfold int_range. by rewrite (proj2 (Z.leb_le _ _) H1), (proj2 (Z.leb_le _ _) H2).
Qed.

Ltac int_bounds := change INT_MIN with (-2147483648) in *; change INT_MAX with 2147483647 in *;
  change (2 ^ 30) with 1073741824 in *; change PACKED_OUT_ALLOC_SZ with 16384 in *;
  change MAX_PACKED_OUT_ALLOC_SZ with 1048576 in *.

Lemma extendPackedOutput_ok out ext :
  out_wf out -> 0 <= ext <= room out ->
  exists out', extendPackedOutput out ext = Ok out' /\ bytes out' = bytes out /\
    Z.of_nat (length (bytes out)) + ext <= bufSize out' < 2 ^ 30.
Proof.
  unfold out_wf, room, extendPackedOutput. intros Hwf Hext. int_bounds.
  rewrite (int_range_ok (_ + ext)) by (int_bounds; lia). cbn [mbind res_bind].
  destruct (Z.leb_spec (Z.of_nat (length (bytes out)) + ext) (bufSize out)).
  { exists out. split_and!; [done|done|lia|lia]. }
  rewrite (int_range_ok (bufSize out + bufSize out)) by (int_bounds; lia). cbn [mbind res_bind]. int_bounds.
  destruct (Z.leb_spec (bufSize out + bufSize out) (Z.of_nat (length (bytes out)) + ext)); cbn [orb];
    [|destruct (Z.ltb_spec 1048576 (bufSize out))].
  1-2: rewrite int_range_ok by (int_bounds; lia).
  all: eexists; split_and!; [reflexivity|done|simpl; lia|simpl; lia].
Qed.

(** While less than a gigabyte is packed, appending to the output never runs out of
    the range of [int] and never writes behind the capacity. *)
Lemma append_ok out ext s :
  out_wf out -> Z.of_nat (length s) <= ext <= room out ->
  exists out', append out ext s = Ok out' /\ bytes out' = bytes out ++ s /\ out_wf out'.
Proof.
  intros Hwf Hext. destruct (extendPackedOutput_ok out ext Hwf) as (out' & E & Hb & Hs); [lia|].
  unfold append. rewrite E. simpl. eexists. split_and!; [done|by rewrite Hb|].
  unfold out_wf. simpl. rewrite Hb, length_app. lia.
Qed.

(** Writing at the end of the output. *)
Definition writes (f : packedOutput -> res packedOutput) (s : bstr) (spare : Z) : Prop :=
  forall out, out_wf out -> Z.of_nat (length s) + spare <= room out ->
  exists out', f out = Ok out' /\ bytes out' = bytes out ++ s /\ out_wf out'.

Lemma append_writes ext s spare :
  Z.of_nat (length s) <= ext <= Z.of_nat (length s) + spare -> writes (fun out => append out ext s) s spare.
Proof. intros H out Hwf Hr. apply append_ok; [done|lia]. Qed.

Lemma writes_bind f g s t spare :
  0 <= spare -> writes f s spare -> writes g t spare -> writes (fun out => f out ≫= g) (s ++ t) spare.
Proof.
  intros Hs Hf Hg out Hwf Hr. rewrite length_app in Hr.
  destruct (Hf out Hwf) as (o1 & E1 & B1 & W1); [lia|]. rewrite E1. simpl.
  destruct (Hg o1 W1) as (o2 & E2 & B2 & W2).
  { unfold room in *. rewrite B1, length_app. lia. }
  exists o2. split_and!; [done|by rewrite B2, B1, <- app_assoc|done].
Qed.

Lemma writes_mono f s a b : a <= b -> writes f s a -> writes f s b.
Proof. intros H Hf out Hwf Hr. apply Hf; [done|lia]. Qed.

(** ** Tags *)

Definition tag_text (name : bstr) (flag : tag) : bstr :=
  match flag with
  | END_TAG => lit "</" ++ name ++ lit ">" ++ [newline]
  | START_TAG_LF => lit "<" ++ name ++ lit ">" ++ [newline]
  | START_TAG => lit "<" ++ name ++ lit ">"
  end.

Lemma packXmlTag_writes name flag spare : 3 <= spare -> writes (fun out => packXmlTag name out flag) (tag_text name flag) spare.
Proof.
  intros Hs. unfold packXmlTag. destruct flag; apply append_writes; simpl; rewrite !length_app; simpl; lia.
Qed.

(** The first place of a text that begins with a byte the bytes before it do not hold. *)
Lemma strstr_first pre x t rest :
  Forall (fun c => c <> x) pre -> strstr (pre ++ (x :: t) ++ rest) (x :: t) = Some (length pre).
Proof.
  intros H. induction H as [|c pre Hc _ IH].
  - assert (take (length (x :: t)) ((x :: t) ++ rest) = x :: t) as E by apply take_app_length.
    simpl in E |- *. by rewrite E, bstr_eqb_refl.
  - cbn [app strstr]. rewrite (proj2 (bstr_eqb_neq _ _)) by (simpl; congruence).
    simpl in IH. by rewrite IH.
Qed.

Lemma take_exact {A} (s t : list A) : take (length s) (s ++ t) = s.
Proof. apply take_app_length. Qed.

Lemma parse_start_tag name rest :
  parseXmlTag (tag_text name START_TAG ++ rest) name START_TAG = inr ((length name + 2)%nat, O).
Proof.
  unfold parseXmlTag, tag_text. rewrite <- !app_assoc.
  set (u := name ++ lit ">" ++ rest).
  assert (strstr (lit "<" ++ u) (lit "<") = Some O) as E
    by exact (strstr_first [] "<" [] u ltac:(constructor)).
  rewrite E. change (drop 1 (lit "<" ++ u)) with u. unfold u. cbv zeta.
  rewrite take_exact, bstr_eqb_refl, drop_app_length.
  change (take 1 (lit ">" ++ rest)) with (lit ">"). rewrite bstr_eqb_refl. cbn [negb].
  by rewrite Nat.add_0_r.
Qed.

Lemma parse_end_tag name value rest :
  (length name + 3 < MAX_NAME_LEN)%nat -> Forall (fun c => c <> "<"%char) value ->
  parseXmlTag (value ++ tag_text name END_TAG ++ rest) name END_TAG = inr ((length name + 4)%nat, length value).
Proof.
  intros Hn Hv. unfold parseXmlTag, tag_text, rstrcpy.
  set (t := "/"%char :: name ++ lit ">").
  change (lit "</" ++ name ++ lit ">") with ("<"%char :: t).
  assert (length ("<"%char :: t) = (length name + 3)%nat) as Ht.
  { unfold t. simpl. rewrite length_app. simpl. lia. }
  rewrite take_ge by (rewrite Ht; lia).
  replace ((lit "</" ++ name ++ lit ">" ++ [newline]) ++ rest) with (("<"%char :: t) ++ newline :: rest)
    by (unfold t; simpl; by rewrite <- !app_assoc).
  rewrite strstr_first by done.
  unfold slice. replace (length value + (length name + 3))%nat with (length (value ++ "<"%char :: t))
    by (rewrite length_app, Ht; lia).
  rewrite app_assoc, drop_app_length. change (take 1 (newline :: rest)) with ([newline]).
  rewrite bstr_eqb_refl. by replace (S (length name + 3)) with (length name + 4)%nat by lia.
Qed.

(** A value between its tags. *)
Definition element (name value : bstr) : bstr := tag_text name START_TAG ++ value ++ tag_text name END_TAG.

Lemma tag_text_start_length name : length (tag_text name START_TAG) = (length name + 2)%nat.
Proof. simpl. rewrite length_app. simpl. lia. Qed.
Lemma tag_text_end_length name : length (tag_text name END_TAG) = (length name + 4)%nat.
Proof. simpl. rewrite length_app. simpl. lia. Qed.

Lemma parseXmlValue_element name value rest :
  (length name + 3 < MAX_NAME_LEN)%nat -> Forall (fun c => c <> "<"%char) value ->
  parseXmlValue (element name value ++ rest) name =
    inr (value ++ tag_text name END_TAG ++ rest, length value, (length name + 4)%nat).
Proof.
  intros Hn Hv. unfold parseXmlValue, element. rewrite <- !app_assoc, parse_start_tag.
  rewrite Nat.add_0_r, <- tag_text_start_length, drop_app_length.
  by rewrite parse_end_tag.
Qed.

(** What is left behind an element. *)
Lemma drop_element name value rest :
  drop (length value + (length name + 4)) (value ++ tag_text name END_TAG ++ rest) = rest.
Proof.
  rewrite <- tag_text_end_length, <- length_app, app_assoc. apply drop_app_length.
Qed.

(** ** Strings *)

Lemma unpack_element correct name s maxStrLen rest :
  (length name + 3 < MAX_NAME_LEN)%nat -> too_long s maxStrLen = false ->
  unpackXmlStringToOutPtr correct (element name (strToXmlStr correct s) ++ rest) maxStrLen name = Ok (inr (s, rest)).
Proof.
  intros Hn Hm. unfold unpackXmlStringToOutPtr.
  rewrite parseXmlValue_element by (done || rewrite strToXmlStr_spec; apply xml_encode_no_lt).
  rewrite xml_encoding_roundtrip. cbn [mbind res_bind]. by rewrite Hm, drop_element.
Qed.

Lemma packXmlString_writes correct s maxStrLen name out :
  out_wf out -> Z.of_nat (length (element name (strToXmlStr correct s))) + 3 <= room out ->
  too_long s maxStrLen = false ->
  exists out' adv, packXmlString correct (Some s) out maxStrLen name = Ok (0, out', adv) /\
    bytes out' = bytes out ++ element name (strToXmlStr correct s) /\ out_wf out'.
Proof.
  intros Hwf Hr Hm. unfold packXmlString. rewrite Hm. set (x := strToXmlStr correct s) in *.
  assert (writes (fun out => packXmlTag name out START_TAG ≫= fun out => append out (Z.of_nat (length x) + 1) x ≫=
            fun out => packXmlTag name out END_TAG) (element name x) 3) as Hw.
  { apply writes_bind; [lia|by apply packXmlTag_writes|].
    apply (writes_bind (fun out => append out (Z.of_nat (length x) + 1) x)); [lia| |by apply packXmlTag_writes].
    apply append_writes. lia. }
  destruct (Hw out Hwf Hr) as (out' & E & Hb & Hwf').
  destruct (packXmlTag name out START_TAG) as [o1|]; simpl in E |- *; [|done].
  destruct (append o1 (Z.of_nat (length x) + 1) x) as [o2|]; simpl in E |- *; [|done].
  rewrite E. simpl. eauto.
Qed.

(** C32: A string that is packed in XML within its limit is unpacked as it was, with the
    text behind it left, for both encodings; the output grows by its element only. *)
Theorem xml_string_roundtrip correct s maxStrLen name out rest :
  out_wf out -> (length name + 3 < MAX_NAME_LEN)%nat -> too_long s maxStrLen = false ->
  Z.of_nat (length (element name (strToXmlStr correct s))) + 3 <= room out ->
  exists out' adv w, packXmlString correct (Some s) out maxStrLen name = Ok (0, out', adv) /\
    bytes out' = bytes out ++ w /\ out_wf out' /\
    unpackXmlStringToOutPtr correct (w ++ rest) maxStrLen name = Ok (inr (s, rest)).
Proof.
  intros Hwf Hn Hm Hr.
  destruct (packXmlString_writes correct s maxStrLen name out Hwf Hr Hm) as (out' & adv & E & Hb & Hw).
  exists out', adv, (element name (strToXmlStr correct s)). eauto using unpack_element.
Qed.

Lemma xml_string_roundtrip_witness :
  exists out' adv w, packXmlString true (Some (lit "a<b & 'c'")) (initPackedOutput 8) 64 (lit "objPath") = Ok (0, out', adv) /\
    bytes out' = w /\ out_wf out' /\
    unpackXmlStringToOutPtr true (w ++ lit "<x>") 64 (lit "objPath") = Ok (inr (lit "a<b & 'c'", lit "<x>")).
Proof.
  apply (xml_string_roundtrip true (lit "a<b & 'c'") 64 (lit "objPath") (initPackedOutput 8) (lit "<x>")).
  - unfold out_wf. simpl. lia.
  - unfold MAX_NAME_LEN. simpl. lia.
  - reflexivity.
  - vm_compute. discriminate.
Defined.

(** ** Numbers *)

Lemma rev_digits_length fuel n k :
  0 <= n < 10 ^ Z.of_nat (S k) -> (length (rev_digits fuel n) <= S k)%nat.
Proof.
  revert n k. induction fuel as [|fuel IH]; intros n k Hn; cbn [rev_digits]; [simpl; lia|].
  destruct (Z.ltb_spec n 10); [simpl; lia|]. destruct k as [|k]; [simpl in Hn; lia|].
  cbn [length]. apply le_n_S, IH. rewrite (Nat2Z.inj_succ (S k)), Z.pow_succ_r in Hn by lia.
  split; [apply Z.div_pos; lia|]. apply Z.div_lt_upper_bound; lia.
Qed.

Lemma nat_digits_length n k : 0 <= n < 10 ^ Z.of_nat (S k) -> (length (nat_digits n) <= S k)%nat.
Proof. intros H. unfold nat_digits. rewrite length_map, length_rev. by apply rev_digits_length. Qed.

(** The numerals [k + 2] bytes hold, with the terminator and a sign. *)
Lemma to_string_length z k :
  - 10 ^ Z.of_nat (S k) < z < 10 ^ Z.of_nat (S (S k)) -> (length (to_string z) <= S (S k))%nat.
Proof.
  intros Hz. unfold to_string. destruct (Z.ltb_spec z 0); cbn [length].
  - apply le_n_S, nat_digits_length. lia.
  - apply nat_digits_length. lia.
Qed.

Lemma to_string_no_lt z : Forall (fun c => c <> "<"%char) (to_string z).
Proof.
  assert (forall n, 0 <= n -> Forall (fun c => c <> "<"%char) (nat_digits n)) as Hd.
  { intros n Hn. eapply Forall_impl; [by apply nat_digits_all|]. intros c Hc ->. by vm_compute in Hc. }
  unfold to_string. destruct (Z.ltb_spec z 0); [constructor; [done|]|]; apply Hd; lia.
Qed.

Lemma to_string_sign z :
  match skip_spaces (to_string z) with
  | c :: s' => if Ascii.eqb c "-" then (true, s')
               else if Ascii.eqb c "+" then (false, s') else (false, skip_spaces (to_string z))
  | [] => (false, skip_spaces (to_string z))
  end = (z <? 0, nat_digits (Z.abs z)).
Proof.
  unfold to_string. destruct (Z.ltb_spec z 0).
  - cbn [skip_spaces]. change (is_space "-") with false. cbv iota. by rewrite Z.abs_neq by lia.
  - rewrite Z.abs_eq by lia. destruct (nat_digits_head z) as (c & s & -> & Hc); [lia|].
    destruct (digit_not_special c Hc) as (Hsp & Hm & Hp). cbn [skip_spaces]. by rewrite Hsp, Hm, Hp.
Qed.

Lemma signed_abs z : (if z <? 0 then - Z.abs z else Z.abs z) = z.
Proof. destruct (Z.ltb_spec z 0); lia. Qed.

Lemma to_int_id z : INT_MIN <= z <= INT_MAX -> to_int z = z.
Proof. intros H. int_bounds. unfold to_int. rewrite Z.mod_small; change (2 ^ 31) with 2147483648; change (2 ^ 32) with 4294967296; lia. Qed.

Lemma clamp_id lo hi z : lo <= z <= hi -> Z.max lo (Z.min hi z) = z.
Proof. lia. Qed.

Lemma atoi_to_string z : INT_MIN <= z <= INT_MAX -> atoi (to_string z) = z.
Proof.
  intros Hz. unfold atoi. cbv zeta. rewrite to_string_sign.
  destruct (read_nat_digits (Z.abs z)) as (c & ->); [lia|]. cbn [fst].
  rewrite signed_abs, clamp_id; [by apply to_int_id|]. int_bounds. lia.
Qed.

Lemma read_base_digits acc cnt s :
  Forall (fun c => is_digit c = true) s -> read_base 10 acc s = (read_digits acc cnt s).1.
Proof.
  intros H. revert acc cnt. induction H as [|c s Hc _ IH]; intros acc cnt; [done|].
  cbn [read_base read_digits]. unfold hex_value. rewrite Hc.
  unfold is_digit in Hc. apply andb_true_iff in Hc as [H1 H2]. apply Z.leb_le in H1, H2.
  rewrite (proj2 (Z.ltb_lt _ _)) by lia. apply IH.
Qed.

Lemma rev_digits_last fuel n :
  0 < n < 10 ^ Z.of_nat fuel -> exists ds d, rev_digits fuel n = ds ++ [d] /\ 0 < d < 10.
Proof.
  revert n. induction fuel as [|fuel IH]; intros n Hn; [simpl in Hn; lia|]. cbn [rev_digits].
  destruct (Z.ltb_spec n 10); [by exists [], n; split; [|lia]|].
  rewrite Nat2Z.inj_succ, Z.pow_succ_r in Hn by lia.
  destruct (IH (n / 10)) as (ds & d & -> & Hd).
  { split; [apply Z.div_str_pos; lia|apply Z.div_lt_upper_bound; lia]. }
  by exists (n mod 10 :: ds), d.
Qed.

(** No numeral of two digits begins with a zero. *)
Lemma nat_digits_leading n a b s : 0 <= n -> nat_digits n = a :: b :: s -> Ascii.eqb a "0" = false.
Proof.
  intros Hn E. destruct (Z.eq_dec n 0) as [->|Hz]; [by vm_compute in E|].
  unfold nat_digits in E. pose proof (log2_fuel n Hn).
  destruct (rev_digits_last (S (Z.to_nat (Z.log2 n))) n) as (ds & d & E' & Hd); [lia|].
  rewrite E', rev_app_distr in E. simpl in E. simplify_eq.
  apply Ascii.eqb_neq. intros H'. apply (f_equal uchar) in H'. rewrite digit_char_value in H' by lia.
  change (uchar "0") with 48 in H'. lia.
Qed.

Lemma strtoll0_to_string z : LONG_MIN <= z <= LONG_MAX -> strtoll0 (to_string z) = z.
Proof.
  intros Hz. unfold strtoll0. cbv zeta. rewrite to_string_sign.
  destruct (read_nat_digits (Z.abs z)) as (c & Hc); [lia|].
  assert (read_base 10 0 (nat_digits (Z.abs z)) = Z.abs z) as Hr.
  { rewrite (read_base_digits 0 0) by (apply nat_digits_all; lia). by rewrite Hc. }
  destruct (nat_digits (Z.abs z)) as [|a [|b s]] eqn:E; [| |rewrite (nat_digits_leading _ _ _ _ (Z.abs_nonneg z) E)].
  all: rewrite Hr, signed_abs; lia.
Qed.

(** *** In XML *)

Definition elements (name : bstr) (vs : list Z) : bstr := mjoin ((fun v => element name (to_string v)) <$> vs).

Lemma rstrcpy_fits s n : (length s < n)%nat -> rstrcpy s n = s.
Proof. intros H. unfold rstrcpy. apply take_ge. lia. Qed.

Lemma pack_xml_numbers_writes digits name vs :
  (3 <= digits)%nat -> Forall (fun v => (length (to_string v) < digits)%nat) vs ->
  writes (pack_xml_numbers digits name vs) (elements name vs) (Z.of_nat digits).
Proof.
  intros Hd H. induction H as [|v vs Hv _ IH].
  - intros out Hwf _. exists out. by rewrite app_nil_r.
  - cbn [pack_xml_numbers]. rewrite (rstrcpy_fits _ _ Hv).
    change (elements name (v :: vs)) with
      ((tag_text name START_TAG ++ to_string v ++ tag_text name END_TAG) ++ elements name vs).
    rewrite <- !app_assoc.
    apply writes_bind; [lia|apply packXmlTag_writes; lia|].
    apply (writes_bind (fun out => append out (Z.of_nat digits) (to_string v))); [lia|apply append_writes; lia|].
    apply (writes_bind (fun out => packXmlTag name out END_TAG)); [lia|apply packXmlTag_writes; lia|done].
Qed.

Lemma unpack_elements convert name vs rest :
  (length name + 3 < MAX_NAME_LEN)%nat ->
  Forall (fun v => (length (to_string v) < NAME_LEN)%nat /\ convert (to_string v) = v) vs ->
  unpack_xml_numbers convert name (length vs) (elements name vs ++ rest) = inr (vs, rest).
Proof.
  intros Hn H. induction H as [|v vs [Hl Hc] _ IH]; [done|].
  change (elements name (v :: vs)) with (element name (to_string v) ++ elements name vs).
  cbn [length unpack_xml_numbers]. rewrite <- app_assoc.
  rewrite parseXmlValue_element by (done || apply to_string_no_lt).
  rewrite (proj2 (Nat.leb_gt _ _)) by done. rewrite drop_element, IH, take_exact. by rewrite Hc.
Qed.

Lemma xml_numbers_roundtrip_gen convert size digits name vs out rest :
  (3 <= digits <= NAME_LEN)%nat -> (length name + 3 < MAX_NAME_LEN)%nat -> out_wf out ->
  Forall (fun v => (length (to_string v) < digits)%nat /\ convert (to_string v) = v) vs ->
  Z.of_nat (length (elements name vs)) + Z.of_nat digits <= room out ->
  exists st out' w, pack_numbers true size digits (Some vs) out (length vs) name = Ok (st, out') /\
    bytes out' = bytes out ++ w /\ out_wf out' /\
    unpack_xml_numbers convert name (length vs) (w ++ rest) = inr (vs, rest).
Proof.
  intros Hd Hn Hwf Hvs Hr.
  destruct (pack_xml_numbers_writes digits name vs) with (out := out) as (out' & E & Hb & Hwf'); [lia| |done|done|].
  { eapply Forall_impl; [exact Hvs|]. by intros v []. }
  assert (exists st, pack_numbers true size digits (Some vs) out (length vs) name = Ok (st, out')) as [st Est].
  { unfold pack_numbers, read_array. rewrite Nat.ltb_irrefl, take_ge by done.
    destruct vs as [|v vs]; cbn [length mbind res_bind].
    - cbn in E. injection E as <-. eauto.
    - rewrite E. cbn. eauto. }
  exists st, out', (elements name vs). split_and!; [done|done|done|].
  apply unpack_elements; [done|]. eapply Forall_impl; [exact Hvs|]. intros v []. split; [lia|done].
Qed.

Lemma to_short_id z : - 2 ^ 15 <= z < 2 ^ 15 -> to_short z = z.
Proof. intros H. unfold to_short. rewrite Z.mod_small; lia. Qed.

Lemma int_fits v : INT_MIN <= v <= INT_MAX -> (length (to_string v) < 12)%nat.
Proof. intros H. apply Nat.lt_succ_r, (to_string_length v 9). int_bounds. cbn. lia. Qed.

(** Numbers packed in XML are unpacked as they were: [int]s, [short]s and those
    [rodsLong_t]s above -10^18. *)
Theorem xml_numbers_roundtrip name vs out rest :
  (length name + 3 < MAX_NAME_LEN)%nat -> out_wf out ->
  Z.of_nat (length (elements name vs)) + 20 <= room out ->
  (Forall (fun v => INT_MIN <= v <= INT_MAX) vs ->
   exists st out' w, packInt true (Some vs) out (length vs) name = Ok (st, out') /\
     bytes out' = bytes out ++ w /\ out_wf out' /\
     unpackXmlIntToOutPtr name (length vs) (w ++ rest) = inr (vs, rest)) /\
  (Forall (fun v => - 2 ^ 15 <= v < 2 ^ 15) vs ->
   exists st out' w, packInt16 true (Some vs) out (length vs) name = Ok (st, out') /\
     bytes out' = bytes out ++ w /\ out_wf out' /\
     unpackXmlInt16ToOutPtr name (length vs) (w ++ rest) = inr (vs, rest)) /\
  (Forall (fun v => - 10 ^ 18 < v <= LONG_MAX) vs ->
   exists st out' w, packDouble true (Some vs) out (length vs) name = Ok (st, out') /\
     bytes out' = bytes out ++ w /\ out_wf out' /\
     unpackXmlDoubleToOutPtr name (length vs) (w ++ rest) = inr (vs, rest)).
Proof.
  intros Hn Hwf Hr. split_and!; intros Hvs.
  - apply (xml_numbers_roundtrip_gen atoi); [unfold NAME_LEN; lia|done|done| |lia].
    eapply Forall_impl; [exact Hvs|]. auto using int_fits, atoi_to_string.
  - apply (xml_numbers_roundtrip_gen (fun s => to_short (atoi s))); [unfold NAME_LEN; lia|done|done| |lia].
    eapply Forall_impl; [exact Hvs|]. intros v Hv; simpl in Hv.
    assert (INT_MIN <= v <= INT_MAX) by (int_bounds; lia).
    by rewrite atoi_to_string, to_short_id by done; split; [apply int_fits|].
  - destruct (xml_numbers_roundtrip_gen strtoll0 8 20 name vs out rest) as (st & out' & w & E & H);
      [unfold NAME_LEN; lia|done|done| |lia|].
    + eapply Forall_impl; [exact Hvs|]. intros v Hv; simpl in Hv. split.
      * apply Nat.lt_succ_r, (to_string_length v 17). unfold LONG_MAX in Hv. cbn. lia.
      * apply strtoll0_to_string. unfold LONG_MIN, LONG_MAX in *. lia.
    + exists 0, out', w. split; [|exact H]. unfold packDouble. by rewrite E.
Qed.

Lemma xml_numbers_roundtrip_witness :
  exists st out' w, packInt true (Some [42; - 2 ^ 31]) (initPackedOutput 8) 2 (lit "dim") = Ok (st, out') /\
     bytes out' = w /\ out_wf out' /\
     unpackXmlIntToOutPtr (lit "dim") 2 (w ++ []) = inr ([42; - 2 ^ 31], []).
Proof.
  apply (xml_numbers_roundtrip (lit "dim") [42; - 2 ^ 31] (initPackedOutput 8) []).
  - unfold MAX_NAME_LEN. simpl. lia.
  - unfold out_wf. simpl. lia.
  - vm_compute. discriminate.
  - repeat constructor; vm_compute; discriminate.
Defined.

(** The twenty bytes given to a [rodsLong_t] are one too few for the numerals of twenty
    characters: the last digit of a number below -10^18 is lost. *)
Example xml_long_truncated :
  exists st out, packDouble true (Some [LONG_MIN]) (initPackedOutput 64) 1 (lit "size") = Ok (st, out) /\
    unpackXmlDoubleToOutPtr (lit "size") 1 (bytes out) = inr ([- 922337203685477580], []).
Proof. eexists _, _. split; vm_compute; reflexivity. Qed.

(** *** Native *)

Lemma big_endian_length size z : length (big_endian size z) = size.
Proof. induction size; simpl; congruence. Qed.

Lemma read_big_endian_spec size z acc :
  read_big_endian acc (big_endian size z) = acc * 256 ^ Z.of_nat size + z mod 256 ^ Z.of_nat size.
Proof.
  revert acc. induction size as [|n IH]; intros acc; cbn [big_endian read_big_endian].
  - simpl. rewrite Z.mod_1_r. lia.
  - rewrite IH, uchar_chr, Nat2Z.inj_succ, Z.pow_succ_r by lia.
    assert (0 < 256 ^ Z.of_nat n) by (apply Z.pow_pos_nonneg; lia).
    rewrite (Z.mul_comm 256 (256 ^ Z.of_nat n)), (Z.rem_mul_r z) by lia. lia.
Qed.

Lemma to_signed_mod size z :
  (0 < size)%nat -> - (256 ^ Z.of_nat size / 2) <= z < 256 ^ Z.of_nat size / 2 ->
  to_signed size (z mod 256 ^ Z.of_nat size) = z.
Proof.
  intros Hs Hz. unfold to_signed. cbv zeta. set (m := 256 ^ Z.of_nat size) in *.
  assert (0 < m) by (apply Z.pow_pos_nonneg; lia).
  assert (m = 2 * (m / 2)) as Hm.
  { apply Z.div_exact; [lia|]. unfold m. destruct size as [|n]; [lia|].
    rewrite Nat2Z.inj_succ, Z.pow_succ_r, Z.mul_comm by lia.
    change 256 with (128 * 2). rewrite Z.mul_assoc. apply Z_mod_mult. }
  rewrite Z.add_mod_idemp_l by lia. rewrite Z.mod_small; lia.
Qed.

Lemma native_numbers_read size vs rest :
  (0 < size)%nat -> Forall (fun v => - (256 ^ Z.of_nat size / 2) <= v < 256 ^ Z.of_nat size / 2) vs ->
  unpack_nat_numbers size (length vs) (mjoin (big_endian size <$> vs) ++ rest) = Ok (vs, rest).
Proof.
  intros Hs H. induction H as [|v vs Hv _ IH]; [done|]. cbn [length unpack_nat_numbers].
  change (mjoin (big_endian size <$> v :: vs)) with (big_endian size v ++ mjoin (big_endian size <$> vs)).
  rewrite <- app_assoc, length_app, big_endian_length.
  rewrite (proj2 (Nat.ltb_ge _ _)) by lia.
  rewrite drop_app_length', take_app_length' by (symmetry; apply big_endian_length).
  rewrite IH. cbn [mbind res_bind]. by rewrite read_big_endian_spec, Z.mul_0_l, Z.add_0_l, to_signed_mod.
Qed.

Lemma mjoin_big_endian_length size vs : length (mjoin (big_endian size <$> vs)) = (size * length vs)%nat.
Proof.
  induction vs as [|v vs IH]; [simpl; lia|].
  change (mjoin (big_endian size <$> v :: vs)) with (big_endian size v ++ mjoin (big_endian size <$> vs)).
  rewrite length_app, big_endian_length, IH. simpl. lia.
Qed.

(** Numbers of two, four or eight bytes packed natively are unpacked as they were;
    each takes its size. *)
Theorem native_numbers_roundtrip size digits vs out name rest :
  (0 < size)%nat -> Forall (fun v => - (256 ^ Z.of_nat size / 2) <= v < 256 ^ Z.of_nat size / 2) vs ->
  out_wf out -> Z.of_nat (size * length vs) <= room out ->
  exists st out' w, pack_numbers false size digits (Some vs) out (length vs) name = Ok (st, out') /\
    bytes out' = bytes out ++ w /\ length w = (size * length vs)%nat /\ out_wf out' /\
    unpack_nat_numbers size (length vs) (w ++ rest) = Ok (vs, rest).
Proof.
  intros Hs Hvs Hwf Hr. set (w := mjoin (big_endian size <$> vs)).
  destruct (append_ok out (Z.of_nat (size * length vs)) w Hwf) as (out' & E & Hb & Hwf').
  { unfold w. rewrite mjoin_big_endian_length. lia. }
  assert (exists st o, pack_numbers false size digits (Some vs) out (length vs) name = Ok (st, o) /\
            bytes o = bytes out ++ w /\ out_wf o) as (st & o & H1 & H2 & H3).
  { unfold pack_numbers, native_numbers, read_array. rewrite Nat.ltb_irrefl, take_ge by done.
    destruct vs as [|v vs].
    - exists 0, out. by rewrite app_nil_r.
    - change (append out (Z.of_nat (size * length (v :: vs))) (mjoin (big_endian size <$> v :: vs)) = Ok out') in E.
      cbn [length mbind res_bind] in *. rewrite E. by eexists _, _. }
  exists st, o, w. split_and!; [done|done|apply mjoin_big_endian_length|done|].
  by apply native_numbers_read.
Qed.

Lemma native_numbers_roundtrip_witness :
  exists st out' w, packInt false (Some [-7; 65536]) (initPackedOutput 8) 2 (lit "dim") = Ok (st, out') /\
    bytes out' = w /\ length w = 8%nat /\ out_wf out' /\ unpack_nat_numbers 4 2 (w ++ []) = Ok ([-7; 65536], []).
Proof.
  apply (native_numbers_roundtrip 4 12 [-7; 65536] (initPackedOutput 8) (lit "dim") []).
  - lia.
  - repeat constructor; vm_compute; discriminate.
  - unfold out_wf. simpl. lia.
  - vm_compute. discriminate.
Defined.

(** A string packed natively within its limit is unpacked as it was. *)
Theorem native_string_roundtrip s maxStrLen out rest :
  Forall (fun c => c <> NUL) s -> out_wf out -> too_long s maxStrLen = false ->
  Z.of_nat (length s) + 1 <= room out ->
  exists out' adv w, packNatString (Some s) out maxStrLen = Ok (0, out', adv) /\
    bytes out' = bytes out ++ w /\ out_wf out' /\
    unpackNatStringToOutPtr (w ++ rest) maxStrLen = Ok (inr (s, rest)).
Proof.
  intros Hs Hwf Hm Hr. unfold packNatString. cbn [from_option id]. rewrite Hm.
  destruct (append_ok out (Z.of_nat (length s) + 1) (s ++ [NUL]) Hwf) as (out' & E & Hb & Hwf').
  { rewrite length_app. simpl. lia. }
  rewrite E. cbn [mbind res_bind]. eexists out', _, (s ++ [NUL]). split_and!; [done|done|done|].
  unfold unpackNatStringToOutPtr. rewrite <- app_assoc.
  assert (find_idx (Ascii.eqb NUL) (s ++ [NUL] ++ rest) = Some (length s)) as ->.
  { clear -Hs. induction Hs as [|c s Hc _ IH]; [done|]. cbn [app find_idx].
    rewrite (proj2 (Ascii.eqb_neq NUL c)) by congruence. cbn [app] in IH. by rewrite IH. }
  rewrite take_exact, Hm. rewrite app_assoc, drop_app_length'; [done|]. rewrite length_app. simpl. lia.
Qed.

Lemma native_string_roundtrip_witness :
  exists out' adv w, packNatString (Some (lit "demoResc")) (initPackedOutput 8) 64 = Ok (0, out', adv) /\
    bytes out' = w /\ out_wf out' /\ unpackNatStringToOutPtr (w ++ lit "x") 64 = Ok (inr (lit "demoResc", lit "x")).
Proof.
  apply (native_string_roundtrip (lit "demoResc") 64 (initPackedOutput 8) (lit "x")).
  - repeat constructor; discriminate.
  - unfold out_wf. simpl. lia.
  - reflexivity.
  - vm_compute. discriminate.
Defined.

(** A field that is missing from an XML message is no error of [unpackInt]: the code the
    parser returns is negative, and every negative result is taken for a value. *)
Example unpackInt_hides_error :
  unpackXmlIntToOutPtr (lit "openFlags") 1 (lit "<createMode>420</createMode>") = inl SYS_PACK_INSTRUCT_FORMAT_ERR /\
  unpackInt true (lit "<createMode>420</createMode>") 1 (lit "openFlags") = Ok (0, None).
Proof. split; vm_compute; reflexivity. Qed.

(** An entity that is not known ends the decoding, with the text before it written
    twice. *)
Example unknown_entity_repeats : xmlStrToStr true (lit "ab&nbsp;c") 9 = Ok (lit "abab&nbsp;c").
Proof. vm_compute. reflexivity. Qed.
