(* ===== verification/PackInstruct.v ===== *)
(** * Packing instructions

    [lib/core/src/packStruct.cpp] and [lib/core/include/irods/rodsPackTable.h]: the
    parser of the instructions that describe a structure ([parsePackInstruct]), and what
    resolves an item before it is packed or unpacked: the items that depend on a string
    or an integer packed before, and the dimensions of an array. The chain of items is a
    list. *)

From stdpp Require Import base list strings.
From Stdlib Require Import ZArith Lia Ascii.
From S2P Require Import Prelude Errors Numerals Resources Quota Pack.
Local Open Scope Z_scope.

Definition MAX_PACK_DIM : nat := 20.

(** ** Items *)

Inductive packTypeInx : Type :=
| PACK_CHAR_TYPE | PACK_BIN_TYPE | PACK_STR_TYPE | PACK_PI_STR_TYPE | PACK_INT_TYPE
| PACK_DOUBLE_TYPE | PACK_STRUCT_TYPE | PACK_DEPENDENT_TYPE | PACK_INT_DEPENDENT_TYPE
| PACK_INT16_TYPE.

#[export] Instance packTypeInx_eq_dec : EqDecision packTypeInx.
Proof. solve_decision. Defined.

Inductive pointerType_t : Type := NON_POINTER | A_POINTER | NO_FREE_POINTER | NO_PACK_POINTER.

#[export] Instance pointerType_eq_dec : EqDecision pointerType_t.
Proof. solve_decision. Defined.

(** The number of a type is its position. *)
Definition packTypeTable : list (bstr * packTypeInx) :=
  [(lit "char", PACK_CHAR_TYPE); (lit "bin", PACK_BIN_TYPE); (lit "str", PACK_STR_TYPE);
   (lit "piStr", PACK_PI_STR_TYPE); (lit "int", PACK_INT_TYPE); (lit "double", PACK_DOUBLE_TYPE);
   (lit "struct", PACK_STRUCT_TYPE); (lit "?", PACK_DEPENDENT_TYPE);
   (lit "%", PACK_INT_DEPENDENT_TYPE); (lit "int16", PACK_INT16_TYPE)].

Fixpoint lookup_name {A} (name : bstr) (table : list (bstr * A)) : option A :=
  match table with
  | [] => None
  | (n, a) :: table' => if bstr_eqb name n then Some a else lookup_name name table'
  end.

Definition packTypeLookup (typeName : bstr) : option packTypeInx := lookup_name typeName packTypeTable.

Definition PackConstantTable : list (bstr * Z) :=
  [(lit "HEADER_TYPE_LEN", 128); (lit "NAME_LEN", 64); (lit "CHKSUM_LEN", 64); (lit "LONG_NAME_LEN", 256);
   (lit "MAX_NAME_LEN", 1088); (lit "SHORT_STR_LEN", 32); (lit "TIME_LEN", 32); (lit "DIR_LEN", 256);
   (lit "ERR_MSG_LEN", 1024); (lit "MAX_SQL_ATTR", 50); (lit "RULE_SET_DEF_LENGTH", 10880);
   (lit "META_STR_LEN", 20480); (lit "CHALLENGE_LEN", 64); (lit "RESPONSE_LEN", 16);
   (lit "MAX_PASSWORD_LEN", 50); (lit "MAX_ERROR_SIZE", 80); (lit "OBJID_DIM", 2);
   (lit "H5S_MAX_RANK", 32); (lit "H5DATASPACE_MAX_RANK", 32); (lit "HUGE_NAME_LEN", 100000);
   (lit "MAX_NUM_CONFIG_TRAN_THR", 64)].

(** [packItem_t]; the dimensions in use. *)
Record packItem : Type := PackItem {
  typeInx : packTypeInx; name : option bstr; pointerType : pointerType_t;
  intValue : Z; strValue : bstr; dimSize : list Z; hintDimSize : list Z }.

#[export] Instance packItem_eq_dec : EqDecision packItem.
Proof. solve_decision. Defined.

(** All zero, as the item the callers pass and those the parser allocates. *)
Definition zero_item : packItem := PackItem PACK_CHAR_TYPE None NON_POINTER 0 [] [] [].

Definition set_type (t : packTypeInx) (i : packItem) : packItem :=
  PackItem t (name i) (pointerType i) (intValue i) (strValue i) (dimSize i) (hintDimSize i).
Definition set_name (n : bstr) (i : packItem) : packItem :=
  PackItem (typeInx i) (Some n) (pointerType i) (intValue i) (strValue i) (dimSize i) (hintDimSize i).
Definition set_pointer (p : pointerType_t) (i : packItem) : packItem :=
  PackItem (typeInx i) (name i) p (intValue i) (strValue i) (dimSize i) (hintDimSize i).
Definition set_str (s : bstr) (i : packItem) : packItem :=
  PackItem (typeInx i) (name i) (pointerType i) (intValue i) s (dimSize i) (hintDimSize i).
Definition set_dims (d h : list Z) (i : packItem) : packItem :=
  PackItem (typeInx i) (name i) (pointerType i) (intValue i) (strValue i) d h.

(** ** The tokens *)

Definition is_separator (c : ascii) : bool := is_any_of (lit "*;?$") c.

(** The loop of [copyStrFromPiBuf]: what it has copied, and what is left. *)
Fixpoint copy_str (dependentFlag : bool) (inBuf out : bstr) : bstr * bstr :=
  match inBuf with
  | [] => (out, [])
  | c :: rest =>
      if dependentFlag then
        if Ascii.eqb c ";" then (out, inBuf)
        else copy_str dependentFlag rest
               (if negb (bstr_eqb out []) || negb (is_space c) then out ++ [c] else out)
      else if is_space c then
        if bstr_eqb out [] then copy_str dependentFlag rest out else (out, rest)
      else if is_separator c then
        if bstr_eqb out [] then ([c], rest) else (out, inBuf)
      else copy_str dependentFlag rest (out ++ [c])
  end.

(** The buffer has [MAX_PI_LEN] bytes; writing behind it is undefined. *)
Definition copyStrFromPiBuf (inBuf : bstr) (dependentFlag : bool) : res (bstr * bstr) :=
  let '(out, rest) := copy_str dependentFlag inBuf [] in
  if (MAX_PI_LEN <=? length out)%nat then Throw Eundef else Ok (out, rest).

(** ** The parser *)

(** The items queued, the one that is being read, and the two flags. *)
Record parse_state : Type := ParseState {
  queued : list packItem; myPackItem : option packItem; gotTypeCast : bool; gotItemName : bool }.

(** The item a token is for: one is allocated when there is none. *)
Definition current (st : parse_state) : packItem := from_option id zero_item (myPackItem st).

Definition format_error {A} : res (Z + A) := Ok (inl SYS_PACK_INSTRUCT_FORMAT_ERR).

(** [*], [#] and [$] *)
Definition mark_pointer (p : pointerType_t) (st : parse_state) (inptr : bstr) : res (Z + parse_state * bstr) :=
  if negb (gotTypeCast st) || gotItemName st then format_error
  else Ok (inr (ParseState (queued st) (Some (set_pointer p (current st))) (gotTypeCast st) (gotItemName st), inptr)).

(** The body of the loop of [parsePackInstruct] on a token: a code, or the state and the
    input from there on. For a name that is no type -1 is converted to an enumeration
    without negative values, which is undefined (and its test for a negative value is
    false where the enumeration is unsigned). *)
Definition parse_token (buf : bstr) (st : parse_state) (inptr : bstr) : res (Z + parse_state * bstr) :=
  let item := current st in
  if bstr_eqb buf (lit ";") then
    if negb (gotTypeCast st) && negb (gotItemName st) then
      Ok (inr (ParseState (queued st) (Some item) false false, inptr))
    else if negb (gotItemName st) then format_error
    else Ok (inr (ParseState (queued st ++ [item]) None false false, inptr))
  else if bstr_eqb buf (lit "%") then
    if gotTypeCast st || gotItemName st then format_error
    else
      match packTypeLookup buf with
      | None => Throw Eundef
      | Some t =>
          '(buf, inptr) ← copyStrFromPiBuf inptr true;
          if bstr_eqb buf [] then format_error
          else Ok (inr (ParseState (queued st) (Some (set_name buf (set_type t item))) true true, inptr))
      end
  else if bstr_eqb buf (lit "?") then
    if gotTypeCast st || gotItemName st then format_error
    else
      match packTypeLookup buf with
      | None => Throw Eundef
      | Some t =>
          '(buf, inptr) ← copyStrFromPiBuf inptr false;
          if bstr_eqb buf [] then format_error
          else Ok (inr (ParseState (queued st) (Some (set_str (rstrcpy buf NAME_LEN) (set_type t item)))
                          true (gotItemName st), inptr))
      end
  else if bstr_eqb buf (lit "*") then mark_pointer A_POINTER st inptr
  else if bstr_eqb buf (lit "#") then mark_pointer NO_PACK_POINTER st inptr
  else if bstr_eqb buf (lit "$") then mark_pointer NO_FREE_POINTER st inptr
  else if negb (gotTypeCast st) then
    match packTypeLookup buf with
    | None => Throw Eundef
    | Some t => Ok (inr (ParseState (queued st) (Some (set_type t item)) true (gotItemName st), inptr))
    end
  else if negb (gotItemName st) then
    Ok (inr (ParseState (queued st) (Some (set_name buf item)) (gotTypeCast st) true, inptr))
  else format_error.

Fixpoint parse_loop (fuel : nat) (st : parse_state) (inptr : bstr) : res (Z + list packItem) :=
  match fuel with
  | O => Throw Ediverge
  | S fuel =>
      '(buf, rest) ← copyStrFromPiBuf inptr false;
      if bstr_eqb buf [] then
        match myPackItem st with
        | Some _ => format_error
        | None => Ok (inr (queued st))
        end
      else
        r ← parse_token buf st rest;
        match r with
        | inl c => Ok (inl c)
        | inr (st, rest) => parse_loop fuel st rest
        end
  end.

(** [parsePackInstruct]: a code, or the items. A token takes a byte at least. *)
Definition parsePackInstruct (packInstruct : bstr) : res (Z + list packItem) :=
  parse_loop (S (length packInstruct)) (ParseState [] (Some zero_item) false false) packInstruct.

(** ** What an item refers to *)

(** The item a chain hangs on, with those before it in its own chain, and so on. *)
Definition parents_t : Type := list (packItem * list packItem).

Fixpoint ancestors (parents : parents_t) : list packItem :=
  match parents with
  | [] => []
  | (p, before) :: parents' => p :: before ++ ancestors parents'
  end.

(** The items the walk from [prev] visits, the nearest first: the head of a chain leads to
    its parent, but an item that is a head itself has no [prev] to start from. *)
Definition chain (before : list packItem) (parents : parents_t) : list packItem :=
  match before with [] => [] | _ => before ++ ancestors parents end.

(** The first of them with a name and a type. *)
Fixpoint find_item (n : bstr) (t : packTypeInx) (items : list packItem) : res (option packItem) :=
  match items with
  | [] => Ok None
  | i :: items' =>
      match name i with
      | None => Throw Eundef
      | Some m => if bstr_eqb n m && bool_decide (typeInx i = t) then Ok (Some i) else find_item n t items'
      end
  end.

Definition isAllDigit (s : bstr) : bool := forallb is_digit s.

Definition resolveIntInItem (n : bstr) (items : list packItem) : res Z :=
  if isAllDigit n then Ok (atoi n)
  else
    found ← find_item n PACK_INT_TYPE items;
    Ok (match found with
        | Some i => intValue i
        | None => from_option id SYS_PACK_INSTRUCT_FORMAT_ERR (lookup_name n PackConstantTable)
        end).

Definition resolveStrInItem (items : list packItem) (item : packItem) : res (Z + packItem) :=
  found ← find_item (strValue item) PACK_PI_STR_TYPE items;
  match found with
  | None => format_error
  | Some i => Ok (inr (set_name (strValue i) (set_type PACK_STRUCT_TYPE item)))
  end.

(** *** Dimensions *)

Record dim_state : Type := DimState { dims : list Z; hints : list Z; openSymbol : option ascii; buffer : bstr }.

(** The body of the loop of [resolveDepInArray]. *)
Definition dim_char (items : list packItem) (st : dim_state) (c : ascii) : res (Z + dim_state) :=
  if Ascii.eqb c "[" || Ascii.eqb c "(" then
    match openSymbol st with
    | Some _ => format_error
    | None =>
        if Ascii.eqb c "[" && (MAX_PACK_DIM <=? length (dims st))%nat ||
           Ascii.eqb c "(" && (MAX_PACK_DIM <=? length (hints st))%nat then format_error
        else Ok (inr (DimState (dims st) (hints st) (Some c) []))
    end
  else if Ascii.eqb c "]" || Ascii.eqb c ")" then
    let opened := if Ascii.eqb c "]" then "["%char else "("%char in
    if negb (bool_decide (openSymbol st = Some opened)) then format_error
    else if bstr_eqb (buffer st) [] then format_error
    else
      n ← resolveIntInItem (buffer st) items;
      if n <? 0 then format_error
      else Ok (inr (if Ascii.eqb c "]" then DimState (dims st ++ [n]) (hints st) None (buffer st)
                    else DimState (dims st) (hints st ++ [n]) None (buffer st)))
  else
    Ok (inr (match openSymbol st with
             | Some _ => DimState (dims st) (hints st) (openSymbol st) (buffer st ++ [c])
             | None => st
             end)).

Fixpoint dim_loop (items : list packItem) (st : dim_state) (s : bstr) : res (Z + dim_state) :=
  match s with
  | [] => Ok (inr st)
  | c :: s' =>
      r ← dim_char items st c;
      match r with inl e => Ok (inl e) | inr st => dim_loop items st s' end
  end.

(** The name ends at the first bracket. *)
Fixpoint isolate_name (s : bstr) : bstr :=
  match s with
  | [] => []
  | c :: s' => if Ascii.eqb c "[" || Ascii.eqb c "(" then [] else c :: isolate_name s'
  end.

Definition resolveDepInArray (items : list packItem) (item : packItem) : res (Z + packItem) :=
  match name item with
  | None => Throw Eundef
  | Some n =>
      r ← dim_loop items (DimState [] [] None []) n;
      Ok (match r with
          | inl e => inl e
          | inr st => inr (set_name (isolate_name n) (set_dims (dims st) (hints st) item))
          end)
  end.

(** The product is an [int]. *)
Definition product (sizes : list Z) : res Z :=
  foldl (fun acc d => acc ← acc; int_range (acc * d)) (Ok 1) sizes.

Definition getNumElement (item : packItem) : res Z := product (dimSize item).
Definition getNumHintElement (item : packItem) : res Z := product (hintDimSize item).

Definition getNumStrAndStrLen (item : packItem) : res (Z * Z) :=
  match last (hintDimSize item) with
  | None => Ok (1, -1)
  | Some maxStrLen =>
      if maxStrLen <=? 0 then Ok (0, maxStrLen)
      else n ← getNumHintElement item; Ok (Z.quot n maxStrLen, maxStrLen)
  end.

(** *** Items that depend on an integer *)

(** A byte written to a buffer of [MAX_NAME_LEN]. *)
Definition put (buf : bstr) (c : ascii) : res bstr :=
  if (length buf <? MAX_NAME_LEN)%nat then Ok (buf ++ [c]) else Throw Eundef.

Definition is_key_space (c : ascii) : bool := is_any_of [" "; ascii_of_nat 9; newline; ":"]%char c.

(** The first loop of [resolveIntDepItem]: a code, or the key and what is behind it.
    [ended] is set when the key has its terminator, [kept] while it is not overwritten. *)
Fixpoint read_key (s buf : bstr) (ended kept : bool) : res (Z + bstr * bstr) :=
  match s with
  | [] => if kept then Ok (inr (buf, [])) else Throw Eundef
  | c :: s' =>
      if is_key_space c then
        if bstr_eqb buf [] then read_key s' buf ended kept
        else
          _ ← (if ended then Ok buf else put buf NUL);
          let kept := if ended then kept else true in
          if Ascii.eqb c ":" then if kept then Ok (inr (buf, s')) else Throw Eundef
          else read_key s' buf true kept
      else if Ascii.eqb c ";" then format_error
      else buf ← put buf c; read_key s' buf ended false
  end.

(** Forward to a byte, but not past one of [stops] or the end. *)
Fixpoint skip_to (x : ascii) (stops s : bstr) : option bstr :=
  match s with
  | [] => None
  | c :: s' => if Ascii.eqb c x then Some s else if is_any_of stops c then None else skip_to x stops s'
  end.

(** The instruction of a setting. *)
Fixpoint copy_pi (s pi : bstr) : res bstr :=
  match s with
  | [] => pi ← put pi ";"; _ ← put pi NUL; Ok pi
  | c :: s' =>
      if is_any_of (lit ":;") c then pi ← put pi ";"; _ ← put pi NUL; Ok pi
      else pi ← put pi c; copy_pi s' pi
  end.

(** The second loop: a code, or the instruction of the first setting that has the key or
    is the default. An instruction that was never set is undefined. *)
Fixpoint find_setting (fuel : nat) (keyVal : Z) (s buf : bstr) : res (Z + bstr) :=
  match fuel with
  | O => Throw Ediverge
  | S fuel =>
      match s with
      | [] => Throw Eundef
      | c :: s' =>
          if Ascii.eqb c "," || Ascii.eqb c "=" then
            _ ← put buf NUL;
            if bool_decide (is_Some (strstr buf (lit "default"))) || (atoi buf =? keyVal) then
              match (if Ascii.eqb c "," then skip_to "=" (lit ";:") s else Some s) with
              | None => format_error
              | Some s => pi ← copy_pi (drop 1 s) []; Ok (inr pi)
              end
            else if Ascii.eqb c "=" then
              match skip_to ":" (lit ";") s' with
              | None => format_error
              | Some s => find_setting fuel keyVal (drop 1 s) []
              end
            else find_setting fuel keyVal s' []
          else buf ← put buf c; find_setting fuel keyVal s' buf
      end
  end.

(** [resolveIntDepItem]: a code, or the items the item is replaced by. *)
Definition resolveIntDepItem (items : list packItem) (item : packItem) : res (Z + list packItem) :=
  match name item with
  | None => Throw Eundef
  | Some n =>
      r ← read_key n [] false false;
      match r with
      | inl e => Ok (inl e)
      | inr (key, rest) =>
          keyVal ← resolveIntInItem key items;
          if keyVal =? SYS_PACK_INSTRUCT_FORMAT_ERR then format_error
          else
            r ← find_setting (S (length rest)) keyVal rest [];
            match r with
            | inl e => Ok (inl e)
            | inr pi => parsePackInstruct pi
            end
      end
  end.

(** [iparseDependent]: a code, or the items in place of the item. *)
Definition iparseDependent (items : list packItem) (item : packItem) : res (Z + list packItem) :=
  match typeInx item with
  | PACK_DEPENDENT_TYPE =>
      r ← resolveStrInItem items item;
      Ok (match r with inl e => inl e | inr i => inr [i] end)
  | PACK_INT_DEPENDENT_TYPE => resolveIntDepItem items item
  | _ => Ok (inr [item])
  end.

(** ** Termination *)

Lemma copy_str_length dep s out o r :
  copy_str dep s out = (o, r) -> (length o + length r <= length out + length s)%nat /\ (length r <= length s)%nat.
Proof.
  revert out. induction s as [|c s IH]; intros out E; cbn [copy_str] in E; [simplify_eq; simpl; lia|].
  repeat case_match; simplify_eq; simpl; try lia.
  all: try (apply IH in E; rewrite ?length_app in E; simpl in E; lia).
Qed.

Lemma copyStr_spec s dep buf rest :
  copyStrFromPiBuf s dep = Ok (buf, rest) -> (length buf + length rest <= length s)%nat /\ (length buf < MAX_PI_LEN)%nat.
Proof.
  unfold copyStrFromPiBuf. destruct (copy_str dep s []) as [o r] eqn:E.
  destruct (Nat.leb_spec MAX_PI_LEN (length o)); [done|]. intros [= <- <-].
  apply copy_str_length in E. simpl in E. lia.
Qed.

(** A token is not empty, so what is left is shorter. *)
Lemma copyStr_shorter s dep buf rest :
  copyStrFromPiBuf s dep = Ok (buf, rest) -> bstr_eqb buf [] = false -> (length rest < length s)%nat.
Proof.
  intros E Hb%bstr_eqb_neq. apply copyStr_spec in E as [E _]. destruct buf; [done|]. simpl in E. lia.
Qed.

Lemma copyStr_not_longer s dep buf rest : copyStrFromPiBuf s dep = Ok (buf, rest) -> (length rest <= length s)%nat.
Proof. intros [E _]%copyStr_spec. lia. Qed.

Lemma mark_pointer_inv p st s st' s' :
  mark_pointer p st s = Ok (inr (st', s')) ->
  s' = s /\ gotTypeCast st = true /\ gotItemName st = false /\
  st' = ParseState (queued st) (Some (set_pointer p (current st))) true false.
Proof.
  unfold mark_pointer, format_error. intros E. destruct (gotTypeCast st), (gotItemName st); simplify_eq/=; done.
Qed.

Lemma parse_token_not_longer buf st s st' s' :
  parse_token buf st s = Ok (inr (st', s')) -> (length s' <= length s)%nat.
Proof.
  unfold parse_token, format_error. intros E.
  repeat (case_match; try done; simplify_eq/=; try done).
  all: try (destruct (copyStrFromPiBuf s _) as [[b r]|] eqn:E1; simplify_eq/=; case_match; simplify_eq;
            by eapply copyStr_not_longer).
  all: try (apply mark_pointer_inv in E as [-> _]; done).
Qed.

(** A token makes progress: with a unit of fuel for every byte the parser returns. *)
Lemma parse_loop_terminates fuel st s : (length s < fuel)%nat -> parse_loop fuel st s <> Throw Ediverge.
Proof.
  revert st s. induction fuel as [|fuel IH]; intros st s Hf; [lia|]. cbn [parse_loop].
  destruct (copyStrFromPiBuf s false) as [[buf rest]|e] eqn:E; cbn [mbind res_bind].
  - destruct (bstr_eqb buf []) eqn:Hb; [by destruct (myPackItem st)|].
    pose proof (copyStr_shorter _ _ _ _ E Hb).
    destruct (parse_token buf st rest) as [[c|[st' rest']]|e] eqn:Et; cbn [mbind res_bind]; [done| |].
    + apply IH. apply parse_token_not_longer in Et. lia.
    + unfold parse_token, mark_pointer, format_error in Et. unfold copyStrFromPiBuf in Et.
      repeat (case_match; simplify_eq/=; try done).
  - unfold copyStrFromPiBuf in E. case_match. case_match; simplify_eq. done.
Qed.

Lemma parse_loop_undefined fuel st s e : parse_loop fuel st s = Throw e -> e = Eundef \/ e = Ediverge.
Proof.
  revert st s. induction fuel as [|fuel IH]; intros st s; cbn [parse_loop]; [intros [= <-]; by right|].
  destruct (copyStrFromPiBuf s false) as [[buf rest]|e'] eqn:E; cbn [mbind res_bind].
  - destruct (bstr_eqb buf []); [unfold format_error; by destruct (myPackItem st)|].
    destruct (parse_token buf st rest) as [[c|[st' rest']]|e'] eqn:Et; cbn [mbind res_bind]; [done|apply IH|].
    intros [= <-]. left. unfold parse_token, mark_pointer, format_error, copyStrFromPiBuf in Et.
    repeat (case_match; simplify_eq/=; try done).
  - intros [= <-]. left. unfold copyStrFromPiBuf in E. case_match. case_match; simplify_eq. done.
Qed.

(** The parser of packing instructions returns on every text, with the items or with an
    error, or it comes to a token that has no room or a type that does not exist: it never
    loops, and throws nothing. *)
Theorem parse_terminates s :
  (exists r, parsePackInstruct s = Ok r) \/ parsePackInstruct s = Throw Eundef.
Proof.
  unfold parsePackInstruct. pose proof (parse_loop_terminates (S (length s)) (ParseState [] (Some zero_item) false false) s) as Ht.
  destruct (parse_loop _ _ s) as [r|e] eqn:E; [eauto|right]. apply parse_loop_undefined in E as [->| ->]; [done|].
  by destruct Ht; [lia|].
Qed.

(** A misspelt type is not refused. *)
Example unknown_type_undefined : parsePackInstruct (lit "string x;") = Throw Eundef.
Proof. vm_compute. reflexivity. Qed.

(** ** The items *)

(** What holds once the type is known. *)
Definition item_typed (i : packItem) : Prop :=
  (length (strValue i) < NAME_LEN)%nat /\ intValue i = 0 /\ dimSize i = [] /\ hintDimSize i = [] /\
  (typeInx i = PACK_DEPENDENT_TYPE <-> strValue i <> []) /\
  (typeInx i = PACK_INT_DEPENDENT_TYPE -> pointerType i = NON_POINTER).

Definition item_parsed (i : packItem) : Prop :=
  item_typed i /\ exists n, name i = Some n /\ n <> [] /\ (length n < MAX_PI_LEN)%nat.

Definition parse_inv (st : parse_state) : Prop :=
  Forall item_parsed (queued st) /\ (myPackItem st = None -> queued st <> []) /\
  match gotTypeCast st, gotItemName st with
  | false, false => current st = zero_item
  | true, false => item_typed (current st) /\ typeInx (current st) <> PACK_INT_DEPENDENT_TYPE
  | true, true => item_parsed (current st)
  | false, true => False
  end.

Lemma packTypeLookup_plain buf t :
  packTypeLookup buf = Some t -> bstr_eqb buf (lit "%") = false -> bstr_eqb buf (lit "?") = false ->
  t <> PACK_DEPENDENT_TYPE /\ t <> PACK_INT_DEPENDENT_TYPE.
Proof.
  unfold packTypeLookup, packTypeTable. cbn [lookup_name]. intros H H1 H2. rewrite H1, H2 in H.
  repeat case_match; simplify_eq; done.
Qed.

Lemma mark_pointer_keeps p st s st' s' :
  parse_inv st -> mark_pointer p st s = Ok (inr (st', s')) -> parse_inv st'.
Proof.
  intros (Hq & _ & Hc) E. apply mark_pointer_inv in E as (_ & Ht & Hn & ->). rewrite Ht, Hn in Hc.
  split_and!; [done|done|]. destruct Hc as ((H1 & H2 & H3 & H4 & H5 & H6) & H7).
  unfold item_typed. simpl. split_and!; try done.
Qed.

Lemma parse_token_keeps buf st s st' s' :
  parse_inv st -> bstr_eqb buf [] = false -> (length buf < MAX_PI_LEN)%nat ->
  parse_token buf st s = Ok (inr (st', s')) -> parse_inv st'.
Proof.
  intros Hinv Hb%bstr_eqb_neq Hl. pose proof Hinv as (Hq & Hne & Hc). unfold parse_token.
  destruct (bstr_eqb buf (lit ";")).
  { destruct (gotTypeCast st) eqn:Ht, (gotItemName st) eqn:Hn; unfold format_error; simpl; intros [= <- <-].
    - split_and!; [by apply Forall_app; split; [|constructor]| |done]. simpl. by destruct (queued st).
    - done.
    - split_and!; [done|done|]. exact Hc. }
  destruct (bstr_eqb buf (lit "%")) eqn:Hp.
  { destruct (gotTypeCast st) eqn:Ht, (gotItemName st) eqn:Hn; unfold format_error; simpl; try done.
    apply bstr_eqb_eq in Hp as ->. change (packTypeLookup (lit "%")) with (Some PACK_INT_DEPENDENT_TYPE). cbv iota.
    destruct (copyStrFromPiBuf s true) as [[b r]|] eqn:E; cbn [mbind res_bind]; [|done].
    destruct (bstr_eqb b []) eqn:Hb1; [done|]. intros [= <- <-]. apply bstr_eqb_neq in Hb1.
    apply copyStr_spec in E as [_ E]. rewrite Hc. split_and!; [done|done|]. cbn.
    split; [|by exists b]. split_and!; try done. simpl. unfold NAME_LEN. lia. }
  destruct (bstr_eqb buf (lit "?")) eqn:Hd.
  { destruct (gotTypeCast st) eqn:Ht, (gotItemName st) eqn:Hn; unfold format_error; simpl; try done.
    apply bstr_eqb_eq in Hd as ->. change (packTypeLookup (lit "?")) with (Some PACK_DEPENDENT_TYPE). cbv iota.
    destruct (copyStrFromPiBuf s false) as [[b r]|] eqn:E; cbn [mbind res_bind]; [|done].
    destruct (bstr_eqb b []) eqn:Hb1; [done|]. intros [= <- <-]. apply bstr_eqb_neq in Hb1.
    rewrite Hc. split_and!; [done|done|]. split; [|done].
    split_and!; try done; simpl.
    - unfold rstrcpy. rewrite length_take. unfold NAME_LEN. lia.
    - by destruct b. }
  destruct (bstr_eqb buf (lit "*")); [by apply mark_pointer_keeps|].
  destruct (bstr_eqb buf (lit "#")); [by apply mark_pointer_keeps|].
  destruct (bstr_eqb buf (lit "$")); [by apply mark_pointer_keeps|].
  destruct (gotTypeCast st) eqn:Ht, (gotItemName st) eqn:Hn; unfold format_error; simpl; try done.
  - intros [= <- <-]. split_and!; [done|done|]. simpl. destruct Hc as [Hc _]. split; [exact Hc|by exists buf].
  - destruct (packTypeLookup buf) as [t|] eqn:E; [|done]. intros [= <- <-].
    destruct (packTypeLookup_plain _ _ E Hp Hd). rewrite Hc. split_and!; [done|done|]. simpl.
    split; [|done]. split_and!; simpl; try done. unfold NAME_LEN. lia.
Qed.

Lemma parse_loop_items fuel st s items :
  parse_inv st -> parse_loop fuel st s = Ok (inr items) -> items <> [] /\ Forall item_parsed items.
Proof.
  revert st s. induction fuel as [|fuel IH]; intros st s Hinv; [done|]. cbn [parse_loop].
  destruct (copyStrFromPiBuf s false) as [[buf rest]|e] eqn:E; cbn [mbind res_bind]; [|done].
  apply copyStr_spec in E as [_ E].
  destruct (bstr_eqb buf []) eqn:Hb.
  - destruct Hinv as (Hq & Hne & _). unfold format_error. destruct (myPackItem st); [done|]. intros [= <-]. auto.
  - destruct (parse_token buf st rest) as [[c|[st' rest']]|e'] eqn:Et; cbn [mbind res_bind]; [done| |done].
    apply IH. by eapply parse_token_keeps.
Qed.

(** C34: What the parser accepts has at least one item, and every item is complete: a
    name that is not empty and fits its buffer, no dimensions yet, the name of the string
    it depends on exactly when it is dependent. *)
Theorem parsed_items_complete s items :
  parsePackInstruct s = Ok (inr items) -> items <> [] /\ Forall item_parsed items.
Proof. apply parse_loop_items. split_and!; [constructor|done|done]. Qed.

Lemma parsed_items_complete_witness :
  [PackItem PACK_INT_TYPE (Some (lit "x")) NON_POINTER 0 [] [] []] <> [] /\
  Forall item_parsed [PackItem PACK_INT_TYPE (Some (lit "x")) NON_POINTER 0 [] [] []].
Proof. apply (parsed_items_complete (lit "int x;")). vm_compute. reflexivity. Defined.

(** ** Printing *)

Definition type_name (t : packTypeInx) : bstr :=
  match t with
  | PACK_CHAR_TYPE => lit "char" | PACK_BIN_TYPE => lit "bin" | PACK_STR_TYPE => lit "str"
  | PACK_PI_STR_TYPE => lit "piStr" | PACK_INT_TYPE => lit "int" | PACK_DOUBLE_TYPE => lit "double"
  | PACK_STRUCT_TYPE => lit "struct" | PACK_DEPENDENT_TYPE => lit "?"
  | PACK_INT_DEPENDENT_TYPE => lit "%" | PACK_INT16_TYPE => lit "int16"
  end.

(** [#] is not a separator of the tokens. *)
Definition pointer_mark (p : pointerType_t) : bstr :=
  match p with
  | NON_POINTER => [] | A_POINTER => lit "*" | NO_FREE_POINTER => lit "$" | NO_PACK_POINTER => lit "# "
  end.

Definition print_item (i : packItem) : bstr :=
  type_name (typeInx i) ++ lit " " ++
  match typeInx i with
  | PACK_INT_DEPENDENT_TYPE => []
  | PACK_DEPENDENT_TYPE => strValue i ++ lit " " ++ pointer_mark (pointerType i)
  | _ => pointer_mark (pointerType i)
  end ++ from_option id [] (name i) ++ lit ";".

Definition print_items (items : list packItem) : bstr := mjoin (print_item <$> items).

Definition plain (c : ascii) : bool := negb (is_space c) && negb (is_separator c).

(** A token of its own. *)
Definition plain_token (s : bstr) : Prop := s <> [] /\ (length s < MAX_PI_LEN)%nat /\ Forall (fun c => plain c = true) s.

(** The text of an item that depends on an integer goes up to the semicolon. *)
Definition dependent_text (s : bstr) : Prop :=
  (length s < MAX_PI_LEN)%nat /\ Forall (fun c => c <> ";"%char) s /\ exists c s', s = c :: s' /\ is_space c = false.

Definition printable (i : packItem) : Prop :=
  item_typed i /\ exists n, name i = Some n /\
  match typeInx i with
  | PACK_INT_DEPENDENT_TYPE => dependent_text n
  | t => plain_token n /\ n <> lit "%" /\ n <> lit "#" /\ (t = PACK_DEPENDENT_TYPE -> plain_token (strValue i))
  end.

(** Enough fuel is as good as more. *)
Lemma parse_loop_fuel f1 f2 st s :
  (length s < f1)%nat -> (length s < f2)%nat -> parse_loop f1 st s = parse_loop f2 st s.
Proof.
  revert f2 st s. induction f1 as [|f1 IH]; intros f2 st s H1 H2; [lia|]. destruct f2 as [|f2]; [lia|].
  cbn [parse_loop]. destruct (copyStrFromPiBuf s false) as [[buf rest]|e] eqn:E; cbn [mbind res_bind]; [|done].
  destruct (bstr_eqb buf []) eqn:Hb; [done|]. pose proof (copyStr_shorter _ _ _ _ E Hb).
  destruct (parse_token buf st rest) as [[c|[st' rest']]|e] eqn:Et; cbn [mbind res_bind]; [done| |done].
  apply parse_token_not_longer in Et. apply IH; lia.
Qed.

Definition parse (st : parse_state) (s : bstr) : res (Z + list packItem) := parse_loop (S (length s)) st s.

Lemma parse_step st s buf rest st' rest' :
  copyStrFromPiBuf s false = Ok (buf, rest) -> buf <> [] ->
  parse_token buf st rest = Ok (inr (st', rest')) -> parse st s = parse st' rest'.
Proof.
  intros E Hb Et. apply bstr_eqb_neq in Hb. pose proof (copyStr_shorter _ _ _ _ E Hb).
  transitivity (parse_loop (length s) st' rest').
  - unfold parse. cbn [parse_loop]. rewrite E. cbn [mbind res_bind]. by rewrite Hb, Et.
  - apply parse_token_not_longer in Et. apply parse_loop_fuel; lia.
Qed.

Lemma copy_str_plain t rest out :
  Forall (fun c => plain c = true) t -> copy_str false (t ++ rest) out = copy_str false rest (out ++ t).
Proof.
  intros H. revert out. induction H as [|c t Hc _ IH]; intros out; [by rewrite app_nil_r|].
  cbn [app copy_str]. unfold plain in Hc. apply andb_true_iff in Hc as [H1%negb_true_iff H2%negb_true_iff].
  rewrite H1, H2, IH. by rewrite <- app_assoc.
Qed.

Lemma copyStr_fits dep s o r :
  copy_str dep s [] = (o, r) -> (length o < MAX_PI_LEN)%nat -> copyStrFromPiBuf s dep = Ok (o, r).
Proof. intros E H. unfold copyStrFromPiBuf. rewrite E. by rewrite (proj2 (Nat.leb_gt _ _)). Qed.

Lemma copyStr_plain_space t rest :
  plain_token t -> copyStrFromPiBuf (t ++ lit " " ++ rest) false = Ok (t, rest).
Proof.
  intros (Hne & Hl & Hp). apply copyStr_fits; [|done]. rewrite copy_str_plain by done.
  cbn [app lit String.list_ascii_of_string copy_str]. change (is_space " ") with true. cbv iota.
  by rewrite (proj2 (bstr_eqb_neq t [])).
Qed.

Lemma copyStr_plain_semicolon t rest :
  plain_token t -> copyStrFromPiBuf (t ++ lit ";" ++ rest) false = Ok (t, lit ";" ++ rest).
Proof.
  intros (Hne & Hl & Hp). apply copyStr_fits; [|done]. rewrite copy_str_plain by done.
  cbn [app lit String.list_ascii_of_string copy_str]. change (is_space ";") with false.
  change (is_separator ";") with true. cbv iota. by rewrite (proj2 (bstr_eqb_neq t [])).
Qed.

Lemma copyStr_separator c rest : is_separator c = true -> is_space c = false -> copyStrFromPiBuf (c :: rest) false = Ok ([c], rest).
Proof.
  intros H1 H2. apply copyStr_fits; [|unfold MAX_PI_LEN; simpl; lia]. cbn [copy_str]. by rewrite H2, H1.
Qed.

Lemma copy_str_dependent t rest out :
  Forall (fun c => c <> ";"%char) t -> out <> [] ->
  copy_str true (t ++ lit ";" ++ rest) out = (out ++ t, lit ";" ++ rest).
Proof.
  intros H. revert out. induction H as [|c t Hc _ IH]; intros out Ho; [by rewrite app_nil_r|].
  cbn [app copy_str]. rewrite (proj2 (Ascii.eqb_neq _ _)) by done.
  rewrite (proj2 (bstr_eqb_neq out [])) by done. cbn [negb orb]. rewrite IH by (by destruct out).
  by rewrite <- app_assoc.
Qed.

Lemma copyStr_dependent t rest :
  dependent_text t -> copyStrFromPiBuf (t ++ lit ";" ++ rest) true = Ok (t, lit ";" ++ rest).
Proof.
  intros (Hl & Hs & c & s' & -> & Hc). apply copyStr_fits; [|done].
  apply Forall_cons in Hs as [Hc1 Hs]. cbn [app copy_str]. rewrite (proj2 (Ascii.eqb_neq _ _)) by done.
  rewrite Hc. cbn [negb]. rewrite orb_true_r. cbn [app]. by rewrite copy_str_dependent.
Qed.

(** *** The tokens of an item *)

Lemma type_name_lookup t : packTypeLookup (type_name t) = Some t.
Proof. by destruct t. Qed.

Definition ready (q : list packItem) (st : parse_state) : Prop :=
  queued st = q /\ current st = zero_item /\ gotTypeCast st = false /\ gotItemName st = false.

Lemma parse_type t q st rest :
  ready q st -> t <> PACK_DEPENDENT_TYPE -> t <> PACK_INT_DEPENDENT_TYPE ->
  parse st (type_name t ++ lit " " ++ rest) = parse (ParseState q (Some (set_type t zero_item)) true false) rest.
Proof.
  intros (Hq & Hc & Ht & Hn) H1 H2. eapply parse_step.
  - apply copyStr_plain_space. split_and!; [by destruct t|destruct t; unfold MAX_PI_LEN; simpl; lia|].
    destruct t; try done; repeat constructor.
  - by destruct t.
  - unfold parse_token. rewrite Hc, Ht, Hn, Hq. by destruct t.
Qed.

Lemma parse_dependent v q st rest :
  ready q st -> plain_token v -> (length v < NAME_LEN)%nat ->
  parse st (lit "? " ++ v ++ lit " " ++ rest) =
    parse (ParseState q (Some (set_str v (set_type PACK_DEPENDENT_TYPE zero_item))) true false) rest.
Proof.
  intros (Hq & Hc & Ht & Hn) Hv Hl. eapply parse_step.
  - by apply (copyStr_separator "?").
  - done.
  - unfold parse_token. rewrite Hc, Ht, Hn, Hq.
    change (bstr_eqb ["?"%char] (lit ";")) with false. change (bstr_eqb ["?"%char] (lit "%")) with false.
    change (bstr_eqb ["?"%char] (lit "?")) with true. cbv iota. cbn [orb].
    change (packTypeLookup ["?"%char]) with (Some PACK_DEPENDENT_TYPE). cbv iota.
    assert (forall s, copyStrFromPiBuf (" "%char :: s) false = copyStrFromPiBuf s false) as -> by reflexivity.
    rewrite copyStr_plain_space by done. cbn [mbind res_bind]. destruct Hv as (Hne & _).
    rewrite (proj2 (bstr_eqb_neq v [])) by done. by rewrite rstrcpy_fits.
Qed.

Lemma parse_int_dependent n q st rest :
  ready q st -> dependent_text n ->
  parse st (lit "% " ++ n ++ lit ";" ++ rest) =
    parse (ParseState q (Some (set_name n (set_type PACK_INT_DEPENDENT_TYPE zero_item))) true true) (lit ";" ++ rest).
Proof.
  intros (Hq & Hc & Ht & Hn) Hv. eapply parse_step.
  - apply (copyStr_plain_space (lit "%")). split_and!; [done|unfold MAX_PI_LEN; simpl; lia|repeat constructor].
  - done.
  - unfold parse_token. rewrite Hc, Ht, Hn, Hq.
    change (bstr_eqb (lit "%") (lit ";")) with false. change (bstr_eqb (lit "%") (lit "%")) with true.
    cbv iota. cbn [orb]. change (packTypeLookup (lit "%")) with (Some PACK_INT_DEPENDENT_TYPE). cbv iota.
    rewrite copyStr_dependent by done. cbn [mbind res_bind]. destruct Hv as (_ & _ & c & s' & -> & _). done.
Qed.

Lemma parse_pointer p i q rest :
  pointerType i = NON_POINTER ->
  parse (ParseState q (Some i) true false) (pointer_mark p ++ rest) = parse (ParseState q (Some (set_pointer p i)) true false) rest.
Proof.
  intros Hi. destruct p.
  - destruct i; simpl in *; by subst.
  - eapply parse_step; [by apply (copyStr_separator "*")|done|done].
  - eapply parse_step; [by apply (copyStr_separator "$")|done|done].
  - eapply parse_step; [apply (copyStr_plain_space (lit "#"))|done|done].
    split_and!; [done|unfold MAX_PI_LEN; simpl; lia|repeat constructor].
Qed.

Lemma plain_not_separator n c : plain_token n -> is_separator c = true -> bstr_eqb n [c] = false.
Proof.
  intros (_ & _ & Hp) Hc. apply bstr_eqb_neq. intros ->. apply Forall_cons in Hp as [Hp _].
  unfold plain in Hp. rewrite Hc in Hp. by rewrite andb_false_r in Hp.
Qed.

Lemma parse_name n i q rest :
  plain_token n -> n <> lit "%" -> n <> lit "#" ->
  parse (ParseState q (Some i) true false) (n ++ lit ";" ++ rest) =
    parse (ParseState q (Some (set_name n i)) true true) (lit ";" ++ rest).
Proof.
  intros Hn H1%bstr_eqb_neq H2%bstr_eqb_neq. eapply parse_step; [by apply copyStr_plain_semicolon|by destruct Hn|].
  unfold parse_token. rewrite H1, H2.
  assert (bstr_eqb n (lit ";") = false) as -> by by apply plain_not_separator.
  assert (bstr_eqb n (lit "?") = false) as -> by by apply plain_not_separator.
  assert (bstr_eqb n (lit "*") = false) as -> by by apply plain_not_separator.
  assert (bstr_eqb n (lit "$") = false) as -> by by apply plain_not_separator.
  done.
Qed.

Lemma parse_semicolon i q rest :
  parse (ParseState q (Some i) true true) (lit ";" ++ rest) = parse (ParseState (q ++ [i]) None false false) rest.
Proof. eapply parse_step; [by apply (copyStr_separator ";")|done|done]. Qed.

(** Two items with the same fields. *)
Lemma item_rebuild i n :
  item_typed i -> name i = Some n ->
  i = PackItem (typeInx i) (Some n) (pointerType i) 0 (strValue i) [] [].
Proof. intros (_ & H1 & H2 & H3 & _) Hn. destruct i. simpl in *. by subst. Qed.

Lemma parse_item i q st rest :
  ready q st -> printable i ->
  parse st (print_item i ++ rest) = parse (ParseState (q ++ [i]) None false false) rest.
Proof.
  intros Hr (Hty & n & Hn & Hi). pose proof (item_rebuild i n Hty Hn) as E.
  destruct Hty as (Hl & _ & _ & _ & Hdep & Hint). unfold print_item. rewrite Hn. cbn [from_option id].
  rewrite <- !app_assoc. rewrite E. cbn [typeInx strValue pointerType].
  destruct (typeInx i) eqn:Et.
  all: try (assert (strValue i = []) as -> by (destruct (strValue i); [done|]; discriminate (proj2 Hdep ltac:(done)))).
  9: { rewrite Hint by done. change (type_name PACK_INT_DEPENDENT_TYPE ++ lit " " ++ [] ++ ?x) with (lit "% " ++ x).
       rewrite (parse_int_dependent n q) by done. by rewrite parse_semicolon. }
  8: { destruct Hi as (Hp & H1 & H2 & Hv). rewrite <- !app_assoc.
       change (type_name PACK_DEPENDENT_TYPE ++ lit " " ++ ?x) with (lit "? " ++ x).
       rewrite (parse_dependent _ q) by (try done; by apply Hv).
       rewrite parse_pointer, parse_name by done. by rewrite parse_semicolon. }
  all: destruct Hi as (Hp & H1 & H2 & _); rewrite (parse_type _ q) by done;
    rewrite parse_pointer, parse_name by done; by rewrite parse_semicolon.
Qed.

Lemma parse_items items q st :
  ready q st -> Forall printable items -> (items <> [] \/ myPackItem st = None) ->
  parse st (print_items items) = Ok (inr (q ++ items)).
Proof.
  intros Hr H. revert q st Hr. induction H as [|i items Hi _ IH]; intros q st Hr Hne.
  - destruct Hne as [Hne|Hne]; [done|]. unfold parse. cbn [print_items]. cbn.
    rewrite Hne. destruct Hr as (-> & _). by rewrite app_nil_r.
  - change (print_items (i :: items)) with (print_item i ++ print_items items).
    rewrite (parse_item i q) by done. rewrite (IH (q ++ [i])); [|by split_and!|by right].
    by rewrite <- app_assoc.
Qed.

(** C33: The instruction printed from a list of items is parsed as those items: every
    type, every kind of pointer, and the items that depend on a string or an integer. *)
Theorem pack_instruct_roundtrip items :
  items <> [] -> Forall printable items -> parsePackInstruct (print_items items) = Ok (inr items).
Proof.
  intros Hne H. apply (parse_items items [] (ParseState [] (Some zero_item) false false)); [by split_and!|done|by left].
Qed.

Lemma pack_instruct_roundtrip_witness :
  let item t n p s := PackItem t (Some (lit n)) p 0 (lit s) [] [] in
  let items := [item PACK_PI_STR_TYPE "type[NAME_LEN]"%string NON_POINTER ""%string;
                item PACK_DEPENDENT_TYPE "inOut"%string A_POINTER "type"%string;
                item PACK_INT_DEPENDENT_TYPE "len:1 = int x:default= str *y"%string NON_POINTER ""%string;
                item PACK_BIN_TYPE "buf(len)"%string NO_PACK_POINTER ""%string] in
  parsePackInstruct (print_items items) = Ok (inr items).
Proof.
  cbv zeta. apply pack_instruct_roundtrip; [discriminate|].
  assert (forall n, bool_decide (n <> [] /\ (length n < MAX_PI_LEN)%nat /\ Forall (fun c => plain c = true) n) = true ->
            plain_token n) as Hp by (intros n H; by apply bool_decide_eq_true in H).
  assert (forall s : bstr, bool_decide (length s < NAME_LEN)%nat = true -> (length s < NAME_LEN)%nat) as Hl
    by (intros n H; by apply bool_decide_eq_true in H).
  apply Forall_cons_2; [|apply Forall_cons_2; [|apply Forall_cons_2; [|apply Forall_cons_2; [|apply Forall_nil_2]]]];
    (split; [split_and!; [apply Hl; reflexivity|reflexivity|reflexivity|reflexivity|split; intros H; done|intros H; done]|
     eexists; split; [reflexivity|]; cbn [typeInx]]).
  3: { split_and!; [by_evaluation|by_evaluation|]. eexists _, _. split; reflexivity. }
  all: split_and!; [apply Hp; vm_compute; reflexivity|discriminate|discriminate|intros H].
  2: apply Hp; vm_compute; reflexivity.
  all: discriminate.
Defined.

(** A second semicolon is skipped between items but not behind the last: an item is
    allocated for it that never gets a type. *)
Example extra_semicolon :
  parsePackInstruct (lit "int x;; int y;") =
    Ok (inr [PackItem PACK_INT_TYPE (Some (lit "x")) NON_POINTER 0 [] [] [];
             PackItem PACK_INT_TYPE (Some (lit "y")) NON_POINTER 0 [] [] []]) /\
  parsePackInstruct (lit "int x;;") = Ok (inl SYS_PACK_INSTRUCT_FORMAT_ERR).
Proof. split; vm_compute; reflexivity. Qed.

(** ** Dimensions *)

Definition is_bracket (c : ascii) : bool := is_any_of (lit "[](){}") c.

Definition dim_inv (st : dim_state) : Prop :=
  (length (dims st) <= MAX_PACK_DIM)%nat /\ (length (hints st) <= MAX_PACK_DIM)%nat /\
  Forall (fun d => 0 <= d) (dims st) /\ Forall (fun d => 0 <= d) (hints st) /\
  (openSymbol st = Some "["%char -> length (dims st) < MAX_PACK_DIM)%nat /\
  (openSymbol st = Some "("%char -> length (hints st) < MAX_PACK_DIM)%nat.

Lemma dim_char_keeps items st c st' : dim_inv st -> dim_char items st c = Ok (inr st') -> dim_inv st'.
Proof.
  intros (H1 & H2 & H3 & H4 & H5 & H6). unfold dim_char, format_error.
  destruct (Ascii.eqb_spec c "["); [subst c|destruct (Ascii.eqb_spec c "("); [subst c|]]; cbn [orb].
  - destruct (openSymbol st); [done|].
    destruct (Nat.leb_spec MAX_PACK_DIM (length (dims st))); cbn; [done|]. intros [= <-]. by split_and!.
  - destruct (openSymbol st); [done|].
    destruct (Nat.leb_spec MAX_PACK_DIM (length (hints st))); cbn; [done|]. intros [= <-]. by split_and!.
  - destruct (Ascii.eqb_spec c "]"); [subst c|destruct (Ascii.eqb_spec c ")"); [subst c|]]; cbn [orb].
    1-2: case_bool_decide as Ho; cbn [negb]; [|done]; destruct (bstr_eqb (buffer st) []); [done|].
    1-2: destruct (resolveIntInItem (buffer st) items) as [v|]; cbn [mbind res_bind]; [|done].
    1-2: destruct (Z.ltb_spec v 0); [done|]; intros [= <-]; cbn.
    + split_and!; cbn; try done; [rewrite length_app; simpl; specialize (H5 Ho); lia|].
      apply Forall_app; by split; [|repeat constructor].
    + split_and!; cbn; try done; [rewrite length_app; simpl; specialize (H6 Ho); lia|].
      apply Forall_app; by split; [|repeat constructor].
    + intros [= <-]. destruct (openSymbol st) eqn:Ho; split_and!; cbn; try done; rewrite ?Ho; done.
Qed.

Lemma dim_loop_keeps items s st st' : dim_inv st -> dim_loop items st s = Ok (inr st') -> dim_inv st'.
Proof.
  revert st. induction s as [|c s IH]; intros st Hi; cbn [dim_loop]; [by intros [= <-]|].
  destruct (dim_char items st c) as [[e|st1]|] eqn:E; cbn [mbind res_bind]; [done| |done].
  apply IH. by eapply dim_char_keeps.
Qed.

(** An item that is resolved has at most [MAX_PACK_DIM] dimensions and hint
    dimensions, none of them negative, whatever its name holds: the arrays of the item
    are never written out of bounds. *)
Theorem dims_bounded items item item' :
  resolveDepInArray items item = Ok (inr item') ->
  (length (dimSize item') <= MAX_PACK_DIM)%nat /\ (length (hintDimSize item') <= MAX_PACK_DIM)%nat /\
  Forall (fun d => 0 <= d) (dimSize item') /\ Forall (fun d => 0 <= d) (hintDimSize item').
Proof.
  unfold resolveDepInArray. destruct (name item) as [n|]; [|done].
  destruct (dim_loop items (DimState [] [] None []) n) as [[e|st]|] eqn:E; cbn; [done| |done]. intros [= <-].
  apply dim_loop_keeps in E as (H1 & H2 & H3 & H4 & _); [done|].
  split_and!; cbn; try done; try lia; constructor.
Qed.

Lemma dims_bounded_witness :
  (length [1088; 2] <= MAX_PACK_DIM)%nat /\ (length [3] <= MAX_PACK_DIM)%nat /\
  Forall (fun d => 0 <= d) [1088; 2] /\ Forall (fun d => 0 <= d) [3].
Proof.
  apply (dims_bounded [] (set_name (lit "x[MAX_NAME_LEN][2](3)") zero_item)
           (PackItem PACK_CHAR_TYPE (Some (lit "x")) NON_POINTER 0 [] [1088; 2] [3])).
  vm_compute. reflexivity.
Defined.

(** A text between brackets. *)
Definition dim_text (s : bstr) : Prop := s <> [] /\ Forall (fun c => is_bracket c = false) s.

Lemma not_bracket c :
  is_bracket c = false ->
  Ascii.eqb c "[" || Ascii.eqb c "(" = false /\ Ascii.eqb c "]" || Ascii.eqb c ")" = false.
Proof.
  unfold is_bracket. intros H%is_any_of_false.
  assert (forall d, d ∈ lit "[](){}" -> Ascii.eqb c d = false) as Hd.
  { intros d Hd. apply Ascii.eqb_neq. by intros ->. }
  rewrite !Hd; [done|..]; by_evaluation.
Qed.

Lemma dim_loop_plain items s rest ds hs o buf :
  Forall (fun c => is_bracket c = false) s ->
  dim_loop items (DimState ds hs o buf) (s ++ rest) =
  dim_loop items (DimState ds hs o (match o with Some _ => buf ++ s | None => buf end)) rest.
Proof.
  intros H. revert buf. induction H as [|c s Hc _ IH]; intros buf.
  - destruct o; by rewrite ?app_nil_r.
  - cbn [app dim_loop]. unfold dim_char. destruct (not_bracket c Hc) as [-> ->]. cbn [openSymbol mbind res_bind].
    destruct o; cbn [dims hints buffer]; rewrite IH; by rewrite <- ?app_assoc.
Qed.

(** [[t]] and [(t)] *)
Definition bracket (hint : bool) (t : bstr) : bstr :=
  if hint then lit "(" ++ t ++ lit ")" else lit "[" ++ t ++ lit "]".

Definition add_dim (hint : bool) (v : Z) (dh : list Z * list Z) : list Z * list Z :=
  if hint then (dh.1, dh.2 ++ [v]) else (dh.1 ++ [v], dh.2).

Lemma dim_loop_bracket items (hint : bool) t v rest (dh : list Z * list Z) buf :
  dim_text t -> resolveIntInItem t items = Ok v -> 0 <= v ->
  (length (if hint then dh.2 else dh.1) < MAX_PACK_DIM)%nat ->
  dim_loop items (DimState dh.1 dh.2 None buf) (bracket hint t ++ rest) =
  dim_loop items (DimState (add_dim hint v dh).1 (add_dim hint v dh).2 None t) rest.
Proof.
  intros [Hne Ht] Hr Hv Hd. set (o := if hint then "("%char else "["%char).
  assert (bracket hint t ++ rest = o :: t ++ (if hint then ")"%char else "]"%char) :: rest) as ->.
  { unfold bracket, o. destruct hint; cbn; by rewrite <- app_assoc. }
  assert (dim_char items (DimState dh.1 dh.2 None buf) o = Ok (inr (DimState dh.1 dh.2 (Some o) []))) as E1.
  { unfold dim_char, o. cbn [openSymbol dims hints]. apply Nat.leb_gt in Hd.
    destruct hint; cbn [Ascii.eqb Bool.eqb]; rewrite Hd; reflexivity. }
  cbn [dim_loop]. rewrite E1. cbn [mbind res_bind]. rewrite dim_loop_plain by done. cbn [app dim_loop].
  assert (dim_char items (DimState dh.1 dh.2 (Some o) t) (if hint then ")"%char else "]"%char) =
          Ok (inr (DimState (add_dim hint v dh).1 (add_dim hint v dh).2 None t))) as ->; [|done].
  unfold dim_char, o. cbn [openSymbol dims hints buffer]. apply bstr_eqb_neq in Hne.
  destruct hint; cbn [Ascii.eqb Bool.eqb orb]; rewrite bool_decide_eq_true_2 by done; cbn [negb];
    rewrite Hne, Hr; cbn [mbind res_bind]; by rewrite (proj2 (Z.ltb_ge _ _)) by done.
Qed.

(** The brackets of a name, what they hold and its value. *)
Definition dim_list : Type := list (bool * bstr * Z).

Definition print_dims (l : dim_list) : bstr := mjoin ((fun '(h, t, _) => bracket h t) <$> l).
Definition dims_of (hint : bool) (l : dim_list) : list Z :=
  omap (fun '(h, _, v) => if Bool.eqb h hint then Some v else None) l.

Lemma dims_of_cons hint h t v l :
  dims_of hint ((h, t, v) :: l) = (if Bool.eqb h hint then [v] else []) ++ dims_of hint l.
Proof. unfold dims_of. cbn. by destruct (Bool.eqb h hint). Qed.

Lemma dim_loop_dims items (l : dim_list) (dh : list Z * list Z) buf :
  Forall (fun '(_, t, v) => dim_text t /\ resolveIntInItem t items = Ok v /\ 0 <= v) l ->
  (length (dh.1 ++ dims_of false l) <= MAX_PACK_DIM)%nat -> (length (dh.2 ++ dims_of true l) <= MAX_PACK_DIM)%nat ->
  exists buf', dim_loop items (DimState dh.1 dh.2 None buf) (print_dims l) =
    Ok (inr (DimState (dh.1 ++ dims_of false l) (dh.2 ++ dims_of true l) None buf')).
Proof.
  intros H. revert dh buf. induction H as [|[[h t] v] l (Ht & Hr & Hv) _ IH]; intros dh buf H1 H2.
  - exists buf. cbn. by rewrite !app_nil_r.
  - change (print_dims ((h, t, v) :: l)) with (bracket h t ++ print_dims l).
    rewrite !dims_of_cons in *. rewrite !length_app in H1, H2.
    rewrite (dim_loop_bracket _ _ _ v) by (try done; destruct h; simpl in *; lia).
    destruct (IH (add_dim h v dh) t) as (buf' & ->).
    + rewrite length_app. destruct h; cbn [add_dim fst snd Bool.eqb] in *; rewrite ?length_app; simpl in *; lia.
    + rewrite length_app. destruct h; cbn [add_dim fst snd Bool.eqb] in *; rewrite ?length_app; simpl in *; lia.
    + exists buf'. destruct h; cbn [add_dim fst snd Bool.eqb app]; by rewrite <- !app_assoc.
Qed.

Lemma isolate_plain n rest :
  Forall (fun c => is_bracket c = false) n -> (rest = [] \/ exists c s, rest = c :: s /\ (c = "["%char \/ c = "("%char)) ->
  isolate_name (n ++ rest) = n.
Proof.
  intros H Hr. induction H as [|c n Hc _ IH]; cbn [app isolate_name].
  - destruct Hr as [->|(c & s & -> & [->| ->])]; done.
  - destruct (not_bracket c Hc) as [-> _]. by rewrite IH.
Qed.

Lemma resolve_numeral z items : 0 <= z <= INT_MAX -> resolveIntInItem (to_string z) items = Ok z.
Proof.
  intros Hz. unfold resolveIntInItem, isAllDigit.
  assert (forallb is_digit (to_string z) = true) as ->.
  { apply forallb_forall. unfold to_string. rewrite (proj2 (Z.ltb_ge _ _)) by lia. intros c Hc.
    pose proof (nat_digits_all z) as Ha. rewrite Forall_forall in Ha. apply Ha; [lia|]. by apply list_elem_of_In. }
  rewrite atoi_to_string; [done|]. int_bounds. lia.
Qed.

(** A name with brackets is resolved to the name before them and to the value of
    every bracket, in order: those in square brackets are dimensions, those in round ones
    hints. A bracket holds a numeral, an integer packed before, or a constant. *)
Theorem dims_resolved items item n (l : dim_list) :
  Forall (fun c => is_bracket c = false) n ->
  Forall (fun '(_, t, v) => dim_text t /\ resolveIntInItem t items = Ok v /\ 0 <= v) l ->
  (length (dims_of false l) <= MAX_PACK_DIM)%nat -> (length (dims_of true l) <= MAX_PACK_DIM)%nat ->
  resolveDepInArray items (set_name (n ++ print_dims l) item) =
    Ok (inr (set_name n (set_dims (dims_of false l) (dims_of true l) item))).
Proof.
  intros Hn Hl H1 H2. unfold resolveDepInArray. cbn [name set_name].
  rewrite dim_loop_plain by done. destruct (dim_loop_dims items l ([], []) []) as (buf & E); [done..|].
  cbn [fst snd app] in E. rewrite E. cbn [mbind res_bind dims hints]. rewrite isolate_plain; [done|done|].
  destruct l as [|[[[] t] v] l]; [by left| |]; right; eexists _, _; split; try reflexivity; auto.
Qed.

Lemma dims_resolved_witness :
  let l : dim_list := [(false, lit "n", 3); (true, lit "NAME_LEN", 64)] in
  let before := [PackItem PACK_INT_TYPE (Some (lit "n")) NON_POINTER 3 [] [] []] in
  resolveDepInArray before (set_name (lit "value" ++ print_dims l) zero_item) =
    Ok (inr (set_name (lit "value") (set_dims [3] [64] zero_item))).
Proof.
  cbv zeta.
  apply (dims_resolved [PackItem PACK_INT_TYPE (Some (lit "n")) NON_POINTER 3 [] [] []] zero_item (lit "value")
           [(false, lit "n", 3); (true, lit "NAME_LEN", 64)]).
  - repeat constructor.
  - apply Forall_cons_2; [|apply Forall_cons_2; [|apply Forall_nil_2]].
    + split_and!; [split; [discriminate|repeat constructor]|vm_compute; reflexivity|lia].
    + split_and!; [split; [discriminate|repeat constructor]|vm_compute; reflexivity|lia].
  - unfold MAX_PACK_DIM. simpl. lia.
  - unfold MAX_PACK_DIM. simpl. lia.
Defined.

(** ** Dependent items *)

Lemma skip_to_length x stops s s' : skip_to x stops s = Some s' -> (length s' <= length s)%nat.
Proof.
  induction s as [|c s IH]; cbn [skip_to]; [done|]. destruct (Ascii.eqb c x); [by intros [= <-]|].
  destruct (is_any_of stops c); [done|]. intros H%IH. simpl. lia.
Qed.

Lemma put_not_diverge buf c : put buf c <> Throw Ediverge.
Proof. unfold put. by case_match. Qed.

Lemma copy_pi_not_diverge s pi : copy_pi s pi <> Throw Ediverge.
Proof.
  revert pi. induction s as [|c s IH]; intros pi; cbn [copy_pi]; unfold put;
    repeat (case_match; cbn [mbind res_bind]; simplify_eq; try done).
Qed.

Lemma find_setting_terminates fuel keyVal s buf :
  (length s < fuel)%nat -> find_setting fuel keyVal s buf <> Throw Ediverge.
Proof.
  revert s buf. induction fuel as [|fuel IH]; intros s buf Hf; [lia|]. cbn [find_setting].
  destruct s as [|c s]; [done|]. simpl in Hf. unfold put, format_error.
  destruct (Ascii.eqb c "," || Ascii.eqb c "=").
  - destruct (length buf <? MAX_NAME_LEN)%nat; cbn [mbind res_bind]; [|done].
    destruct (_ || _).
    + destruct (if Ascii.eqb c "," then _ else _) as [t|]; [|done].
      pose proof (copy_pi_not_diverge (drop 1 t) []). destruct (copy_pi (drop 1 t) []); cbn [mbind res_bind]; congruence.
    + destruct (Ascii.eqb c "="); [|apply IH; lia].
      destruct (skip_to ":" (lit ";") s) as [t|] eqn:E; [|done]. apply skip_to_length in E.
      apply IH. rewrite length_drop. lia.
  - destruct (length buf <? MAX_NAME_LEN)%nat; cbn [mbind res_bind]; [apply IH; lia|done].
Qed.

Lemma read_key_not_diverge s buf ended kept : read_key s buf ended kept <> Throw Ediverge.
Proof.
  revert buf ended kept. induction s as [|c s IH]; intros buf ended kept; cbn [read_key]; [by destruct kept|].
  unfold put, format_error. destruct (is_key_space c).
  - destruct (bstr_eqb buf []); [apply IH|].
    destruct ended; cbn [mbind res_bind].
    + destruct (Ascii.eqb c ":"); [by destruct kept|apply IH].
    + destruct (length buf <? MAX_NAME_LEN)%nat; cbn [mbind res_bind]; [|done].
      destruct (Ascii.eqb c ":"); [done|apply IH].
  - destruct (Ascii.eqb c ";"); [done|]. destruct (length buf <? MAX_NAME_LEN)%nat; cbn [mbind res_bind]; [apply IH|done].
Qed.

Lemma find_item_not_diverge n t items : find_item n t items <> Throw Ediverge.
Proof. induction items as [|i items IH]; cbn [find_item]; [done|]. destruct (name i); [by case_match|done]. Qed.

Lemma resolveIntInItem_not_diverge n items : resolveIntInItem n items <> Throw Ediverge.
Proof.
  unfold resolveIntInItem. destruct (isAllDigit n); [done|]. pose proof (find_item_not_diverge n PACK_INT_TYPE items).
  destruct (find_item n PACK_INT_TYPE items); cbn [mbind res_bind]; congruence.
Qed.

(** Resolving what an item depends on returns. *)
Lemma iparseDependent_terminates items item : iparseDependent items item <> Throw Ediverge.
Proof.
  unfold iparseDependent. destruct (typeInx item); try done.
  - unfold resolveStrInItem, format_error. pose proof (find_item_not_diverge (strValue item) PACK_PI_STR_TYPE items).
    destruct (find_item _ _ items) as [[]|]; cbn [mbind res_bind]; congruence.
  - unfold resolveIntDepItem, format_error. destruct (name item) as [n|]; [|done].
    pose proof (read_key_not_diverge n [] false false) as Hk.
    destruct (read_key n [] false false) as [[e|[key rest]]|]; cbn [mbind res_bind]; [done| |congruence].
    pose proof (resolveIntInItem_not_diverge key items) as Hi.
    destruct (resolveIntInItem key items) as [v|]; cbn [mbind res_bind]; [|congruence].
    destruct (v =? SYS_PACK_INSTRUCT_FORMAT_ERR); [done|].
    pose proof (find_setting_terminates (S (length rest)) v rest [] ltac:(lia)) as Hf.
    destruct (find_setting _ v rest []) as [[e|pi]|]; cbn [mbind res_bind]; [done| |congruence].
    apply parse_loop_terminates. lia.
Qed.

(** An item that depends on a string becomes a structure with the instruction that
    string holds. *)
Lemma dependent_resolved before parents item i rest n :
  typeInx item = PACK_DEPENDENT_TYPE -> before = i :: rest -> name i = Some (strValue item) ->
  typeInx i = PACK_PI_STR_TYPE -> strValue i = n ->
  iparseDependent (chain before parents) item = Ok (inr [set_name n (set_type PACK_STRUCT_TYPE item)]).
Proof.
  intros Ht -> Hn Hi <-. unfold iparseDependent, resolveStrInItem. rewrite Ht.
  cbn [chain app find_item]. rewrite Hn, bstr_eqb_refl, bool_decide_eq_true_2 by done. done.
Qed.

(** The instruction of an HDF5 dataset: the key selects the setting. *)
Example hdf5_value :
  let int n v := PackItem PACK_INT_TYPE (Some (lit n)) NON_POINTER v [] [] [] in
  let item := set_name (lit "dclass:3,6,9 = str *value[nvalue]:default= char *value(nvalue)")
                (set_type PACK_INT_DEPENDENT_TYPE zero_item) in
  iparseDependent [int "nvalue"%string 4; int "dclass"%string 6] item =
    Ok (inr [PackItem PACK_STR_TYPE (Some (lit "value[nvalue]")) A_POINTER 0 [] [] []]) /\
  iparseDependent [int "nvalue"%string 4; int "dclass"%string 7] item =
    Ok (inr [PackItem PACK_CHAR_TYPE (Some (lit "value(nvalue)")) A_POINTER 0 [] [] []]) /\
  iparseDependent [int "nvalue"%string 4] item = Ok (inl SYS_PACK_INSTRUCT_FORMAT_ERR).
Proof. cbv zeta. split_and!; vm_compute; reflexivity. Qed.

(** The first item of a structure does not see the integers packed before the structure:
    the walk starts at [prev], which a head has not. *)
Example head_does_not_see_parent :
  let n := PackItem PACK_INT_TYPE (Some (lit "n")) NON_POINTER 3 [] [] [] in
  let parents := [(set_name (lit "Child_PI") (set_type PACK_STRUCT_TYPE zero_item), [n])] in
  let item := set_name (lit "x[n]") zero_item in
  resolveDepInArray (chain [] parents) item = Ok (inl SYS_PACK_INSTRUCT_FORMAT_ERR) /\
  resolveDepInArray (chain [set_name (lit "first") zero_item] parents) item =
    Ok (inr (set_name (lit "x") (set_dims [3] [] zero_item))).
Proof. cbv zeta. split; vm_compute; reflexivity. Qed.
