(* ===== verification/KeyVal.v ===== *)
(** * Keyword-value pairs

    [lib/core/src/rcMisc.cpp]: [keyValPair_t], the conditions every request carries, the
    arrays of indexed pairs, and the property strings made of a [keyValPair_t]. The arrays
    are lists as long as they were allocated, of which [len] entries are in use; an access
    outside of one is undefined. Memory is never exhausted. *)

From stdpp Require Import base list gmap strings fin_maps.
From Stdlib Require Import ZArith Lia Ascii.
From S2P Require Import Prelude Errors.

Definition PTR_ARRAY_MALLOC_LEN : nat := 10.

(** ** The structure *)

(** [keyValPair_t]; an entry may be a null pointer. *)
Record keyValPair : Type := KeyValPair {
  len : nat; keyWord : option (list (option bstr)); value : option (list (option bstr)) }.

Definition zero_kvp : keyValPair := KeyValPair 0 None None.

(** [realloc] to [n] more than are in use, and [memset] of those. *)
Definition grow {A} (zero : A) (n : nat) (l : option (list A)) : option (list A) :=
  Some (take n (from_option id [] l) ++ replicate PTR_ARRAY_MALLOC_LEN zero).

(** An entry, and writing one. *)
Definition entry {A} (l : option (list A)) (i : nat) : res A :=
  match l with
  | Some l => match l !! i with Some a => Ok a | None => Throw Eundef end
  | None => Throw Eundef
  end.

Definition set_entry {A} (l : option (list A)) (i : nat) (a : A) : res (option (list A)) :=
  match l with
  | Some l => if (i <? length l)%nat then Ok (Some (<[i := a]> l)) else Throw Eundef
  | None => Throw Eundef
  end.

(** ** Operations *)

(** The first loop of [addKeyVal] on the entries [js]: the entry the value goes to, and
    whether its keyword is written too. *)
Fixpoint find_slot (js : list nat) (keys : option (list (option bstr))) (k : bstr) : res (option (nat * bool)) :=
  match js with
  | [] => Ok None
  | i :: js' =>
      e ← entry keys i;
      match e with
      | None => Ok (Some (i, true))
      | Some k' =>
          if bstr_eqb k' [] then Ok (Some (i, true))
          else if bstr_eqb k k' then Ok (Some (i, false)) else find_slot js' keys k
      end
  end.

(** [addKeyVal]: the value returned, and the structure. *)
Definition addKeyVal (kv : keyValPair) (k : bstr) (v : option bstr) : res (Z * keyValPair) :=
  let kv := match keyWord kv, value kv with
            | Some _, Some _ => kv
            | _, _ => KeyValPair 0 (keyWord kv) (value kv)
            end in
  slot ← find_slot (seq 0 (len kv)) (keyWord kv) k;
  match slot with
  | Some (i, fresh) =>
      keys ← (if fresh : bool then set_entry (keyWord kv) i (Some k) else Ok (keyWord kv));
      values ← set_entry (value kv) i v;
      Ok (Z.of_nat i, KeyValPair (len kv) keys values)
  | None =>
      let n := len kv in
      let kv := if (n mod PTR_ARRAY_MALLOC_LEN =? 0)%nat
                then KeyValPair n (grow None n (keyWord kv)) (grow None n (value kv)) else kv in
      keys ← set_entry (keyWord kv) n (Some k);
      values ← set_entry (value kv) n v;
      Ok (Z.of_nat n, KeyValPair (S n) keys values)
  end.

(** Comparing with a null keyword is undefined. *)
Fixpoint find_val (js : list nat) (kv : keyValPair) (k : bstr) : res (option bstr) :=
  match js with
  | [] => Ok None
  | i :: js' =>
      e ← entry (keyWord kv) i;
      match e with
      | None => Throw Eundef
      | Some k' => if bstr_eqb k' k then entry (value kv) i else find_val js' kv k
      end
  end.

Definition getValByKey (kv : keyValPair) (k : bstr) : res (option bstr) := find_val (seq 0 (len kv)) kv k.

(** The inner loop of [rmKeyVal]: every entry from [i] up to [n] gets the next one. *)
Fixpoint shift_down {A} (js : list nat) (l : option (list A)) : res (option (list A)) :=
  match js with
  | [] => Ok l
  | j :: js' => a ← entry l (S j); l ← set_entry l j a; shift_down js' l
  end.

Fixpoint rm_loop (js : list nat) (kv : keyValPair) (k : bstr) : res keyValPair :=
  match js with
  | [] => Ok kv
  | i :: js' =>
      e ← entry (keyWord kv) i;
      if bool_decide (e = Some k) then
        let n := (len kv - 1)%nat in
        keys ← shift_down (seq i (n - i)) (keyWord kv);
        values ← shift_down (seq i (n - i)) (value kv);
        Ok (match n with O => zero_kvp | _ => KeyValPair n keys values end)
      else rm_loop js' kv k
  end.

Definition rmKeyVal (kv : keyValPair) (k : bstr) : res keyValPair := rm_loop (seq 0 (len kv)) kv k.

(** The loop of [copyKeyVal] and of [replKeyVal]; [addKeyVal] does not take a null
    keyword. *)
Fixpoint copy_pairs (js : list nat) (src dst : keyValPair) : res keyValPair :=
  match js with
  | [] => Ok dst
  | i :: js' =>
      k ← entry (keyWord src) i;
      v ← entry (value src) i;
      match k with
      | None => Throw Eundef
      | Some k => '(_, dst) ← addKeyVal dst k v; copy_pairs js' src dst
      end
  end.

Definition copyKeyVal (src dst : keyValPair) : res keyValPair := copy_pairs (seq 0 (len src)) src dst.
Definition replKeyVal (src : keyValPair) : res keyValPair := copyKeyVal src zero_kvp.

(** [clearKeyVal] leaves a structure without entries alone. *)
Definition clearKeyVal (kv : keyValPair) : keyValPair := match len kv with O => kv | _ => zero_kvp end.

(** [moveKeyVal]: the destination and the source. *)
Definition moveKeyVal (src : keyValPair) : keyValPair * keyValPair := (src, zero_kvp).

(** ** Indexed pairs *)

(** [inxIvalPair_t] and [inxValPair_t] *)
Record inxPair (V : Type) : Type := InxPair { inx_len : nat; inx : option (list Z); inx_value : option (list V) }.
Arguments InxPair {V} inx_len inx inx_value.
Arguments inx_len {V} i.
Arguments inx {V} i.
Arguments inx_value {V} i.

Definition zero_inx {V} : inxPair V := InxPair 0 None None.

(** [addInxIval] and [addInxVal] *)
Definition addInx {V} (zero : V) (p : inxPair V) (i : Z) (v : V) : res (inxPair V) :=
  let n := inx_len p in
  let p := if (n mod PTR_ARRAY_MALLOC_LEN =? 0)%nat
           then InxPair n (grow 0%Z n (inx p)) (grow zero n (inx_value p)) else p in
  ixs ← set_entry (inx p) n i;
  vs ← set_entry (inx_value p) n v;
  Ok (InxPair (S n) ixs vs).

Definition addInxIval : inxPair Z -> Z -> Z -> res (inxPair Z) := addInx 0%Z.
Definition addInxVal (p : inxPair (option bstr)) (i : Z) (v : bstr) : res (inxPair (option bstr)) := addInx None p i (Some v).

Fixpoint find_inx {V} (js : list nat) (p : inxPair V) (i : Z) : res (Z + V) :=
  match js with
  | [] => Ok (inl UNMATCHED_KEY_OR_INDEX)
  | j :: js' =>
      i' ← entry (inx p) j;
      if (i' =? i)%Z then v ← entry (inx_value p) j; Ok (inr v) else find_inx js' p i
  end.

(** [getIvalByInx]: a code, or the value. *)
Definition getIvalByInx (p : inxPair Z) (i : Z) : res (Z + Z) := find_inx (seq 0 (inx_len p)) p i.

(** [clearInxIval] and [clearInxVal] *)
Definition clearInx {V} (p : inxPair V) : inxPair V := match inx_len p with O => p | _ => zero_inx end.

(** ** What the unpacking allocates *)

(** [unpackPointerItem]: the length of the array for [numPointer] pointers. *)
Definition unpack_alloc_len (numPointer : nat) : nat :=
  let myModu := (numPointer mod PTR_ARRAY_MALLOC_LEN)%nat in
  match myModu with
  | O => numPointer
  | _ => numPointer + PTR_ARRAY_MALLOC_LEN - myModu
  end%nat.

(** ** Property strings *)

(** An entry that is written: a keyword that is neither null nor empty, and a value. *)
Definition written (k v : option bstr) : option (bstr * bstr) :=
  match k, v with
  | Some (c :: k), Some v => Some (c :: k, v)
  | _, _ => None
  end.

Definition property (k v : bstr) : bstr := lit "<" ++ k ++ lit ">" ++ v ++ lit "</" ++ k ++ lit ">" ++ [newline].

(** The loops of [keyValToString]: the bytes to allocate, and the text. *)
Fixpoint property_bytes (js : list nat) (kv : keyValPair) : res nat :=
  match js with
  | [] => Ok 1%nat
  | i :: js' =>
      k ← entry (keyWord kv) i;
      v ← entry (value kv) i;
      n ← property_bytes js' kv;
      Ok (match written k v with
          | Some (k, v) => (1 + length k + 1 + length v + 2 + length k + 1 + 1 + n)%nat
          | None => n
          end)
  end.

Fixpoint property_text (js : list nat) (kv : keyValPair) : res bstr :=
  match js with
  | [] => Ok []
  | i :: js' =>
      k ← entry (keyWord kv) i;
      v ← entry (value kv) i;
      s ← property_text js' kv;
      Ok (match written k v with Some (k, v) => property k v | None => [] end ++ s)
  end.

(** [keyValToString]; more bytes than were allocated are undefined. *)
Definition keyValToString (kv : keyValPair) : res bstr :=
  nBytes ← property_bytes (seq 0 (len kv)) kv;
  s ← property_text (seq 0 (len kv)) kv;
  if (length s <? nBytes)%nat then Ok s else Throw Eundef.

(** Forward to a byte: the index, or [n] and more. *)
Fixpoint skip_until (fuel : nat) (s : bstr) (c : ascii) (index : nat) : nat :=
  match fuel with
  | O => index
  | S fuel =>
      match s !! index with
      | Some c' => if Ascii.eqb c' c then index else skip_until fuel s c (S index)
      | None => index
      end
  end.

(** The text between two indices; behind the text it is undefined. *)
Definition text_between (s : bstr) (a b : nat) : res bstr :=
  if (b <=? length s)%nat then Ok (take (b - a) (drop a s)) else Throw Eundef.

(** The loop of [keyValFromString]: a code, or the structure. [strncmp] on two tags of the
    same length, of which the second may begin behind the text. *)
Fixpoint from_string (fuel : nat) (s : bstr) (index : nat) (kv : keyValPair) : res (Z * keyValPair) :=
  match fuel with
  | O => Throw Ediverge
  | S fuel =>
      let n := length s in
      let index := skip_until n s "<" index in
      if (index =? n)%nat then Ok (0%Z, kv)
      else
        let startTag := S index in
        let endTag := skip_until n s ">" startTag in
        if (endTag =? n)%nat then Ok (0%Z, kv)
        else
          let startValue := S endTag in
          let endValue := skip_until n s "<" startValue in
          if (endValue =? n)%nat then Ok (0%Z, kv)
          else
            let startCloseTag := (endValue + 2)%nat in
            let endCloseTag := skip_until n s ">" startCloseTag in
            if (endCloseTag =? n)%nat then Ok (0%Z, kv)
            else if negb (endTag - startTag =? endCloseTag - startCloseTag)%nat then Ok (UNMATCHED_KEY_OR_INDEX, kv)
            else
              tag ← text_between s startTag endTag;
              closeTag ← (if (endTag =? startTag)%nat then Ok [] else text_between s startCloseTag endCloseTag);
              if negb (bstr_eqb tag closeTag) then Ok (UNMATCHED_KEY_OR_INDEX, kv)
              else
                v ← text_between s startValue endValue;
                '(_, kv) ← addKeyVal kv tag (Some v);
                from_string fuel s endCloseTag kv
  end.

Definition keyValFromString (s : bstr) : res (Z * keyValPair) := from_string (S (length s)) s 0 zero_kvp.

(** ** The pairs a structure holds *)

(** [l] are the entries in use, and the arrays have room up to the next multiple of
    [PTR_ARRAY_MALLOC_LEN]. *)
Definition kv_rep (kv : keyValPair) (l : list (bstr * option bstr)) : Prop :=
  len kv = length l /\
  (l = [] /\ keyWord kv = None /\ value kv = None \/
   l <> [] /\ exists ks vs, keyWord kv = Some ((Some <$> l.*1) ++ ks) /\ value kv = Some (l.*2 ++ vs) /\
     (unpack_alloc_len (length l) <= length l + length ks)%nat /\
     (unpack_alloc_len (length l) <= length l + length vs)%nat).

(** No keyword is empty and none is there twice. *)
Definition keys_ok (l : list (bstr * option bstr)) : Prop := NoDup l.*1 /\ Forall (fun k => k <> []) l.*1.

(** The operations on the pairs themselves. *)
Fixpoint pairs_add (k : bstr) (v : option bstr) (l : list (bstr * option bstr)) : list (bstr * option bstr) :=
  match l with
  | [] => [(k, v)]
  | (k', v') :: l' => if bstr_eqb k' k then (k, v) :: l' else (k', v') :: pairs_add k v l'
  end.

Fixpoint pairs_rm (k : bstr) (l : list (bstr * option bstr)) : list (bstr * option bstr) :=
  match l with
  | [] => []
  | (k', v') :: l' => if bstr_eqb k' k then l' else (k', v') :: pairs_rm k l'
  end.

Fixpoint pairs_get (k : bstr) (l : list (bstr * option bstr)) : option bstr :=
  match l with
  | [] => None
  | (k', v') :: l' => if bstr_eqb k' k then v' else pairs_get k l'
  end.

(** The first pair with a keyword. *)
Lemma pairs_split k (l : list (bstr * option bstr)) :
  (k ∉ l.*1) \/ exists l1 v l2, l = l1 ++ (k, v) :: l2 /\ (k ∉ l1.*1).
Proof.
  induction l as [|[k' v'] l IH]; [left; apply not_elem_of_nil|].
  destruct (decide (k' = k)) as [->|Hne]; [right; exists [], v', l; split; [done|apply not_elem_of_nil]|].
  destruct IH as [IH|(l1 & v & l2 & -> & H)].
  - left. simpl. rewrite not_elem_of_cons. by split.
  - right. exists ((k', v') :: l1), v, l2. split; [done|]. simpl. rewrite not_elem_of_cons. by split.
Qed.

Ltac pairs_induction l :=
  induction l as [|[? ?] l IH]; simpl; intros Hnot; rewrite ?bstr_eqb_refl; try done;
  rewrite not_elem_of_cons in Hnot; destruct Hnot as [Hnot1 Hnot2];
  rewrite (proj2 (bstr_eqb_neq _ _)) by congruence; by rewrite ?IH.

Lemma pairs_add_new k v l : (k ∉ l.*1) -> pairs_add k v l = l ++ [(k, v)].
Proof. pairs_induction l. Qed.
Lemma pairs_add_old k v v' l1 l2 : (k ∉ l1.*1) -> pairs_add k v (l1 ++ (k, v') :: l2) = l1 ++ (k, v) :: l2.
Proof. pairs_induction l1. Qed.
Lemma pairs_rm_new k l : (k ∉ l.*1) -> pairs_rm k l = l.
Proof. pairs_induction l. Qed.
Lemma pairs_rm_old k v l1 l2 : (k ∉ l1.*1) -> pairs_rm k (l1 ++ (k, v) :: l2) = l1 ++ l2.
Proof. pairs_induction l1. Qed.
Lemma pairs_get_new k l : (k ∉ l.*1) -> pairs_get k l = None.
Proof. pairs_induction l. Qed.
Lemma pairs_get_old k v l1 l2 : (k ∉ l1.*1) -> pairs_get k (l1 ++ (k, v) :: l2) = v.
Proof. pairs_induction l1. Qed.

(** *** As a map *)

Definition kv_map (l : list (bstr * option bstr)) : gmap bstr (option bstr) := list_to_map l.

Lemma keys_ok_cons k v l : keys_ok ((k, v) :: l) <-> (k ∉ l.*1) /\ k <> [] /\ keys_ok l.
Proof. unfold keys_ok. simpl. rewrite NoDup_cons, Forall_cons. tauto. Qed.

Lemma kv_map_not_in k l : (k ∉ l.*1) -> kv_map l !! k = None.
Proof. apply not_elem_of_list_to_map_1. Qed.

Lemma pairs_add_keys k v l k' : k' ∈ (pairs_add k v l).*1 <-> k' = k \/ k' ∈ l.*1.
Proof.
  induction l as [|[k1 v1] l IH]; simpl; [rewrite list_elem_of_singleton, elem_of_nil; tauto|].
  destruct (bstr_eqb k1 k) eqn:E; simpl; rewrite !elem_of_cons; [apply bstr_eqb_eq in E; subst; tauto|].
  rewrite IH. tauto.
Qed.

Lemma pairs_rm_keys k l k' : k' ∈ (pairs_rm k l).*1 -> k' ∈ l.*1.
Proof.
  induction l as [|[k1 v1] l IH]; simpl; [done|]. destruct (bstr_eqb k1 k); simpl; rewrite !elem_of_cons; [by right|].
  intros [->|H]; [by left|right; auto].
Qed.

Lemma pairs_add_ok k v l : k <> [] -> keys_ok l -> keys_ok (pairs_add k v l).
Proof.
  intros Hk. induction l as [|[k1 v1] l IH]; intros Hl; simpl.
  - apply keys_ok_cons. split_and!; [apply not_elem_of_nil|done|done].
  - apply keys_ok_cons in Hl as (H1 & H2 & H3). destruct (bstr_eqb k1 k) eqn:E.
    + apply bstr_eqb_eq in E. subst. by apply keys_ok_cons.
    + apply bstr_eqb_neq in E. apply keys_ok_cons. split_and!; [|done|auto]. rewrite pairs_add_keys. intros [?|?]; congruence.
Qed.

Lemma pairs_rm_ok k l : keys_ok l -> keys_ok (pairs_rm k l).
Proof.
  induction l as [|[k1 v1] l IH]; intros Hl; simpl; [done|]. apply keys_ok_cons in Hl as (H1 & H2 & H3).
  destruct (bstr_eqb k1 k); [done|]. apply keys_ok_cons. split_and!; [|done|auto]. by intros ?%pairs_rm_keys.
Qed.

Lemma pairs_add_map k v l : kv_map (pairs_add k v l) = <[k := v]> (kv_map l).
Proof.
  unfold kv_map. induction l as [|[k1 v1] l IH]; simpl; [done|]. destruct (bstr_eqb k1 k) eqn:E; simpl.
  - apply bstr_eqb_eq in E. subst. by rewrite insert_insert_eq.
  - apply bstr_eqb_neq in E. rewrite IH. by rewrite insert_insert_ne.
Qed.

Lemma pairs_rm_map k l : keys_ok l -> kv_map (pairs_rm k l) = delete k (kv_map l).
Proof.
  unfold kv_map. induction l as [|[k1 v1] l IH]; simpl; intros Hl; [by rewrite delete_empty|].
  apply keys_ok_cons in Hl as (H1 & H2 & H3). destruct (bstr_eqb k1 k) eqn:E; simpl.
  - apply bstr_eqb_eq in E. subst. rewrite delete_insert_id; [done|]. by apply not_elem_of_list_to_map_1.
  - apply bstr_eqb_neq in E. rewrite delete_insert_ne by done. by rewrite IH.
Qed.

Lemma pairs_get_map k l : pairs_get k l = mjoin (kv_map l !! k).
Proof.
  unfold kv_map. induction l as [|[k1 v1] l IH]; simpl; [by rewrite lookup_empty|].
  destruct (bstr_eqb k1 k) eqn:E.
  - apply bstr_eqb_eq in E. subst. by rewrite lookup_insert_eq.
  - apply bstr_eqb_neq in E. by rewrite lookup_insert_ne.
Qed.

(** *** The arrays *)

Lemma kv_entries kv l1 k v l2 :
  kv_rep kv (l1 ++ (k, v) :: l2) ->
  entry (keyWord kv) (length l1) = Ok (Some k) /\ entry (value kv) (length l1) = Ok v.
Proof.
  intros (_ & [[H _]|(_ & ks & vs & -> & -> & _)]); [by destruct l1|]. unfold entry.
  rewrite !fmap_app. cbn [fmap list_fmap fst snd]. rewrite <- !app_assoc. cbn [app].
  rewrite !list_lookup_middle by (by rewrite ?length_fmap). done.
Qed.

Lemma find_slot_new kv l1 l2 k :
  kv_rep kv (l1 ++ l2) -> keys_ok l2 -> (k ∉ l2.*1) ->
  find_slot (seq (length l1) (length l2)) (keyWord kv) k = Ok None.
Proof.
  revert l1. induction l2 as [|[k' v'] l2 IH]; intros l1 Hr Hk Hn; [done|]. cbn [length seq find_slot].
  destruct (kv_entries _ _ _ _ _ Hr) as [-> _]. cbn [mbind res_bind].
  apply keys_ok_cons in Hk as (_ & Hne & Hk). simpl in Hn. rewrite not_elem_of_cons in Hn. destruct Hn as [Hn1 Hn2].
  rewrite (proj2 (bstr_eqb_neq k' [])), (proj2 (bstr_eqb_neq k k')) by done.
  specialize (IH (l1 ++ [(k', v')])). rewrite length_app, Nat.add_1_r, <- app_assoc in IH. by apply IH.
Qed.

Lemma find_slot_old kv l1 l2 l3 k v :
  kv_rep kv (l1 ++ l2 ++ (k, v) :: l3) -> keys_ok (l2 ++ (k, v) :: l3) -> (k ∉ l2.*1) ->
  find_slot (seq (length l1) (length (l2 ++ (k, v) :: l3))) (keyWord kv) k = Ok (Some ((length l1 + length l2)%nat, false)).
Proof.
  revert l1. induction l2 as [|[k' v'] l2 IH]; intros l1 Hr Hk Hn; cbn [length seq find_slot app].
  - destruct (kv_entries _ _ _ _ _ Hr) as [-> _]. cbn [mbind res_bind]. apply keys_ok_cons in Hk as (_ & Hne & _).
    rewrite (proj2 (bstr_eqb_neq k [])), bstr_eqb_refl by done. by rewrite Nat.add_0_r.
  - destruct (kv_entries _ _ _ _ _ Hr) as [-> _]. cbn [mbind res_bind].
    apply keys_ok_cons in Hk as (_ & Hne & Hk). simpl in Hn. rewrite not_elem_of_cons in Hn. destruct Hn as [Hn1 Hn2].
    rewrite (proj2 (bstr_eqb_neq k' [])), (proj2 (bstr_eqb_neq k k')) by done.
    specialize (IH (l1 ++ [(k', v')])). rewrite length_app, Nat.add_1_r, <- app_assoc in IH.
    rewrite IH by done. by rewrite Nat.add_succ_r.
Qed.

Lemma set_entry_middle {A} (l : list A) x r a : set_entry (Some (l ++ x :: r)) (length l) a = Ok (Some (l ++ a :: r)).
Proof.
  unfold set_entry. rewrite (proj2 (Nat.ltb_lt _ _)) by (rewrite length_app; simpl; lia).
  f_equal. f_equal. replace (length l) with (length l + 0)%nat by lia. by rewrite insert_app_r.
Qed.

(** Room for one more. *)
Lemma alloc_len_bounds n : (n <= unpack_alloc_len n /\ (n mod PTR_ARRAY_MALLOC_LEN <> 0 -> unpack_alloc_len (S n) <= unpack_alloc_len n))%nat.
Proof.
  unfold unpack_alloc_len, PTR_ARRAY_MALLOC_LEN. pose proof (Nat.div_mod n 10). pose proof (Nat.div_mod (S n) 10).
  pose proof (Nat.mod_upper_bound n 10). pose proof (Nat.mod_upper_bound (S n) 10).
  destruct (n mod 10)%nat eqn:E1, (S n mod 10)%nat eqn:E2; lia.
Qed.

Lemma alloc_len_grow n : (n mod PTR_ARRAY_MALLOC_LEN = 0 -> unpack_alloc_len (S n) = n + PTR_ARRAY_MALLOC_LEN)%nat.
Proof.
  unfold unpack_alloc_len, PTR_ARRAY_MALLOC_LEN. intros H.
  assert (S n mod 10 = 1)%nat as E. { rewrite <- Nat.add_1_r, Nat.Div0.add_mod, H. done. }
  rewrite E. lia.
Qed.

Lemma alloc_len_room n : (n mod PTR_ARRAY_MALLOC_LEN <> 0 -> n < unpack_alloc_len n)%nat.
Proof.
  unfold unpack_alloc_len, PTR_ARRAY_MALLOC_LEN. pose proof (Nat.mod_upper_bound n 10). destruct (n mod 10)%nat; lia.
Qed.

(** What [addKeyVal] does to an array whose entries in use are [p]. *)
Lemma append_entry {A} (zero a : A) (p q : list A) :
  let n := length p in
  (n mod PTR_ARRAY_MALLOC_LEN <> 0 -> unpack_alloc_len n <= n + length q)%nat ->
  exists r, set_entry (if (n mod PTR_ARRAY_MALLOC_LEN =? 0)%nat then grow zero n (Some (p ++ q)) else Some (p ++ q)) n a =
      Ok (Some ((p ++ [a]) ++ r)) /\ (unpack_alloc_len (S n) <= S n + length r)%nat.
Proof.
  cbv zeta. intros Hq. destruct (Nat.eqb_spec (length p mod PTR_ARRAY_MALLOC_LEN) 0) as [E|E].
  - unfold grow. cbn [from_option id]. rewrite take_app_length. change (replicate PTR_ARRAY_MALLOC_LEN zero) with (zero :: replicate 9 zero).
    rewrite set_entry_middle. exists (replicate 9 zero). rewrite <- app_assoc. split; [done|].
    rewrite alloc_len_grow by done. rewrite length_replicate. unfold PTR_ARRAY_MALLOC_LEN. lia.
  - specialize (Hq E). pose proof (alloc_len_room _ E). destruct q as [|x q]; [simpl in Hq; lia|].
    rewrite set_entry_middle. exists q. rewrite <- app_assoc. split; [done|].
    destruct (alloc_len_bounds (length p)) as [_ Hb]. specialize (Hb E). simpl in Hq. lia.
Qed.

(** *** Adding *)

Lemma kv_rep_arrays kv l :
  kv_rep kv l -> match keyWord kv, value kv with
                 | Some _, Some _ => kv
                 | _, _ => KeyValPair 0 (keyWord kv) (value kv)
                 end = kv.
Proof.
  destruct kv as [n ks vs]. intros (Hn & [(-> & H1 & H2)|(_ & ks' & vs' & H1 & H2 & _)]); simpl in *; by subst.
Qed.

(** The arrays of a structure, as [append_entry] takes them. *)
Lemma kv_append kv l k v :
  kv_rep kv l ->
  let n := length l in
  let kv1 := if (n mod PTR_ARRAY_MALLOC_LEN =? 0)%nat
             then KeyValPair n (grow None n (keyWord kv)) (grow None n (value kv)) else kv in
  exists keys values, set_entry (keyWord kv1) n (Some k) = Ok keys /\ set_entry (value kv1) n v = Ok values /\
    kv_rep (KeyValPair (S n) keys values) (l ++ [(k, v)]).
Proof.
  intros (Hn & Hr). cbv zeta.
  assert (exists ks vs, (keyWord kv = Some ((Some <$> l.*1) ++ ks) \/ keyWord kv = None /\ l = [] /\ ks = []) /\
            (value kv = Some (l.*2 ++ vs) \/ value kv = None /\ l = [] /\ vs = []) /\
            (length l mod PTR_ARRAY_MALLOC_LEN <> 0 -> unpack_alloc_len (length l) <= length l + length ks)%nat /\
            (length l mod PTR_ARRAY_MALLOC_LEN <> 0 -> unpack_alloc_len (length l) <= length l + length vs)%nat)
    as (ks & vs & Hk & Hv & Ck & Cv).
  { destruct Hr as [(-> & Hk & Hv)|(_ & ks & vs & Hk & Hv & Ck & Cv)]; [exists [], []|exists ks, vs].
    - split_and!; [by right|by right|done|done].
    - split_and!; [by left|by left|done|done]. }
  destruct (append_entry None (Some k) (Some <$> l.*1) ks) as (r1 & E1 & B1); [by rewrite !length_fmap|].
  destruct (append_entry None v (l.*2) vs) as (r2 & E2 & B2); [by rewrite length_fmap|].
  rewrite !length_fmap in *.
  exists (Some (((Some <$> l.*1) ++ [Some k]) ++ r1)), (Some ((l.*2 ++ [v]) ++ r2)).
  split_and!.
  - rewrite <- E1. destruct Hk as [Hk|(Hk & -> & ->)]; [|done].
    destruct (_ =? 0)%nat; cbn [keyWord]; by rewrite Hk.
  - rewrite <- E2. destruct Hv as [Hv|(Hv & -> & ->)]; [|done].
    destruct (_ =? 0)%nat; cbn [value]; by rewrite Hv.
  - split; [simpl; rewrite length_app; simpl; lia|]. right. split; [by destruct l|].
    exists r1, r2. rewrite length_app, !fmap_app. simpl. rewrite Nat.add_1_r. by split_and!.
Qed.

Lemma kv_rep_update kv l1 k v v' l2 :
  kv_rep kv (l1 ++ (k, v) :: l2) ->
  exists values, set_entry (value kv) (length l1) v' = Ok values /\
    kv_rep (KeyValPair (len kv) (keyWord kv) values) (l1 ++ (k, v') :: l2).
Proof.
  intros (Hn & [[H _]|(Hne & ks & vs & Hk & Hv & Ck & Cv)]); [by destruct l1|].
  exists (Some (l1.*2 ++ v' :: l2.*2 ++ vs)). split.
  - rewrite Hv, fmap_app. cbn [fmap list_fmap snd]. rewrite <- app_assoc. cbn [app].
    rewrite <- (length_fmap snd l1). apply set_entry_middle.
  - split; [simpl; rewrite Hn, !length_app; done|]. right. split; [by destruct l1|]. exists ks, vs.
    rewrite Hk, !fmap_app, !length_app in *. cbn [fmap list_fmap fst snd length] in *. split_and!; [done| |done|done].
    simpl. by rewrite <- app_assoc.
Qed.

(** An entry is written in place, or behind the last one. *)
Lemma addKeyVal_rep kv l k v :
  kv_rep kv l -> keys_ok l ->
  exists i kv', addKeyVal kv k v = Ok (i, kv') /\ kv_rep kv' (pairs_add k v l).
Proof.
  intros Hr Hk. unfold addKeyVal. rewrite (kv_rep_arrays kv l Hr). cbv zeta. pose proof Hr as [Hn _].
  destruct (pairs_split k l) as [Hnew|(l1 & v' & l2 & -> & Hold)].
  - pose proof (find_slot_new kv [] l k Hr Hk Hnew) as E. cbn [length] in E.
    rewrite Hn, E, pairs_add_new by done. cbn [mbind res_bind].
    destruct (kv_append kv l k v Hr) as (keys & values & E1 & E2 & Hr'). rewrite E1. cbn [mbind res_bind].
    rewrite E2. cbn [mbind res_bind]. eauto.
  - pose proof (find_slot_old kv [] l1 l2 k v' Hr Hk Hold) as E. cbn [length Nat.add] in E.
    rewrite Hn, E, pairs_add_old by done. cbn [mbind res_bind].
    destruct (kv_rep_update _ _ _ _ v _ Hr) as (values & E' & Hr'). rewrite E'. cbn [mbind res_bind]. rewrite <- Hn. eauto.
Qed.

Lemma zero_kvp_rep : kv_rep zero_kvp [].
Proof. split; [done|]. by left. Qed.
Lemma keys_ok_nil : keys_ok [].
Proof. split; constructor. Qed.

(** *** Reading *)

Lemma find_val_spec kv l1 l2 k :
  kv_rep kv (l1 ++ l2) -> find_val (seq (length l1) (length l2)) kv k = Ok (pairs_get k l2).
Proof.
  revert l1. induction l2 as [|[k' v'] l2 IH]; intros l1 Hr; [done|]. cbn [length seq find_val pairs_get].
  destruct (kv_entries _ _ _ _ _ Hr) as [-> Hv]. cbn [mbind res_bind].
  destruct (bstr_eqb k' k); [exact Hv|].
  specialize (IH (l1 ++ [(k', v')])). rewrite length_app, Nat.add_1_r, <- app_assoc in IH. by apply IH.
Qed.

Lemma getValByKey_rep kv l k : kv_rep kv l -> getValByKey kv k = Ok (pairs_get k l).
Proof. intros Hr. unfold getValByKey. destruct Hr as [Hn Hr']. rewrite Hn. by apply (find_val_spec kv []). Qed.

(** *** Removing *)

Lemma shift_down_spec {A} (p : list A) x q rest :
  exists y, shift_down (seq (length p) (length q)) (Some (p ++ x :: q ++ rest)) = Ok (Some (p ++ q ++ y :: rest)).
Proof.
  revert p x. induction q as [|a q IH]; intros p x; [by exists x|]. cbn [length seq shift_down].
  assert (entry (Some (p ++ x :: (a :: q) ++ rest)) (S (length p)) = Ok a) as ->.
  { unfold entry. rewrite lookup_app_r by lia. replace (S (length p) - length p)%nat with 1%nat by lia. done. }
  cbn [mbind res_bind]. rewrite set_entry_middle. cbn [mbind res_bind].
  destruct (IH (p ++ [a]) a) as (y & E). exists y.
  rewrite length_app, Nat.add_1_r, <- !app_assoc in E. exact E.
Qed.

Lemma alloc_len_mono n : (unpack_alloc_len n <= unpack_alloc_len (S n))%nat.
Proof.
  unfold unpack_alloc_len, PTR_ARRAY_MALLOC_LEN. pose proof (Nat.div_mod n 10). pose proof (Nat.div_mod (S n) 10).
  pose proof (Nat.mod_upper_bound n 10). pose proof (Nat.mod_upper_bound (S n) 10).
  destruct (n mod 10)%nat eqn:E1, (S n mod 10)%nat eqn:E2; lia.
Qed.

(** Closing the gap. *)
Lemma kv_shift kv l1 k v l2 :
  kv_rep kv (l1 ++ (k, v) :: l2) ->
  exists keys values,
    shift_down (seq (length l1) (length l2)) (keyWord kv) = Ok keys /\
    shift_down (seq (length l1) (length l2)) (value kv) = Ok values /\
    kv_rep (match (length l1 + length l2)%nat with O => zero_kvp | n => KeyValPair n keys values end) (l1 ++ l2).
Proof.
  intros (Hn & [[H _]|(Hne & ks & vs & Hk & Hv & Ck & Cv)]); [by destruct l1|].
  destruct (shift_down_spec (Some <$> l1.*1) (Some k) (Some <$> l2.*1) ks) as (y1 & E1).
  destruct (shift_down_spec (l1.*2) v (l2.*2) vs) as (y2 & E2). rewrite !length_fmap in E1. rewrite ?length_fmap in E2.
  eexists _, _. rewrite Hk, Hv, !fmap_app. cbn [fmap list_fmap fst snd]. rewrite <- !app_assoc. cbn [app].
  rewrite E1, E2. split_and!; [done|done|].
  destruct (length l1 + length l2)%nat as [|n] eqn:E.
  { destruct l1, l2; try done. apply zero_kvp_rep. }
  split; [simpl; rewrite length_app; lia|]. right. split; [by destruct l1, l2|].
  exists (y1 :: ks), (y2 :: vs). rewrite length_app, !fmap_app in *. simpl in *.
  pose proof (alloc_len_mono (length l1 + length l2)) as Hm.
  rewrite Nat.add_succ_r in Ck, Cv. rewrite <- !app_assoc. split_and!; [done|done|lia|lia].
Qed.

Lemma rm_loop_spec kv l1 l2 k :
  kv_rep kv (l1 ++ l2) ->
  exists kv', rm_loop (seq (length l1) (length l2)) kv k = Ok kv' /\ kv_rep kv' (l1 ++ pairs_rm k l2).
Proof.
  revert l1. induction l2 as [|[k' v'] l2 IH]; intros l1 Hr; [by exists kv|]. cbn [length seq rm_loop pairs_rm].
  pose proof (kv_entries _ _ _ _ _ Hr) as [-> _]. cbn [mbind res_bind].
  destruct (bstr_eqb k' k) eqn:E.
  - apply bstr_eqb_eq in E. subst k'. rewrite bool_decide_eq_true_2 by done.
    destruct (kv_shift _ _ _ _ _ Hr) as (keys & values & E1 & E2 & Hr').
    destruct Hr as [Hn _]. rewrite length_app in Hn. simpl in Hn.
    replace (len kv - 1 - length l1)%nat with (length l2) by lia. rewrite E1. cbn [mbind res_bind]. rewrite E2. cbn [mbind res_bind].
    replace (len kv - 1)%nat with (length l1 + length l2)%nat by lia. eexists. split; [done|]. by destruct (length l1 + length l2)%nat.
  - apply bstr_eqb_neq in E. rewrite bool_decide_eq_false_2 by congruence.
    specialize (IH (l1 ++ [(k', v')])). rewrite length_app, Nat.add_1_r, <- !app_assoc in IH. by apply IH.
Qed.

Lemma rmKeyVal_rep kv l k : kv_rep kv l -> exists kv', rmKeyVal kv k = Ok kv' /\ kv_rep kv' (pairs_rm k l).
Proof. intros Hr. unfold rmKeyVal. pose proof Hr as [Hn _]. rewrite Hn. by apply (rm_loop_spec kv []). Qed.

(** *** Copying *)

Definition pairs_copy (src dst : list (bstr * option bstr)) : list (bstr * option bstr) :=
  foldl (fun l '(k, v) => pairs_add k v l) dst src.

Lemma copy_pairs_rep src l1 l2 dst ld :
  kv_rep src (l1 ++ l2) -> keys_ok l2 -> kv_rep dst ld -> keys_ok ld ->
  exists dst', copy_pairs (seq (length l1) (length l2)) src dst = Ok dst' /\ kv_rep dst' (pairs_copy l2 ld) /\
    keys_ok (pairs_copy l2 ld).
Proof.
  revert l1 dst ld. induction l2 as [|[k v] l2 IH]; intros l1 dst ld Hs Hk Hd Hkd; [by exists dst|].
  cbn [length seq copy_pairs]. pose proof (kv_entries _ _ _ _ _ Hs) as [-> ->]. cbn [mbind res_bind].
  apply keys_ok_cons in Hk as (_ & Hne & Hk).
  destruct (addKeyVal_rep dst ld k v Hd Hkd) as (i & dst1 & E & Hd1). rewrite E. cbn [mbind res_bind].
  specialize (IH (l1 ++ [(k, v)]) dst1 (pairs_add k v ld)). rewrite length_app, Nat.add_1_r, <- !app_assoc in IH.
  apply IH; [done|done|done|by apply pairs_add_ok].
Qed.

Lemma copyKeyVal_rep src l dst ld :
  kv_rep src l -> keys_ok l -> kv_rep dst ld -> keys_ok ld ->
  exists dst', copyKeyVal src dst = Ok dst' /\ kv_rep dst' (pairs_copy l ld) /\ keys_ok (pairs_copy l ld).
Proof. intros Hs Hk Hd Hkd. unfold copyKeyVal. pose proof Hs as [-> _]. by apply (copy_pairs_rep src []). Qed.

Lemma pairs_copy_map l ld : NoDup l.*1 -> kv_map (pairs_copy l ld) = kv_map l ∪ kv_map ld.
Proof.
  revert ld. induction l as [|[k v] l IH]; intros ld Hnd.
  - change (pairs_copy [] ld) with ld. change (kv_map []) with (∅ : gmap bstr (option bstr)). by rewrite map_empty_union.
  - apply NoDup_cons in Hnd as [Hk Hnd]. change (pairs_copy ((k, v) :: l) ld) with (pairs_copy l (pairs_add k v ld)).
    rewrite IH, pairs_add_map by done.
    change (kv_map ((k, v) :: l)) with (<[k := v]> (kv_map l)).
    by rewrite <- insert_union_l, insert_union_r by by apply kv_map_not_in.
Qed.

Lemma pairs_copy_nil l : NoDup l.*1 -> pairs_copy l [] = l.
Proof.
  assert (forall l1 l2, NoDup (l1 ++ l2).*1 -> pairs_copy l2 l1 = l1 ++ l2) as H.
  { intros l1 l2. revert l1. induction l2 as [|[k v] l2 IH]; intros l1 Hnd; [by rewrite app_nil_r|].
    change (pairs_copy ((k, v) :: l2) l1) with (pairs_copy l2 (pairs_add k v l1)). rewrite pairs_add_new.
    - rewrite IH; [by rewrite <- app_assoc|]. by rewrite <- app_assoc.
    - rewrite fmap_app in Hnd. apply NoDup_app in Hnd as (_ & Hnd & _). intros Hin. apply (Hnd k Hin). simpl. apply elem_of_cons. by left. }
  intros Hnd. by apply (H []).
Qed.

(** ** Refinement of a map *)

(** A structure that holds a map. *)
Definition kvp_models (kv : keyValPair) (m : gmap bstr (option bstr)) : Prop :=
  exists l, kv_rep kv l /\ keys_ok l /\ kv_map l = m.

(** The operations of the requests' handlers on their conditions. *)
Inductive kv_op : Type :=
| OpAdd (k : bstr) (v : option bstr) | OpRm (k : bstr) | OpRepl | OpClear.

Definition run_op (o : kv_op) (kv : keyValPair) : res keyValPair :=
  match o with
  | OpAdd k v => '(_, kv) ← addKeyVal kv k v; Ok kv
  | OpRm k => rmKeyVal kv k
  | OpRepl => replKeyVal kv
  | OpClear => Ok (clearKeyVal kv)
  end.

Fixpoint run_ops (ops : list kv_op) (kv : keyValPair) : res keyValPair :=
  match ops with
  | [] => Ok kv
  | o :: ops' => kv ← run_op o kv; run_ops ops' kv
  end.

Definition spec_op (o : kv_op) (m : gmap bstr (option bstr)) : gmap bstr (option bstr) :=
  match o with
  | OpAdd k v => <[k := v]> m
  | OpRm k => delete k m
  | OpRepl => m
  | OpClear => ∅
  end.

Definition op_ok (o : kv_op) : Prop := match o with OpAdd k _ => k <> [] | _ => True end.

Lemma run_op_refines o kv m :
  kvp_models kv m -> op_ok o -> exists kv', run_op o kv = Ok kv' /\ kvp_models kv' (spec_op o m).
Proof.
  intros (l & Hr & Hk & <-) Ho. destruct o as [k v|k| |]; cbn [run_op spec_op].
  - destruct (addKeyVal_rep kv l k v Hr Hk) as (i & kv' & -> & Hr'). cbn [mbind res_bind]. exists kv'. split; [done|].
    exists (pairs_add k v l). split_and!; [done|by apply pairs_add_ok|apply pairs_add_map].
  - destruct (rmKeyVal_rep kv l k Hr) as (kv' & -> & Hr'). exists kv'. split; [done|].
    exists (pairs_rm k l). split_and!; [done|by apply pairs_rm_ok|by apply pairs_rm_map].
  - destruct (copyKeyVal_rep kv l zero_kvp [] Hr Hk zero_kvp_rep keys_ok_nil) as (kv' & E & Hr' & Hk').
    exists kv'. split; [done|]. rewrite pairs_copy_nil in Hr', Hk' by apply Hk. by exists l.
  - exists (clearKeyVal kv). split; [done|]. exists []. unfold clearKeyVal. destruct Hr as [Hn Hr].
    destruct (len kv) eqn:E; [|split_and!; [apply zero_kvp_rep|apply keys_ok_nil|done]].
    destruct l; [|done]. split_and!; [|apply keys_ok_nil|done]. split; [by rewrite E|exact Hr].
Qed.

Lemma run_ops_refines ops kv m :
  kvp_models kv m -> Forall op_ok ops ->
  exists kv', run_ops ops kv = Ok kv' /\ kvp_models kv' (foldl (fun m o => spec_op o m) m ops).
Proof.
  intros Hm H. revert kv m Hm. induction H as [|o ops Ho _ IH]; intros kv m Hm; [by exists kv|].
  destruct (run_op_refines o kv m Hm Ho) as (kv1 & E & Hm1). cbn [run_ops foldl]. rewrite E. cbn [mbind res_bind].
  by apply IH.
Qed.

(** The structure that unpacking [l] gives: the arrays are allocated up to the next
    multiple of [PTR_ARRAY_MALLOC_LEN]. *)
Definition unpacked_kvp (l : list (bstr * option bstr)) : keyValPair :=
  match l with
  | [] => zero_kvp
  | _ => let n := length l in
         KeyValPair n (Some ((Some <$> l.*1) ++ replicate (unpack_alloc_len n - n) None))
           (Some (l.*2 ++ replicate (unpack_alloc_len n - n) None))
  end.

Lemma unpacked_kvp_rep l : kv_rep (unpacked_kvp l) l.
Proof.
  destruct l as [|p l]; [apply zero_kvp_rep|]. split; [done|]. right. split; [done|].
  eexists _, _. unfold unpacked_kvp. cbn [keyWord value]. rewrite !length_replicate.
  destruct (alloc_len_bounds (length (p :: l))) as [Hb _]. split_and!; [done|done|lia|lia].
Qed.

(** Whatever sequence of additions, removals, copies and clearings is made of the
    conditions of a request as they were unpacked, no array is ever accessed out of its
    bounds, and a keyword has the value the same sequence gives it in a map. *)
Theorem kvp_refines_map l ops k :
  keys_ok l -> Forall op_ok ops ->
  exists kv, run_ops ops (unpacked_kvp l) = Ok kv /\
    getValByKey kv k = Ok (mjoin (foldl (fun m o => spec_op o m) (kv_map l) ops !! k)).
Proof.
  intros Hl Ho. destruct (run_ops_refines ops (unpacked_kvp l) (kv_map l)) as (kv & E & l' & Hr & _ & <-); [|done|].
  - exists l. split_and!; [apply unpacked_kvp_rep|done|done].
  - exists kv. split; [done|]. by rewrite (getValByKey_rep kv l'), pairs_get_map.
Qed.

Lemma kvp_refines_map_witness :
  exists kv, run_ops [OpAdd (lit "b") (Some (lit "2")); OpRm (lit "a"); OpRepl] (unpacked_kvp [(lit "a", Some (lit "1"))]) = Ok kv /\
    getValByKey kv (lit "b") =
      Ok (mjoin (foldl (fun m o => spec_op o m) (kv_map [(lit "a", Some (lit "1"))])
                   [OpAdd (lit "b") (Some (lit "2")); OpRm (lit "a"); OpRepl] !! (lit "b"))).
Proof.
  apply (kvp_refines_map [(lit "a", Some (lit "1"))] [OpAdd (lit "b") (Some (lit "2")); OpRm (lit "a"); OpRepl] (lit "b")).
  - split; [apply NoDup_singleton|]. apply Forall_cons_2; [discriminate|apply Forall_nil_2].
  - apply Forall_cons_2; [discriminate|]. apply Forall_cons_2; [exact I|]. apply Forall_cons_2; [exact I|apply Forall_nil_2].
Defined.

(** Copying adds the pairs of the source over those of the destination. *)
Lemma copyKeyVal_models src ms dst md :
  kvp_models src ms -> kvp_models dst md ->
  exists dst', copyKeyVal src dst = Ok dst' /\ kvp_models dst' (ms ∪ md).
Proof.
  intros (l & Hr & Hk & <-) (ld & Hrd & Hkd & <-).
  destruct (copyKeyVal_rep src l dst ld Hr Hk Hrd Hkd) as (dst' & E & Hr' & Hk'). exists dst'. split; [done|].
  exists (pairs_copy l ld). split_and!; [done|done|apply pairs_copy_map, Hk].
Qed.

(** A keyword of length zero is a free entry, and the search stops there: a keyword that
    is behind it is added a second time, and outlives its removal. *)
Example empty_keyword_hides_duplicate :
  exists i kv kv', addKeyVal (unpacked_kvp [(lit "", Some (lit "x")); (lit "k", Some (lit "1"))]) (lit "k") (Some (lit "2")) = Ok (i, kv) /\
    getValByKey kv (lit "k") = Ok (Some (lit "2")) /\ rmKeyVal kv (lit "k") = Ok kv' /\
    getValByKey kv' (lit "k") = Ok (Some (lit "1")).
Proof. eexists _, _, _. split_and!; vm_compute; reflexivity. Qed.

(** ** Property strings *)

Definition pair_text (p : bstr * option bstr) : bstr :=
  match written (Some p.1) p.2 with Some (k, v) => property k v | None => [] end.

Definition pairs_text (l : list (bstr * option bstr)) : bstr := mjoin (pair_text <$> l).

Lemma property_length k v : length (property k v) = (2 * length k + length v + 6)%nat.
Proof. unfold property. rewrite !length_app. simpl. lia. Qed.

Lemma property_text_spec kv l1 l2 :
  kv_rep kv (l1 ++ l2) ->
  property_text (seq (length l1) (length l2)) kv = Ok (pairs_text l2) /\
  property_bytes (seq (length l1) (length l2)) kv = Ok (S (length (pairs_text l2))).
Proof.
  revert l1. induction l2 as [|[k v] l2 IH]; intros l1 Hr; [done|].
  cbn [length seq property_text property_bytes]. pose proof (kv_entries _ _ _ _ _ Hr) as [-> ->]. cbn [mbind res_bind].
  specialize (IH (l1 ++ [(k, v)])). rewrite length_app, Nat.add_1_r, <- app_assoc in IH.
  destruct (IH Hr) as [-> ->]. cbn [mbind res_bind].
  change (pairs_text ((k, v) :: l2)) with (pair_text (k, v) ++ pairs_text l2). rewrite length_app.
  split; [done|]. f_equal. unfold pair_text. cbn [fst snd].
  destruct (written (Some k) v) as [[k' v']|]; [rewrite property_length; lia|done].
Qed.

(** The buffer has room for the text and its terminator, exactly. *)
Lemma keyValToString_rep kv l : kv_rep kv l -> keyValToString kv = Ok (pairs_text l).
Proof.
  intros Hr. unfold keyValToString. pose proof Hr as [-> _].
  destruct (property_text_spec kv [] l Hr) as [E1 E2]. cbn [length] in E1, E2. rewrite E2. cbn [mbind res_bind].
  rewrite E1. cbn [mbind res_bind]. by rewrite (proj2 (Nat.ltb_lt _ _)) by lia.
Qed.

Lemma skip_until_found fuel p q c r :
  (length q < fuel)%nat -> Forall (fun x => x <> c) q -> skip_until fuel (p ++ q ++ c :: r) c (length p) = (length p + length q)%nat.
Proof.
  intros Hf Hq. revert fuel p Hf. induction Hq as [|x q Hx _ IH]; intros fuel p Hf; (destruct fuel as [|fuel]; [simpl in Hf; lia|]);
    cbn [skip_until app].
  - rewrite list_lookup_middle by done. rewrite Ascii.eqb_refl. simpl. lia.
  - rewrite list_lookup_middle by done. rewrite (proj2 (Ascii.eqb_neq x c)) by done.
    specialize (IH fuel (p ++ [x])). rewrite length_app, <- app_assoc, Nat.add_1_r in IH. cbn [app] in IH.
    rewrite IH by (simpl in Hf; lia). simpl. lia.
Qed.

Lemma skip_until_end fuel p q c :
  (length q <= fuel)%nat -> Forall (fun x => x <> c) q -> skip_until fuel (p ++ q) c (length p) = length (p ++ q).
Proof.
  intros Hf Hq. revert fuel p Hf. induction Hq as [|x q Hx _ IH]; intros fuel p Hf.
  - rewrite app_nil_r. destruct fuel; [done|]. cbn [skip_until]. by rewrite lookup_ge_None_2.
  - destruct fuel as [|fuel]; [simpl in Hf; lia|]. cbn [skip_until]. rewrite list_lookup_middle by done.
    rewrite (proj2 (Ascii.eqb_neq x c)) by done.
    specialize (IH fuel (p ++ [x])). rewrite length_app, <- app_assoc, Nat.add_1_r in IH. cbn [app] in IH.
    apply IH. simpl in Hf. lia.
Qed.

Lemma text_between_middle p t r : text_between (p ++ t ++ r) (length p) (length p + length t) = Ok t.
Proof.
  unfold text_between. rewrite (proj2 (Nat.leb_le _ _)) by (rewrite !length_app; lia).
  replace (length p + length t - length p)%nat with (length t) by lia. by rewrite drop_app_length, take_app_length.
Qed.

Definition tag_ok (k : bstr) : Prop := Forall (fun c => c <> ">"%char) k.
Definition value_ok (v : bstr) : Prop := Forall (fun c => c <> "<"%char) v.

Lemma from_string_step fuel p gap k v rest kv :
  value_ok gap -> tag_ok k -> value_ok v ->
  let p3 := p ++ gap ++ lit "<" ++ k ++ lit ">" ++ v ++ lit "</" in
  let s := p3 ++ k ++ lit ">" ++ rest in
  from_string (S fuel) s (length p) kv =
    ('(_, kv) ← addKeyVal kv k (Some v); from_string fuel s (length (p3 ++ k)) kv).
Proof.
  intros Hg Hk Hv. cbv zeta. set (p1 := p ++ gap ++ lit "<"). set (p2 := p1 ++ k ++ lit ">"). set (p3 := p2 ++ v ++ lit "</").
  replace (p ++ gap ++ lit "<" ++ k ++ lit ">" ++ v ++ lit "</") with p3 by (unfold p3, p2, p1; by rewrite <- !app_assoc).
  set (s := p3 ++ k ++ lit ">" ++ rest). cbn [from_string].
  assert (s = p ++ gap ++ "<"%char :: k ++ lit ">" ++ v ++ lit "</" ++ k ++ lit ">" ++ rest) as E0
    by (unfold s, p3, p2, p1; by rewrite <- !app_assoc).
  assert (s = p1 ++ k ++ ">"%char :: v ++ lit "</" ++ k ++ lit ">" ++ rest) as E1
    by (unfold s, p3, p2; by rewrite <- !app_assoc).
  assert (s = p2 ++ v ++ "<"%char :: lit "/" ++ k ++ lit ">" ++ rest) as E2 by (unfold s, p3; by rewrite <- !app_assoc).
  assert (s = p3 ++ k ++ ">"%char :: rest) as E3 by done.
  assert (length p1 = S (length p + length gap)) as L1 by (unfold p1; rewrite !length_app; simpl; lia).
  assert (length p2 = S (length p1 + length k)) as L2 by (unfold p2; rewrite !length_app; simpl; lia).
  assert (length p3 = (length p2 + length v + 2)%nat) as L3 by (unfold p3; rewrite !length_app; simpl; lia).
  assert (length s = S (length p3 + length k + length rest)) as Ls by (rewrite E3, !length_app; simpl; lia).
  assert (skip_until (length s) s "<" (length p) = (length p + length gap)%nat) as F0
    by (rewrite E0 at 2; apply skip_until_found; [lia|done]).
  assert (skip_until (length s) s ">" (length p1) = (length p1 + length k)%nat) as F1
    by (rewrite E1 at 2; apply skip_until_found; [lia|done]).
  assert (skip_until (length s) s "<" (length p2) = (length p2 + length v)%nat) as F2
    by (rewrite E2 at 2; apply skip_until_found; [lia|done]).
  assert (skip_until (length s) s ">" (length p3) = (length p3 + length k)%nat) as F3
    by (rewrite E3 at 2; apply skip_until_found; [lia|done]).
  assert (text_between s (length p1) (length p1 + length k) = Ok k) as T1 by (rewrite E1; apply text_between_middle).
  assert (text_between s (length p2) (length p2 + length v) = Ok v) as T2 by (rewrite E2; apply text_between_middle).
  assert (text_between s (length p3) (length p3 + length k) = Ok k) as T3 by (rewrite E3; apply text_between_middle).
  rewrite F0, <- L1, F1, <- L2, F2, <- L3, F3.
  rewrite !(proj2 (Nat.eqb_neq _ (length s))) by lia.
  replace (length p1 + length k - length p1)%nat with (length k) by lia.
  replace (length p3 + length k - length p3)%nat with (length k) by lia. rewrite Nat.eqb_refl. cbn [negb].
  rewrite T1. cbn [mbind res_bind]. rewrite T3, length_app.
  assert ((if (length p1 + length k =? length p1)%nat then Ok [] else Ok k) = Ok k) as ->.
  { destruct (Nat.eqb_spec (length p1 + length k) (length p1)); [|done]. by destruct k; [|simpl in *; lia]. }
  cbn [mbind res_bind]. rewrite bstr_eqb_refl. cbn [negb]. rewrite T2. done.
Qed.

Definition some_values (l : list (bstr * bstr)) : list (bstr * option bstr) := (fun '(k, v) => (k, Some v)) <$> l.

Lemma some_values_keys l : (some_values l).*1 = l.*1.
Proof. unfold some_values. rewrite <- list_fmap_compose. apply list_fmap_ext. by intros ? []. Qed.

Lemma pairs_text_cons k v l : k <> [] -> pairs_text ((k, Some v) :: l) = property k v ++ pairs_text l.
Proof. by destruct k. Qed.

Lemma from_string_spec l fuel p gap kv ld :
  value_ok gap -> Forall (fun '(k, v) => k <> [] /\ tag_ok k /\ value_ok v) l -> (length l < fuel)%nat ->
  kv_rep kv ld -> keys_ok ld ->
  exists kv', from_string fuel (p ++ gap ++ pairs_text (some_values l)) (length p) kv = Ok (0%Z, kv') /\
    kv_rep kv' (pairs_copy (some_values l) ld).
Proof.
  intros Hg Hl. revert fuel p gap kv ld Hg. induction Hl as [|[k v] l (Hne & Hk & Hv) _ IH]; intros fuel p gap kv ld Hg Hf Hr Hkd;
    (destruct fuel as [|fuel]; [simpl in Hf; lia|]).
  - exists kv. split; [|done]. cbn [from_string]. change (pairs_text (some_values [])) with ([] : bstr). rewrite app_nil_r.
    rewrite skip_until_end by (done || rewrite length_app; lia). by rewrite Nat.eqb_refl.
  - change (some_values ((k, v) :: l)) with ((k, Some v) :: some_values l). rewrite pairs_text_cons by done.
    unfold property. set (p3 := p ++ gap ++ lit "<" ++ k ++ lit ">" ++ v ++ lit "</").
    replace (p ++ gap ++ (lit "<" ++ k ++ lit ">" ++ v ++ lit "</" ++ k ++ lit ">" ++ [newline]) ++ pairs_text (some_values l))
      with (p3 ++ k ++ lit ">" ++ [newline] ++ pairs_text (some_values l)) by (unfold p3; by rewrite <- !app_assoc).
    unfold p3. rewrite from_string_step by done. fold p3.
    destruct (addKeyVal_rep kv ld k (Some v) Hr Hkd) as (i & kv1 & -> & Hr1). cbn [mbind res_bind].
    change (pairs_copy ((k, Some v) :: some_values l) ld) with (pairs_copy (some_values l) (pairs_add k (Some v) ld)).
    specialize (IH fuel (p3 ++ k) (lit ">" ++ [newline]) kv1 (pairs_add k (Some v) ld)).
    rewrite <- !app_assoc in IH. apply IH; [by repeat constructor|simpl in Hf; lia|done|by apply pairs_add_ok].
Qed.

(** The property string of a list of pairs is read as the same list, when no keyword
    is empty, occurs twice or has a closing bracket, and no value has an opening one. *)
Theorem property_string_roundtrip l :
  NoDup l.*1 -> Forall (fun '(k, v) => k <> [] /\ tag_ok k /\ value_ok v) l ->
  exists s kv, keyValToString (unpacked_kvp (some_values l)) = Ok s /\ keyValFromString s = Ok (0%Z, kv) /\
    kv_rep kv (some_values l).
Proof.
  intros Hnd Hl. exists (pairs_text (some_values l)). rewrite (keyValToString_rep _ _ (unpacked_kvp_rep _)).
  unfold keyValFromString.
  destruct (from_string_spec l (S (length (pairs_text (some_values l)))) [] [] zero_kvp [])
    as (kv & E & Hr); [constructor|done| |apply zero_kvp_rep|apply keys_ok_nil|].
  - clear Hnd. induction Hl as [|[k v] l (Hne & _) _ IH]; [simpl; lia|].
    change (some_values ((k, v) :: l)) with ((k, Some v) :: some_values l).
    rewrite pairs_text_cons, length_app, property_length by done. simpl. lia.
  - exists kv. split_and!; [done|exact E|]. rewrite pairs_copy_nil in Hr; [done|]. by rewrite some_values_keys.
Qed.

Lemma property_string_roundtrip_witness :
  exists s kv, keyValToString (unpacked_kvp (some_values [(lit "forceFlag", lit ""); (lit "destRescName", lit "demoResc")])) = Ok s /\
    keyValFromString s = Ok (0%Z, kv) /\ kv_rep kv (some_values [(lit "forceFlag", lit ""); (lit "destRescName", lit "demoResc")]).
Proof.
  apply property_string_roundtrip; [by_evaluation|].
  apply Forall_cons_2; [|apply Forall_cons_2; [|apply Forall_nil_2]];
    (split_and!; [discriminate|unfold tag_ok; by_evaluation|unfold value_ok; by_evaluation]).
Defined.

(** A close tag that is cut off behind an empty tag takes the index behind the end of the
    text, where the test for the end no longer holds: the next tag is read and written
    outside of it. *)
Example truncated_close_tag : keyValFromString (lit "<>value<") = Throw Eundef.
Proof. vm_compute. reflexivity. Qed.

(** ** Indexed pairs *)

Definition inx_rep {V} (p : inxPair V) (l : list (Z * V)) : Prop :=
  inx_len p = length l /\
  (l = [] /\ inx p = None /\ inx_value p = None \/
   l <> [] /\ exists ixs vs, inx p = Some (l.*1 ++ ixs) /\ inx_value p = Some (l.*2 ++ vs) /\
     (unpack_alloc_len (length l) <= length l + length ixs)%nat /\
     (unpack_alloc_len (length l) <= length l + length vs)%nat).

(** An array that is absent is one without entries in use. *)
Lemma append_array {A} (zero a : A) (arr : option (list A)) (p : list A) :
  (arr = None /\ p = [] \/ exists q, arr = Some (p ++ q) /\ (unpack_alloc_len (length p) <= length p + length q)%nat) ->
  let n := length p in
  exists r, set_entry (if (n mod PTR_ARRAY_MALLOC_LEN =? 0)%nat then grow zero n arr else arr) n a =
      Ok (Some ((p ++ [a]) ++ r)) /\ (unpack_alloc_len (S n) <= S n + length r)%nat.
Proof.
  intros [(-> & ->)|(q & -> & Hq)] n.
  - destruct (append_entry zero a [] []) as (r & E & Hr); [done|]. by exists r.
  - by apply append_entry.
Qed.

Lemma addInx_rep {V} (zero : V) p l i v :
  inx_rep p l -> exists p', addInx zero p i v = Ok p' /\ inx_rep p' (l ++ [(i, v)]).
Proof.
  intros (Hn & Hr). unfold addInx. cbv zeta. rewrite Hn.
  destruct (append_array 0%Z i (inx p) (l.*1)) as (r1 & E1 & B1).
  { destruct Hr as [(-> & -> & _)|(_ & ixs & vs & -> & _ & C & _)]; [by left|right]. exists ixs. by rewrite length_fmap. }
  destruct (append_array zero v (inx_value p) (l.*2)) as (r2 & E2 & B2).
  { destruct Hr as [(-> & _ & ->)|(_ & ixs & vs & _ & -> & _ & C)]; [by left|right]. exists vs. by rewrite length_fmap. }
  rewrite !length_fmap in *.
  exists (InxPair (S (length l)) (Some ((l.*1 ++ [i]) ++ r1)) (Some ((l.*2 ++ [v]) ++ r2))). split.
  - destruct (length l mod PTR_ARRAY_MALLOC_LEN =? 0)%nat; cbn [inx inx_value]; rewrite E1; cbn [mbind res_bind];
      rewrite E2; done.
  - split; [simpl; rewrite length_app; simpl; lia|]. right. split; [by destruct l|]. exists r1, r2.
    rewrite length_app, !fmap_app, Nat.add_1_r. by split_and!.
Qed.

Fixpoint pairs_first {V} (i : Z) (l : list (Z * V)) : option V :=
  match l with
  | [] => None
  | (i', v) :: l' => if (i' =? i)%Z then Some v else pairs_first i l'
  end.

Lemma inx_entries {V} (p : inxPair V) l1 i v l2 :
  inx_rep p (l1 ++ (i, v) :: l2) -> entry (inx p) (length l1) = Ok i /\ entry (inx_value p) (length l1) = Ok v.
Proof.
  intros (_ & [[H _]|(_ & ixs & vs & -> & -> & _)]); [by destruct l1|]. unfold entry.
  rewrite !fmap_app. cbn [fmap list_fmap fst snd]. rewrite <- !app_assoc. cbn [app].
  rewrite !list_lookup_middle by (by rewrite ?length_fmap). done.
Qed.

Lemma find_inx_spec {V} (p : inxPair V) l1 l2 i :
  inx_rep p (l1 ++ l2) ->
  find_inx (seq (length l1) (length l2)) p i =
    Ok (match pairs_first i l2 with Some v => inr v | None => inl UNMATCHED_KEY_OR_INDEX end).
Proof.
  revert l1. induction l2 as [|[i' v'] l2 IH]; intros l1 Hr; [done|]. cbn [length seq find_inx pairs_first].
  pose proof (inx_entries _ _ _ _ _ Hr) as [-> Hv]. cbn [mbind res_bind].
  destruct (i' =? i)%Z; [by rewrite Hv|].
  specialize (IH (l1 ++ [(i', v')])). rewrite length_app, Nat.add_1_r, <- app_assoc in IH. by apply IH.
Qed.

Fixpoint add_all (l : list (Z * Z)) (p : inxPair Z) : res (inxPair Z) :=
  match l with
  | [] => Ok p
  | (i, v) :: l' => p ← addInxIval p i v; add_all l' p
  end.

(** However many indexed values are added, one after the other, to an empty
    structure, none is written out of bounds, and an index has the first value that was
    added for it, or [UNMATCHED_KEY_OR_INDEX]. *)
Theorem inx_pairs_first l i :
  exists p, add_all l zero_inx = Ok p /\
    getIvalByInx p i = Ok (match pairs_first i l with Some v => inr v | None => inl UNMATCHED_KEY_OR_INDEX end).
Proof.
  assert (forall l2 p l1, inx_rep p l1 -> exists p', add_all l2 p = Ok p' /\ inx_rep p' (l1 ++ l2)) as H.
  { induction l2 as [|[j v] l2 IH]; intros p l1 Hr; [exists p; by rewrite app_nil_r|].
    cbn [add_all]. destruct (addInx_rep 0%Z p l1 j v Hr) as (p1 & E & Hr1). unfold addInxIval. rewrite E. cbn [mbind res_bind].
    destruct (IH p1 _ Hr1) as (p' & E' & Hr'). exists p'. rewrite <- app_assoc in Hr'. by split. }
  destruct (H l zero_inx []) as (p & E & Hr); [by split; [|left]|]. exists p. split; [done|].
  unfold getIvalByInx. pose proof Hr as [-> _]. by apply (find_inx_spec p []).
Qed.
