(* ===== verification/StrArray.v ===== *)
(** * Arrays of strings

    [lib/core/src/rcMisc.cpp]: [strArray_t], one block of memory with the strings at
    multiples of [size], and the multi-strings that are split into one: the strings are
    separated by a percent sign, and two of them stand for one. Sizes are [int]s; memory
    is never exhausted. *)

From stdpp Require Import base list strings.
From Stdlib Require Import ZArith Lia Ascii.
From S2P Require Import Prelude Errors Numerals Resources Quota Pack KeyVal.

(** ** The structure *)

(** [strArray_t]: [sa_size] is 0 for a size that is not positive. *)
Record strArray : Type := StrArray { sa_len : nat; sa_size : nat; sa_value : option bstr }.

Definition zero_array : strArray := StrArray 0 0 None.

(** The C string at an offset. *)
Definition c_string (buf : option bstr) (off : nat) : res bstr :=
  match buf with
  | None => Throw Eundef
  | Some buf =>
      match find_idx (Ascii.eqb NUL) (drop off buf) with
      | Some n => Ok (take n (drop off buf))
      | None => Throw Eundef
      end
  end.

(** A string and its terminator are written at an offset. *)
Definition write_string (buf : bstr) (off : nat) (s : bstr) : res bstr :=
  if (off + length s <? length buf)%nat
  then Ok (take off buf ++ s ++ NUL :: drop (off + length s + 1) buf) else Throw Eundef.

(** A size in bytes, which is an [int]. *)
Definition int_size (n : nat) : res nat := if (Z.of_nat n <=? INT_MAX)%Z then Ok n else Throw Eundef.

(** [while ( size < need ) size *= 2] *)
Fixpoint double_size (fuel size need : nat) : res nat :=
  if (size <? need)%nat then
    match fuel with
    | O => Throw Ediverge
    | S fuel => size ← int_size (size * 2); double_size fuel size need
    end
  else Ok size.

(** The strings at multiples of [oldSize] copied to multiples of [size]. *)
Fixpoint copy_strings (js : list nat) (old : option bstr) (oldSize size : nat) (new : bstr) : res bstr :=
  match js with
  | [] => Ok new
  | i :: js' =>
      s ← c_string old (i * oldSize);
      new ← write_string new (i * size) (rstrcpy s size);
      copy_strings js' old oldSize size new
  end.

(** A block of room for [PTR_ARRAY_MALLOC_LEN] more strings. *)
Definition move_block (a : strArray) (size : nat) : res bstr :=
  n ← int_size ((sa_len a + PTR_ARRAY_MALLOC_LEN) * size);
  copy_strings (seq 0 (sa_len a)) (sa_value a) (sa_size a) size (replicate n NUL).

Definition addStrArray (a : strArray) (v : bstr) : res (Z * strArray) :=
  if (sa_size a =? 0)%nat && negb (sa_len a =? 0)%nat then Ok (SYS_INTERNAL_NULL_INPUT_ERR, a)
  else
    let a := if (sa_size a =? 0)%nat then StrArray (sa_len a) NAME_LEN (sa_value a) else a in
    size ← double_size (S (length v)) (sa_size a) (length v + 1);
    a ← (if negb (size =? sa_size a)%nat || (sa_len a mod PTR_ARRAY_MALLOC_LEN =? 0)%nat
         then new ← move_block a size; Ok (StrArray (sa_len a) size (Some new)) else Ok a);
    match sa_value a with
    | None => Throw Eundef
    | Some buf =>
        buf ← write_string buf (sa_len a * size) (rstrcpy v size);
        Ok (0%Z, StrArray (S (sa_len a)) size (Some buf))
    end.

Definition resizeStrArray (a : strArray) (newSize : nat) : res strArray :=
  if (sa_size a <? newSize)%nat || (sa_len a mod PTR_ARRAY_MALLOC_LEN =? 0)%nat then
    let newSize := Nat.max (sa_size a) newSize in
    new ← move_block a newSize;
    Ok (StrArray (sa_len a) newSize (Some new))
  else Ok a.

(** ** Multi-strings *)

Definition percent : ascii := "%"%char.

(** Up to the next separator: the text, and what is behind it unless the end is reached. *)
Fixpoint next_token (s acc : bstr) : bstr * option bstr :=
  match s with
  | [] => (acc, None)
  | c :: s' =>
      if Ascii.eqb c percent then
        match s' with
        | c' :: s'' => if Ascii.eqb c' percent then next_token s'' (acc ++ [c; c']) else (acc, Some s')
        | [] => (acc, Some s')
        end
      else next_token s' (acc ++ [c])
  end.

Fixpoint tokens (fuel : nat) (s : bstr) : res (list bstr) :=
  match fuel with
  | O => Throw Ediverge
  | S fuel =>
      match next_token s [] with
      | (t, None) => Ok [t]
      | (t, Some rest) => ts ← tokens fuel rest; Ok (t :: ts)
      end
  end.

(** The strings are added one after the other, whatever [addStrArray] returns. *)
Fixpoint add_strings (vs : list bstr) (a : strArray) : res strArray :=
  match vs with
  | [] => Ok a
  | v :: vs' => '(_, a) ← addStrArray a v; add_strings vs' a
  end.

(** [parseMultiStr]: the number of strings, and the array. *)
Definition parseMultiStr (s : bstr) (a : strArray) : res (nat * strArray) :=
  ts ← tokens (S (length s)) s;
  a ← add_strings ts a;
  Ok (sa_len a, a).

(** The loop of [splitMultiStr] that makes one percent sign of two; the byte behind the
    first is skipped, whatever it is. *)
Fixpoint unescape (s : bstr) : res bstr :=
  match s with
  | [] => Ok []
  | c :: s' =>
      if Ascii.eqb c percent then
        match s' with
        | _ :: s'' => r ← unescape s''; Ok (c :: r)
        | [] => Throw Eundef
        end
      else r ← unescape s'; Ok (c :: r)
  end.

Fixpoint unescape_all (ts : list bstr) : res (list bstr) :=
  match ts with
  | [] => Ok []
  | t :: ts' => t ← unescape t; ts ← unescape_all ts'; Ok (t :: ts)
  end.

Definition splitMultiStr (s : bstr) (a : strArray) : res (nat * strArray) :=
  ts ← tokens (S (length s)) s;
  ts ← unescape_all ts;
  a ← add_strings ts a;
  Ok (sa_len a, a).

(** ** The strings of an array *)

(** A string in a block of its own. *)
Definition block (size : nat) (b s : bstr) : Prop :=
  length b = size /\ Forall (fun c => c <> NUL) s /\ exists junk, b = s ++ NUL :: junk.

Definition sa_rep (a : strArray) (l : list bstr) : Prop :=
  sa_len a = length l /\
  (l = [] /\ sa_value a = None /\ sa_size a = O \/
   sa_size a <> O /\ exists bs rest, sa_value a = Some (mjoin bs ++ rest) /\
     Forall2 (block (sa_size a)) bs l /\
     (unpack_alloc_len (length l) * sa_size a <= length l * sa_size a + length rest)%nat).

Lemma block_length size bs l : Forall2 (block size) bs l -> length (mjoin bs) = (length l * size)%nat.
Proof.
  induction 1 as [|b s bs l (Hb & _) _ IH]; [done|].
  change (mjoin (b :: bs)) with (b ++ mjoin bs). rewrite length_app, IH, Hb. simpl. lia.
Qed.

Lemma block_fits size b s : block size b s -> (length s < size)%nat.
Proof. intros (<- & _ & junk & ->). rewrite length_app. simpl. lia. Qed.

Lemma find_terminator s junk : Forall (fun c => c <> NUL) s -> find_idx (Ascii.eqb NUL) (s ++ NUL :: junk) = Some (length s).
Proof.
  induction 1 as [|c s Hc _ IH]; [done|]. cbn [app find_idx length].
  rewrite (proj2 (Ascii.eqb_neq NUL c)) by congruence. by rewrite IH.
Qed.

Lemma c_string_block size p b s r : block size b s -> c_string (Some (p ++ b ++ r)) (length p) = Ok s.
Proof.
  intros (_ & Hs & junk & ->). unfold c_string. rewrite drop_app_length, <- app_assoc. cbn [app].
  by rewrite find_terminator, take_app_length.
Qed.

Lemma write_string_block size p b r s :
  length b = size -> (length s < size)%nat -> Forall (fun c => c <> NUL) s ->
  exists b', write_string (p ++ b ++ r) (length p) s = Ok (p ++ b' ++ r) /\ block size b' s.
Proof.
  intros Hb Hs Hn. unfold write_string.
  rewrite (proj2 (Nat.ltb_lt _ _)) by (rewrite !length_app; lia).
  exists (s ++ NUL :: drop (length s + 1) b). split.
  - rewrite take_app_length, drop_app_ge by lia.
    replace (length p + length s + 1 - length p)%nat with (length s + 1)%nat by lia.
    rewrite drop_app_le by lia. by rewrite <- !app_assoc.
  - split_and!; [|done|by eexists]. rewrite length_app. simpl. rewrite length_drop. lia.
Qed.

(** Strings copied one by one into a fresh block. *)
Lemma copy_strings_spec old oldSize size bs1 bs2 l1 l2 rest nbs zeros :
  Forall2 (block oldSize) bs1 l1 -> Forall2 (block oldSize) bs2 l2 -> old = Some (mjoin bs1 ++ mjoin bs2 ++ rest) ->
  (oldSize <= size)%nat -> Forall2 (block size) nbs l1 -> (length l2 * size <= length zeros)%nat ->
  exists nbs' zeros', copy_strings (seq (length l1) (length l2)) old oldSize size (mjoin nbs ++ zeros) =
      Ok (mjoin nbs' ++ zeros') /\
    Forall2 (block size) nbs' (l1 ++ l2) /\ length zeros = (length l2 * size + length zeros')%nat.
Proof.
  intros H1 H2. revert bs1 l1 nbs zeros H1. induction H2 as [|b s bs2 l2 Hb H2 IH]; intros bs1 l1 nbs zeros H1 Ho Hs Hn Hz.
  - exists nbs, zeros. rewrite app_nil_r. by split_and!.
  - cbn [length seq copy_strings].
    assert (c_string old (length l1 * oldSize) = Ok s) as ->.
    { rewrite Ho, <- (block_length oldSize bs1 l1 H1). change (mjoin (b :: bs2)) with (b ++ mjoin bs2).
      rewrite <- app_assoc. by apply (c_string_block oldSize). }
    cbn [mbind res_bind]. pose proof (block_fits _ _ _ Hb). rewrite rstrcpy_fits by lia.
    cbn [length] in Hz. rewrite <- (take_drop size zeros).
    destruct (write_string_block size (mjoin nbs) (take size zeros) (drop size zeros) s) as (b' & E & Hb').
    { rewrite length_take. lia. } { lia. } { apply Hb. }
    rewrite (block_length size nbs l1 Hn) in E. rewrite E. cbn [mbind res_bind].
    destruct (IH (bs1 ++ [b]) (l1 ++ [s]) (nbs ++ [b']) (drop size zeros)) as (nbs' & zeros' & E' & HF & Hl).
    + apply Forall2_app; [done|]. apply Forall2_cons_2; [done|apply Forall2_nil_2].
    + rewrite Ho. rewrite join_app. change (mjoin (b :: bs2)) with (b ++ mjoin bs2). change (mjoin [b]) with (b ++ []).
      rewrite app_nil_r. by rewrite <- !app_assoc.
    + done.
    + apply Forall2_app; [done|]. apply Forall2_cons_2; [done|apply Forall2_nil_2].
    + rewrite length_drop. lia.
    + rewrite length_app, Nat.add_1_r, join_app in E'. change (mjoin [b']) with (b' ++ []) in E'.
      rewrite app_nil_r, <- !app_assoc in E'. rewrite E'. exists nbs', zeros'. rewrite <- app_assoc in HF.
      split_and!; [done|done|]. rewrite take_drop. rewrite length_drop in Hl. cbn [length]. lia.
Qed.

Lemma int_size_ok n : (Z.of_nat n <= INT_MAX)%Z -> int_size n = Ok n.
Proof. intros H. unfold int_size. by rewrite (proj2 (Z.leb_le _ _) H). Qed.

(** Doubling ends, and stays below twice what is needed. *)
Lemma double_size_ok fuel size need :
  (size <> 0)%nat -> (need <= fuel + size)%nat -> (Z.of_nat (2 * need) <= INT_MAX)%Z ->
  exists r, double_size fuel size need = Ok r /\ (need <= r)%nat /\ (size <= r)%nat /\ (r = size \/ (r <= 2 * need)%nat).
Proof.
  revert size. induction fuel as [|fuel IH]; intros size Hs Hf Hb; cbn [double_size];
    destruct (Nat.ltb_spec size need); [lia|by exists size; split_and!; [| | |left]| |by exists size; split_and!; [| | |left]].
  rewrite int_size_ok by lia. cbn [mbind res_bind].
  destruct (IH (size * 2)%nat) as (r & -> & H1 & H2 & H3); [lia|lia|done|]. exists r. split_and!; [done|lia|lia|right; lia].
Qed.

(** The size an array of [l] works with. *)
Definition current_size (a : strArray) : nat := if (sa_size a =? 0)%nat then NAME_LEN else sa_size a.

Lemma move_block_spec a l size :
  sa_rep a l -> (sa_size a <= size)%nat -> (Z.of_nat ((length l + PTR_ARRAY_MALLOC_LEN) * size) <= INT_MAX)%Z ->
  exists bs rest, move_block a size = Ok (mjoin bs ++ rest) /\ Forall2 (block size) bs l /\
    length rest = (PTR_ARRAY_MALLOC_LEN * size)%nat.
Proof.
  intros (Hn & Hr) Hs Hb. unfold move_block. rewrite Hn, int_size_ok by done. cbn [mbind res_bind].
  set (z := replicate _ NUL). assert (length z = ((length l + PTR_ARRAY_MALLOC_LEN) * size)%nat) as Hz by apply length_replicate.
  destruct Hr as [(-> & _)|(_ & bs & rest & Hv & HF & _)].
  - exists [], z. split_and!; [done|constructor|]. rewrite Hz. simpl. lia.
  - destruct (copy_strings_spec (sa_value a) (sa_size a) size [] bs [] l rest [] z) as (nbs & zeros & E & HF' & Hl);
      [constructor|done|done|done|constructor|lia|].
    exists nbs, zeros. split_and!; [exact E|done|lia].
Qed.

(** The same array with its default size set. *)
Lemma sa_rep_sized a l :
  sa_rep a l -> sa_size a = O -> l = [] /\ sa_len a = O /\ sa_value a = None.
Proof. intros (Hn & [(-> & Hv & _)|(H & _)]) Hs; [|done]. by split_and!. Qed.

(** Behind the blocks there is room for another one. *)
Lemma write_next size bs l rest v cap :
  Forall2 (block size) bs l -> (length v < size)%nat -> Forall (fun c => c <> NUL) v ->
  (length l < cap)%nat -> (cap * size <= length l * size + length rest)%nat ->
  exists bs' rest', write_string (mjoin bs ++ rest) (length l * size) (rstrcpy v size) = Ok (mjoin bs' ++ rest') /\
    Forall2 (block size) bs' (l ++ [v]) /\ length rest = (size + length rest')%nat.
Proof.
  intros HF Hv Hn Hc Hr. assert (size <= length rest)%nat as Hl by nia.
  rewrite rstrcpy_fits by done. rewrite <- (take_drop size rest).
  destruct (write_string_block size (mjoin bs) (take size rest) (drop size rest) v) as (b' & E & Hb);
    [rewrite length_take; lia|done|done|].
  rewrite (block_length size bs l HF) in E. rewrite E. exists (bs ++ [b']), (drop size rest).
  rewrite join_app. change (mjoin [b']) with (b' ++ []). rewrite app_nil_r, <- app_assoc, take_drop. split_and!; [done| |].
  - apply Forall2_app; [done|]. apply Forall2_cons_2; [done|apply Forall2_nil_2].
  - rewrite length_drop. lia.
Qed.

Lemma addStrArray_rep a l v :
  sa_rep a l -> Forall (fun c => c <> NUL) v ->
  (Z.of_nat ((length l + PTR_ARRAY_MALLOC_LEN) * Nat.max (current_size a) (2 * (length v + 1))) <= INT_MAX)%Z ->
  exists a', addStrArray a v = Ok (0%Z, a') /\ sa_rep a' (l ++ [v]) /\
    (sa_size a' <= Nat.max (current_size a) (2 * (length v + 1)))%nat.
Proof.
  intros Hr Hv Hb. set (m := Nat.max _ _) in *. unfold addStrArray.
  assert ((sa_size a =? 0)%nat && negb (sa_len a =? 0)%nat = false) as ->.
  { destruct (Nat.eqb_spec (sa_size a) 0) as [Hs|]; [|done]. by destruct (sa_rep_sized a l Hr Hs) as (_ & -> & _). }
  set (a1 := if (sa_size a =? 0)%nat then _ else a).
  assert (sa_size a1 = current_size a /\ sa_len a1 = length l /\
          (forall size, (sa_size a1 <= size)%nat -> (Z.of_nat ((length l + PTR_ARRAY_MALLOC_LEN) * size) <= INT_MAX)%Z ->
             exists bs rest, move_block a1 size = Ok (mjoin bs ++ rest) /\ Forall2 (block size) bs l /\
               length rest = (PTR_ARRAY_MALLOC_LEN * size)%nat) /\
          (length l mod PTR_ARRAY_MALLOC_LEN <> 0 -> a1 = a)%nat) as (Hs1 & Hl1 & Hm & Ha).
  { unfold a1, current_size. destruct (Nat.eqb_spec (sa_size a) 0) as [Hs|Hs].
    - destruct (sa_rep_sized a l Hr Hs) as (-> & Hn & Hnone). rewrite Hn, Hnone. split_and!; [done|done| |by intros ?].
      intros size _ Hsz. unfold move_block. cbn [sa_len sa_value sa_size]. rewrite int_size_ok by done. cbn.
      eexists [], _. split_and!; [done|constructor|]. by rewrite length_replicate.
    - destruct Hr as (Hn & Hr). split_and!; [done|done| |done]. intros size H1 H2. apply move_block_spec; [by split|done|done]. }
  assert (current_size a <> 0)%nat as Hc0 by (unfold current_size, NAME_LEN; destruct (Nat.eqb_spec (sa_size a) 0); lia).
  destruct (double_size_ok (S (length v)) (sa_size a1) (length v + 1)) as (size & E & H1 & H2 & H3).
  { lia. } { lia. } { unfold m, PTR_ARRAY_MALLOC_LEN in Hb. nia. }
  rewrite E. cbn [mbind res_bind]. rewrite Hs1, Hl1 in *.
  assert (size <= m)%nat as Hsm by (unfold m; lia).
  assert (Z.of_nat ((length l + PTR_ARRAY_MALLOC_LEN) * size) <= INT_MAX)%Z as Hbs by nia.
  destruct (negb (size =? current_size a)%nat || (length l mod PTR_ARRAY_MALLOC_LEN =? 0)%nat) eqn:Ec.
  - destruct (Hm size H2 Hbs) as (bs & rest & -> & HF & Hlr). cbn [mbind res_bind sa_value sa_len].
    destruct (write_next size bs l rest v (length l + PTR_ARRAY_MALLOC_LEN)) as (bs' & rest' & -> & HF' & Hl');
      [done|lia|done|unfold PTR_ARRAY_MALLOC_LEN; lia|rewrite Hlr; lia|]. cbn [mbind res_bind].
    eexists. split; [done|]. split; [|exact Hsm]. split; [simpl; rewrite length_app; simpl; lia|]. right. split; [simpl; lia|].
    exists bs', rest'. split_and!; [done|done|]. cbn [sa_size]. rewrite length_app. cbn [length]. rewrite Nat.add_1_r.
    assert (unpack_alloc_len (S (length l)) <= length l + PTR_ARRAY_MALLOC_LEN)%nat as Hcap.
    { destruct (decide (length l mod PTR_ARRAY_MALLOC_LEN = 0)%nat) as [E0|E0]; [by rewrite alloc_len_grow|].
      destruct (alloc_len_bounds (length l)) as [_ Hg]. specialize (Hg E0).
      pose proof (Nat.mod_upper_bound (length l) 10). unfold unpack_alloc_len, PTR_ARRAY_MALLOC_LEN in *.
      destruct (length l mod 10)%nat; lia. }
    nia.
  - apply orb_false_iff in Ec as [Ec1 Ec2]. apply negb_false_iff, Nat.eqb_eq in Ec1. apply Nat.eqb_neq in Ec2.
    rewrite (Ha Ec2) in *. cbn [mbind res_bind]. destruct Hr as (Hn & [(-> & _)|(Hs & bs & rest & -> & HF & Hcap)]); [done|].
    assert (size = sa_size a) as -> by (rewrite Ec1, <- Hs1; done).
    pose proof (alloc_len_room _ Ec2).
    destruct (write_next (sa_size a) bs l rest v (unpack_alloc_len (length l))) as (bs' & rest' & E' & HF' & Hl');
      [done|lia|done|done|done|].
    rewrite Hl1, E'. cbn [mbind res_bind]. eexists. split; [done|]. split; [|exact Hsm].
    split; [simpl; rewrite length_app; simpl; lia|]. right. split; [done|]. exists bs', rest'. split_and!; [done|done|].
    cbn [sa_size]. rewrite length_app. cbn [length]. rewrite Nat.add_1_r.
    destruct (alloc_len_bounds (length l)) as [_ Hg]. specialize (Hg Ec2). nia.
Qed.

Lemma add_strings_rep vs a l m :
  sa_rep a l -> (32 <= m)%nat -> (current_size a <= 2 * m)%nat ->
  Forall (fun v => Forall (fun c => c <> NUL) v /\ (length v < m)%nat) vs ->
  (Z.of_nat ((length l + length vs + PTR_ARRAY_MALLOC_LEN) * (2 * m)) <= INT_MAX)%Z ->
  exists a', add_strings vs a = Ok a' /\ sa_rep a' (l ++ vs).
Proof.
  intros Hr Hm Hc Hvs. revert a l Hr Hc. induction Hvs as [|v vs (Hv & Hl) _ IH]; intros a l Hr Hc Hb.
  - exists a. by rewrite app_nil_r.
  - cbn [add_strings length] in *.
    destruct (addStrArray_rep a l v Hr Hv) as (a1 & E & Hr1 & Hs1); [nia|]. rewrite E. cbn [mbind res_bind].
    destruct (IH a1 (l ++ [v]) Hr1) as (a' & E' & Hr').
    + unfold current_size, NAME_LEN. destruct (Nat.eqb_spec (sa_size a1) 0); lia.
    + rewrite length_app. cbn [length]. nia.
    + exists a'. rewrite <- app_assoc in Hr'. by split.
Qed.

(** Every string is where the readers of the array look for it. *)
Lemma sa_rep_get a l i s : sa_rep a l -> l !! i = Some s -> c_string (sa_value a) (i * sa_size a) = Ok s.
Proof.
  intros (_ & [(-> & _)|(_ & bs & rest & -> & HF & _)]) Hi; [done|].
  apply list_elem_of_split_length in Hi as (l1 & l2 & -> & ->).
  apply Forall2_app_inv_r in HF as (bs1 & bs2 & HF1 & HF2 & ->). apply Forall2_cons_inv_r in HF2 as (b & bs3 & Hb & _ & ->).
  rewrite join_app, <- (block_length _ _ _ HF1), <- app_assoc. change (mjoin (b :: bs3)) with (b ++ mjoin bs3).
  rewrite <- app_assoc. by apply (c_string_block (sa_size a)).
Qed.

(** ** Multi-strings *)

Definition escape (s : bstr) : bstr := mjoin ((fun c => if Ascii.eqb c percent then [c; c] else [c]) <$> s).

Fixpoint join_multi (l : list bstr) : bstr :=
  match l with
  | [] => []
  | [s] => escape s
  | s :: l' => escape s ++ percent :: join_multi l'
  end.

Lemma escape_cons c s : escape (c :: s) = (if Ascii.eqb c percent then [c; c] else [c]) ++ escape s.
Proof. reflexivity. Qed.

Lemma next_token_escape s rest acc : next_token (escape s ++ rest) acc = next_token rest (acc ++ escape s).
Proof.
  revert acc. induction s as [|c s IH]; intros acc; [by rewrite app_nil_r|]. rewrite escape_cons.
  destruct (Ascii.eqb c percent) eqn:E; cbn [app next_token]; rewrite E, IH, <- app_assoc; done.
Qed.

Lemma unescape_escape s : unescape (escape s) = Ok s.
Proof.
  induction s as [|c s IH]; [done|]. rewrite escape_cons.
  destruct (Ascii.eqb c percent) eqn:E; cbn [app unescape]; rewrite E, IH; done.
Qed.

(** A string that can follow a separator. *)
Definition follows (s : bstr) : Prop := exists c s', s = c :: s' /\ c <> percent.

Lemma join_multi_head s l : follows s -> exists c r, join_multi (s :: l) = c :: r /\ c <> percent.
Proof.
  intros (c & s' & -> & Hc). apply Ascii.eqb_neq in Hc as Hc'.
  destruct l; cbn [join_multi]; rewrite escape_cons, Hc'; cbn [app]; eauto.
Qed.

Lemma tokens_join s l fuel :
  Forall follows l -> (length l < fuel)%nat -> tokens fuel (join_multi (s :: l)) = Ok (escape <$> s :: l).
Proof.
  intros Hl. revert s fuel. induction Hl as [|s2 l Hs2 _ IH]; intros s fuel Hf; (destruct fuel as [|fuel]; [simpl in Hf; lia|]);
    cbn [tokens].
  - cbn [join_multi]. rewrite <- (app_nil_r (escape s)), next_token_escape. done.
  - change (join_multi (s :: s2 :: l)) with (escape s ++ percent :: join_multi (s2 :: l)). rewrite next_token_escape.
    destruct (join_multi_head s2 l Hs2) as (c & r & E & Hc). specialize (IH s2 fuel). rewrite E in *. cbn [next_token].
    rewrite Ascii.eqb_refl, (proj2 (Ascii.eqb_neq c percent)) by done. cbn [app].
    rewrite IH by (simpl in Hf; lia). done.
Qed.

Lemma join_multi_length s l : (length l <= length (join_multi (s :: l)))%nat.
Proof.
  revert s. induction l as [|s2 l IH]; intros s; [simpl; lia|].
  change (join_multi (s :: s2 :: l)) with (escape s ++ percent :: join_multi (s2 :: l)).
  rewrite length_app. specialize (IH s2). simpl in *. lia.
Qed.

Lemma unescape_escapes l : unescape_all (escape <$> l) = Ok l.
Proof. induction l as [|s l IH]; [done|]. cbn [fmap list_fmap unescape_all]. rewrite unescape_escape. cbn [mbind res_bind]. by rewrite IH. Qed.

(** The strings that are joined with a percent sign, those in them doubled, are split
    into the same strings, at their places in the array, when all but the first begin with
    another byte; the sizes are within an [int]. *)
Theorem multi_string_roundtrip s l m :
  Forall follows l -> (32 <= m)%nat ->
  Forall (fun v => Forall (fun c => c <> NUL) v /\ (length v < m)%nat) (s :: l) ->
  (Z.of_nat ((length l + 11) * (2 * m)) <= INT_MAX)%Z ->
  exists a, splitMultiStr (join_multi (s :: l)) zero_array = Ok (S (length l), a) /\
    forall i t, (s :: l) !! i = Some t -> c_string (sa_value a) (i * sa_size a) = Ok t.
Proof.
  intros Hl Hm Hv Hb. unfold splitMultiStr. pose proof (join_multi_length s l).
  rewrite tokens_join by (done || lia). cbn [mbind res_bind]. rewrite unescape_escapes. cbn [mbind res_bind].
  destruct (add_strings_rep (s :: l) zero_array [] m) as (a & E & Hr).
  - split; [done|]. by left.
  - done.
  - unfold current_size, NAME_LEN. simpl. lia.
  - done.
  - unfold PTR_ARRAY_MALLOC_LEN. cbn [length]. replace (0 + S (length l) + 10)%nat with (length l + 11)%nat by lia. done.
  - rewrite E. cbn [mbind res_bind]. exists a. destruct Hr as [Hn Hr]. split; [by rewrite Hn|].
    intros i t. apply sa_rep_get. by split.
Qed.

Lemma multi_string_roundtrip_witness :
  exists a, splitMultiStr (join_multi [lit "*x=50%"; lit "*y=2"]) zero_array = Ok (2%nat, a) /\
    forall i t, [lit "*x=50%"; lit "*y=2"] !! i = Some t -> c_string (sa_value a) (i * sa_size a) = Ok t.
Proof.
  apply (multi_string_roundtrip (lit "*x=50%") [lit "*y=2"] 32).
  - apply Forall_cons_2; [|apply Forall_nil_2]. eexists _, _. split; [reflexivity|discriminate].
  - lia.
  - apply Forall_cons_2; [|apply Forall_cons_2; [|apply Forall_nil_2]]; (split; [by_evaluation|simpl; lia]).
  - vm_compute. discriminate.
Defined.

(** A string that begins with a percent sign cannot follow a separator: two lists have the
    same multi-string. *)
Example multi_string_ambiguous : join_multi [lit "a"; lit "%b"] = join_multi [lit "a%"; lit "b"].
Proof. reflexivity. Qed.
