(* ===== verification/Delay.v ===== *)
(** * Delayed rules

    [lib/core/src/rcMisc.cpp] and [server/delay_server/src/irodsDelayServer.cpp]: the
    times of a delayed rule ([checkDateFormat], [convertDateFormat], [getOffsetTimeStr]),
    the directives that say when it is run again ([getNextRepeatTime]) and what the delay
    server does with its entry ([update_entry_for_repeat]).

    A string that is changed in place is a result. [mktime] depends on the time zone and
    is a parameter, as is the current time. The theorems need no property of [mktime]. *)

From stdpp Require Import base list strings.
From Stdlib Require Import ZArith Lia Ascii.
From S2P Require Import Prelude Errors Numerals Resources Quota Pack KeyVal.
Local Open Scope Z_scope.

Definition TIME_LEN : nat := 32.

(** ** Numbers *)

(** [atol]: [strtol] with its saturation. *)
Definition atol (s : bstr) : Z :=
  let s := skip_spaces s in
  let '(neg, s) := match s with
                   | c :: s' => if Ascii.eqb c "-" then (true, s')
                                else if Ascii.eqb c "+" then (false, s') else (false, s)
                   | [] => (false, s)
                   end in
  let v := (read_digits 0 0 s).1 in
  Z.max (- 2 ^ 63) (Z.min (2 ^ 63 - 1) (if neg : bool then - v else v)).

(** Arithmetic of [rodsLong_t]. *)
Definition long_range (z : Z) : res Z :=
  if (LONG_MIN <=? z) && (z <=? LONG_MAX) then Ok z else Throw Eundef.

Definition isInteger (s : bstr) : bool := forallb is_digit s.

(** ** Dates *)

(** The arguments of [mktime]: year, month, day, hour, minute, second as they are in the
    text, and the seconds since the epoch. *)
Class Mktime := mktime : Z -> Z -> Z -> Z -> Z -> Z -> Z.

(** [(uint)] printed with [%d]. *)
Definition print_uint_as_int (z : Z) : bstr := to_string (to_int (z mod 2 ^ 32)).

Section dates.
Context {MT : Mktime}.

(** [localToUnixTime] on a text of at least 19 bytes. [sizeof] counts bytes, so it is never
    64. *)
Definition localToUnixTime (s : bstr) : bstr :=
  let field a n := atoi (slice s a n) in
  print_uint_as_int (mktime (field 0%nat 4%nat) (field 5%nat 2%nat) (field 8%nat 2%nat)
                       (field 11%nat 2%nat) (field 14%nat 2%nat) (field 17%nat 2%nat)).

(** The places of an offset, from its end: a digit and what it counts, or a separator. *)
Inductive place : Type := Digit (seconds : Z) | Separator (c : ascii).

Definition places : list place :=
  [Digit 10; Separator ":"; Digit 60; Digit (10 * 60); Separator ":"; Digit 3600; Digit (10 * 3600);
   Separator "."; Digit (24 * 3600); Digit (10 * 24 * 3600)].

(** The body of the loop behind its first digit; [r] is the text before the place, from
    its end. A code, or the offset and, unless the loop is left, where it stands. *)
Fixpoint read_places (ps : list place) (r : bstr) (offset : Z) : Z + Z * option bstr :=
  match ps with
  | [] => inr (offset, Some r)
  | p :: ps' =>
      let r := tail r in
      match p, r with
      | Digit _, [] => inr (offset, None)
      | Digit w, c :: _ => if is_digit c then read_places ps' r (offset + w * (uchar c - 48)) else inl DATE_FORMAT_ERR
      | Separator x, c :: _ => if Ascii.eqb c x then read_places ps' r offset else inl DATE_FORMAT_ERR
      | Separator _, [] => read_places ps' r offset
      end
  end.

(** The loop: the place it stands at is read again as seconds. *)
Fixpoint read_offset (fuel : nat) (r : bstr) (offset : Z) : res (Z + Z) :=
  match fuel with
  | O => Throw Ediverge
  | S fuel =>
      match r with
      | [] => Ok (inr offset)
      | c :: _ =>
          if negb (is_digit c) then Ok (inl DATE_FORMAT_ERR)
          else
            match read_places places r (offset + (uchar c - 48)) with
            | inl e => Ok (inl e)
            | inr (offset, None) => Ok (inr offset)
            | inr (offset, Some r) => read_offset fuel r offset
            end
      end
  end.

Definition date_template : bstr := lit "0000-00-00.00:00:00".

(** What a unit counts. *)
Definition unit_seconds (u : ascii) : option Z :=
  if Ascii.eqb u "s" then Some 1 else if Ascii.eqb u "m" then Some 60
  else if Ascii.eqb u "h" then Some 3600 else if Ascii.eqb u "d" then Some (3600 * 24)
  else if Ascii.eqb u "y" then Some (3600 * 24 * 365) else None.

(** The bytes of a date that are digits, and the others. *)
Definition full_date (s : bstr) : bool :=
  forallb (fun i => from_option is_digit false (s !! i)) [0; 1; 2; 3; 5; 6; 8; 9; 11; 12; 14; 15; 17; 18]%nat &&
  forallb (fun p => bool_decide (s !! p.1 = Some p.2))
    [(4%nat, "-"%char); (7%nat, "-"%char); (10%nat, "."%char); (13%nat, ":"%char); (16%nat, ":"%char)].

(** [checkDateFormat]: the status, and the text. *)
Definition checkDateFormat (s : bstr) : res (Z * bstr) :=
  if isInteger s then Ok (0, s)
  else
    match last s with
    | None => Ok (0, s)
    | Some u =>
        match unit_seconds u with
        | Some w =>
            offset ← int_range (atoi (removelast s) * w);
            Ok (0, rstrcpy (to_string offset) 19)
        | None =>
            if (length s <? 19)%nat && negb (forallb (fun i => from_option is_digit false (s !! i)) [0; 1; 2; 3]%nat) then
              r ← read_offset (S (length s)) (rev s) 0;
              match r with
              | inl e => Ok (e, s)
              | inr offset => Ok (0, rstrcpy (to_string offset) 19)
              end
            else
              let s := if (length s <? 19)%nat then s ++ drop (length s) date_template else s in
              if full_date s then Ok (0, rstrcpy (localToUnixTime s) TIME_LEN) else Ok (DATE_FORMAT_ERR, s)
        end
    end.

Definition has (c : ascii) (s : bstr) : bool := existsb (Ascii.eqb c) s.

(** [convertDateFormat]: the status, and the text. *)
Definition convertDateFormat (s currTime : bstr) : res (Z * bstr) :=
  '(i, tstr) ← checkDateFormat (rstrcpy s 199);
  if negb (i =? 0) then Ok (i, s)
  else if negb (isInteger s) && negb (has "-" s) && negb (has ":" s) then
    it ← long_range (atol tstr + atol currTime); Ok (0, to_string it)
  else Ok (0, tstr).

(** ** Directives *)

(** The run of digits at the front, and the rest. *)
Fixpoint split_digits (s : bstr) : bstr * bstr :=
  match s with
  | c :: s' => if is_digit c then let '(d, r) := split_digits s' in (c :: d, r) else ([], s)
  | [] => ([], [])
  end.

(** What is behind the first place of a text in another, without leading spaces. *)
Definition behind (t directive : bstr) : option bstr :=
  match strstr t directive with
  | Some i => Some (skip_spaces (drop (i + length directive) t))
  | None => None
  end.

(** [delayStr] has room for [delayLen] bytes. *)
Definition store (delayLen : nat) (s : bstr) : res bstr := if (length s <? delayLen)%nat then Ok s else Throw Eundef.

(** "[it][u] DIRECTIVE" *)
Definition delay_text (it : Z) (u : ascii) (directive : bstr) : bstr := to_string it ++ [u] ++ lit " " ++ directive.

(** The directives with a number of times: the number is counted down. [tstr] ends at the
    digits, and what was behind them is looked at; when there was nothing, the bytes behind
    the terminator were never written. *)
Definition count_down (delayLen : nat) (it : Z) (u : ascii) (directive s : bstr) : res (Z * bstr) :=
  let '(digits, rest) := split_digits (rstrcpy s 200) in
  match rest with
  | [] => Throw Eundef
  | _ :: rest =>
      n ← int_range (atoi digits - 1);
      n1 ← (match strstr rest (lit "ORIGINAL TIMES") with Some _ => Ok n | None => int_range (n + 1) end);
      delayStr ← store delayLen
        (delay_text it u (directive ++ to_string n ++
           match strstr rest (lit "ORIGINAL TIMES") with
           | Some _ => lit " " ++ rest
           | None => lit " TIMES. ORIGINAL TIMES=" ++ to_string n1
           end));
      Ok (n, delayStr)
  end.

(** The time a directive ends at. *)
Definition until_time (s currTime : bstr) : res (Z * bstr) :=
  '(_, tstr) ← convertDateFormat (rstrcpy s 200) currTime; Ok (atol tstr, tstr).

(** [getNextRepeatTime]: the action, the delay and the next time, if they are written.
    [sprintf] of a part of [delayStr] to [delayStr] itself is undefined. *)
Definition getNextRepeatTime (delayLen : nat) (currTime delayStr : bstr) : res (Z * bstr * option bstr) :=
  let '(digits, t) := split_digits delayStr in
  match t with
  | [] => Throw Eundef
  | u :: t =>
      let it := atol digits in
      dt ← long_range (it * from_option id 1 (unit_seconds u));
      let t := skip_spaces t in
      let next k := dt ← long_range (dt + atol currTime); k dt (Some (to_string dt)) in
      let twice k := it2 ← long_range (it * 2); k it2 in
      if bstr_eqb t [] || bstr_eqb t (lit "REPEAT FOR EVER") then next (fun _ nt => Ok (0, delayStr, nt))
      else if bstr_eqb t (lit "DOUBLE FOR EVER") then
        next (fun _ nt => twice (fun it2 => d ← store delayLen (delay_text it2 u (lit "DOUBLE FOR EVER")); Ok (3, d, nt)))
      else match behind t (lit "REPEAT UNTIL SUCCESS OR UNTIL ") with
      | Some s =>
          '(e, _) ← until_time s currTime;
          next (fun dt nt => Ok (if e <? dt then 2 else 1, delayStr, nt))
      | None =>
      match behind t (lit "DOUBLE UNTIL SUCCESS OR UNTIL ") with
      | Some s => Throw Eundef
      | None =>
      match behind t (lit "REPEAT UNTIL SUCCESS OR ") with
      | Some s => next (fun _ nt =>
          '(n, d) ← count_down delayLen it u (lit "REPEAT UNTIL SUCCESS OR ") s; Ok (if n <=? 0 then 2 else 4, d, nt))
      | None =>
      match behind t (lit "DOUBLE UNTIL SUCCESS OR ") with
      | Some s => next (fun _ nt => twice (fun it2 =>
          '(n, d) ← count_down delayLen it2 u (lit "DOUBLE UNTIL SUCCESS OR ") s; Ok (if n <=? 0 then 2 else 4, d, nt)))
      | None =>
      match behind t (lit "DOUBLE UNTIL SUCCESS UPTO ") with
      | Some s => Throw Eundef
      | None =>
      match strstr t (lit "REPEAT UNTIL SUCCESS") with
      | Some _ => next (fun _ nt => Ok (1, delayStr, nt))
      | None =>
      match strstr t (lit "DOUBLE UNTIL SUCCESS") with
      | Some _ => next (fun _ nt => twice (fun it2 =>
          d ← store delayLen (delay_text it2 u (lit "DOUBLE UNTIL SUCCESS")); Ok (4, d, nt)))
      | None =>
      match behind t (lit "REPEAT UNTIL ") with
      | Some s =>
          '(e, _) ← until_time s currTime;
          next (fun dt nt => Ok (if e <? dt then 2 else 0, delayStr, nt))
      | None =>
      match behind t (lit "DOUBLE UNTIL ") with
      | Some s =>
          '(e, tstr) ← until_time s currTime;
          next (fun dt nt => twice (fun it2 =>
            d ← store delayLen (delay_text it2 u (lit "DOUBLE UNTIL " ++ tstr)); Ok (if e <? dt then 2 else 3, d, nt)))
      | None =>
      match behind t (lit "REPEAT ") with
      | Some s => next (fun _ nt =>
          '(n, d) ← count_down delayLen it u (lit "REPEAT ") s; Ok (if n <=? 0 then 2 else 3, d, nt))
      | None =>
      match behind t (lit "DOUBLE ") with
      | Some s => next (fun _ nt => twice (fun it2 =>
          '(n, d) ← count_down delayLen it2 u (lit "DOUBLE ") s; Ok (if n <=? 0 then 2 else 3, d, nt)))
      | None => Ok (0, delayStr, None)
      end end end end end end end end end end end
  end.

(** ** The delay server *)

Definition RULE_EXE_TIME_KW : bstr := lit "exeTime".
Definition RULE_EXE_FREQUENCY_KW : bstr := lit "exeFrequency".
Definition RULE_PRIORITY_KW : bstr := lit "priority".
Definition RULE_LAST_EXE_TIME_KW : bstr := lit "lastExeTime".
Definition RULE_LOCK_HOST_KW : bstr := lit "rule_lock_host".
Definition RULE_LOCK_HOST_PID_KW : bstr := lit "rule_lock_host_pid".
Definition RULE_LOCK_TIME_KW : bstr := lit "rule_lock_time".

(** The request that is sent to the catalog: [rcRuleExecDel], or [rcRuleExecMod] with the
    conditions; or none, and the unknown action is returned. *)
Inductive exec_request : Type :=
| ruleExecDel
| ruleExecMod (condInput : keyValPair)
| unknown_action (repeat_status : Z).

(** A priority that is kept: a number from 1 to 9. *)
Definition valid_priority (priority : bstr) : bool :=
  match stoi priority with
  | Ok p => negb ((p <? 1) || (9 <? p))
  | Throw _ => false
  end.

(** [update_rule_exec_info] *)
Definition update_rule_exec_info (priority current_time next_time exeFrequency : bstr) (repeat_rule : bool) :
    res exec_request :=
  kv ← run_ops ((if valid_priority priority then [] else [OpAdd RULE_PRIORITY_KW (Some (lit "5"))]) ++
         [OpAdd RULE_LOCK_HOST_KW (Some []); OpAdd RULE_LOCK_HOST_PID_KW (Some []); OpAdd RULE_LOCK_TIME_KW (Some []);
          OpAdd RULE_LAST_EXE_TIME_KW (Some current_time); OpAdd RULE_EXE_TIME_KW (Some next_time)] ++
         (if repeat_rule then [OpAdd RULE_EXE_FREQUENCY_KW (Some exeFrequency)] else [])) zero_kvp;
  Ok (ruleExecMod kv).

(** [update_entry_for_repeat]: the request, and [exeFrequency], which is changed in place. *)
Definition update_entry_for_repeat (now : Z) (exeFrequency priority : bstr) (exec_status : Z) : res (exec_request * bstr) :=
  let exec_status := if 0 <? exec_status then 0 else exec_status in
  let current_time := rstrcpy (to_string now) NAME_LEN in
  '(repeat_status, exeFrequency, nt) ← getNextRepeatTime NAME_LEN current_time exeFrequency;
  let next_time := from_option id [] nt in
  let update := update_rule_exec_info priority current_time next_time exeFrequency in
  req ← (if repeat_status =? 0 then update false
         else if repeat_status =? 1 then if exec_status =? 0 then Ok ruleExecDel else update false
         else if repeat_status =? 2 then Ok ruleExecDel
         else if repeat_status =? 3 then update true
         else if repeat_status =? 4 then if exec_status =? 0 then Ok ruleExecDel else update true
         else Ok (unknown_action repeat_status));
  Ok (req, exeFrequency).
End dates.

(** ** The time a rule is submitted for *)

(** [getOffsetTimeStr]: the status, and the text if it is written. *)
Definition getOffsetTimeStr (now : Z) (offSet : bstr) : res (Z * option bstr) :=
  let s := skip_spaces offSet in
  let number c := is_digit c || Ascii.eqb c "." in
  let nonNumberLoc := from_option id (length s) (find_idx (fun c => negb (number c)) s) in
  let u := s !! nonNumberLoc in
  let multiplier := match u with None => Some 1 | Some u => unit_seconds u end in
  let bad_units := match multiplier, u with None, Some u => negb (is_space u) | _, _ => false end in
  let seconds := from_option id 1 multiplier in
  if (nonNumberLoc =? 0)%nat || bad_units || has "." s && (1 <? seconds) then Ok (INPUT_ARG_NOT_WELL_FORMED_ERR, None)
  else
    d ← long_range (atol s * Z.max 1 seconds);
    t ← long_range (now + d);
    Ok (0, Some (rstrcpy (to_string t) TIME_LEN)).

(** ** Examples of the tests *)

Definition utc_epoch : Mktime := fun _ _ _ _ _ _ => 0.

Example repeat_times :
  getNextRepeatTime (MT := utc_epoch) 128 (lit "0") (lit "10s REPEAT 5 TIMES") =
    Ok (3, lit "10s REPEAT 4 TIMES. ORIGINAL TIMES=5", Some (lit "10")) /\
  getNextRepeatTime (MT := utc_epoch) 128 (lit "0") (lit "10s DOUBLE UNTIL SUCCESS OR 20 TIMES") =
    Ok (4, lit "20s DOUBLE UNTIL SUCCESS OR 19 TIMES. ORIGINAL TIMES=20", Some (lit "10")) /\
  getNextRepeatTime (MT := utc_epoch) 128 (lit "0") (lit "10s DOUBLE UNTIL 3600") =
    Ok (3, lit "20s DOUBLE UNTIL 3600", Some (lit "10")) /\
  getNextRepeatTime (MT := utc_epoch) 128 (lit "0") (lit "10s") = Ok (0, lit "10s", Some (lit "10")).
Proof. split_and!; vm_compute; reflexivity. Qed.

(** ** Texts *)

Lemma atol_to_string z : LONG_MIN <= z <= LONG_MAX -> atol (to_string z) = z.
Proof.
  intros Hz. unfold atol. cbv zeta. rewrite to_string_sign.
  destruct (read_nat_digits (Z.abs z)) as (c & ->); [lia|]. cbn [fst].
  rewrite signed_abs, clamp_id; [done|]. unfold LONG_MIN, LONG_MAX in Hz. lia.
Qed.

Lemma long_range_ok z : LONG_MIN <= z <= LONG_MAX -> long_range z = Ok z.
Proof. intros [H1 H2]. unfold long_range. by rewrite (proj2 (Z.leb_le _ _) H1), (proj2 (Z.leb_le _ _) H2). Qed.

Lemma to_string_digits z : 0 <= z -> Forall (fun c => is_digit c = true) (to_string z).
Proof. intros H. unfold to_string. rewrite (proj2 (Z.ltb_ge _ _)) by lia. by apply nat_digits_all. Qed.

Lemma split_digits_app d c r :
  Forall (fun c => is_digit c = true) d -> is_digit c = false -> split_digits (d ++ c :: r) = (d, c :: r).
Proof. intros H Hc. induction H as [|x d Hx _ IH]; cbn [app split_digits]; [by rewrite Hc|]. by rewrite Hx, IH. Qed.

(** A text without one of the bytes of another does not hold it. *)
Lemma behind_missing x t p : x ∈ p -> (x ∉ t) -> strstr t p = None /\ behind t p = None.
Proof.
  intros Hp Ht. assert (strstr t p = None) as E.
  { induction t as [|c t IH]; cbn [strstr].
    - rewrite take_nil, (proj2 (bstr_eqb_neq _ _)); [done|]. intros <-. by apply elem_of_nil in Hp.
    - rewrite (proj2 (bstr_eqb_neq _ _)).
      + rewrite IH; [done|]. rewrite not_elem_of_cons in Ht. tauto.
      + intros E. apply Ht. rewrite <- E in Hp. rewrite <- (take_drop (length p) (c :: t)). apply elem_of_app. by left. }
  split; [done|]. unfold behind. by rewrite E.
Qed.

Lemma digits_without x s : is_digit x = false -> Forall (fun c => is_digit c = true) s -> x ∉ s.
Proof. intros Hx Hs Hin. rewrite Forall_forall in Hs. specialize (Hs x Hin). congruence. Qed.

Lemma unit_not_digit u w : unit_seconds u = Some w -> is_digit u = false /\ 1 <= w <= 31536000.
Proof.
  unfold unit_seconds. intros H.
  repeat (match type of H with context [Ascii.eqb u ?d] => destruct (Ascii.eqb_spec u d) as [->|_] end;
          [injection H as <-; split; [done|lia]|]).
  done.
Qed.

Lemma strstr_prefix p t : strstr (p ++ t) p = Some O.
Proof. destruct (p ++ t) eqn:E; cbn [strstr]; by rewrite <- E, take_exact, bstr_eqb_refl. Qed.

Lemma behind_prefix p t : behind (p ++ t) p = Some (skip_spaces t).
Proof. unfold behind. rewrite strstr_prefix. cbn [Nat.add]. by rewrite drop_app_length. Qed.

Lemma skip_spaces_to_string z r : 0 <= z -> skip_spaces (to_string z ++ r) = to_string z ++ r.
Proof.
  intros Hz. unfold to_string. rewrite (proj2 (Z.ltb_ge _ _)) by lia.
  destruct (nat_digits_head z) as (c & s & -> & Hc); [lia|]. cbn [app skip_spaces].
  by destruct (digit_not_special c Hc) as (-> & _).
Qed.

(** ** A number of times *)

Ltac blia := change (10 ^ 9) with 1000000000 in *; int_bounds; lia.

Section repeats.
Context {MT : Mktime}.

(** [n TIMES], and the number the rule was submitted with once it has been counted down. *)
Definition counter_text (n : Z) (original : option Z) : bstr :=
  lit "REPEAT " ++ to_string n ++ lit " TIMES" ++
  match original with Some m => lit ". ORIGINAL TIMES=" ++ to_string m | None => [] end.

Lemma counter_text_without n m x :
  0 <= n -> (forall m', m = Some m' -> 0 <= m') -> is_digit x = false ->
  (x ∉ lit "REPEAT  TIMES. ORIGINAL TIMES=") -> x ∉ counter_text n m.
Proof.
  intros Hn Hm Hx Hl. unfold counter_text. change (lit "REPEAT  TIMES. ORIGINAL TIMES=")
    with (lit "REPEAT " ++ lit " TIMES" ++ lit ". ORIGINAL TIMES=") in Hl. rewrite !not_elem_of_app in *.
  destruct Hl as (H1 & H2 & H3). split_and!; [done|apply digits_without; [done|by apply to_string_digits]|done|].
  destruct m as [m|]; [|apply not_elem_of_nil]. rewrite not_elem_of_app. split; [done|].
  apply digits_without; [done|]. by apply to_string_digits, Hm.
Qed.

Lemma small_length z : 0 <= z < 10 ^ 9 -> (length (to_string z) <= 9)%nat.
Proof. intros H. apply (to_string_length z 7). cbn. blia. Qed.

Lemma counter_text_length n m :
  0 <= n < 10 ^ 9 -> (forall m', m = Some m' -> 0 <= m' < 10 ^ 9) -> (length (counter_text n m) <= 48)%nat.
Proof.
  intros Hn Hm. unfold counter_text. rewrite !length_app. pose proof (small_length n Hn).
  destruct m as [m|]; [|simpl; lia]. pose proof (small_length m (Hm m eq_refl)). rewrite length_app. simpl. lia.
Qed.

Lemma count_down_step it u n m :
  0 <= it < 10 ^ 9 -> 1 <= n < 10 ^ 9 -> (forall m', m = Some m' -> 0 <= m' < 10 ^ 9) ->
  count_down NAME_LEN it u (lit "REPEAT ") (drop 7 (counter_text n m)) =
    Ok (n - 1, delay_text it u (counter_text (n - 1) (Some (from_option id n m)))).
Proof.
  intros Hit Hn Hm. pose proof (counter_text_length n m ltac:(blia) Hm) as Hlen. unfold count_down.
  rewrite rstrcpy_fits by (rewrite length_drop; lia).
  change (drop 7 (counter_text n m)) with (to_string n ++ " "%char :: lit "TIMES" ++
    match m with Some m => lit ". ORIGINAL TIMES=" ++ to_string m | None => [] end).
  rewrite split_digits_app; [|by apply to_string_digits; lia|done].
  rewrite atoi_to_string, int_range_ok by blia. cbn [mbind res_bind].
  pose proof (counter_text_length (n - 1) (Some (from_option id n m)) ltac:(blia)) as Hl2.
  assert (forall x, (length x <= 48)%nat -> store NAME_LEN (delay_text it u x) = Ok (delay_text it u x)) as Hst.
  { intros x Hx. unfold store, delay_text. rewrite !length_app. pose proof (small_length it Hit).
    rewrite (proj2 (Nat.ltb_lt _ _)); [done|]. simpl. unfold NAME_LEN. lia. }
  destruct m as [m|]; cbn [from_option id] in *.
  - change (strstr (lit "TIMES" ++ lit ". ORIGINAL TIMES=" ++ to_string m) (lit "ORIGINAL TIMES")) with (Some 7%nat).
    cbv iota beta. cbn [mbind res_bind].
    change (lit "REPEAT " ++ to_string (n - 1) ++ lit " " ++ lit "TIMES" ++ lit ". ORIGINAL TIMES=" ++ to_string m)
      with (counter_text (n - 1) (Some m)).
    rewrite Hst; [done|]. apply Hl2. intros ? [= <-]. by apply Hm.
  - change (strstr (lit "TIMES" ++ []) (lit "ORIGINAL TIMES")) with (@None nat). cbv iota beta.
    rewrite int_range_ok by blia. cbn [mbind res_bind]. replace (n - 1 + 1) with n by lia.
    change (lit "REPEAT " ++ to_string (n - 1) ++ lit " TIMES. ORIGINAL TIMES=" ++ to_string n)
      with (counter_text (n - 1) (Some n)).
    rewrite Hst; [done|]. apply Hl2. intros ? [= <-]. blia.
Qed.

(** The delay and its unit. *)
Lemma delay_text_split it u w x :
  0 <= it -> unit_seconds u = Some w -> split_digits (delay_text it u x) = (to_string it, u :: lit " " ++ x).
Proof.
  intros Hit Hu. unfold delay_text. cbn [app]. apply split_digits_app; [by apply to_string_digits|].
  by apply (unit_not_digit u w).
Qed.

Lemma delay_bounds it w now :
  0 <= it < 10 ^ 9 -> 1 <= w <= 31536000 -> 0 <= now < 2 ^ 62 ->
  (LONG_MIN <= it <= LONG_MAX) /\ (LONG_MIN <= now <= LONG_MAX) /\
  (LONG_MIN <= it * w <= LONG_MAX) /\ (LONG_MIN <= it * w + now <= LONG_MAX).
Proof.
  intros Hit Hw Hn. assert (0 <= it * w <= 1000000000 * 31536000) by (change (10 ^ 9) with 1000000000 in *; nia).
  change LONG_MIN with (-9223372036854775808). change LONG_MAX with 9223372036854775807.
  change (2 ^ 62) with 4611686018427387904 in *. blia.
Qed.

Lemma repeat_step it u w n m now :
  unit_seconds u = Some w -> 0 <= it < 10 ^ 9 -> 1 <= n < 10 ^ 9 -> (forall m', m = Some m' -> 0 <= m' < 10 ^ 9) ->
  0 <= now < 2 ^ 62 ->
  getNextRepeatTime NAME_LEN (to_string now) (delay_text it u (counter_text n m)) =
    Ok (if n - 1 <=? 0 then 2 else 3, delay_text it u (counter_text (n - 1) (Some (from_option id n m))),
        Some (to_string (it * w + now))).
Proof.
  intros Hu Hit Hn Hm Hnow. unfold getNextRepeatTime. rewrite (delay_text_split it u w) by (done || lia). rewrite Hu.
  destruct (unit_not_digit u w Hu) as [_ Hw]. cbn [from_option id].
  destruct (delay_bounds it w now Hit Hw Hnow) as (B1 & B2 & B3 & B4).
  rewrite (atol_to_string it), (long_range_ok (it * w)) by done. cbn [mbind res_bind].
  change (skip_spaces (lit " " ++ counter_text n m)) with (counter_text n m).
  assert (forall x p, is_digit x = false -> (x ∉ lit "REPEAT  TIMES. ORIGINAL TIMES=") -> x ∈ p ->
            strstr (counter_text n m) p = None /\ behind (counter_text n m) p = None) as Hnot.
  { intros x p Hx Hl Hp. apply (behind_missing x); [done|]. apply counter_text_without; [lia| |done|done].
    intros m' Hm'. apply Hm in Hm'. lia. }
  assert (forall p, "U"%char ∈ p -> strstr (counter_text n m) p = None /\ behind (counter_text n m) p = None) as HU.
  { intros p Hp. apply (Hnot "U"%char); [done|by_evaluation|done]. }
  assert (bstr_eqb (counter_text n m) [] = false) as -> by done.
  assert (bstr_eqb (counter_text n m) (lit "REPEAT FOR EVER") = false) as ->.
  { apply bstr_eqb_neq. intros E. pose proof (to_string_digits n ltac:(blia)) as Hd. pose proof (to_string_nonempty n) as Hne.
    unfold counter_text in E. destruct (to_string n) as [|c r]; [done|]. apply Forall_cons in Hd as [Hd _].
    cbn in E. injection E as E _. subst c. done. }
  assert (bstr_eqb (counter_text n m) (lit "DOUBLE FOR EVER") = false) as -> by done. cbn [orb].
  repeat match goal with
  | |- context [behind (counter_text n m) ?p] => rewrite (proj2 (HU p ltac:(by_evaluation)))
  | |- context [strstr (counter_text n m) ?p] => rewrite (proj1 (HU p ltac:(by_evaluation)))
  end.
  assert (behind (counter_text n m) (lit "REPEAT ") = Some (drop 7 (counter_text n m))) as ->.
  { unfold counter_text. rewrite behind_prefix. rewrite skip_spaces_to_string by lia. done. }
  rewrite (atol_to_string now), (long_range_ok (it * w + now)) by done. cbn [mbind res_bind].
  rewrite count_down_step by (done || lia). done.
Qed.

(** The conditions are always built. *)
Lemma update_rule_exec_info_ok priority current_time next_time freq rep :
  exists kv m, update_rule_exec_info priority current_time next_time freq rep = Ok (ruleExecMod kv) /\ kvp_models kv m /\
    m !! RULE_EXE_TIME_KW = Some (Some next_time) /\
    m !! RULE_EXE_FREQUENCY_KW = (if rep then Some (Some freq) else None).
Proof.
  unfold update_rule_exec_info.
  match goal with |- context [run_ops ?ops zero_kvp] => set (l := ops) end.
  destruct (run_ops_refines l zero_kvp ∅) as (kv & -> & Hm).
  - exists []. split_and!; [apply zero_kvp_rep|apply keys_ok_nil|done].
  - unfold l. destruct (valid_priority priority), rep; repeat (apply Forall_cons_2; [discriminate|]); apply Forall_nil_2.
  - eexists kv, _. split_and!; [done|exact Hm| |]; unfold l; destruct (valid_priority priority), rep; reflexivity.
Qed.

Lemma now_text now : 0 <= now < 2 ^ 62 -> rstrcpy (to_string now) NAME_LEN = to_string now.
Proof.
  intros H. apply rstrcpy_fits. pose proof (to_string_length now 17) as Hl. unfold NAME_LEN.
  assert (length (to_string now) <= 19)%nat; [|lia]. apply Hl. change (2 ^ 62) with 4611686018427387904 in H.
  change (10 ^ Z.of_nat 18) with 1000000000000000000. change (10 ^ Z.of_nat 19) with 10000000000000000000. lia.
Qed.

(** The executions of a rule, each at a time and with a status: how many there are until
    the entry is removed, if it is. *)
Fixpoint executions (events : list (Z * Z)) (priority freq : bstr) : res (option nat) :=
  match events with
  | [] => Ok None
  | (now, status) :: events' =>
      '(req, freq) ← update_entry_for_repeat now freq priority status;
      match req with
      | ruleExecDel => Ok (Some 1%nat)
      | ruleExecMod _ => n ← executions events' priority freq; Ok (option_map S n)
      | unknown_action _ => Ok None
      end
  end.

Lemma executions_count it u w n m priority events :
  unit_seconds u = Some w -> 0 <= it < 10 ^ 9 -> 1 <= Z.of_nat n < 10 ^ 9 -> (forall m', m = Some m' -> 0 <= m' < 10 ^ 9) ->
  Forall (fun e => 0 <= e.1 < 2 ^ 62) events -> (n <= length events)%nat ->
  executions events priority (delay_text it u (counter_text (Z.of_nat n) m)) = Ok (Some n).
Proof.
  intros Hu Hit Hn Hm Hev. revert n m Hn Hm. induction Hev as [|[now status] events Hnow _ IH]; intros n m Hn Hm Hlen;
    [simpl in Hlen; lia|]. cbn [executions]. unfold update_entry_for_repeat. cbn [fst] in Hnow. rewrite now_text by done.
  rewrite (repeat_step it u w (Z.of_nat n) m now) by done. cbn [mbind res_bind from_option id].
  destruct n as [|[|n]]; [lia|done|].
  rewrite (proj2 (Z.leb_gt (Z.of_nat (S (S n)) - 1) 0)) by lia. change (3 =? 0) with false. change (3 =? 1) with false.
  change (3 =? 2) with false. change (3 =? 3) with true. cbv iota.
  destruct (update_rule_exec_info_ok priority (to_string now) (to_string (it * w + now))
    (delay_text it u (counter_text (Z.of_nat (S (S n)) - 1) (Some (from_option id (Z.of_nat (S (S n))) m)))) true)
    as (kv & mp & -> & _). cbn [mbind res_bind].
  replace (Z.of_nat (S (S n)) - 1) with (Z.of_nat (S n)) by lia.
  rewrite IH; [done|lia| |simpl in Hlen; lia]. intros m' [= <-]. destruct m as [m|]; cbn; [by apply Hm|lia].
Qed.
End repeats.

(** C35: A rule submitted with [REPEAT n TIMES] is executed exactly [n] times, whatever the
    times and the results of its executions, and then its entry is removed. *)
Theorem rule_repeats_n_times {MT : Mktime} it u w n priority events :
  unit_seconds u = Some w -> 0 <= it < 10 ^ 9 -> 1 <= Z.of_nat n < 10 ^ 9 ->
  Forall (fun e => 0 <= e.1 < 2 ^ 62) events -> (n <= length events)%nat ->
  executions events priority (delay_text it u (lit "REPEAT " ++ to_string (Z.of_nat n) ++ lit " TIMES")) = Ok (Some n).
Proof.
  intros Hu Hit Hn Hev Hlen. pose proof (executions_count it u w n None priority events Hu Hit Hn) as H.
  unfold counter_text in H. rewrite app_nil_r in H. by apply H.
Qed.

Lemma rule_repeats_n_times_witness :
  executions (MT := utc_epoch) [(1000, 0); (1060, -1); (1120, 0); (1180, 0)] (lit "5")
    (delay_text 1 "m" (lit "REPEAT " ++ to_string (Z.of_nat 3) ++ lit " TIMES")) = Ok (Some 3%nat).
Proof.
  apply (rule_repeats_n_times (MT := utc_epoch) 1 "m" 60).
  - reflexivity.
  - lia.
  - lia.
  - repeat (apply Forall_cons_2; [simpl; lia|]). apply Forall_nil_2.
  - simpl. lia.
Defined.

(** ** Until a time *)

Section until.
Context {MT : Mktime}.

Lemma until_step it u w s now e tstr :
  unit_seconds u = Some w -> 0 <= it < 10 ^ 9 -> 0 <= now < 2 ^ 62 ->
  ("C"%char ∉ s) -> ("D"%char ∉ s) -> skip_spaces s = s -> until_time s (to_string now) = Ok (e, tstr) ->
  getNextRepeatTime NAME_LEN (to_string now) (delay_text it u (lit "REPEAT UNTIL " ++ s)) =
    Ok (if e <? it * w + now then 2 else 0, delay_text it u (lit "REPEAT UNTIL " ++ s), Some (to_string (it * w + now))).
Proof.
  intros Hu Hit Hnow HC HD Hsp He. unfold getNextRepeatTime. rewrite (delay_text_split it u w) by (done || lia). rewrite Hu.
  destruct (unit_not_digit u w Hu) as [_ Hw]. cbn [from_option id].
  destruct (delay_bounds it w now Hit Hw Hnow) as (B1 & B2 & B3 & B4).
  rewrite (atol_to_string it), (long_range_ok (it * w)) by done. cbn [mbind res_bind].
  set (t := lit "REPEAT UNTIL " ++ s). change (skip_spaces (lit " " ++ t)) with t.
  assert (bstr_eqb t [] = false) as -> by done. assert (bstr_eqb t (lit "REPEAT FOR EVER") = false) as ->.
  { apply bstr_eqb_neq. by intros [=]. }
  assert (bstr_eqb t (lit "DOUBLE FOR EVER") = false) as -> by (apply bstr_eqb_neq; by intros [=]). cbn [orb].
  assert (forall p, "C"%char ∈ p -> strstr t p = None /\ behind t p = None) as HC'.
  { intros p Hp. apply (behind_missing "C"%char); [done|]. unfold t. apply not_elem_of_app. split; [by_evaluation|done]. }
  repeat match goal with
  | |- context [behind t ?p] => rewrite (proj2 (HC' p ltac:(by_evaluation)))
  | |- context [strstr t ?p] => rewrite (proj1 (HC' p ltac:(by_evaluation)))
  end.
  unfold t. rewrite behind_prefix, Hsp, He. cbn [mbind res_bind].
  rewrite (atol_to_string now), (long_range_ok (it * w + now)) by done. done.
Qed.

Lemma isInteger_to_string z : 0 <= z -> isInteger (to_string z) = true.
Proof.
  intros Hz. apply forallb_forall. intros c Hc. pose proof (to_string_digits z Hz) as H. rewrite Forall_forall in H.
  apply H. by apply list_elem_of_In.
Qed.

Lemma long_text z : 0 <= z < 2 ^ 62 -> (length (to_string z) <= 19)%nat.
Proof.
  intros H. apply (to_string_length z 17). change (2 ^ 62) with 4611686018427387904 in H.
  change (10 ^ Z.of_nat 18) with 1000000000000000000. change (10 ^ Z.of_nat 19) with 10000000000000000000. lia.
Qed.

Lemma until_time_absolute e now : 0 <= e < 2 ^ 62 -> until_time (to_string e) now = Ok (e, to_string e).
Proof.
  intros He. pose proof (long_text e He). unfold until_time, convertDateFormat, checkDateFormat.
  rewrite !rstrcpy_fits by lia. rewrite isInteger_to_string by lia. cbn. rewrite atol_to_string; [done|].
  change (2 ^ 62) with 4611686018427387904 in He. change LONG_MIN with (-9223372036854775808). change LONG_MAX with 9223372036854775807. lia.
Qed.

Lemma digits_no_letter x z : is_digit x = false -> 0 <= z -> x ∉ to_string z.
Proof. intros Hx Hz. apply digits_without; [done|by apply to_string_digits]. Qed.

Lemma skip_spaces_id z : 0 <= z -> skip_spaces (to_string z) = to_string z.
Proof. intros H. pose proof (skip_spaces_to_string z [] H) as E. by rewrite app_nil_r in E. Qed.

(** What the delay server does for the actions 0 and 2. *)
Lemma update_entry_until it u w s now e tstr priority status :
  unit_seconds u = Some w -> 0 <= it < 10 ^ 9 -> 0 <= now < 2 ^ 62 ->
  ("C"%char ∉ s) -> ("D"%char ∉ s) -> skip_spaces s = s -> until_time s (to_string now) = Ok (e, tstr) ->
  exists req, update_entry_for_repeat now (delay_text it u (lit "REPEAT UNTIL " ++ s)) priority status =
      Ok (req, delay_text it u (lit "REPEAT UNTIL " ++ s)) /\
    (e < it * w + now -> req = ruleExecDel) /\
    (it * w + now <= e -> exists kv m, req = ruleExecMod kv /\ kvp_models kv m /\
       m !! RULE_EXE_TIME_KW = Some (Some (to_string (it * w + now)))).
Proof.
  intros Hu Hit Hnow HC HD Hsp He. unfold update_entry_for_repeat. rewrite now_text by done.
  rewrite (until_step it u w s now e tstr) by done. cbn [mbind res_bind from_option id].
  destruct (Z.ltb_spec e (it * w + now)).
  - eexists. split_and!; [done|done|lia].
  - destruct (update_rule_exec_info_ok priority (to_string now) (to_string (it * w + now))
      (delay_text it u (lit "REPEAT UNTIL " ++ s)) false) as (kv & m & E & Hkv & H1 & _).
    change (0 =? 0) with true. cbv iota. rewrite E. cbn [mbind res_bind]. eexists. split_and!; [done|lia|]. intros _. by exists kv, m.
Qed.
End until.

(** A rule with [REPEAT UNTIL] a time in seconds since the epoch is removed when it
    would be run again after that time; otherwise it is scheduled after its delay. *)
Theorem rule_repeats_until {MT : Mktime} it u w e now priority status :
  unit_seconds u = Some w -> 0 <= it < 10 ^ 9 -> 0 <= now < 2 ^ 62 -> 0 <= e < 2 ^ 62 ->
  let freq := delay_text it u (lit "REPEAT UNTIL " ++ to_string e) in
  exists req, update_entry_for_repeat now freq priority status = Ok (req, freq) /\
    (e < it * w + now -> req = ruleExecDel) /\
    (it * w + now <= e -> exists kv m, req = ruleExecMod kv /\ kvp_models kv m /\
       m !! RULE_EXE_TIME_KW = Some (Some (to_string (it * w + now)))).
Proof.
  intros Hu Hit Hnow He. cbv zeta. apply (update_entry_until it u w (to_string e) now e (to_string e));
    [done|done|done|apply digits_no_letter; [done|lia]|apply digits_no_letter; [done|lia]|apply skip_spaces_id; lia|by apply until_time_absolute].
Qed.

Lemma rule_repeats_until_witness :
  let freq := delay_text 10 "m" (lit "REPEAT UNTIL " ++ to_string 2000) in
  exists req, update_entry_for_repeat (MT := utc_epoch) 1000 freq (lit "5") 0 = Ok (req, freq) /\
    (2000 < 10 * 60 + 1000 -> req = ruleExecDel) /\
    (10 * 60 + 1000 <= 2000 -> exists kv m, req = ruleExecMod kv /\ kvp_models kv m /\
       m !! RULE_EXE_TIME_KW = Some (Some (to_string (10 * 60 + 1000)))).
Proof. apply (rule_repeats_until (MT := utc_epoch) 10 "m" 60); [reflexivity|lia|lia|lia]. Defined.

(** ** Relative times *)

Section relative.
Context {MT : Mktime}.

Lemma isInteger_unit k v w : unit_seconds v = Some w -> isInteger (to_string k ++ [v]) = false.
Proof.
  intros Hv. destruct (unit_not_digit v w Hv) as [Hd _]. unfold isInteger. rewrite forallb_app. simpl. rewrite Hd.
  apply andb_false_r.
Qed.

Lemma has_false c s : (c ∉ s) -> has c s = false.
Proof.
  intros H. apply not_true_is_false. intros E. apply existsb_exists in E as (x & Hx & E).
  apply Ascii.eqb_eq in E. subst x. apply H. by apply list_elem_of_In.
Qed.

(** A number and a unit. *)
Lemma checkDateFormat_unit k v w :
  unit_seconds v = Some w -> 0 <= k -> k * w <= INT_MAX -> checkDateFormat (to_string k ++ [v]) = Ok (0, to_string (k * w)).
Proof.
  intros Hv Hk Hb. destruct (unit_not_digit v w Hv) as [_ Hw]. unfold checkDateFormat.
  rewrite (isInteger_unit k v w), last_snoc, Hv, removelast_last by done.
  rewrite atoi_to_string by (int_bounds; nia). rewrite int_range_ok by (int_bounds; nia). cbn [mbind res_bind].
  rewrite rstrcpy_fits; [done|]. pose proof (int_fits (k * w)) as Hf. int_bounds.
  assert (length (to_string (k * w)) < 12)%nat; [apply Hf; nia|lia].
Qed.

Lemma until_time_relative k v w now :
  unit_seconds v = Some w -> 0 <= k < 10 ^ 9 -> k * w <= INT_MAX -> 0 <= now < 2 ^ 62 ->
  exists tstr, until_time (to_string k ++ [v]) (to_string now) = Ok (k * w + now, tstr).
Proof.
  intros Hv Hk Hb Hnow. destruct (unit_not_digit v w Hv) as [Hd Hw].
  destruct (delay_bounds k w now Hk Hw Hnow) as (B1 & B2 & B3 & B4).
  assert (forall x, is_digit x = false -> unit_seconds x = None -> has x (to_string k ++ [v]) = false) as Hhas.
  { intros x Hx Hu. apply has_false. rewrite not_elem_of_app. split; [apply digits_no_letter; [done|lia]|].
    rewrite list_elem_of_singleton. intros ->. congruence. }
  unfold until_time, convertDateFormat. pose proof (small_length k Hk).
  rewrite !rstrcpy_fits by (rewrite length_app; simpl; lia). rewrite checkDateFormat_unit with (w := w) by (done || lia).
  cbn [mbind res_bind]. change (negb (0 =? 0)) with false. cbv iota.
  rewrite (isInteger_unit k v w), (Hhas "-"%char), (Hhas ":"%char) by done. cbn [negb andb].
  rewrite !atol_to_string, long_range_ok by done. cbn [mbind res_bind]. rewrite atol_to_string by done. eauto.
Qed.

Lemma skip_spaces_unit k v : 0 <= k -> skip_spaces (to_string k ++ [v]) = to_string k ++ [v].
Proof. intros H. by apply skip_spaces_to_string. Qed.
End relative.

(** The end of [REPEAT UNTIL] may be given relative to now, and is then taken anew from
    the time of every execution: a rule whose delay is not longer than that is never
    removed. *)
Theorem relative_until_never_ends {MT : Mktime} it u w k v w' priority events :
  unit_seconds u = Some w -> unit_seconds v = Some w' -> 0 <= it < 10 ^ 9 -> 0 <= k < 10 ^ 9 ->
  k * w' <= INT_MAX -> it * w <= k * w' -> Forall (fun e => 0 <= e.1 < 2 ^ 62) events ->
  executions events priority (delay_text it u (lit "REPEAT UNTIL " ++ to_string k ++ [v])) = Ok None.
Proof.
  intros Hu Hv Hit Hk Hb Hle Hev. induction Hev as [|[now status] events Hnow _ IH]; [done|]. cbn [executions].
  destruct (until_time_relative k v w' now Hv Hk Hb Hnow) as (tstr & E).
  assert (forall x, is_digit x = false -> unit_seconds x = None -> x ∉ to_string k ++ [v]) as Hx.
  { intros x Hx Hn. rewrite not_elem_of_app. split; [apply digits_no_letter; [done|lia]|].
    rewrite list_elem_of_singleton. intros ->. congruence. }
  destruct (update_entry_until it u w (to_string k ++ [v]) now (k * w' + now) tstr priority status Hu Hit Hnow)
    as (req & -> & _ & Hmod); [by apply Hx|by apply Hx|apply skip_spaces_unit; lia|done|].
  destruct Hmod as (kv & m & -> & _); [lia|]. cbn [mbind res_bind]. by rewrite IH.
Qed.

Lemma relative_until_never_ends_witness :
  executions (MT := utc_epoch) [(1000, 0); (1000000, 0)] (lit "5") (delay_text 10 "m" (lit "REPEAT UNTIL " ++ to_string 1 ++ ["h"%char])) = Ok None.
Proof.
  apply (relative_until_never_ends (MT := utc_epoch) 10 "m" 60 1 "h" 3600).
  - reflexivity.
  - reflexivity.
  - lia.
  - lia.
  - vm_compute. discriminate.
  - lia.
  - repeat (apply Forall_cons_2; [simpl; lia|]). apply Forall_nil_2.
Defined.

(** ** Offsets and dates *)

Definition digit_value (c : ascii) : Z := uchar c - 48.

Lemma digit_no_unit c : is_digit c = true -> unit_seconds c = None.
Proof. intros H. destruct (unit_seconds c) as [w|] eqn:E; [|done]. apply unit_not_digit in E as [E _]. congruence. Qed.

(** An offset [dd.hh:mm:ss] is the days, hours, minutes and seconds, and one second
    more for every ten days: the loop reads the first digit a second time. *)
Theorem full_offset_reads_twice {MT : Mktime} d1 d0 h1 h0 m1 m0 s1 s0 :
  Forall (fun c => is_digit c = true) [d1; d0; h1; h0; m1; m0; s1; s0] ->
  let v := digit_value in
  checkDateFormat [d1; d0; "."%char; h1; h0; ":"%char; m1; m0; ":"%char; s1; s0] =
    Ok (0, to_string ((10 * v d1 + v d0) * 86400 + (10 * v h1 + v h0) * 3600 + (10 * v m1 + v m0) * 60 + (10 * v s1 + v s0) + v d1)).
Proof.
  intros H. rewrite !Forall_cons in H. destruct H as (Hd1 & Hd0 & Hh1 & Hh0 & Hm1 & Hm0 & Hs1 & Hs0 & _). cbv zeta.
  assert (forall c, is_digit c = true -> 0 <= digit_value c <= 9) as Hv.
  { intros c Hc. unfold digit_value, is_digit in *. apply andb_true_iff in Hc as [H1 H2]. apply Z.leb_le in H1, H2. lia. }
  unfold checkDateFormat, isInteger. cbn [forallb]. change (is_digit ".") with false. rewrite andb_false_l, !andb_false_r.
  cbn [last]. rewrite digit_no_unit by done. cbn [length Nat.ltb Nat.leb forallb lookup list_lookup from_option].
  cbn [negb andb]. cbn [rev app read_offset]. rewrite Hs0. cbn [negb]. unfold places. cbn [read_places tail].
  change (Ascii.eqb ":" ":") with true. change (Ascii.eqb "." ".") with true.
  rewrite Hs1, Hm0, Hm1, Hh0, Hh1, Hd0, Hd1. cbv iota beta. rewrite Hd1. cbn [negb read_places tail mbind res_bind].
  fold (digit_value s0) (digit_value s1) (digit_value m0) (digit_value m1) (digit_value h0) (digit_value h1) (digit_value d0) (digit_value d1).
  pose proof (Hv _ Hs0). pose proof (Hv _ Hs1). pose proof (Hv _ Hm0). pose proof (Hv _ Hm1).
  pose proof (Hv _ Hh0). pose proof (Hv _ Hh1). pose proof (Hv _ Hd0). pose proof (Hv _ Hd1).
  match goal with |- context [to_string ?a] => set (x := a) end. rewrite rstrcpy_fits.
  - f_equal. f_equal. f_equal. unfold x. lia.
  - assert (length (to_string x) < 12)%nat; [|lia]. apply int_fits. int_bounds. unfold x. lia.
Qed.

Lemma full_offset_reads_twice_witness :
  checkDateFormat (MT := utc_epoch) (lit "12.00:00:00") = Ok (0, to_string (12 * 86400 + 1)).
Proof.
  apply (full_offset_reads_twice (MT := utc_epoch) "1" "2" "0" "0" "0" "0" "0" "0").
  repeat (apply Forall_cons_2; [reflexivity|]). apply Forall_nil_2.
Defined.

(** A date from 2038 to 2106, whose seconds since the epoch are no [int], is converted
    to a negative number. *)
Theorem date_after_2038 {MT : Mktime} s :
  length s = 19%nat -> full_date s = true ->
  let z := mktime (atoi (slice s 0 4)) (atoi (slice s 5 2)) (atoi (slice s 8 2))
             (atoi (slice s 11 2)) (atoi (slice s 14 2)) (atoi (slice s 17 2)) in
  2 ^ 31 <= z < 2 ^ 32 -> checkDateFormat s = Ok (0, to_string (z - 2 ^ 32)) /\ z - 2 ^ 32 < 0.
Proof.
  intros Hl Hf z Hz. split; [|lia].
  do 19 (destruct s as [|? s]; [done|]). destruct s as [|? s]; [|done].
  pose proof Hf as Hf'. unfold full_date in Hf'. cbn [forallb lookup list_lookup from_option fst snd] in Hf'.
  rewrite !andb_true_iff, !bool_decide_eq_true in Hf'. destruct Hf' as [Hd Hs].
  unfold checkDateFormat. rewrite Hl. change (19 <? 19)%nat with false. cbn [andb]. rewrite Hf.
  destruct Hs as (Hs4 & _). injection Hs4 as ->.
  match goal with |- context [isInteger ?x] => assert (isInteger x = false) as -> end.
  { unfold isInteger. cbn [forallb]. change (is_digit "-") with false. by rewrite andb_false_l, !andb_false_r. }
  cbn [last]. rewrite digit_no_unit by tauto. unfold localToUnixTime, print_uint_as_int. fold z.
  assert (to_int (z mod 2 ^ 32) = z - 2 ^ 32) as ->.
  { rewrite Z.mod_small by lia. unfold to_int. replace (z + 2 ^ 31) with (z - 2 ^ 31 + 1 * 2 ^ 32) by lia.
    rewrite Z.mod_add, Z.mod_small by lia. lia. }
  rewrite rstrcpy_fits; [done|]. assert (length (to_string (z - 2 ^ 32)) < 12)%nat; [|unfold TIME_LEN; lia].
  apply int_fits. int_bounds. lia.
Qed.

Lemma date_after_2038_witness :
  let mt : Mktime := fun _ _ _ _ _ _ => 2145916800 + 31536000 in
  checkDateFormat (MT := mt) (lit "2039-01-01.00:00:00") = Ok (0, to_string (2145916800 + 31536000 - 2 ^ 32)) /\
  2145916800 + 31536000 - 2 ^ 32 < 0.
Proof.
  cbv zeta. apply (date_after_2038 (MT := fun _ _ _ _ _ _ => 2145916800 + 31536000) (lit "2039-01-01.00:00:00")).
  - reflexivity.
  - vm_compute. reflexivity.
  - unfold mktime. lia.
Defined.

(** An offset in minutes and seconds is not added to the current time, as one with a unit
    is: the rule ends at once. *)
Example until_offset_is_absolute :
  convertDateFormat (MT := utc_epoch) (lit "20:40") (lit "1000000") = Ok (0, lit "1240") /\
  convertDateFormat (MT := utc_epoch) (lit "1240s") (lit "1000000") = Ok (0, lit "1001240").
Proof. split; vm_compute; reflexivity. Qed.

(** A directive that is not known leaves the next time empty, and the rule is scheduled
    for it. *)
Example unknown_directive :
  exists kv, update_entry_for_repeat (MT := utc_epoch) 1000 (lit "10s EVERY DAY") (lit "5") 0 = Ok (ruleExecMod kv, lit "10s EVERY DAY") /\
    getValByKey kv RULE_EXE_TIME_KW = Ok (Some []).
Proof. eexists. split; vm_compute; reflexivity. Qed.

(** The counted directives do not fit the field of a rule when the numbers are large. *)
Example counted_directive_overruns :
  update_entry_for_repeat (MT := utc_epoch) 1000 (lit "100000s REPEAT UNTIL SUCCESS OR 100000 TIMES") (lit "5") (-1) = Throw Eundef.
Proof. vm_compute. reflexivity. Qed.
