(* ===== verification/Hasher.v ===== *)
(** * Hash schemes

    [lib/hasher]: the strategies for MD5, SHA-1, SHA-256, SHA-512, Adler-32 and
    CRC-64/NVMe, the [Hasher] that drives one of them, and the table that finds a scheme by
    its name or by the form of a checksum. OpenSSL's digests and Boost's CRC are parameters;
    Adler-32 is computed by the code itself.

    A [boost::any] that holds [nullptr] and an empty one are alike: a cast of either to the
    type of a context fails. *)

From stdpp Require Import base list strings.
From Stdlib Require Import ZArith Lia Ascii Permutation.
From S2P Require Import Prelude Errors Numerals Base64.
Local Open Scope Z_scope.

(** ** Schemes *)

Inductive scheme : Type := MD5 | SHA1 | SHA256 | SHA512 | ADLER32 | CRC64NVME.

#[export] Instance scheme_eq_dec : EqDecision scheme.
Proof. solve_decision. Defined.

Definition scheme_name (s : scheme) : bstr :=
  match s with
  | MD5 => lit "md5" | SHA1 => lit "sha1" | SHA256 => lit "sha256" | SHA512 => lit "sha512"
  | ADLER32 => lit "adler32" | CRC64NVME => lit "crc64nvme"
  end.

Definition checksum_prefix (s : scheme) : bstr :=
  match s with
  | MD5 => lit "md5:" | SHA1 => lit "sha1:" | SHA256 => lit "sha2:" | SHA512 => lit "sha512:"
  | ADLER32 => lit "adler32:" | CRC64NVME => lit "crc64nvme:"
  end.

(** The size of the buffer the digest is written to. *)
Definition digest_length (s : scheme) : nat :=
  match s with MD5 => 16 | SHA1 => 20 | SHA256 => 32 | SHA512 => 64 | ADLER32 => 4 | CRC64NVME => 8 end%nat.

(** [std::string::starts_with] *)
Definition has_prefix (s p : bstr) : bool := bstr_eqb (take (length p) s) p.

Definition hex_digits : bstr := lit "0123456789abcdefABCDEF".

(** [HashStrategy::isChecksum]; a checksum by MD5 has no prefix. *)
Definition isChecksum (s : scheme) (chksum : bstr) : bool :=
  match s with
  | MD5 => match find_first_not_of chksum hex_digits (Some 0%nat) with None => true | Some _ => false end
  | _ => has_prefix chksum (checksum_prefix s)
  end.

(** [make_map], in the order of insertion. *)
Definition strategies : list scheme := [SHA256; SHA512; MD5; ADLER32; SHA1; CRC64NVME].

(** ** Output *)

Inductive output_mode : Type := hex_string | base64_encoded_string.
Record options : Type := Options { mode : output_mode; include_checksum_prefix : bool }.

Definition LONG_CHKSUM_LEN : Z := 128.

Definition printed_prefix (s : scheme) (o : options) : bstr :=
  if include_checksum_prefix o then checksum_prefix s else [].

Definition prepare_base64_encoded_string (s : scheme) (o : options) (buffer out : bstr) : error * bstr :=
  let out_len := if include_checksum_prefix o then LONG_CHKSUM_LEN
                 else LONG_CHKSUM_LEN - Z.of_nat (length (checksum_prefix s)) in
  match base64_encode buffer out_len with
  | (0, e) => (SUCCESS, printed_prefix s o ++ e)
  | (ec, _) => (ERROR ec, out)
  end.

Definition prepare_hex_string (s : scheme) (o : options) (buffer : bstr) : error * bstr :=
  (SUCCESS, printed_prefix s o ++ concat (map hex_byte buffer)).

Definition prepare_output_string (s : scheme) (o : options) (buffer out : bstr) : error * bstr :=
  match mode o with
  | base64_encoded_string => prepare_base64_encoded_string s o buffer out
  | hex_string => prepare_hex_string s o buffer
  end.

(** The options of [digest] without any. *)
Definition default_options (s : scheme) : options :=
  match s with
  | MD5 => Options hex_string false
  | ADLER32 => Options hex_string true
  | _ => Options base64_encoded_string true
  end.

(** ** Adler-32 *)

Definition uint32 (z : Z) : Z := z mod 2 ^ 32.
Definition MOD_ADLER : Z := 65521.

Fixpoint adler32_update (a b : Z) (data : bstr) : Z * Z :=
  match data with
  | [] => (a, b)
  | c :: data' =>
      let a := uint32 (a + uchar c) mod MOD_ADLER in
      let b := uint32 (b + a) mod MOD_ADLER in
      adler32_update a b data'
  end.

Definition adler32_final (a b : Z) : Z := Z.lor (uint32 (Z.shiftl b 16)) a.

(** [std::setfill('0') << std::hex << std::setw(8)] of a [uint32_t]. *)
Definition hex_uint32 (n : Z) : bstr :=
  map (fun i => hex_digit (Z.shiftr n (4 * i) mod 16)) [7; 6; 5; 4; 3; 2; 1; 0].

(** ** The libraries *)

(** [EVP_DigestInit_ex2], [EVP_DigestUpdate] and [EVP_DigestFinal_ex] ([None] when they
    return 0); [boost::crc_basic<64>] as the code sets it up. *)
Class MessageDigest := {
  md_ctx : Type;
  md_init : bstr -> option md_ctx;
  md_update : md_ctx -> bstr -> option md_ctx;
  md_final : md_ctx -> option bstr;
  crc_ctx : Type;
  crc_new : crc_ctx;
  process_bytes : crc_ctx -> bstr -> crc_ctx;
  crc_checksum : crc_ctx -> Z
}.

Section hasher.
Context {MD : MessageDigest}.

(** ** Strategies *)

Inductive context : Type :=
| Null
| Evp (c : md_ctx)
| Adler (a b : Z)
| Crc (c : crc_ctx).

(** [MD5Strategy], [SHA1Strategy], [SHA256Strategy] and [SHA512Strategy] are alike. *)
Definition evp_init (s : scheme) (ctx : context) : error * context :=
  match md_init (scheme_name s) with
  | Some c => (SUCCESS, Evp c)
  | None => (ERROR DIGEST_INIT_FAILED, ctx)
  end.

Definition evp_update (data : bstr) (ctx : context) : res (error * context) :=
  match ctx with
  | Evp c => match md_update c data with
             | Some c' => Ok (SUCCESS, Evp c')
             | None => Ok (ERROR DIGEST_UPDATE_FAILED, Null)
             end
  | _ => Throw Estd
  end.

Definition adler_update (data : bstr) (ctx : context) : res (error * context) :=
  match ctx with
  | Adler a b => let '(a, b) := adler32_update a b data in Ok (SUCCESS, Adler a b)
  | _ => Throw Estd
  end.

Definition crc_update (data : bstr) (ctx : context) : res (error * context) :=
  match ctx with
  | Crc c => Ok (SUCCESS, Crc (process_bytes c data))
  | _ => Ok (ERROR SYS_INVALID_INPUT_PARAM, ctx)
  end.

(** [EVP_DigestFinal_ex] over a zeroed array of [digest_length] bytes. *)
Definition final_buffer (s : scheme) (d : bstr) : res bstr :=
  if (digest_length s <? length d)%nat then Throw Eundef
  else Ok (d ++ replicate (digest_length s - length d) NUL).

(** The bytes of the checksum, the most significant one first. *)
Definition crc_bytes (checksum : Z) : bstr :=
  map (fun i => chr (Z.land (Z.shiftr checksum (i * 8)) 0xFF)) [7; 6; 5; 4; 3; 2; 1; 0].

(** The error, the context left and [_out]. *)
Definition evp_digest (s : scheme) (o : options) (ctx : context) (out : bstr) : res (error * context * bstr) :=
  match ctx with
  | Evp c =>
      match md_final c with
      | Some d =>
          buffer ← final_buffer s d;
          let '(err, out) := prepare_output_string s o buffer out in Ok (err, Null, out)
      | None => Ok (ERROR DIGEST_FINAL_FAILED, Null, out)
      end
  | _ => Throw Estd
  end.

Definition adler_digest (o : options) (ctx : context) (out : bstr) : res (error * context * bstr) :=
  match mode o with
  | hex_string =>
      match ctx with
      | Adler a b => Ok (SUCCESS, ctx, out ++ printed_prefix ADLER32 o ++ hex_uint32 (adler32_final a b))
      | _ => Throw Estd
      end
  | base64_encoded_string => Ok (ERROR SYS_NOT_IMPLEMENTED, ctx, out)
  end.

Definition crc_digest (o : options) (ctx : context) (out : bstr) : res (error * context * bstr) :=
  match ctx with
  | Crc c =>
      let '(err, out) := prepare_output_string CRC64NVME o (crc_bytes (crc_checksum c)) out in
      Ok (err, Null, out)
  | _ => Ok (ERROR SYS_INVALID_INPUT_PARAM, ctx, out)
  end.

(** The calls through [HashStrategy]. *)
Definition strategy_init (s : scheme) (ctx : context) : error * context :=
  match s with
  | ADLER32 => (SUCCESS, Adler 1 0)
  | CRC64NVME => (SUCCESS, Crc crc_new)
  | _ => evp_init s ctx
  end.

Definition strategy_update (s : scheme) : bstr -> context -> res (error * context) :=
  match s with ADLER32 => adler_update | CRC64NVME => crc_update | _ => evp_update end.

Definition strategy_digest (s : scheme) : options -> context -> bstr -> res (error * context * bstr) :=
  match s with ADLER32 => adler_digest | CRC64NVME => crc_digest | _ => evp_digest s end.

(** ** [Hasher] *)

Record hasher : Type := Hasher {
  strategy : option scheme; hctx : context; stored_error : error; stored_digest : bstr }.

Definition new_hasher : hasher := Hasher None Null SUCCESS [].

Definition hasher_init (s : scheme) (h : hasher) : error * hasher :=
  let '(err, ctx) := strategy_init s (hctx h) in (err, Hasher (Some s) ctx SUCCESS []).

Definition hasher_update (data : bstr) (h : hasher) : res (error * hasher) :=
  match strategy h with
  | None => Ok (ERROR SYS_UNINITIALIZED, h)
  | Some s =>
      if negb (bstr_eqb (stored_digest h) []) then Ok (ERROR SYS_HASH_IMMUTABLE, h)
      else '(err, ctx) ← strategy_update s data (hctx h);
           Ok (err, Hasher (Some s) ctx (stored_error h) (stored_digest h))
  end.

(** [digest], with the options of the strategy when none are given: the error, the text
    written to [_messageDigest] (none when it is not written) and the hasher left. *)
Definition hasher_digest (o : option options) (h : hasher) : res (error * option bstr * hasher) :=
  match strategy h with
  | None => Ok (ERROR SYS_UNINITIALIZED, None, h)
  | Some s =>
      if bstr_eqb (stored_digest h) [] then
        '(err, ctx, out) ← strategy_digest s (from_option id (default_options s) o) (hctx h) (stored_digest h);
        Ok (err, Some out, Hasher (Some s) ctx err out)
      else Ok (stored_error h, Some (stored_digest h), h)
  end.

(** ** The factory *)

Definition getHasher (name : bstr) (h : hasher) : error * hasher :=
  match find (fun s => bstr_eqb (scheme_name s) name) strategies with
  | None => (ERROR SYS_INVALID_INPUT_PARAM, h)
  | Some s => hasher_init s h
  end.

(** The table is an [unordered_map]: [order] is the order of its iteration. *)
Definition get_hash_scheme_from_checksum (order : list scheme) (chksum scheme : bstr) : error * bstr :=
  if bstr_eqb chksum [] then (ERROR SYS_INVALID_INPUT_PARAM, scheme)
  else match find (fun s => isChecksum s chksum) order with
       | Some s => (SUCCESS, scheme_name s)
       | None => (ERROR SYS_INVALID_INPUT_PARAM, scheme)
       end.

End hasher.

(** ** What a checksum is *)

(** The schemes that OpenSSL computes. *)
Definition evp_scheme (s : scheme) : bool :=
  match s with ADLER32 | CRC64NVME => false | _ => true end.

(** What the libraries document: a context stands for an algorithm and the bytes it was
    given, in any pieces; the digest is a function of those, of the algorithm's length. *)
Class MessageDigestLaws (MD : MessageDigest) := {
  md_alg : md_ctx -> bstr;
  md_data : md_ctx -> bstr;
  md_hash : bstr -> bstr -> bstr;
  md_init_ok : forall s, evp_scheme s = true ->
    exists c, md_init (scheme_name s) = Some c /\ md_alg c = scheme_name s /\ md_data c = [];
  md_update_ok : forall c d,
    exists c', md_update c d = Some c' /\ md_alg c' = md_alg c /\ md_data c' = md_data c ++ d;
  md_final_ok : forall c, md_final c = Some (md_hash (md_alg c) (md_data c));
  md_hash_length : forall s d, evp_scheme s = true -> length (md_hash (scheme_name s) d) = digest_length s;
  crc_data : crc_ctx -> bstr;
  crc_hash : bstr -> Z;
  crc_new_data : crc_data crc_new = [];
  process_bytes_data : forall c d, crc_data (process_bytes c d) = crc_data c ++ d;
  crc_checksum_ok : forall c, crc_checksum c = crc_hash (crc_data c)
}.

(** Adler-32 by its definition: one sum of the bytes, and one in which a byte counts as
    often as it and its successors are many. *)
Definition total (d : bstr) : Z := foldr (fun c n => uchar c + n) 0 d.
Fixpoint weighted (d : bstr) : Z :=
  match d with [] => 0 | c :: d' => Z.of_nat (length d) * uchar c + weighted d' end.
Definition adler32 (d : bstr) : Z :=
  65536 * ((Z.of_nat (length d) + weighted d) mod MOD_ADLER) + (1 + total d) mod MOD_ADLER.

Section facts.
Context {MD : MessageDigest} {MDL : MessageDigestLaws MD}.

(** The bytes of the digest, for the schemes that have any. *)
Definition raw_digest (s : scheme) (d : bstr) : bstr :=
  match s with CRC64NVME => crc_bytes (crc_hash d) | _ => md_hash (scheme_name s) d end.

(** The checksum of some data, and its digest in hexadecimal. *)
Definition checksum_of (s : scheme) (d : bstr) : bstr :=
  match s with
  | MD5 => concat (map hex_byte (raw_digest s d))
  | ADLER32 => checksum_prefix s ++ hex_uint32 (adler32 d)
  | _ => checksum_prefix s ++ encode_groups (raw_digest s d)
  end.

Definition hex_of (s : scheme) (d : bstr) : bstr :=
  match s with ADLER32 => hex_uint32 (adler32 d) | _ => concat (map hex_byte (raw_digest s d)) end.

(** *** Adler-32 *)

Lemma uint32_small z : 0 <= z < 2 ^ 32 -> uint32 z = z.
Proof. apply Z.mod_small. Qed.

Lemma adler_step a c : 0 <= a < MOD_ADLER -> uint32 (a + uchar c) mod MOD_ADLER = (a + uchar c) mod MOD_ADLER.
Proof. unfold MOD_ADLER. intros. pose proof (uchar_range c). rewrite uint32_small by lia. done. Qed.

Lemma total_app d1 d2 : total (d1 ++ d2) = total d1 + total d2.
Proof. induction d1 as [|c d1 IH]; simpl; [done|]. unfold total in *. lia. Qed.

Lemma weighted_app d1 d2 : weighted (d1 ++ d2) = weighted d1 + Z.of_nat (length d2) * total d1 + weighted d2.
Proof.
  induction d1 as [|c d1 IH]; cbn [app weighted]; [unfold total; simpl; lia|].
  cbn [length total foldr]. fold (total d1). rewrite length_app, IH. lia.
Qed.

(** The loop keeps both sums reduced. *)
Lemma adler32_update_spec d : forall a b,
  adler32_update (a mod MOD_ADLER) (b mod MOD_ADLER) d =
  ((a + total d) mod MOD_ADLER, (b + Z.of_nat (length d) * a + weighted d) mod MOD_ADLER).
Proof.
  induction d as [|c d IH]; intros a b; cbn [adler32_update].
  - f_equal; f_equal; unfold total; simpl; lia.
  - assert (0 < MOD_ADLER < 2 ^ 17) as Hm by done.
    rewrite (adler_step _ c) by (apply Z.mod_pos_bound; lia).
    rewrite (Z.add_mod_idemp_l a) by lia.
    pose proof (Z.mod_pos_bound b MOD_ADLER). pose proof (Z.mod_pos_bound (a + uchar c) MOD_ADLER).
    rewrite uint32_small by lia. rewrite <- Z.add_mod, IH by lia.
    cbn [length weighted]. f_equal; f_equal; [unfold total; simpl; lia|]. lia.
Qed.

Lemma adler32_final_spec d :
  let '(a, b) := adler32_update 1 0 d in adler32_final a b = adler32 d.
Proof.
  pose proof (adler32_update_spec d 1 0) as H.
  change (1 mod MOD_ADLER) with 1 in H. change (0 mod MOD_ADLER) with 0 in H. rewrite H.
  unfold adler32_final, adler32.
  replace (0 + Z.of_nat (length d) * 1 + weighted d) with (Z.of_nat (length d) + weighted d) by lia.
  set (b := _ mod _). set (a := _ mod _).
  assert (0 <= b < MOD_ADLER) as Hb by (apply Z.mod_pos_bound; done).
  assert (0 <= a < MOD_ADLER) as Ha by (apply Z.mod_pos_bound; done).
  unfold MOD_ADLER in *.
  rewrite uint32_small, lor_shift by (rewrite ?Z.shiftl_mul_pow2; lia). lia.
Qed.

Lemma adler32_update_app x y a b :
  adler32_update a b (x ++ y) = let '(a, b) := adler32_update a b x in adler32_update a b y.
Proof. revert a b. induction x as [|c x IH]; intros a b; simpl; [done|]. apply IH. Qed.

(** *** The life of a hasher *)

(** A hasher that was given [d] and has no digest yet. *)
Definition hashes (s : scheme) (d : bstr) (h : hasher) : Prop :=
  strategy h = Some s /\ stored_digest h = [] /\
  match s, hctx h with
  | ADLER32, Adler a b => (a, b) = adler32_update 1 0 d
  | CRC64NVME, Crc c => crc_data c = d
  | (ADLER32 | CRC64NVME), _ => False
  | _, Evp c => md_alg c = scheme_name s /\ md_data c = d
  | _, _ => False
  end.

Lemma find_scheme s : find (fun t => bstr_eqb (scheme_name t) (scheme_name s)) strategies = Some s.
Proof. by destruct s. Qed.

Lemma hasher_init_ok s h : exists h', hasher_init s h = (SUCCESS, h') /\ hashes s [] h'.
Proof.
  unfold hasher_init, hashes.
  destruct (evp_scheme s) eqn:E.
  - destruct (md_init_ok s E) as (c & Hc & Ha & Hd). eexists (Hasher _ (Evp c) _ _).
    destruct s; try done; simpl in *; unfold evp_init; simpl; by rewrite Hc.
  - destruct s; try done; simpl; eexists (Hasher _ _ _ _); split_and!; try done. apply crc_new_data.
Qed.

Lemma getHasher_ok s h : exists h', getHasher (scheme_name s) h = (SUCCESS, h') /\ hashes s [] h'.
Proof. unfold getHasher. rewrite find_scheme. apply hasher_init_ok. Qed.

Lemma hasher_update_ok s d x h :
  hashes s d h -> exists h', hasher_update x h = Ok (SUCCESS, h') /\ hashes s (d ++ x) h'.
Proof.
  destruct h as [st ctx se sd]. unfold hashes, hasher_update. simpl. intros (-> & -> & H). simpl.
  destruct (evp_scheme s) eqn:E.
  - assert (exists c, ctx = Evp c /\ md_alg c = scheme_name s /\ md_data c = d) as (c & -> & Ha & Hd)
      by (destruct s, ctx; simpl in *; destruct_and?; eauto; done).
    destruct (md_update_ok c x) as (c' & Hu & Ha' & Hd').
    exists (Hasher (Some s) (Evp c') se []). rewrite Hd in Hd'. rewrite Ha in Ha'.
    destruct s; try done; simpl; by rewrite Hu.
  - destruct s; try done; destruct ctx as [| |a b|c]; try done; simpl.
    + destruct (adler32_update a b x) as [a' b'] eqn:Hx. eexists. split; [done|]. simpl.
      split_and!; [done..|]. rewrite adler32_update_app, <- H. done.
    + eexists. split; [done|]. simpl. split_and!; [done..|]. by rewrite process_bytes_data, H.
Qed.

Lemma crc_bytes_length z : length (crc_bytes z) = 8%nat.
Proof. done. Qed.

Lemma raw_digest_length s d : s <> ADLER32 -> length (raw_digest s d) = digest_length s.
Proof. intros Hs. destruct s; try done; by apply (md_hash_length _). Qed.

Lemma raw_buffer s d : evp_scheme s = true -> final_buffer s (raw_digest s d) = Ok (raw_digest s d).
Proof.
  intros E. unfold final_buffer. rewrite raw_digest_length by (by destruct s).
  rewrite Nat.ltb_irrefl, Nat.sub_diag. simpl. by rewrite app_nil_r.
Qed.

(** No digest is too long to be encoded. *)
Lemma digest_encoded s d n :
  s <> ADLER32 -> 89 <= n -> base64_encode (raw_digest s d) n = (0, encode_groups (raw_digest s d)).
Proof.
  intros Hs Hn. unfold base64_encode. rewrite raw_digest_length by done.
  destruct (Z.ltb_spec n (ulong (ulong (4 * (ulong (Z.of_nat (digest_length s) + 2) / 3)) + 1))) as [Hl|Hl]; [|done].
  exfalso. destruct s; try done;
    match type of Hl with _ < ?x => let y := eval vm_compute in x in change x with y in Hl end; lia.
Qed.

(** The text of a digest: by the options of the scheme, and in hexadecimal. *)
Lemma digest_text s d h o t :
  hashes s d h -> (o, t) = (default_options s, checksum_of s d) \/ (o, t) = (Options hex_string false, hex_of s d) ->
  exists ctx, strategy_digest s o (hctx h) [] = Ok (SUCCESS, ctx, t).
Proof.
  intros (_ & _ & H) Ho. destruct (evp_scheme s) eqn:E.
  - assert (exists c, hctx h = Evp c /\ md_alg c = scheme_name s /\ md_data c = d) as (c & Hc & Ha & Hd)
      by (destruct s, (hctx h); simpl in *; destruct_and?; eauto; done).
    exists Null. rewrite Hc.
    assert (md_final c = Some (raw_digest s d)) as Hf by (rewrite md_final_ok, Ha, Hd; by destruct s).
    assert (prepare_output_string s o (raw_digest s d) [] = (SUCCESS, t)) as Hp.
    { destruct Ho as [[= -> ->]|[= -> ->]]; [|by destruct s].
      unfold prepare_output_string, prepare_base64_encoded_string.
      destruct s; try done; cbn [default_options mode include_checksum_prefix]; by rewrite digest_encoded. }
    destruct s; try done; cbn [strategy_digest evp_digest crc_digest]; rewrite Hf; unfold mbind, res_bind;
      rewrite raw_buffer by done; by rewrite Hp.
  - destruct s; try done; destruct (hctx h) as [| |a b|c]; try done.
    + exists (Adler a b). pose proof (adler32_final_spec d) as Hf. rewrite <- H in Hf.
      destruct Ho as [[= -> ->]|[= -> ->]]; cbn [strategy_digest adler_digest mode default_options]; by rewrite Hf.
    + exists Null. cbn [strategy_digest evp_digest crc_digest]. rewrite crc_checksum_ok, H.
      destruct Ho as [[= -> ->]|[= -> ->]]; [|done].
      unfold prepare_output_string, prepare_base64_encoded_string. cbn [default_options mode include_checksum_prefix].
      pose proof (digest_encoded CRC64NVME d LONG_CHKSUM_LEN) as He. cbn [raw_digest] in He. by rewrite He.
Qed.

(** *** Lengths *)

Definition checksum_length (s : scheme) : nat :=
  match s with MD5 => 32 | SHA1 => 33 | SHA256 => 49 | SHA512 => 95 | ADLER32 => 16 | CRC64NVME => 22 end%nat.

Lemma hex_length d : length (concat (map hex_byte d)) = (2 * length d)%nat.
Proof. induction d as [|c d IH]; simpl; [done|]. lia. Qed.

Lemma checksum_of_length s d : length (checksum_of s d) = checksum_length s.
Proof.
  assert (s <> ADLER32 -> length (encode_groups (raw_digest s d)) =
          (4 * ((digest_length s + 2) / 3))%nat) as He.
  { intros Hs. pose proof (encode_groups_length (raw_digest s d)) as H. rewrite raw_digest_length in H by done.
    apply Nat2Z.inj. rewrite H. rewrite Nat2Z.inj_mul, Nat2Z.inj_div, Nat2Z.inj_add. done. }
  destruct s; cbn [checksum_of]; rewrite ?length_app, ?hex_length, ?raw_digest_length, ?He by done; done.
Qed.

Lemma checksum_of_nonempty s d : checksum_of s d <> [].
Proof. intros H. pose proof (checksum_of_length s d) as Hl. rewrite H in Hl. by destruct s. Qed.

Lemma hasher_digest_ok s d h :
  hashes s d h ->
  exists h', hasher_digest None h = Ok (SUCCESS, Some (checksum_of s d), h') /\
    strategy h' = Some s /\ stored_error h' = SUCCESS /\ stored_digest h' = checksum_of s d.
Proof.
  intros H. destruct (digest_text s d h _ _ H (or_introl eq_refl)) as [ctx Hd].
  destruct H as (Hs & Hsd & _). unfold hasher_digest. rewrite Hs, Hsd. simpl. rewrite Hd. simpl. eauto.
Qed.

Lemma hasher_digest_hex s d h :
  hashes s d h -> exists h', hasher_digest (Some (Options hex_string false)) h = Ok (SUCCESS, Some (hex_of s d), h').
Proof.
  intros H. destruct (digest_text s d h _ _ H (or_intror eq_refl)) as [ctx Hd].
  destruct H as (Hs & Hsd & _). unfold hasher_digest. rewrite Hs, Hsd. simpl. rewrite Hd. simpl. eauto.
Qed.

(** *** Recognising a checksum *)

Lemma has_prefix_app p r : has_prefix (p ++ r) p = true.
Proof. unfold has_prefix. rewrite take_app_length. by apply bstr_eqb_eq. Qed.

Lemma hex_digit_hex z : 0 <= z < 16 -> is_any_of hex_digits (hex_digit z) = true.
Proof.
  intros Hz. assert (In z (map Z.of_nat (seq 0 16))) as Hin.
  { apply in_map_iff. exists (Z.to_nat z). split; [lia|]. apply in_seq. lia. }
  simpl in Hin. by repeat destruct Hin as [<-|Hin].
Qed.

Lemma all_hex d : find_first_not_of (concat (map hex_byte d)) hex_digits (Some 0%nat) = None.
Proof.
  unfold find_first_not_of, find_from. rewrite drop_0.
  enough (find_idx (fun c => negb (is_any_of hex_digits c)) (concat (map hex_byte d)) = None) as -> by done.
  induction d as [|c d IH]; [done|]. cbn [map concat hex_byte app find_idx].
  pose proof (uchar_range c).
  rewrite !hex_digit_hex by (first [apply Z.mod_pos_bound; lia | split; [apply Z.div_pos; lia|apply Z.div_lt_upper_bound; lia]]).
  cbn [negb]. by rewrite IH.
Qed.

Lemma checksum_recognised s d : isChecksum s (checksum_of s d) = true.
Proof. destruct s; cbn [isChecksum checksum_of]; try apply has_prefix_app. by rewrite all_hex. Qed.

(** No text is a checksum by two schemes. *)
Lemma isChecksum_inj s t c : c <> [] -> isChecksum s c = true -> isChecksum t c = true -> s = t.
Proof.
  assert (forall p, has_prefix c p = true -> exists r, c = p ++ r) as Hp.
  { intros p H%bstr_eqb_eq. exists (drop (length p) c). rewrite <- H at 1. by rewrite take_drop. }
  intros Hc. destruct s, t; try done; cbn [isChecksum]; intros H1 H2;
    try (apply Hp in H1 as [r1 ->]); try (apply Hp in H2 as [r2 H2]); try discriminate H2;
    try (subst c; discriminate H1); try (vm_compute in H2; done).
Qed.

Lemma find_order order s c :
  order ≡ₚ strategies -> c <> [] -> isChecksum s c = true -> find (fun t => isChecksum t c) order = Some s.
Proof.
  intros Ho Hc Hs. destruct (find _ order) as [t|] eqn:E.
  - apply find_some in E as [_ Ht]. f_equal. by apply (isChecksum_inj t s c).
  - pose proof (find_none _ _ E s) as Hn. simpl in Hn. rewrite Hn in Hs; [done|].
    apply (Permutation_in _ (symmetry Ho)). destruct s; simpl; tauto.
Qed.

(** The updates with a list of pieces, up to the first error. *)
Fixpoint update_all (pieces : list bstr) (h : hasher) : res (error * hasher) :=
  match pieces with
  | [] => Ok (SUCCESS, h)
  | x :: pieces' =>
      '(err, h) ← hasher_update x h;
      match err with SUCCESS => update_all pieces' h | ERROR c => Ok (ERROR c, h) end
  end.

Lemma update_all_ok s pieces d h :
  hashes s d h -> exists h', update_all pieces h = Ok (SUCCESS, h') /\ hashes s (d ++ concat pieces) h'.
Proof.
  revert d h. induction pieces as [|x pieces IH]; intros d h H; cbn [update_all concat].
  - exists h. by rewrite app_nil_r.
  - destruct (hasher_update_ok s d x h H) as (h1 & -> & H1). simpl.
    destruct (IH _ _ H1) as (h' & ? & ?). exists h'. by rewrite app_assoc.
Qed.

(** A hasher found by the name of a scheme takes its data in any pieces and gives the
    checksum of their concatenation; Adler-32 is the sum its definition says. The digest is
    then fixed: an update is refused, and asking again, with any options, gives the same
    text. *)
Theorem hash_of_pieces s pieces :
  exists h h', (let '(err, h0) := getHasher (scheme_name s) new_hasher in
                match err with SUCCESS => update_all pieces h0 | ERROR c => Ok (ERROR c, h0) end) = Ok (SUCCESS, h) /\
    hasher_digest None h = Ok (SUCCESS, Some (checksum_of s (concat pieces)), h') /\
    (forall x, hasher_update x h' = Ok (ERROR SYS_HASH_IMMUTABLE, h')) /\
    (forall o, hasher_digest o h' = Ok (SUCCESS, Some (checksum_of s (concat pieces)), h')).
Proof.
  destruct (getHasher_ok s new_hasher) as (h0 & -> & H0).
  destruct (update_all_ok s pieces [] h0 H0) as (h & Hh & H). exists h.
  destruct (hasher_digest_ok _ _ _ H) as (h' & Hd & Hs & He & Ht). exists h'. split_and!; [done..| |].
  - intros x. unfold hasher_update. rewrite Hs, Ht, (proj2 (bstr_eqb_neq _ _)); [done|apply checksum_of_nonempty].
  - intros o. unfold hasher_digest. rewrite Hs, Ht, (proj2 (bstr_eqb_neq _ _)), He; [done|apply checksum_of_nonempty].
Qed.

(** The scheme of a checksum is found from its text, in whatever order the table is
    walked. *)
Lemma scheme_of_checksum order s d out :
  order ≡ₚ strategies ->
  get_hash_scheme_from_checksum order (checksum_of s d) out = (SUCCESS, scheme_name s).
Proof.
  intros Ho. unfold get_hash_scheme_from_checksum.
  rewrite (proj2 (bstr_eqb_neq _ _)) by apply checksum_of_nonempty.
  rewrite (find_order _ s); [done..|apply checksum_of_nonempty|apply checksum_recognised].
Qed.
End facts.

(** ** A reference for the libraries *)

(** A digest that only depends on the data, of the length of the algorithm. *)
Definition ref_hash (alg d : bstr) : bstr :=
  match find (fun s => bstr_eqb (scheme_name s) alg) strategies with
  | Some s => take (digest_length s) (d ++ replicate (digest_length s) "x"%char)
  | None => []
  end.

Definition digest_ref : MessageDigest := {|
  md_ctx := bstr * bstr;
  md_init := fun alg => Some (alg, []);
  md_update := fun c x => Some (c.1, c.2 ++ x);
  md_final := fun c => Some (ref_hash c.1 c.2);
  crc_ctx := bstr;
  crc_new := [];
  process_bytes := fun c x => c ++ x;
  crc_checksum := fun c => total c
|}.

#[export] Instance digest_ref_laws : MessageDigestLaws digest_ref.
Proof.
  refine {| md_alg := fun c : @md_ctx digest_ref => c.1; md_data := fun c : @md_ctx digest_ref => c.2;
            md_hash := ref_hash; crc_data := fun c : @crc_ctx digest_ref => c; crc_hash := total |}; try done.
  - intros s _. by eexists (_, _).
  - intros c d. by eexists (_, _).
  - intros s d _. unfold ref_hash. rewrite find_scheme, length_take, length_app, length_replicate. lia.
Defined.

Example adler32_wikipedia : hex_uint32 (adler32 (lit "Wikipedia")) = lit "11e60398".
Proof. reflexivity. Qed.

Lemma hash_of_pieces_witness :
  exists h h', (let '(err, h0) := getHasher (MD := digest_ref) (lit "adler32") new_hasher in
                match err with SUCCESS => update_all [lit "Wiki"; lit "pedia"] h0 | ERROR c => Ok (ERROR c, h0) end) =
               Ok (SUCCESS, h) /\
    hasher_digest None h = Ok (SUCCESS, Some (lit "adler32:11e60398"), h').
Proof.
  destruct (hash_of_pieces (MDL := digest_ref_laws) ADLER32 [lit "Wiki"; lit "pedia"]) as (h & h' & H1 & H2 & _).
  exists h, h'. split; [exact H1|]. rewrite H2. reflexivity.
Defined.
