(* ===== verification/Checksum.v ===== *)
(** * Checksums of files

    [lib/hasher/src/checksum.cpp], the checksum of a local file, and
    [server/api/src/rsFileChksum.cpp], that of a replica. Which scheme is used depends on
    the checksum that is known already, on the configuration and on a policy; what is read,
    and in which pieces, is a parameter. *)

From stdpp Require Import base list strings.
From Stdlib Require Import ZArith Lia Ascii Permutation.
From S2P Require Import Prelude Errors Numerals Hierarchy Base64 KeyVal StrArray Hasher.
Local Open Scope Z_scope.

Definition tolower (c : ascii) : ascii :=
  if (65 <=? uchar c) && (uchar c <=? 90) then chr (uchar c + 32) else c.
Definition to_lower (s : bstr) : bstr := map tolower s.

Definition STRICT_HASH_POLICY : bstr := lit "strict".
Definition CHKSUM_LEN : nat := 64.
Definition HASH_BUF_SZ : Z := 1024 * 1024.

(** The hash settings of a [rodsEnv]. *)
Record hash_env : Type := HashEnv { rodsDefaultHashScheme : bstr; rodsMatchHashPolicy : bstr }.

(** A local file: it cannot be opened, or it has contents and reading them fails at the end
    of those or does not; the numbers are [errno]. *)
Inductive file : Type :=
| NoFile (errno : Z)
| File (contents : bstr) (failure : option Z).

Section checksum.
Context {MD : MessageDigest}.

(** ** Local files *)

(** The loop over blocks of [HASH_BUF_SZ] bytes and the rest: an error code, or the hasher.
    [fuel] bounds the number of blocks. *)
Fixpoint hash_blocks (fuel : nat) (h : hasher) (s : bstr) (failure : option Z) : res (Z + hasher) :=
  match fuel with
  | O => Throw Ediverge
  | S fuel =>
      if HASH_BUF_SZ <=? Z.of_nat (length s) then
        '(err, h) ← hasher_update (take (Z.to_nat HASH_BUF_SZ) s) h;
        match err with
        | SUCCESS => hash_blocks fuel h (drop (Z.to_nat HASH_BUF_SZ) s) failure
        | ERROR c => Ok (inl c)
        end
      else match failure with
           | Some errno => Ok (inl (UNIX_FILE_READ_ERR - errno))
           | None =>
               if bstr_eqb s [] then Ok (inr h)
               else '(err, h) ← hasher_update s h;
                    match err with SUCCESS => Ok (inr h) | ERROR c => Ok (inl c) end
           end
  end.

(** The digest that ends a computation: the code, and the text. *)
Definition finish (h : hasher) : res (Z * option bstr) :=
  '(err, digest, _) ← hasher_digest None h;
  match err with SUCCESS => Ok (0, digest) | ERROR c => Ok (c, None) end.

Definition env_scheme (env : hash_env) : bstr :=
  to_lower (if bstr_eqb (rodsDefaultHashScheme env) [] then scheme_name SHA256 else rodsDefaultHashScheme env).

(** The scheme of [chksumLocFile], or an error. *)
Definition local_scheme (env : hash_env) (hash_scheme : bstr) : Z + bstr :=
  let given := (0 <? length hash_scheme)%nat && (length hash_scheme <? CHKSUM_LEN)%nat in
  let hash_scheme := if given then to_lower hash_scheme else env_scheme env in
  if bstr_eqb hash_scheme [] then inr (env_scheme env)
  else if bstr_eqb STRICT_HASH_POLICY (rodsMatchHashPolicy env) && negb (bstr_eqb (env_scheme env) hash_scheme)
  then inl USER_HASH_TYPE_MISMATCH
  else inr hash_scheme.

(** [chksumLocFile]: the code and the text written to [_checksum]. [env] is what
    [getRodsEnv] gives; [None] is a null scheme. *)
Definition chksumLocFile (env : Z + hash_env) (f : file) (hash_scheme : option bstr) : res (Z * option bstr) :=
  match hash_scheme with
  | None => Ok (SYS_INVALID_INPUT_PARAM, None)
  | Some hash_scheme =>
      match env with
      | inl status => Ok (status, None)
      | inr env =>
          match local_scheme env hash_scheme with
          | inl c => Ok (c, None)
          | inr final_scheme =>
              match getHasher final_scheme new_hasher with
              | (ERROR c, _) => Ok (c, None)
              | (SUCCESS, h) =>
                  match f with
                  | NoFile errno => Ok (UNIX_FILE_OPEN_ERR - errno, None)
                  | File s failure =>
                      r ← hash_blocks (S (length s)) h s failure;
                      match r with inl c => Ok (c, None) | inr h => finish h end
                  end
              end
          end
      end
  end.

Definition verifyChksumLocFile (order : list scheme) (env : Z + hash_env) (f : file) (myChksum : bstr)
    : res (Z * option bstr) :=
  let '(_, scheme) := get_hash_scheme_from_checksum order myChksum [] in
  '(status, chksumStr) ← chksumLocFile env f (Some scheme);
  if status <? 0 then Ok (status, chksumStr)
  else match chksumStr with
       | Some c => if bstr_eqb myChksum c then Ok (0, chksumStr) else Ok (USER_CHKSUM_MISMATCH, chksumStr)
       | None => Throw Eundef
       end.

Definition VERIFY_CHKSUM_KW : bstr := lit "verifyChksum".
Definition REG_CHKSUM_KW : bstr := lit "regChksum".
Definition RSYNC_CHKSUM_KW : bstr := lit "rsyncChksum".

(** [rcChksumLocFile] with all of its pointers but the scheme given. *)
Definition rcChksumLocFile (env : Z + hash_env) (f : file) (chksumFlag : bstr) (condInput : keyValPair)
    (hash_scheme : option bstr) : res (Z * keyValPair) :=
  if negb (bstr_eqb chksumFlag VERIFY_CHKSUM_KW) && negb (bstr_eqb chksumFlag REG_CHKSUM_KW) &&
     negb (bstr_eqb chksumFlag RSYNC_CHKSUM_KW)
  then Ok (USER_BAD_KEYWORD_ERR, condInput)
  else '(status, chksumStr) ← chksumLocFile env f hash_scheme;
       if status <? 0 then Ok (status, condInput)
       else match chksumStr with
            | Some _ => '(_, kv) ← addKeyVal condInput chksumFlag chksumStr; Ok (0, kv)
            | None => Throw Eundef
            end.

(** ** Replicas *)

(** The settings of the server; [None] where it has none. *)
Record hash_config : Type := HashConfig {
  default_hash_scheme : option bstr; match_hash_policy : option bstr; checksum_read_buffer_size : option Z }.

(** What the resource does: opening fails with a code and an [errno] or succeeds; every read
    fails with a code or gives bytes, none at the end of the file, as all reads behind the
    listed ones do; a checksum may be had from the device. *)
Record storage : Type := Storage {
  open_failure : option (Z * Z); reads : list (Z + bstr); device_checksum : bstr -> Z + bstr }.

Definition get_read_buffer_size (cfg : hash_config) : Z :=
  from_option id (1024 * 1024) (checksum_read_buffer_size cfg).

Definition server_default_scheme (cfg : hash_config) : bstr :=
  to_lower (from_option id (scheme_name MD5) (default_hash_scheme cfg)).

(** Whether the policy is strict: [fileChksum] keeps the setting in a string,
    [file_checksum] a view of a string that is gone, of which only the length is known. *)
Definition strict_string (cfg : hash_config) : res bool :=
  Ok (bstr_eqb STRICT_HASH_POLICY (from_option id [] (match_hash_policy cfg))).

Definition strict_view (cfg : hash_config) : res bool :=
  if (length (from_option id [] (match_hash_policy cfg)) =? length STRICT_HASH_POLICY)%nat
  then Throw Eundef else Ok false.

(** The scheme of a checksum that is known, if it has one, or that of the server. *)
Definition server_scheme (strict : res bool) (order : list scheme) (cfg : hash_config) (orig_chksum : option bstr)
    : res (Z + bstr) :=
  let chkstr_scheme := match orig_chksum with
                       | Some c => (get_hash_scheme_from_checksum order c []).2
                       | None => []
                       end in
  if bstr_eqb chkstr_scheme [] then Ok (inr (server_default_scheme cfg))
  else b ← strict;
       if b && negb (bstr_eqb (server_default_scheme cfg) chkstr_scheme)
       then Ok (inl USER_HASH_TYPE_MISMATCH)
       else Ok (inr chkstr_scheme).

(** A hasher for the scheme, or one for MD5. *)
Definition hasher_or_md5 (scheme : bstr) : Z + hasher :=
  match getHasher scheme new_hasher with
  | (SUCCESS, h) => inr h
  | (ERROR c, h) => match getHasher (scheme_name MD5) h with
                    | (SUCCESS, h) => inr h
                    | (ERROR _, _) => inl c
                    end
  end.

Definition open_code (f : Z * Z) : Z :=
  let '(code, errno) := f in if code =? DIRECT_ARCHIVE_ACCESS then code else UNIX_FILE_OPEN_ERR - errno.

(** [strncpy] of a string to a buffer of [CHKSUM_LEN] bytes. *)
Definition strncpy_chksum (s : bstr) : bstr := take CHKSUM_LEN (c_str s ++ replicate CHKSUM_LEN NUL).

Definition finish_buffer (h : hasher) : res (Z * option bstr) :=
  '(code, digest) ← finish h; Ok (code, option_map strncpy_chksum digest).

(** The loop of [fileChksum]: to the end of the file. *)
Fixpoint hash_reads (size : Z) (h : hasher) (rs : list (Z + bstr)) : res (Z + hasher) :=
  match rs with
  | [] => Ok (inr h)
  | inl c :: _ => Ok (inl c)
  | inr d :: rs' =>
      if bstr_eqb d [] then Ok (inr h)
      else if size <? Z.of_nat (length d) then Throw Eundef
      else '(err, h) ← hasher_update d h;
           match err with SUCCESS => hash_reads size h rs' | ERROR c => Ok (inl c) end
  end.

(** [fileChksum]: the code and the buffer written. *)
Definition fileChksum (order : list scheme) (cfg : hash_config) (st : storage) (orig_chksum : option bstr)
    : res (Z * option bstr) :=
  r ← server_scheme (strict_string cfg) order cfg orig_chksum;
  match r with
  | inl c => Ok (c, None)
  | inr final_scheme =>
      match open_failure st with
      | Some f => Ok (open_code f, None)
      | None =>
          match hasher_or_md5 final_scheme with
          | inl c => Ok (c, None)
          | inr h =>
              if get_read_buffer_size cfg <=? 0 then Ok (CONFIGURATION_ERROR, None)
              else r ← hash_reads (get_read_buffer_size cfg) h (reads st);
                   match r with inl c => Ok (c, None) | inr h => finish_buffer h end
          end
      end
  end.

(** The loop of [file_checksum]: as many bytes as the catalog says the replica has. A failed
    read has a negative code. *)
Fixpoint hash_sized (size : Z) (h : hasher) (data_size : Z) (rs : list (Z + bstr)) : res (Z + hasher) :=
  if data_size <=? 0 then Ok (inr h)
  else match rs with
       | [] => Ok (inl UNIX_FILE_READ_ERR)
       | inl c :: _ =>
           if 0 <? c then Throw Eundef
           else if c =? 0 then Ok (inl UNIX_FILE_READ_ERR) else Ok (inl c)
       | inr d :: rs' =>
           if bstr_eqb d [] then Ok (inl UNIX_FILE_READ_ERR)
           else if Z.min data_size size <? Z.of_nat (length d) then Throw Eundef
           else '(err, h) ← hasher_update d h;
                match err with
                | SUCCESS => hash_sized size h (data_size - Z.of_nat (length d)) rs'
                | ERROR c => Ok (inl c)
                end
       end.

Definition file_checksum (order : list scheme) (cfg : hash_config) (st : storage) (hier : bstr)
    (orig_chksum : option bstr) (data_size : Z) : res (Z * option bstr) :=
  r ← server_scheme (strict_view cfg) order cfg orig_chksum;
  match r with
  | inl c => Ok (c, None)
  | inr final_scheme =>
      match device_checksum st final_scheme with
      | inr c => Ok (0, Some (strncpy_chksum c))
      | inl _ =>
          match hasher_or_md5 final_scheme with
          | inl c => Ok (c, None)
          | inr h =>
              _ ← hierarchy_parser hier;
              match open_failure st with
              | Some f => Ok (open_code f, None)
              | None =>
                  if get_read_buffer_size cfg <=? 0 then Ok (CONFIGURATION_ERROR, None)
                  else r ← hash_sized (get_read_buffer_size cfg) h data_size (reads st);
                       match r with inl c => Ok (c, None) | inr h => finish_buffer h end
              end
          end
      end
  end.

(** [_rsFileChksum], which allocates the buffer, and frees it on an error. *)
Definition _rsFileChksum (order : list scheme) (cfg : hash_config) (st : storage) (hier : bstr)
    (orig_chksum : option bstr) (data_size : Z) : res (Z * option bstr) :=
  '(ec, buf) ← file_checksum order cfg st hier orig_chksum data_size;
  Ok (ec, if ec <? 0 then None else buf).

End checksum.

(** ** Facts *)

Section facts.
Context {MD : MessageDigest} {MDL : MessageDigestLaws MD}.

Lemma finish_ok s d h : hashes s d h -> finish h = Ok (0, Some (checksum_of s d)).
Proof. intros H. unfold finish. by destruct (hasher_digest_ok s d h H) as (h' & -> & _). Qed.

Lemma hash_blocks_ok s x : forall fuel d h,
  hashes s d h -> (length x < fuel)%nat ->
  exists h', hash_blocks fuel h x None = Ok (inr h') /\ hashes s (d ++ x) h'.
Proof.
  induction x as [x IH] using (induction_ltof1 _ length); unfold ltof in IH.
  intros [|fuel] d h H Hf; [lia|]. cbn [hash_blocks].
  destruct (Z.leb_spec HASH_BUF_SZ (Z.of_nat (length x))) as [Hl|Hl].
  - destruct (hasher_update_ok s d (take (Z.to_nat HASH_BUF_SZ) x) h H) as (h1 & -> & H1). cbn [mbind res_bind].
    assert (0 < Z.to_nat HASH_BUF_SZ)%nat as Hb by (unfold HASH_BUF_SZ; lia).
    destruct (IH (drop (Z.to_nat HASH_BUF_SZ) x)) with (fuel := fuel) (2 := H1) as (h' & -> & H');
      [rewrite length_drop; lia|rewrite length_drop; lia|].
    exists h'. split; [done|]. by rewrite <- app_assoc, take_drop in H'.
  - destruct (bstr_eqb x []) eqn:E.
    + apply bstr_eqb_eq in E as ->. exists h. by rewrite app_nil_r.
    + destruct (hasher_update_ok s d x h H) as (h1 & -> & H1). by exists h1.
Qed.

Lemma to_lower_name s : to_lower (scheme_name s) = scheme_name s.
Proof. by destruct s. Qed.

Lemma name_length s : (0 < length (scheme_name s) < CHKSUM_LEN)%nat.
Proof. destruct s; vm_compute; lia. Qed.

(** The policy lets the scheme pass. *)
Definition policy_allows (env : hash_env) (s : scheme) : Prop :=
  rodsMatchHashPolicy env = STRICT_HASH_POLICY -> env_scheme env = scheme_name s.

Lemma local_scheme_ok env s t :
  to_lower t = scheme_name s -> policy_allows env s -> local_scheme env t = inr (scheme_name s).
Proof.
  intros Ht Hp. unfold local_scheme. pose proof (name_length s) as Hl.
  assert (length t = length (scheme_name s)) as Hlen by (by rewrite <- Ht; unfold to_lower; rewrite length_map).
  rewrite Hlen, (proj2 (Nat.ltb_lt _ _)), (proj2 (Nat.ltb_lt _ _)) by lia. cbn [andb]. rewrite Ht.
  rewrite (proj2 (bstr_eqb_neq _ _)) by (intros E; rewrite E in Hl; simpl in Hl; lia).
  destruct (bstr_eqb STRICT_HASH_POLICY (rodsMatchHashPolicy env)) eqn:E; [|done].
  apply bstr_eqb_eq in E. rewrite Hp by done. by rewrite (proj2 (bstr_eqb_eq _ _)).
Qed.

Lemma chksumLocFile_ok env s t d :
  to_lower t = scheme_name s -> policy_allows env s ->
  chksumLocFile (inr env) (File d None) (Some t) = Ok (0, Some (checksum_of s d)).
Proof.
  intros Ht Hp. unfold chksumLocFile. rewrite (local_scheme_ok env s) by done.
  destruct (getHasher_ok s new_hasher) as (h & -> & H).
  destruct (hash_blocks_ok s d (S (length d)) [] h H) as (h' & -> & H'); [lia|]. by apply finish_ok.
Qed.

(** *** Text of a checksum *)

Lemma hex_not_nul c : is_any_of hex_digits c = true -> c <> NUL.
Proof. by intros H ->. Qed.

Lemma hex_byte_not_nul d : Forall (fun c => c <> NUL) (concat (map hex_byte d)).
Proof.
  pose proof (all_hex d) as H. unfold find_first_not_of, find_from in H. rewrite drop_0 in H.
  destruct (find_idx _ _) eqn:E; [done|]. apply find_idx_None in E.
  eapply Forall_impl; [exact E|]. intros c Hc. apply hex_not_nul. by apply negb_false_iff in Hc.
Qed.

Lemma code_at_not_nul x : code_at (Z.land x 63) <> NUL.
Proof.
  rewrite land_63. pose proof (Z.mod_pos_bound x 64). unfold code_at.
  assert (Forall (fun c => c <> NUL) codes) as Hc by (by repeat constructor).
  rewrite Forall_forall in Hc. apply Hc. apply list_elem_of_In, nth_In. change (length codes) with 64%nat. lia.
Qed.

Lemma encode_groups_not_nul d : Forall (fun c => c <> NUL) (encode_groups d).
Proof.
  induction d as [|a|a b|a b c d IH] using group_ind; cbn [encode_groups];
    repeat (constructor; [first [apply code_at_not_nul | done]|]); try done; constructor.
Qed.

Lemma checksum_not_nul s d : Forall (fun c => c <> NUL) (checksum_of s d).
Proof.
  assert (Forall (fun c => c <> NUL) (checksum_prefix s)) as Hp by (by destruct s; repeat constructor).
  destruct s; cbn [checksum_of]; try (apply Forall_app; split; [done|]);
    try apply hex_byte_not_nul; try apply encode_groups_not_nul.
  unfold hex_uint32. rewrite Forall_map. apply Forall_true. intros i.
  apply hex_not_nul, hex_digit_hex. apply Z.mod_pos_bound. lia.
Qed.

(** A text that is shorter than the buffer is read back from it; one that is not has lost
    its terminator. *)
Lemma chksum_buffer t :
  Forall (fun c => c <> NUL) t ->
  c_string (Some (strncpy_chksum t)) 0 = if (length t <? CHKSUM_LEN)%nat then Ok t else Throw Eundef.
Proof.
  intros Ht. unfold c_string, strncpy_chksum. rewrite c_str_id by done. rewrite drop_0.
  assert (forall u, Forall (fun c => c <> NUL) u -> find_idx (Ascii.eqb NUL) u = None) as Hn.
  { intros u Hu. apply find_idx_None. eapply Forall_impl; [exact Hu|]. intros c Hc.
    apply Ascii.eqb_neq. congruence. }
  destruct (Nat.ltb_spec (length t) CHKSUM_LEN) as [Hl|Hl].
  - destruct CHKSUM_LEN as [|n] eqn:E; [done|]. rewrite take_app_ge by lia.
    assert (exists r, take (S n - length t) (replicate (S n) NUL) = NUL :: r) as [r ->]
      by (destruct (S n - length t)%nat eqn:?; [lia|by eexists]).
    assert (find_idx (Ascii.eqb NUL) (t ++ NUL :: r) = Some (length t)) as ->; [|by rewrite take_app_length].
    clear -Hn Ht. induction Ht as [|c t Hc Ht IH]; [done|]. cbn [app find_idx].
    rewrite (proj2 (Ascii.eqb_neq _ _)) by congruence. rewrite IH. done.
  - rewrite take_app_le by lia. rewrite Hn; [done|]. by apply Forall_take.
Qed.

(** *** Replicas *)

(** The pieces that the reads of a file give, each of which fits the buffer. *)
Definition pieces_ok (cfg : hash_config) (pieces : list bstr) : Prop :=
  Forall (fun d => d <> [] /\ Z.of_nat (length d) <= get_read_buffer_size cfg) pieces.

(** The server takes [s]: the scheme of the known checksum, or its own. *)
Definition picks (cfg : hash_config) (orig : option bstr) (s : scheme) : Prop :=
  match orig with
  | Some c => exists d, c = checksum_of s d
  | None => server_default_scheme cfg = scheme_name s
  end.

Lemma server_scheme_ok strict order cfg orig s :
  order ≡ₚ strategies -> picks cfg orig s -> (orig <> None -> strict = Ok false) ->
  server_scheme strict order cfg orig = Ok (inr (scheme_name s)).
Proof.
  intros Ho Hp Hs. unfold server_scheme. destruct orig as [c|]; simpl in *.
  - destruct Hp as [d ->]. rewrite scheme_of_checksum by done. cbn [snd]. rewrite (proj2 (bstr_eqb_neq _ _)) by (by destruct s). by rewrite Hs.
  - by rewrite Hp.
Qed.

Lemma hasher_or_md5_ok s : exists h, hasher_or_md5 (scheme_name s) = inr h /\ hashes s [] h.
Proof. unfold hasher_or_md5. destruct (getHasher_ok s new_hasher) as (h & -> & H). by exists h. Qed.

(** One read, in either loop. *)
Lemma read_piece {A} s d0 d h (k : hasher -> res A) (e : Z -> res A) :
  hashes s d0 h ->
  exists h', ('(err, h) ← hasher_update d h; match err with SUCCESS => k h | ERROR c => e c end) = k h' /\
             hashes s (d0 ++ d) h'.
Proof. intros H. destruct (hasher_update_ok s d0 d h H) as (h' & -> & H'). by exists h'. Qed.

Lemma hash_sized_ok cfg s pieces rest : forall d0 h,
  hashes s d0 h -> pieces_ok cfg pieces ->
  exists h', hash_sized (get_read_buffer_size cfg) h (Z.of_nat (length (concat pieces))) (map inr pieces ++ rest) =
             Ok (inr h') /\ hashes s (d0 ++ concat pieces) h'.
Proof.
  induction pieces as [|d pieces IH]; intros d0 h H Hp.
  - exists h. rewrite app_nil_r. split; [|done]. by destruct rest.
  - apply Forall_cons in Hp as [[Hd Hl] Hp]. cbn [map concat app hash_sized]. rewrite length_app.
    destruct d as [|c d]; [done|]. set (x := c :: d) in *.
    assert (0 < Z.of_nat (length x)) as Hx by (simpl; lia).
    rewrite (proj2 (Z.leb_gt _ _)) by lia. rewrite (proj2 (bstr_eqb_neq x [])) by done.
    rewrite (proj2 (Z.ltb_ge _ _)) by lia.
    destruct (read_piece s d0 x h
      (fun h => hash_sized (get_read_buffer_size cfg) h
                  (Z.of_nat (length x + length (concat pieces)) - Z.of_nat (length x)) (map inr pieces ++ rest))
      (fun c => Ok (inl c)) H) as (h1 & -> & H1).
    replace (Z.of_nat (length x + length (concat pieces)) - Z.of_nat (length x))
      with (Z.of_nat (length (concat pieces))) by lia.
    destruct (IH _ _ H1 Hp) as (h' & -> & H'). exists h'. by rewrite app_assoc.
Qed.

Lemma hash_reads_ok cfg s pieces : forall d0 h,
  hashes s d0 h -> pieces_ok cfg pieces ->
  exists h', hash_reads (get_read_buffer_size cfg) h (map inr pieces) = Ok (inr h') /\
             hashes s (d0 ++ concat pieces) h'.
Proof.
  induction pieces as [|d pieces IH]; intros d0 h H Hp.
  - exists h. by rewrite app_nil_r.
  - apply Forall_cons in Hp as [[Hd Hl] Hp]. cbn [map concat hash_reads].
    rewrite (proj2 (bstr_eqb_neq d [])) by done. rewrite (proj2 (Z.ltb_ge _ _)) by lia.
    destruct (read_piece s d0 d h (fun h => hash_reads (get_read_buffer_size cfg) h (map inr pieces))
      (fun c => Ok (inl c)) H) as (h1 & -> & H1).
    destruct (IH _ _ H1 Hp) as (h' & -> & H'). exists h'. by rewrite app_assoc.
Qed.

(** The text the buffer of a replica's checksum holds. *)
Definition buffer_text (s : scheme) (d : bstr) : res bstr :=
  match s with SHA512 => Throw Eundef | _ => Ok (checksum_of s d) end.

Lemma finish_buffer_ok s d h :
  hashes s d h ->
  finish_buffer h = Ok (0, Some (strncpy_chksum (checksum_of s d))) /\
  c_string (Some (strncpy_chksum (checksum_of s d))) 0 = buffer_text s d.
Proof.
  intros H. unfold finish_buffer. rewrite (finish_ok s d h H). split; [done|].
  rewrite chksum_buffer by apply checksum_not_nul. rewrite checksum_of_length. by destruct s.
Qed.

(** Verifying a local file against a checksum succeeds exactly when the file has that
    checksum, whatever its scheme, and reports a mismatch otherwise: the scheme is found
    from the text, and the file is hashed in blocks as a whole. *)
Theorem verify_local_file order env s d d' :
  order ≡ₚ strategies -> policy_allows env s ->
  verifyChksumLocFile order (inr env) (File d' None) (checksum_of s d) =
  Ok (if bstr_eqb (checksum_of s d) (checksum_of s d') then 0 else USER_CHKSUM_MISMATCH,
      Some (checksum_of s d')).
Proof.
  intros Ho Hp. unfold verifyChksumLocFile. rewrite scheme_of_checksum by done.
  rewrite (chksumLocFile_ok env s) by (done || apply to_lower_name). simpl. by destruct (bstr_eqb _ _).
Qed.

(** The server gives a replica the checksum a client computes of a file with the same
    contents, however the reads cut them; but the buffer is too short for SHA-512, whose
    checksum is left without its end and its terminator. *)
Theorem replica_checksum order cfg env st hier rescs orig s pieces :
  order ≡ₚ strategies -> picks cfg orig s ->
  (orig <> None -> length (from_option id [] (match_hash_policy cfg)) <> length STRICT_HASH_POLICY) ->
  0 < get_read_buffer_size cfg -> pieces_ok cfg pieces ->
  open_failure st = None -> reads st = map inr pieces -> (exists c, device_checksum st (scheme_name s) = inl c) ->
  hierarchy_parser hier = Ok rescs -> policy_allows env s ->
  chksumLocFile (inr env) (File (concat pieces) None) (Some (scheme_name s)) =
    Ok (0, Some (checksum_of s (concat pieces))) /\
  exists buf,
    _rsFileChksum order cfg st hier orig (Z.of_nat (length (concat pieces))) = Ok (0, Some buf) /\
    fileChksum order cfg st orig = Ok (0, Some buf) /\
    c_string (Some buf) 0 = buffer_text s (concat pieces).
Proof.
  intros Ho Hp Hpol Hb Hpc Hopen Hr [c Hdev] Hh Henv.
  split; [apply chksumLocFile_ok; [apply to_lower_name|done]|].
  exists (strncpy_chksum (checksum_of s (concat pieces))).
  destruct (hasher_or_md5_ok s) as (h & Hm & H).
  unfold _rsFileChksum, file_checksum, fileChksum.
  rewrite !(server_scheme_ok _ order cfg orig s) by
    (done || (intros Hn; unfold strict_view; rewrite (proj2 (Nat.eqb_neq _ _)) by (by apply Hpol); done) ||
     (intros Hn; unfold strict_string; rewrite (proj2 (bstr_eqb_neq _ _)); [done|];
      intros E; apply (Hpol Hn); by rewrite <- E)).
  cbn [mbind res_bind]. rewrite Hdev, Hm, Hh, Hopen, Hr. cbn [mbind res_bind].
  rewrite (proj2 (Z.leb_gt _ _)) by lia.
  destruct (hash_sized_ok cfg s pieces [] [] h H Hpc) as (h1 & E1 & H1). rewrite app_nil_r in E1. rewrite E1.
  destruct (hash_reads_ok cfg s pieces [] h H Hpc) as (h2 & -> & H2). cbn [mbind res_bind].
  destruct (finish_buffer_ok s _ h1 H1) as [-> Hc]. destruct (finish_buffer_ok s _ h2 H2) as [-> _]. done.
Qed.
End facts.

(** ** Witnesses *)

Definition sample_env : hash_env := HashEnv (lit "SHA256") (lit "compatible").
Definition sample_config : hash_config := HashConfig (Some (lit "Adler32")) None (Some 8).
Definition sample_storage : storage := Storage None [inr (lit "Wiki"); inr (lit "pedia")] (fun _ => inl SYS_NOT_SUPPORTED).

Lemma verify_local_file_witness :
  verifyChksumLocFile (MD := digest_ref) strategies (inr sample_env) (File (lit "Wikipedia") None)
    (lit "adler32:11e60398") = Ok (0, Some (lit "adler32:11e60398")).
Proof.
  pose proof (verify_local_file (MDL := digest_ref_laws) strategies sample_env ADLER32
                (lit "Wikipedia") (lit "Wikipedia")) as H.
  apply H; [reflexivity|]. intros [=].
Defined.

Lemma replica_checksum_witness :
  exists buf, _rsFileChksum (MD := digest_ref) strategies sample_config sample_storage (lit "root;leaf") None 9 =
                Ok (0, Some buf) /\ c_string (Some buf) 0 = Ok (lit "adler32:11e60398").
Proof.
  destruct (replica_checksum (MDL := digest_ref_laws) strategies sample_config sample_env sample_storage
              (lit "root;leaf") [lit "root"; lit "leaf"] None ADLER32 [lit "Wiki"; lit "pedia"])
    as [_ (buf & H1 & _ & H2)]; try reflexivity; try done.
  - repeat constructor; done.
  - by eexists.
  - exists buf. split; [exact H1|exact H2].
Defined.

(** The catalog has a size that is too large. *)
Example short_replica_refused :
  _rsFileChksum (MD := digest_ref) strategies sample_config sample_storage (lit "root;leaf") None 10 =
  Ok (UNIX_FILE_READ_ERR, None).
Proof. reflexivity. Qed.

(** The policy is read after it is gone. *)
Example strict_policy_undefined :
  _rsFileChksum (MD := digest_ref) strategies (HashConfig None (Some (lit "strict")) None) sample_storage
    (lit "root;leaf") (Some (lit "adler32:11e60398")) 9 = Throw Eundef.
Proof. reflexivity. Qed.

(** Without the known checksum [file_checksum] takes MD5 for a scheme it does not know. *)
Example unknown_scheme_is_md5 :
  hasher_or_md5 (MD := digest_ref) (lit "sha3") = hasher_or_md5 (MD := digest_ref) (lit "md5").
Proof. reflexivity. Qed.
