(* ===== verification/Negotiation.v ===== *)
(** * Client-server negotiation

    [lib/core/src/irods_client_negotiation.cpp] and
    [server/core/src/irods_server_negotiation.cpp]: how a client and an agent agree on TLS or
    plain TCP, and how one server proves to another that it has the same keys; with the parts
    of [sockComm.cpp], [initServer.cpp] and [agent_main.cpp] that ask for the negotiation and
    act on its result.

    A message on the network is modelled by its type, its length and what unpacking it
    gives; OpenSSL's cipher is a parameter, as are its digests. *)

From stdpp Require Import base list strings.
From Stdlib Require Import ZArith Lia Ascii.
From S2P Require Import Prelude Errors Numerals Hierarchy Kvp Quota Hasher.
Local Open Scope Z_scope.

Definition REQ_SVR_NEG : bstr := lit "request_server_negotiation".
Definition RODS_CS_NEG_T : bstr := lit "RODS_CS_NEG_T".
Definition RODS_VERSION_T : bstr := lit "RODS_VERSION".
Definition CS_NEG_STATUS_SUCCESS : Z := 1.
Definition CS_NEG_STATUS_FAILURE : Z := 0.
Definition CS_NEG_FAILURE : bstr := lit "CS_NEG_FAILURE".
Definition CS_NEG_USE_SSL : bstr := lit "CS_NEG_USE_SSL".
Definition CS_NEG_USE_TCP : bstr := lit "CS_NEG_USE_TCP".
Definition CS_NEG_REQUIRE : bstr := lit "CS_NEG_REQUIRE".
Definition CS_NEG_REFUSE : bstr := lit "CS_NEG_REFUSE".
Definition CS_NEG_DONT_CARE : bstr := lit "CS_NEG_DONT_CARE".
Definition CS_NEG_SID_KW : bstr := lit "cs_neg_sid_kw".
Definition CS_NEG_RESULT_KW : bstr := lit "cs_neg_result_kw".

(** ** The decision *)

(** [cs_neg_param_map]; [operator\[\]] of a missing key inserts a zero. *)
Definition cs_neg_param_map : list (bstr * Z) :=
  smap_set CS_NEG_REFUSE 2 (smap_set CS_NEG_DONT_CARE 1 (smap_set CS_NEG_REQUIRE 0 [])).

Definition map_index (k : bstr) (m : list (bstr * Z)) : Z * list (bstr * Z) :=
  match smap_get k m with Some i => (i, m) | None => (0, smap_set k 0 m) end.

Definition client_server_negotiations_table : list (list bstr) :=
  [[CS_NEG_USE_SSL; CS_NEG_USE_SSL; CS_NEG_FAILURE];
   [CS_NEG_USE_SSL; CS_NEG_USE_SSL; CS_NEG_USE_TCP];
   [CS_NEG_FAILURE; CS_NEG_USE_TCP; CS_NEG_USE_TCP]].

(** [client_server_negotiations_context::operator()]: the error and [_result]. *)
Definition negotiate (cli_policy svr_policy : bstr) : error * bstr :=
  let '(cli_idx, m) := map_index cli_policy cs_neg_param_map in
  if (2 <? cli_idx) || (cli_idx <? 0) then (ERROR SYS_INVALID_INPUT_PARAM, [])
  else let '(svr_idx, _) := map_index svr_policy m in
       if (2 <? svr_idx) || (svr_idx <? 0) then (ERROR SYS_INVALID_INPUT_PARAM, [])
       else (SUCCESS, nth (Z.to_nat svr_idx) (nth (Z.to_nat cli_idx) client_server_negotiations_table []) []).

(** ** Asking for it *)

(** The settings of a [rodsEnv]. *)
Record neg_env : Type := NegEnv { rodsClientServerNegotiation : bstr; rodsClientServerPolicy : bstr }.

(** [env] is what [getRodsEnv] gives. *)
Definition do_client_server_negotiation_for_client (env : Z + neg_env) : bool :=
  match env with
  | inl _ => false
  | inr env => negb (bstr_eqb (rodsClientServerNegotiation env) []) &&
               contains_sub REQ_SVR_NEG (rodsClientServerNegotiation env)
  end.

Definition do_client_server_negotiation_for_server (neg : option bstr) : bool :=
  match neg with None => false | Some n => bstr_eqb n REQ_SVR_NEG end.

Definition LONG_NAME_LEN : Z := 256.

(** The option of the startup pack [sendStartupPack] makes; [app] is the environment
    variable [spOption]. *)
Definition startup_option (env : Z + neg_env) (app : option bstr) : Z + bstr :=
  let option := match app with Some a => rstrcpy a NAME_LEN | None => [] end in
  match env with
  | inl _ => inr option
  | inr env =>
      if bstr_eqb REQ_SVR_NEG (rodsClientServerNegotiation env) then
        if LONG_NAME_LEN - Z.of_nat (length option) <=? Z.of_nat (length REQ_SVR_NEG) then inl SYS_BAD_INPUT
        else inr (option ++ rodsClientServerNegotiation env)
      else inr option
  end.

(** [require_cs_neg] and [rsComm.option], from the option of the startup pack. *)
Definition read_startup_option (opt_str : bstr) : bool * bstr :=
  match strstr opt_str REQ_SVR_NEG with
  | Some pos => (true, take (Z.to_nat LONG_NAME_LEN - 1) (take pos opt_str))
  | None => (false, take (Z.to_nat LONG_NAME_LEN - 1) opt_str)
  end.

(** ** Messages *)

Record cs_neg_t : Type := CsNeg { status_ : Z; result_ : bstr }.

(** [snprintf] to [result_]. *)
Definition cs_neg (status : Z) (result : bstr) : cs_neg_t := CsNeg status (rstrcpy (c_str result) MAX_NAME_LEN).

Definition sizeof_cs_neg_t : Z := 1092.

(** What comes from the network: the header or the body cannot be read; or a message with
    its type, its length, and what unpacking it as a version or as a negotiation message
    gives, a negative status or the structure (the status, for a version). *)
Inductive incoming : Type :=
| ReadFails (code : Z)
| Received (type : bstr) (msgLen : Z) (as_version : Z + Z) (as_neg : Z + cs_neg_t).

Definition read_client_server_negotiation_message (i : incoming) : Z + cs_neg_t :=
  match i with
  | ReadFails code => inl code
  | Received type msgLen as_version as_neg =>
      if negb (bstr_eqb type RODS_CS_NEG_T) then
        if bstr_eqb type RODS_VERSION_T then
          match as_version with
          | inl status => inl status
          | inr status => if status <? 0 then inl status else inl ADVANCED_NEGOTIATION_NOT_SUPPORTED
          end
        else inl SYS_HEADER_TYPE_LEN_ERR
      else if (sizeof_cs_neg_t * 2 <? msgLen) || (msgLen <=? 0) then inl SYS_HEADER_READ_LEN_ERR
      else as_neg
  end.

(** ** Keys *)

(** An entry of the federation in the configuration of a server, and what of the
    configuration the negotiation reads; [None] where a setting is missing. *)
Record federation_entry : Type := Federation {
  catalog_provider_hosts : option (list bstr); fed_zone_name : option bstr; fed_zone_key : option bstr;
  fed_negotiation_key : option bstr; fed_hash_scheme : option bstr }.

Record server_config : Type := ServerConfig {
  zone_key : option bstr; negotiation_key : option bstr; zone_key_signing_hash_scheme : option bstr;
  federation : option (list federation_entry) }.

Fixpoint federation_property (host : bstr) (key : federation_entry -> option bstr) (l : list federation_entry)
    : option bstr :=
  match l with
  | [] => None
  | item :: l' =>
      match catalog_provider_hosts item, key item with
      | Some hosts, Some v => if existsb (bstr_eqb host) hosts then Some v else federation_property host key l'
      | _, _ => federation_property host key l'
      end
  end.

Definition get_federation_property (cfg : server_config) (host : bstr) (key : federation_entry -> option bstr)
    : option bstr :=
  match federation cfg with None => None | Some l => federation_property host key l end.

Definition determine_hash_scheme (cfg : server_config) (host : bstr) : bstr :=
  match get_federation_property cfg host fed_hash_scheme with
  | Some s => s
  | None => from_option id (scheme_name MD5) (zone_key_signing_hash_scheme cfg)
  end.

Definition determine_negotiation_key (cfg : server_config) (host : bstr) : res bstr :=
  match get_federation_property cfg host fed_negotiation_key with
  | Some k => Ok k
  | None => match negotiation_key cfg with Some k => Ok k | None => Throw (Eirods KEY_NOT_FOUND) end
  end.

Definition negotiation_key_length_in_bytes : nat := 32.

Definition key_char (c : ascii) : bool :=
  let n := uchar c in
  ((65 <=? n) && (n <=? 90)) || ((97 <=? n) && (n <=? 122)) || ((48 <=? n) && (n <=? 57)) || (n =? 95).

(** The expression is matched against the C string the key begins with. *)
Definition negotiation_key_is_valid (key : bstr) : bool :=
  (length key =? negotiation_key_length_in_bytes)%nat &&
  negb (bstr_eqb (c_str key) []) && forallb key_char (c_str key).

(** [EVP_EncryptInit_ex], [EVP_EncryptUpdate] and [EVP_EncryptFinal_ex] with aes-256-cbc
    ([None] when they return 0), and the code left in the queue of errors. *)
Class Cipher := {
  enc_ctx : Type;
  enc_init : bstr -> bstr -> option enc_ctx;
  enc_update : enc_ctx -> bstr -> option (bstr * enc_ctx);
  enc_final : enc_ctx -> option bstr;
  ERR_get_error : Z
}.

Section negotiation.
Context {B : BoostString} {MD : MessageDigest} {CI : Cipher}.

Definition AES_BLOCK_SIZE : nat := 16.

(** [buffer_crypt::encrypt] of the default object. *)
Definition encrypt (key iv in_buf : bstr) : res (Z + bstr) :=
  match enc_init key iv with
  | None => Ok (inl ERR_get_error)
  | Some ctx =>
      match enc_update ctx in_buf with
      | None => Ok (inl ERR_get_error)
      | Some (c1, ctx) =>
          match enc_final ctx with
          | None => Ok (inl ERR_get_error)
          | Some c2 =>
              if (length in_buf + AES_BLOCK_SIZE <? length (c1 ++ c2))%nat then Throw Eundef
              else Ok (inr (c1 ++ c2))
          end
      end
  end.

(** The error and [_signed_zone_key], which is empty before. *)
Definition sign_zone_key (zone_key encryption_key hash_scheme : bstr) : res (error * bstr) :=
  if bstr_eqb zone_key [] then Ok (ERROR CLIENT_NEGOTIATION_ERROR, [])
  else if negb (negotiation_key_is_valid encryption_key) then Ok (ERROR CLIENT_NEGOTIATION_ERROR, [])
  else
    r ← encrypt encryption_key encryption_key zone_key;
    match r with
    | inl c => Ok (ERROR c, [])
    | inr out_buf =>
        match getHasher hash_scheme new_hasher with
        | (ERROR c, _) => Ok (ERROR c, [])
        | (SUCCESS, h) =>
            '(err, h) ← hasher_update out_buf h;
            match err with
            | ERROR c => Ok (ERROR c, [])
            | SUCCESS =>
                '(err, out, _) ← hasher_digest (Some (Options hex_string false)) h;
                Ok (err, from_option id [] out)
            end
        end
    end.

(** The signature is that of one of the keys; an error in signing ends the search. *)
Fixpoint check_zone_keys (keys : list (bstr * bstr * bstr)) (sent : bstr) : res error :=
  match keys with
  | [] => Ok (ERROR ZONE_KEY_SIGNATURE_MISMATCH)
  | (zone_key, neg_key, hash_scheme) :: keys' =>
      '(err, signed) ← sign_zone_key zone_key neg_key hash_scheme;
      match err with
      | ERROR c => Ok (ERROR c)
      | SUCCESS => if bstr_eqb sent signed then Ok SUCCESS else check_zone_keys keys' sent
      end
  end.

(** The settings are read with [json::at]. [remote] are the keys of other zones in the order
    their table is walked. *)
Definition check_sent_zone_key (cfg : server_config) (remote : list (bstr * bstr * bstr)) (sent : bstr) : res error :=
  if bstr_eqb sent [] then Ok (ERROR SYS_INVALID_INPUT_PARAM)
  else match negotiation_key cfg, zone_key cfg with
       | Some nk, Some zk =>
           check_zone_keys ((zk, nk, from_option id (scheme_name MD5) (zone_key_signing_hash_scheme cfg)) :: remote) sent
       | _, _ => Throw Ejson
       end.

(** The table of other zones, by [initRcatServerHostByFile]. *)
Definition add_zone (m : list (bstr * (bstr * bstr * bstr))) (f : federation_entry) : list (bstr * (bstr * bstr * bstr)) :=
  match fed_zone_name f, fed_zone_key f, fed_negotiation_key f with
  | Some n, Some k, Some nk => smap_set n (k, nk, from_option id (scheme_name MD5) (fed_hash_scheme f)) m
  | _, _, _ => m
  end.

Definition zone_key_map (cfg : server_config) : list (bstr * (bstr * bstr * bstr)) :=
  foldl add_zone [] (from_option id [] (federation cfg)).

(** ** The client *)

(** The part of the message in which a server signs the key of its zone: an error that ends
    the negotiation, or the text. [host] is the other server. *)
Definition signed_part (cfg : server_config) (host : bstr) : res (Z + bstr) :=
  match zone_key cfg with
  | None => Ok (inl CONFIGURATION_ERROR)
  | Some zk =>
      match determine_negotiation_key cfg host with
      | Throw (Eirods c) => Ok (inl c)
      | Throw e => Throw e
      | Ok neg_key =>
          '(_, signed) ← sign_zone_key zk neg_key (determine_hash_scheme cfg host);
          Ok (inr (CS_NEG_SID_KW ++ kvp_association ++ signed ++ kvp_delimiter))
      end
  end.

(** [client_server_negotiation_for_client]: the error, [_result] and what was sent.
    [agent] is the configuration when the process is a server or an agent. *)
Definition client_server_negotiation_for_client (env : Z + neg_env) (agent : option server_config) (host : bstr)
    (i : incoming) (send : cs_neg_t -> error) : res (error * bstr * list cs_neg_t) :=
  match read_client_server_negotiation_message i with
  | inl c => Ok (ERROR c, [], [])
  | inr m =>
      let svr_policy := result_ m in
      if bstr_eqb svr_policy [] || negb (status_ m =? CS_NEG_STATUS_SUCCESS)
      then Ok (ERROR CLIENT_NEGOTIATION_ERROR, [], [])
      else
        match env with
        | inl status => Ok (ERROR status, [], [])
        | inr env =>
            let cli_policy := if bstr_eqb (rodsClientServerPolicy env) [] then CS_NEG_DONT_CARE
                              else rodsClientServerPolicy env in
            let '(_, result) := negotiate cli_policy svr_policy in
            if bstr_eqb CS_NEG_FAILURE result then
              Ok (ERROR CLIENT_NEGOTIATION_ERROR, [], [cs_neg CS_NEG_STATUS_FAILURE CS_NEG_FAILURE])
            else
              part ← match agent with None => Ok (inr []) | Some cfg => signed_part cfg host end;
              match part with
              | inl c => Ok (ERROR c, [], [])
              | inr part =>
                  let cli_msg := part ++ CS_NEG_RESULT_KW ++ kvp_association ++ result ++ kvp_delimiter in
                  let m := cs_neg CS_NEG_STATUS_SUCCESS cli_msg in
                  match send m with
                  | ERROR c => Ok (ERROR c, [], [m])
                  | SUCCESS => Ok (SUCCESS, result, [m])
                  end
              end
        end
  end.

(** ** The agent *)

(** The answer of the client: an error that ends the negotiation, or [_result]; and the
    property [AGENT_CONN_KW] when it is set. *)
Definition read_answer (cfg : server_config) (remote : list (bstr * bstr * bstr)) (m : cs_neg_t)
    : res ((Z + bstr) * option bstr) :=
  if bstr_eqb (result_ m) [] then Ok (inr [], None)
  else
    match parse_kvp_string (result_ m) [] kvp_association kvp_delimiter with
    | (ERROR _, _) => Ok (inr (result_ m), None)
    | (SUCCESS, kvp) =>
        r ← match smap_get CS_NEG_SID_KW kvp with
            | None => Ok (inr None)
            | Some sid =>
                if bstr_eqb sid [] then Ok (inl REMOTE_SERVER_SID_NOT_DEFINED)
                else err ← check_sent_zone_key cfg remote sid;
                     match err with ERROR c => Ok (inl c) | SUCCESS => Ok (inr (Some sid)) end
            end;
        match r with
        | inl c => Ok (inl c, None)
        | inr conn =>
            match smap_get CS_NEG_RESULT_KW kvp with
            | None => Throw Estd
            | Some result => if bstr_eqb result [] then Ok (inl UNMATCHED_KEY_OR_INDEX, conn) else Ok (inr result, conn)
            end
        end
    end.

(** [client_server_negotiation_for_server]: the error, [_result], what was sent and
    [AGENT_CONN_KW]. [rule] is the status and the result of [acPreConnect]. *)
Definition client_server_negotiation_for_server (rule : Z * bstr) (require_cs_neg : bool) (cfg : server_config)
    (remote : list (bstr * bstr * bstr)) (i : incoming) (send : cs_neg_t -> error)
    : res (error * bstr * list cs_neg_t * option bstr) :=
  let '(status, rule_result) := rule in
  if negb (status =? 0) then Ok (ERROR status, [], [], None)
  else if negb require_cs_neg then
    if bstr_eqb CS_NEG_REQUIRE rule_result then Ok (ERROR SYS_INVALID_INPUT_PARAM, [], [], None)
    else Ok (SUCCESS, [], [], None)
  else
    let m1 := cs_neg CS_NEG_STATUS_SUCCESS rule_result in
    match send m1 with
    | ERROR c => Ok (ERROR c, [], [m1], None)
    | SUCCESS =>
        match read_client_server_negotiation_message i with
        | inl c => Ok (ERROR c, [], [m1], None)
        | inr m2 =>
            '(r, conn) ← read_answer cfg remote m2;
            match r with
            | inl c => Ok (ERROR c, [], [m1], conn)
            | inr result =>
                if bstr_eqb CS_NEG_REQUIRE rule_result && bstr_eqb CS_NEG_USE_TCP result
                then Ok (ERROR SERVER_NEGOTIATION_ERROR, result, [m1], conn)
                else if status_ m2 =? CS_NEG_STATUS_SUCCESS then Ok (SUCCESS, result, [m1], conn)
                else Ok (ERROR SERVER_NEGOTIATION_ERROR, result, [m1], conn)
            end
        end
    end.

End negotiation.

(** ** Acting on the result *)

(** [connectToRhost] and [agent_main]: a code the connection ends with, or
    [negotiation_results]. *)
Definition client_connects (r : error * bstr) : Z + bstr :=
  match r with
  | (ERROR c, _) => inl c
  | (SUCCESS, results) => if bstr_eqb CS_NEG_FAILURE results then inl 0 else inr (rstrcpy results MAX_NAME_LEN)
  end.

Definition agent_connects (r : error * bstr) : Z + bstr :=
  match r with
  | (ERROR c, _) => inl c
  | (SUCCESS, neg_results) =>
      if bstr_eqb CS_NEG_FAILURE neg_results then inl 0 else inr (rstrcpy (c_str neg_results) MAX_NAME_LEN)
  end.

(** [network_factory]: whether the connection is an [ssl_object]. *)
Definition uses_ssl (negotiation_results : bstr) : bool := bstr_eqb CS_NEG_USE_SSL negotiation_results.

(** ** What is agreed *)

Inductive policy : Type := Require_ | DontCare | Refuse.
Inductive outcome : Type := Tls | Tcp | Failure.

Definition agree (cli svr : policy) : outcome :=
  match cli, svr with
  | Require_, Refuse | Refuse, Require_ => Failure
  | Refuse, _ | _, Refuse => Tcp
  | _, _ => Tls
  end.

(** A text that is no policy counts as the strictest one. *)
Definition policy_of (t : bstr) : policy :=
  if bstr_eqb t CS_NEG_DONT_CARE then DontCare else if bstr_eqb t CS_NEG_REFUSE then Refuse else Require_.

Definition outcome_text (o : outcome) : bstr :=
  match o with Tls => CS_NEG_USE_SSL | Tcp => CS_NEG_USE_TCP | Failure => CS_NEG_FAILURE end.

Definition policy_index (p : policy) : Z := match p with Require_ => 0 | DontCare => 1 | Refuse => 2 end.

Lemma map_index_initial t : (map_index t cs_neg_param_map).1 = policy_index (policy_of t).
Proof.
  unfold map_index, policy_of.
  change cs_neg_param_map with [(CS_NEG_DONT_CARE, 1); (CS_NEG_REFUSE, 2); (CS_NEG_REQUIRE, 0)].
  cbn [smap_get]. destruct (bstr_eqb t CS_NEG_DONT_CARE); [done|].
  destruct (bstr_eqb t CS_NEG_REFUSE); [done|]. by destruct (bstr_eqb t CS_NEG_REQUIRE).
Qed.

(** The table after the first look-up, which may have inserted its key. *)
Lemma map_index_later t u : (map_index u (map_index t cs_neg_param_map).2).1 = policy_index (policy_of u).
Proof.
  rewrite <- map_index_initial. unfold map_index.
  destruct (smap_get t cs_neg_param_map) eqn:E; cbn [snd]; [done|].
  rewrite smap_get_set by (by repeat constructor).
  destruct (bstr_eqb u t) eqn:Eu; [|by destruct (smap_get u _)].
  apply bstr_eqb_eq in Eu as ->. by rewrite E.
Qed.

Lemma negotiate_spec cli svr :
  negotiate cli svr = (SUCCESS, outcome_text (agree (policy_of cli) (policy_of svr))).
Proof.
  unfold negotiate. pose proof (map_index_initial cli) as H1. pose proof (map_index_later cli svr) as H2.
  destruct (map_index cli _) as [i m]. simpl in *. destruct (map_index svr m) as [j m']. simpl in *. subst.
  by destruct (policy_of cli), (policy_of svr).
Qed.

(** ** Facts *)

Section facts.
Context {B : BoostString} {BL : BoostStringLaws B} {MD : MessageDigest} {MDL : MessageDigestLaws MD} {CI : Cipher}.

Definition terminated (ps : list (bstr * bstr)) : bstr :=
  concat (map (fun p => plain_pair p ++ kvp_delimiter) ps).

(** Pairs that each end with a delimiter are read back. *)
Lemma parse_terminated ps kvp :
  Forall (fun p => clean p.1 /\ clean p.2) ps ->
  parse_kvp_string (terminated ps) kvp kvp_association kvp_delimiter =
  (SUCCESS, foldl (fun acc p => smap_set p.1 p.2 acc) kvp ps).
Proof using BL.
  intros H. unfold parse_kvp_string.
  assert (split false (terminated ps) kvp_delimiter = Some (map plain_pair ps ++ [[]])) as ->.
  { induction H as [|p ps [H1 H2] H IH]; [by apply split_last|].
    unfold terminated in *. cbn [map concat]. rewrite <- app_assoc.
    change (kvp_delimiter ++ ?r) with (";"%char :: r).
    rewrite split_first by (done || by apply plain_pair_delim). by rewrite IH. }
  revert kvp. induction H as [|p ps [H1 H2] H IH]; intros kvp; [done|]. cbn [map app parse_tokens].
  rewrite (proj2 (bstr_eqb_neq _ _)) by (unfold plain_pair; by destruct p.1).
  rewrite parse_plain_pair by done. apply IH.
Qed.

(** A text of letters is neither cut nor split. *)
Definition word (s : bstr) : Prop := Forall (fun c => key_char c = true) s.

Lemma word_clean s : word s -> clean s.
Proof.
  intros H. split; (eapply Forall_impl; [exact H|]); intros c Hc;
    destruct (is_any_of _ c) eqn:E; try done; simpl in E; rewrite orb_false_r in E;
    apply Ascii.eqb_eq in E as ->; done.
Qed.

Lemma word_not_nul s : word s -> Forall (fun c => c <> NUL) s.
Proof. intros H. eapply Forall_impl; [exact H|]. by intros c Hc ->. Qed.

Lemma outcome_word o : word (outcome_text o).
Proof. by destruct o; repeat constructor. Qed.

(** A message that is not longer than its field is sent as it is. *)
Lemma cs_neg_fits status t :
  Forall (fun c => c <> NUL) t -> (length t < MAX_NAME_LEN)%nat -> cs_neg status t = CsNeg status t.
Proof. intros Ht Hl. unfold cs_neg, rstrcpy. rewrite c_str_id by done. f_equal. apply take_ge. lia. Qed.

Lemma parse_word t : word t -> t <> [] ->
  parse_kvp_string t [] kvp_association kvp_delimiter = (ERROR SYS_INVALID_INPUT_PARAM, []).
Proof using BL.
  intros [H1 H2]%word_clean Ht. unfold parse_kvp_string. rewrite split_last by done. cbn [parse_tokens].
  rewrite (proj2 (bstr_eqb_neq _ _)) by done. unfold parse_token_into_kvp. by rewrite split_last.
Qed.

Lemma parse_answer t :
  word t -> parse_kvp_string (terminated [(CS_NEG_RESULT_KW, t)]) [] kvp_association kvp_delimiter =
            (SUCCESS, [(CS_NEG_RESULT_KW, t)]).
Proof using BL.
  intros Ht. rewrite parse_terminated; [done|]. constructor; [|done]. split; [|by apply word_clean].
  apply word_clean. by repeat constructor.
Qed.

Lemma parse_signed_answer sig t :
  word sig -> word t ->
  parse_kvp_string (terminated [(CS_NEG_SID_KW, sig); (CS_NEG_RESULT_KW, t)]) [] kvp_association kvp_delimiter =
  (SUCCESS, [(CS_NEG_RESULT_KW, t); (CS_NEG_SID_KW, sig)]).
Proof using BL.
  intros Hs Ht. rewrite parse_terminated; [done|].
  repeat constructor; simpl; try (by apply word_clean); by apply word_clean; repeat constructor.
Qed.

(** The text of an answer, which is always short enough. *)
Lemma answer_fits status ps :
  Forall (fun p => word p.1 /\ word p.2) ps -> (length (terminated ps) < MAX_NAME_LEN)%nat ->
  cs_neg status (terminated ps) = CsNeg status (terminated ps).
Proof.
  intros H Hl. apply cs_neg_fits; [|done]. clear Hl. unfold terminated.
  induction H as [|p ps [H1 H2] H IH]; [done|]. cbn [map concat]. unfold plain_pair.
  rewrite !Forall_app. split_and!; try (by apply word_not_nul); try done; by repeat constructor.
Qed.

(** The message [m] is read from [i]. *)
Definition arrives (m : cs_neg_t) (i : incoming) : Prop :=
  exists len ver, i = Received RODS_CS_NEG_T len ver (inr m) /\ 0 < len <= 2 * sizeof_cs_neg_t.

Lemma arrives_read m i : arrives m i -> read_client_server_negotiation_message i = inr m.
Proof.
  intros (len & ver & -> & Hl). cbn [read_client_server_negotiation_message].
  change (bstr_eqb RODS_CS_NEG_T RODS_CS_NEG_T) with true. cbn [negb].
  rewrite (proj2 (Z.ltb_ge _ _)), (proj2 (Z.leb_gt _ _)) by lia. done.
Qed.

(** A policy the server announces. *)
Definition announced (svr : bstr) : Prop :=
  svr <> [] /\ Forall (fun c => c <> NUL) svr /\ (length svr < MAX_NAME_LEN)%nat.

(** The policy of a client, which is not to care when it has none. *)
Definition client_policy (env : neg_env) : policy :=
  if bstr_eqb (rodsClientServerPolicy env) [] then DontCare else policy_of (rodsClientServerPolicy env).

(** The client up to its answer. *)
Lemma client_reads env agent host svr i send :
  announced svr -> arrives (cs_neg CS_NEG_STATUS_SUCCESS svr) i ->
  let result := outcome_text (agree (client_policy env) (policy_of svr)) in
  client_server_negotiation_for_client (inr env) agent host i send =
  if bstr_eqb CS_NEG_FAILURE result then
    Ok (ERROR CLIENT_NEGOTIATION_ERROR, [], [cs_neg CS_NEG_STATUS_FAILURE CS_NEG_FAILURE])
  else
    part ← match agent with None => Ok (inr []) | Some cfg => signed_part cfg host end;
    match part with
    | inl c => Ok (ERROR c, [], [])
    | inr part =>
        let m := cs_neg CS_NEG_STATUS_SUCCESS (part ++ terminated [(CS_NEG_RESULT_KW, result)]) in
        match send m with
        | ERROR c => Ok (ERROR c, [], [m])
        | SUCCESS => Ok (SUCCESS, result, [m])
        end
    end.
Proof.
  intros (Hne & Hnul & Hl) Hi. unfold client_server_negotiation_for_client. rewrite (arrives_read _ _ Hi).
  rewrite cs_neg_fits by done. cbn [result_ status_]. rewrite (proj2 (bstr_eqb_neq _ _)) by done.
  change (negb (CS_NEG_STATUS_SUCCESS =? CS_NEG_STATUS_SUCCESS)) with false. cbn [orb].
  rewrite negotiate_spec.
  assert (policy_of (if bstr_eqb (rodsClientServerPolicy env) [] then CS_NEG_DONT_CARE
                     else rodsClientServerPolicy env) = client_policy env) as ->
    by (unfold client_policy; by destruct (bstr_eqb _ _)).
  cbv zeta. unfold terminated, plain_pair. cbn [map concat fst snd]. rewrite app_nil_r.
  destruct (bstr_eqb CS_NEG_FAILURE _); [done|]. by rewrite <- !app_assoc.
Qed.

(** The agent, once it has read an answer. *)
Lemma server_reads svr cfg remote m2 i send :
  (forall m, send m = SUCCESS) -> arrives m2 i ->
  client_server_negotiation_for_server (0, svr) true cfg remote i send =
  '(r, conn) ← read_answer cfg remote m2;
  match r with
  | inl c => Ok (ERROR c, [], [cs_neg CS_NEG_STATUS_SUCCESS svr], conn)
  | inr result =>
      if bstr_eqb CS_NEG_REQUIRE svr && bstr_eqb CS_NEG_USE_TCP result
      then Ok (ERROR SERVER_NEGOTIATION_ERROR, result, [cs_neg CS_NEG_STATUS_SUCCESS svr], conn)
      else if status_ m2 =? CS_NEG_STATUS_SUCCESS
      then Ok (SUCCESS, result, [cs_neg CS_NEG_STATUS_SUCCESS svr], conn)
      else Ok (ERROR SERVER_NEGOTIATION_ERROR, result, [cs_neg CS_NEG_STATUS_SUCCESS svr], conn)
  end.
Proof.
  intros Hs Hi. unfold client_server_negotiation_for_server. change (0 =? 0) with true. cbn [negb].
  by rewrite Hs, (arrives_read _ _ Hi).
Qed.

(** A server that requires TLS is never answered with TCP by a client that follows the
    protocol. *)
Lemma tcp_not_required cli svr o :
  agree cli (policy_of svr) = o -> bstr_eqb CS_NEG_REQUIRE svr && bstr_eqb CS_NEG_USE_TCP (outcome_text o) = false.
Proof.
  intros <-. destruct (bstr_eqb CS_NEG_REQUIRE svr) eqn:E; [|done]. apply bstr_eqb_eq in E as <-. by destruct cli.
Qed.

Lemma read_plain_answer cfg remote status o :
  read_answer cfg remote (CsNeg status (terminated [(CS_NEG_RESULT_KW, outcome_text o)])) =
  Ok (inr (outcome_text o), None).
Proof using BL. unfold read_answer. cbn [result_]. rewrite parse_answer by apply outcome_word. by destruct o. Qed.

Lemma plain_answer_fits status o :
  cs_neg status (terminated [(CS_NEG_RESULT_KW, outcome_text o)]) =
  CsNeg status (terminated [(CS_NEG_RESULT_KW, outcome_text o)]).
Proof. by destruct o. Qed.

(** A client and an agent that follow the protocol come to the same decision, the one
    their policies allow: plain TCP if one of them refuses TLS and the other does not
    require it, and TLS if neither refuses; both give up, the agent too, when one requires
    what the other refuses. A text that is no policy counts as the strictest one. *)
Theorem negotiation_agrees env svr host cfg remote i1 send_client send_server :
  announced svr -> (forall m, send_client m = SUCCESS) -> (forall m, send_server m = SUCCESS) ->
  arrives (cs_neg CS_NEG_STATUS_SUCCESS svr) i1 ->
  exists ce cr m2,
    client_server_negotiation_for_client (inr env) None host i1 send_client = Ok (ce, cr, [m2]) /\
    forall i2, arrives m2 i2 -> exists se sr,
      client_server_negotiation_for_server (0, svr) true cfg remote i2 send_server =
        Ok (se, sr, [cs_neg CS_NEG_STATUS_SUCCESS svr], None) /\
      match agree (client_policy env) (policy_of svr) with
      | Failure => client_connects (ce, cr) = inl CLIENT_NEGOTIATION_ERROR /\
                   agent_connects (se, sr) = inl SERVER_NEGOTIATION_ERROR
      | Tls => exists r, client_connects (ce, cr) = inr r /\ agent_connects (se, sr) = inr r /\ uses_ssl r = true
      | Tcp => exists r, client_connects (ce, cr) = inr r /\ agent_connects (se, sr) = inr r /\ uses_ssl r = false
      end.
Proof using BL MD.
  intros Hsvr Hc Hs Hi. rewrite (client_reads env None host svr) by done. cbv zeta.
  destruct (agree (client_policy env) (policy_of svr)) eqn:E; cbn [mbind res_bind];
    match goal with |- context [outcome_text ?o] =>
      change (bstr_eqb CS_NEG_FAILURE (outcome_text o)) with (bool_decide (CS_NEG_FAILURE = outcome_text o)) end.
  1, 2: rewrite bool_decide_false by done; rewrite app_nil_l, plain_answer_fits, Hc;
        eexists _, _, _; split; [done|]; intros i2 H2; rewrite (server_reads _ _ _ _ _ _ Hs H2), read_plain_answer;
        cbn [mbind res_bind]; rewrite (tcp_not_required (client_policy env) svr _ E); cbn [status_];
        eexists _, _; split; [reflexivity|]; by eexists.
  rewrite bool_decide_true by done. eexists _, _, _. split; [done|]. intros i2 H2.
  rewrite (server_reads _ _ _ _ _ _ Hs H2). unfold read_answer. 
  change (cs_neg CS_NEG_STATUS_FAILURE CS_NEG_FAILURE) with (CsNeg CS_NEG_STATUS_FAILURE CS_NEG_FAILURE).
  cbn [result_]. rewrite parse_word by (done || by repeat constructor).
  change (bstr_eqb CS_NEG_FAILURE []) with false. cbn [mbind res_bind].
  change (bstr_eqb CS_NEG_USE_TCP CS_NEG_FAILURE) with false. rewrite andb_false_r. by eexists _, _.
Qed.

(** *** Signatures *)

Lemma getHasher_inv name h0 h : getHasher name h0 = (SUCCESS, h) -> exists s, name = scheme_name s /\ hashes s [] h.
Proof using MDL.
  unfold getHasher. destruct (find _ strategies) as [s|] eqn:E; [|done].
  apply find_some in E as [_ E%bstr_eqb_eq]. intros H. exists s. split; [done|].
  destruct (hasher_init_ok s h0) as (h' & H' & Hh). rewrite H in H'. by simplify_eq.
Qed.

(** A signature is a digest in hexadecimal. *)
Lemma sign_hex zk nk hs sig : sign_zone_key zk nk hs = Ok (SUCCESS, sig) -> exists s d, sig = hex_of s d.
Proof using MDL.
  unfold sign_zone_key. destruct (bstr_eqb zk []); [done|]. destruct (negb _); [done|].
  destruct (encrypt nk nk zk) as [[c|out]|e]; [done| |done]. cbn [mbind res_bind].
  destruct (getHasher hs new_hasher) as [[|c] h] eqn:E; [|done]. apply getHasher_inv in E as (s & -> & Hh).
  destruct (hasher_update_ok s [] out h Hh) as (h1 & -> & H1). cbn [mbind res_bind].
  destruct (hasher_digest_hex s _ h1 H1) as (h2 & ->). cbn. intros [= <-]. eauto.
Qed.

Lemma hex_digit_word z : 0 <= z < 16 -> key_char (hex_digit z) = true.
Proof.
  intros Hz. pose proof (hex_digit_hex z Hz) as H. revert H. generalize (hex_digit z). intros c H.
  assert (Forall (fun x => key_char x = true) hex_digits) as Hw by (by repeat constructor).
  rewrite Forall_forall in Hw. apply Hw. unfold is_any_of in H.
  apply existsb_exists in H as (x & Hx & ->%Ascii.eqb_eq). by apply list_elem_of_In.
Qed.

Lemma hex_bytes_word d : word (concat (map hex_byte d)).
Proof.
  induction d as [|c d IH]; cbn; [constructor|]. pose proof (uchar_range c).
  constructor; [|constructor; [|done]]; apply hex_digit_word; [|by apply Z.mod_pos_bound].
  split; [apply Z.div_pos; lia|apply Z.div_lt_upper_bound; lia].
Qed.

Lemma hex_of_word s d : word (hex_of s d).
Proof.
  unfold hex_of. destruct s; try apply hex_bytes_word.
  unfold word, hex_uint32. rewrite Forall_map. apply Forall_true. intros i. apply hex_digit_word.
  apply Z.mod_pos_bound. lia.
Qed.

Lemma hex_of_length s d : (0 < length (hex_of s d) <= 128)%nat.
Proof using MDL.
  destruct (decide (s = ADLER32)) as [->|Hs]; [simpl; lia|].
  assert (hex_of s d = concat (map hex_byte (raw_digest s d))) as -> by (by destruct s).
  rewrite hex_length, raw_digest_length by done. destruct s; simpl; lia.
Qed.

(** The signatures of a list of keys. *)
Definition signatures (keys : list (bstr * bstr * bstr)) (sigs : list bstr) : Prop :=
  Forall2 (fun k sig => sign_zone_key k.1.1 k.1.2 k.2 = Ok (SUCCESS, sig)) keys sigs.

Lemma check_zone_keys_spec keys sigs sent :
  signatures keys sigs ->
  check_zone_keys keys sent = Ok (if bool_decide (sent ∈ sigs) then SUCCESS else ERROR ZONE_KEY_SIGNATURE_MISMATCH).
Proof.
  induction 1 as [|[[zk nk] hs] sig keys sigs Hk H IH]; [done|]. cbn [check_zone_keys]. simpl in Hk. rewrite Hk.
  cbn [mbind res_bind]. destruct (bstr_eqb sent sig) eqn:E.
  - apply bstr_eqb_eq in E as ->. by rewrite bool_decide_true by left.
  - apply bstr_eqb_neq in E. rewrite IH. f_equal.
    assert (bool_decide (sent ∈ sigs) = bool_decide (sent ∈ sig :: sigs)) as ->; [|done].
    apply bool_decide_ext. rewrite elem_of_cons. tauto.
Qed.

(** The keys a server accepts. *)
Definition own_key (cfg : server_config) (k : bstr * bstr * bstr) : Prop :=
  zone_key cfg = Some k.1.1 /\ negotiation_key cfg = Some k.1.2 /\
  from_option id (scheme_name MD5) (zone_key_signing_hash_scheme cfg) = k.2.

(** The key a server signs for another one. *)
Definition signing_key (cfg : server_config) (host : bstr) (k : bstr * bstr * bstr) : Prop :=
  zone_key cfg = Some k.1.1 /\ determine_negotiation_key cfg host = Ok k.1.2 /\
  determine_hash_scheme cfg host = k.2.

Lemma signed_part_ok cfg host k sig err :
  signing_key cfg host k -> sign_zone_key k.1.1 k.1.2 k.2 = Ok (err, sig) ->
  signed_part cfg host = Ok (inr (terminated [(CS_NEG_SID_KW, sig)])).
Proof.
  intros (H1 & H2 & H3) Hs. unfold signed_part. rewrite H1, H2, H3, Hs. cbn [mbind res_bind].
  unfold terminated, plain_pair. cbn [map concat fst snd]. by rewrite app_nil_r, <- !app_assoc.
Qed.

(** The answer of a server, signed or not. *)
Lemma agent_answers env ccfg host k sig err svr i send :
  announced svr -> arrives (cs_neg CS_NEG_STATUS_SUCCESS svr) i -> (forall m, send m = SUCCESS) ->
  signing_key ccfg host k -> sign_zone_key k.1.1 k.1.2 k.2 = Ok (err, sig) ->
  word sig -> (length sig <= 128)%nat ->
  agree (client_policy env) (policy_of svr) <> Failure ->
  let o := agree (client_policy env) (policy_of svr) in
  client_server_negotiation_for_client (inr env) (Some ccfg) host i send =
  Ok (SUCCESS, outcome_text o,
      [CsNeg CS_NEG_STATUS_SUCCESS (terminated [(CS_NEG_SID_KW, sig); (CS_NEG_RESULT_KW, outcome_text o)])]).
Proof.
  intros Hsvr Hi Hsend Hk Hsig Hw Hl Ho. cbv zeta. rewrite (client_reads env (Some ccfg) host svr) by done.
  rewrite (proj2 (bstr_eqb_neq _ _)) by (by destruct (agree _ _)).
  rewrite (signed_part_ok _ _ k sig err) by done. cbn [mbind res_bind].
  assert (forall p q, terminated [p] ++ terminated [q] = terminated [p; q]) as ->
    by (intros p q; unfold terminated; cbn [map concat]; by rewrite !app_nil_r).
  rewrite answer_fits, Hsend; [done| |].
  - repeat apply Forall_cons_2; [| |constructor]; split; simpl; try done; try apply outcome_word; by repeat constructor.
  - unfold terminated, plain_pair. cbn [map concat fst snd]. rewrite !length_app. cbn [length].
    assert (length (outcome_text (agree (client_policy env) (policy_of svr))) <= 14)%nat by (destruct (agree _ _); simpl; lia).
    change (length CS_NEG_SID_KW) with 13%nat. change (length CS_NEG_RESULT_KW) with 16%nat.
    change (length kvp_association) with 1%nat. change (length kvp_delimiter) with 1%nat.
    unfold MAX_NAME_LEN. lia.
Qed.

(** C37: A server that connects to another one is taken for a server exactly when its
    signature is one the other server makes of its own key or of those of the zones it
    knows; otherwise the connection is refused and nothing is recorded. *)
Theorem agent_authenticated env ccfg host k sig svr scfg own remote sigs i1 i2 send_client send_server :
  announced svr -> arrives (cs_neg CS_NEG_STATUS_SUCCESS svr) i1 ->
  (forall m, send_client m = SUCCESS) -> (forall m, send_server m = SUCCESS) ->
  signing_key ccfg host k -> sign_zone_key k.1.1 k.1.2 k.2 = Ok (SUCCESS, sig) ->
  own_key scfg own -> signatures (own :: remote) sigs ->
  agree (client_policy env) (policy_of svr) <> Failure ->
  let o := agree (client_policy env) (policy_of svr) in
  exists m2, client_server_negotiation_for_client (inr env) (Some ccfg) host i1 send_client =
               Ok (SUCCESS, outcome_text o, [m2]) /\
    (arrives m2 i2 ->
     client_server_negotiation_for_server (0, svr) true scfg remote i2 send_server =
     Ok (if bool_decide (sig ∈ sigs)
         then (SUCCESS, outcome_text o, [cs_neg CS_NEG_STATUS_SUCCESS svr], Some sig)
         else (ERROR ZONE_KEY_SIGNATURE_MISMATCH, [], [cs_neg CS_NEG_STATUS_SUCCESS svr], None))).
Proof using BL MDL.
  intros Hsvr Hi Hc Hs Hk Hsig (Hz & Hn & Hh) Hsigs Ho. cbv zeta.
  destruct (sign_hex _ _ _ _ Hsig) as (s & d & Hsd). pose proof (hex_of_length s d) as Hl. rewrite <- Hsd in Hl.
  assert (word sig) as Hw by (rewrite Hsd; apply hex_of_word).
  eexists. split; [eapply agent_answers; try done; lia|]. intros Hi2.
  rewrite (server_reads _ _ _ _ _ _ Hs Hi2). unfold read_answer. cbn [result_].
  rewrite parse_signed_answer by (done || apply outcome_word).
  match goal with |- context [bstr_eqb (terminated ?ps) []] =>
    change (bstr_eqb (terminated ps) []) with false end.
  change (smap_get CS_NEG_SID_KW [(CS_NEG_RESULT_KW, ?t); (CS_NEG_SID_KW, sig)]) with (Some sig).
  change (smap_get CS_NEG_RESULT_KW ((CS_NEG_RESULT_KW, ?t) :: ?r)) with (Some t).
  assert (sig <> []) as Hne by (intros ->; simpl in Hl; lia). cbv iota.
  rewrite (proj2 (bstr_eqb_neq sig [])) by done. unfold check_sent_zone_key.
  rewrite (proj2 (bstr_eqb_neq sig [])), Hz, Hn, Hh by done. destruct own as [[zk nk] hs]. cbn [fst snd].
  rewrite (check_zone_keys_spec _ sigs) by done. cbn [mbind res_bind].
  case_bool_decide; cbn [mbind res_bind]; [|done].
  rewrite (proj2 (bstr_eqb_neq (outcome_text _) [])) by (by destruct (agree _ _)). cbn [mbind res_bind].
  by rewrite (tcp_not_required (client_policy env) svr _ eq_refl).
Qed.

(** A server whose negotiation key is not valid sends no signature, and is refused. *)
Theorem unsigned_agent_refused env ccfg host k svr scfg remote i1 i2 send_client send_server :
  announced svr -> arrives (cs_neg CS_NEG_STATUS_SUCCESS svr) i1 ->
  (forall m, send_client m = SUCCESS) -> (forall m, send_server m = SUCCESS) ->
  signing_key ccfg host k -> negotiation_key_is_valid k.1.2 = false ->
  agree (client_policy env) (policy_of svr) <> Failure ->
  exists r m2, client_server_negotiation_for_client (inr env) (Some ccfg) host i1 send_client = Ok (SUCCESS, r, [m2]) /\
    (arrives m2 i2 ->
     client_server_negotiation_for_server (0, svr) true scfg remote i2 send_server =
     Ok (ERROR REMOTE_SERVER_SID_NOT_DEFINED, [], [cs_neg CS_NEG_STATUS_SUCCESS svr], None)).
Proof using BL MD.
  intros Hsvr Hi Hc Hs Hk Hv Ho.
  assert (exists err, sign_zone_key k.1.1 k.1.2 k.2 = Ok (err, [])) as [err Hsig]
    by (unfold sign_zone_key; rewrite Hv; destruct (bstr_eqb _ _); by eexists).
  eexists _, _. split; [eapply agent_answers; try done; [constructor|simpl; lia]|]. intros Hi2.
  rewrite (server_reads _ _ _ _ _ _ Hs Hi2). unfold read_answer. cbn [result_].
  rewrite parse_signed_answer by (constructor || apply outcome_word).
  match goal with |- context [bstr_eqb (terminated ?ps) []] =>
    change (bstr_eqb (terminated ps) []) with false end. done.
Qed.

(** An agent that requires TLS only refuses the answer "use TCP": a client that answers
    with success and any word of its own is let in, without TLS and without a negotiated
    protocol. *)
Theorem require_not_enforced w cfg remote i send :
  word w -> w <> [] -> (length w < MAX_NAME_LEN)%nat ->
  w <> CS_NEG_USE_TCP -> w <> CS_NEG_USE_SSL -> w <> CS_NEG_FAILURE ->
  (forall m, send m = SUCCESS) -> arrives (CsNeg CS_NEG_STATUS_SUCCESS w) i ->
  client_server_negotiation_for_server (0, CS_NEG_REQUIRE) true cfg remote i send =
    Ok (SUCCESS, w, [cs_neg CS_NEG_STATUS_SUCCESS CS_NEG_REQUIRE], None) /\
  agent_connects (SUCCESS, w) = inr w /\ uses_ssl w = false.
Proof using BL.
  intros Hw Hne Hl H1 H2 H3 Hs Hi. split_and!.
  - rewrite (server_reads _ _ _ _ _ _ Hs Hi). unfold read_answer. cbn [result_].
    rewrite (proj2 (bstr_eqb_neq w [])), parse_word by done. cbn [mbind res_bind].
    rewrite (proj2 (bstr_eqb_neq CS_NEG_USE_TCP w)) by congruence. by rewrite andb_false_r.
  - unfold agent_connects. rewrite (proj2 (bstr_eqb_neq _ _)) by congruence.
    rewrite c_str_id by (by apply word_not_nul). unfold rstrcpy. rewrite take_ge by lia. done.
  - unfold uses_ssl. by rewrite (proj2 (bstr_eqb_neq _ _)) by congruence.
Qed.
End facts.

(** The request of a client reaches the agent: both then negotiate. *)
Lemma strstr_app t a : exists n, strstr (a ++ t) t = Some n.
Proof.
  induction a as [|c a [n IH]].
  - exists O. destruct t as [|c t]; [done|]. cbn [strstr app].
    by rewrite take_ge, (proj2 (bstr_eqb_eq _ _)) by done.
  - cbn [app strstr]. rewrite IH. destruct (bstr_eqb _ _); by eexists.
Qed.

Theorem request_reaches_agent env app :
  rodsClientServerNegotiation env = REQ_SVR_NEG ->
  exists opt, startup_option (inr env) app = inr opt /\ (read_startup_option opt).1 = true /\
              do_client_server_negotiation_for_client (inr env) = true.
Proof.
  intros He. unfold startup_option, do_client_server_negotiation_for_client. rewrite He.
  rewrite (proj2 (bstr_eqb_eq _ _)) by done.
  set (a := match app with Some _ => _ | None => _ end).
  assert (length a < 64)%nat as Ha
    by (unfold a, rstrcpy; destruct app; [rewrite length_take; unfold NAME_LEN; lia|simpl; lia]).
  change (Z.of_nat (length REQ_SVR_NEG)) with 26. unfold LONG_NAME_LEN.
  rewrite (proj2 (Z.leb_gt _ _)) by lia. eexists. split; [done|]. split; [|reflexivity].
  unfold read_startup_option. by destruct (strstr_app REQ_SVR_NEG a) as [n ->].
Qed.

(** ** Witnesses *)

Definition cipher_ref : Cipher := {|
  enc_ctx := bstr;
  enc_init := fun key _ => Some key;
  enc_update := fun key d => Some (d, key);
  enc_final := fun key => Some (take 16 key);
  ERR_get_error := 0
|}.

Definition sample_message (m : cs_neg_t) : incoming := Received RODS_CS_NEG_T 200 (inl 0) (inr m).
Definition always_sent (m : cs_neg_t) : error := SUCCESS.

Lemma sample_arrives m : arrives m (sample_message m).
Proof. exists 200, (inl 0). split; [done|]. unfold sizeof_cs_neg_t. lia. Qed.

Lemma negotiation_agrees_witness :
  exists ce cr m2,
    client_server_negotiation_for_client (MD := digest_ref) (CI := cipher_ref)
      (inr (NegEnv REQ_SVR_NEG CS_NEG_REFUSE)) None (lit "host")
      (sample_message (cs_neg CS_NEG_STATUS_SUCCESS CS_NEG_DONT_CARE)) always_sent = Ok (ce, cr, [m2]) /\
    exists se sr,
      client_server_negotiation_for_server (B := boost_ref) (MD := digest_ref) (CI := cipher_ref)
        (0, CS_NEG_DONT_CARE) true (ServerConfig None None None None) [] (sample_message m2) always_sent =
        Ok (se, sr, [cs_neg CS_NEG_STATUS_SUCCESS CS_NEG_DONT_CARE], None) /\
      exists r, client_connects (ce, cr) = inr r /\ agent_connects (se, sr) = inr r /\ uses_ssl r = false.
Proof.
  destruct (negotiation_agrees (BL := boost_ref_laws) (MD := digest_ref) (CI := cipher_ref)
    (NegEnv REQ_SVR_NEG CS_NEG_REFUSE) CS_NEG_DONT_CARE (lit "host") (ServerConfig None None None None) []
    (sample_message (cs_neg CS_NEG_STATUS_SUCCESS CS_NEG_DONT_CARE)) always_sent always_sent)
    as (ce & cr & m2 & H1 & H2); [|done|done|apply sample_arrives|].
  - split_and!; [done|by repeat constructor|simpl; unfold MAX_NAME_LEN; lia].
  - exists ce, cr, m2. split; [exact H1|]. exact (H2 _ (sample_arrives m2)).
Defined.

Lemma require_not_enforced_witness :
  client_server_negotiation_for_server (B := boost_ref) (MD := digest_ref) (CI := cipher_ref)
    (0, CS_NEG_REQUIRE) true (ServerConfig None None None None) []
    (sample_message (CsNeg CS_NEG_STATUS_SUCCESS (lit "CS_NEG_NONE"))) always_sent =
    Ok (SUCCESS, lit "CS_NEG_NONE", [cs_neg CS_NEG_STATUS_SUCCESS CS_NEG_REQUIRE], None) /\
  agent_connects (SUCCESS, lit "CS_NEG_NONE") = inr (lit "CS_NEG_NONE") /\ uses_ssl (lit "CS_NEG_NONE") = false.
Proof.
  apply (require_not_enforced (BL := boost_ref_laws)); try done; [by repeat constructor| |apply sample_arrives].
  simpl. unfold MAX_NAME_LEN. lia.
Defined.

(** Two zones that know each other: the server of zone A connects to that of zone B. *)
Definition sample_key : bstr := lit "32_byte_server_negotiation_key__".
Definition zone_a : server_config :=
  ServerConfig (Some (lit "zone_a_key")) (Some (lit "local_negotiation_key_of_zone_a_")) (Some (lit "sha256"))
    (Some [Federation (Some [lit "b.example.org"]) (Some (lit "B")) (Some (lit "zone_b_key")) (Some sample_key)
             (Some (lit "sha1"))]).
Definition zone_b : server_config :=
  ServerConfig (Some (lit "zone_b_key")) (Some (lit "local_negotiation_key_of_zone_b_")) None
    (Some [Federation (Some [lit "a.example.org"]) (Some (lit "A")) (Some (lit "zone_a_key")) (Some sample_key)
             (Some (lit "sha1"))]).

Definition sample_signature (zk nk hs : bstr) : bstr :=
  match sign_zone_key (MD := digest_ref) (CI := cipher_ref) zk nk hs with Ok (_, s) => s | Throw _ => [] end.
Definition sample_sig : bstr := sample_signature (lit "zone_a_key") sample_key (lit "sha1").

Lemma agent_authenticated_witness :
  exists m2,
    client_server_negotiation_for_client (MD := digest_ref) (CI := cipher_ref)
      (inr (NegEnv REQ_SVR_NEG CS_NEG_REQUIRE)) (Some zone_a) (lit "b.example.org")
      (sample_message (cs_neg CS_NEG_STATUS_SUCCESS CS_NEG_DONT_CARE)) always_sent =
      Ok (SUCCESS, CS_NEG_USE_SSL, [m2]) /\
    client_server_negotiation_for_server (B := boost_ref) (MD := digest_ref) (CI := cipher_ref)
      (0, CS_NEG_DONT_CARE) true zone_b (map snd (zone_key_map zone_b)) (sample_message m2) always_sent =
      Ok (SUCCESS, CS_NEG_USE_SSL, [cs_neg CS_NEG_STATUS_SUCCESS CS_NEG_DONT_CARE], Some sample_sig).
Proof.
  pose (own := (lit "zone_b_key", lit "local_negotiation_key_of_zone_b_", lit "md5")).
  pose proof (fun i2 => agent_authenticated (BL := boost_ref_laws) (MDL := digest_ref_laws) (CI := cipher_ref)
      (NegEnv REQ_SVR_NEG CS_NEG_REQUIRE) zone_a (lit "b.example.org") (lit "zone_a_key", sample_key, lit "sha1")
      sample_sig CS_NEG_DONT_CARE zone_b own (map snd (zone_key_map zone_b))
      [sample_signature own.1.1 own.1.2 own.2; sample_sig]
      (sample_message (cs_neg CS_NEG_STATUS_SUCCESS CS_NEG_DONT_CARE)) i2 always_sent always_sent
      ltac:(split_and!; [done|by repeat constructor|simpl; unfold MAX_NAME_LEN; lia]) (sample_arrives _)
      (fun _ => eq_refl) (fun _ => eq_refl) ltac:(done) ltac:(vm_compute; reflexivity) ltac:(done)
      ltac:(repeat constructor) ltac:(done)) as H.
  destruct (H (sample_message (CsNeg 0 []))) as (m2 & H1 & _). exists m2. split; [exact H1|].
  destruct (H (sample_message m2)) as (m2' & H1' & H2). rewrite H1 in H1'. injection H1' as <-.
  exact (H2 (sample_arrives m2)).
Defined.

(** An environment that only contains the token makes the client wait for a negotiation it
    has not asked for: it reads the version and gives up. *)
Example mismatched_request :
  let env := inr (NegEnv (lit "request_server_negotiation;") []) in
  startup_option env (Some (lit "ils")) = inr (lit "ils") /\
  (read_startup_option (lit "ils")).1 = false /\
  do_client_server_negotiation_for_client env = true /\
  client_server_negotiation_for_client (MD := digest_ref) (CI := cipher_ref) env None (lit "host")
    (Received RODS_VERSION_T 300 (inr 0) (inl SYS_PACK_INSTRUCT_FORMAT_ERR)) always_sent =
  Ok (ERROR ADVANCED_NEGOTIATION_NOT_SUPPORTED, [], []).
Proof. done. Qed.

(** An answer without a result is not reported: the look-up throws. *)
Example missing_result_throws :
  read_answer (B := boost_ref) (MD := digest_ref) (CI := cipher_ref) (ServerConfig None None None None) []
    (CsNeg CS_NEG_STATUS_SUCCESS (lit ";")) = Throw Estd.
Proof. reflexivity. Qed.

(** A key of 32 bytes is valid when it is valid up to a NUL in it. *)
Example nul_in_key : negotiation_key_is_valid (lit "key" ++ NUL :: replicate 28 "*"%char) = true.
Proof. reflexivity. Qed.
