(* ===== verification/Trim.v ===== *)
(** * Trimming

    [server/api/src/rsDataObjTrim.cpp]: which replicas of a data object are removed to get
    down to a number of copies, and their removal. The replicas of the [file_object] and
    those of the list of [DataObjInfo] are the same, those of a [data_object]. *)

From stdpp Require Import base gmap list strings.
From Stdlib Require Import ZArith Lia Ascii.
From S2P Require Import Prelude Errors Numerals Hierarchy Rst Rat Locking KeyVal.
Local Open Scope Z_scope.

Definition COPIES_KW : bstr := lit "copies".
Definition REPL_NUM_KW : bstr := lit "replNum".
Definition RESC_NAME_KW : bstr := lit "rescName".
Definition DRYRUN_KW : bstr := lit "dryrun".
Definition DEF_MIN_COPY_CNT : Z := 2.

(** [std::stoi] with [std::invalid_argument] and [std::out_of_range] caught. *)
Definition stoi_or (code : Z) (s : bstr) : res Z :=
  match stoi s with Throw Estd => Throw (Eirods code) | r => r end.

Definition get_minimum_replica_count (copies_kw : option bstr) : res Z :=
  match copies_kw with
  | None => Ok DEF_MIN_COPY_CNT
  | Some s =>
      n ← stoi_or SYS_INVALID_INPUT_PARAM s;
      if n <=? 0 then Throw (Eirods SYS_INVALID_INPUT_PARAM) else Ok n
  end.

(** [resc_name && !matches_target_resource(obj)] *)
Definition off_target (resc_name : option bstr) (r : replica) : res bool :=
  match resc_name with
  | None => Ok false
  | Some n => rescs ← hierarchy_parser (d_hierarchy r); Ok (negb (bstr_eqb (first_resc rescs) n))
  end.

(** The number of replicas, [size], less those in the list, is not above the minimum. *)
Definition down_to (size : nat) (minimum : Z) (trim_list : list replica) : bool :=
  Z.of_nat (size - length trim_list) <=? minimum.

(** The walk over the stale replicas: the list, and whether it was returned. *)
Fixpoint trim_stale (size : nat) (minimum : Z) (resc_name : option bstr) (l trim_list : list replica)
    : res (list replica * bool) :=
  match l with
  | [] => Ok (trim_list, false)
  | r :: l' =>
      if down_to size minimum trim_list then Ok (trim_list, true)
      else if negb (d_repl_status r =? STALE_REPLICA) then trim_stale size minimum resc_name l' trim_list
      else off ← off_target resc_name r;
           if (off : bool) then trim_stale size minimum resc_name l' trim_list
           else trim_stale size minimum resc_name l' (trim_list ++ [r])
  end.

(** The walk over the good ones; [good] is the number of good replicas that are left. *)
Fixpoint trim_good (size : nat) (minimum : Z) (resc_name : option bstr) (good : Z) (l trim_list : list replica)
    : res (list replica) :=
  match l with
  | [] => Ok trim_list
  | r :: l' =>
      if good <=? 1 then Ok trim_list
      else if down_to size minimum trim_list then Ok trim_list
      else if negb (d_repl_status r =? GOOD_REPLICA) then trim_good size minimum resc_name good l' trim_list
      else off ← off_target resc_name r;
           if (off : bool) then trim_good size minimum resc_name good l' trim_list
           else trim_good size minimum resc_name (good - 1) l' (trim_list ++ [r])
  end.

Definition is_good (r : replica) : bool := d_repl_status r =? GOOD_REPLICA.
Definition count_good (l : list replica) : Z := Z.of_nat (length (List.filter is_good l)).

(** Only the replica with a number. *)
Definition trim_number (t : rat) (o : data_object) (repl_num : bstr) : res (list replica) :=
  num ← stoi_or USER_INVALID_REPLICA_INPUT repl_num;
  match find (fun r => d_repl_num r =? num) (o_replicas o) with
  | None => Throw (Eirods SYS_REPLICA_DOES_NOT_EXIST)
  | Some r =>
      let ret := try_lock_number t o write num "" in
      if ret <? 0 then Throw (Eirods ret)
      else if (count_good (o_replicas o) <=? 1) && is_good r then Throw (Eirods USER_INCOMPATIBLE_PARAMS)
      else Ok [r]
  end.

Definition get_list_of_replicas_to_trim (t : rat) (cond : keyValPair) (o : data_object) : res (list replica) :=
  copies ← getValByKey cond COPIES_KW;
  minimum ← get_minimum_replica_count copies;
  let l := o_replicas o in
  if Z.of_nat (length l) <=? minimum then Ok []
  else
    repl_num ← getValByKey cond REPL_NUM_KW;
    match (repl_num : option bstr) with
    | Some repl_num => trim_number t o repl_num
    | None =>
        let ret := try_lock o write in
        if ret <? 0 then Throw (Eirods ret)
        else
          resc_name ← getValByKey cond RESC_NAME_KW;
          '(trim_list, returned) ← trim_stale (length l) minimum resc_name l [];
          if (returned : bool) then Ok trim_list
          else trim_good (length l) minimum resc_name (count_good l) l trim_list
    end.

(** The removal: [unlink] is [dataObjUnlinkS]. The value returned, and the replicas it was
    called for. *)
Fixpoint unlink_all (dryrun : bool) (unlink : replica -> Z) (retVal : Z) (l : list replica) : Z * list replica :=
  match l with
  | [] => (retVal, [])
  | r :: l' =>
      if dryrun then unlink_all dryrun unlink 1 l'
      else let status := unlink r in
           let retVal := if status <? 0 then (if retVal =? 0 then status else retVal) else 1 in
           let '(v, done) := unlink_all dryrun unlink retVal l' in (v, r :: done)
  end.

(** [rsDataObjTrim] for an object of the local zone: the value returned, the replicas that
    [dataObjUnlinkS] was called for, and the conditions. [info] is what
    [get_data_object_info] gives for the conditions without a replica number; [None] is a
    null pointer. *)
Definition rsDataObjTrim (t : rat) (info : keyValPair -> res (option data_object)) (unlink : replica -> Z)
    (cond : keyValPair) : res (Z * list replica * keyValPair) :=
  resc_name ← getValByKey cond RESC_NAME_KW;
  repl_num ← getValByKey cond REPL_NUM_KW;
  match (resc_name : option bstr), (repl_num : option bstr) with
  | Some _, Some _ => Ok (USER_INCOMPATIBLE_PARAMS, [], cond)
  | _, _ =>
      let repl_num_str := from_option id [] repl_num in
      cond ← match repl_num with Some _ => rmKeyVal cond REPL_NUM_KW | None => Ok cond end;
      match info cond with
      | Throw (Eirods c) => Ok (c, [], cond)
      | Throw e => Throw e
      | Ok None => Ok (SYS_INTERNAL_ERR, [], cond)
      | Ok (Some o) =>
          cond ← (if bstr_eqb repl_num_str [] then Ok cond
                  else '(_, kv) ← addKeyVal cond REPL_NUM_KW (Some repl_num_str); Ok kv);
          match get_list_of_replicas_to_trim t cond o with
          | Throw (Eirods c) => Ok (c, [], cond)
          | Throw e => Throw e
          | Ok trim_list =>
              dry ← getValByKey cond DRYRUN_KW;
              let '(v, removed) := unlink_all (match (dry : option bstr) with Some _ => true | None => false end)
                                     unlink 0 trim_list in
              Ok (v, removed, cond)
          end
      end
  end.

(** ** Facts *)

Definition is_stale (r : replica) : bool := d_repl_status r =? STALE_REPLICA.
Definition on_target (resc_name : option bstr) (r : replica) : bool :=
  match off_target resc_name r with Ok b => negb b | Throw _ => false end.

(** Each walk adds a sublist; it stops at the minimum or takes all that it may. *)
Lemma trim_stale_spec size minimum resc l : forall acc out b,
  trim_stale size minimum resc l acc = Ok (out, b) ->
  exists s, out = acc ++ s /\ sublist s (List.filter (fun r => is_stale r && on_target resc r) l) /\
    (minimum <= Z.of_nat (size - length acc) -> minimum <= Z.of_nat (size - length out)) /\
    (if b then down_to size minimum out = true
     else s = List.filter (fun r => is_stale r && on_target resc r) l).
Proof.
  induction l as [|r l IH]; intros acc out b; cbn [trim_stale List.filter].
  - intros [= -> <-]. exists []. rewrite app_nil_r. split_and!; done.
  - destruct (down_to size minimum acc) eqn:Ed.
    { intros [= <- <-]. exists []. rewrite app_nil_r. split_and!; try done. apply sublist_nil_l. }
    destruct (is_stale r) eqn:Es; unfold is_stale in Es; rewrite Es; cbn [negb andb]; [|apply IH].
    destruct (off_target resc r) as [off|e] eqn:Eo; cbn [mbind res_bind]; [|done].
    assert (on_target resc r = negb off) as -> by (unfold on_target; by rewrite Eo).
    destruct off; cbn [negb]; [apply IH|].
    intros (s & -> & Hs & Hm & Hb)%IH. exists (r :: s). rewrite <- app_assoc. split_and!; [done|by constructor| |].
    + intros _. apply Z.leb_gt in Ed. rewrite <- app_assoc in Hm. apply Hm. rewrite length_app. simpl. lia.
    + rewrite <- app_assoc in Hb. destruct b; [done|]. by rewrite <- Hb.
Qed.

Lemma trim_good_spec size minimum resc l : forall good acc out,
  trim_good size minimum resc good l acc = Ok out ->
  exists s, out = acc ++ s /\ sublist s (List.filter (fun r => is_good r && on_target resc r) l) /\
    (minimum <= Z.of_nat (size - length acc) -> minimum <= Z.of_nat (size - length out)) /\
    (0 < good -> 0 < good - Z.of_nat (length s)) /\
    (down_to size minimum out = true \/ good - Z.of_nat (length s) <= 1 \/
     s = List.filter (fun r => is_good r && on_target resc r) l).
Proof.
  induction l as [|r l IH]; intros good acc out; cbn [trim_good List.filter].
  - intros [= ->]. exists []. rewrite app_nil_r. split_and!; try done; [simpl; lia|by right; right].
  - destruct (good <=? 1) eqn:Eg.
    { intros [= <-]. exists []. rewrite app_nil_r. split_and!; try done; [apply sublist_nil_l|simpl; lia|].
      right. left. simpl. lia. }
    destruct (down_to size minimum acc) eqn:Ed.
    { intros [= <-]. exists []. rewrite app_nil_r. split_and!; try done; [apply sublist_nil_l|simpl; lia|by left]. }
    destruct (is_good r) eqn:Es; unfold is_good in Es; rewrite Es; cbn [negb andb]; [|apply IH].
    destruct (off_target resc r) as [off|e] eqn:Eo; cbn [mbind res_bind]; [|done].
    assert (on_target resc r = negb off) as -> by (unfold on_target; by rewrite Eo).
    destruct off; cbn [negb]; [apply IH|].
    intros (s & -> & Hs & Hm & Hg & Hb)%IH. exists (r :: s). rewrite <- app_assoc in *.
    split_and!; [done|by constructor| | |].
    + intros _. apply Z.leb_gt in Ed. apply Hm. rewrite length_app. simpl. lia.
    + intros _. apply Z.leb_gt in Eg. simpl. lia.
    + destruct Hb as [Hb|[Hb|Hb]]; [by left|right; left; simpl; lia|right; right; by rewrite <- Hb].
Qed.

Lemma filter_two (p q : replica -> bool) l :
  (forall r, p r = true -> q r = false) -> List.filter p l ++ List.filter q l ⊆+ l.
Proof.
  intros Hpq. induction l as [|r l IH]; [done|]. cbn [List.filter].
  destruct (p r) eqn:Ep; [rewrite (Hpq r Ep); cbn [app]; by apply submseteq_skip|].
  destruct (q r); [|by apply submseteq_cons]. rewrite <- Permutation_middle. by apply submseteq_skip.
Qed.

Lemma count_good_app l1 l2 : count_good (l1 ++ l2) = count_good l1 + count_good l2.
Proof. unfold count_good. rewrite List.filter_app, length_app. lia. Qed.

(** A part of a filtered list has what the filter asks for. *)
Lemma sublist_filter (p : replica -> bool) s l : sublist s (List.filter p l) -> Forall (fun r => p r = true) s.
Proof.
  intros Hs. apply Forall_forall. intros r Hr. apply (sublist_submseteq) in Hs.
  eapply elem_of_submseteq in Hs; [|exact Hr]. by apply list_elem_of_In, filter_In in Hs as [_ ?].
Qed.

Lemma stale_not_good r : is_stale r = true -> is_good r = false.
Proof. unfold is_stale, is_good. rewrite Z.eqb_eq. by intros ->. Qed.

Lemma count_good_stale resc l : Forall (fun r => is_stale r && on_target resc r = true) l -> count_good l = 0.
Proof.
  intros H. unfold count_good. induction H as [|r l Hr H IH]; [done|]. cbn [List.filter].
  apply andb_true_iff in Hr as [Hr _]. by rewrite (stale_not_good r Hr).
Qed.

Lemma count_good_good resc l :
  Forall (fun r => is_good r && on_target resc r = true) l -> count_good l = Z.of_nat (length l).
Proof.
  intros H. unfold count_good. induction H as [|r l Hr H IH]; [done|]. cbn [List.filter].
  apply andb_true_iff in Hr as [-> _]. simpl. lia.
Qed.

Lemma rest_status resc p r :
  (p = is_stale \/ p = is_good) -> p r && on_target resc r = true -> at_rest r = true /\ locked r = false.
Proof.
  intros Hp [Hr _]%andb_true_iff.
  destruct Hp as [-> | ->]; unfold is_stale, is_good, at_rest, locked in *; apply Z.eqb_eq in Hr; by rewrite Hr.
Qed.

(** The two walks together. *)
Lemma trim_walks size minimum resc l trim :
  size = length l -> minimum < Z.of_nat size ->
  ('(trim_list, returned) ← trim_stale size minimum resc l [];
   if (returned : bool) then Ok trim_list else trim_good size minimum resc (count_good l) l trim_list) = Ok trim ->
  exists s g, trim = s ++ g /\
    sublist s (List.filter (fun r => is_stale r && on_target resc r) l) /\
    sublist g (List.filter (fun r => is_good r && on_target resc r) l) /\
    minimum <= Z.of_nat (size - length trim) /\
    (0 < count_good l -> 0 < count_good l - Z.of_nat (length g)) /\
    (down_to size minimum trim = true \/
     (s = List.filter (fun r => is_stale r && on_target resc r) l /\
      (count_good l - Z.of_nat (length g) <= 1 \/ g = List.filter (fun r => is_good r && on_target resc r) l))).
Proof.
  intros Hsize Hm. destruct (trim_stale size minimum resc l []) as [[s b]|e] eqn:Es; [|done].
  apply trim_stale_spec in Es as (s' & -> & Hs & Hk & Hb). cbn [app mbind res_bind] in *.
  assert (minimum <= Z.of_nat (size - length s')) as Hk' by (apply Hk; simpl; lia).
  destruct b.
  - intros [= <-]. exists s', []. rewrite app_nil_r. split_and!; try done; [apply sublist_nil_l|simpl; lia|by left].
  - intros (g & -> & Hg & Hk2 & Hgood & Hend)%trim_good_spec. exists s', g. split_and!; try done; [by apply Hk2|].
    destruct Hend as [Hend|[Hend|Hend]]; [by left|right; by split; [|left]|right; by split; [|right]].
Qed.

Lemma find_number t o num r :
  find (fun r => d_repl_num r =? num) (o_replicas o) = Some r -> (try_lock_number t o write num "" <? 0) = false ->
  r ∈ o_replicas o /\ at_rest r = true /\ locked r = false.
Proof.
  intros Hf Hl. split; [by apply find_some in Hf as [Hf _]; apply list_elem_of_In|].
  revert Hl. unfold try_lock_number, find_replica_number. rewrite Hf.
  unfold try_lock_for_specific_replica, try_lock_for_intermediate_replica_access.
  destruct (at_rest r), (locked r); done.
Qed.

(** C36: Trimming never removes too much: what it takes are replicas of the object, none of
    them open or locked; if it takes any, as many copies are kept as were asked for, two when
    nothing was; and an object that has a good replica keeps one. *)
Theorem trim_keeps_copies t cond o trim :
  get_list_of_replicas_to_trim t cond o = Ok trim ->
  trim ⊆+ o_replicas o /\
  (exists copies minimum, getValByKey cond COPIES_KW = Ok copies /\ get_minimum_replica_count copies = Ok minimum /\
     (trim = [] \/ minimum <= Z.of_nat (length (o_replicas o) - length trim))) /\
  (0 < count_good (o_replicas o) -> 0 < count_good (o_replicas o) - count_good trim) /\
  Forall (fun r => at_rest r = true /\ locked r = false) trim.
Proof.
  unfold get_list_of_replicas_to_trim. destruct (getValByKey cond COPIES_KW) as [copies|]; [|done]. cbn [mbind res_bind].
  destruct (get_minimum_replica_count copies) as [minimum|] eqn:Emin; [|done]. cbn [mbind res_bind].
  set (l := o_replicas o) in *. destruct (Z.leb_spec (Z.of_nat (length l)) minimum) as [Hle|Hgt].
  { intros [= <-]. split_and!; [apply submseteq_nil_l|exists copies, minimum; by split_and!; [..|left]| |done].
    change (count_good []) with 0. lia. }
  destruct (getValByKey cond REPL_NUM_KW) as [[num|]|]; [| |done]; cbn [mbind res_bind].
  - unfold trim_number. destruct (stoi_or _ num) as [n|]; [|done]. cbn [mbind res_bind].
    destruct (find _ _) as [r|] eqn:Ef; [|done]. cbv zeta.
    destruct (try_lock_number t o write n "" <? 0) eqn:El; [done|].
    destruct (find_number _ _ _ _ Ef El) as (Hin & Hr1 & Hr2). fold l in Hin.
    fold l. destruct ((count_good l <=? 1) && is_good r) eqn:Eg; [done|]. intros [= <-].
    split_and!; [by apply singleton_submseteq_l| |
                 |by constructor].
    + exists copies, minimum. split_and!; [done..|]. right. change (length [r]) with 1%nat. lia.
    + intros H. unfold count_good at 2. cbn [List.filter]. destruct (is_good r); simpl; [|lia].
      rewrite andb_true_r in Eg. apply Z.leb_gt in Eg. lia.
  - cbv zeta. destruct (try_lock o write <? 0); [done|]. destruct (getValByKey cond RESC_NAME_KW) as [resc|]; [|done].
    cbn [mbind res_bind]. intros H. apply trim_walks in H as (s & g & -> & Hs & Hg & Hk & Hgood & _); [|done..].
    pose proof (sublist_filter _ _ _ Hs) as Fs. pose proof (sublist_filter _ _ _ Hg) as Fg.
    split_and!.
    + etrans; [apply submseteq_app; apply sublist_submseteq; [exact Hs|exact Hg]|]. apply filter_two.
      intros r [Hr _]%andb_true_iff. by rewrite (stale_not_good r Hr).
    + exists copies, minimum. split_and!; [done..|]. by right.
    + rewrite count_good_app, (count_good_stale resc s), (count_good_good resc g) by done. lia.
    + apply Forall_app. split; [eapply Forall_impl; [exact Fs|]|eapply Forall_impl; [exact Fg|]];
        intros r; apply rest_status; [by left|by right].
Qed.

(** Trimming without a replica number stops only at the minimum, or when every stale
    replica it may take is taken and either one good replica is left or every good one it
    may take is taken as well; stale replicas go first. *)
Theorem trim_goes_to_the_minimum t cond o trim copies minimum resc :
  getValByKey cond COPIES_KW = Ok copies -> get_minimum_replica_count copies = Ok minimum ->
  getValByKey cond REPL_NUM_KW = Ok None -> getValByKey cond RESC_NAME_KW = Ok resc ->
  get_list_of_replicas_to_trim t cond o = Ok trim ->
  let l := o_replicas o in
  let takes p r := p r = true -> on_target resc r = true -> r ∈ trim in
  Z.of_nat (length l - length trim) <= minimum \/
  ((forall r, r ∈ l -> takes is_stale r) /\
   (count_good l - count_good trim <= 1 \/ forall r, r ∈ l -> takes is_good r)).
Proof.
  intros Hc Hm Hn Hr. unfold get_list_of_replicas_to_trim. rewrite Hc. cbn [mbind res_bind]. rewrite Hm. cbn [mbind res_bind].
  cbv zeta. set (l := o_replicas o) in *. destruct (Z.leb_spec (Z.of_nat (length l)) minimum) as [Hle|Hgt].
  { intros [= <-]. left. change (length []) with 0%nat. lia. }
  rewrite Hn. cbn [mbind res_bind]. destruct (try_lock o write <? 0); [done|]. rewrite Hr. cbn [mbind res_bind].
  intros H. apply trim_walks in H as (s & g & -> & Hs & Hg & Hk & Hgood & Hend); [|done..].
  pose proof (sublist_filter _ _ _ Hs) as Fs. pose proof (sublist_filter _ _ _ Hg) as Fg.
  assert (forall p x, x ∈ l -> p x = true -> on_target resc x = true ->
                      x ∈ List.filter (fun r => p r && on_target resc r) l) as Hin.
  { intros p x Hx Hp Ht. apply list_elem_of_In, filter_In. split; [by apply list_elem_of_In|]. by rewrite Hp. }
  destruct Hend as [Hend|[-> Hend]]; [left; by apply Z.leb_le|right].
  split; [intros x Hx Hp Ht; apply elem_of_app; left; by apply Hin|].
  destruct Hend as [Hend| ->].
  - left. rewrite count_good_app, (count_good_stale _ _ Fs), (count_good_good resc g) by done. lia.
  - right. intros x Hx Hp Ht. apply elem_of_app. right. by apply Hin.
Qed.

(** ** Witnesses *)

Definition sample_replica (num status : Z) (hier : bstr) : replica :=
  Replica 10 20 (lit "/z/a") num [] [] 5 (lit "/v/a") [] [] status [] [] [] 0 [] [] [] [] [] 30 hier.

Definition sample_object : data_object :=
  DataObject (sample_replica 0 GOOD_REPLICA (lit "r1;u1"))
    [sample_replica 1 STALE_REPLICA (lit "r2"); sample_replica 2 GOOD_REPLICA (lit "r1;u2");
     sample_replica 3 GOOD_REPLICA (lit "r3")].

Definition replica_numbers (r : res (list replica)) : option (list Z) :=
  match r with Ok l => Some (map d_repl_num l) | Throw _ => None end.

Lemma trim_keeps_copies_witness :
  exists trim, get_list_of_replicas_to_trim ∅ zero_kvp sample_object = Ok trim /\ length trim = 2%nat /\
    0 < count_good (o_replicas sample_object) - count_good trim.
Proof.
  destruct (get_list_of_replicas_to_trim ∅ zero_kvp sample_object) as [trim|e] eqn:E; [|vm_compute in E; discriminate E].
  exists trim. split; [reflexivity|].
  destruct (trim_keeps_copies ∅ zero_kvp sample_object trim E) as (_ & _ & H & _).
  split; [vm_compute in E; injection E as <-; reflexivity|]. apply H. vm_compute. reflexivity.
Defined.

Lemma trim_goes_to_the_minimum_witness :
  exists trim, get_list_of_replicas_to_trim ∅ zero_kvp sample_object = Ok trim /\
    (Z.of_nat (4 - length trim) <= 2 \/ count_good (o_replicas sample_object) - count_good trim <= 1 \/
     forall r, r ∈ o_replicas sample_object -> is_good r = true -> r ∈ trim).
Proof.
  destruct (get_list_of_replicas_to_trim ∅ zero_kvp sample_object) as [trim|e] eqn:E; [|vm_compute in E; discriminate E].
  exists trim. split; [reflexivity|].
  destruct (trim_goes_to_the_minimum ∅ zero_kvp sample_object trim None 2 None
              eq_refl eq_refl eq_refl eq_refl E) as [H|[_ [H|H]]];
    [left; exact H|right; left; exact H|right; right; intros r Hr Hg; exact (H r Hr Hg eq_refl)].
Defined.

(** Stale replicas first, then the first good ones. *)
Example trim_order : replica_numbers (get_list_of_replicas_to_trim ∅ zero_kvp sample_object) = Some [1; 0].
Proof. reflexivity. Qed.

Definition with_pair (k v : bstr) (kv : keyValPair) : keyValPair :=
  match addKeyVal kv k (Some v) with Ok (_, kv') => kv' | Throw _ => kv end.

(** The last good replica cannot be named. *)
Example last_good_refused :
  let o := DataObject (sample_replica 0 GOOD_REPLICA (lit "r1")) [sample_replica 1 STALE_REPLICA (lit "r2")] in
  get_list_of_replicas_to_trim ∅ (with_pair COPIES_KW (lit "1") (with_pair REPL_NUM_KW (lit "0") zero_kvp)) o =
  Throw (Eirods USER_INCOMPATIBLE_PARAMS).
Proof. reflexivity. Qed.

(** An empty replica number is taken out and not put back: replicas are chosen by count. *)
Example empty_number_trims :
  match rsDataObjTrim ∅ (fun _ => Ok (Some sample_object)) (fun _ => 0) (with_pair REPL_NUM_KW [] zero_kvp) with
  | Ok (v, removed, _) => (v, map d_repl_num removed) = (1, [1; 0])
  | Throw _ => False
  end.
Proof. reflexivity. Qed.
