(* ===== verification/RodsPath.v ===== *)
(** * Paths on the command line

    [lib/core/src/rodsPath.cpp]: how a path a user gives becomes a full logical path, and
    the paths of a command line. The code moves pointers in a buffer of [MAX_NAME_LEN] bytes;
    here they are positions in the string, and one before its start is undefined. *)

From stdpp Require Import base list strings.
From Stdlib Require Import ZArith Lia Ascii.
From S2P Require Import Prelude Errors Quota.

Definition MAX_PATH_ALLOWED : nat := 1024.
Definition slash : ascii := "/"%char.

(** The collections of a [rodsEnv]. *)
Record path_env : Type := PathEnv { rodsHome : bstr; rodsCwd : bstr }.

(** ** Full paths *)

(** [while ( ( p = strstr( s, pat ) ) != NULL )] the bytes behind [pat] are moved to [p + 1]. *)
Fixpoint cut_loop (fuel : nat) (pat s : bstr) : res bstr :=
  match strstr s pat with
  | None => Ok s
  | Some i =>
      match fuel with
      | O => Throw Ediverge
      | S fuel => cut_loop fuel pat (take (i + 1) s ++ drop (i + length pat) s)
      end
  end.

(** The last slash not behind [j]. *)
Fixpoint last_slash (s : bstr) (j : nat) : option nat :=
  if bool_decide (s !! j = Some slash) then Some j
  else match j with O => None | S j' => last_slash s j' end.

(** Going back from [i]: the byte before it is read first. [None] is the error. *)
Definition go_back (s : bstr) (i : nat) : res (option nat) :=
  match i with O => Throw Eundef | S j => Ok (last_slash s j) end.

(** The loop that takes out ["/../"]; [None] is the error. *)
Fixpoint dotdot_loop (fuel : nat) (s : bstr) : res (option bstr) :=
  match strstr s (lit "/../") with
  | None => Ok (Some s)
  | Some i =>
      match fuel with
      | O => Throw Ediverge
      | S fuel =>
          b ← go_back s i;
          match (b : option nat) with
          | None => Ok None
          | Some j => dotdot_loop fuel (take (j + 1) s ++ drop (i + 4) s)
          end
      end
  end.

(** The path, unless it is too long, with whether it is known to be a collection. *)
Definition check_length (s : bstr) (coll : bool) : Z * bstr * bool :=
  if (MAX_PATH_ALLOWED - 1 <=? length s)%nat then (USER_PATH_EXCEEDS_MAX, s, coll) else (0%Z, s, coll).

(** The end of the path: ["/.."], ["/."] and ["/"]. *)
Definition path_end (s : bstr) : res (Z * bstr * bool) :=
  let len := length s in
  if (len <? 3)%nat then Throw Eundef
  else if bstr_eqb (drop (len - 3) s) (lit "/..") then
    b ← go_back s (len - 3);
    match (b : option nat) with
    | None => Ok (USER_INPUT_PATH_ERR, s, false)
    | Some O => Ok (check_length [slash] true)
    | Some j => Ok (check_length (take j s) true)
    end
  else if bstr_eqb (drop (len - 2) s) (lit "/.") then Ok (check_length (take (len - 2) s) true)
  else if bstr_eqb (drop (len - 1) s) (lit "/") then Ok (check_length (take (len - 1) s) true)
  else Ok (check_length s false).

(** The path before it is cleaned; [inr] is a collection that is left as it is. *)
Definition start_path (inPath : bstr) (env : option path_env) : res (bstr + bstr) :=
  match env with
  | None => Ok (inl (rstrcpy inPath MAX_NAME_LEN))
  | Some env =>
      if bstr_eqb inPath [] || bstr_eqb inPath (lit ".") || bstr_eqb inPath (lit "./")
      then Ok (inr (rstrcpy (rodsCwd env) MAX_NAME_LEN))
      else if bstr_eqb inPath (lit "~") || bstr_eqb inPath (lit "~/")
      then Ok (inr (rstrcpy (rodsHome env) MAX_NAME_LEN))
      else if bstr_eqb (take 2 inPath) (lit "~/")
      then Ok (inl (rstrcpy (rodsHome env ++ slash :: drop 2 inPath) MAX_NAME_LEN))
      else if bstr_eqb (take 1 inPath) [slash]
      then Ok (inl (rstrcpy inPath MAX_NAME_LEN))
      else Ok (inl (rstrcpy (rodsCwd env ++ slash :: inPath) MAX_NAME_LEN))
  end.

(** [parseRodsPath]: the code, [outPath] and whether [objType] is [COLL_OBJ_T]. The number
    of iterations of every loop is bounded by the length of the path. *)
Definition parseRodsPath (inPath : bstr) (env : option path_env) : res (Z * bstr * bool) :=
  if match env with None => negb (bstr_eqb (take 1 inPath) [slash]) | Some _ => false end
  then Ok (USER__NULL_INPUT_ERR, [], false)
  else
    r ← start_path inPath env;
    match r with
    | inr p => Ok (0%Z, p, true)
    | inl s =>
        s ← cut_loop (length s) (lit "//") s;
        s ← cut_loop (length s) (lit "/./") s;
        b ← dotdot_loop (length s) s;
        match (b : option bstr) with
        | None => Ok (USER_INPUT_PATH_ERR, s, false)
        | Some s => path_end s
        end
    end.

Definition parseRodsPathStr (inPath : option bstr) (env : option path_env) : res (Z * option bstr) :=
  match inPath with
  | None => Ok (USER__NULL_INPUT_ERR, None)
  | Some inPath =>
      if (MAX_NAME_LEN - 1 <=? length inPath)%nat then Ok (USER_PATH_EXCEEDS_MAX, None)
      else '(status, out, _) ← parseRodsPath (rstrcpy inPath MAX_NAME_LEN) env;
           if (status <? 0)%Z then Ok (status, None) else Ok (status, Some (rstrcpy out MAX_NAME_LEN))
  end.

(** ** Command lines *)

(** Trailing slashes but a first one; the last byte of an empty path is outside of it. *)
Fixpoint trim_slashes (s : bstr) (i : nat) : bstr :=
  match i with
  | O => s
  | S i' => if bool_decide (s !! i = Some slash) then trim_slashes (take i s) i' else s
  end.

(** [addSrcInPath]: what is added to the sources. *)
Definition src_in_path (inPath : bstr) : res bstr :=
  let s := rstrcpy inPath MAX_NAME_LEN in
  match length s with O => Throw Eundef | S n => Ok (trim_slashes s n) end.

Definition form_feed : ascii := ascii_of_nat 12.

Definition escape_path (s : bstr) : bstr :=
  concat (map (fun c => if Ascii.eqb c form_feed then lit "\f" else [c]) s).

(** The output paths of the sources, as they are added one by one; every time it is the
    first one that is escaped. [parse] is [parseRodsPath]. *)
Fixpoint add_sources (parse : bstr -> res (Z * bstr * bool)) (args : list bstr) (outs : list bstr)
    : res (Z * list bstr) :=
  match args with
  | [] => Ok (0%Z, outs)
  | a :: args' =>
      s ← src_in_path a;
      '(status, out, _) ← parse s;
      let outs := outs ++ [out] in
      if (status <? 0)%Z then Ok (status, outs)
      else add_sources parse args'
             match outs with
             | o :: outs' => (if (status =? 0)%Z then rstrcpy (escape_path o) MAX_NAME_LEN else o) :: outs'
             | [] => []
             end
  end.

(** The sources among the arguments behind the options: all of them, or all but the last. *)
Definition source_args (allow_no_src has_dest : bool) (argv : list bstr) : option (list bstr) :=
  match argv with
  | [] => if allow_no_src then Some [lit "."] else None
  | [a] => Some [a]
  | _ => Some (if has_dest then removelast argv else argv)
  end.

Definition dest_arg (argv : list bstr) : bstr :=
  rstrcpy (match argv with [] | [_] => lit "." | _ => default [] (last argv) end) MAX_NAME_LEN.

(** [parse_command_line_path] for logical paths: the code, the sources and the destination. *)
Definition parse_command_line_path (env : option path_env) (allow_no_src has_dest : bool) (argv : list bstr)
    : res (Z * list bstr * option bstr) :=
  match source_args allow_no_src has_dest argv with
  | None => Ok (USER__NULL_INPUT_ERR, [], None)
  | Some args =>
      '(status, outs) ← add_sources (fun s => parseRodsPath s env) args [];
      if (status <? 0)%Z then Ok (status, outs, None)
      else if negb has_dest then Ok (status, outs, None)
      else '(status, out, _) ← parseRodsPath (dest_arg argv) env;
           Ok (status, outs, Some (if (status =? 0)%Z then rstrcpy (escape_path out) MAX_NAME_LEN else out))
  end.

(** ** Components *)

(** A path that begins with a slash, by what is between its slashes. *)
Definition slashes (cs : list bstr) : bstr := concat (map (cons slash) cs).
Definition parts_ok (cs : list bstr) : Prop := Forall (fun c => slash ∉ c) cs.

Lemma slashes_app a b : slashes (a ++ b) = slashes a ++ slashes b.
Proof. unfold slashes. by rewrite map_app, concat_app. Qed.

(** The pattern of the loops. *)
Definition between (d : bstr) : bstr := slash :: d ++ [slash].

Lemma strstr_skip x s p : (slash ∉ x) -> strstr (x ++ s) (slash :: p) = Nat.add (length x) <$> strstr s (slash :: p).
Proof.
  induction x as [|c x IH]; intros Hx.
  - simpl. by destruct (strstr s _).
  - apply not_elem_of_cons in Hx as [Hc Hx]. cbn [app strstr].
    rewrite (proj2 (bstr_eqb_neq _ _)) by (cbn; congruence). rewrite (IH Hx). by destruct (strstr s _).
Qed.

(** The pattern is at the start when the first component is [d] and another one follows. *)
Lemma between_first d c cs :
  (slash ∉ d) -> (slash ∉ c) ->
  bstr_eqb (take (length (between d)) (slashes (c :: cs))) (between d) = bool_decide (c = d /\ cs <> []).
Proof.
  intros Hd Hc. enough (take (length (between d)) (slashes (c :: cs)) = between d <-> c = d /\ cs <> []) as H.
  { case_bool_decide; [apply bstr_eqb_eq|apply bstr_eqb_neq]; tauto. }
  unfold between, slashes. cbn [map concat app length take]. split.
  - intros [= H]. revert c Hc H. induction d as [|x d IH]; intros [|y c] Hc H; cbn in H.
    + split; [done|]. by destruct cs.
    + exfalso. apply Hc. injection H as ->. left.
    + destruct cs as [|e cs]; [done|]. cbn in H. injection H as <- _. exfalso. apply Hd. left.
    + injection H as -> H. apply not_elem_of_cons in Hd as [_ Hd]. apply not_elem_of_cons in Hc as [_ Hc].
      destruct (IH Hd c Hc H) as [-> ?]. done.
  - intros [-> Hcs]. f_equal. destruct cs as [|e cs]; [done|]. cbn [map concat].
    rewrite length_app. cbn [length]. rewrite take_app_add. done.
Qed.

Lemma strstr_parts d c cs :
  (slash ∉ d) -> (slash ∉ c) ->
  strstr (slashes (c :: cs)) (between d) =
  if bool_decide (c = d /\ cs <> []) then Some O else Nat.add (S (length c)) <$> strstr (slashes cs) (between d).
Proof.
  intros Hd Hc. pose proof (between_first d c cs Hd Hc) as H.
  unfold slashes in *. cbn [map concat app] in *. cbn [strstr]. rewrite H.
  case_bool_decide; [done|]. unfold between at 1. rewrite (strstr_skip c) by done. by destruct (strstr _ _).
Qed.

Lemma strstr_nil d : strstr (slashes []) (between d) = None.
Proof. done. Qed.

(** What the loops make of the components: they take out every [d] but a last one. *)
Fixpoint strip (d : bstr) (cs : list bstr) : list bstr :=
  match cs with
  | c :: ((_ :: _) as cs') => if bstr_eqb c d then strip d cs' else c :: strip d cs'
  | _ => cs
  end.

Lemma strip_cons d c cs : cs <> [] -> strip d (c :: cs) = if bstr_eqb c d then strip d cs else c :: strip d cs.
Proof. by destruct cs. Qed.

Lemma strip_cut d a b r : strip d (a ++ d :: b :: r) = strip d (a ++ b :: r).
Proof.
  induction a as [|c a IH]; cbn [app].
  - rewrite strip_cons by done. by rewrite (proj2 (bstr_eqb_eq d d)).
  - rewrite !strip_cons by (by destruct a). by rewrite IH.
Qed.

(** The first [d] that another component follows, or there is none. *)
Lemma first_part d cs :
  (slash ∉ d) -> parts_ok cs ->
  (strstr (slashes cs) (between d) = None /\ strip d cs = cs /\ forall a b r, cs <> a ++ d :: b :: r) \/
  (exists a b r, cs = a ++ d :: b :: r /\ (d ∉ a) /\ strstr (slashes cs) (between d) = Some (length (slashes a))).
Proof.
  intros Hd H. induction H as [|c cs Hc H IH].
  { left. split_and!; try done. intros [|? ?] b r; done. }
  rewrite (strstr_parts d c cs Hd Hc). case_bool_decide as E.
  { destruct E as [-> Hcs]. destruct cs as [|b r]; [done|]. right. exists [], b, r. split_and!; [done|apply not_elem_of_nil|done]. }
  destruct IH as [(-> & Hs & Hn)|(a & b & r & -> & Ha & ->)].
  - left. split_and!; [done| |].
    + destruct cs as [|b cs]; [done|]. rewrite strip_cons by done. rewrite Hs.
      destruct (bstr_eqb c d) eqn:Ec; [|done]. apply bstr_eqb_eq in Ec. exfalso. by apply E.
    + intros [|x a] b r [= -> Hr]; [|by apply (Hn a b r)]. apply E. split; [done|]. by rewrite Hr.
  - right. exists (c :: a), b, r. split_and!; [done| |].
    + apply not_elem_of_cons. split; [|done]. intros ->. apply E. split; [done|]. by destruct a.
    + cbn [fmap option_fmap option_map]. f_equal. unfold slashes. cbn [map concat]. rewrite length_app. done.
Qed.

(** The component and one slash are taken out. *)
Lemma cut_part d a b r :
  let s := slashes (a ++ d :: b :: r) in
  take (length (slashes a) + 1) s ++ drop (length (slashes a) + length (between d)) s = slashes (a ++ b :: r).
Proof.
  cbv zeta. rewrite !slashes_app. set (p := slashes a).
  assert (slashes (d :: b :: r) = slash :: d ++ slashes (b :: r)) as -> by done.
  rewrite take_app_add, drop_app_add, <- app_assoc. f_equal. unfold between. cbn [length drop take app]. f_equal.
  rewrite length_app, drop_app_add. done.
Qed.

Lemma parts_ok_cut d a b r : parts_ok (a ++ d :: b :: r) -> parts_ok (a ++ b :: r).
Proof. unfold parts_ok. rewrite !Forall_app, !Forall_cons. tauto. Qed.

Lemma cut_loop_parts d : (slash ∉ d) -> forall fuel cs,
  parts_ok cs -> (length cs <= fuel)%nat -> cut_loop fuel (between d) (slashes cs) = Ok (slashes (strip d cs)).
Proof.
  intros Hd. induction fuel as [|fuel IH]; intros cs Hcs Hl.
  - destruct cs; [done|simpl in Hl; lia].
  - cbn [cut_loop]. destruct (first_part d cs Hd Hcs) as [(-> & -> & _)|(a & b & r & -> & _ & ->)]; [done|].
    rewrite cut_part, strip_cut. apply IH; [by apply (parts_ok_cut d)|]. rewrite length_app in *. simpl in *. lia.
Qed.

Lemma slashes_length cs : (length cs <= length (slashes cs))%nat.
Proof. induction cs as [|c cs IH]; [done|]. unfold slashes in *. cbn. rewrite length_app. lia. Qed.

(** ** Going up *)

Lemma last_slash_here s j : s !! j = Some slash -> last_slash s j = Some j.
Proof. intros H. destruct j; cbn [last_slash]; by rewrite bool_decide_true. Qed.

Lemma last_slash_part p x r :
  (slash ∉ x) -> last_slash (p ++ slash :: x ++ r) (length p + length x) = Some (length p).
Proof.
  revert r. induction x as [|c x IH] using rev_ind; intros r Hx.
  - rewrite Nat.add_0_r. apply last_slash_here. by apply list_lookup_middle.
  - apply not_elem_of_app in Hx as [Hx Hc]. rewrite length_app, <- app_assoc. cbn [app length].
    replace (length p + (length x + 1))%nat with (S (length p + length x)) by lia. cbn [last_slash].
    assert ((p ++ slash :: x ++ c :: r) !! S (length p + length x) = Some c) as ->.
    { rewrite lookup_app_r by lia. replace (S (length p + length x) - length p)%nat with (S (length x)) by lia.
      rewrite <- (lookup_drop _ 1). by apply list_lookup_middle. }
    rewrite bool_decide_false; [by apply (IH (c :: r))|]. intros [= ->]. apply Hc. left.
Qed.

(** What the loop makes of the components: the ones before, in reverse, and those to come. *)
Fixpoint back (st cs : list bstr) : option (list bstr) :=
  match cs with
  | [] => Some (rev st)
  | c :: cs' =>
      match cs' with
      | [] => Some (rev st ++ [c])
      | _ => if bstr_eqb c (lit "..") then match st with [] => None | _ :: st' => back st' cs' end
             else back (c :: st) cs'
      end
  end.

Lemma back_cons st c cs :
  cs <> [] -> back st (c :: cs) = if bstr_eqb c (lit "..") then match st with [] => None | _ :: st' => back st' cs end
                                  else back (c :: st) cs.
Proof. by destruct cs. Qed.

Lemma back_skip st a cs : (lit ".." ∉ a) -> cs <> [] -> back st (a ++ cs) = back (rev a ++ st) cs.
Proof.
  revert st. induction a as [|c a IH]; intros st Ha Hcs; [done|]. apply not_elem_of_cons in Ha as [Hc Ha].
  cbn [app rev]. rewrite back_cons by (by destruct a). rewrite (proj2 (bstr_eqb_neq _ _)) by congruence.
  rewrite IH by done. by rewrite <- app_assoc.
Qed.

Lemma back_none cs : (forall a b r, cs <> a ++ lit ".." :: b :: r) -> forall st, back st cs = Some (rev st ++ cs).
Proof.
  induction cs as [|c cs IH]; intros Hn st; [by rewrite app_nil_r|]. destruct cs as [|b cs]; [done|].
  rewrite back_cons by done. rewrite (proj2 (bstr_eqb_neq _ _)) by (intros ->; by apply (Hn [] b cs)).
  rewrite IH by (intros a x r E; apply (Hn (c :: a) x r); by rewrite E). cbn [rev]. by rewrite <- app_assoc.
Qed.

(** Two lists that agree, one of which has no [d] where the other has its first. *)
Lemma split_prefix {A} (a1 a cs : list A) d r :
  a ++ cs = a1 ++ d :: r -> (d ∉ a) -> exists a2, a1 = a ++ a2 /\ cs = a2 ++ d :: r.
Proof.
  revert a1. induction a as [|x a IH]; intros a1 E Hd; [by exists a1|].
  apply not_elem_of_cons in Hd as [Hx Hd]. destruct a1 as [|y a1]; [by injection E|]. injection E as -> E.
  destruct (IH a1 E Hd) as (a2 & -> & ->). by exists a2.
Qed.

Lemma dots_no_slash : slash ∉ lit "..".
Proof. by_evaluation. Qed.

Lemma dotdot_loop_parts : forall fuel a cs,
  parts_ok (a ++ cs) -> (lit ".." ∉ a) -> (length (a ++ cs) <= fuel)%nat ->
  dotdot_loop fuel (slashes (a ++ cs)) =
  match back (rev a) cs with Some r => Ok (Some (slashes r)) | None => Throw Eundef end.
Proof.
  induction fuel as [|fuel IH]; intros a cs Hp Ha Hl.
  { destruct a, cs; try done; simpl in Hl; lia. }
  cbn [dotdot_loop]. change (lit "/../") with (between (lit "..")).
  destruct (first_part (lit "..") (a ++ cs) dots_no_slash Hp) as [(-> & _ & Hn)|(a1 & b & r & E & Ha1 & ->)].
  - rewrite back_none; [by rewrite rev_involutive|]. intros x y z E. apply (Hn (a ++ x) y z). by rewrite E, <- app_assoc.
  - destruct (split_prefix a1 a cs _ _ E Ha) as (a2 & -> & ->). rewrite E in *. clear E.
    assert (lit ".." ∉ a2) as Ha2 by (by apply not_elem_of_app in Ha1 as [_ ?]). rewrite back_skip, <- rev_app_distr, back_cons by done.
    change (bstr_eqb (lit "..") (lit "..")) with true. cbv iota.
    generalize dependent (a ++ a2). clear a a2 Ha Ha2. intros a Hp Hl Ha.
    destruct a as [|z p _] using rev_ind; [done|]. rewrite rev_app_distr. cbn [rev app].
    assert (slash ∉ z) as Hz by (unfold parts_ok in Hp; rewrite !Forall_app, Forall_cons in Hp; tauto).
    assert (length (slashes (p ++ [z])) = S (length (slashes p) + length z)) as Hlen.
    { rewrite slashes_app, length_app. unfold slashes at 2. cbn. rewrite app_nil_r. lia. }
    assert (slashes ((p ++ [z]) ++ lit ".." :: b :: r) = slashes p ++ slash :: z ++ slashes (lit ".." :: b :: r)) as Hs
      by (rewrite <- app_assoc, slashes_app; done).
    unfold go_back. rewrite Hlen, Hs, last_slash_part by done. cbn [mbind res_bind].
    assert (take (length (slashes p) + 1) (slashes p ++ slash :: z ++ slashes (lit ".." :: b :: r)) ++
            drop (S (length (slashes p) + length z) + 4) (slashes p ++ slash :: z ++ slashes (lit ".." :: b :: r)) =
            slashes (p ++ b :: r)) as ->.
    { replace (S (length (slashes p) + length z) + 4)%nat with (length (slashes p) + (1 + (length z + 4)))%nat by lia.
      rewrite take_app_add, drop_app_add, <- app_assoc, slashes_app. f_equal. cbn [take drop app Nat.add].
      rewrite drop_app_add. done. }
    apply IH.
    + unfold parts_ok in *. rewrite !Forall_app, !Forall_cons in *. tauto.
    + by apply not_elem_of_app in Ha as [? _].
    + rewrite !length_app in *. simpl in *. lia.
Qed.

(** ** The end *)

Lemma drop_end (a b : bstr) : drop (length (a ++ b) - length b) (a ++ b) = b.
Proof. rewrite length_app. replace (length a + length b - length b)%nat with (length a) by lia. apply drop_app_length. Qed.

Lemma take_end (a b : bstr) : take (length (a ++ b) - length b) (a ++ b) = a.
Proof. rewrite length_app. replace (length a + length b - length b)%nat with (length a) by lia. apply take_app_length. Qed.

(** A path ends with ["/x"], [x] without a slash, only if [x] is its last component. *)
Lemma ends_with_component a c x :
  (slash ∉ c) -> (slash ∉ x) -> (length x < length (slashes (a ++ [c])))%nat ->
  bstr_eqb (drop (length (slashes (a ++ [c])) - S (length x)) (slashes (a ++ [c]))) (slash :: x) = bool_decide (c = x).
Proof.
  intros Hc Hx Hl. rewrite slashes_app in *. set (p := slashes a) in *.
  assert (slashes [c] = slash :: c) as E by (unfold slashes; cbn; by rewrite app_nil_r). rewrite E in *.
  case_bool_decide as Ecx.
  - subst x. apply bstr_eqb_eq. apply (drop_end p (slash :: c)).
  - apply bstr_eqb_neq. intros Heq. apply Ecx.
    assert (p ++ slash :: c = take (length (p ++ slash :: c) - S (length x)) (p ++ slash :: c) ++ slash :: x) as Hs
      by (rewrite <- Heq at 1; by rewrite take_drop).
    remember (take _ _) as q eqn:Hq. clear Hq Heq Hl. clearbody p.
    revert q Hs. induction p as [|y p IH]; intros [|z q] Hs; cbn in Hs.
    + by injection Hs.
    + injection Hs as _ Hs. exfalso. apply Hc. rewrite Hs. apply elem_of_app. right. left.
    + injection Hs as _ Hs. exfalso. apply Hx. rewrite <- Hs. apply elem_of_app. right. left.
    + injection Hs as _ Hs. by apply (IH q).
Qed.

(** A list of components as a path, the root if there are none. *)
Definition full_path (cs : list bstr) : bstr := match cs with [] => [slash] | _ => slashes cs end.

Lemma path_end_parts a c :
  parts_ok (a ++ [c]) -> (3 <= length (slashes (a ++ [c])))%nat ->
  path_end (slashes (a ++ [c])) =
  if bstr_eqb c (lit "..") then
    match rev a with [] => Throw Eundef | _ :: st => Ok (check_length (full_path (rev st)) true) end
  else if bstr_eqb c (lit ".") || bstr_eqb c [] then Ok (check_length (slashes a) true)
  else Ok (check_length (slashes (a ++ [c])) false).
Proof.
  intros [Ha Hc]%Forall_app Hl. apply Forall_cons in Hc as [Hc _]. unfold path_end. cbv zeta.
  rewrite (proj2 (Nat.ltb_ge _ _)) by lia.
  assert (forall x, (slash ∉ x) -> (length x < 3)%nat ->
            bstr_eqb (drop (length (slashes (a ++ [c])) - S (length x)) (slashes (a ++ [c]))) (slash :: x) = bstr_eqb c x) as H
    by (intros x Hx Hlx; apply ends_with_component; [exact Hc|exact Hx|lia]).
  assert (slash ∉ lit ".") as Hdot by by_evaluation.
  pose proof (H (lit "..") dots_no_slash ltac:(simpl; lia)) as H3. pose proof (H (lit ".") Hdot ltac:(simpl; lia)) as H2.
  pose proof (H [] (not_elem_of_nil _) ltac:(simpl; lia)) as H1. change (S (length (lit ".."))) with 3%nat in H3.
  change (S (length (lit "."))) with 2%nat in H2. change (S (length [])) with 1%nat in H1.
  change (lit "/..") with (slash :: lit ".."). change (lit "/.") with (slash :: lit "."). change (lit "/") with [slash].
  rewrite H3, H2, H1.
  assert (slashes (a ++ [c]) = slashes a ++ slash :: c) as Hs
    by (rewrite slashes_app; unfold slashes at 2; cbn; by rewrite app_nil_r).
  destruct (bstr_eqb c (lit "..")) eqn:E1.
  - apply bstr_eqb_eq in E1 as ->. rewrite Hs, length_app. cbn [length lit String.list_ascii_of_string].
    replace (length (slashes a) + 3 - 3)%nat with (length (slashes a)) by lia.
    destruct a as [|z p _] using rev_ind; [done|]. apply Forall_app in Ha as [_ Hz]. apply Forall_cons in Hz as [Hz _].
    rewrite rev_app_distr. cbn [rev app]. rewrite rev_involutive.
    assert (slashes (p ++ [z]) = slashes p ++ slash :: z) as Hp
      by (rewrite slashes_app; unfold slashes at 2; cbn; by rewrite app_nil_r).
    rewrite Hp, length_app, <- app_assoc. cbn [length app]. rewrite Nat.add_succ_r. unfold go_back.
    rewrite last_slash_part by done. cbn [mbind res_bind].
    destruct p as [|y p]; [done|]. cbn [full_path].
    destruct (length (slashes (y :: p))) eqn:El; [pose proof (slashes_length (y :: p)); simpl in *; lia|]. rewrite <- El. by rewrite take_app_length.
  - rewrite Hs. destruct (bstr_eqb c (lit ".")) eqn:E2; cbn [orb].
    + apply bstr_eqb_eq in E2 as ->. do 2 f_equal. apply (take_end (slashes a) (lit "/.")).
    + destruct (bstr_eqb c []) eqn:E3; [|done]. apply bstr_eqb_eq in E3 as ->.
      do 2 f_equal. apply (take_end (slashes a) (lit "/")).
Qed.

(** ** What a path means *)

(** The components that are left: empty ones and ["."] do not count, [".."] takes the one
    before; [None] is above the root. *)
Fixpoint resolve (st cs : list bstr) : option (list bstr) :=
  match cs with
  | [] => Some (rev st)
  | c :: cs' =>
      if bstr_eqb c (lit "..") then match st with [] => None | _ :: st' => resolve st' cs' end
      else if bstr_eqb c (lit ".") || bstr_eqb c [] then resolve st cs'
      else resolve (c :: st) cs'
  end.

Definition not_part (d : bstr) (c : bstr) : bool := negb (bstr_eqb c d).

Lemma strip_init d cs c : strip d (cs ++ [c]) = List.filter (not_part d) cs ++ [c].
Proof.
  induction cs as [|x cs IH]; [done|]. cbn [app List.filter]. rewrite strip_cons by (by destruct cs).
  rewrite IH. unfold not_part. by destruct (bstr_eqb x d).
Qed.

Lemma back_resolve cs c : forall st,
  back st (List.filter (not_part (lit ".")) (List.filter (not_part []) cs) ++ [c]) =
  option_map (fun a => a ++ [c]) (resolve st cs).
Proof.
  induction cs as [|x cs IH]; intros st; [done|]. cbn [List.filter resolve].
  unfold not_part at 2. destruct (bstr_eqb x []) eqn:E1; cbn [negb].
  { apply bstr_eqb_eq in E1 as ->. apply IH. }
  cbn [List.filter]. unfold not_part at 1. destruct (bstr_eqb x (lit ".")) eqn:E2; cbn [negb orb].
  { apply bstr_eqb_eq in E2 as ->. apply IH. }
  cbn [app]. rewrite back_cons by (by intros [_ ?]%app_eq_nil).
  destruct (bstr_eqb x (lit "..")); [|apply IH]. destruct st; [done|apply IH].
Qed.

Lemma resolve_app st a b :
  resolve st (a ++ b) = match resolve st a with Some r => resolve (rev r) b | None => None end.
Proof.
  revert st. induction a as [|c a IH]; intros st; cbn [app resolve]; [by rewrite rev_involutive|].
  destruct (bstr_eqb c (lit "..")); [destruct st; [done|apply IH]|]. destruct (_ || _); apply IH.
Qed.

Lemma parts_filter p cs : parts_ok cs -> parts_ok (List.filter p cs).
Proof. induction 1 as [|c cs Hc H IH]; [constructor|]. cbn [List.filter]. destruct (p c); [by constructor|done]. Qed.

Lemma resolve_parts cs : forall st r, parts_ok st -> parts_ok cs -> resolve st cs = Some r -> parts_ok r.
Proof.
  induction cs as [|c cs IH]; intros st r Hst Hcs; cbn [resolve].
  - intros [= <-]. by apply Forall_rev.
  - apply Forall_cons in Hcs as [Hc Hcs]. destruct (bstr_eqb c (lit "..")).
    + destruct st as [|x st]; [done|]. apply Forall_cons in Hst as [_ Hst]. by apply IH.
    + destruct (_ || _); apply IH; try done. by constructor.
Qed.

(** C40: A path is made canonical: empty components and "." are dropped and ".." takes the
    component before it, at the end of the path as well as inside, and the result is refused
    when it has 1023 bytes or more. A path that leaves the root, and one of fewer than three
    bytes before its end is looked at ("/", "/a"), is read outside of its buffer. *)
Theorem parse_canonical inPath env cs c :
  start_path inPath env = Ok (inl (slashes (cs ++ [c]))) -> (env = None -> take 1 inPath = [slash]) ->
  parts_ok (cs ++ [c]) ->
  match resolve [] cs, resolve [] (cs ++ [c]) with
  | Some a, Some r =>
      if (length (slashes (a ++ [c])) <? 3)%nat then parseRodsPath inPath env = Throw Eundef
      else exists coll, parseRodsPath inPath env =
             Ok (if (MAX_PATH_ALLOWED - 1 <=? length (full_path r))%nat then USER_PATH_EXCEEDS_MAX else 0%Z, full_path r, coll)
  | _, _ => parseRodsPath inPath env = Throw Eundef
  end.
Proof.
  intros Hs He Hp. unfold parseRodsPath.
  assert (match env with None => negb (bstr_eqb (take 1 inPath) [slash]) | Some _ => false end = false) as ->.
  { destruct env; [done|]. by rewrite He. }
  rewrite Hs. cbn [mbind res_bind].
  change (lit "//") with (between []). change (lit "/./") with (between (lit ".")).
  rewrite cut_loop_parts by (by_evaluation || done || apply slashes_length). cbn [mbind res_bind].
  assert (strip [] (cs ++ [c]) = List.filter (not_part []) cs ++ [c]) as E1 by apply strip_init.
  apply Forall_app in Hp as [Hcs Hc]. assert (parts_ok (strip [] (cs ++ [c]))) as Hp1
    by (rewrite E1; apply Forall_app; split; [by apply parts_filter|done]).
  rewrite cut_loop_parts by (by_evaluation || done || apply slashes_length). cbn [mbind res_bind].
  rewrite E1, strip_init in *. set (ds := List.filter _ (List.filter _ cs)).
  assert (parts_ok (ds ++ [c])) as Hds by (apply Forall_app; split; [by do 2 apply parts_filter|done]).
  pose proof (dotdot_loop_parts (length (slashes (ds ++ [c]))) [] (ds ++ [c])) as Hd. cbn [app rev] in Hd.
  rewrite Hd by (done || apply not_elem_of_nil || apply slashes_length). unfold ds. rewrite back_resolve.
  rewrite resolve_app. destruct (resolve [] cs) as [a|] eqn:Ea; cbn [option_map]; [|done].
  assert (parts_ok (a ++ [c])) as Hac
    by (apply Forall_app; split; [by apply (resolve_parts cs [] a); [constructor|..]|done]).
  cbn [mbind res_bind resolve]. destruct (Nat.ltb_spec (length (slashes (a ++ [c]))) 3) as [Hl|Hl].
  { unfold path_end. rewrite (proj2 (Nat.ltb_lt _ _)) by done.
    destruct (bstr_eqb c (lit "..")); [destruct (rev a); done|]. by destruct (_ || _). }
  rewrite path_end_parts by done. unfold check_length.
  destruct (bstr_eqb c (lit "..")).
  - destruct (rev a) as [|x st]; [done|]. destruct (_ <=? _)%nat; by eexists.
  - destruct (bstr_eqb c (lit ".") || bstr_eqb c []) eqn:E.
    + rewrite rev_involutive. destruct a as [|x a].
      { exfalso. apply orb_true_iff in E as [->%bstr_eqb_eq| ->%bstr_eqb_eq]; simpl in Hl; lia. }
      cbn [full_path]. destruct (_ <=? _)%nat; by eexists.
    + cbn [rev]. rewrite rev_involutive. destruct (a ++ [c]) as [|x y] eqn:Eac; [by destruct a|].
      cbn [full_path]. destruct (_ <=? _)%nat; by eexists.
Qed.

Lemma parse_canonical_witness :
  parseRodsPath (lit "../a//b/./c/..") (Some (PathEnv (lit "/z/home/u") (lit "/z/home/u/cwd"))) =
  Ok (0%Z, lit "/z/home/u/a/b", true).
Proof.
  set (env := Some (PathEnv (lit "/z/home/u") (lit "/z/home/u/cwd"))).
  destruct (parse_canonical (lit "../a//b/./c/..") env
              (map lit ["z"; "home"; "u"; "cwd"; ".."; "a"; ""; "b"; "."; "c"]%string) (lit "..")) as [coll H].
  - vm_compute. reflexivity.
  - done.
  - by_evaluation.
  - etransitivity; [exact H|]. revert H. destruct coll; vm_compute; [reflexivity|discriminate].
Defined.

(** ** Examples *)

Definition u_env : option path_env := Some (PathEnv (lit "/z/home/u") (lit "/z/home/u/cwd")).

(** The bytes before the path are read when fewer than three of it are left. *)
Example root_read_outside :
  parseRodsPath (lit "/") u_env = Throw Eundef /\ parseRodsPath (lit "/a") u_env = Throw Eundef /\
  parseRodsPath (lit "/..") u_env = Throw Eundef /\ parseRodsPath (lit "/../a") u_env = Throw Eundef.
Proof. vm_compute. repeat split; reflexivity. Qed.

(** Only the first of several sources is escaped. *)
Example first_source_escaped :
  parse_command_line_path u_env false false [form_feed :: lit "a"; form_feed :: lit "b"] =
  Ok (0%Z, [lit "/z/home/u/cwd/\fa"; lit "/z/home/u/cwd/" ++ form_feed :: lit "b"], None).
Proof. vm_compute. reflexivity. Qed.

(** A destination alone is a source, and the destination is the current collection. *)
Example one_argument :
  parse_command_line_path u_env false true [lit "a/"] =
  Ok (0%Z, [lit "/z/home/u/cwd/a"], Some (lit "/z/home/u/cwd")).
Proof. vm_compute. reflexivity. Qed.

Example empty_argument : parse_command_line_path u_env false false [[]] = Throw Eundef.
Proof. vm_compute. reflexivity. Qed.
