(* ===== verification/Schema.v ===== *)
(** * The schema of the catalog

    [plugins/database/src/general_query_setup.cpp] and what fills the tables of
    [general_query.cpp]: the tables of the catalog, the columns a query may name and the
    links that join two tables. A link holds the indices of its tables. *)

From stdpp Require Import base list strings.
From Stdlib Require Import ZArith Lia Ascii.
From S2P Require Import Prelude Errors Quota.
Local Open Scope Z_scope.

Definition MAX_LINKS_TABLES_OR_COLUMNS : nat := 500.
Definition MAX_TSQL : nat := 110.

Record tTable : Type := Table { tableName : bstr; tableAlias : bstr; cycler : Z }.
Record tColumn : Type := Column { defineValue : Z; columnTable : bstr; columnName : bstr }.
Record tLink : Type := Link { table1 : nat; table2 : nat; connectingSQL : bstr }.

Record schema : Type := Schema { Tables : list tTable; Columns : list tColumn; Links : list tLink }.

Definition sTableInit : schema := Schema [] [] [].

(** The code returned and the tables. *)
Definition sTable (sc : schema) (name alias : bstr) (cyc : Z) : Z * schema :=
  if (MAX_LINKS_TABLES_OR_COLUMNS <=? length (Tables sc))%nat then (CAT_TOO_MANY_TABLES, sc)
  else (0, Schema (Tables sc ++ [Table (rstrcpy name NAME_LEN) (rstrcpy alias MAX_TSQL) cyc]) (Columns sc) (Links sc)).

Definition sColumn (sc : schema) (defineVal : Z) (table column : bstr) : Z * schema :=
  if (MAX_LINKS_TABLES_OR_COLUMNS <=? length (Columns sc))%nat then (CAT_TOO_MANY_TABLES, sc)
  else (0, Schema (Tables sc) (Columns sc ++ [Column defineVal (rstrcpy table NAME_LEN) (rstrcpy column NAME_LEN)]) (Links sc)).

(** The index of a table; an unknown name is logged and gives the first table. *)
Definition fkFindName (sc : schema) (name : bstr) : nat :=
  default O (find_idx (fun t => bstr_eqb (tableName t) name) (Tables sc)).

Definition sFklink (sc : schema) (t1 t2 sql : bstr) : Z * schema :=
  if (MAX_LINKS_TABLES_OR_COLUMNS <=? length (Links sc))%nat then (CAT_TOO_MANY_TABLES, sc)
  else (0, Schema (Tables sc) (Columns sc) (Links sc ++ [Link (fkFindName sc t1) (fkFindName sc t2) (rstrcpy sql MAX_TSQL)])).

(** Name, alias and whether the table is a cycler. *)
Definition icat_tables : list (string * string * Z) := [
  ("R_USER_PASSWORD", "R_USER_PASSWORD", 0);
  ("R_USER_SESSION_KEY", "R_USER_SESSION_KEY", 0);
  ("R_TOKN_MAIN", "R_TOKN_MAIN", 0);
  ("R_RESC_GROUP", "R_RESC_GROUP", 0);
  ("R_ZONE_MAIN", "R_ZONE_MAIN", 0);
  ("R_RESC_MAIN", "R_RESC_MAIN", 0);
  ("R_COLL_MAIN", "R_COLL_MAIN", 0);
  ("R_DATA_MAIN", "R_DATA_MAIN", 0);
  ("r_met2_main", "R_META_MAIN r_met2_main", 0);
  ("R_META_MAIN", "R_META_MAIN", 0);
  ("R_RULE_MAIN", "R_RULE_MAIN", 0);
  ("R_USER_MAIN", "R_USER_MAIN", 0);
  ("r_resc_access", "R_OBJT_ACCESS r_resc_access", 0);
  ("r_coll_access", "R_OBJT_ACCESS r_coll_access", 0);
  ("r_data_access", "R_OBJT_ACCESS r_data_access", 0);
  ("r_met2_access", "R_OBJT_ACCESS r_met2_access", 0);
  ("r_rule_access", "R_OBJT_ACCESS r_rule_access", 0);
  ("r_msrvc_access", "R_OBJT_ACCESS r_msrvc_access", 0);
  ("r_resc_audit", "R_OBJT_AUDIT r_resc_audit", 0);
  ("r_coll_audit", "R_OBJT_AUDIT r_coll_audit", 0);
  ("r_data_audit", "R_OBJT_AUDIT r_data_audit", 0);
  ("r_met2_audit", "R_OBJT_AUDIT r_met2_audit", 0);
  ("r_rule_audit", "R_OBJT_AUDIT r_rule_audit", 0);
  ("r_resc_deny_access", "R_OBJT_DENY_ACCESS r_resc_deny_access", 0);
  ("r_coll_deny_access", "R_OBJT_DENY_ACCESS r_coll_deny_access", 0);
  ("r_data_deny_access", "R_OBJT_DENY_ACCESS r_data_deny_access", 0);
  ("r_met2_deny_access", "R_OBJT_DENY_ACCESS r_met2_deny_access", 0);
  ("r_rule_deny_access", "R_OBJT_DENY_ACCESS r_rule_deny_access", 0);
  ("r_resc_metamap", "R_OBJT_METAMAP r_resc_metamap", 0);
  ("r_resc_grp_metamap", "R_OBJT_METAMAP r_resc_grp_metamap", 0);
  ("r_coll_metamap", "R_OBJT_METAMAP r_coll_metamap", 0);
  ("r_data_metamap", "R_OBJT_METAMAP r_data_metamap", 0);
  ("r_met2_metamap", "R_OBJT_METAMAP r_met2_metamap", 0);
  ("r_rule_metamap", "R_OBJT_METAMAP r_rule_metamap", 0);
  ("r_msrvc_metamap", "R_OBJT_METAMAP r_msrvc_metamap", 0);
  ("r_user_metamap", "R_OBJT_METAMAP r_user_metamap", 0);
  ("r_resc_user_group", "R_USER_GROUP r_resc_user_group", 0);
  ("r_coll_user_group", "R_USER_GROUP r_coll_user_group", 0);
  ("r_data_user_group", "R_USER_GROUP r_data_user_group", 0);
  ("r_met2_user_group", "R_USER_GROUP r_met2_user_group", 0);
  ("r_rule_user_group", "R_USER_GROUP r_rule_user_group", 0);
  ("r_resc_da_user_group", "R_USER_GROUP r_resc_da_user_group", 0);
  ("r_coll_da_user_group", "R_USER_GROUP r_coll_da_user_group", 0);
  ("r_data_da_user_group", "R_USER_GROUP r_data_da_user_group", 0);
  ("r_met2_da_user_group", "R_USER_GROUP r_met2_da_user_group", 0);
  ("r_rule_da_user_group", "R_USER_GROUP r_rule_da_user_group", 0);
  ("r_resc_au_user_group", "R_USER_GROUP r_resc_au_user_group", 0);
  ("r_coll_au_user_group", "R_USER_GROUP r_coll_au_user_group", 0);
  ("r_data_au_user_group", "R_USER_GROUP r_data_au_user_group", 0);
  ("r_met2_au_user_group", "R_USER_GROUP r_met2_au_user_group", 0);
  ("r_rule_au_user_group", "R_USER_GROUP r_rule_au_user_group", 0);
  ("r_resc_user_main", "R_USER_MAIN r_resc_user_main", 0);
  ("r_coll_user_main", "R_USER_MAIN r_coll_user_main", 0);
  ("r_data_user_main", "R_USER_MAIN r_data_user_main", 0);
  ("r_met2_user_main", "R_USER_MAIN r_met2_user_main", 0);
  ("r_rule_user_main", "R_USER_MAIN r_rule_user_main", 0);
  ("r_resc_da_user_main", "R_USER_MAIN r_resc_da_user_main", 0);
  ("r_coll_da_user_main", "R_USER_MAIN r_coll_da_user_main", 0);
  ("r_data_da_user_main", "R_USER_MAIN r_data_da_user_main", 0);
  ("r_met2_da_user_main", "R_USER_MAIN r_met2_da_user_main", 0);
  ("r_rule_da_user_main", "R_USER_MAIN r_rule_da_user_main", 0);
  ("r_resc_au_user_main", "R_USER_MAIN r_resc_au_user_main", 0);
  ("r_coll_au_user_main", "R_USER_MAIN r_coll_au_user_main", 0);
  ("r_data_au_user_main", "R_USER_MAIN r_data_au_user_main", 0);
  ("r_met2_au_user_main", "R_USER_MAIN r_met2_au_user_main", 0);
  ("r_rule_au_user_main", "R_USER_MAIN r_rule_au_user_main", 0);
  ("r_quota_user_main", "R_USER_MAIN r_quota_user_main", 1);
  ("r_quota_user_group", "R_USER_MAIN r_quota_user_group", 1);
  ("r_quota_resc_main", "R_RESC_MAIN r_quota_resc_main", 1);
  ("r_resc_tokn_accs", "R_TOKN_MAIN r_resc_tokn_accs", 0);
  ("r_coll_tokn_accs", "R_TOKN_MAIN r_coll_tokn_accs", 0);
  ("r_data_tokn_accs", "R_TOKN_MAIN r_data_tokn_accs", 0);
  ("r_rule_tokn_accs", "R_TOKN_MAIN r_rule_tokn_accs", 0);
  ("r_met2_tokn_accs", "R_TOKN_MAIN r_met2_tokn_accs", 0);
  ("r_resc_tokn_deny_accs", "R_TOKN_MAIN r_resc_tokn_deny_accs", 0);
  ("r_coll_tokn_deny_accs", "R_TOKN_MAIN r_coll_tokn_deny_accs", 0);
  ("r_data_tokn_deny_accs", "R_TOKN_MAIN r_data_tokn_deny_accs", 0);
  ("r_rule_tokn_deny_accs", "R_TOKN_MAIN r_rule_tokn_deny_accs", 0);
  ("r_met2_tokn_deny_accs", "R_TOKN_MAIN r_met2_tokn_deny_accs", 0);
  ("r_resc_tokn_audit", "R_TOKN_MAIN r_resc_tokn_audit", 0);
  ("r_coll_tokn_audit", "R_TOKN_MAIN r_coll_tokn_audit", 0);
  ("r_data_tokn_audit", "R_TOKN_MAIN r_data_tokn_audit", 0);
  ("r_rule_tokn_audit", "R_TOKN_MAIN r_rule_tokn_audit", 0);
  ("r_met2_tokn_audit", "R_TOKN_MAIN r_met2_tokn_audit", 0);
  ("r_resc_meta_main", "R_META_MAIN r_resc_meta_main", 0);
  ("r_resc_grp_meta_main", "R_META_MAIN r_resc_grp_meta_main", 0);
  ("r_coll_meta_main", "R_META_MAIN r_coll_meta_main", 0);
  ("r_data_meta_main", "R_META_MAIN r_data_meta_main", 0);
  ("r_rule_meta_main", "R_META_MAIN r_rule_meta_main", 0);
  ("r_user_meta_main", "R_META_MAIN r_user_meta_main", 0);
  ("r_met2_meta_main", "R_META_MAIN r_met2_meta_main", 0);
  ("R_USER_GROUP", "R_USER_GROUP", 0);
  ("r_group_main", "R_USER_MAIN r_group_main", 0);
  ("R_RULE_EXEC", "R_RULE_EXEC", 0);
  ("R_OBJT_AUDIT", "R_OBJT_AUDIT", 0);
  ("R_SERVER_LOAD", "R_SERVER_LOAD", 0);
  ("R_SERVER_LOAD_DIGEST", "R_SERVER_LOAD_DIGEST", 0);
  ("R_USER_AUTH", "R_USER_AUTH", 0);
  ("R_RULE_BASE_MAP", "R_RULE_BASE_MAP", 0);
  ("R_RULE_DVM_MAP", "R_RULE_DVM_MAP", 0);
  ("R_RULE_FNM_MAP", "R_RULE_FNM_MAP", 0);
  ("R_RULE_DVM", "R_RULE_DVM", 0);
  ("R_RULE_FNM", "R_RULE_FNM", 0);
  ("R_QUOTA_MAIN", "R_QUOTA_MAIN", 0);
  ("R_QUOTA_USAGE", "R_QUOTA_USAGE", 0);
  ("R_MICROSRVC_MAIN", "R_MICROSRVC_MAIN", 0);
  ("R_MICROSRVC_VER", "R_MICROSRVC_VER", 0);
  ("r_msrvc_deny_access", "R_OBJT_DENY_ACCESS r_msrvc_deny_access", 0);
  ("r_msrvc_audit", "R_OBJT_AUDIT r_msrvc_audit", 0);
  ("r_msrvc_meta_main", "R_META_MAIN r_msrvc_meta_main", 0);
  ("r_msrvc_tokn_accs", "R_TOKN_MAIN r_msrvc_tokn_accs", 0);
  ("r_msrvc_user_group", "R_USER_GROUP r_msrvc_user_group", 0);
  ("r_msrvc_user_main", "R_USER_MAIN r_msrvc_user_main", 0);
  ("r_msrvc_tokn_deny_accs", "R_TOKN_MAIN r_msrvc_tokn_deny_accs", 0);
  ("r_msrvc_da_user_group", "R_USER_GROUP r_msrvc_da_user_group", 0);
  ("r_msrvc_da_user_main", "R_USER_MAIN r_msrvc_da_user_main", 0);
  ("r_msrvc_tokn_audit", "R_TOKN_MAIN r_msrvc_tokn_audit", 0);
  ("r_msrvc_au_user_group", "R_USER_GROUP r_msrvc_au_user_group", 0);
  ("r_msrvc_au_user_main", "R_USER_MAIN r_msrvc_au_user_main", 0);
  ("R_TICKET_MAIN", "R_TICKET_MAIN", 0);
  ("R_TICKET_ALLOWED_HOSTS", "R_TICKET_ALLOWED_HOSTS", 0);
  ("R_TICKET_ALLOWED_USERS", "R_TICKET_ALLOWED_USERS", 0);
  ("R_TICKET_ALLOWED_GROUPS", "R_TICKET_ALLOWED_GROUPS", 0);
  ("r_ticket_coll_main", "R_COLL_MAIN r_ticket_coll_main", 1);
  ("r_ticket_user_main", "R_USER_MAIN r_ticket_user_main", 1);
  ("r_ticket_data_coll_main", "R_COLL_MAIN r_ticket_data_coll_main", 1)
].

(** The number of a column, its table and its name, part 1. *)
Definition icat_columns_1 : list (Z * string * string) := [
  (101, "R_ZONE_MAIN", "zone_id"); (* COL_ZONE_ID *)
  (102, "R_ZONE_MAIN", "zone_name"); (* COL_ZONE_NAME *)
  (103, "R_ZONE_MAIN", "zone_type_name"); (* COL_ZONE_TYPE *)
  (104, "R_ZONE_MAIN", "zone_conn_string"); (* COL_ZONE_CONNECTION *)
  (105, "R_ZONE_MAIN", "r_comment"); (* COL_ZONE_COMMENT *)
  (106, "R_ZONE_MAIN", "create_ts"); (* COL_ZONE_CREATE_TIME *)
  (107, "R_ZONE_MAIN", "modify_ts"); (* COL_ZONE_MODIFY_TIME *)
  (201, "R_USER_MAIN", "user_id"); (* COL_USER_ID *)
  (202, "R_USER_MAIN", "user_name"); (* COL_USER_NAME *)
  (203, "R_USER_MAIN", "user_type_name"); (* COL_USER_TYPE *)
  (204, "R_USER_MAIN", "zone_name"); (* COL_USER_ZONE *)
  (206, "R_USER_MAIN", "user_info"); (* COL_USER_INFO *)
  (207, "R_USER_MAIN", "r_comment"); (* COL_USER_COMMENT *)
  (208, "R_USER_MAIN", "create_ts"); (* COL_USER_CREATE_TIME *)
  (209, "R_USER_MAIN", "modify_ts"); (* COL_USER_MODIFY_TIME *)
  (1600, "R_USER_AUTH", "user_id"); (* COL_USER_AUTH_ID *)
  (1601, "R_USER_AUTH", "user_auth_name"); (* COL_USER_DN *)
  (205, "R_USER_MAIN", "r_comment"); (* COL_USER_DN_INVALID *)
  (301, "R_RESC_MAIN", "resc_id"); (* COL_R_RESC_ID *)
  (302, "R_RESC_MAIN", "resc_name"); (* COL_R_RESC_NAME *)
  (303, "R_RESC_MAIN", "zone_name"); (* COL_R_ZONE_NAME *)
  (304, "R_RESC_MAIN", "resc_type_name"); (* COL_R_TYPE_NAME *)
  (305, "R_RESC_MAIN", "resc_class_name"); (* COL_R_CLASS_NAME *)
  (306, "R_RESC_MAIN", "resc_net"); (* COL_R_LOC *)
  (307, "R_RESC_MAIN", "resc_def_path "); (* COL_R_VAULT_PATH *)
  (308, "R_RESC_MAIN", "free_space"); (* COL_R_FREE_SPACE *)
  (314, "R_RESC_MAIN", "free_space_ts"); (* COL_R_FREE_SPACE_TIME *)
  (309, "R_RESC_MAIN", "resc_info"); (* COL_R_RESC_INFO *)
  (310, "R_RESC_MAIN", "r_comment"); (* COL_R_RESC_COMMENT *)
  (313, "R_RESC_MAIN", "resc_status"); (* COL_R_RESC_STATUS *)
  (311, "R_RESC_MAIN", "create_ts"); (* COL_R_CREATE_TIME *)
  (312, "R_RESC_MAIN", "modify_ts "); (* COL_R_MODIFY_TIME *)
  (319, "R_RESC_MAIN", "modify_ts_millis"); (* COL_R_MODIFY_TIME_MILLIS *)
  (315, "R_RESC_MAIN", "resc_children "); (* COL_R_RESC_CHILDREN *)
  (316, "R_RESC_MAIN", "resc_context "); (* COL_R_RESC_CONTEXT *)
  (317, "R_RESC_MAIN", "resc_parent "); (* COL_R_RESC_PARENT *)
  (318, "R_RESC_MAIN", "resc_parent_context"); (* COL_R_RESC_PARENT_CONTEXT *)
  (401, "R_DATA_MAIN", "data_id"); (* COL_D_DATA_ID *)
  (402, "R_DATA_MAIN", "coll_id"); (* COL_D_COLL_ID *)
  (403, "R_DATA_MAIN", "data_name"); (* COL_DATA_NAME *)
  (404, "R_DATA_MAIN", "data_repl_num"); (* COL_DATA_REPL_NUM *)
  (405, "R_DATA_MAIN", "data_version"); (* COL_DATA_VERSION *)
  (406, "R_DATA_MAIN", "data_type_name"); (* COL_DATA_TYPE_NAME *)
  (407, "R_DATA_MAIN", "data_size"); (* COL_DATA_SIZE *)
  (409, "R_RESC_MAIN", "resc_name"); (* COL_D_RESC_NAME *)
  (410, "R_DATA_MAIN", "data_path"); (* COL_D_DATA_PATH *)
  (411, "R_DATA_MAIN", "data_owner_name"); (* COL_D_OWNER_NAME *)
  (412, "R_DATA_MAIN", "data_owner_zone"); (* COL_D_OWNER_ZONE *)
  (413, "R_DATA_MAIN", "data_is_dirty"); (* COL_D_REPL_STATUS *)
  (414, "R_DATA_MAIN", "data_status"); (* COL_D_DATA_STATUS *)
  (415, "R_DATA_MAIN", "data_checksum"); (* COL_D_DATA_CHECKSUM *)
  (416, "R_DATA_MAIN", "data_expiry_ts"); (* COL_D_EXPIRY *)
  (417, "R_DATA_MAIN", "data_map_id"); (* COL_D_MAP_ID *)
  (418, "R_DATA_MAIN", "r_comment"); (* COL_D_COMMENTS *)
  (419, "R_DATA_MAIN", "create_ts"); (* COL_D_CREATE_TIME *)
  (420, "R_DATA_MAIN", "modify_ts"); (* COL_D_MODIFY_TIME *)
  (421, "R_DATA_MAIN", "data_mode"); (* COL_DATA_MODE *)
  (424, "R_DATA_MAIN", "access_ts"); (* COL_D_ACCESS_TIME *)
  (423, "R_DATA_MAIN", "resc_id"); (* COL_D_RESC_ID *)
  (700, "r_data_access", "access_type_id"); (* COL_DATA_ACCESS_TYPE *)
  (701, "r_data_tokn_accs", "token_name"); (* COL_DATA_ACCESS_NAME *)
  (702, "r_data_tokn_accs", "token_namespace"); (* COL_DATA_TOKEN_NAMESPACE *)
  (703, "r_data_access", "user_id"); (* COL_DATA_ACCESS_USER_ID *)
  (704, "r_data_access", "object_id"); (* COL_DATA_ACCESS_DATA_ID *)
  (710, "r_coll_access", "access_type_id"); (* COL_COLL_ACCESS_TYPE *)
  (711, "r_coll_tokn_accs", "token_name"); (* COL_COLL_ACCESS_NAME *)
  (712, "r_coll_tokn_accs", "token_namespace"); (* COL_COLL_TOKEN_NAMESPACE *)
  (713, "r_coll_access", "user_id"); (* COL_COLL_ACCESS_USER_ID *)
  (714, "r_coll_access", "object_id"); (* COL_COLL_ACCESS_COLL_ID *)
  (720, "r_resc_access", "access_type_id"); (* COL_RESC_ACCESS_TYPE *)
  (721, "r_resc_tokn_accs", "token_name"); (* COL_RESC_ACCESS_NAME *)
  (722, "r_resc_tokn_accs", "token_namespace"); (* COL_RESC_TOKEN_NAMESPACE *)
  (723, "r_resc_access", "user_id"); (* COL_RESC_ACCESS_USER_ID *)
  (724, "r_resc_access", "object_id"); (* COL_RESC_ACCESS_RESC_ID *)
  (500, "R_COLL_MAIN", "coll_id"); (* COL_COLL_ID *)
  (501, "R_COLL_MAIN", "coll_name"); (* COL_COLL_NAME *)
  (502, "R_COLL_MAIN", "parent_coll_name"); (* COL_COLL_PARENT_NAME *)
  (503, "R_COLL_MAIN", "coll_owner_name"); (* COL_COLL_OWNER_NAME *)
  (504, "R_COLL_MAIN", "coll_owner_zone"); (* COL_COLL_OWNER_ZONE *)
  (505, "R_COLL_MAIN", "coll_map_id"); (* COL_COLL_MAP_ID *)
  (506, "R_COLL_MAIN", "coll_inheritance"); (* COL_COLL_INHERITANCE *)
  (507, "R_COLL_MAIN", "r_comment"); (* COL_COLL_COMMENTS *)
  (508, "R_COLL_MAIN", "create_ts"); (* COL_COLL_CREATE_TIME *)
  (509, "R_COLL_MAIN", "modify_ts"); (* COL_COLL_MODIFY_TIME *)
  (510, "R_COLL_MAIN", "coll_type"); (* COL_COLL_TYPE *)
  (511, "R_COLL_MAIN", "coll_info1"); (* COL_COLL_INFO1 *)
  (512, "R_COLL_MAIN", "coll_info2"); (* COL_COLL_INFO2 *)
  (600, "r_data_meta_main", "meta_attr_name"); (* COL_META_DATA_ATTR_NAME *)
  (601, "r_data_meta_main", "meta_attr_value"); (* COL_META_DATA_ATTR_VALUE *)
  (602, "r_data_meta_main", "meta_attr_unit"); (* COL_META_DATA_ATTR_UNITS *)
  (603, "r_data_meta_main", "meta_id"); (* COL_META_DATA_ATTR_ID *)
  (604, "r_data_meta_main", "create_ts"); (* COL_META_DATA_CREATE_TIME *)
  (605, "r_data_meta_main", "modify_ts"); (* COL_META_DATA_MODIFY_TIME *)
  (610, "r_coll_meta_main", "meta_attr_name"); (* COL_META_COLL_ATTR_NAME *)
  (611, "r_coll_meta_main", "meta_attr_value"); (* COL_META_COLL_ATTR_VALUE *)
  (612, "r_coll_meta_main", "meta_attr_unit"); (* COL_META_COLL_ATTR_UNITS *)
  (613, "r_coll_meta_main", "meta_id"); (* COL_META_COLL_ATTR_ID *)
  (614, "r_coll_meta_main", "create_ts"); (* COL_META_COLL_CREATE_TIME *)
  (615, "r_coll_meta_main", "modify_ts"); (* COL_META_COLL_MODIFY_TIME *)
  (620, "r_coll_meta_main", "meta_namespace"); (* COL_META_NAMESPACE_COLL *)
  (621, "r_data_meta_main", "meta_namespace"); (* COL_META_NAMESPACE_DATA *)
  (622, "r_resc_meta_main", "meta_namespace"); (* COL_META_NAMESPACE_RESC *)
  (624, "r_resc_grp_meta_main", "meta_namespace"); (* COL_META_NAMESPACE_RESC_GROUP *)
  (623, "r_user_meta_main", "meta_namespace"); (* COL_META_NAMESPACE_USER *)
  (625, "r_rule_meta_main", "meta_namespace"); (* COL_META_NAMESPACE_RULE *)
  (626, "r_msrvc_meta_main", "meta_namespace"); (* COL_META_NAMESPACE_MSRVC *)
  (627, "r_met2_meta_main", "meta_namespace"); (* COL_META_NAMESPACE_MET2 *)
  (630, "r_resc_meta_main", "meta_attr_name"); (* COL_META_RESC_ATTR_NAME *)
  (631, "r_resc_meta_main", "meta_attr_value"); (* COL_META_RESC_ATTR_VALUE *)
  (632, "r_resc_meta_main", "meta_attr_unit"); (* COL_META_RESC_ATTR_UNITS *)
  (633, "r_resc_meta_main", "meta_id"); (* COL_META_RESC_ATTR_ID *)
  (634, "r_resc_meta_main", "create_ts"); (* COL_META_RESC_CREATE_TIME *)
  (635, "r_resc_meta_main", "modify_ts"); (* COL_META_RESC_MODIFY_TIME *)
  (650, "r_resc_grp_meta_main", "meta_attr_name"); (* COL_META_RESC_GROUP_ATTR_NAME *)
  (651, "r_resc_grp_meta_main", "meta_attr_value"); (* COL_META_RESC_GROUP_ATTR_VALUE *)
  (652, "r_resc_grp_meta_main", "meta_attr_unit"); (* COL_META_RESC_GROUP_ATTR_UNITS *)
  (653, "r_resc_grp_meta_main", "meta_id"); (* COL_META_RESC_GROUP_ATTR_ID *)
  (654, "r_resc_grp_meta_main", "create_ts"); (* COL_META_RESC_GROUP_CREATE_TIME *)
  (655, "r_resc_grp_meta_main", "modify_ts"); (* COL_META_RESC_GROUP_MODIFY_TIME *)
  (640, "r_user_meta_main", "meta_attr_name"); (* COL_META_USER_ATTR_NAME *)
  (641, "r_user_meta_main", "meta_attr_value"); (* COL_META_USER_ATTR_VALUE *)
  (642, "r_user_meta_main", "meta_attr_unit") (* COL_META_USER_ATTR_UNITS *)
].

(** The number of a column, its table and its name, part 2. *)
Definition icat_columns_2 : list (Z * string * string) := [
  (643, "r_user_meta_main", "meta_id"); (* COL_META_USER_ATTR_ID *)
  (644, "r_user_meta_main", "create_ts"); (* COL_META_USER_CREATE_TIME *)
  (645, "r_user_meta_main", "modify_ts"); (* COL_META_USER_MODIFY_TIME *)
  (660, "r_rule_meta_main", "meta_attr_name"); (* COL_META_RULE_ATTR_NAME *)
  (661, "r_rule_meta_main", "meta_attr_value"); (* COL_META_RULE_ATTR_VALUE *)
  (662, "r_rule_meta_main", "meta_attr_unit"); (* COL_META_RULE_ATTR_UNITS *)
  (663, "r_rule_meta_main", "meta_id"); (* COL_META_RULE_ATTR_ID *)
  (664, "r_rule_meta_main", "create_ts"); (* COL_META_RULE_CREATE_TIME *)
  (665, "r_rule_meta_main", "modify_ts"); (* COL_META_RULE_MODIFY_TIME *)
  (670, "r_msrvc_meta_main", "meta_attr_name"); (* COL_META_MSRVC_ATTR_NAME *)
  (671, "r_msrvc_meta_main", "meta_attr_value"); (* COL_META_MSRVC_ATTR_VALUE *)
  (672, "r_msrvc_meta_main", "meta_attr_unit"); (* COL_META_MSRVC_ATTR_UNITS *)
  (673, "r_msrvc_meta_main", "meta_id"); (* COL_META_MSRVC_ATTR_ID *)
  (674, "r_msrvc_meta_main", "create_ts"); (* COL_META_MSRVC_CREATE_TIME *)
  (675, "r_msrvc_meta_main", "modify_ts"); (* COL_META_MSRVC_MODIFY_TIME *)
  (680, "r_met2_meta_main", "meta_attr_name"); (* COL_META_MET2_ATTR_NAME *)
  (681, "r_met2_meta_main", "meta_attr_value"); (* COL_META_MET2_ATTR_VALUE *)
  (682, "r_met2_meta_main", "meta_attr_unit"); (* COL_META_MET2_ATTR_UNITS *)
  (683, "r_met2_meta_main", "meta_id"); (* COL_META_MET2_ATTR_ID *)
  (684, "r_met2_meta_main", "create_ts"); (* COL_META_MET2_CREATE_TIME *)
  (685, "r_met2_meta_main", "modify_ts"); (* COL_META_MET2_MODIFY_TIME *)
  (900, "R_USER_GROUP", "group_user_id"); (* COL_USER_GROUP_ID *)
  (901, "r_group_main", "user_name"); (* COL_USER_GROUP_NAME *)
  (1000, "R_RULE_EXEC", "rule_exec_id"); (* COL_RULE_EXEC_ID *)
  (1001, "R_RULE_EXEC", "rule_name"); (* COL_RULE_EXEC_NAME *)
  (1002, "R_RULE_EXEC", "rei_file_path"); (* COL_RULE_EXEC_REI_FILE_PATH *)
  (1003, "R_RULE_EXEC", "user_name"); (* COL_RULE_EXEC_USER_NAME *)
  (1004, "R_RULE_EXEC", "exe_address"); (* COL_RULE_EXEC_ADDRESS *)
  (1005, "R_RULE_EXEC", "exe_time"); (* COL_RULE_EXEC_TIME *)
  (1006, "R_RULE_EXEC", "exe_frequency"); (* COL_RULE_EXEC_FREQUENCY *)
  (1007, "R_RULE_EXEC", "priority"); (* COL_RULE_EXEC_PRIORITY *)
  (1008, "R_RULE_EXEC", "estimated_exe_time"); (* COL_RULE_EXEC_ESTIMATED_EXE_TIME *)
  (1009, "R_RULE_EXEC", "notification_addr"); (* COL_RULE_EXEC_NOTIFICATION_ADDR *)
  (1010, "R_RULE_EXEC", "last_exe_time"); (* COL_RULE_EXEC_LAST_EXE_TIME *)
  (1011, "R_RULE_EXEC", "exe_status"); (* COL_RULE_EXEC_STATUS *)
  (1012, "R_RULE_EXEC", "exe_context"); (* COL_RULE_EXEC_CONTEXT *)
  (1013, "R_RULE_EXEC", "lock_host"); (* COL_RULE_EXEC_LOCK_HOST *)
  (1014, "R_RULE_EXEC", "lock_host_pid"); (* COL_RULE_EXEC_LOCK_HOST_PID *)
  (1015, "R_RULE_EXEC", "lock_ts"); (* COL_RULE_EXEC_LOCK_TIME *)
  (1100, "R_TOKN_MAIN", "token_namespace"); (* COL_TOKEN_NAMESPACE *)
  (1101, "R_TOKN_MAIN", "token_id"); (* COL_TOKEN_ID *)
  (1102, "R_TOKN_MAIN", "token_name"); (* COL_TOKEN_NAME *)
  (1103, "R_TOKN_MAIN", "token_value"); (* COL_TOKEN_VALUE *)
  (1104, "R_TOKN_MAIN", "token_value2"); (* COL_TOKEN_VALUE2 *)
  (1105, "R_TOKN_MAIN", "token_value3"); (* COL_TOKEN_VALUE3 *)
  (1106, "R_TOKN_MAIN", "r_comment"); (* COL_TOKEN_COMMENT *)
  (1107, "R_TOKN_MAIN", "create_ts"); (* COL_TOKEN_CREATE_TIME *)
  (1108, "R_TOKN_MAIN", "modify_ts"); (* COL_TOKEN_MODIFY_TIME *)
  (1200, "R_OBJT_AUDIT", "object_id"); (* COL_AUDIT_OBJ_ID *)
  (1201, "R_OBJT_AUDIT", "user_id"); (* COL_AUDIT_USER_ID *)
  (1202, "R_OBJT_AUDIT", "action_id"); (* COL_AUDIT_ACTION_ID *)
  (1203, "R_OBJT_AUDIT", "r_comment"); (* COL_AUDIT_COMMENT *)
  (1204, "R_OBJT_AUDIT", "create_ts"); (* COL_AUDIT_CREATE_TIME *)
  (1205, "R_OBJT_AUDIT", "modify_ts"); (* COL_AUDIT_MODIFY_TIME *)
  (1300, "r_coll_user_main", "user_name"); (* COL_COLL_USER_NAME *)
  (1301, "r_coll_user_main", "zone_name"); (* COL_COLL_USER_ZONE *)
  (1310, "r_data_user_main", "user_name"); (* COL_DATA_USER_NAME *)
  (1311, "r_data_user_main", "zone_name"); (* COL_DATA_USER_ZONE *)
  (1320, "r_resc_user_main", "user_name"); (* COL_RESC_USER_NAME *)
  (1321, "r_resc_user_main", "zone_name"); (* COL_RESC_USER_ZONE *)
  (1400, "R_SERVER_LOAD", "host_name"); (* COL_SL_HOST_NAME *)
  (1401, "R_SERVER_LOAD", "resc_name"); (* COL_SL_RESC_NAME *)
  (1402, "R_SERVER_LOAD", "cpu_used"); (* COL_SL_CPU_USED *)
  (1403, "R_SERVER_LOAD", "mem_used"); (* COL_SL_MEM_USED *)
  (1404, "R_SERVER_LOAD", "swap_used"); (* COL_SL_SWAP_USED *)
  (1405, "R_SERVER_LOAD", "runq_load"); (* COL_SL_RUNQ_LOAD *)
  (1406, "R_SERVER_LOAD", "disk_space"); (* COL_SL_DISK_SPACE *)
  (1407, "R_SERVER_LOAD", "net_input"); (* COL_SL_NET_INPUT *)
  (1408, "R_SERVER_LOAD", "net_output"); (* COL_SL_NET_OUTPUT *)
  (1409, "R_SERVER_LOAD", "create_ts"); (* COL_SL_CREATE_TIME *)
  (1500, "R_SERVER_LOAD_DIGEST", "resc_name"); (* COL_SLD_RESC_NAME *)
  (1501, "R_SERVER_LOAD_DIGEST", "load_factor"); (* COL_SLD_LOAD_FACTOR *)
  (1502, "R_SERVER_LOAD_DIGEST", "create_ts"); (* COL_SLD_CREATE_TIME *)
  (1700, "R_RULE_MAIN", "rule_id"); (* COL_RULE_ID *)
  (1701, "R_RULE_MAIN", "rule_version"); (* COL_RULE_VERSION *)
  (1702, "R_RULE_MAIN", "rule_base_name"); (* COL_RULE_BASE_NAME *)
  (1703, "R_RULE_MAIN", "rule_name"); (* COL_RULE_NAME *)
  (1704, "R_RULE_MAIN", "rule_event"); (* COL_RULE_EVENT *)
  (1705, "R_RULE_MAIN", "rule_condition"); (* COL_RULE_CONDITION *)
  (1706, "R_RULE_MAIN", "rule_body"); (* COL_RULE_BODY *)
  (1707, "R_RULE_MAIN", "rule_recovery"); (* COL_RULE_RECOVERY *)
  (1708, "R_RULE_MAIN", "rule_status"); (* COL_RULE_STATUS *)
  (1709, "R_RULE_MAIN", "rule_owner_name"); (* COL_RULE_OWNER_NAME *)
  (1710, "R_RULE_MAIN", "rule_owner_zone"); (* COL_RULE_OWNER_ZONE *)
  (1711, "R_RULE_MAIN", "rule_descr_1"); (* COL_RULE_DESCR_1 *)
  (1712, "R_RULE_MAIN", "rule_descr_2"); (* COL_RULE_DESCR_2 *)
  (1713, "R_RULE_MAIN", "input_params"); (* COL_RULE_INPUT_PARAMS *)
  (1714, "R_RULE_MAIN", "output_params"); (* COL_RULE_OUTPUT_PARAMS *)
  (1715, "R_RULE_MAIN", "dollar_vars"); (* COL_RULE_DOLLAR_VARS *)
  (1716, "R_RULE_MAIN", "icat_elements"); (* COL_RULE_ICAT_ELEMENTS *)
  (1717, "R_RULE_MAIN", "sideeffects"); (* COL_RULE_SIDEEFFECTS *)
  (1718, "R_RULE_MAIN", "r_comment"); (* COL_RULE_COMMENT *)
  (1719, "R_RULE_MAIN", "create_ts"); (* COL_RULE_CREATE_TIME *)
  (1720, "R_RULE_MAIN", "modify_ts"); (* COL_RULE_MODIFY_TIME *)
  (1721, "R_RULE_BASE_MAP", "map_version"); (* COL_RULE_BASE_MAP_VERSION *)
  (1728, "R_RULE_BASE_MAP", "map_priority"); (* COL_RULE_BASE_MAP_PRIORITY *)
  (1722, "R_RULE_BASE_MAP", "map_base_name"); (* COL_RULE_BASE_MAP_BASE_NAME *)
  (1723, "R_RULE_BASE_MAP", "map_owner_name"); (* COL_RULE_BASE_MAP_OWNER_NAME *)
  (1724, "R_RULE_BASE_MAP", "map_owner_zone"); (* COL_RULE_BASE_MAP_OWNER_ZONE *)
  (1725, "R_RULE_BASE_MAP", "r_comment"); (* COL_RULE_BASE_MAP_COMMENT *)
  (1726, "R_RULE_BASE_MAP", "create_ts"); (* COL_RULE_BASE_MAP_CREATE_TIME *)
  (1727, "R_RULE_BASE_MAP", "modify_ts"); (* COL_RULE_BASE_MAP_MODIFY_TIME *)
  (1800, "R_RULE_DVM", "dvm_id"); (* COL_DVM_ID *)
  (1801, "R_RULE_DVM", "dvm_version"); (* COL_DVM_VERSION *)
  (1802, "R_RULE_DVM", "dvm_base_name"); (* COL_DVM_BASE_NAME *)
  (1803, "R_RULE_DVM", "dvm_ext_var_name"); (* COL_DVM_EXT_VAR_NAME *)
  (1804, "R_RULE_DVM", "dvm_condition"); (* COL_DVM_CONDITION *)
  (1805, "R_RULE_DVM", "dvm_int_map_path"); (* COL_DVM_INT_MAP_PATH *)
  (1806, "R_RULE_DVM", "dvm_status"); (* COL_DVM_STATUS *)
  (1807, "R_RULE_DVM", "dvm_owner_name"); (* COL_DVM_OWNER_NAME *)
  (1808, "R_RULE_DVM", "dvm_owner_zone"); (* COL_DVM_OWNER_ZONE *)
  (1809, "R_RULE_DVM", "r_comment"); (* COL_DVM_COMMENT *)
  (1810, "R_RULE_DVM", "create_ts"); (* COL_DVM_CREATE_TIME *)
  (1811, "R_RULE_DVM", "modify_ts"); (* COL_DVM_MODIFY_TIME *)
  (1812, "R_RULE_DVM_MAP", "map_dvm_version"); (* COL_DVM_BASE_MAP_VERSION *)
  (1813, "R_RULE_DVM_MAP", "map_dvm_base_name"); (* COL_DVM_BASE_MAP_BASE_NAME *)
  (1814, "R_RULE_DVM_MAP", "map_owner_name"); (* COL_DVM_BASE_MAP_OWNER_NAME *)
  (1815, "R_RULE_DVM_MAP", "map_owner_zone"); (* COL_DVM_BASE_MAP_OWNER_ZONE *)
  (1816, "R_RULE_DVM_MAP", "r_comment"); (* COL_DVM_BASE_MAP_COMMENT *)
  (1817, "R_RULE_DVM_MAP", "create_ts"); (* COL_DVM_BASE_MAP_CREATE_TIME *)
  (1818, "R_RULE_DVM_MAP", "modify_ts"); (* COL_DVM_BASE_MAP_MODIFY_TIME *)
  (1900, "R_RULE_FNM", "fnm_id"); (* COL_FNM_ID *)
  (1901, "R_RULE_FNM", "fnm_version"); (* COL_FNM_VERSION *)
  (1902, "R_RULE_FNM", "fnm_base_name"); (* COL_FNM_BASE_NAME *)
  (1903, "R_RULE_FNM", "fnm_ext_func_name"); (* COL_FNM_EXT_FUNC_NAME *)
  (1904, "R_RULE_FNM", "fnm_int_func_name"); (* COL_FNM_INT_FUNC_NAME *)
  (1905, "R_RULE_FNM", "fnm_status"); (* COL_FNM_STATUS *)
  (1906, "R_RULE_FNM", "fnm_owner_name"); (* COL_FNM_OWNER_NAME *)
  (1907, "R_RULE_FNM", "fnm_owner_zone") (* COL_FNM_OWNER_ZONE *)
].

(** The number of a column, its table and its name, part 3. *)
Definition icat_columns_3 : list (Z * string * string) := [
  (1908, "R_RULE_FNM", "r_comment"); (* COL_FNM_COMMENT *)
  (1909, "R_RULE_FNM", "create_ts"); (* COL_FNM_CREATE_TIME *)
  (1910, "R_RULE_FNM", "modify_ts"); (* COL_FNM_MODIFY_TIME *)
  (1911, "R_RULE_FNM_MAP", "map_fnm_version"); (* COL_FNM_BASE_MAP_VERSION *)
  (1912, "R_RULE_FNM_MAP", "map_fnm_base_name"); (* COL_FNM_BASE_MAP_BASE_NAME *)
  (1913, "R_RULE_FNM_MAP", "map_owner_name"); (* COL_FNM_BASE_MAP_OWNER_NAME *)
  (1914, "R_RULE_FNM_MAP", "map_owner_zone"); (* COL_FNM_BASE_MAP_OWNER_ZONE *)
  (1915, "R_RULE_FNM_MAP", "r_comment"); (* COL_FNM_BASE_MAP_COMMENT *)
  (1916, "R_RULE_FNM_MAP", "create_ts"); (* COL_FNM_BASE_MAP_CREATE_TIME *)
  (1917, "R_RULE_FNM_MAP", "modify_ts"); (* COL_FNM_BASE_MAP_MODIFY_TIME *)
  (2000, "R_QUOTA_MAIN", "user_id"); (* COL_QUOTA_USER_ID *)
  (2001, "R_QUOTA_MAIN", "resc_id"); (* COL_QUOTA_RESC_ID *)
  (2002, "R_QUOTA_MAIN", "quota_limit"); (* COL_QUOTA_LIMIT *)
  (2003, "R_QUOTA_MAIN", "quota_over"); (* COL_QUOTA_OVER *)
  (2004, "R_QUOTA_MAIN", "modify_ts"); (* COL_QUOTA_MODIFY_TIME *)
  (2010, "R_QUOTA_USAGE", "user_id"); (* COL_QUOTA_USAGE_USER_ID *)
  (2011, "R_QUOTA_USAGE", "resc_id"); (* COL_QUOTA_USAGE_RESC_ID *)
  (2012, "R_QUOTA_USAGE", "quota_usage"); (* COL_QUOTA_USAGE *)
  (2013, "R_QUOTA_USAGE", "modify_ts"); (* COL_QUOTA_USAGE_MODIFY_TIME *)
  (2021, "r_quota_user_main", "user_name"); (* COL_QUOTA_USER_NAME *)
  (2023, "r_quota_user_group", "user_type_name"); (* COL_QUOTA_USER_TYPE *)
  (2020, "r_quota_resc_main", "resc_name"); (* COL_QUOTA_RESC_NAME *)
  (2022, "r_quota_user_main", "zone_name"); (* COL_QUOTA_USER_ZONE *)
  (2100, "R_MICROSRVC_MAIN", "msrvc_id"); (* COL_MSRVC_ID *)
  (2116, "R_MICROSRVC_MAIN", "msrvc_module_name"); (* COL_MSRVC_MODULE_NAME *)
  (2101, "R_MICROSRVC_MAIN", "msrvc_name"); (* COL_MSRVC_NAME *)
  (2102, "R_MICROSRVC_MAIN", "msrvc_signature"); (* COL_MSRVC_SIGNATURE *)
  (2103, "R_MICROSRVC_MAIN", "msrvc_doxygen"); (* COL_MSRVC_DOXYGEN *)
  (2104, "R_MICROSRVC_MAIN", "msrvc_variations"); (* COL_MSRVC_VARIATIONS *)
  (2106, "R_MICROSRVC_MAIN", "msrvc_owner_name"); (* COL_MSRVC_OWNER_NAME *)
  (2107, "R_MICROSRVC_MAIN", "msrvc_owner_zone"); (* COL_MSRVC_OWNER_ZONE *)
  (2108, "R_MICROSRVC_MAIN", "r_comment"); (* COL_MSRVC_COMMENT *)
  (2109, "R_MICROSRVC_MAIN", "create_ts"); (* COL_MSRVC_CREATE_TIME *)
  (2110, "R_MICROSRVC_MAIN", "modify_ts"); (* COL_MSRVC_MODIFY_TIME *)
  (2111, "R_MICROSRVC_VER", "msrvc_version"); (* COL_MSRVC_VERSION *)
  (2112, "R_MICROSRVC_VER", "msrvc_host"); (* COL_MSRVC_HOST *)
  (2113, "R_MICROSRVC_VER", "msrvc_location"); (* COL_MSRVC_LOCATION *)
  (2114, "R_MICROSRVC_VER", "msrvc_language"); (* COL_MSRVC_LANGUAGE *)
  (2115, "R_MICROSRVC_VER", "msrvc_type_name"); (* COL_MSRVC_TYPE_NAME *)
  (2105, "R_MICROSRVC_VER", "msrvc_status"); (* COL_MSRVC_STATUS *)
  (2150, "R_MICROSRVC_VER", "msrvc_owner_name"); (* COL_MSRVC_VER_OWNER_NAME *)
  (2151, "R_MICROSRVC_VER", "msrvc_owner_zone"); (* COL_MSRVC_VER_OWNER_ZONE *)
  (2152, "R_MICROSRVC_VER", "r_comment"); (* COL_MSRVC_VER_COMMENT *)
  (2153, "R_MICROSRVC_VER", "create_ts"); (* COL_MSRVC_VER_CREATE_TIME *)
  (2154, "R_MICROSRVC_VER", "modify_ts"); (* COL_MSRVC_VER_MODIFY_TIME *)
  (730, "r_meta_access", "access_type_id"); (* COL_META_ACCESS_TYPE *)
  (731, "r_meta_tokn_accs", "token_name"); (* COL_META_ACCESS_NAME *)
  (732, "r_meta_tokn_accs", "token_namespace"); (* COL_META_TOKEN_NAMESPACE *)
  (733, "r_meta_access", "user_id"); (* COL_META_ACCESS_USER_ID *)
  (734, "r_meta_access", "object_id"); (* COL_META_ACCESS_META_ID *)
  (720, "r_resc_access", "access_type_id"); (* COL_RESC_ACCESS_TYPE *)
  (721, "r_resc_tokn_accs", "token_name"); (* COL_RESC_ACCESS_NAME *)
  (722, "r_resc_tokn_accs", "token_namespace"); (* COL_RESC_TOKEN_NAMESPACE *)
  (723, "r_resc_access", "user_id"); (* COL_RESC_ACCESS_USER_ID *)
  (724, "r_resc_access", "object_id"); (* COL_RESC_ACCESS_RESC_ID *)
  (740, "r_rule_access", "access_type_id"); (* COL_RULE_ACCESS_TYPE *)
  (741, "r_rule_tokn_accs", "token_name"); (* COL_RULE_ACCESS_NAME *)
  (742, "r_rule_tokn_accs", "token_namespace"); (* COL_RULE_TOKEN_NAMESPACE *)
  (743, "r_rule_access", "user_id"); (* COL_RULE_ACCESS_USER_ID *)
  (744, "r_rule_access", "object_id"); (* COL_RULE_ACCESS_RULE_ID *)
  (750, "r_msrvc_access", "access_type_id"); (* COL_MSRVC_ACCESS_TYPE *)
  (751, "r_msrvc_tokn_accs", "token_name"); (* COL_MSRVC_ACCESS_NAME *)
  (752, "r_msrvc_tokn_accs", "token_namespace"); (* COL_MSRVC_TOKEN_NAMESPACE *)
  (753, "r_msrvc_access", "user_id"); (* COL_MSRVC_ACCESS_USER_ID *)
  (754, "r_msrvc_access", "object_id"); (* COL_MSRVC_ACCESS_MSRVC_ID *)
  (2200, "R_TICKET_MAIN", "ticket_id"); (* COL_TICKET_ID *)
  (2201, "R_TICKET_MAIN", "ticket_string"); (* COL_TICKET_STRING *)
  (2202, "R_TICKET_MAIN", "ticket_type"); (* COL_TICKET_TYPE *)
  (2203, "R_TICKET_MAIN", "user_id"); (* COL_TICKET_USER_ID *)
  (2204, "R_TICKET_MAIN", "object_id"); (* COL_TICKET_OBJECT_ID *)
  (2205, "R_TICKET_MAIN", "object_type"); (* COL_TICKET_OBJECT_TYPE *)
  (2206, "R_TICKET_MAIN", "uses_limit"); (* COL_TICKET_USES_LIMIT *)
  (2207, "R_TICKET_MAIN", "uses_count"); (* COL_TICKET_USES_COUNT *)
  (2212, "R_TICKET_MAIN", "write_file_limit"); (* COL_TICKET_WRITE_FILE_LIMIT *)
  (2211, "R_TICKET_MAIN", "write_file_count"); (* COL_TICKET_WRITE_FILE_COUNT *)
  (2214, "R_TICKET_MAIN", "write_byte_limit"); (* COL_TICKET_WRITE_BYTE_LIMIT *)
  (2213, "R_TICKET_MAIN", "write_byte_count"); (* COL_TICKET_WRITE_BYTE_COUNT *)
  (2208, "R_TICKET_MAIN", "ticket_expiry_ts"); (* COL_TICKET_EXPIRY_TS *)
  (2209, "R_TICKET_MAIN", "create_ts"); (* COL_TICKET_CREATE_TIME *)
  (2210, "R_TICKET_MAIN", "modify_ts"); (* COL_TICKET_MODIFY_TIME *)
  (2221, "R_TICKET_ALLOWED_HOSTS", "host"); (* COL_TICKET_ALLOWED_HOST *)
  (2220, "R_TICKET_ALLOWED_HOSTS", "ticket_id"); (* COL_TICKET_ALLOWED_HOST_TICKET_ID *)
  (2223, "R_TICKET_ALLOWED_USERS", "user_name"); (* COL_TICKET_ALLOWED_USER_NAME *)
  (2222, "R_TICKET_ALLOWED_USERS", "ticket_id"); (* COL_TICKET_ALLOWED_USER_TICKET_ID *)
  (2225, "R_TICKET_ALLOWED_GROUPS", "group_name"); (* COL_TICKET_ALLOWED_GROUP_NAME *)
  (2224, "R_TICKET_ALLOWED_GROUPS", "ticket_id"); (* COL_TICKET_ALLOWED_GROUP_TICKET_ID *)
  (2226, "R_DATA_MAIN", "data_name"); (* COL_TICKET_DATA_NAME *)
  (2228, "r_ticket_coll_main", "coll_name"); (* COL_TICKET_COLL_NAME *)
  (2229, "r_ticket_user_main", "user_name"); (* COL_TICKET_OWNER_NAME *)
  (2230, "r_ticket_user_main", "zone_name"); (* COL_TICKET_OWNER_ZONE *)
  (2227, "r_ticket_data_coll_main", "coll_name") (* COL_TICKET_DATA_COLL_NAME *)
].

(** Two tables and the condition that joins them. *)
Definition icat_links : list (string * string * string) := [
  ("R_COLL_MAIN", "R_DATA_MAIN", "R_COLL_MAIN.coll_id = R_DATA_MAIN.coll_id");
  ("R_RESC_GROUP", "R_RESC_MAIN", "R_RESC_GROUP.resc_id = R_RESC_MAIN.resc_id");
  ("R_RESC_MAIN", "r_resc_metamap", "R_RESC_MAIN.resc_id = r_resc_metamap.object_id");
  ("R_RESC_MAIN", "R_DATA_MAIN", "R_RESC_MAIN.resc_id = R_DATA_MAIN.resc_id");
  ("R_RESC_GROUP", "r_resc_grp_metamap", "R_RESC_GROUP.resc_group_id = r_resc_grp_metamap.object_id");
  ("R_COLL_MAIN", "r_coll_metamap", "R_COLL_MAIN.coll_id = r_coll_metamap.object_id");
  ("R_DATA_MAIN", "r_data_metamap", "R_DATA_MAIN.data_id = r_data_metamap.object_id");
  ("R_RULE_MAIN", "r_rule_metamap", "R_RULE_MAIN.rule_id = r_rule_metamap.object_id");
  ("R_USER_MAIN", "r_user_metamap", "R_USER_MAIN.user_id = r_user_metamap.object_id");
  ("r_met2_main", "r_met2_metamap", "r_met2_main.meta_id = r_met2_metamap.object_id");
  ("R_RESC_MAIN", "r_resc_access", "R_RESC_MAIN.resc_id = r_resc_access.object_id");
  ("R_COLL_MAIN", "r_coll_access", "R_COLL_MAIN.coll_id = r_coll_access.object_id");
  ("R_DATA_MAIN", "r_data_access", "R_DATA_MAIN.data_id = r_data_access.object_id");
  ("R_RULE_MAIN", "r_rule_access", "R_RULE_MAIN.rule_id = r_rule_access.object_id");
  ("r_met2_main", "r_met2_access", "r_met2_main.meta_id = r_met2_access.object_id");
  ("R_RESC_MAIN", "r_resc_deny_access", "R_RESC_MAIN.resc_id = r_resc_deny_access.object_id");
  ("R_COLL_MAIN", "r_coll_deny_access", "R_COLL_MAIN.coll_id = r_coll_deny_access.object_id");
  ("R_DATA_MAIN", "r_data_deny_access", "R_DATA_MAIN.data_id = r_data_deny_access.object_id");
  ("R_RULE_MAIN", "r_rule_deny_access", "R_RULE_MAIN.rule_id = r_rule_deny_access.object_id");
  ("r_met2_main", "r_met2_deny_access", "r_met2_main.meta_id = r_met2_deny_access.object_id");
  ("R_RESC_MAIN", "r_resc_audit", "R_RESC_MAIN.resc_id = r_resc_audit.object_id");
  ("R_COLL_MAIN", "r_coll_audit", "R_COLL_MAIN.coll_id = r_coll_audit.object_id");
  ("R_DATA_MAIN", "r_data_audit", "R_DATA_MAIN.data_id = r_data_audit.object_id");
  ("R_RULE_MAIN", "r_rule_audit", "R_RULE_MAIN.rule_id = r_rule_audit.object_id");
  ("r_met2_main", "r_met2_audit", "r_met2_main.meta_id = r_met2_audit.object_id.meta_id");
  ("r_resc_metamap", "r_resc_meta_main", "r_resc_metamap.meta_id = r_resc_meta_main.meta_id");
  ("r_resc_grp_metamap", "r_resc_grp_meta_main", "r_resc_grp_metamap.meta_id = r_resc_grp_meta_main.meta_id");
  ("r_coll_metamap", "r_coll_meta_main", "r_coll_metamap.meta_id = r_coll_meta_main.meta_id");
  ("r_data_metamap", "r_data_meta_main", "r_data_metamap.meta_id = r_data_meta_main.meta_id");
  ("r_rule_metamap", "r_rule_meta_main", "r_rule_metamap.meta_id = r_rule_meta_main.meta_id");
  ("r_user_metamap", "r_user_meta_main", "r_user_metamap.meta_id = r_user_meta_main.meta_id");
  ("r_met2_metamap", "r_met2_meta_main", "r_met2_metamap.object_id = r_met2_meta_main.meta_id");
  ("r_resc_access", "r_resc_tokn_accs", "r_resc_access.access_type_id = r_resc_tokn_accs.token_id");
  ("r_resc_access", "r_resc_user_group", "r_resc_access.user_id = r_resc_user_group.group_user_id");
  ("r_coll_access", "r_coll_tokn_accs", "r_coll_access.access_type_id = r_coll_tokn_accs.token_id");
  ("r_coll_access", "r_coll_user_group", "r_coll_access.user_id = r_coll_user_group.group_user_id");
  ("r_data_access", "r_data_tokn_accs", "r_data_access.access_type_id = r_data_tokn_accs.token_id");
  ("r_data_access", "r_data_user_group", "r_data_access.user_id = r_data_user_group.group_user_id");
  ("r_rule_access", "r_rule_tokn_accs", "r_rule_access.access_typ_id = r_rule_tokn_accs.token_id");
  ("r_rule_access", "r_rule_user_group", "r_rule_access.user_id = r_rule_user_group.group_user_id");
  ("r_met2_access", "r_met2_tokn_accs", "r_met2_access.access_typ_id = r_met2_tokn_accs.token_id");
  ("r_met2_access", "r_met2_user_group", "r_met2_access.user_id = r_met2_user_group.group_user_id");
  ("r_resc_deny_access", "r_resc_tokn_deny_accs", "r_resc_deny_access.access_typ_id = r_resc_tokn_deny_accs.token_id");
  ("r_resc_deny_access", "r_resc_da_user_group", "r_resc_deny_access.user_id = r_resc_da_user_group.group_user_id");
  ("r_coll_deny_access", "r_coll_tokn_deny_accs", "r_coll_deny_access.access_typ_id = r_coll_tokn_deny_accs.token_id");
  ("r_coll_deny_access", "r_coll_da_user_group", "r_coll_deny_access.user_id = r_coll_da_user_group.group_user_id");
  ("r_data_deny_access", "r_data_tokn_deny_accs", "r_data_deny_access.access_typ_id = r_data_tokn_deny_accs.token_id");
  ("r_data_deny_access", "r_data_da_user_group", "r_data_deny_access.user_id = r_data_da_user_group.group_user_id");
  ("r_rule_deny_access", "r_rule_tokn_deny_accs", "r_rule_deny_access.access_typ_id = r_rule_tokn_deny_accs.token_id");
  ("r_rule_deny_access", "r_rule_da_user_group", "r_rule_deny_access.user_id = r_rule_da_user_group.group_user_id");
  ("r_met2_deny_access", "r_met2_tokn_deny_accs", "r_met2_deny_access.access_typ_id = r_met2_tokn_deny_accs.token_id");
  ("r_met2_deny_access", "r_met2_da_user_group", "r_met2_deny_access.user_id = r_met2_da_user_group.group_user_id");
  ("r_resc_audit", "r_resc_tokn_audit", "r_resc_audit.action_id = r_resc_tokn_audit.token_id");
  ("r_resc_audit", "r_resc_au_user_group", "r_resc_audit.user_id = r_resc_au_user_group.group_user_id");
  ("r_coll_audit", "r_coll_tokn_audit", "r_coll_audit.action_id = r_coll_tokn_audit.token_id");
  ("r_coll_audit", "r_coll_au_user_group", "r_coll_audit.user_id = r_coll_au_user_group.group_user_id");
  ("r_data_audit", "r_data_tokn_audit", "r_data_audit.action_id = r_data_tokn_audit.token_id");
  ("r_data_audit", "r_data_au_user_group", "r_data_audit.user_id = r_data_au_user_group.group_user_id");
  ("r_rule_audit", "r_rule_tokn_audit", "r_rule_audit.action_id = r_rule_tokn_audit.token_id");
  ("r_rule_audit", "r_rule_au_user_group", "r_rule_audit.user_id = r_rule_au_user_group.group_user_id");
  ("r_met2_audit", "r_met2_tokn_audit", "r_met2_audit.action_id = r_met2_tokn_audit.token_id");
  ("r_met2_audit", "r_met2_au_user_group", "r_met2_audit.user_id = r_met2_au_user_group.group_user_id");
  ("r_resc_user_group", "r_resc_user_main", "r_resc_user_group.user_id = r_resc_user_main.user_id");
  ("r_coll_user_group", "r_coll_user_main", "r_coll_user_group.user_id = r_coll_user_main.user_id");
  ("r_data_user_group", "r_data_user_main", "r_data_user_group.user_id = r_data_user_main.user_id");
  ("r_rule_user_group", "r_rule_user_main", "r_rule_user_group.user_id = r_rule_user_main.user_id");
  ("r_met2_user_group", "r_met2_user_main", "r_met2_user_group.user_id = r_met2_user_main.user_id");
  ("r_resc_da_user_group", "r_resc_da_user_main", "r_resc_da_user_group.user_id = r_resc_da_user_main.user_id");
  ("r_coll_da_user_group", "r_coll_da_user_main", "r_coll_da_user_group.user_id = r_coll_da_user_main.user_id");
  ("r_data_da_user_group", "r_data_da_user_main", "r_data_da_user_group.user_id = r_data_da_user_main.user_id");
  ("r_rule_da_user_group", "r_rule_da_user_main", "r_rule_da_user_group.user_id = r_rule_da_user_main.user_id");
  ("r_met2_da_user_group", "r_met2_da_user_main", "r_met2_da_user_group.user_id = r_met2_da_user_main.user_id");
  ("r_resc_au_user_group", "r_resc_au_user_main", "r_resc_au_user_group.user_id = r_resc_au_user_main.user_id");
  ("r_coll_au_user_group", "r_coll_au_user_main", "r_coll_au_user_group.user_id = r_coll_au_user_main.user_id");
  ("r_data_au_user_group", "r_data_au_user_main", "r_data_au_user_group.user_id = r_data_au_user_main.user_id");
  ("r_rule_au_user_group", "r_rule_au_user_main", "r_rule_au_user_group.user_id = r_rule_au_user_main.user_id");
  ("r_met2_au_user_group", "r_met2_au_user_main", "r_met2_au_user_group.user_id = r_met2_au_user_main.user_id");
  ("R_USER_MAIN", "R_USER_PASSWORD", "R_USER_MAIN.user_id = R_USER_PASSWORD.user_id");
  ("R_USER_MAIN", "R_USER_AUTH", "R_USER_MAIN.user_id = R_USER_AUTH.user_id");
  ("R_USER_MAIN", "R_USER_SESSION_KEY", "R_USER_MAIN.user_id = R_USER_SESSION_KEY.user_id");
  ("R_USER_MAIN", "r_data_access", "R_USER_MAIN.user_id = r_data_access.user_id");
  ("R_USER_MAIN", "R_USER_GROUP", "R_USER_MAIN.user_id = R_USER_GROUP.user_id");
  ("R_USER_GROUP", "r_group_main", "R_USER_GROUP.group_user_id = r_group_main.user_id");
  ("R_USER_MAIN", "R_OBJT_AUDIT", "R_USER_MAIN.user_id = R_OBJT_AUDIT.user_id");
  ("R_QUOTA_MAIN", "r_quota_user_main", "R_QUOTA_MAIN.user_id = r_quota_user_main.user_id");
  ("R_QUOTA_MAIN", "r_quota_resc_main", "R_QUOTA_MAIN.resc_id = r_quota_resc_main.resc_id");
  ("R_QUOTA_MAIN", "r_quota_user_group", "R_QUOTA_MAIN.user_id = r_quota_user_group.user_id");
  ("R_QUOTA_USAGE", "r_quota_user_main", "R_QUOTA_USAGE.user_id = r_quota_user_main.user_id");
  ("R_QUOTA_USAGE", "r_quota_resc_main", "R_QUOTA_USAGE.resc_id = r_quota_resc_main.resc_id");
  ("R_QUOTA_USAGE", "r_quota_user_group", "R_QUOTA_USAGE.user_id = r_quota_user_group.user_id");
  ("R_RULE_BASE_MAP", "R_RULE_MAIN", "R_RULE_BASE_MAP.rule_id = R_RULE_MAIN.rule_id");
  ("R_RULE_DVM_MAP", "R_RULE_DVM", "R_RULE_DVM_MAP.dvm_id = R_RULE_DVM.dvm_id");
  ("R_RULE_FNM_MAP", "R_RULE_FNM", "R_RULE_FNM_MAP.fnm_id = R_RULE_FNM.fnm_id");
  ("R_MICROSRVC_MAIN", "R_MICROSRVC_VER", "R_MICROSRVC_MAIN.msrvc_id = R_MICROSRVC_VER.msrvc_id");
  ("R_MICROSRVC_MAIN", "r_msrvc_metamap", "R_MICROSRVC_MAIN.msrvc_id = r_msrvc_metamap.object_id");
  ("r_msrvc_metamap", "r_msrvc_meta_main", "r_msrvc_metamap.meta_id = r_msrvc_meta_main.meta_id");
  ("R_MICROSRVC_MAIN", "r_msrvc_access", "R_MICROSRVC_MAIN.msrvc_id = r_msrvc_access.object_id");
  ("r_msrvc_access", "r_msrvc_tokn_accs", "r_msrvc_access.access_typ_id = r_msrvc_tokn_accs.token_id");
  ("r_msrvc_access", "r_msrvc_user_group", "r_msrvc_access.user_id = r_msrvc_user_group.group_user_id");
  ("r_msrvc_user_group", "r_msrvc_user_main", "r_msrvc_user_group.user_id = r_msrvc_user_main.user_id");
  ("R_MICROSRVC_MAIN", "r_msrvc_deny_access", "R_MICROSRVC_MAIN.msrvc_id = r_msrvc_deny_access.object_id");
  ("r_msrvc_deny_access", "r_msrvc_tokn_deny_accs", "r_msrvc_deny_access.access_typ_id = r_msrvc_tokn_deny_accs.token_id");
  ("r_msrvc_deny_access", "r_msrvc_da_user_group", "r_msrvc_deny_access.user_id = r_msrvc_da_user_group.group_user_id");
  ("r_msrvc_da_user_group", "r_msrvc_da_user_main", "r_msrvc_da_user_group.user_id = r_msrvc_da_user_main.user_id");
  ("R_MICROSRVC_MAIN", "r_msrvc_audit", "R_MICROSRVC_MAIN.msrvc_id = r_msrvc_audit.object_id");
  ("r_msrvc_audit", "r_msrvc_tokn_audit", "r_msrvc_audit.action_id = r_msrvc_tokn_audit.token_id");
  ("r_msrvc_audit", "r_msrvc_au_user_group", "r_msrvc_audit.user_id = r_msrvc_au_user_group.group_user_id");
  ("r_msrvc_au_user_group", "r_msrvc_au_user_main", "r_msrvc_au_user_group.user_id = r_msrvc_au_user_main.user_id");
  ("R_TICKET_MAIN", "R_TICKET_ALLOWED_HOSTS", "R_TICKET_MAIN.ticket_id = R_TICKET_ALLOWED_HOSTS.ticket_id");
  ("R_TICKET_MAIN", "R_TICKET_ALLOWED_USERS", "R_TICKET_MAIN.ticket_id = R_TICKET_ALLOWED_USERS.ticket_id");
  ("R_TICKET_MAIN", "R_TICKET_ALLOWED_GROUPS", "R_TICKET_MAIN.ticket_id = R_TICKET_ALLOWED_GROUPS.ticket_id");
  ("R_TICKET_MAIN", "R_DATA_MAIN", "R_TICKET_MAIN.object_id = R_DATA_MAIN.data_id");
  ("R_TICKET_MAIN", "r_ticket_coll_main", "R_TICKET_MAIN.object_id = r_ticket_coll_main.coll_id");
  ("R_TICKET_MAIN", "r_ticket_data_coll_main", "R_TICKET_MAIN.object_id = R_DATA_MAIN.data_id AND R_DATA_MAIN.coll_id = r_ticket_data_coll_main.coll_id");
  ("R_TICKET_MAIN", "r_ticket_user_main", "R_TICKET_MAIN.user_id = r_ticket_user_main.user_id")
].

(** ** The tables filled *)

Definition add_table (sc : schema) (t : string * string * Z) : schema :=
  let '(name, alias, c) := t in (sTable sc (lit name) (lit alias) c).2.

Definition add_column (sc : schema) (c : Z * string * string) : schema :=
  let '(v, table, name) := c in (sColumn sc v (lit table) (lit name)).2.

Definition add_link (sc : schema) (l : string * string * string) : schema :=
  let '(t1, t2, sql) := l in (sFklink sc (lit t1) (lit t2) (lit sql)).2.

(** [icatGeneralQuerySetup]: what it leaves. *)
Definition icatGeneralQuerySetup : schema :=
  foldl add_link
    (foldl add_column (foldl add_table sTableInit icat_tables) (icat_columns_1 ++ icat_columns_2 ++ icat_columns_3))
    icat_links.

(** ** Facts *)

(** The links that a schema asks for, with their names and whole texts. *)
Definition link_faithful (sc : schema) (l : string * string * string) (k : tLink) : bool :=
  let '(t1, t2, sql) := l in
  match Tables sc !! table1 k, Tables sc !! table2 k with
  | Some a, Some b => bstr_eqb (tableName a) (lit t1) && bstr_eqb (tableName b) (lit t2) && bstr_eqb (connectingSQL k) (lit sql)
  | _, _ => false
  end.

Fixpoint all2 {A B} (f : A -> B -> bool) (l : list A) (m : list B) : bool :=
  match l, m with
  | [], [] => true
  | a :: l', b :: m' => f a b && all2 f l' m'
  | _, _ => false
  end.

(** Every call of the setup has its effect: nothing is cut off, no table is full and no link
    falls back to the first table because of an unknown name. *)
Lemma setup_complete :
  let sc := icatGeneralQuerySetup in
  map (fun t => (tableName t, tableAlias t, cycler t)) (Tables sc) = map (fun '(n, a, c) => (lit n, lit a, c)) icat_tables /\
  map (fun c => (defineValue c, columnTable c, columnName c)) (Columns sc) =
    map (fun '(v, t, n) => (v, lit t, lit n)) (icat_columns_1 ++ icat_columns_2 ++ icat_columns_3) /\
  all2 (link_faithful sc) icat_links (Links sc) = true.
Proof. vm_compute. repeat split; reflexivity. Qed.
