(* ===== verification/TableLinks.v ===== *)
(** * Joining tables

    The search of [plugins/database/src/general_query.cpp] for the links that join the tables
    of a query: [tScan] walks over the links from one table, keeps those that lead to a table
    the query needs and adds them to the [where] and [from] clauses; [tCycleChk] looks for
    cycles. The flags of the tables are a list of [MAX_LINKS_TABLES_OR_COLUMNS] numbers. *)

From stdpp Require Import base list strings relations.
From Stdlib Require Import ZArith Lia Ascii.
From S2P Require Import Prelude Errors Schema.
Local Open Scope Z_scope.

Definition MAX_SQL_SIZE_GQ : Z := 16000.

(** [rstrcat]: the new contents of [dest], which is left as it is when there is no space. *)
Definition rstrcat (dest src : bstr) (maxLen : Z) : option bstr :=
  if maxLen <=? Z.of_nat (length src) + Z.of_nat (length dest) then None else Some (dest ++ src).

(** ** [tablePresent] *)

(** The tokens before a comma or the end, whether the last byte was a blank, and the rest. *)
Fixpoint count_tokens (blank : bool) (tokens : nat) (s : bstr) : nat * bool * bstr :=
  match s with
  | [] => ((if blank then tokens else S tokens), blank, s)
  | c :: s' =>
      if Ascii.eqb c "," then ((if blank then tokens else S tokens), blank, s)
      else if Ascii.eqb c " " then count_tokens true (if blank then tokens else S tokens) s'
      else count_tokens false tokens s'
  end.

(** The loop over the occurrences; [None] when the fuel runs out. *)
Fixpoint present_loop (fuel : nat) (table : bstr) (blank : bool) (cp1 : bstr) : option bool :=
  match fuel with
  | O => None
  | S fuel =>
      match strstr cp1 table with
      | None => Some false
      | Some i =>
          let '(tokens, blank, cp2) := count_tokens blank O (drop i cp1) in
          if Nat.eqb tokens 1 then Some true else present_loop fuel table blank cp2
      end
  end.

Definition tablePresent (table sqlText : bstr) : bool :=
  match strstr sqlText table with
  | None => false
  | Some _ =>
      let '(tokens, _, _) := count_tokens true O table in
      if Nat.eqb tokens 2 then true
      else default false (present_loop (S (length sqlText)) table true sqlText)
  end.

(** ** The state of the search *)

Record sql : Type := Sql { flags : list Z; nToFind : Z; fromSQL : bstr; whereSQL : bstr }.

Definition flag (s : sql) (t : nat) : Z := default 0 (flags s !! t).
Definition set_flag (t : nat) (z : Z) (s : sql) : sql := Sql (<[t := z]> (flags s)) (nToFind s) (fromSQL s) (whereSQL s).
Definition set_toFind (n : Z) (s : sql) : sql := Sql (flags s) n (fromSQL s) (whereSQL s).
Definition set_from (f : bstr) (s : sql) : sql := Sql (flags s) (nToFind s) f (whereSQL s).
Definition set_where (w : bstr) (s : sql) : sql := Sql (flags s) (nToFind s) (fromSQL s) w.

(** A part of a function that may return from it: the state, and the code it returns. *)
Definition step : Type := sql -> sql * option Z.

Definition then_ (m n : step) : step := fun s =>
  match m s with
  | (s, Some code) => (s, Some code)
  | (s, None) => n s
  end.
Infix ">>>" := then_ (at level 60, right associativity).

Definition cat_where (t : bstr) : step := fun s =>
  match rstrcat (whereSQL s) t MAX_SQL_SIZE_GQ with
  | Some w => (set_where w s, None)
  | None => (s, Some USER_STRLEN_TOOLONG)
  end.

Definition cat_from (t : bstr) : step := fun s =>
  match rstrcat (fromSQL s) t MAX_SQL_SIZE_GQ with
  | Some f => (set_from f s, None)
  | None => (s, Some USER_STRLEN_TOOLONG)
  end.

(** [if ( strlen( whereSQL ) > 6 )] *)
Definition cat_and : step := fun s =>
  if 6 <? Z.of_nat (length (whereSQL s)) then cat_where (lit " AND ") s else (s, None).

(** The alias of a table is added to [fromSQL] if it is not there. *)
Definition add_from (alias : bstr) : step := fun s =>
  if tablePresent alias (fromSQL s) then (s, None)
  else (cat_from (lit ", ") >>> cat_from alias >>> cat_from (lit " ")) s.

Section scan.
Variable sc : schema.

Definition no_table : tTable := Table [] [] 0.
Definition table_at (t : nat) : tTable := default no_table (Tables sc !! t).

(** A link is used: its condition and its tables are added. *)
Definition use_link (l : tLink) : step :=
  cat_and >>> cat_where (connectingSQL l) >>> cat_where (lit " ") >>>
  add_from (tableAlias (table_at (table2 l))) >>> add_from (tableAlias (table_at (table1 l))).

(** The links of a table but the one it was reached by, forward first, each with its number
    and the table at its other end. *)
Definition forward (table : nat) (link : option nat) (k : nat * tLink) : option (nat * nat * tLink) :=
  if Nat.eqb (table1 k.2) table && negb (bool_decide (link = Some k.1)) then Some (k.1, table2 k.2, k.2) else None.
Definition backward (table : nat) (link : option nat) (k : nat * tLink) : option (nat * nat * tLink) :=
  if Nat.eqb (table2 k.2) table && negb (bool_decide (link = Some k.1)) then Some (k.1, table1 k.2, k.2) else None.

Definition links_of (table : nat) (link : option nat) : list (nat * nat * tLink) :=
  let all := zip (seq 0 (length (Links sc))) (Links sc) in
  omap (forward table link) all ++ omap (backward table link) all.

(** The loops over the links; [scan] is [tScan]. The state and the value returned. *)
Fixpoint try_links (scan : nat -> option nat -> sql -> option (sql * Z)) (ls : list (nat * nat * tLink)) (thisKeep : Z) (s : sql)
    : option (sql * Z) :=
  match ls with
  | [] => Some (s, thisKeep)
  | (i, t, l) :: ls' =>
      '(s, subKeep) ← scan t (Some i) s;
      if (subKeep =? 0) then try_links scan ls' thisKeep s
      else match use_link l s with
           | (s, Some code) => Some (s, code)
           | (s, None) => if nToFind s <=? 0 then Some (s, 1) else try_links scan ls' 1 s
           end
  end.

(** [tScan]; [None] when the fuel runs out. *)
Fixpoint tScan (fuel : nat) (table : nat) (link : option nat) (s : sql) : option (sql * Z) :=
  match fuel with
  | O => None
  | S fuel =>
      let rest thisKeep s :=
        if cycler (table_at table) =? 1 then Some (s, thisKeep)
        else try_links (tScan fuel) (links_of table link) thisKeep (set_flag table 3 s) in
      if (MAX_LINKS_TABLES_OR_COLUMNS <=? table)%nat then Some (s, -1)
      else if flag s table =? 1 then
        let s := set_toFind (nToFind s - 1) (set_flag table 2 s) in
        if nToFind s <=? 0 then Some (s, 1) else rest 1 s
      else if negb (flag s table =? 0) then Some (s, 0)
      else rest 0 s
  end.

(** Every level of the recursion but the last has set the flag of a table. *)
Definition scan_fuel : nat := S (S MAX_LINKS_TABLES_OR_COLUMNS).

(** ** Cycles *)

Fixpoint chk_links (chk : nat -> option nat -> list Z -> option (list Z * Z)) (ls : list (nat * nat * tLink)) (fl : list Z)
    : option (list Z * Z) :=
  match ls with
  | [] => Some (fl, 0)
  | (i, t, _) :: ls' =>
      '(fl, subKeep) ← chk t (Some i) fl;
      if subKeep =? 0 then chk_links chk ls' fl else Some (fl, 1)
  end.

Fixpoint tCycleChk (fuel : nat) (treeNum : Z) (table : nat) (link : option nat) (fl : list Z) : option (list Z * Z) :=
  match fuel with
  | O => None
  | S fuel =>
      let f := default 0 (fl !! table) in
      if negb (f =? 0) && (f =? treeNum) then Some (fl, 1)
      else
        let fl := <[table := treeNum]> fl in
        if cycler (table_at table) =? 1 then Some (fl, 0)
        else chk_links (tCycleChk fuel treeNum) (links_of table link) fl
  end.

Fixpoint cycle_trees (n : nat) (i : nat) (treeNum : Z) (fl : list Z) : option Z :=
  match n with
  | O => Some 0
  | S n =>
      if default 0 (fl !! i) =? 0 then
        '(fl, status) ← tCycleChk scan_fuel (treeNum + 1) i None fl;
        if status =? 0 then cycle_trees n (S i) (treeNum + 1) fl else Some status
      else cycle_trees n (S i) treeNum fl
  end.

(** [findCycles]: the status. *)
Definition findCycles (startTable : nat) : option Z :=
  let n := length (Tables sc) in
  let fl := replicate MAX_LINKS_TABLES_OR_COLUMNS 0 in
  if Nat.eqb startTable 0 then cycle_trees n 0 0 fl
  else if (n <? startTable)%nat then Some CAT_INVALID_ARGUMENT
  else '(fl, status) ← tCycleChk scan_fuel 1 startTable None fl;
       if status =? 0 then cycle_trees n 0 1 fl else Some status.
End scan.

(** ** [from] clauses *)

Definition comma : ascii := ",".
Definition blank_char : ascii := " ".

(** Segments with commas between them. *)
Fixpoint segments (xs : list bstr) : bstr :=
  match xs with
  | [] => []
  | [x] => x
  | x :: xs' => x ++ comma :: segments xs'
  end.

Lemma segments_cons x xs : xs <> [] -> segments (x :: xs) = x ++ comma :: segments xs.
Proof. by destruct xs. Qed.

Lemma strstr_comma x r a :
  (comma ∉ a) -> a <> [] -> (comma ∉ x) ->
  strstr (x ++ comma :: r) a =
  match strstr x a with Some i => Some i | None => (fun i => length x + 1 + i)%nat <$> strstr r a end.
Proof.
  intros Ha Hne. induction x as [|c x IH]; intros Hx.
  - cbn [app strstr length]. rewrite take_nil. rewrite !(proj2 (bstr_eqb_neq _ _)).
    + by destruct (strstr r a).
    + by destruct a.
    + destruct a as [|d a]; [done|]. cbn. intros [= <- _]. apply Ha. left.
  - apply not_elem_of_cons in Hx as [_ Hx]. cbn [app strstr]. rewrite (IH Hx).
    assert (take (length a) (c :: x ++ comma :: r) = a <-> take (length a) (c :: x) = a) as Ht.
    { change (c :: x ++ comma :: r) with ((c :: x) ++ comma :: r). destruct (le_lt_dec (length a) (length (c :: x))) as [Hl|Hl].
      - by rewrite take_app_le.
      - split; intros E; [|by rewrite <- E in Hl; rewrite length_take in Hl; simpl in Hl; lia].
        exfalso. apply Ha. rewrite <- E, take_app, elem_of_app. right.
        destruct (length a - length (c :: x))%nat eqn:E2; [lia|]. left. }
    destruct (bstr_eqb (take (length a) (c :: x)) a) eqn:E1.
    + apply bstr_eqb_eq, Ht, bstr_eqb_eq in E1. by rewrite E1.
    + rewrite (proj2 (bstr_eqb_neq _ _)) by (rewrite Ht; by apply bstr_eqb_neq).
      destruct (strstr x a); [done|]. by destruct (strstr r a).
Qed.

Lemma count_tokens_comma x r : (comma ∉ x) -> forall blank n,
  count_tokens blank n (x ++ comma :: r) = ((count_tokens blank n x).1, comma :: r).
Proof.
  induction x as [|c x IH]; intros Hx blank n; [done|]. apply not_elem_of_cons in Hx as [Hc Hx]. cbn [app count_tokens].
  rewrite (proj2 (Ascii.eqb_neq c ",")) by (intros ->; by apply Hc). destruct (Ascii.eqb c " "); by apply IH.
Qed.

Lemma count_tokens_rest x : (comma ∉ x) -> forall blank n, (count_tokens blank n x).2 = [].
Proof.
  induction x as [|c x IH]; intros Hx blank n; [done|]. apply not_elem_of_cons in Hx as [Hc Hx]. cbn [count_tokens].
  rewrite (proj2 (Ascii.eqb_neq c ",")) by (intros ->; by apply Hc). destruct (Ascii.eqb c " "); by apply IH.
Qed.

(** Behind a blank, counting ends as it began. *)
Lemma count_tokens_blank x : (comma ∉ x) -> forall blank n, (count_tokens blank n (x ++ [blank_char])).1.2 = true.
Proof.
  induction x as [|c x IH]; intros Hx blank n; [done|]. apply not_elem_of_cons in Hx as [Hc Hx]. cbn [app count_tokens].
  rewrite (proj2 (Ascii.eqb_neq c ",")) by (intros ->; by apply Hc). destruct (Ascii.eqb c " "); by apply IH.
Qed.

(** The table is in a segment as its only or last token. *)
Definition one_token (a x : bstr) : bool :=
  match strstr x a with None => false | Some i => Nat.eqb (count_tokens true O (drop i x)).1.1 1 end.

(** A segment: no comma in it and a blank at its end. *)
Definition segment (x : bstr) : Prop := exists y, x = y ++ [blank_char] /\ (comma ∉ y).

Lemma segment_comma x : segment x -> comma ∉ x.
Proof. intros (y & -> & Hy). rewrite not_elem_of_app. split; [done|]. apply not_elem_of_cons. split; [done|apply not_elem_of_nil]. Qed.

Lemma strstr_length s a i : strstr s a = Some i -> (i + length a <= length s)%nat.
Proof.
  revert i. induction s as [|c s IH]; intros i; cbn [strstr].
  - rewrite take_nil. destruct (bstr_eqb [] a) eqn:E; [|done]. apply bstr_eqb_eq in E as <-. by intros [= <-].
  - destruct (bstr_eqb (take (length a) (c :: s)) a) eqn:E.
    + apply bstr_eqb_eq in E. intros [= <-]. rewrite <- E at 1. rewrite length_take. simpl. lia.
    + intros (j & Hj & ->)%fmap_Some. apply IH in Hj. simpl. lia.
Qed.

Lemma segment_drop x i : segment x -> (i < length x)%nat -> segment (drop i x).
Proof.
  intros (y & -> & Hy) Hi. exists (drop i y). rewrite length_app in Hi. simpl in Hi. rewrite drop_app_le by lia. split; [done|].
  intros H. apply Hy. rewrite <- (take_drop i y), elem_of_app. by right.
Qed.

Section present.
Variable a : bstr.
Hypothesis (Hcomma : comma ∉ a) (Hne : a <> []).

Lemma present_loop_comma fuel b x : present_loop fuel a b (comma :: x) = present_loop fuel a b x.
Proof using Hcomma Hne.
  destruct fuel; [done|]. cbn [present_loop]. pose proof (strstr_comma [] x a Hcomma Hne (not_elem_of_nil _)) as H. cbn [app length] in H. rewrite H.
  assert (strstr [] a = None) as -> by (cbn; rewrite take_nil; rewrite (proj2 (bstr_eqb_neq _ _)); [done|by destruct a]).
  by destruct (strstr x a).
Qed.

Lemma present_segments : forall xs fuel,
  Forall segment xs -> (length (segments xs) < fuel)%nat -> present_loop fuel a true (segments xs) = Some (existsb (one_token a) xs).
Proof using Hcomma Hne.
  induction xs as [|x xs IH]; intros fuel Hs Hf.
  { destruct fuel; [simpl in Hf; lia|]. cbn. rewrite take_nil. by rewrite (proj2 (bstr_eqb_neq _ _)) by (by destruct a). }
  apply Forall_cons in Hs as [Hx Hs]. assert (0 < length a)%nat as Hla by (by destruct a; [|simpl; lia]).
  pose proof (segment_comma _ Hx) as Hxc. destruct fuel as [|fuel]; [lia|]. destruct xs as [|x' xs].
  - cbn [segments existsb present_loop]. unfold one_token. destruct (strstr x a) as [i|] eqn:E; [|done].
    apply strstr_length in E as Hl. destruct (segment_drop x i Hx) as (y & Hy & Hyc); [lia|]. rewrite Hy.
    pose proof (count_tokens_rest (y ++ [blank_char])) as Hr. specialize (Hr ltac:(rewrite <- Hy; apply segment_comma; exists y; done) true O).
    destruct (count_tokens true 0 (y ++ [blank_char])) as [[tk b] r]. cbn in Hr. subst r. cbn.
    destruct (Nat.eqb tk 1); [done|]. destruct fuel as [|fuel].
    { exfalso. cbn [segments] in Hf. lia. }
    cbn [present_loop]. assert (strstr [] a = None) as -> by (cbn; rewrite take_nil; rewrite (proj2 (bstr_eqb_neq _ _)); [done|by destruct a]). done.
  - rewrite segments_cons in * by done. rewrite length_app in Hf. cbn [length] in Hf. cbn [existsb present_loop].
    rewrite strstr_comma by done. unfold one_token at 1. destruct (strstr x a) as [i|] eqn:E.
    + apply strstr_length in E as Hl. rewrite drop_app_le by lia.
      destruct (segment_drop x i Hx) as (y & Hy & Hyc); [lia|].
      rewrite count_tokens_comma by (rewrite Hy; apply segment_comma; exists y; done). rewrite Hy.
      pose proof (count_tokens_blank y Hyc true O) as Hb. destruct (count_tokens true 0 (y ++ [blank_char])) as [[tk b] r]. cbn in Hb |- *. subst b.
      destruct (Nat.eqb tk 1); [done|]. rewrite present_loop_comma. cbn [orb]. apply IH; [done|lia].
    + cbn [orb]. specialize (IH (S fuel) Hs ltac:(lia)). cbn [present_loop] in IH. destruct (strstr (segments (x' :: xs)) a) as [j|]; cbn [fmap option_fmap option_map]; [|done].
      rewrite drop_app_ge by lia. by replace (length x + 1 + j - length x)%nat with (S j) by lia.
Qed.

Lemma strstr_segments xs : xs <> [] -> Forall segment xs ->
  match strstr (segments xs) a with Some _ => true | None => false end = existsb (fun x => match strstr x a with Some _ => true | None => false end) xs.
Proof using Hcomma Hne.
  intros Hn Hs. induction Hs as [|x xs Hx Hs IH]; [done|]. destruct xs as [|x' xs]; [cbn; by destruct (strstr x a)|].
  rewrite segments_cons, strstr_comma by (done || by apply segment_comma). cbn [existsb] in *.
  destruct (strstr x a); [done|]. rewrite <- IH by done. by destruct (strstr _ _).
Qed.
End present.

(** What [tablePresent] asks of a segment. *)
Definition in_segment (a x : bstr) : bool :=
  if Nat.eqb (count_tokens true O a).1.1 2 then match strstr x a with Some _ => true | None => false end else one_token a x.

Definition head_segment (a : bstr) : bstr := lit "from  " ++ a ++ [blank_char].
Definition next_segment (a : bstr) : bstr := blank_char :: a ++ [blank_char].

Definition from_segments (ts : list bstr) : list bstr :=
  match ts with [] => [lit "from "] | a :: ts' => head_segment a :: map next_segment ts' end.

(** The [from] clause of a list of aliases. *)
Definition from_of (ts : list bstr) : bstr := segments (from_segments ts).

Lemma segments_snoc xs x : xs <> [] -> segments (xs ++ [x]) = segments xs ++ comma :: x.
Proof.
  induction xs as [|y xs IH]; intros H; [done|]. destruct xs as [|z xs]; [done|]. 
  change ((y :: z :: xs) ++ [x]) with (y :: ((z :: xs) ++ [x])). rewrite segments_cons by done. rewrite IH by done.
  rewrite (segments_cons y (z :: xs)) by done. by rewrite <- app_assoc.
Qed.

Lemma from_of_snoc ts a : ts <> [] -> from_of (ts ++ [a]) = from_of ts ++ comma :: next_segment a.
Proof.
  intros H. destruct ts as [|b ts]; [done|]. unfold from_of. cbn [app from_segments]. rewrite map_app. cbn [map].
  change (head_segment b :: map next_segment ts ++ [next_segment a]) with ((head_segment b :: map next_segment ts) ++ [next_segment a]).
  by rewrite segments_snoc.
Qed.

(** ** Schemas the search can rely on *)

Definition aliases (sc : schema) : list bstr := map tableAlias (Tables sc).

(** [b] in a [from] clause is taken for [a]. *)
Definition taken_for (a b : bstr) : bool := in_segment a (next_segment b).

Definition alias_ok (all : list bstr) (a : bstr) : bool :=
  negb (is_any_of a comma) && negb (bstr_eqb a []) && (length a <? MAX_TSQL)%nat && negb (in_segment a (lit "from ")) &&
  taken_for a a && forallb (fun b => Bool.eqb (in_segment a (head_segment b)) (taken_for a b)) all.

Definition link_ok (sc : schema) (l : tLink) : bool :=
  (table1 l <? length (Tables sc))%nat && (table2 l <? length (Tables sc))%nat && (length (connectingSQL l) <? MAX_TSQL)%nat.

(** The links join tables, nothing is longer than its buffer, and [tablePresent] sees the
    aliases of the tables. *)
Definition schema_ok (sc : schema) : bool :=
  (length (Tables sc) <=? MAX_LINKS_TABLES_OR_COLUMNS)%nat && forallb (link_ok sc) (Links sc) &&
  forallb (alias_ok (aliases sc)) (aliases sc).

Lemma icat_schema_ok : schema_ok icatGeneralQuerySetup = true.
Proof. vm_compute. reflexivity. Qed.

(** The tables of the catalog that [tablePresent] takes for another one, whose name they begin with. *)
Definition mistaken : list (bstr * bstr) :=
  [(lit "R_SERVER_LOAD", lit "R_SERVER_LOAD_DIGEST"); (lit "R_RULE_DVM", lit "R_RULE_DVM_MAP"); (lit "R_RULE_FNM", lit "R_RULE_FNM_MAP")].

Lemma icat_mistaken a b :
  a ∈ aliases icatGeneralQuerySetup -> b ∈ aliases icatGeneralQuerySetup ->
  taken_for a b = true <-> a = b \/ (a, b) ∈ mistaken.
Proof.
  enough (forallb (fun a => forallb (fun b => Bool.eqb (taken_for a b) (bool_decide (a = b \/ (a, b) ∈ mistaken)))
            (aliases icatGeneralQuerySetup)) (aliases icatGeneralQuerySetup) = true) as H.
  { intros Ha%list_elem_of_In Hb%list_elem_of_In. rewrite forallb_forall in H. specialize (H a Ha). rewrite forallb_forall in H.
    rewrite (Bool.eqb_prop _ _ (H b Hb)). apply bool_decide_eq_true. }
  vm_compute. reflexivity.
Qed.

Section schema.
Variable sc : schema.
Hypothesis Hsc : schema_ok sc = true.

Lemma schema_facts :
  (length (Tables sc) <= MAX_LINKS_TABLES_OR_COLUMNS)%nat /\
  (forall l, l ∈ Links sc -> (table1 l < length (Tables sc))%nat /\ (table2 l < length (Tables sc))%nat /\ (length (connectingSQL l) < MAX_TSQL)%nat) /\
  (forall a, a ∈ aliases sc -> alias_ok (aliases sc) a = true).
Proof using Hsc.
  unfold schema_ok in Hsc. rewrite !andb_true_iff, !forallb_forall in Hsc. destruct Hsc as [[H1 H2] H3]. split_and!.
  - by apply Nat.leb_le.
  - intros l Hl%list_elem_of_In%H2. unfold link_ok in Hl. rewrite !andb_true_iff, !Nat.ltb_lt in Hl. tauto.
  - intros a Ha. by apply H3, list_elem_of_In.
Qed.

Lemma alias_facts a : a ∈ aliases sc ->
  (comma ∉ a) /\ a <> [] /\ (length a < MAX_TSQL)%nat /\ in_segment a (lit "from ") = false /\
  taken_for a a = true /\ forall b, b ∈ aliases sc -> in_segment a (head_segment b) = taken_for a b.
Proof using Hsc.
  intros Ha. destruct schema_facts as (_ & _ & H). apply H in Ha. unfold alias_ok in Ha.
  rewrite !andb_true_iff, !negb_true_iff, forallb_forall, Nat.ltb_lt in Ha. destruct Ha as [[[[[H1 H2] H3] H4] H5] H6].
  split_and!; [by apply is_any_of_false|by apply bstr_eqb_neq|done..|]. intros b Hb. apply list_elem_of_In, H6 in Hb.
  by apply Bool.eqb_prop.
Qed.

Lemma alias_segment b : b ∈ aliases sc -> segment (head_segment b) /\ segment (next_segment b).
Proof using Hsc.
  intros Hb. destruct (alias_facts b Hb) as (Hc & _). split.
  - exists (lit "from  " ++ b). unfold head_segment. rewrite <- app_assoc. split; [done|]. rewrite not_elem_of_app. split; [by_evaluation|done].
  - exists (blank_char :: b). split; [done|]. by apply not_elem_of_cons.
Qed.

Lemma from_segments_ok ts : Forall (fun b => b ∈ aliases sc) ts -> Forall segment (from_segments ts).
Proof using Hsc.
  destruct 1 as [|b ts Hb Hts]; cbn [from_segments].
  - constructor; [|constructor]. exists (lit "from"). split; [done|by_evaluation].
  - constructor; [by apply alias_segment|]. apply Forall_map. eapply Forall_impl; [exact Hts|]. intros x Hx. by apply alias_segment.
Qed.

(** [tablePresent] looks for a table of the clause that is taken for the one asked for. *)
Lemma tablePresent_from a ts :
  a ∈ aliases sc -> Forall (fun b => b ∈ aliases sc) ts -> tablePresent a (from_of ts) = existsb (taken_for a) ts.
Proof using Hsc.
  intros Ha Hts. destruct (alias_facts a Ha) as (Hc & Hn & _ & Hf & _ & Hb). pose proof (from_segments_ok ts Hts) as Hs.
  assert (existsb (in_segment a) (from_segments ts) = existsb (taken_for a) ts) as <-.
  { destruct Hts as [|b ts Hb1 Hts]; cbn [from_segments existsb]; [by rewrite Hf|]. rewrite (Hb b Hb1). f_equal.
    clear. induction ts as [|x ts IH]; [done|]. cbn [map existsb]. by rewrite IH. }
  unfold tablePresent. pose proof (strstr_segments a Hc Hn (from_segments ts) ltac:(by destruct ts) Hs) as He.
  fold (from_of ts) in He. unfold in_segment.
  destruct (Nat.eqb (count_tokens true O a).1.1 2) eqn:Et.
  - destruct (strstr (from_of ts) a); [|done]. destruct (count_tokens true 0 a) as [[tk ?] ?]. cbn in Et. by rewrite Et.
  - pose proof (present_segments a Hc Hn (from_segments ts) (S (length (from_of ts))) Hs ltac:(unfold from_of; lia)) as Hp. fold (from_of ts) in Hp.
    destruct (strstr (from_of ts) a) eqn:Es.
    + destruct (count_tokens true 0 a) as [[tk ?] ?]. cbn in Et. by rewrite Et, Hp.
    + cbn [present_loop] in Hp. rewrite Es in Hp. injection Hp as Hp. exact Hp.
Qed.
End schema.

(** ** The search *)

(** No part of a clause was left out for lack of space. *)
Definition fits (s : sql) : Prop :=
  Z.of_nat (length (whereSQL s)) + Z.of_nat MAX_TSQL <= MAX_SQL_SIZE_GQ /\
  Z.of_nat (length (fromSQL s)) + Z.of_nat MAX_TSQL <= MAX_SQL_SIZE_GQ.

Definition grows (s s' : sql) : Prop := whereSQL s `prefix_of` whereSQL s' /\ fromSQL s `prefix_of` fromSQL s'.

#[export] Instance grows_preorder : PreOrder grows.
Proof. split; [by split|]. intros s1 s2 s3 [H1 H2] [H3 H4]. split; by etrans. Qed.

Lemma fits_grows s s' : grows s s' -> fits s' -> fits s.
Proof. intros [H1%prefix_length H2%prefix_length] [H3 H4]. unfold fits. lia. Qed.

(** A step that adds text, and stops only for lack of space. *)
Definition text_step (m : step) : Prop := forall s,
  let '(s', r) := m s in
  flags s' = flags s /\ nToFind s' = nToFind s /\ grows s s' /\ (fits s' -> r = None).

Lemma text_then m n : text_step m -> text_step n -> text_step (m >>> n).
Proof.
  intros Hm Hn s. unfold then_. specialize (Hm s). destruct (m s) as [s1 [c|]].
  - destruct Hm as (? & ? & ? & Hf). by split_and!.
  - destruct Hm as (F1 & N1 & G1 & _). specialize (Hn s1). destruct (n s1) as [s2 r]. destruct Hn as (F2 & N2 & G2 & Hf).
    split_and!; [congruence|congruence|by etrans|done].
Qed.

Lemma rstrcat_step dest t r : rstrcat dest t MAX_SQL_SIZE_GQ = Some r -> r = dest ++ t.
Proof. unfold rstrcat. destruct (_ <=? _); [done|]. by intros [= <-]. Qed.

Lemma rstrcat_full dest t : (length t < MAX_TSQL)%nat -> rstrcat dest t MAX_SQL_SIZE_GQ = None ->
  ~ Z.of_nat (length dest) + Z.of_nat MAX_TSQL <= MAX_SQL_SIZE_GQ.
Proof. unfold rstrcat. intros Ht. destruct (_ <=? _) eqn:E; [|done]. apply Z.leb_le in E. lia. Qed.

Lemma text_cat_where t : (length t < MAX_TSQL)%nat -> text_step (cat_where t).
Proof.
  intros Ht s. unfold cat_where. destruct (rstrcat (whereSQL s) t MAX_SQL_SIZE_GQ) as [w|] eqn:E.
  - apply rstrcat_step in E as ->. split_and!; try done. split; [by apply prefix_app_r|done].
  - split_and!; try done. intros [H _]. by apply rstrcat_full in E.
Qed.

Lemma text_cat_from t : (length t < MAX_TSQL)%nat -> text_step (cat_from t).
Proof.
  intros Ht s. unfold cat_from. destruct (rstrcat (fromSQL s) t MAX_SQL_SIZE_GQ) as [w|] eqn:E.
  - apply rstrcat_step in E as ->. split_and!; try done. split; [done|by apply prefix_app_r].
  - split_and!; try done. intros [_ H]. by apply rstrcat_full in E.
Qed.

Lemma text_cat_and : text_step cat_and.
Proof. intros s. unfold cat_and. destruct (6 <? _); [apply text_cat_where; unfold MAX_TSQL; simpl; lia|]. by split_and!. Qed.

Lemma text_add_from a : (length a < MAX_TSQL)%nat -> text_step (add_from a).
Proof.
  intros Ha s. unfold add_from. destruct (tablePresent a (fromSQL s)); [by split_and!|].
  revert s. change (text_step (cat_from (lit ", ") >>> cat_from a >>> cat_from (lit " "))).
  repeat apply text_then; apply text_cat_from; done || (unfold MAX_TSQL; simpl; lia).
Qed.

Section soundness.
Variable sc : schema.
Hypothesis Hsc : schema_ok sc = true.

Lemma table_alias t : (t < length (Tables sc))%nat -> tableAlias (table_at sc t) ∈ aliases sc.
Proof.
  intros Ht. unfold table_at. destruct (lookup_lt_is_Some_2 _ _ Ht) as [x Hx]. rewrite Hx. cbn.
  unfold aliases. apply list_elem_of_In, in_map, list_elem_of_In. by apply list_elem_of_lookup_2 in Hx.
Qed.

Lemma text_use_link l : l ∈ Links sc -> text_step (use_link sc l).
Proof using Hsc.
  intros Hl. destruct (schema_facts sc Hsc) as (_ & H & _). destruct (H l Hl) as (H1 & H2 & H3).
  unfold use_link. apply text_then; [apply text_cat_and|]. apply text_then; [by apply text_cat_where|].
  apply text_then; [apply text_cat_where; unfold MAX_TSQL; simpl; lia|].
  apply text_then; apply text_add_from; apply (alias_facts sc Hsc); by apply table_alias.
Qed.

(** Each entry of [links_of] is a link of the table and the table it leads to. *)
Definition joins (l : tLink) (x y : nat) : Prop := (table1 l = x /\ table2 l = y) \/ (table1 l = y /\ table2 l = x).

Lemma links_of_link table link i t l : (i, t, l) ∈ links_of sc table link -> l ∈ Links sc /\ joins l table t.
Proof.
  unfold links_of. rewrite elem_of_app, !list_elem_of_omap. intros [([j k] & Hin & He)|([j k] & Hin & He)].
  all: unfold forward, backward in He; cbn in He; apply elem_of_zip_r in Hin.
  all: destruct (Nat.eqb _ table) eqn:E; [|done]; cbn in He; destruct (negb _); [|done]; injection He as <- <- <-.
  all: apply Nat.eqb_eq in E; split; [done|]; unfold joins; tauto.
Qed.

(** *** Termination *)

Definition undone (fl : list Z) : nat := length (List.filter (fun z => negb (z =? 3)) fl).

Lemma undone_set fl t z z' : fl !! t = Some z -> z <> 3 ->
  undone (<[t := z']> fl) = (if decide (z' = 3) then pred (undone fl) else undone fl).
Proof.
  revert t. induction fl as [|y fl IH]; intros [|t] H Hz; simplify_eq/=; unfold undone in *; cbn [List.filter].
  - rewrite (proj2 (Z.eqb_neq z 3) Hz). cbn. case_decide as E; [by rewrite E|]. by rewrite (proj2 (Z.eqb_neq z' 3) E).
  - specialize (IH t H Hz). assert (In z (List.filter (fun z => negb (z =? 3)) fl)) as Hin.
    { apply filter_In. split; [apply list_elem_of_In; by apply list_elem_of_lookup_2 in H|]. by rewrite (proj2 (Z.eqb_neq z 3) Hz). }
    destruct (negb (y =? 3)); cbn [length]; rewrite IH; [|done]. case_decide; [|done].
    destruct (List.filter _ fl); [done|]. simpl. lia.
Qed.

Lemma flag_set s t z x : (t < length (flags s))%nat -> flag (set_flag t z s) x = if decide (x = t) then z else flag s x.
Proof.
  intros Ht. unfold flag, set_flag. cbn. case_decide as E; [subst; by rewrite list_lookup_insert_eq|].
  by rewrite list_lookup_insert_ne.
Qed.

Definition ready (s : sql) : Prop := length (flags s) = MAX_LINKS_TABLES_OR_COLUMNS.

(** What a call does to the state, whatever it finds. *)
Definition scanned (s : sql) (r : option (sql * Z)) : Prop :=
  exists s' k, r = Some (s', k) /\ ready s' /\ (undone (flags s') <= undone (flags s))%nat /\ grows s s'.

Lemma try_links_total scan ls : Forall (fun p => p.2 ∈ Links sc) ls -> forall u,
  (forall t link s, ready s -> (undone (flags s) <= u)%nat -> scanned s (scan t link s)) ->
  forall k s, ready s -> (undone (flags s) <= u)%nat -> scanned s (try_links sc scan ls k s).
Proof using Hsc.
  intros Hls u Hscan. induction Hls as [|[[i t] l] ls Hl Hls IH]; intros k s Hr Hu; cbn [try_links].
  { exists s, k. by split_and!. }
  destruct (Hscan t (Some i) s Hr Hu) as (s1 & k1 & -> & Hr1 & Hu1 & Hg1). cbn [mbind option_bind].
  destruct (k1 =? 0).
  { destruct (IH k s1 Hr1 ltac:(lia)) as (s2 & k2 & -> & ? & ? & ?). exists s2, k2. split_and!; [done|done|lia|by etrans]. }
  pose proof (text_use_link l Hl s1) as Ht. destruct (use_link sc l s1) as [s2 r]. destruct Ht as (Hf & _ & Hg2 & _).
  assert (ready s2) as Hr2 by (unfold ready; by rewrite Hf). rewrite <- Hf in Hu1.
  destruct r as [c|]; [exists s2, c; split_and!; [done..|by etrans]|].
  destruct (nToFind s2 <=? 0); [exists s2, 1; split_and!; [done..|by etrans]|].
  destruct (IH 1 s2 Hr2 ltac:(lia)) as (s3 & k3 & -> & ? & ? & ?). exists s3, k3. split_and!; [done|done|lia|]. etrans; [|done]. by etrans.
Qed.

Lemma links_of_all table link : Forall (fun p => p.2 ∈ Links sc) (links_of sc table link).
Proof. apply Forall_forall. intros [[i t] l] H. by apply links_of_link in H as [? _]. Qed.

(** Enough fuel gives a result: every level of the recursion finishes one more table. *)
Lemma tScan_total fuel : forall t link s, ready s -> (undone (flags s) < fuel)%nat -> scanned s (tScan sc fuel t link s).
Proof using Hsc.
  induction fuel as [|fuel IH]; intros t link s Hr Hu; [lia|]. cbn [tScan].
  destruct (Nat.leb_spec MAX_LINKS_TABLES_OR_COLUMNS t) as [Ht|Ht]; [exists s, (-1); by split_and!|].
  assert (t < length (flags s))%nat as Htl by (by rewrite Hr).
  destruct (lookup_lt_is_Some_2 _ _ Htl) as [z Hz]. assert (flag s t = z) as Hfl by (unfold flag; by rewrite Hz).
  assert (forall k s1, ready s1 -> flags s1 !! t <> Some 3 -> grows s s1 -> undone (flags s1) = undone (flags s) ->
    scanned s (if cycler (table_at sc t) =? 1 then Some (s1, k) else try_links sc (tScan sc fuel) (links_of sc t link) k (set_flag t 3 s1))) as Hrest.
  { intros k s1 Hr1 H3 Hg1 Hu1. destruct (cycler _ =? 1); [exists s1, k; split_and!; [done..|lia|done]|].
    assert (t < length (flags s1))%nat as Htl1 by (by rewrite Hr1). destruct (lookup_lt_is_Some_2 _ _ Htl1) as [z1 Hz1].
    assert (undone (flags (set_flag t 3 s1)) = pred (undone (flags s1))) as Hu3.
    { change (flags (set_flag t 3 s1)) with (<[t := 3]> (flags s1)).
      rewrite (undone_set _ t z1) by (done || congruence). by rewrite decide_True. }
    assert (0 < undone (flags s1))%nat as Hpos.
    { unfold undone. destruct (List.filter _ (flags s1)) eqn:E; [|simpl; lia]. exfalso.
      assert (In z1 []) as []. rewrite <- E. apply filter_In. split; [apply list_elem_of_In; by apply list_elem_of_lookup_2 in Hz1|].
      apply negb_true_iff, Z.eqb_neq. congruence. }
    destruct (try_links_total (tScan sc fuel) (links_of sc t link) (links_of_all t link) (pred (undone (flags s1)))) with (k := k) (s := set_flag t 3 s1)
      as (s2 & k2 & -> & Hr2 & Hu2 & Hg2).
    - intros t' link' s' Hr' Hu'. apply IH; [done|lia].
    - unfold ready. cbn. by rewrite length_insert.
    - lia.
    - exists s2, k2. split_and!; [done|done|lia|]. etrans; [exact Hg1|exact Hg2]. }
  rewrite Hfl. destruct (z =? 1) eqn:E1.
  - apply Z.eqb_eq in E1 as ->. cbn zeta.
    assert (undone (<[t := 2]> (flags s)) = undone (flags s)) as Hu2 by (rewrite (undone_set _ t 1) by done; by rewrite decide_False).
    destruct (_ <=? 0).
    + exists (set_toFind (nToFind (set_flag t 2 s) - 1) (set_flag t 2 s)), 1. split_and!; [done| |exact (Nat.eq_le_incl _ _ Hu2)|done].
      unfold ready. cbn. by rewrite length_insert.
    + apply Hrest; [unfold ready; cbn; by rewrite length_insert| |done|done]. cbn. by rewrite list_lookup_insert_eq.
  - destruct (negb (z =? 0)) eqn:E0; [exists s, 0; by split_and!|]. apply negb_false_iff, Z.eqb_eq in E0 as ->. apply Hrest; try done. by rewrite Hz.
Qed.
(** *** What is found *)

(** The [where] clause with the condition of a link behind it. *)
Definition join_where (w : bstr) (l : tLink) : bstr :=
  (if 6 <? Z.of_nat (length w) then w ++ lit " AND " else w) ++ connectingSQL l ++ lit " ".
Definition join_all (w : bstr) (used : list tLink) : bstr := foldl join_where w used.

(** Two tables that one of the links joins, and those that a chain of them joins. *)
Definition joined (used : list tLink) : nat -> nat -> Prop := rtc (fun x y => exists l, l ∈ used /\ joins l x y).

(** A table is in a list of aliases, or one that is taken for it. *)
Definition listed (ts : list bstr) (t : nat) : Prop := existsb (taken_for (tableAlias (table_at sc t))) ts = true.

Definition needed (s : sql) : Z := Z.of_nat (length (List.filter (Z.eqb 1) (flags s))).

Lemma cat_where_fits t s : fits (cat_where t s).1 -> (length t < MAX_TSQL)%nat -> cat_where t s = (set_where (whereSQL s ++ t) s, None).
Proof.
  intros Hf Ht. pose proof (text_cat_where t Ht s) as H. unfold cat_where in *.
  destruct (rstrcat (whereSQL s) t MAX_SQL_SIZE_GQ) as [w|] eqn:E; [by apply rstrcat_step in E as ->|].
  destruct H as (_ & _ & _ & H). by specialize (H Hf).
Qed.

Lemma cat_from_fits t s : fits (cat_from t s).1 -> (length t < MAX_TSQL)%nat -> cat_from t s = (set_from (fromSQL s ++ t) s, None).
Proof.
  intros Hf Ht. pose proof (text_cat_from t Ht s) as H. unfold cat_from in *.
  destruct (rstrcat (fromSQL s) t MAX_SQL_SIZE_GQ) as [w|] eqn:E; [by apply rstrcat_step in E as ->|].
  destruct H as (_ & _ & _ & H). by specialize (H Hf).
Qed.

Lemma then_fits m n s : text_step m -> text_step n -> fits ((m >>> n) s).1 ->
  fits (m s).1 /\ (m >>> n) s = n (m s).1 /\ fits (n (m s).1).1.
Proof.
  intros Hm Hn. unfold then_. specialize (Hm s). destruct (m s) as [s1 [c|]]; cbn [fst].
  - destruct Hm as (_ & _ & _ & H). intros Hf. by specialize (H Hf).
  - specialize (Hn s1). destruct (n s1) as [s2 r]. destruct Hn as (_ & _ & G & _). cbn. intros Hf. split_and!; [by eapply fits_grows|done|done].
Qed.

Lemma short_lit (x : string) : (String.length x < 20)%nat -> (length (lit x) < MAX_TSQL)%nat.
Proof. intros H. assert (length (lit x) = String.length x) as -> by (induction x; simpl in *; [done|]; by rewrite IHx by lia). unfold MAX_TSQL. lia. Qed.

(** A short text. *)
Ltac short := first [done | apply short_lit; simpl; lia].

Lemma add_from_fits a ts s :
  a ∈ aliases sc -> Forall (fun b => b ∈ aliases sc) ts -> ts <> [] -> fromSQL s = from_of ts -> fits (add_from a s).1 ->
  exists new, add_from a s = (set_from (from_of (ts ++ new)) s, None) /\ Forall (fun b => b ∈ aliases sc) (ts ++ new) /\
    existsb (taken_for a) (ts ++ new) = true.
Proof using Hsc.
  intros Ha Hts Hne Hs. unfold add_from. rewrite Hs, (tablePresent_from sc Hsc) by done.
  destruct (alias_facts sc Hsc a Ha) as (_ & _ & Hla & _ & Hself & _).
  destruct (existsb (taken_for a) ts) eqn:E.
  { intros _. exists []. rewrite app_nil_r. split_and!; [|done|done]. rewrite <- Hs. by destruct s. }
  intros Hf. exists [a]. rewrite (from_of_snoc ts a Hne), existsb_app. cbn [existsb]. rewrite Hself, orb_true_r. split_and!; [|apply Forall_app; split; [done|by repeat constructor]|done].
  apply then_fits in Hf as (Hf1 & -> & Hf).
  2: apply text_cat_from; short.
  2: apply text_then; apply text_cat_from; short.
  rewrite (cat_from_fits _ s) in * by short. cbn [fst] in *.
  apply then_fits in Hf as (Hf2 & -> & Hf).
  2: by apply text_cat_from.
  2: apply text_cat_from; short.
  rewrite (cat_from_fits a) in * by done. cbn [fst] in *. rewrite cat_from_fits by short.
  cbn. rewrite Hs, <- !app_assoc. done.
Qed.

(** A link that is used adds its condition, and its tables where they are not there. *)
Lemma use_link_fits l ts s :
  l ∈ Links sc -> Forall (fun b => b ∈ aliases sc) ts -> ts <> [] -> fromSQL s = from_of ts -> fits (use_link sc l s).1 ->
  exists new, use_link sc l s = (set_where (join_where (whereSQL s) l) (set_from (from_of (ts ++ new)) s), None) /\
    Forall (fun b => b ∈ aliases sc) (ts ++ new) /\ listed (ts ++ new) (table1 l) /\ listed (ts ++ new) (table2 l).
Proof using Hsc.
  intros Hl Hts Hne Hs. destruct (schema_facts sc Hsc) as (_ & H & _). destruct (H l Hl) as (H1%table_alias & H2%table_alias & H3).
  pose proof (alias_facts sc Hsc _ H1) as (_ & _ & L1 & _). pose proof (alias_facts sc Hsc _ H2) as (_ & _ & L2 & _).
  assert (length (lit " ") < MAX_TSQL)%nat as Lb by short.
  assert (text_step (add_from (tableAlias (table_at sc (table2 l))) >>> add_from (tableAlias (table_at sc (table1 l))))) as T3
    by (by apply text_then; apply text_add_from).
  assert (text_step (cat_where (lit " ") >>> add_from (tableAlias (table_at sc (table2 l))) >>> add_from (tableAlias (table_at sc (table1 l))))) as T2
    by (apply text_then; [by apply text_cat_where|done]).
  unfold use_link. intros Hf. apply then_fits in Hf as (Hf1 & -> & Hf); [|apply text_cat_and|by apply text_then; [apply text_cat_where|]].
  assert ((cat_and s).1 = set_where (if 6 <? Z.of_nat (length (whereSQL s)) then whereSQL s ++ lit " AND " else whereSQL s) s) as Ea.
  { unfold cat_and in *. destruct (6 <? _); [by rewrite cat_where_fits by short|by destruct s]. }
  rewrite Ea in *. clear Ea Hf1. set (w := if 6 <? _ then _ else _) in *.
  apply then_fits in Hf as (Hf1 & -> & Hf); [|by apply text_cat_where|done].
  rewrite (cat_where_fits (connectingSQL l)) in * by done. cbn [fst] in *.
  apply then_fits in Hf as (Hf2 & -> & Hf); [|by apply text_cat_where|done].
  rewrite (cat_where_fits (lit " ")) in * by done. cbn [fst] in *.
  apply then_fits in Hf as (Hf3 & -> & Hf); [|by apply text_add_from..].
  match type of Hf3 with fits (add_from ?a ?s2).1 => destruct (add_from_fits a ts s2 H2 Hts Hne Hs Hf3) as (n1 & E1 & Hn1 & P1) end.
  rewrite E1 in *. cbn [fst] in *.
  assert (ts ++ n1 <> []) as Hne1 by (by destruct ts).
  match type of Hf with fits (add_from ?a ?s2).1 => destruct (add_from_fits a (ts ++ n1) s2 H1 Hn1 Hne1 eq_refl Hf) as (n2 & E2 & Hn2 & P2) end.
  exists (n1 ++ n2). rewrite E2, app_assoc. split_and!; [|done|done|].
  - unfold join_where. fold w. rewrite app_assoc. done.
  - unfold listed. by rewrite existsb_app, P1.
Qed.
Lemma needed_set s t z : (t < length (flags s))%nat -> z <> 1 ->
  needed (set_flag t z s) = needed s - (if flag s t =? 1 then 1 else 0).
Proof.
  unfold needed, flag. change (flags (set_flag t z s)) with (<[t := z]> (flags s)). intros Ht Hz. revert t Ht.
  induction (flags s) as [|y fl IH]; intros [|t] Ht; cbn [length] in Ht; try lia.
  - change (<[O := z]> (y :: fl)) with (z :: fl). change (default 0 ((y :: fl) !! O)) with y. cbn [List.filter].
    rewrite (proj2 (Z.eqb_neq 1 z)) by congruence. rewrite (Z.eqb_sym y 1). destruct (1 =? y); cbn [length]; lia.
  - specialize (IH t ltac:(lia)). change (<[S t := z]> (y :: fl)) with (y :: <[t := z]> fl). change ((y :: fl) !! S t) with (fl !! t).
    cbn [List.filter]. destruct (1 =? y); cbn [length]; rewrite ?Nat2Z.inj_succ, IH; unfold Z.succ; ring.
Qed.

(** From [s] to [s'] the search has used the links [used] behind the list [ts] of tables; every
    table that was found is joined to [t] by them. *)
Record found (s s' : sql) (t : nat) (k : Z) (ts : list bstr) (used : list tLink) : Prop := Found {
  f_links : Forall (fun l => l ∈ Links sc) used;
  f_where : whereSQL s' = join_all (whereSQL s) used;
  f_from : exists new, fromSQL s' = from_of (ts ++ new) /\ Forall (fun b => b ∈ aliases sc) (ts ++ new) /\
             Forall (fun l => listed (ts ++ new) (table1 l) /\ listed (ts ++ new) (table2 l)) used;
  f_joined : forall x, flag s x = 1 -> flag s' x <> 1 -> joined used t x;
  f_kept : forall x, flag s x <> 1 -> flag s' x <> 1;
  f_none : k = 0 -> used = [] /\ forall x, flag s x = 1 -> flag s' x = 1;
  f_code : k = 0 \/ k = 1;
  f_count : nToFind s' - needed s' = nToFind s - needed s
}.

Lemma joined_mono u1 u2 x y : (forall l, l ∈ u1 -> l ∈ u2) -> joined u1 x y -> joined u2 x y.
Proof. intros H. apply rtc_subrel. intros a b (l & Hl & Hj). exists l. split; [by apply H|done]. Qed.

Lemma joined_step l used x y z : l ∈ used -> joins l x y -> joined used y z -> joined used x z.
Proof. intros Hl Hj H. eapply rtc_l; [|exact H]. by exists l. Qed.

Lemma listed_app ts new t : listed ts t -> listed (ts ++ new) t.
Proof. unfold listed. intros H. by rewrite existsb_app, H. Qed.

Lemma listed_mono ts new (used : list tLink) :
  Forall (fun l => listed ts (table1 l) /\ listed ts (table2 l)) used ->
  Forall (fun l => listed (ts ++ new) (table1 l) /\ listed (ts ++ new) (table2 l)) used.
Proof. intros H. eapply Forall_impl; [exact H|]. intros l [H1 H2]. split; by apply listed_app. Qed.

Lemma found_refl s t k ts :
  fromSQL s = from_of ts -> Forall (fun b => b ∈ aliases sc) ts -> k = 0 \/ k = 1 -> found s s t k ts [].
Proof. intros H1 H2 Hk. split; try done. exists []. rewrite app_nil_r. split_and!; try done. Qed.

(** Two searches from the same table, one behind the other. *)
Lemma found_trans s s1 s2 t k1 k2 ts u1 u2 new :
  found s s1 t k1 ts u1 -> fromSQL s1 = from_of (ts ++ new) -> Forall (fun l => listed (ts ++ new) (table1 l) /\ listed (ts ++ new) (table2 l)) u1 ->
  found s1 s2 t k2 (ts ++ new) u2 -> (k2 = 0 -> k1 = 0) -> found s s2 t k2 ts (u1 ++ u2).
Proof.
  intros F1 Hf1 Hl1 F2 Hk. split.
  - apply Forall_app. split; [apply F1|apply F2].
  - unfold join_all. rewrite foldl_app. fold (join_all (whereSQL s) u1). rewrite <- (f_where _ _ _ _ _ _ F1). apply F2.
  - destruct (f_from _ _ _ _ _ _ F2) as (n2 & E & Ha & Hl). exists (new ++ n2). rewrite app_assoc. split_and!; try done.
    apply Forall_app. split; [by apply listed_mono|done].
  - intros x H1 H2. destruct (decide (flag s1 x = 1)) as [E|E].
    + eapply joined_mono; [|by apply (f_joined _ _ _ _ _ _ F2)]. intros l Hl. apply elem_of_app. by right.
    + eapply joined_mono; [|by apply (f_joined _ _ _ _ _ _ F1)]. intros l Hl. apply elem_of_app. by left.
  - intros x Hx. apply (f_kept _ _ _ _ _ _ F2), (f_kept _ _ _ _ _ _ F1), Hx.
  - intros E. destruct (f_none _ _ _ _ _ _ F1 (Hk E)) as [-> H1]. destruct (f_none _ _ _ _ _ _ F2 E) as [-> H2]. split; [done|]. eauto.
  - apply F2.
  - rewrite (f_count _ _ _ _ _ _ F2). apply F1.
Qed.

(** What was found from [t] is found from the table that a link joins to it, once the link is used. *)
Lemma found_link s s1 t0 t k ts u l new :
  found s s1 t k ts u -> l ∈ Links sc -> joins l t0 t -> ts <> [] -> fits (use_link sc l s1).1 -> fromSQL s1 = from_of (ts ++ new) ->
  Forall (fun b => b ∈ aliases sc) (ts ++ new) -> Forall (fun l => listed (ts ++ new) (table1 l) /\ listed (ts ++ new) (table2 l)) u ->
  exists s2 new2, use_link sc l s1 = (s2, None) /\ flags s2 = flags s1 /\ found s s2 t0 1 ts (u ++ [l]) /\
    fromSQL s2 = from_of (ts ++ new2) /\ Forall (fun b => b ∈ aliases sc) (ts ++ new2) /\
    Forall (fun l => listed (ts ++ new2) (table1 l) /\ listed (ts ++ new2) (table2 l)) (u ++ [l]).
Proof using Hsc.
  intros F Hl Hj Hne Hf Hs Ha Hu. destruct (use_link_fits l (ts ++ new) s1 Hl Ha) as (n2 & -> & Ha2 & L1 & L2); try done; [by destruct ts|].
  rewrite <- app_assoc in *. set (s2 := set_where _ _). exists s2, (new ++ n2).
  assert (Forall (fun l => listed (ts ++ new ++ n2) (table1 l) /\ listed (ts ++ new ++ n2) (table2 l)) (u ++ [l])) as Hul.
  { apply Forall_app. split; [rewrite app_assoc; by apply listed_mono|by repeat constructor]. }
  assert (forall x, flag s2 x = flag s1 x) as Hfl by done.
  split_and!; try done. split.
  - apply Forall_app. split; [apply F|by repeat constructor].
  - unfold join_all. rewrite foldl_app. fold (join_all (whereSQL s) u). by rewrite <- (f_where _ _ _ _ _ _ F).
  - exists (new ++ n2). by split_and!.
  - intros x H1 H2. eapply joined_step; [apply elem_of_app; right; left|exact Hj|].
    eapply joined_mono; [|by apply (f_joined _ _ _ _ _ _ F)]. intros l' Hl'. apply elem_of_app. by left.
  - apply F.
  - done.
  - by right.
  - apply F.
Qed.
(** A search that returns 0 has found nothing, from any table. *)
Lemma found_nothing s s' t t' k ts used : found s s' t 0 ts used -> k = 0 \/ k = 1 -> found s s' t' k ts used.
Proof.
  intros F Hk. destruct (f_none _ _ _ _ _ _ F eq_refl) as [-> H]. split; try apply F; try done.
  intros x H1 H2. by apply H in H1.
Qed.

(** [tScan] up to a number of tables that are not done. *)
Definition scan_spec (u : nat) (scan : nat -> option nat -> sql -> option (sql * Z)) : Prop :=
  forall t link s, ready s -> (undone (flags s) <= u)%nat ->
    scanned s (scan t link s) /\
    forall ts s' k, (t < length (Tables sc))%nat -> fromSQL s = from_of ts -> Forall (fun b => b ∈ aliases sc) ts -> ts <> [] ->
      scan t link s = Some (s', k) -> fits s' -> exists used, found s s' t k ts used.

Lemma try_links_found u scan t0 ls : scan_spec u scan ->
  Forall (fun p => p.2 ∈ Links sc /\ joins p.2 t0 p.1.2) ls ->
  forall k0 s0 s ts u0 s' k, found s0 s t0 k0 ts u0 -> ts <> [] -> ready s -> (undone (flags s) <= u)%nat ->
    try_links sc scan ls k0 s = Some (s', k) -> fits s' -> exists used, found s0 s' t0 k ts used.
Proof using Hsc.
  intros Hscan Hls. induction Hls as [|[[i t] l] ls [Hl Hj] Hls IH]; intros k0 s0 s ts u0 s' k F Hne Hr Hu; cbn [try_links].
  { intros [= <- <-] _. by exists u0. }
  cbn in Hl, Hj. destruct (f_from _ _ _ _ _ _ F) as (new & Efr & Hal & Hul).
  assert (ts ++ new <> []) as Hne' by (by destruct ts).
  assert (t < length (Tables sc))%nat as Ht.
  { destruct (schema_facts sc Hsc) as (_ & H & _). destruct (H l Hl) as (? & ? & _). destruct Hj as [[_ <-]|[<- _]]; done. }
  destruct (Hscan t (Some i) s Hr Hu) as ((s1 & k1 & E1 & Hr1 & Hu1 & Hg1) & Hfound). rewrite E1. cbn [mbind option_bind].
  specialize (Hfound (ts ++ new) s1 k1 Ht Efr Hal Hne' E1).
  assert (Forall (fun p => p.2 ∈ Links sc) ls) as Hls' by (eapply Forall_impl; [exact Hls|]; intros p Hp; apply Hp).
  pose proof (try_links_total scan ls Hls' u (fun t link s Hr Hu => proj1 (Hscan t link s Hr Hu))) as Htot.
  destruct (k1 =? 0) eqn:Ek1.
  - apply Z.eqb_eq in Ek1 as ->. intros E Hf. destruct (Htot k0 s1 Hr1 ltac:(lia)) as (s'' & k'' & E'' & _ & _ & Hg).
    rewrite E'' in E. injection E as -> ->. destruct Hfound as [u1 F1]; [by eapply fits_grows|].
    assert (found s0 s1 t0 k0 ts (u0 ++ u1)) as F01.
    { eapply found_trans; [exact F|exact Efr|exact Hul| |done]. eapply found_nothing; [exact F1|apply F]. }
    eapply IH; [exact F01|done|done|lia|exact E''|done].
  - pose proof (text_use_link l Hl s1) as Hul1. destruct (use_link sc l s1) as [s2 r] eqn:E2. destruct Hul1 as (Hfl & Hnf & Hg2 & Hfit).
    assert (ready s2) as Hr2 by (unfold ready; by rewrite Hfl).
    intros E Hf. assert (fits s2) as Hf2.
    { destruct r as [c|]; [by injection E as -> _|]. destruct (nToFind s2 <=? 0); [by injection E as -> _|].
      destruct (Htot 1 s2 Hr2) as (s'' & k'' & E'' & _ & _ & Hg); [rewrite Hfl; lia|]. rewrite E'' in E. injection E as -> ->.
      by eapply fits_grows. }
    rewrite (Hfit Hf2) in E, E2. destruct Hfound as [u1 F1]; [by eapply fits_grows|].
    assert (k1 = 1) as ->. { destruct (f_code _ _ _ _ _ _ F1) as [->| ->]; [done|done]. }
    destruct (f_from _ _ _ _ _ _ F1) as (n1 & Efr1 & Hal1 & Hul1).
    destruct (found_link s s1 t0 t 1 (ts ++ new) u1 l n1 F1 Hl Hj Hne') as (s2' & n2 & E2' & _ & F2 & _);
      [by rewrite E2|done|done|done|]. rewrite E2 in E2'. injection E2' as <-.
    assert (found s0 s2 t0 1 ts (u0 ++ u1 ++ [l])) as F02 by (by eapply found_trans).
    destruct (nToFind s2 <=? 0); [injection E as <- <-; by eexists|].
    eapply IH; [exact F02|done|done|rewrite Hfl; lia|exact E|done].
Qed.

Lemma links_of_joins table link : Forall (fun p => p.2 ∈ Links sc /\ joins p.2 table p.1.2) (links_of sc table link).
Proof. apply Forall_forall. intros [[i t] l] H. by apply links_of_link in H. Qed.

(** A table is marked: found if the query needs it. *)
Lemma found_mark s t z n ts :
  (t < length (flags s))%nat -> z <> 1 -> fromSQL s = from_of ts -> Forall (fun b => b ∈ aliases sc) ts ->
  n = nToFind s - (if flag s t =? 1 then 1 else 0) ->
  found s (set_toFind n (set_flag t z s)) t (if flag s t =? 1 then 1 else 0) ts [].
Proof.
  intros Ht Hz Hs Ha ->. assert (forall x, flag (set_toFind (nToFind s - (if flag s t =? 1 then 1 else 0)) (set_flag t z s)) x =
    if decide (x = t) then z else flag s x) as Hfl by (intros x; by apply (flag_set s t z x)).
  split; try done.
  - exists []. rewrite app_nil_r. by split_and!.
  - intros x H1. rewrite Hfl. case_decide as E; [subst; intros _; apply rtc_refl|done].
  - intros x H1. rewrite Hfl. by case_decide.
  - destruct (flag s t =? 1) eqn:E; [done|]. intros _. split; [done|]. intros x H1. rewrite Hfl. case_decide as Ex; [|done].
    subst. by rewrite H1 in E.
  - destruct (flag s t =? 1); tauto.
  - cbn [nToFind set_toFind]. change (needed (set_toFind _ (set_flag t z s))) with (needed (set_flag t z s)).
    rewrite needed_set by done. lia.
Qed.

(** A table that is done without being found. *)
Lemma found_done s t ts :
  (t < length (flags s))%nat -> flag s t <> 1 -> fromSQL s = from_of ts -> Forall (fun b => b ∈ aliases sc) ts ->
  found s (set_flag t 3 s) t 0 ts [].
Proof.
  intros Ht Hz Hs Ha. pose proof (found_mark s t 3 (nToFind s) ts Ht ltac:(done) Hs Ha) as F.
  rewrite (proj2 (Z.eqb_neq _ _) Hz) in F. specialize (F ltac:(lia)). by destruct s.
Qed.

Lemma undone_pos fl t z : fl !! t = Some z -> z <> 3 -> (0 < undone fl)%nat.
Proof.
  intros H Hz. unfold undone. destruct (List.filter _ fl) eqn:E; [|simpl; lia]. exfalso. assert (In z []) as []. rewrite <- E.
  apply filter_In. split; [apply list_elem_of_In; by apply list_elem_of_lookup_2 in H|]. by apply negb_true_iff, Z.eqb_neq.
Qed.

(** The links of a table that is not done. *)
Lemma scan_rest fuel u t link s0 s ts k0 s' k : (forall u, (u < fuel)%nat -> scan_spec u (tScan sc fuel)) ->
  (u < S fuel)%nat -> ready s -> (undone (flags s) <= u)%nat -> (t < length (flags s))%nat -> flag s t <> 1 -> flag s t <> 3 ->
  fromSQL s = from_of ts -> Forall (fun b => b ∈ aliases sc) ts -> ts <> [] -> found s0 s t k0 ts [] ->
  (if cycler (table_at sc t) =? 1 then Some (s, k0) else try_links sc (tScan sc fuel) (links_of sc t link) k0 (set_flag t 3 s)) = Some (s', k) ->
  fits s' -> exists used, found s0 s' t k ts used.
Proof using Hsc.
  intros IH Hu Hr Hus Ht H1 H3 Hs Ha Hne F. destruct (cycler _ =? 1); [intros [= <- <-] _; by eexists|]. intros E Hf.
  destruct (lookup_lt_is_Some_2 _ _ Ht) as [z Hz]. unfold flag in H1, H3. rewrite Hz in H1, H3. cbn in H1, H3.
  pose proof (undone_pos _ _ _ Hz H3) as Hpos.
  apply (try_links_found (pred (undone (flags s))) (tScan sc fuel) t (links_of sc t link)) with (k0 := k0) (s := set_flag t 3 s) (u0 := []); try done.
  - apply IH. lia.
  - apply links_of_joins.
  - eapply (found_trans s0 s _ t k0 k0 ts [] [] []); [exact F|by rewrite app_nil_r|constructor| |done].
    rewrite app_nil_r. eapply found_nothing; [|apply F]. apply found_done; try done. unfold flag. by rewrite Hz.
  - unfold ready. cbn. by rewrite length_insert.
  - change (flags (set_flag t 3 s)) with (<[t := 3]> (flags s)). rewrite (undone_set _ t z) by done. by rewrite decide_True.
Qed.

Lemma tScan_spec fuel : forall u, (u < fuel)%nat -> scan_spec u (tScan sc fuel).
Proof using Hsc.
  induction fuel as [|fuel IH]; intros u Hu t link s Hr Hus; [lia|]. split; [apply tScan_total; [done|lia]|].
  intros ts s' k Ht Efr Hal Hne. cbn [tScan]. destruct (schema_facts sc Hsc) as (Hmax & _).
  rewrite (proj2 (Nat.leb_gt _ _)) by lia. assert (t < length (flags s))%nat as Htl by (rewrite Hr; lia).
  destruct (flag s t =? 1) eqn:E1.
  - cbv zeta. pose proof (found_mark s t 2 (nToFind s - 1) ts Htl ltac:(done) Efr Hal) as F. rewrite E1 in F. specialize (F eq_refl).
    change (nToFind (set_flag t 2 s)) with (nToFind s). destruct (_ <=? 0); [intros [= <- <-] _; by eexists|].
    set (s1 := set_toFind _ _) in *. assert (flag s1 t = 2) as H2 by (etrans; [exact (flag_set s t 2 t Htl)|by rewrite decide_True]).
    apply scan_rest with (u := u); try done.
    + unfold ready. cbn. by rewrite length_insert.
    + destruct (lookup_lt_is_Some_2 _ _ Htl) as [z Hz]. unfold flag in E1. rewrite Hz in E1. apply Z.eqb_eq in E1. cbn in E1. subst z.
      change (flags s1) with (<[t := 2]> (flags s)). rewrite (undone_set _ t 1) by done. by rewrite decide_False.
    + cbn. by rewrite length_insert.
    + by rewrite H2.
    + by rewrite H2.
  - apply Z.eqb_neq in E1. destruct (flag s t =? 0) eqn:E0; cbn [negb].
    + apply Z.eqb_eq in E0. apply scan_rest with (u := u); try done; [by rewrite E0|]. apply found_refl; [done|done|by left].
    + intros [= <- <-] _. exists []. apply found_refl; [done|done|by left].
Qed.
End soundness.

(** ** The catalog *)

Definition icat : schema := Eval vm_compute in icatGeneralQuerySetup.

Lemma icat_setup : icatGeneralQuerySetup = icat.
Proof. vm_compute. reflexivity. Qed.

Lemma icat_ok : schema_ok icat = true.
Proof. rewrite <- icat_setup. exact icat_schema_ok. Qed.

(** The links of the catalog have no cycle: at most one chain of links, up to the cyclers,
    joins two tables. *)
Lemma icat_acyclic : findCycles icat 0 = Some 0.
Proof. vm_compute. reflexivity. Qed.

Lemma undone_le fl : (undone fl <= length fl)%nat.
Proof. unfold undone. induction fl as [|z fl IH]; [done|]. cbn [List.filter length]. destruct (negb _); cbn [length]; lia. Qed.

(** The search for the links of a query always ends, on any tables whose links join
    tables, whatever the query needs. *)
Theorem tScan_terminates sc t link s :
  schema_ok sc = true -> length (flags s) = MAX_LINKS_TABLES_OR_COLUMNS -> exists s' k, tScan sc scan_fuel t link s = Some (s', k).
Proof.
  intros Hsc Hr. destruct (tScan_total sc Hsc scan_fuel t link s Hr) as (s' & k & E & _).
  - pose proof (undone_le (flags s)). unfold scan_fuel. lia.
  - by exists s', k.
Qed.

Lemma needed_none s x : needed s = 0 -> flag s x <> 1.
Proof.
  unfold needed, flag. intros H Hx. destruct (flags s !! x) as [z|] eqn:E; [|done]. cbn in Hx. subst z.
  assert (In 1 (List.filter (Z.eqb 1) (flags s))) as Hin by (apply filter_In; split; [apply list_elem_of_In; by apply list_elem_of_lookup_2 in E|done]).
  destruct (List.filter _ _); [done|]. cbn in H. lia.
Qed.

(** A chain of links ends in a table of one of them. *)
Lemma joined_listed sc ts used x y :
  Forall (fun l => listed sc ts (table1 l) /\ listed sc ts (table2 l)) used -> joined used x y -> x <> y -> listed sc ts y.
Proof.
  intros Hl H. apply rtc_inv_r in H as [->|(z & _ & l & Hin & Hj)]; [done|]. intros _.
  rewrite Forall_forall in Hl. destruct (Hl l Hin) as [H1 H2]. by destruct Hj as [[_ <-]|[<- _]].
Qed.

(** When every table is found, links that join them all have been used. *)
Lemma scan_joins sc start s s' ts : schema_ok sc = true ->
  length (flags s) = MAX_LINKS_TABLES_OR_COLUMNS -> nToFind s = needed s -> (start < length (Tables sc))%nat ->
  fromSQL s = from_of ts -> ts <> [] -> Forall (fun b => b ∈ aliases sc) ts ->
  tScan sc scan_fuel start None s = Some (s', 1) -> nToFind s' = 0 -> fits s' ->
  exists used new,
    Forall (fun l => l ∈ Links sc) used /\ whereSQL s' = join_all (whereSQL s) used /\ fromSQL s' = from_of (ts ++ new) /\
    Forall (fun b => b ∈ aliases sc) (ts ++ new) /\
    forall x, flag s x = 1 -> joined used start x /\
      (x <> start -> tableAlias (table_at sc x) ∈ aliases sc /\ listed sc (ts ++ new) x).
Proof.
  intros Hok Hr Hn Ht Hs Hne Ha E Hn' Hf. pose proof (undone_le (flags s)) as Hu.
  destruct (tScan_spec sc Hok scan_fuel MAX_LINKS_TABLES_OR_COLUMNS ltac:(unfold scan_fuel; lia) start None s Hr ltac:(lia)) as [_ H].
  destruct (H ts s' 1 Ht Hs Ha Hne E Hf) as [used F]. destruct (f_from _ _ _ _ _ _ _ F) as (new & Hfr & Hal & Hl).
  exists used, new. split_and!; [apply F|apply F|done|done|]. intros x Hx.
  assert (joined used start x) as Hj.
  { apply (f_joined _ _ _ _ _ _ _ F); [done|]. apply needed_none. pose proof (f_count _ _ _ _ _ _ _ F). lia. }
  split; [done|]. intros Hxs. split; [|exact (joined_listed sc _ _ _ _ Hl Hj (not_eq_sym Hxs))].
  apply table_alias. apply rtc_inv_r in Hj as [Hj|(z & _ & l & Hin & Hj)]; [congruence|].
  pose proof (f_links _ _ _ _ _ _ _ F) as Hlk. rewrite Forall_forall in Hlk.
  destruct (schema_facts sc Hok) as (_ & Hsf & _). destruct (Hsf l (Hlk l Hin)) as (? & ? & _). by destruct Hj as [[_ <-]|[<- _]].
Qed.

(** When the search ends with every table found, and the clauses have not run into the
    size of their buffers, the conditions it has added join all the tables the query needs
    to each other, and [from] has every table that a condition was added for, save a table
    of the list [mistaken] whose longer namesake is there. *)
Theorem tables_joined start s s' ts :
  length (flags s) = MAX_LINKS_TABLES_OR_COLUMNS -> nToFind s = needed s -> (start < length (Tables icat))%nat ->
  fromSQL s = from_of ts -> ts <> [] -> Forall (fun b => b ∈ aliases icat) ts ->
  tScan icat scan_fuel start None s = Some (s', 1) -> nToFind s' = 0 -> fits s' ->
  exists used new,
    Forall (fun l => l ∈ Links icat) used /\ whereSQL s' = join_all (whereSQL s) used /\ fromSQL s' = from_of (ts ++ new) /\
    forall x, flag s x = 1 -> joined used start x /\
      (x <> start -> exists b, b ∈ ts ++ new /\ (b = tableAlias (table_at icat x) \/ (tableAlias (table_at icat x), b) ∈ mistaken)).
Proof.
  intros Hr Hn Ht Hs Hne Ha E Hn' Hf.
  destruct (scan_joins icat start s s' ts icat_ok Hr Hn Ht Hs Hne Ha E Hn' Hf) as (used & new & H1 & H2 & H3 & Hal & Hx).
  exists used, new. split; [exact H1|]. split; [exact H2|]. split; [exact H3|]. intros x Hx1. destruct (Hx x Hx1) as [Hj Hl].
  split; [exact Hj|]. intros Hxs. destruct (Hl Hxs) as [Hxa Hm]. unfold listed in Hm. apply existsb_exists in Hm as (b & Hb%list_elem_of_In & Hm).
  exists b. split; [exact Hb|]. rewrite Forall_forall in Hal. specialize (Hal b Hb).
  rewrite <- icat_setup in Hxa, Hal, Hm |- *. apply (icat_mistaken _ _ Hxa Hal) in Hm as [Hm|Hm]; [left; symmetry; exact Hm|right; exact Hm].
Qed.

(** The state of a query that needs some tables and selects columns of the first. *)
Definition query_state (needs : list nat) : sql :=
  Sql (foldr (fun t f => <[t := 1]> f) (replicate MAX_LINKS_TABLES_OR_COLUMNS 0) needs) (Z.of_nat (length needs))
    (from_of match needs with t :: _ => [tableAlias (table_at icat t)] | [] => [] end) (lit "where ").

Definition table_named (n : string) : nat := fkFindName icat (lit n).

Lemma tScan_terminates_witness :
  exists s' k, tScan icat scan_fuel (table_named "R_DATA_MAIN") None (query_state [table_named "R_DATA_MAIN"; table_named "R_COLL_MAIN"]) = Some (s', k).
Proof. apply tScan_terminates; [exact icat_ok|vm_compute; reflexivity]. Defined.

Lemma tables_joined_witness :
  let s := query_state [table_named "R_DATA_MAIN"; table_named "R_COLL_MAIN"; table_named "r_data_meta_main"] in
  let r := tScan icat scan_fuel (table_named "R_DATA_MAIN") None s in
  exists s' used, r = Some (s', 1) /\ joined used (table_named "R_DATA_MAIN") (table_named "r_data_meta_main") /\
    whereSQL s' = join_all (lit "where ") used.
Proof.
  cbv zeta. set (s := query_state _).
  assert (match tScan icat scan_fuel (table_named "R_DATA_MAIN") None s with
          | Some (s', k) => (k =? 1) && (nToFind s' =? 0) && (Z.of_nat (length (whereSQL s')) <? 1000) && (Z.of_nat (length (fromSQL s')) <? 1000)
          | None => false
          end = true) as H by (vm_compute; reflexivity).
  destruct (tScan icat scan_fuel (table_named "R_DATA_MAIN") None s) as [[s' k]|] eqn:E; [|done].
  rewrite !andb_true_iff, !Z.eqb_eq, !Z.ltb_lt in H. destruct H as [[[-> H0] Hw] Hf].
  assert (fits s') as Hfit by (unfold fits, MAX_SQL_SIZE_GQ, MAX_TSQL; lia). clear Hw Hf. rename Hfit into Hf.
  destruct (tables_joined (table_named "R_DATA_MAIN") s s' [tableAlias (table_at icat (table_named "R_DATA_MAIN"))]) as (used & new & _ & Hw & _ & Hx);
    [vm_compute; reflexivity|vm_compute; reflexivity|vm_compute; lia|vm_compute; reflexivity|done|by_evaluation|exact E|exact H0|exact Hf|].
  exists s', used. split_and!; [done| |exact Hw]. apply Hx. vm_compute. reflexivity.
Defined.

(** *** Examples *)

Definition clauses (r : option (sql * Z)) : option (Z * Z * bstr * bstr) :=
  match r with Some (s, k) => Some (k, nToFind s, fromSQL s, whereSQL s) | None => None end.

(** [R_RULE_DVM] is not added to a clause that has [R_RULE_DVM_MAP]. *)
Example longer_name_hides_table :
  clauses (tScan icat scan_fuel (table_named "R_RULE_DVM_MAP") None (query_state [table_named "R_RULE_DVM_MAP"; table_named "R_RULE_DVM"])) =
  Some (1, 0, lit "from  R_RULE_DVM_MAP ", lit "where R_RULE_DVM_MAP.dvm_id = R_RULE_DVM.dvm_id ").
Proof. vm_compute. reflexivity. Qed.

(** The condition of this link is on a table that is not one of the two it joins, and that
    [from] does not have. *)
Example ticket_link_misses_table :
  clauses (tScan icat scan_fuel (table_named "R_TICKET_MAIN") None (query_state [table_named "R_TICKET_MAIN"; table_named "r_ticket_data_coll_main"])) =
  Some (1, 0, lit "from  R_TICKET_MAIN , R_COLL_MAIN r_ticket_data_coll_main ",
        lit "where R_TICKET_MAIN.object_id = R_DATA_MAIN.data_id AND R_DATA_MAIN.coll_id = r_ticket_data_coll_main.coll_id ").
Proof. vm_compute. reflexivity. Qed.
