(* ===== verification/GenQuery.v ===== *)
(** * Queries of the catalog

    [plugins/database/src/general_query.cpp]: the SQL text of a general query, for the
    PostgreSQL build. The static buffers of the code are the fields of [gq]; a bind variable
    is a position in one of them, so that a buffer that is written again changes the values
    of the variables that point into it. A [return] of an error code is an exception of [M]
    that keeps the state. *)

From stdpp Require Import base list strings.
From Stdlib Require Import ZArith Lia Ascii.
From S2P Require Import Prelude Errors Quota Numerals Schema TableLinks.
Local Open Scope Z_scope.

Definition MAX_BIND_VARS : Z := 32000.
Definition SELECT_MIN : Z := 2.
Definition SELECT_MAX : Z := 3.
Definition SELECT_SUM : Z := 4.
Definition SELECT_AVG : Z := 5.
Definition SELECT_COUNT : Z := 6.
Definition ORDER_BY : Z := 1024.
Definition ORDER_BY_DESC : Z := 2048.
Definition NO_DISTINCT : Z := 64.
Definition UPPER_CASE_WHERE : Z := 512.
Definition COL_DATA_NAME : Z := 403.
Definition COL_DATA_REPL_NUM : Z := 404.
Definition COL_COLL_NAME : Z := 501.
Definition COL_META_DATA_ATTR_NAME : Z := 600.
Definition COL_META_COLL_ATTR_NAME : Z := 610.
Definition COL_META_RESC_ATTR_NAME : Z := 630.
Definition COL_META_USER_ATTR_NAME : Z := 640.
Definition COL_META_RESC_GROUP_ATTR_NAME : Z := 650.
Definition LOCAL_PRIV_USER_AUTH : Z := 5.

(** ** State *)

(** What was written to a buffer, the last first: the position and the bytes. *)
Definition mem : Type := list (nat * bstr).

Fixpoint byte_at (m : mem) (p : nat) : ascii :=
  match m with
  | [] => NUL
  | (o, b) :: m' => if (o <=? p)%nat && (p <? o + length b)%nat then default NUL (b !! (p - o)%nat) else byte_at m' p
  end.

(** The string at a position of a buffer of [size] bytes. *)
Fixpoint string_at (size : nat) (m : mem) (p : nat) : bstr :=
  match size with
  | O => []
  | S size => if Ascii.eqb (byte_at m p) NUL then [] else byte_at m p :: string_at size m (S p)
  end.

(** Where a bind variable points: into the buffers of [insertWhere], of the IN clauses and of
    the BETWEEN clauses, into the vector of the parents (which of its contents, and the
    index), or to a string that does not change. *)
Inductive bindvar : Type :=
| BWhere (p : nat)
| BIn (p : nat)
| BBetween (p : nat)
| BParent (gen idx : nat)
| BText (s : bstr).

(** The clauses and what is known of them. *)
Record txt : Type := Txt {
  g_sql : sql; selectSQL : bstr; groupBySQL : bstr; orderBySQL : bstr;
  selectSQLInitFlag : bool; doUpperCase : bool; mightNeedGroupBy : bool; fromCount : Z
}.

(** The bind variables, and the buffers with the next free position of each. *)
Record binds : Type := Binds {
  cllBindVars : list bindvar;
  bindIx : nat; bindVars : mem;
  inStrIx : nat; inStrings : mem; betweenStrings : mem;
  parentGen : nat; inStringVec : list bstr;
  conditionsForBindIx : nat
}.

Record gq : Type := Gq { g_txt : txt; g_binds : binds }.

Definition set_sql (x : sql) (t : txt) : txt :=
  Txt x (selectSQL t) (groupBySQL t) (orderBySQL t) (selectSQLInitFlag t) (doUpperCase t) (mightNeedGroupBy t) (fromCount t).
Definition set_select (x : bstr) (t : txt) : txt :=
  Txt (g_sql t) x (groupBySQL t) (orderBySQL t) (selectSQLInitFlag t) (doUpperCase t) (mightNeedGroupBy t) (fromCount t).
Definition set_groupBy (x : bstr) (t : txt) : txt :=
  Txt (g_sql t) (selectSQL t) x (orderBySQL t) (selectSQLInitFlag t) (doUpperCase t) (mightNeedGroupBy t) (fromCount t).
Definition set_orderBy (x : bstr) (t : txt) : txt :=
  Txt (g_sql t) (selectSQL t) (groupBySQL t) x (selectSQLInitFlag t) (doUpperCase t) (mightNeedGroupBy t) (fromCount t).
Definition set_initFlag (x : bool) (t : txt) : txt :=
  Txt (g_sql t) (selectSQL t) (groupBySQL t) (orderBySQL t) x (doUpperCase t) (mightNeedGroupBy t) (fromCount t).
Definition set_mightNeedGroupBy (x : bool) (t : txt) : txt :=
  Txt (g_sql t) (selectSQL t) (groupBySQL t) (orderBySQL t) (selectSQLInitFlag t) (doUpperCase t) x (fromCount t).
Definition set_fromCount (x : Z) (t : txt) : txt :=
  Txt (g_sql t) (selectSQL t) (groupBySQL t) (orderBySQL t) (selectSQLInitFlag t) (doUpperCase t) (mightNeedGroupBy t) x.
Definition set_vars (x : list bindvar) (b : binds) : binds :=
  Binds x (bindIx b) (bindVars b) (inStrIx b) (inStrings b) (betweenStrings b) (parentGen b) (inStringVec b) (conditionsForBindIx b).
Definition set_where_buf (i : nat) (m : mem) (b : binds) : binds :=
  Binds (cllBindVars b) i m (inStrIx b) (inStrings b) (betweenStrings b) (parentGen b) (inStringVec b) (conditionsForBindIx b).
Definition set_in_buf (i : nat) (m : mem) (b : binds) : binds :=
  Binds (cllBindVars b) (bindIx b) (bindVars b) i m (betweenStrings b) (parentGen b) (inStringVec b) (conditionsForBindIx b).
Definition set_between_buf (m : mem) (b : binds) : binds :=
  Binds (cllBindVars b) (bindIx b) (bindVars b) (inStrIx b) (inStrings b) m (parentGen b) (inStringVec b) (conditionsForBindIx b).
Definition set_parents (x : list bstr) (b : binds) : binds :=
  Binds (cllBindVars b) (bindIx b) (bindVars b) (inStrIx b) (inStrings b) (betweenStrings b) (S (parentGen b)) x (conditionsForBindIx b).
Definition set_cond_ix (i : nat) (b : binds) : binds :=
  Binds (cllBindVars b) (bindIx b) (bindVars b) (inStrIx b) (inStrings b) (betweenStrings b) (parentGen b) (inStringVec b) i.

(** The value a bind variable has when the statement is executed; the vector of the parents
    holds only its last contents. *)
Definition bind_value (g : binds) (b : bindvar) : res bstr :=
  match b with
  | BWhere p => Ok (string_at (Z.to_nat MAX_SQL_SIZE_GQ + 100) (bindVars g) p)
  | BIn p => Ok (string_at (Z.to_nat MAX_SQL_SIZE_GQ * 2) (inStrings g) p)
  | BBetween p => Ok (string_at (Z.to_nat MAX_SQL_SIZE_GQ) (betweenStrings g) p)
  | BParent gen i => if Nat.eqb gen (parentGen g) then Ok (default [] (inStringVec g !! i)) else Throw Eundef
  | BText s => Ok s
  end.

(** ** Appending to the clauses *)

(** A function that may [return] a code. *)
Definition Q (A : Type) : Type := M gq A.
#[export] Instance Q_ret : MRet Q := fun A => M_ret A.
#[export] Instance Q_bind : MBind Q := fun A B => M_bind A B.

Definition get : Q gq := get_state.
Definition txt_ (f : txt -> txt) : Q unit := g ← get; put_state (Gq (f (g_txt g)) (g_binds g)).
Definition binds_ (f : binds -> binds) : Q unit := g ← get; put_state (Gq (g_txt g) (f (g_binds g))).
Definition ret_code {A} (code : Z) : Q A := throw (Eirods code).
Definition when (b : bool) (m : Q unit) : Q unit := if b then m else mret tt.

Definition cat_to (read : txt -> bstr) (write : bstr -> txt -> txt) (t : bstr) : Q unit :=
  g ← get;
  match rstrcat (read (g_txt g)) t MAX_SQL_SIZE_GQ with
  | Some r => txt_ (write r)
  | None => ret_code USER_STRLEN_TOOLONG
  end.

Definition where_ (t : txt) : bstr := whereSQL (g_sql t).
Definition from_ (t : txt) : bstr := fromSQL (g_sql t).
Definition put_where (w : bstr) (t : txt) : txt := set_sql (set_where w (g_sql t)) t.
Definition put_from (f : bstr) (t : txt) : txt := set_sql (set_from f (g_sql t)) t.

Definition add_select (t : bstr) : Q unit := cat_to selectSQL set_select t.
Definition add_group (t : bstr) : Q unit := cat_to groupBySQL set_groupBy t.
Definition add_order (t : bstr) : Q unit := cat_to orderBySQL set_orderBy t.
Definition add_where (t : bstr) : Q unit := cat_to where_ put_where t.
Definition add_to_from (t : bstr) : Q unit := cat_to from_ put_from t.

(** [if ( strlen( whereSQL ) > 6 )] *)
Definition add_and : Q unit :=
  g ← get; when (6 <? Z.of_nat (length (where_ (g_txt g)))) (add_where (lit " AND ")).

Definition push_bind (v : bindvar) : Q unit := binds_ (fun b => set_vars (cllBindVars b ++ [v]) b).
Definition cllBindVarCount (b : binds) : Z := Z.of_nat (length (cllBindVars b)).

(** ** Columns *)

Definition aggregate (selectOption : Z) : option bstr :=
  if selectOption =? SELECT_MIN then Some (lit "min(")
  else if selectOption =? SELECT_MAX then Some (lit "max(")
  else if selectOption =? SELECT_SUM then Some (lit "sum(")
  else if selectOption =? SELECT_AVG then Some (lit "avg(")
  else if selectOption =? SELECT_COUNT then Some (lit "count(")
  else None.

Section queries.
Variable sc : schema.

(** The last column with a number. *)
Definition find_column (column : Z) : option tColumn :=
  List.find (fun c => defineValue c =? column) (rev (Columns sc)).

(** A column is selected. *)
Definition select_column (selectOption : Z) (t : tTable) (c : tColumn) : Q unit :=
  g ← get;
  when (negb (selectSQLInitFlag (g_txt g))) (add_select (lit ","));;
  txt_ (set_initFlag false);;
  match aggregate selectOption with Some f => add_select f | None => mret tt end;;
  add_select (tableName t);; add_select (lit ".");; add_select (columnName c);; add_select (lit " ");;
  match aggregate selectOption with
  | Some _ => add_select (lit ") ");; txt_ (set_mightNeedGroupBy true)
  | None =>
      g ← get;
      when (10 <? Z.of_nat (length (groupBySQL (g_txt g)))) (add_group (lit ","));;
      add_group (tableName t);; add_group (lit ".");; add_group (columnName c);; add_group (lit " ")
  end;;
  g ← get;
  when (negb (tablePresent (tableAlias t) (from_ (g_txt g))))
    (add_to_from (if fromCount (g_txt g) =? 0 then lit " " else lit ", ");;
     txt_ (fun t => set_fromCount (fromCount t + 1) t);;
     add_to_from (tableAlias t);; add_to_from (lit " ")).

(** The column of a condition, which the condition follows. *)
Definition condition_column (castOption : bool) (t : tTable) (c : tColumn) : Q unit :=
  add_and;;
  when castOption (add_where (lit "cast ("));;
  g ← get;
  let upper := doUpperCase (g_txt g) && negb castOption in
  when upper (add_where (lit "upper ("));;
  add_where (tableName t);; add_where (lit ".");; add_where (columnName c);;
  when upper (add_where (lit " )"));;
  when castOption (add_where (lit " as decimal)")).

(** The table of a column is needed. *)
Definition need_table (i : nat) (s : sql) : sql :=
  set_flag i 1 (if flag s i =? 0 then set_toFind (nToFind s + 1) s else s).

(** [setTable]: the table of the column, [None] if there is none; the abbreviations of the
    tables, which nothing reads, are left out. *)
Definition setTable (column : Z) (sel : bool) (selectOption : Z) (castOption : bool) : Q (option nat) :=
  match find_column column with
  | None => mret None
  | Some c =>
      match find_idx (fun t => bstr_eqb (tableName t) (columnTable c)) (Tables sc) with
      | None => mret None
      | Some i =>
          txt_ (fun t => set_sql (need_table i (g_sql t)) t);;
          (if sel then select_column selectOption (table_at sc i) c else condition_column castOption (table_at sc i) c);;
          mret (Some i)
      end
  end.

(** ** Conditions *)

Definition quote : ascii := "'".
Definition is_quote (c : ascii) : bool := Ascii.eqb c quote.

(** The quoted strings of a clause; one without an end is not counted. *)
Fixpoint quoted (open : option bstr) (s : bstr) : list bstr :=
  match s with
  | [] => []
  | c :: s' =>
      match open with
      | None => if is_quote c then quoted (Some []) s' else quoted None s'
      | Some l => if is_quote c then rev l :: quoted None s' else quoted (Some (c :: l)) s'
      end
  end.

(** A quoted string is copied to a buffer of [size] bytes at [ix], by way of one of
    [MAX_SQL_SIZE_GQ] bytes that a longer string leaves empty, and the byte behind where it
    would end is cleared. The buffer, and whether there was space for the whole string. *)
Definition copy_quoted (size : Z) (ix : nat) (m : mem) (l : bstr) : res (mem * bool) :=
  let tmpStr := if MAX_SQL_SIZE_GQ <=? Z.of_nat (length l) then [] else l in
  let space := size - Z.of_nat ix in
  if space <=? Z.of_nat (length tmpStr)
  then Ok (if space <=? 0 then m else (ix, take (Z.to_nat space - 1) tmpStr ++ [NUL]) :: m, false)
  else if size <=? Z.of_nat (ix + length l) then Throw Eundef
  else Ok (((ix + length l)%nat, [NUL]) :: (ix, tmpStr ++ [NUL]) :: m, true).

Definition check_binds (n : Z) : Q unit :=
  g ← get; when (MAX_BIND_VARS <=? cllBindVarCount (g_binds g) + n) (ret_code CAT_BIND_VARIABLE_LIMIT_EXCEEDED).

Fixpoint in_loop (nput : nat) (ls : list bstr) : Q nat :=
  match ls with
  | [] => mret nput
  | l :: ls' =>
      add_where (match nput with O => lit "?" | _ => lit ", ?" end);;
      g ← get;
      let ix := inStrIx (g_binds g) in
      '(m, ok) ← (lift (copy_quoted (MAX_SQL_SIZE_GQ * 2) ix (inStrings (g_binds g)) l) : Q (mem * bool));
      binds_ (set_in_buf ix m);;
      match ok with
      | true =>
        check_binds 1;;
        push_bind (BIn ix);;
        binds_ (fun b => set_in_buf (ix + length l + 1) (inStrings b) b);;
        in_loop (S nput) ls'
      | false => ret_code USER_STRLEN_TOOLONG
      end
  end.

Definition addInClauseToWhereForIn (inArg : bstr) : Q unit :=
  add_where (lit " IN (");;
  nput ← in_loop 0 (quoted None inArg);
  add_where (lit ")");;
  when (Nat.eqb nput 0) (ret_code CAT_INVALID_ARGUMENT).

(** [ix] begins at 0 with every clause. *)
Fixpoint between_loop (nput ix : nat) (ls : list bstr) : Q nat :=
  match ls with
  | [] => mret nput
  | l :: ls' =>
      add_where (match nput with O => lit "?" | _ => lit " AND ? " end);;
      g ← get;
      '(m, ok) ← (lift (copy_quoted MAX_SQL_SIZE_GQ ix (betweenStrings (g_binds g)) l) : Q (mem * bool));
      binds_ (set_between_buf m);;
      match ok with
      | true =>
        check_binds 1;;
        push_bind (BBetween ix);;
        between_loop (S nput) (ix + length l + 1) ls'
      | false => ret_code USER_STRLEN_TOOLONG
      end
  end.

Definition addBetweenClauseToWhere (inArg : bstr) : Q unit :=
  add_where (lit " BETWEEN ");;
  nput ← between_loop 0 0 (quoted None inArg);
  when (negb (Nat.eqb nput 2)) (ret_code CAT_INVALID_ARGUMENT).

(** *** [parent_of] *)

(** [boost::algorithm::split] on slashes, adjacent ones as one. *)
Variable split_path : bstr -> list bstr.

Fixpoint join_path (need_slash : bool) (path : bstr) (ps : list bstr) : bstr :=
  match ps with
  | [] => path
  | [] :: ps' => join_path false (path ++ [("/")%char]) ps'
  | p :: ps' => join_path true (path ++ (if need_slash then [("/")%char] else []) ++ p) ps'
  end.

(** The path up to each of its components. *)
Definition parents (ps : list bstr) : list bstr :=
  map (fun si => join_path false [] (take (S si) ps)) (seq 0 (length ps)).

Definition in_clause (n : nat) : bstr :=
  lit " IN (" ++ concat (map (fun si => if Nat.eqb si 0 then lit "?" else lit ", ?") (seq 0 n)) ++ lit ")".

Definition addInClauseToWhereForParentOf (inArg : bstr) : Q unit :=
  let ps := parents (split_path inArg) in
  binds_ (set_parents ps);;
  add_where (in_clause (length ps));;
  check_binds (Z.of_nat (length ps));;
  binds_ (fun b => set_vars (cllBindVars b ++ map (BParent (parentGen b)) (seq 0 (length ps))) b).

(** *** Operators *)

Definition is_comparison (c : ascii) : bool := is_any_of (lit "<>=!") c.

(** The first occurrence of a word is made blank. *)
Definition blank_word (w s : bstr) : bstr :=
  match strstr s w with
  | Some i => take i s ++ replicate (length w) " "%char ++ drop (i + length w) s
  | None => s
  end.

Definition operator_words : list bstr :=
  map lit ["begin_of"; "parent_of"; "not"; "NOT"; "between"; "BETWEEN"; "like"; "LIKE"; "in"; "IN"]%string.

(** [checkCondition]; its buffer holds every text [insertWhere] gives it. *)
Definition checkCondition (condition : bstr) : Z :=
  if 20 <=? Z.of_nat (length condition) then USER_STRLEN_TOOLONG
  else
    let s := map (fun c => if is_comparison c then " "%char else c) condition in
    if forallb (Ascii.eqb " ") (foldl (fun s w => blank_word w s) s operator_words) then 0 else CAT_INVALID_ARGUMENT.

(** The condition begins, behind blanks, with the first occurrence of a word: in small
    letters or, if that does not occur at all, in capitals. *)
Definition begins_with (lower upper : string) (condition : bstr) : bool :=
  let condStart := default (length condition) (find_idx (fun c => negb (Ascii.eqb c " ")) condition) in
  match strstr condition (lit lower) with
  | Some i => Nat.eqb i condStart
  | None => match strstr condition (lit upper) with Some i => Nat.eqb i condStart | None => false end
  end.

Definition find_last_idx (p : ascii -> bool) (s : bstr) : option nat :=
  (fun i => length s - 1 - i)%nat <$> find_idx p (rev s).

(** What is behind the last blank of [whereSQL]. *)
Definition last_word : Q bstr :=
  g ← get;
  match find_last_idx (Ascii.eqb " ") (where_ (g_txt g)) with
  | Some i => mret (drop (S i) (where_ (g_txt g)))
  | None => throw Eundef
  end.

(** [insertWhere] *)
Definition insertWhere (condition : bstr) : Q unit :=
  if begins_with "in" "IN" condition then addInClauseToWhereForIn condition
  else if begins_with "between" "BETWEEN" condition then addBetweenClauseToWhere condition
  else if bstr_eqb condition (lit "IS NULL") || bstr_eqb condition (lit "IS NOT NULL")
  then add_where (lit " ");; add_where condition;; add_where (lit " ")
  else
    binds_ (fun b => set_where_buf (S (bindIx b)) (bindVars b) b);;
    g ← get;
    let ix := bindIx (g_binds g) in
    match find_idx is_quote condition, find_last_idx is_quote condition with
    | Some first, Some second =>
        if Nat.eqb first second then ret_code CAT_INVALID_ARGUMENT
        else if MAX_SQL_SIZE_GQ + 90 <? Z.of_nat (second - first + ix) then ret_code CAT_INVALID_ARGUMENT
        else
          let value := take (second - first - 1) (drop (S first) condition) in
          binds_ (fun b => set_where_buf (ix + length value + 1) ((ix, value ++ [NUL]) :: bindVars b) b);;
          check_binds 1;;
          push_bind (BWhere ix);;
          if (10 <? first)%nat then ret_code CAT_INVALID_ARGUMENT
          else if Nat.eqb first 0 then throw Eundef
          else
            let tmpStr := lit " " ++ take first condition in
            match strstr tmpStr (lit "begin_of") with
            | Some _ =>
                col ← last_word;
                add_where (lit "=substr(?,1,char_length(");; add_where col;; add_where (lit "))");;
                add_where (lit " AND char_length(");; add_where col;; add_where (lit ")>0")
            | None =>
                match strstr tmpStr (lit "parent_of") with
                | Some _ =>
                    binds_ (fun b => set_vars (removelast (cllBindVars b)) b);;
                    addInClauseToWhereForParentOf value
                | None => add_where (tmpStr ++ lit "? ")
                end
            end;;
            let code := checkCondition tmpStr in when (negb (code =? 0)) (ret_code code)
    | _, _ => ret_code CAT_INVALID_ARGUMENT
    end.

(** ** Compound conditions *)

Definition cond_size : nat := MAX_NAME_LEN * 2.

(** [compoundConditionSpecified]: "||" or "&&" outside of quotes. *)
Fixpoint erase_quoted (quote_ : bool) (s : bstr) : bstr :=
  match s with
  | [] => []
  | c :: s' =>
      let q := if is_quote c then negb quote_ else quote_ in
      (if is_quote c || q then " "%char else c) :: erase_quoted q s'
  end.

Definition has_operator (s : bstr) : bool :=
  match strstr s (lit "||"), strstr s (lit "&&") with None, None => false | _, _ => true end.

Definition compoundConditionSpecified (condition : bstr) : bool :=
  has_operator condition && has_operator (erase_quoted false (rstrcpy condition cond_size)).

(** [mask_query_arguments]: what is between pairs of quotes becomes blank. *)
Fixpoint mask_query_arguments (fuel : nat) (s : bstr) : bstr :=
  match fuel with
  | O => s
  | S fuel =>
      match find_idx is_quote s with
      | None => s
      | Some bpos =>
          let rest := drop (S bpos) s in
          match find_idx is_quote rest with
          | None => s
          | Some n => take (S bpos) s ++ replicate n " "%char ++ [quote] ++ mask_query_arguments fuel (drop (S n) rest)
          end
      end
  end.

(** The first operator of a condition outside of its quoted strings, and its position. *)
Definition next_operator (s : bstr) : option (nat * bstr) :=
  let tmp := mask_query_arguments (length s) s in
  match strstr tmp (lit "||"), strstr tmp (lit "&&") with
  | Some i, Some j => if (i <? j)%nat then Some (i, lit " OR ") else Some (j, lit " AND ")
  | Some i, None => Some (i, lit " OR ")
  | None, Some j => Some (j, lit " AND ")
  | None, None => None
  end.

(** The loop over the parts of a condition; [conditionsForBind] has [cond_size] bytes, but a
    part is copied to it with the limit of a larger buffer. *)
Fixpoint compound_loop (fuel : nat) (tabAndColumn condPart2 : bstr) : Q unit :=
  match next_operator condPart2 with
  | None => add_where tabAndColumn;; insertWhere condPart2
  | Some (i, op) =>
      match fuel with
      | O => throw Ediverge
      | S fuel =>
          let condPart1 := take i condPart2 in
          add_where tabAndColumn;;
          g ← get;
          let ix := conditionsForBindIx (g_binds g) in
          if (cond_size <? ix + length condPart1 + 1)%nat then throw Eundef
          else
            insertWhere condPart1;;
            binds_ (set_cond_ix (ix + length condPart1 + 1));;
            add_where op;;
            compound_loop fuel tabAndColumn (drop (i + 2) condPart2)
      end
  end.

(** The column for a condition: behind an " AND " that was added for it. *)
Definition column_start (w : bstr) (prevWhereLen : nat) : nat :=
  let i := (prevWhereLen + default (length (drop prevWhereLen w)) (find_idx (fun c => negb (Ascii.eqb c " ")) (drop prevWhereLen w)))%nat in
  if bstr_eqb (take 3 (drop i w)) (lit "AND") then i + 3 else prevWhereLen.

Definition handleCompoundCondition (condition : bstr) (prevWhereLen : nat) : Q unit :=
  g ← get;
  let w := where_ (g_txt g) in
  let start := column_start w prevWhereLen in
  txt_ (put_where (take start w));;
  add_where (lit " ( ");;
  if (cond_size <=? length condition)%nat then ret_code USER_STRLEN_TOOLONG
  else compound_loop (length condition) (drop start w) condition;; add_where (lit " ) ").

(** ** Several conditions on the names of metadata *)

Definition two_digits (i : Z) : bstr := if i <? 10 then "0"%char :: to_string i else to_string i.

(** [i] of the table is written over the end of "main" in the next occurrence. *)
Definition rename_next (name : bstr) (i : Z) (w : bstr) : bstr :=
  match strstr w name with
  | None => w
  | Some p => take (p + 13) w ++ take 3 ("n"%char :: two_digits i) ++ drop (p + 16) w
  end.

Definition numbers (nConditions : nat) : list Z := map Z.of_nat (seq 2 (nConditions - 1)).

(** The first occurrence is hidden while the others are renamed. *)
Definition rename_all (name : bstr) (nConditions : nat) (w : bstr) : bstr :=
  match strstr w name with
  | None => foldl (fun w i => rename_next name i w) w (numbers nConditions)
  | Some p => <[p := "r"%char]> (foldl (fun w i => rename_next name i w) (<[p := "x"%char]> w) (numbers nConditions))
  end.

Definition multi_tables (kind : string) (i : Z) : bstr :=
  lit ", R_OBJT_METAMAP r_" ++ lit kind ++ lit "_metamap" ++ to_string i ++
  lit ", R_META_MAIN r_" ++ lit kind ++ lit "_meta_mn" ++ two_digits i ++ lit " ".

Definition multi_join (kind : string) (i : Z) : bstr :=
  lit " AND r_" ++ lit kind ++ lit "_metamap" ++ to_string i ++ lit ".meta_id = r_" ++ lit kind ++ lit "_meta_mn" ++
  two_digits i ++ lit ".meta_id".

Definition multi_object (kind object : string) (i : Z) : bstr :=
  lit " AND " ++ lit object ++ lit " = r_" ++ lit kind ++ lit "_metamap" ++ to_string i ++ lit ".object_id ".

(** A function that returns nothing: it stops where there is no space. *)
Definition void (m : Q unit) : Q unit := try_catch m (fun e => match e with Eirods _ => Ok tt | _ => Throw e end).

(** [handleMultiDataAVUConditions] and [handleMultiCollAVUConditions] *)
Definition handle_multi (kind object : string) (nConditions : nat) : Q unit :=
  txt_ (fun t => put_where (rename_all (lit "r_" ++ lit kind ++ lit "_meta_main.meta_attr_name") nConditions (where_ t)) t);;
  txt_ (fun t => put_where (rename_all (lit "r_" ++ lit kind ++ lit "_meta_main.meta_attr_value") nConditions (where_ t)) t);;
  void (for_each (fun i => add_to_from (multi_tables kind i)) (numbers nConditions);;
        for_each (fun i => add_where (multi_join kind i);; add_where (multi_object kind object i)) (numbers nConditions)).

Definition handleMultiDataAVUConditions : nat -> Q unit := handle_multi "data" "R_DATA_MAIN.data_id".
Definition handleMultiCollAVUConditions : nat -> Q unit := handle_multi "coll" "R_COLL_MAIN.coll_id".

(** ** Access control *)

(** The user of the session and what it may see. *)
Record access : Type := Access {
  accessControlUserName : bstr; accessControlZone : bstr;
  accessControlPriv : Z; accessControlControlFlag : Z;
  sessionTicket : bstr
}.

Definition ticket_owner : bstr :=
  lit "R_TICKET_MAIN.user_id in (select user_id from R_USER_MAIN UM where UM.user_name = ? AND UM.zone_name" ++
  lit "=?)".
Definition data_access : bstr :=
  lit "R_DATA_MAIN.data_id in (select object_id from R_OBJT_ACCESS OA, R_USER_GROUP UG, R_USER_MAIN UM, R_T" ++
  lit "OKN_MAIN TM where UM.user_name=? and UM.zone_name=? and UM.user_type_name!='rodsgroup' and UM.user_i" ++
  lit "d = UG.user_id and UG.group_user_id = OA.user_id and OA.object_id = R_DATA_MAIN.data_id and OA.acces" ++
  lit "s_type_id >= TM.token_id and TM.token_namespace ='access_type' and TM.token_name = 'read_object')".
Definition coll_access : bstr :=
  lit "R_COLL_MAIN.coll_id in (select object_id from R_OBJT_ACCESS OA, R_USER_GROUP UG, R_USER_MAIN UM, R_T" ++
  lit "OKN_MAIN TM where UM.user_name=? and UM.zone_name=? and UM.user_type_name!='rodsgroup' and UM.user_i" ++
  lit "d = UG.user_id and UG.group_user_id = OA.user_id and OA.object_id = R_COLL_MAIN.coll_id and OA.acces" ++
  lit "s_type_id >= TM.token_id and TM.token_namespace ='access_type' and TM.token_name = 'read_object')".
Definition data_ticket : bstr :=
  lit "( R_DATA_MAIN.data_id in (select object_id from R_TICKET_MAIN TICK where TICK.ticket_string=?) OR R_" ++
  lit "COLL_MAIN.coll_id in (select object_id from R_TICKET_MAIN TICK where TICK.ticket_string=?) OR R_COLL" ++
  lit "_MAIN.coll_name LIKE (select (coll_name || '/%') from R_COLL_MAIN where coll_id in (select object_id" ++
  lit " from R_TICKET_MAIN TICK where TICK.ticket_string=?)))".
Definition coll_ticket : bstr :=
  lit "( R_COLL_MAIN.coll_id in (select object_id from R_TICKET_MAIN TICK where TICK.ticket_string=?) OR R_" ++
  lit "COLL_MAIN.coll_name LIKE (select (coll_name || '/%') from R_COLL_MAIN where coll_id in (select objec" ++
  lit "t_id from R_TICKET_MAIN TICK where TICK.ticket_string=?)))".

(** A clause with its bind variables, which are set first. *)
Definition restrict (vars : list bstr) (clause : bstr) : Q unit :=
  add_and;; for_each (fun v => push_bind (BText v)) vars;; add_where clause.

Definition mentions (table : string) (t : txt) : bool :=
  match strstr (selectSQL t) (lit table), strstr (where_ t) (lit table) with None, None => false | _, _ => true end.

Definition contains (s : bstr) (w : string) : bool := match strstr s (lit w) with Some _ => true | None => false end.

Definition restricted (acl : access) : bool :=
  (1 <? accessControlControlFlag acl) || bstr_eqb (accessControlUserName acl) (lit "anonymous").

Definition genqAppendAccessCheck (acl : access) : Q unit :=
  if accessControlPriv acl =? LOCAL_PRIV_USER_AUTH then mret tt
  else
    let user := [accessControlUserName acl; accessControlZone acl] in
    check_binds 6;;
    g ← get;
    when (contains (selectSQL (g_txt g)) "ticket_string" && contains (selectSQL (g_txt g)) "R_TICKET_MAIN") (restrict user ticket_owner);;
    when (restricted acl)
      (g ← get;
       if bstr_eqb (sessionTicket acl) [] then
         when (mentions "R_DATA_MAIN" (g_txt g)) (restrict user data_access);;
         g ← get;
         when (mentions "R_COLL_MAIN" (g_txt g)) (restrict user coll_access)
       else
         let ticket := sessionTicket acl in
         if mentions "R_DATA_MAIN" (g_txt g) then restrict [ticket; ticket; ticket] data_ticket
         else when (mentions "R_COLL_MAIN" (g_txt g)) (restrict [ticket; ticket] coll_ticket)).

(** ** The whole query *)

Record genQueryInp : Type := GenQueryInp {
  rowOffset : Z; q_options : Z;
  selectInp : list (Z * Z);
  sqlCondInp : list (Z * bstr)
}.

Definition order_column (c : tColumn) : Q unit :=
  g ← get;
  when (10 <? Z.of_nat (length (orderBySQL (g_txt g)))) (add_order (lit ", "));;
  add_order (columnTable c);; add_order (lit ".");; add_order (columnName c).

(** [setOrderByUser]; an order by has the first column with the number. *)
Definition setOrderByUser (sel : list (Z * Z)) : Q unit :=
  void (for_each (fun '(inx, value) =>
    if (Z.land value ORDER_BY =? 0) && (Z.land value ORDER_BY_DESC =? 0) then mret tt
    else match List.find (fun c => defineValue c =? inx) (Columns sc) with
         | None => mret tt
         | Some c => order_column c;; when (negb (Z.land value ORDER_BY_DESC =? 0)) (add_order (lit " DESC "))
         end) sel).

Definition setOrderBy (sel : list (Z * Z)) (column : Z) : Q unit :=
  void (for_each (fun '(inx, value) =>
    match (inx =? column), aggregate (Z.land value 15) with
    | true, None => match List.find (fun c => defineValue c =? column) (Columns sc) with None => mret tt | Some c => order_column c end
    | _, _ => mret tt
    end) sel).

(** The table of a column, or the code that [generateSQL] returns for one that has none,
    whatever [setTable] gives. *)
Definition set_table (column : Z) (sel : bool) (selectOption : Z) (castOption : bool) : Q nat :=
  i ← try_catch (setTable column sel selectOption castOption)
        (fun e => match e with Eirods _ => Throw (Eirods CAT_UNKNOWN_TABLE) | _ => Throw e end);
  match (i : option nat) with Some i => mret i | None => ret_code CAT_UNKNOWN_TABLE end.

Fixpoint select_loop (startingTable : nat) (sel : list (Z * Z)) : Q nat :=
  match sel with
  | [] => mret startingTable
  | (inx, value) :: sel' =>
      table ← set_table inx true (Z.land value 15) false;
      select_loop (if (cycler (table_at sc table) <? 1) || Nat.eqb startingTable 0 then table else startingTable) sel'
  end.

(** An "n" before a comparison asks for numbers and is made blank. *)
Definition cast_condition (condition : bstr) : bool * bstr :=
  match find_idx (fun c => negb (Ascii.eqb c " ")) condition with
  | None => (false, condition)
  | Some i =>
      if bstr_eqb (take 2 (drop i condition)) (lit "n<") || bstr_eqb (take 2 (drop i condition)) (lit "n>") ||
         bstr_eqb (take 2 (drop i condition)) (lit "n=")
      then (true, <[i := " "%char]> condition) else (false, condition)
  end.

Fixpoint condition_loop (startingTable : nat) (conds : list (Z * bstr)) : Q nat :=
  match conds with
  | [] => mret startingTable
  | (inx, value) :: conds' =>
      g ← get;
      let prevWhereLen := length (where_ (g_txt g)) in
      let '(castOption, condition) := cast_condition value in
      table ← set_table inx false 0 castOption;
      (if compoundConditionSpecified condition then handleCompoundCondition condition prevWhereLen else insertWhere condition);;
      condition_loop (if cycler (table_at sc table) <? 1 then table else startingTable) conds'
  end.

Definition count_column (column : Z) (conds : list (Z * bstr)) : nat := length (List.filter (fun c => c.1 =? column) conds).

(** The clauses are begun; the buffers of the conditions are used from their start again. *)
Definition init_query (options : Z) (g : gq) : gq :=
  Gq (Txt (Sql (replicate MAX_LINKS_TABLES_OR_COLUMNS 0) 0 (lit "from ") (lit "where "))
          (if Z.land options NO_DISTINCT =? 0 then lit "select distinct " else lit "select ") (lit "group by ") (orderBySQL (g_txt g))
          true (negb (Z.land options UPPER_CASE_WHERE =? 0)) false 0)
     (let b := g_binds g in
      Binds (cllBindVars b) 0 (bindVars b) 0 (inStrings b) (betweenStrings b) (parentGen b) (inStringVec b) 0).

(** The search for the links, on the state of the query. *)
Definition link_tables (startingTable : nat) : Q unit :=
  g ← get;
  match tScan sc scan_fuel startingTable None (g_sql (g_txt g)) with
  | None => throw Ediverge
  | Some (s, keepVal) =>
      txt_ (set_sql s);;
      when (negb (keepVal =? 1) || negb (nToFind s =? 0)) (ret_code CAT_FAILED_TO_LINK_TABLES)
  end.

Definition append (dest t : bstr) : Q bstr :=
  match rstrcat dest t MAX_SQL_SIZE_GQ with Some r => mret r | None => ret_code USER_STRLEN_TOOLONG end.

(** [generateSQL]: [resultingSQL]. A failure of the access check is not noticed. *)
Definition generateSQL (acl : access) (inp : genQueryInp) : Q bstr :=
  g ← get;
  put_state (init_query (q_options inp) g);;
  start ← select_loop 0 (selectInp inp);
  start ← condition_loop start (sqlCondInp inp);
  link_tables start;;
  let n column := count_column column (sqlCondInp inp) in
  when (1 <? n COL_META_DATA_ATTR_NAME)%nat (handleMultiDataAVUConditions (n COL_META_DATA_ATTR_NAME));;
  when (1 <? n COL_META_COLL_ATTR_NAME)%nat (handleMultiCollAVUConditions (n COL_META_COLL_ATTR_NAME));;
  when ((1 <? n COL_META_USER_ATTR_NAME) || (1 <? n COL_META_RESC_ATTR_NAME) || (1 <? n COL_META_RESC_GROUP_ATTR_NAME))%nat
    (ret_code CAT_INVALID_ARGUMENT);;
  g ← get;
  let useGroupBy := mightNeedGroupBy (g_txt g) && (10 <? Z.of_nat (length (groupBySQL (g_txt g)))) in
  c ← append [] (selectSQL (g_txt g));
  c ← append c (lit " ");
  c ← append c (from_ (g_txt g));
  void (genqAppendAccessCheck acl);;
  g ← get;
  c ← (if 6 <? Z.of_nat (length (where_ (g_txt g))) then c ← append c (lit " "); append c (where_ (g_txt g)) else mret c);
  c ← (if useGroupBy then c ← append c (lit " "); append c (groupBySQL (g_txt g)) else mret c);
  txt_ (set_orderBy (lit " order by "));;
  setOrderByUser (selectInp inp);;
  setOrderBy (selectInp inp) COL_COLL_NAME;; setOrderBy (selectInp inp) COL_DATA_NAME;; setOrderBy (selectInp inp) COL_DATA_REPL_NUM;;
  g ← get;
  c ← (if 10 <? Z.of_nat (length (orderBySQL (g_txt g))) then append c (orderBySQL (g_txt g)) else mret c);
  if 0 <? rowOffset inp then push_bind (BText (to_string (rowOffset inp)));; append c (lit " offset ?") else mret c.
End queries.
