(* ===== verification/QueryText.v ===== *)
(** * The text of a query of the catalog

    What the SQL of [GenQuery.generateSQL] consists of: names and operators of a fixed set of
    characters, a placeholder for every variable that was bound, and the texts of the access
    check. *)

From stdpp Require Import base list strings.
From Stdlib Require Import ZArith Lia Ascii.
From S2P Require Import Prelude Errors Quota Numerals Schema TableLinks GenQuery.
Local Open Scope Z_scope.

(** ** Reasoning about queries *)

(** From a state of [P] a computation that returns a value ends in a state of [R]. *)
Definition triple {A} (P : gq -> Prop) (m : Q A) (R : A -> gq -> Prop) : Prop :=
  forall g a g', P g -> m g = (Ok a, g') -> R a g'.

Lemma triple_bind {A B} P (m : Q A) R (k : A -> Q B) R' :
  triple P m R -> (forall a, triple (R a) (k a) R') -> triple P (m ≫= k) R'.
Proof.
  intros Hm Hk g b g' HP E. unfold mbind, Q_bind in E. apply M_bind_inv in E as (a & g1 & E1 & E2).
  eapply Hk; [|exact E2]. by eapply Hm.
Qed.

Lemma triple_ret {A} (P : gq -> Prop) (a : A) R : (forall g, P g -> R a g) -> triple P (mret a) R.
Proof. intros H g b g' HP [= <- <-]. by apply H. Qed.

Lemma triple_get {B} P (k : gq -> Q B) R : (forall g0, triple (fun g => P g /\ g = g0) (k g0) R) -> triple P (g ← get; k g) R.
Proof. intros H g b g' HP E. apply (H g g b g'); [done|exact E]. Qed.

Lemma triple_pre {A} (P P' : gq -> Prop) (m : Q A) R : (forall g, P g -> P' g) -> triple P' m R -> triple P m R.
Proof. intros H Hm g a g' HP. apply Hm, H, HP. Qed.

Lemma triple_post {A} P (m : Q A) (R R' : A -> gq -> Prop) : (forall a g, R a g -> R' a g) -> triple P m R -> triple P m R'.
Proof. intros H Hm g a g' HP E. apply H. by eapply Hm. Qed.

Lemma triple_throw {A} P e R : triple P (throw e : Q A) R.
Proof. intros g a g' _ [=]. Qed.

Lemma triple_txt (P : gq -> Prop) f (R : unit -> gq -> Prop) : (forall g, P g -> R tt (Gq (f (g_txt g)) (g_binds g))) -> triple P (txt_ f) R.
Proof. intros H g a g' HP [= <- <-]. by apply H. Qed.

Lemma triple_binds (P : gq -> Prop) f (R : unit -> gq -> Prop) : (forall g, P g -> R tt (Gq (g_txt g) (f (g_binds g)))) -> triple P (binds_ f) R.
Proof. intros H g a g' HP [= <- <-]. by apply H. Qed.

Lemma triple_when b P m R : (b = true -> triple P m (fun _ => R)) -> (b = false -> forall g, P g -> R g) -> triple P (when b m) (fun _ => R).
Proof. intros H1 H2. destruct b; cbn; [by apply H1|]. apply triple_ret. by apply H2. Qed.

Lemma triple_cat read write t (P : gq -> Prop) (R : unit -> gq -> Prop) :
  (forall g, P g -> R tt (Gq (write (read (g_txt g) ++ t) (g_txt g)) (g_binds g))) -> triple P (cat_to read write t) R.
Proof.
  intros H g a g' HP. unfold cat_to, get, mbind, Q_bind, M_bind, get_state.
  destruct (rstrcat _ _ _) as [r|] eqn:E; [|done]. apply rstrcat_step in E as ->. intros [= <- <-]. by apply H.
Qed.

Lemma triple_for_each {A} P (f : A -> Q unit) l : (forall a, a ∈ l -> triple P (f a) (fun _ => P)) -> triple P (for_each f l) (fun _ => P).
Proof.
  induction l as [|a l IH]; intros H; cbn [for_each]; [by apply triple_ret|]. eapply triple_bind; [apply H; left|].
  intros ?. apply IH. intros x Hx. apply H. by right.
Qed.

(** What holds where a computation stops with an error. *)
Definition exits {A} (P : gq -> Prop) (m : Q A) (E : gq -> Prop) : Prop :=
  forall g e g', P g -> m g = (Throw e, g') -> E g'.

Lemma exits_bind {A B} P (m : Q A) R (k : A -> Q B) E :
  triple P m R -> exits P m E -> (forall a, exits (R a) (k a) E) -> exits P (m ≫= k) E.
Proof.
  intros Hm Hx Hk g e g' HP. unfold mbind, Q_bind, M_bind. destruct (m g) as [[a|e1] g1] eqn:E1.
  - intros E2. eapply Hk; [|exact E2]. by eapply Hm.
  - intros [= <- <-]. by eapply Hx.
Qed.

Lemma exits_ret {A} P (a : A) E : exits P (mret a) E.
Proof. intros g e g' _ [=]. Qed.

Lemma exits_binds P f E : exits P (binds_ f) E.
Proof. intros g e g' _ [=]. Qed.

Lemma exits_pre {A} (P P' : gq -> Prop) (m : Q A) E : (forall g, P g -> P' g) -> exits P' m E -> exits P m E.
Proof. intros H Hm g e g' HP. apply Hm, H, HP. Qed.

Lemma exits_get {B} P (k : gq -> Q B) E : (forall g0, exits (fun g => P g /\ g = g0) (k g0) E) -> exits P (g ← get; k g) E.
Proof. intros H g e g' HP Eg. apply (H g g e g'); [done|exact Eg]. Qed.

Lemma exits_cat read write t (P E : gq -> Prop) :
  (forall g, P g -> MAX_SQL_SIZE_GQ <= Z.of_nat (length t) + Z.of_nat (length (read (g_txt g))) -> E g) -> exits P (cat_to read write t) E.
Proof.
  intros H g e g' HP. unfold cat_to, get, mbind, Q_bind, M_bind, get_state. unfold rstrcat.
  destruct (_ <=? _) eqn:El; [|done]. intros [= <- <-]. apply H; [done|]. by apply Z.leb_le.
Qed.

Lemma exits_when b P m E : (b = true -> exits P m E) -> exits P (when b m) E.
Proof. intros H. destruct b; cbn; [by apply H|apply exits_ret]. Qed.

Lemma exits_code {A} (P : gq -> Prop) code (E : gq -> Prop) : (forall g, P g -> E g) -> exits P (ret_code code : Q A) E.
Proof. intros H g e g' HP [= <- <-]. by apply H. Qed.

(** Steps that keep [P] whether they fail or not. *)
Lemma exits_for_each {A} P (f : A -> Q unit) l : (forall a, a ∈ l -> triple P (f a) (fun _ => P)) -> (forall a, a ∈ l -> exits P (f a) P) -> exits P (for_each f l) P.
Proof.
  induction l as [|a l IH]; intros Ht Hx; cbn [for_each]; [apply exits_ret|].
  eapply exits_bind; [apply Ht; left|apply Hx; left|]. intros ?. apply IH; intros x Hin; [apply Ht|apply Hx]; by right.
Qed.

(** A function that returns nothing goes on behind its failures. *)
Lemma triple_void P m (R : gq -> Prop) : triple P m (fun _ => R) -> exits P m R -> triple P (void m) (fun _ => R).
Proof.
  intros Hm Hx g a g' HP. unfold void, try_catch. destruct (m g) as [[x|e] g1] eqn:E; intros [= Ea <-]; [by eapply Hm|by eapply Hx].
Qed.

Lemma when_code_inv b code g r g' : when b (ret_code code) g = (Ok r, g') -> b = false /\ g' = g.
Proof. destruct b; [done|]. by intros [= _ <-]. Qed.

Lemma bind_get {B} (k : gq -> Q B) g : (g0 ← get; k g0) g = k g g.
Proof. reflexivity. Qed.

Lemma bind_put {B} g0 (k : unit -> Q B) g : (put_state g0 ≫= k) g = k tt g0.
Proof. reflexivity. Qed.

(** ** The characters of a query *)

(** The characters of names, operators and punctuation: no quotes, no semicolon, nothing that
    begins a comment. *)
Definition is_letter (c : ascii) : bool := ((65 <=? uchar c) && (uchar c <=? 90)) || ((97 <=? uchar c) && (uchar c <=? 122)).
Definition sql_char (c : ascii) : bool := is_letter c || is_digit c || is_any_of (lit " ._=<>!(),?") c.
Definition safe (t : bstr) : Prop := Forall (fun c => sql_char c = true) t.

Definition placeholder : ascii := "?".
Definition placeholders (t : bstr) : nat := length (List.filter (Ascii.eqb placeholder) t).

#[local] Arguments placeholders : simpl never.

Lemma safe_app a b : safe (a ++ b) <-> safe a /\ safe b.
Proof. apply Forall_app. Qed.

Lemma placeholders_app a b : placeholders (a ++ b) = (placeholders a + placeholders b)%nat.
Proof. unfold placeholders. by rewrite List.filter_app, length_app. Qed.

Lemma placeholders_none t : (placeholder ∉ t) -> placeholders t = O.
Proof.
  unfold placeholders. induction t as [|c t IH]; intros H; [done|]. apply not_elem_of_cons in H as [Hc H]. cbn [List.filter].
  rewrite (proj2 (Ascii.eqb_neq placeholder c) Hc). by apply IH.
Qed.

(** Text without placeholders. *)
Definition fixed (t : bstr) : Prop := safe t /\ placeholders t = O.

Definition fixedb (t : bstr) : bool := forallb sql_char t && Nat.eqb (placeholders t) 0.
Lemma fixedb_spec t : fixedb t = true -> fixed t.
Proof.
  unfold fixedb, fixed, safe. rewrite andb_true_iff, forallb_forall, Nat.eqb_eq. intros [H ->]. split; [|done].
  apply Forall_forall. intros c Hc. by apply H, list_elem_of_In.
Qed.

Lemma fixed_app a b : fixed a -> fixed b -> fixed (a ++ b).
Proof. intros [H1 H2] [H3 H4]. split; [by apply safe_app|]. by rewrite placeholders_app, H2, H4. Qed.

Lemma fixed_part a b : fixed (a ++ b) -> fixed a /\ fixed b.
Proof. intros [[H1 H2]%safe_app H3]. rewrite placeholders_app in H3. repeat split; try done; lia. Qed.

(** The names and conditions of a schema are fixed text. *)
Definition schema_fixed (sc : schema) : bool :=
  forallb (fun t => fixedb (tableName t) && fixedb (tableAlias t)) (Tables sc) &&
  forallb (fun c => fixedb (columnTable c) && fixedb (columnName c)) (Columns sc) &&
  forallb (fun l => fixedb (connectingSQL l)) (Links sc).

Lemma icat_fixed : schema_fixed icat = true.
Proof. vm_compute. reflexivity. Qed.

(** [k] variables are bound beside those of the placeholders in [where]; the text is safe. *)
Record inv (k : Z) (g : gq) : Prop := Inv {
  i_select : fixed (selectSQL (g_txt g));
  i_group : fixed (groupBySQL (g_txt g));
  i_from : fixed (from_ (g_txt g));
  i_where : safe (where_ (g_txt g));
  i_count : Z.of_nat (length (cllBindVars (g_binds g))) = Z.of_nat (placeholders (where_ (g_txt g))) + k
}.

Lemma inv_and {A} (P1 P2 : gq -> Prop) (m : Q A) R1 R2 :
  triple P1 m R1 -> triple P2 m R2 -> triple (fun g => P1 g /\ P2 g) m (fun a g => R1 a g /\ R2 a g).
Proof. intros H1 H2 g a g' [HP1 HP2] E. split; [by eapply H1|by eapply H2]. Qed.

Lemma inv_add_where k t : safe t -> triple (inv k) (add_where t) (fun _ => inv (k - Z.of_nat (placeholders t))).
Proof.
  intros Ht. apply triple_cat. intros g []. split; try done; cbn.
  - by apply safe_app.
  - rewrite placeholders_app. lia.
Qed.

Lemma inv_add_where_fixed k t : fixed t -> triple (inv k) (add_where t) (fun _ => inv k).
Proof. intros [Ht H0]. eapply triple_post; [|by apply inv_add_where]. intros ? g. by rewrite H0, Z.sub_0_r. Qed.

Lemma inv_add_select k t : fixed t -> triple (inv k) (add_select t) (fun _ => inv k).
Proof. intros Ht. apply triple_cat. intros g []. split; try done. by apply fixed_app. Qed.

Lemma inv_add_group k t : fixed t -> triple (inv k) (add_group t) (fun _ => inv k).
Proof. intros Ht. apply triple_cat. intros g []. split; try done. by apply fixed_app. Qed.

Lemma inv_add_from k t : fixed t -> triple (inv k) (add_to_from t) (fun _ => inv k).
Proof. intros Ht. apply triple_cat. intros g []. split; try done. by apply fixed_app. Qed.

Lemma inv_push k v : triple (inv k) (push_bind v) (fun _ => inv (k + 1)).
Proof. apply triple_binds. intros g []. split; try done. cbn. rewrite length_app. cbn. lia. Qed.

(** A change of the buffers alone. *)
Lemma inv_buffers k f : (forall b, cllBindVars (f b) = cllBindVars b) -> triple (inv k) (binds_ f) (fun _ => inv k).
Proof. intros H. apply triple_binds. intros g []. split; try done. cbn. by rewrite H. Qed.

Lemma inv_flags k f : (forall t, selectSQL (f t) = selectSQL t /\ groupBySQL (f t) = groupBySQL t /\ from_ (f t) = from_ t /\ where_ (f t) = where_ t) ->
  triple (inv k) (txt_ f) (fun _ => inv k).
Proof. intros H. apply triple_txt. intros g []. destruct (H (g_txt g)) as (E1 & E2 & E3 & E4). by split; cbn; rewrite ?E1, ?E2, ?E3, ?E4. Qed.

Ltac fixed_text := apply fixedb_spec; vm_compute; reflexivity.
Ltac safe_text := apply Forall_forall; intros c Hc; apply list_elem_of_In in Hc; revert c Hc; apply forallb_forall; vm_compute; reflexivity.

Ltac fix_or_given := first [done | fixed_text].

Section text.
Variable sc : schema.
Hypothesis Hfix : schema_fixed sc = true.

Lemma schema_text :
  (forall t, t ∈ Tables sc -> fixed (tableName t) /\ fixed (tableAlias t)) /\
  (forall c, c ∈ Columns sc -> fixed (columnTable c) /\ fixed (columnName c)) /\
  (forall l, l ∈ Links sc -> fixed (connectingSQL l)).
Proof using Hfix.
  unfold schema_fixed in Hfix. rewrite !andb_true_iff, !forallb_forall in Hfix. destruct Hfix as [[H1 H2] H3]. split_and!.
  - intros t Ht%list_elem_of_In%H1. apply andb_true_iff in Ht as [? ?]. split; by apply fixedb_spec.
  - intros c Hc%list_elem_of_In%H2. apply andb_true_iff in Hc as [? ?]. split; by apply fixedb_spec.
  - intros l Hl%list_elem_of_In%H3. by apply fixedb_spec.
Qed.

Lemma aggregate_fixed o f : aggregate o = Some f -> fixed f.
Proof. unfold aggregate. repeat (destruct (_ =? _); [intros [= <-]; fixed_text|]). done. Qed.

(** What fixed text behind [where] does not change. *)
Definition stable (P : gq -> Prop) : Prop := forall t, fixed t -> triple P (add_where t) (fun _ => P).

(** [where] is [w] with fixed text behind it. *)
Definition ext (w : bstr) (g : gq) : Prop := exists x, where_ (g_txt g) = w ++ x /\ fixed x.
Definition spaced (g : gq) : Prop := exists a, ext (a ++ [" "%char]) g.
Definition begun (g : gq) : Prop := lit "where " `prefix_of` where_ (g_txt g).

Lemma stable_inv k : stable (inv k).
Proof. intros t Ht. by apply inv_add_where_fixed. Qed.

Lemma stable_ext w : stable (ext w).
Proof.
  intros t Ht. apply triple_cat. intros g (x & E & Hx). exists (x ++ t). change (where_ (g_txt (Gq ?a ?b))) with (where_ a).
  split; [|by apply fixed_app]. cbn. by rewrite E, app_assoc.
Qed.

Lemma stable_spaced : stable spaced.
Proof.
  intros t Ht g a g' [w Hw] E. exists w. exact (stable_ext _ t Ht g a g' Hw E).
Qed.

Lemma stable_and P1 P2 : stable P1 -> stable P2 -> stable (fun g => P1 g /\ P2 g).
Proof. intros H1 H2 t Ht. apply (inv_and P1 P2 _ (fun _ => P1) (fun _ => P2)); auto. Qed.

Lemma begun_grows t : triple begun (add_where t) (fun _ => begun).
Proof. apply triple_cat. intros g [x E]. exists (x ++ t). cbn. by rewrite E, <- app_assoc. Qed.

Lemma stable_add_and P : stable P -> triple P add_and (fun _ => P).
Proof. intros H. unfold add_and. apply triple_get. intros g0. apply triple_when; [intros _|by intros _ g [? _]]. eapply triple_pre; [by intros g [? _]|]. apply H. fixed_text. Qed.

Lemma fixed_nil : fixed [].
Proof. fixed_text. Qed.

(** A condition begins behind a blank. *)
Lemma spaced_add_and : triple begun add_and (fun _ => spaced).
Proof.
  unfold add_and. apply triple_get. intros g0. destruct (6 <? _) eqn:E6; cbn [when].
  - apply triple_cat. intros g [_ ->]. exists (where_ (g_txt g0)), (lit "AND "). split; [cbn; by rewrite <- app_assoc|fixed_text].
  - apply triple_ret. intros g [[x E] ->]. exists (lit "where"), []. split; [|apply fixed_nil]. rewrite app_nil_r.
    apply Z.ltb_ge in E6. rewrite E in *. rewrite length_app in E6. destruct x; [done|]. cbn in E6. lia.
Qed.

Definition column_text (castOption : bool) (t : tTable) (c : tColumn) : Q unit :=
  when castOption (add_where (lit "cast ("));;
  g ← get;
  let upper := doUpperCase (g_txt g) && negb castOption in
  when upper (add_where (lit "upper ("));;
  add_where (tableName t);; add_where (lit ".");; add_where (columnName c);;
  when upper (add_where (lit " )"));;
  when castOption (add_where (lit " as decimal)")).

Lemma stable_column_text P castOption t c : stable P -> fixed (tableName t) -> fixed (columnName c) ->
  triple P (column_text castOption t c) (fun _ => P).
Proof.
  intros HP H1 H2. unfold column_text.
  eapply triple_bind; [apply triple_when; [intros _; apply HP; fixed_text|done]|intros ?].
  apply triple_get; intros g0. eapply triple_pre; [by intros g [? _]|].
  eapply triple_bind; [apply triple_when; [intros _; apply HP; fixed_text|done]|intros ?].
  do 3 (eapply triple_bind; [apply HP; done || fixed_text|intros ?]).
  eapply triple_bind; [apply triple_when; [intros _; apply HP; fixed_text|done]|intros ?].
  apply triple_when; [intros _; apply HP; fixed_text|done].
Qed.

Lemma condition_column_spec k w castOption t c : fixed (tableName t) -> fixed (columnName c) ->
  triple (fun g => (inv k g /\ where_ (g_txt g) = w) /\ begun g) (condition_column castOption t c) (fun _ g => (inv k g /\ ext w g) /\ spaced g).
Proof.
  intros H1 H2. change (condition_column castOption t c) with (add_and;; column_text castOption t c).
  eapply triple_bind with (R := fun _ g => (inv k g /\ ext w g) /\ spaced g).
  - apply (inv_and (fun g => inv k g /\ where_ (g_txt g) = w) begun _ (fun _ g => inv k g /\ ext w g) (fun _ => spaced)); [|apply spaced_add_and].
    eapply triple_pre; [|apply (stable_add_and (fun g => inv k g /\ ext w g)), stable_and; [apply stable_inv|apply stable_ext]].
    intros g [Hi E]. split; [done|]. exists []. rewrite app_nil_r. split; [done|apply fixed_nil].
  - intros _. apply stable_column_text; [|done..]. apply stable_and; [apply stable_and; [apply stable_inv|apply stable_ext]|apply stable_spaced].
Qed.

Lemma find_last_behind p a c t i : p c = true -> find_last_idx p (a ++ c :: t) = Some i -> exists n, drop (S i) (a ++ c :: t) = drop n t.
Proof.
  intros Hc. unfold find_last_idx. rewrite fmap_Some. intros (j & Hj & ->).
  rewrite rev_app_distr in Hj. cbn [rev] in Hj. rewrite <- app_assoc in Hj. cbn [app] in Hj.
  assert (j <= length t)%nat as Hl.
  { apply find_idx_Some in Hj as (l & d & r & E & <- & Hd & Hl). destruct (le_lt_dec (length l) (length t)) as [|Hgt]; [done|]. exfalso.
    assert (l !! length t = Some c) as Hlk.
    { assert ((l ++ d :: r) !! length t = Some c) as H by (rewrite <- E, lookup_app_r by (rewrite length_rev; lia); by rewrite length_rev, Nat.sub_diag).
      rewrite lookup_app_l in H by lia. done. }
    rewrite Forall_forall in Hl. rewrite (Hl c) in Hc; [done|]. by eapply list_elem_of_lookup_2. }
  exists (length t - j)%nat. rewrite length_app. cbn [length].
  replace (S (length a + S (length t) - 1 - j)) with (length (a ++ [c]) + (length t - j))%nat by (rewrite length_app; cbn; lia).
  change (a ++ c :: t) with (a ++ [c] ++ t). rewrite app_assoc, <- drop_drop, drop_app_length. done.
Qed.

Lemma last_word_spec k : triple (fun g => inv k g /\ spaced g) last_word (fun col g => inv k g /\ fixed col).
Proof.
  unfold last_word. apply triple_get. intros g0. destruct (find_last_idx _ _) as [i|] eqn:E; [|apply triple_throw].
  apply triple_ret. intros g [[Hi (a & x & Ew & Hx)] ->]. split; [done|]. rewrite Ew, <- app_assoc in E. cbn [app] in E.
  apply find_last_behind in E as [n Hn]; [|done]. rewrite Ew, <- app_assoc. cbn [app]. rewrite Hn.
  rewrite <- (take_drop n x) in Hx. by apply fixed_part in Hx as [_ ?].
Qed.

(** While conditions are added, [where] also has its beginning. *)
Definition good (k : Z) (g : gq) : Prop := inv k g /\ begun g.

Lemma good_add_where k t : safe t -> triple (good k) (add_where t) (fun _ => good (k - Z.of_nat (placeholders t))).
Proof. intros Ht. apply (inv_and (inv k) begun _ (fun _ => inv _) (fun _ => begun)); [by apply inv_add_where|apply begun_grows]. Qed.

Lemma good_fixed k t : fixed t -> triple (good k) (add_where t) (fun _ => good k).
Proof. intros Ht. apply (inv_and (inv k) begun _ (fun _ => inv k) (fun _ => begun)); [by apply inv_add_where_fixed|apply begun_grows]. Qed.

Lemma good_push k v : triple (good k) (push_bind v) (fun _ => good (k + 1)).
Proof. apply (inv_and (inv k) begun _ (fun _ => inv _) (fun _ => begun)); [apply inv_push|]. by apply triple_binds. Qed.

Lemma good_buffers k f : (forall b, cllBindVars (f b) = cllBindVars b) -> triple (good k) (binds_ f) (fun _ => good k).
Proof. intros H. apply (inv_and (inv k) begun _ (fun _ => inv _) (fun _ => begun)); [by apply inv_buffers|]. by apply triple_binds. Qed.

Lemma good_get {B} k (f : gq -> Q B) R : (forall g, triple (good k) (f g) R) -> triple (good k) (g ← get; f g) R.
Proof. intros H. apply triple_get. intros g0. eapply triple_pre; [|apply H]. by intros g [? _]. Qed.

Lemma good_check k n : triple (good k) (check_binds n) (fun _ => good k).
Proof. unfold check_binds. apply good_get. intros g. apply triple_when; [|done]. intros _. apply triple_throw. Qed.

Lemma triple_lift {A} P (r : res A) R : (forall a g, P g -> r = Ok a -> R a g) -> triple P (lift r : Q A) R.
Proof. intros H g a g' HP [= -> <-]. by apply H. Qed.

Lemma good_sub k j t : safe t -> j = k - Z.of_nat (placeholders t) -> triple (good k) (add_where t) (fun _ => good j).
Proof. intros Ht ->. by apply good_add_where. Qed.

Lemma good_in_loop k ls : forall nput, triple (good k) (in_loop nput ls) (fun _ => good k).
Proof.
  induction ls as [|l ls IH]; intros nput; cbn [in_loop]; [by apply triple_ret|].
  eapply triple_bind; [apply (good_sub k (k - 1)); destruct nput; safe_text || (vm_compute; destruct k; reflexivity) || done|intros ?].
  apply good_get; intros g0. eapply triple_bind; [apply (triple_lift _ _ (fun _ => good (k - 1))); done|intros [m ok]].
  eapply triple_bind; [by apply good_buffers|intros ?]. destruct ok; [|apply triple_throw]. eapply triple_bind; [apply good_check|intros ?].
  eapply triple_bind; [apply good_push|intros ?]. replace (k - 1 + 1) with k by lia.
  eapply triple_bind; [by apply good_buffers|intros ?]. apply IH.
Qed.

Lemma good_between_loop k ls : forall nput ix, triple (good k) (between_loop nput ix ls) (fun _ => good k).
Proof.
  induction ls as [|l ls IH]; intros nput ix; cbn [between_loop]; [by apply triple_ret|].
  eapply triple_bind; [apply (good_sub k (k - 1)); destruct nput; safe_text || (vm_compute; destruct k; reflexivity) || done|intros ?].
  apply good_get; intros g0. eapply triple_bind; [apply (triple_lift _ _ (fun _ => good (k - 1))); done|intros [m ok]].
  eapply triple_bind; [by apply good_buffers|intros ?]. destruct ok; [|apply triple_throw]. eapply triple_bind; [apply good_check|intros ?].
  eapply triple_bind; [apply good_push|intros ?]. replace (k - 1 + 1) with k by lia. apply IH.
Qed.

Lemma good_in k c : triple (good k) (addInClauseToWhereForIn c) (fun _ => good k).
Proof.
  unfold addInClauseToWhereForIn. eapply triple_bind; [apply good_fixed; fixed_text|intros ?].
  eapply triple_bind; [apply good_in_loop|intros n]. eapply triple_bind; [apply good_fixed; fixed_text|intros ?].
  apply triple_when; [intros _; apply triple_throw|done].
Qed.

Lemma good_between k c : triple (good k) (addBetweenClauseToWhere c) (fun _ => good k).
Proof.
  unfold addBetweenClauseToWhere. eapply triple_bind; [apply good_fixed; fixed_text|intros ?].
  eapply triple_bind; [apply good_between_loop|intros n]. apply triple_when; [intros _; apply triple_throw|done].
Qed.

Lemma in_clause_safe n : safe (in_clause n) /\ placeholders (in_clause n) = n.
Proof.
  assert (forall m, safe (concat (map (fun si => if Nat.eqb si 0 then lit "?" else lit ", ?") (seq m n))) /\
    placeholders (concat (map (fun si => if Nat.eqb si 0 then lit "?" else lit ", ?") (seq m n))) = n) as H.
  { induction n as [|n IH]; intros m; cbn [seq map concat]; [split; [constructor|done]|]. destruct (IH (S m)) as [H1 H2].
    rewrite safe_app, placeholders_app, H2. destruct (Nat.eqb m 0); (split; [split; [safe_text|done]|done]). }
  unfold in_clause. rewrite !safe_app, !placeholders_app. destruct (H O) as [H1 ->]. split; [|change (placeholders (lit " IN (")) with O; change (placeholders (lit ")")) with O; lia].
  split_and!; [safe_text|done|safe_text].
Qed.

Lemma good_parents k split_path c : triple (good k) (addInClauseToWhereForParentOf split_path c) (fun _ => good k).
Proof.
  unfold addInClauseToWhereForParentOf. cbv zeta. set (n := length _). destruct (in_clause_safe n) as [Hs Hp].
  eapply triple_bind; [by apply good_buffers|intros ?]. eapply triple_bind; [by apply good_add_where|intros ?]. rewrite Hp.
  eapply triple_bind; [apply good_check|intros ?]. apply triple_binds. intros g [[] Hb]. split; [|done]. split; try done.
  cbn -[where_]. rewrite length_app, length_map, length_seq. lia.
Qed.

(** *** Operators *)

Lemma strstr_match s w i : strstr s w = Some i -> exists a b, s = a ++ w ++ b /\ length a = i.
Proof.
  revert i. induction s as [|c s IH]; intros i; cbn [strstr].
  - rewrite take_nil. destruct (bstr_eqb [] w) eqn:E; [|done]. apply bstr_eqb_eq in E as <-. intros [= <-]. by exists [], [].
  - destruct (bstr_eqb (take (length w) (c :: s)) w) eqn:E.
    + apply bstr_eqb_eq in E. intros [= <-]. exists [], (drop (length w) (c :: s)). split; [|done]. rewrite <- E at 1. cbn [app]. by rewrite take_drop.
    + intros (j & Hj & ->)%fmap_Some. apply IH in Hj as (a & b & -> & <-). by exists (c :: a), b.
Qed.

Lemma blank_word_fixed w s : fixed w -> fixed (blank_word w s) -> fixed s.
Proof.
  intros Hw. unfold blank_word. destruct (strstr s w) as [i|] eqn:E; [|done]. apply strstr_match in E as (a & b & -> & <-).
  rewrite take_app_length, drop_app_add. rewrite drop_app_length.
  intros [Ha [_ Hb]%fixed_part]%fixed_part. by repeat apply fixed_app.
Qed.

Lemma operator_words_fixed : Forall fixed operator_words.
Proof. unfold operator_words. repeat constructor; try fixed_text. Qed.

(** What [checkCondition] accepts. *)
Lemma checkCondition_fixed c : checkCondition c = 0 -> fixed c.
Proof.
  unfold checkCondition. destruct (20 <=? _); [done|]. destruct (forallb _ _) eqn:E; [|done]. intros _.
  assert (fixed (map (fun c => if is_comparison c then " "%char else c) c)) as H.
  { assert (fixed (foldl (fun s w => blank_word w s) (map (fun c => if is_comparison c then " "%char else c) c) operator_words)) as H.
    { generalize dependent (foldl (fun s w => blank_word w s) (map (fun c => if is_comparison c then " "%char else c) c) operator_words).
      intros s Hs. rewrite forallb_forall in Hs. split.
      - apply Forall_forall. intros x Hx%list_elem_of_In%Hs. by apply Ascii.eqb_eq in Hx as <-.
      - apply placeholders_none. intros Hx%list_elem_of_In%Hs. done. }
    clear E. revert H. pose proof operator_words_fixed as Hw. generalize (map (fun c => if is_comparison c then " "%char else c) c).
    induction Hw as [|w ws Hw Hws IH]; intros s; cbn [foldl]; [done|]. intros H. apply (blank_word_fixed w); [done|]. by apply IH. }
  clear E. destruct H as [H1 H2]. unfold fixed, safe. induction c as [|x c IH]; [done|]. cbn [map] in *.
  apply Forall_cons in H1 as [Hx H1]. unfold placeholders in *. cbn [List.filter] in *.
  destruct (is_comparison x) eqn:Ex.
  - destruct IH as [IH1 IH2]; [done|done|]. apply is_any_of_true, list_elem_of_In in Ex.
    assert (sql_char x = true /\ Ascii.eqb placeholder x = false) as [Hs ->] by (destruct Ex as [<-|[<-|[<-|[<-|[]]]]]; done).
    split; [by constructor|done].
  - destruct (Ascii.eqb placeholder x); [done|]. destruct IH as [IH1 IH2]; [done|done|]. split; [by constructor|done].
Qed.

(** *** Conditions *)

Lemma triple_pure {A} (phi : Prop) P (m : Q A) R : (phi -> triple P m R) -> triple (fun g => P g /\ phi) m R.
Proof. intros H g a g' [HP Hp] E. by eapply (H Hp). Qed.

(** Where a condition may be added. *)
Definition ready_for (k : Z) (g : gq) : Prop := good k g /\ spaced g.

Lemma ready_buffers k f : (forall b, cllBindVars (f b) = cllBindVars b) -> triple (ready_for k) (binds_ f) (fun _ => ready_for k).
Proof. intros H. apply (inv_and (good k) spaced _ (fun _ => good k) (fun _ => spaced)); [by apply good_buffers|by apply triple_binds]. Qed.

Lemma ready_push k v : triple (ready_for k) (push_bind v) (fun _ => ready_for (k + 1)).
Proof. apply (inv_and (good k) spaced _ (fun _ => good _) (fun _ => spaced)); [apply good_push|by apply triple_binds]. Qed.

Lemma ready_get {B} k (f : gq -> Q B) R : (forall g, triple (ready_for k) (f g) R) -> triple (ready_for k) (g ← get; f g) R.
Proof. intros H. apply triple_get. intros g0. eapply triple_pre; [|apply H]. by intros g [? _]. Qed.

Lemma ready_check k n : triple (ready_for k) (check_binds n) (fun _ => ready_for k).
Proof. unfold check_binds. apply ready_get. intros g. apply triple_when; [|done]. intros _. apply triple_throw. Qed.

Lemma ready_last_word k : triple (ready_for k) last_word (fun col g => good k g /\ fixed col).
Proof.
  unfold ready_for, good. eapply triple_pre; [|eapply triple_post; [|apply (inv_and (fun g => inv k g /\ spaced g) begun last_word (fun col g => inv k g /\ fixed col) (fun _ => begun)); [apply last_word_spec|]]].
  - intros g. tauto.
  - cbn. intros a g. tauto.
  - unfold last_word. apply triple_get. intros g0. destruct (find_last_idx _ _); [|apply triple_throw]. apply triple_ret. by intros g [? _].
Qed.

Lemma ready_good k g : ready_for k g -> good k g.
Proof. by intros [? _]. Qed.

(** A variable was just bound. *)
Definition bound (k : Z) (g : gq) : Prop := ready_for k g /\ cllBindVars (g_binds g) <> [].

Lemma bound_push k v : triple (ready_for k) (push_bind v) (fun _ => bound (k + 1)).
Proof.
  apply triple_pre with (P' := fun g => ready_for k g /\ True); [done|].
  apply (inv_and (ready_for k) (fun _ => True) _ (fun _ => ready_for _) (fun _ g => cllBindVars (g_binds g) <> [])); [apply ready_push|].
  apply triple_binds. intros g _. cbn. intros E%app_eq_nil. by destruct E.
Qed.

Lemma good_pop k : triple (bound (k + 1)) (binds_ (fun b => set_vars (removelast (cllBindVars b)) b)) (fun _ => good k).
Proof.
  apply triple_binds. intros g [[[[] Hb] _] Hne]. split; [|done]. split; try done. cbn -[where_].
  destruct (exists_last Hne) as (l & x & E). rewrite E in *. rewrite removelast_last. rewrite length_app in *. cbn [length] in *. lia.
Qed.

(** The comparison with the text before it, once that is known to be fixed. *)
Definition comparison (split_path : bstr -> list bstr) (tmpStr value : bstr) : Q unit :=
  match strstr tmpStr (lit "begin_of") with
  | Some _ =>
      col ← last_word;
      add_where (lit "=substr(?,1,char_length(");; add_where col;; add_where (lit "))");;
      add_where (lit " AND char_length(");; add_where col;; add_where (lit ")>0")
  | None =>
      match strstr tmpStr (lit "parent_of") with
      | Some _ => binds_ (fun b => set_vars (removelast (cllBindVars b)) b);; addInClauseToWhereForParentOf split_path value
      | None => add_where (tmpStr ++ lit "? ")
      end
  end.

Lemma good_comparison split_path k tmpStr value : fixed tmpStr -> triple (bound (k + 1)) (comparison split_path tmpStr value) (fun _ => good k).
Proof.
  intros [Hs Hp]. unfold comparison. destruct (strstr tmpStr (lit "begin_of")) as [i|]; [|destruct (strstr tmpStr (lit "parent_of")) as [j|]].
  - eapply triple_bind; [eapply triple_pre; [|apply ready_last_word]; by intros g [? _]|]. intros col. apply triple_pure. intros Hcol.
    eapply triple_bind; [apply (good_sub _ k); [safe_text|change (placeholders _) with 1%nat; lia]|intros ?].
    do 4 (eapply triple_bind; [apply good_fixed; done || fixed_text|intros ?]). apply good_fixed; fixed_text.
  - eapply triple_bind; [apply good_pop|intros ?]. apply good_parents.
  - eapply triple_pre; [|apply (good_sub (k + 1) k)].
    + by intros g [[? _] _].
    + apply safe_app. split; [done|safe_text].
    + rewrite placeholders_app, Hp. change (placeholders (lit "? ")) with 1%nat. lia.
Qed.

(** A condition adds as many placeholders as it binds variables, and nothing else of what the
    client sent. *)
Lemma good_insertWhere split_path k condition : triple (ready_for k) (insertWhere split_path condition) (fun _ => good k).
Proof.
  unfold insertWhere. destruct (begins_with "in" "IN" condition); [eapply triple_pre; [apply ready_good|apply good_in]|].
  destruct (begins_with "between" "BETWEEN" condition); [eapply triple_pre; [apply ready_good|apply good_between]|].
  destruct (bstr_eqb condition (lit "IS NULL") || bstr_eqb condition (lit "IS NOT NULL")) eqn:En.
  { eapply triple_pre; [apply ready_good|]. assert (fixed condition) as Hc by (apply orb_true_iff in En as [->%bstr_eqb_eq| ->%bstr_eqb_eq]; fixed_text).
    do 2 (eapply triple_bind; [apply good_fixed; done || fixed_text|intros ?]). apply good_fixed; fixed_text. }
  eapply triple_bind; [by apply ready_buffers|intros ?]. apply ready_get; intros g0. cbv zeta.
  destruct (find_idx is_quote condition) as [first|]; [|apply triple_throw].
  destruct (find_last_idx is_quote condition) as [second|]; [|apply triple_throw].
  destruct (Nat.eqb first second); [apply triple_throw|]. destruct (_ <? _); [apply triple_throw|].
  eapply triple_bind; [by apply ready_buffers|intros ?]. eapply triple_bind; [apply ready_check|intros ?].
  eapply triple_bind; [apply bound_push|intros ?]. destruct (10 <? first)%nat; [apply triple_throw|]. destruct (Nat.eqb first 0); [apply triple_throw|].
  destruct (checkCondition (lit " " ++ take first condition) =? 0) eqn:Ec.
  - apply Z.eqb_eq, checkCondition_fixed in Ec. eapply triple_bind; [by apply (good_comparison split_path)|intros ?]. by apply triple_ret.
  - eapply triple_bind with (R := fun _ _ => True); [by intros ? ? ? ? ?|intros ?; apply triple_throw].
Qed.

(** *** Compound conditions *)

Definition blank_end (g : gq) : Prop := exists a, where_ (g_txt g) = a ++ [" "%char].

Lemma good_blank k t : fixed (t ++ [" "%char]) -> triple (good k) (add_where (t ++ [" "%char])) (fun _ g => good k g /\ blank_end g).
Proof.
  intros Ht. eapply triple_pre with (P' := fun g => good k g /\ True); [done|].
  apply (inv_and (good k) (fun _ => True) _ (fun _ => good k) (fun _ => blank_end)); [by apply good_fixed|].
  apply triple_cat. intros g _. exists (where_ (g_txt g) ++ t). by rewrite <- app_assoc.
Qed.

Lemma ready_column k t : fixed t -> triple (fun g => good k g /\ blank_end g) (add_where t) (fun _ => ready_for k).
Proof.
  intros Ht. apply (inv_and (good k) blank_end _ (fun _ => good k) (fun _ => spaced)); [by apply good_fixed|].
  apply triple_cat. intros g [a E]. exists a, t. cbn -[where_]. by rewrite E.
Qed.

Lemma next_operator_text s i op : next_operator s = Some (i, op) -> exists t, op = t ++ [" "%char] /\ fixed op.
Proof.
  unfold next_operator. intros H. assert (op = lit " OR " \/ op = lit " AND ") as [->| ->].
  { destruct (strstr _ (lit "||")), (strstr _ (lit "&&")); try destruct (_ <? _)%nat; simplify_eq; tauto. }
  - exists (lit " OR"). split; [done|fixed_text].
  - exists (lit " AND"). split; [done|fixed_text].
Qed.

Lemma good_compound_loop split_path k tab : fixed tab -> forall fuel cond,
  triple (fun g => good k g /\ blank_end g) (compound_loop split_path fuel tab cond) (fun _ => good k).
Proof.
  intros Ht. induction fuel as [|fuel IH]; intros cond; cbn [compound_loop]; destruct (next_operator cond) as [[i op]|] eqn:E.
  - apply triple_throw.
  - eapply triple_bind; [by apply ready_column|intros ?]. apply good_insertWhere.
  - destruct (next_operator_text _ _ _ E) as (t & -> & Hop).
    eapply triple_bind; [by apply ready_column|intros ?]. apply ready_get; intros g0. cbv zeta. destruct (_ <? _)%nat; [apply triple_throw|].
    eapply triple_bind; [apply good_insertWhere|intros ?]. eapply triple_bind; [by apply good_buffers|intros ?].
    eapply triple_bind; [by apply good_blank|intros ?]. apply IH.
  - eapply triple_bind; [by apply ready_column|intros ?]. apply good_insertWhere.
Qed.

Lemma column_start_ge w n : (n <= column_start w n)%nat.
Proof. unfold column_start. cbv zeta. destruct (bstr_eqb _ _); lia. Qed.

Lemma good_compound split_path k w cond : lit "where " `prefix_of` w ->
  triple (fun g => good k g /\ ext w g) (handleCompoundCondition split_path cond (length w)) (fun _ => good k).
Proof.
  intros Hw. unfold handleCompoundCondition. apply triple_get. intros g0. cbv zeta. set (n := column_start _ _).
  assert (length w <= n)%nat as Hn by apply column_start_ge.
  eapply triple_bind with (R := fun _ g => good k g /\ fixed (drop n (where_ (g_txt g0)))).
  - apply triple_txt. intros g [[[[] Hb] (x & E & Hx)] ->]. rewrite E. rewrite take_app_ge, drop_app_ge by done.
    rewrite <- (take_drop (n - length w) x) in Hx. apply fixed_part in Hx as [[Hx1 Hx2] Hx3]. split; [|done]. split.
    + split; try done; cbn -[where_]; change (where_ (put_where ?a ?b)) with a.
      * rewrite E in i_where0. apply safe_app in i_where0 as [? _]. by apply safe_app.
      * rewrite E in i_count0. rewrite placeholders_app in *. rewrite <- (take_drop (n - length w) x), placeholders_app, Hx2 in i_count0.
        destruct Hx3 as [_ Hx3]. rewrite Hx3 in i_count0. lia.
    + unfold begun. cbn -[where_]. change (where_ (put_where ?a ?b)) with a. destruct Hw as [y ->]. exists (y ++ take (n - length (lit "where " ++ y)) x).
      by rewrite app_assoc.
  - intros ?. apply triple_pure. intros Hd. eapply triple_bind; [apply (good_blank k (lit " (")); fixed_text|intros ?].
    destruct (_ <=? _)%nat; [apply triple_throw|]. eapply triple_bind; [by apply good_compound_loop|intros ?]. apply good_fixed; fixed_text.
Qed.

(** *** Columns *)

Lemma good_select k t : fixed t -> triple (good k) (add_select t) (fun _ => good k).
Proof. intros Ht. apply (inv_and (inv k) begun _ (fun _ => inv k) (fun _ => begun)); [by apply inv_add_select|by apply triple_cat]. Qed.
Lemma good_group k t : fixed t -> triple (good k) (add_group t) (fun _ => good k).
Proof. intros Ht. apply (inv_and (inv k) begun _ (fun _ => inv k) (fun _ => begun)); [by apply inv_add_group|by apply triple_cat]. Qed.
Lemma good_from k t : fixed t -> triple (good k) (add_to_from t) (fun _ => good k).
Proof. intros Ht. apply (inv_and (inv k) begun _ (fun _ => inv k) (fun _ => begun)); [by apply inv_add_from|by apply triple_cat]. Qed.

Lemma good_flags k f : (forall t, selectSQL (f t) = selectSQL t /\ groupBySQL (f t) = groupBySQL t /\ from_ (f t) = from_ t /\ where_ (f t) = where_ t) ->
  triple (good k) (txt_ f) (fun _ => good k).
Proof.
  intros H. apply (inv_and (inv k) begun _ (fun _ => inv k) (fun _ => begun)); [by apply inv_flags|]. apply triple_txt. intros g [x E].
  destruct (H (g_txt g)) as (_ & _ & _ & Hw). exists x. cbn -[where_]. by rewrite Hw.
Qed.

Lemma good_select_column k o t c :
  fixed (tableName t) -> fixed (tableAlias t) -> fixed (columnName c) ->
  triple (good k) (select_column o t c) (fun _ => good k).
Proof.
  intros H1 H2 H3. unfold select_column. apply good_get; intros g0.
  eapply triple_bind; [apply triple_when; [intros _; apply good_select; fixed_text|done]|intros ?].
  eapply triple_bind; [by apply good_flags|intros ?].
  eapply triple_bind with (R := fun _ => good k). { destruct (aggregate o) eqn:E; [apply good_select; by eapply aggregate_fixed|by apply triple_ret]. }
  intros ?. do 4 (eapply triple_bind; [apply good_select; fix_or_given|intros ?]).
  eapply triple_bind with (R := fun _ => good k).
  { destruct (aggregate o).
    - eapply triple_bind; [apply good_select; fixed_text|intros ?]. by apply good_flags.
    - apply good_get; intros g1. eapply triple_bind; [apply triple_when; [intros _; apply good_group; fixed_text|done]|intros ?].
      do 3 (eapply triple_bind; [apply good_group; fix_or_given|intros ?]). apply good_group; fixed_text. }
  intros ?. apply good_get; intros g2. apply triple_when; [intros _|done].
  eapply triple_bind; [apply good_from; destruct (_ =? 0); fixed_text|intros ?].
  eapply triple_bind; [by apply good_flags|intros ?]. eapply triple_bind; [by apply good_from|intros ?]. apply good_from; fixed_text.
Qed.

(** The table and the column of a number. *)
Lemma find_column_in column c i : find_column sc column = Some c ->
  find_idx (fun t => bstr_eqb (tableName t) (columnTable c)) (Tables sc) = Some i -> c ∈ Columns sc /\ table_at sc i ∈ Tables sc.
Proof.
  intros Hc Hi. split.
  - unfold find_column in Hc. apply find_some in Hc as [Hc _]. by apply list_elem_of_In, in_rev.
  - apply find_idx_Some in Hi as (l & t & r & E & <- & _). unfold table_at. rewrite E, list_lookup_middle by done. cbn.
    apply elem_of_app. right. left.
Qed.

Lemma triple_try {A} P (m : Q A) h R : (forall e, exists e', h e = Throw e') -> triple P m R -> triple P (try_catch m h) R.
Proof.
  intros Hh Hm g a g' HP. unfold try_catch. destruct (m g) as [[x|e] g1] eqn:E; [intros [= -> ->]; by eapply Hm|].
  destruct (Hh e) as [e' ->]. done.
Qed.

Lemma need_table_text i s : fromSQL (need_table i s) = fromSQL s /\ whereSQL (need_table i s) = whereSQL s.
Proof. unfold need_table. by destruct (_ =? 0). Qed.

Lemma good_need k i : triple (good k) (txt_ (fun t => set_sql (need_table i (g_sql t)) t)) (fun _ => good k).
Proof. apply good_flags. intros t. unfold from_, where_. cbn. by destruct (need_table_text i (g_sql t)). Qed.

Lemma good_select_table k column o : triple (good k) (set_table sc column true o false) (fun _ => good k).
Proof using Hfix.
  unfold set_table. eapply triple_bind with (R := fun _ => good k).
  - apply triple_try; [intros []; by eexists|]. unfold setTable. destruct (find_column sc column) as [c|] eqn:Ec; [|by apply triple_ret].
    destruct (find_idx _ _) as [i|] eqn:Ei; [|by apply triple_ret]. destruct (find_column_in _ _ _ Ec Ei) as [Hc Hi].
    destruct schema_text as (H1 & H2 & _). destruct (H1 _ Hi), (H2 _ Hc).
    eapply triple_bind; [apply good_need|intros ?]. eapply triple_bind; [by apply good_select_column|intros ?]. by apply triple_ret.
  - intros [i|]; [by apply triple_ret|apply triple_throw].
Qed.

Lemma good_condition_table k w column castOption : 
  triple (fun g => good k g /\ where_ (g_txt g) = w) (set_table sc column false 0 castOption) (fun _ g => ready_for k g /\ ext w g).
Proof using Hfix.
  unfold set_table. eapply triple_bind with (R := fun i g => match i : option nat with Some _ => ready_for k g /\ ext w g | None => True end).
  - apply triple_try; [intros []; by eexists|]. unfold setTable. destruct (find_column sc column) as [c|] eqn:Ec; [|by apply triple_ret].
    destruct (find_idx _ _) as [i|] eqn:Ei; [|by apply triple_ret]. destruct (find_column_in _ _ _ Ec Ei) as [Hc Hi].
    destruct schema_text as (H1 & H2 & _). destruct (H1 _ Hi), (H2 _ Hc).
    eapply triple_bind with (R := fun _ g => good k g /\ where_ (g_txt g) = w).
    { apply (inv_and (good k) (fun g => where_ (g_txt g) = w) _ (fun _ => good k) (fun _ g => where_ (g_txt g) = w)); [apply good_need|].
      apply triple_txt. intros g <-. apply need_table_text. }
    intros ?. eapply triple_bind with (R := fun _ g => (((inv k g /\ ext w g) /\ spaced g) /\ begun g)).
    { eapply triple_pre; [|apply (inv_and (fun g => (inv k g /\ where_ (g_txt g) = w) /\ begun g) begun _ (fun _ g => (inv k g /\ ext w g) /\ spaced g) (fun _ => begun))].
      - intros g [[? ?] ?]. done.
      - by apply condition_column_spec.
      - change (condition_column castOption (table_at sc i) c) with (add_and;; column_text castOption (table_at sc i) c).
        assert (stable begun) as Hst by (intros t _; apply begun_grows).
        eapply triple_bind; [by apply stable_add_and|intros ?]. by apply stable_column_text. }
    intros ?. apply triple_ret. intros g [[[? ?] ?] ?]. done.
  - intros [i|]; [by apply triple_ret|apply triple_throw].
Qed.

Lemma good_select_loop k sel : forall start, triple (good k) (select_loop sc start sel) (fun _ => good k).
Proof using Hfix.
  induction sel as [|[inx value] sel IH]; intros start; cbn [select_loop]; [by apply triple_ret|].
  eapply triple_bind; [apply good_select_table|intros i]. apply IH.
Qed.

Lemma good_condition_loop split_path k conds : forall start, triple (good k) (condition_loop sc split_path start conds) (fun _ => good k).
Proof using Hfix.
  induction conds as [|[inx value] conds IH]; intros start; cbn [condition_loop]; [by apply triple_ret|].
  apply triple_get; intros g0. destruct (cast_condition value) as [castOption condition]. set (w := where_ (g_txt g0)).
  apply triple_pre with (P' := fun g => (good k g /\ where_ (g_txt g) = w) /\ lit "where " `prefix_of` w).
  { intros g [Hg ->]. repeat split; apply Hg. }
  apply triple_pure. intros Hw. eapply triple_bind; [apply good_condition_table|intros i].
  eapply triple_bind with (R := fun _ => good k); [|intros ?; apply IH].
  destruct (compoundConditionSpecified condition).
  - eapply triple_pre; [|by apply good_compound]. by intros g [[? _] ?].
  - eapply triple_pre; [|by apply good_insertWhere]. by intros g [? _].
Qed.

(** *** The links *)

(** Fixed text was added to the clauses. *)
Definition grown (s s' : sql) : Prop :=
  exists x y, whereSQL s' = whereSQL s ++ x /\ fromSQL s' = fromSQL s ++ y /\ fixed x /\ fixed y.

Lemma grown_same s s' : whereSQL s' = whereSQL s -> fromSQL s' = fromSQL s -> grown s s'.
Proof. intros H1 H2. exists [], []. rewrite !app_nil_r. pose proof fixed_nil. done. Qed.

#[local] Instance grown_trans : PreOrder grown.
Proof.
  split; [intros s; by apply grown_same|]. intros s1 s2 s3 (x & y & Ew & Ef & Hx & Hy) (x' & y' & Ew' & Ef' & Hx' & Hy').
  exists (x ++ x'), (y ++ y'). rewrite Ew', Ef', Ew, Ef, !app_assoc. split_and!; try done; by apply fixed_app.
Qed.

Definition grows (m : step) : Prop := forall s, grown s (m s).1.

Lemma grows_then m n : grows m -> grows n -> grows (then_ m n).
Proof. intros Hm Hn s. specialize (Hm s). unfold then_. destruct (m s) as [s1 [code|]]; [done|]. etrans; [exact Hm|apply Hn]. Qed.

Lemma grows_where t : fixed t -> grows (cat_where t).
Proof.
  intros Ht s. unfold cat_where. destruct (rstrcat _ _ _) as [r|] eqn:E; [|done]. apply rstrcat_step in E as ->. exists t, []. cbn. rewrite app_nil_r.
  pose proof fixed_nil. done.
Qed.

Lemma grows_from t : fixed t -> grows (cat_from t).
Proof.
  intros Ht s. unfold cat_from. destruct (rstrcat _ _ _) as [r|] eqn:E; [|done]. apply rstrcat_step in E as ->. exists [], t. cbn. rewrite app_nil_r.
  pose proof fixed_nil. done.
Qed.

Lemma grows_and : grows cat_and.
Proof. intros s. unfold cat_and. destruct (6 <? _); [|done]. apply grows_where. fixed_text. Qed.

Lemma grows_add_from a : fixed a -> grows (add_from a).
Proof.
  intros Ha s. unfold add_from. destruct (tablePresent _ _); [done|].
  by repeat apply grows_then; apply grows_from; fix_or_given.
Qed.

Lemma alias_fixed i : fixed (tableAlias (table_at sc i)).
Proof using Hfix.
  unfold table_at. destruct (Tables sc !! i) as [t|] eqn:E; [|apply fixed_nil]. apply list_elem_of_lookup_2 in E.
  destruct schema_text as (H1 & _ & _). apply (H1 _ E).
Qed.

Lemma grows_use l : l ∈ Links sc -> grows (use_link sc l).
Proof using Hfix.
  intros Hl. destruct schema_text as (_ & _ & H3). unfold use_link. repeat apply grows_then.
  - apply grows_and.
  - apply grows_where. by apply H3.
  - apply grows_where. fixed_text.
  - apply grows_add_from, alias_fixed.
  - apply grows_add_from, alias_fixed.
Qed.

Lemma links_of_in table link i t l : (i, t, l) ∈ links_of sc table link -> l ∈ Links sc.
Proof.
  unfold links_of. rewrite elem_of_app, !list_elem_of_omap. intros [([j l'] & Hin & E)|([j l'] & Hin & E)];
    apply elem_of_zip_r in Hin; revert E; unfold forward, backward; destruct (_ && _); intros [=]; by subst.
Qed.

Lemma grown_links scan ls : (forall t i s s' r, scan t i s = Some (s', r) -> grown s s') -> (forall i t l, (i, t, l) ∈ ls -> l ∈ Links sc) ->
  forall keep s s' r, try_links sc scan ls keep s = Some (s', r) -> grown s s'.
Proof using Hfix.
  intros Hscan. induction ls as [|[[i t] l] ls IH]; intros Hl keep s s' r; cbn [try_links]; [by intros [= <- _]|].
  destruct (scan t (Some i) s) as [[s1 sub]|] eqn:E1; [|done]. cbn [mbind option_bind]. apply Hscan in E1.
  specialize (IH ltac:(intros; eapply Hl; by right)). destruct (sub =? 0); [intros E; etrans; [exact E1|by eapply IH]|].
  pose proof (grows_use l ltac:(eapply Hl; left) s1) as Hu. destruct (use_link sc l s1) as [s2 [code|]]; cbn in Hu; [intros [= <- _]; by etrans|].
  destruct (_ <=? 0); [intros [= <- _]; by etrans|]. intros E. etrans; [exact E1|]. etrans; [exact Hu|by eapply IH].
Qed.

Lemma grown_scan : forall fuel table link s s' r, tScan sc fuel table link s = Some (s', r) -> grown s s'.
Proof using Hfix.
  induction fuel as [|fuel IH]; intros table link s s' r; cbn [tScan]; [done|].
  assert (forall keep s1, grown s s1 -> (if cycler (table_at sc table) =? 1 then Some (s1, keep)
      else try_links sc (tScan sc fuel) (links_of sc table link) keep (set_flag table 3 s1)) = Some (s', r) -> grown s s') as Hrest.
  { intros keep s1 H1. destruct (cycler _ =? 1); [by intros [= <- _]|]. intros E. etrans; [exact H1|].
    apply grown_links in E; [|exact IH|apply links_of_in]. etrans; [|exact E]. by apply grown_same. }
  destruct (_ <=? _)%nat; [by intros [= <- _]|]. destruct (flag s table =? 1).
  - destruct (_ <=? 0); [intros [= <- _]; by apply grown_same|]. apply Hrest. by apply grown_same.
  - destruct (negb _); [by intros [= <- _]|]. by apply Hrest.
Qed.

Lemma good_link_tables k start : triple (good k) (link_tables sc start) (fun _ => good k).
Proof using Hfix.
  unfold link_tables. apply triple_get; intros g0. destruct (tScan sc scan_fuel start None (g_sql (g_txt g0))) as [[s keep]|] eqn:E; [|apply triple_throw].
  apply grown_scan in E as (x & y & Ew & Ef & Hx & Hy). eapply triple_bind with (R := fun _ => good k).
  - apply triple_txt. intros g [[[] [z Hz]] ->]. unfold where_, from_ in *. split; [split|]; cbn; unfold where_, from_; cbn; rewrite ?Ew, ?Ef; try done.
    + by apply fixed_app.
    + apply safe_app. by destruct Hx.
    + rewrite placeholders_app. destruct Hx as [_ ->]. lia.
    + unfold begun, where_. cbn. rewrite Ew, Hz. exists (z ++ x). by rewrite <- app_assoc.
  - intros ?. apply triple_when; [intros _; apply triple_throw|done].
Qed.
End text.

(** *** Several conditions on the names of metadata *)

(** The same placeholders, and characters as safe. *)
Definition same_marks : bstr -> bstr -> Prop :=
  Forall2 (fun c c' => (c = placeholder <-> c' = placeholder) /\ (sql_char c = true -> sql_char c' = true)).

#[local] Instance same_marks_pre : PreOrder same_marks.
Proof.
  split.
  - intros s. apply Forall_Forall2_diag, Forall_true. tauto.
  - intros a b c H1. revert c. induction H1 as [|x y a b Hxy H1 IH]; intros c H2; [exact H2|].
    apply Forall2_cons_inv_l in H2 as (z & c' & Hyz & H2 & ->). constructor; [tauto|]. by apply IH.
Qed.

Lemma same_marks_spec s t : same_marks s t -> placeholders t = placeholders s /\ length t = length s /\ (safe s -> safe t).
Proof.
  induction 1 as [|c c' s t [Hc Hs] H (IH1 & IH2 & IH3)]; [done|]. split_and!.
  - unfold placeholders in *. cbn [List.filter]. destruct (Ascii.eqb_spec placeholder c) as [<-|Hn].
    + assert (c' = placeholder) as -> by tauto. rewrite Ascii.eqb_refl. cbn. by rewrite IH1.
    + rewrite (proj2 (Ascii.eqb_neq placeholder c')); [done|]. intros <-. apply Hn. symmetry. tauto.
  - cbn. by rewrite IH2.
  - intros [Hsc Hsr]%Forall_cons. constructor; [by apply Hs|by apply IH3].
Qed.

Definition plain (c : ascii) : Prop := c <> placeholder /\ sql_char c = true.

Lemma same_marks_plain a b : length a = length b -> Forall plain a -> Forall plain b -> same_marks a b.
Proof.
  intros Hl Ha Hb. apply Forall2_same_length_lookup_2; [done|]. intros i x y Hx Hy.
  destruct (Forall_lookup_1 _ _ _ _ Ha Hx), (Forall_lookup_1 _ _ _ _ Hb Hy). tauto.
Qed.

Lemma same_marks_insert s p c d : s !! p = Some c -> plain c -> plain d -> same_marks s (<[p := d]> s).
Proof.
  intros Hp [Hc1 Hc2] [Hd1 Hd2]. rewrite <- (list_insert_id s p c Hp) at 1. apply Forall2_insert; [reflexivity|tauto].
Qed.

Lemma plain_fixed t : Forall plain t -> fixed t.
Proof.
  intros H. split; [by eapply Forall_impl; [exact H|intros c [_ ?]]|]. apply placeholders_none. intros Hin.
  rewrite Forall_forall in H. by destruct (H _ Hin).
Qed.

Lemma digit_plain c : is_digit c = true -> plain c.
Proof.
  intros H. split; [by intros ->|]. unfold sql_char. by rewrite H, orb_true_r.
Qed.

Lemma number_plain i : 0 <= i -> Forall plain (to_string i).
Proof.
  intros Hi. unfold to_string. destruct (Z.ltb_spec i 0); [lia|]. eapply Forall_impl; [by apply nat_digits_all|apply digit_plain].
Qed.

Lemma two_digits_plain i : 0 <= i -> Forall plain (two_digits i).
Proof. intros Hi. unfold two_digits. destruct (i <? 10); [constructor; [by apply digit_plain|]|]; by apply number_plain. Qed.

Lemma two_digits_long i : 0 <= i -> (2 <= length (two_digits i))%nat.
Proof.
  intros Hi. unfold two_digits. pose proof (to_string_nonempty i) as Hne. destruct (Z.ltb_spec i 10) as [H|H].
  - destruct (to_string i); [done|cbn; lia].
  - unfold to_string. destruct (Z.ltb_spec i 0); [lia|]. unfold nat_digits. rewrite length_map, length_rev.
    cbn [rev_digits]. destruct (Z.ltb_spec i 10); [lia|]. destruct (Z.to_nat (Z.log2 i)) as [|n] eqn:El.
    + pose proof (Z.log2_le_mono 10 i H). change (Z.log2 10) with 3 in *. lia.
    + cbn [rev_digits]. destruct (_ <? 10); cbn; lia.
Qed.

Lemma rename_next_same name i w : Forall plain name -> (16 <= length name)%nat -> 0 <= i -> same_marks w (rename_next name i w).
Proof.
  intros Hn Hl Hi. unfold rename_next. destruct (strstr w name) as [p|] eqn:E; [|reflexivity]. apply strstr_match in E as (a & b & -> & <-).
  rewrite take_app_add, <- drop_drop, drop_app_length. rewrite take_app_le, drop_app_le by lia.
  rewrite <- (take_drop 16 name) at 1. rewrite <- (take_drop 13 (take 16 name)), take_take. rewrite <- !app_assoc.
  apply Forall2_app; [reflexivity|]. apply Forall2_app; [reflexivity|]. rewrite (app_assoc (drop 13 _)), (app_assoc (take 3 _)). apply Forall2_app; [|reflexivity].
  apply Forall2_app; [|reflexivity]. pose proof (two_digits_long i Hi) as H2. apply same_marks_plain.
  - rewrite length_drop, !length_take. cbn [length]. lia.
  - by apply Forall_drop, Forall_take.
  - apply Forall_take. constructor; [by split|by apply two_digits_plain].
Qed.

Lemma numbers_pos n i : i ∈ numbers n -> 0 <= i.
Proof. unfold numbers. intros (j & -> & _)%list_elem_of_fmap. lia. Qed.

Lemma rename_all_same name n w : Forall plain name -> (16 <= length name)%nat -> same_marks w (rename_all name n w).
Proof.
  intros Hn Hl. assert (forall w, same_marks w (foldl (fun w i => rename_next name i w) w (numbers n))) as Hf.
  { pose proof (numbers_pos n) as Hp. revert Hp. generalize (numbers n). intros l. induction l as [|i l IH]; intros Hp v; cbn [foldl]; [reflexivity|].
    etrans; [apply (rename_next_same name i v Hn Hl); apply Hp; left|]. apply IH. intros j Hj. apply Hp. by right. }
  unfold rename_all. destruct (strstr w name) as [p|] eqn:E; [|apply Hf]. apply strstr_match in E as (a & b & -> & <-).
  destruct name as [|c name]; [cbn in Hl; lia|]. apply Forall_cons in Hn as [Hc Hn]. set (v := <[length a := "x"%char]> (a ++ (c :: name) ++ b)).
  assert (v !! length a = Some "x"%char) as Hv. { apply list_lookup_insert_eq. rewrite length_app. cbn. lia. }
  assert (same_marks (a ++ (c :: name) ++ b) v) as H1 by (eapply same_marks_insert; [by apply (list_lookup_middle a (name ++ b) c)|done|by split]).
  etrans; [exact H1|]. etrans; [apply Hf|]. pose proof (Hf v) as H2. destruct (Forall2_lookup_l _ _ _ _ _ H2 Hv) as (d & Hd & Hd1 & Hd2).
  apply (same_marks_insert _ _ d); [done| |by split]. split; [|by apply Hd2]. intros ->. destruct Hd1 as [_ Hd1]. by specialize (Hd1 eq_refl).
Qed.

(** A [where] that is left out has no placeholders. *)
Definition short (g : gq) : Prop := (length (where_ (g_txt g)) <= 6)%nat -> placeholders (where_ (g_txt g)) = O.

Definition kept (k : Z) (g : gq) : Prop := inv k g /\ short g.

Lemma good_kept k g : good k g -> kept k g.
Proof.
  intros [Hi [x E]]. split; [done|]. intros Hs. rewrite E in *. rewrite length_app in Hs. destruct x; [done|]. cbn in Hs. lia.
Qed.

Lemma kept_where k t : fixed t -> triple (kept k) (add_where t) (fun _ => kept k).
Proof.
  intros Ht. apply (inv_and (inv k) short _ (fun _ => inv k) (fun _ => short)); [by apply inv_add_where_fixed|]. apply triple_cat.
  intros g Hs. unfold short in *. cbn -[where_]. change (where_ (put_where ?a ?b)) with a. rewrite length_app, placeholders_app. intros Hl.
  destruct Ht as [_ ->]. rewrite Hs by lia. done.
Qed.

Lemma kept_from k t : fixed t -> triple (kept k) (add_to_from t) (fun _ => kept k).
Proof. intros Ht. apply (inv_and (inv k) short _ (fun _ => inv k) (fun _ => short)); [by apply inv_add_from|by apply triple_cat]. Qed.

Lemma kept_rename k name n : Forall plain name -> (16 <= length name)%nat ->
  triple (kept k) (txt_ (fun t => put_where (rename_all name n (where_ t)) t)) (fun _ => kept k).
Proof.
  intros Hn Hl. apply triple_txt. intros g [[] Hs]. destruct (same_marks_spec _ _ (rename_all_same name n (where_ (g_txt g)) Hn Hl)) as (H1 & H2 & H3).
  split; [split|]; try done; unfold short in *; cbn -[where_]; change (where_ (put_where ?a ?b)) with a.
  - by apply H3.
  - by rewrite H1.
  - by rewrite H1, H2.
Qed.

Ltac plain_text := apply Forall_forall; intros c Hc; split;
  [intros ->; apply list_elem_of_In in Hc; revert Hc; cbn; clear; intuition discriminate|
   apply list_elem_of_In in Hc; revert c Hc; apply forallb_forall; vm_compute; reflexivity].

Lemma multi_fixed kind object i : fixed (lit kind) -> fixed (lit object) -> 0 <= i ->
  fixed (multi_tables kind i) /\ fixed (multi_join kind i) /\ fixed (multi_object kind object i).
Proof.
  intros Hk Ho Hi. pose proof (plain_fixed _ (number_plain i Hi)). pose proof (plain_fixed _ (two_digits_plain i Hi)).
  unfold multi_tables, multi_join, multi_object. split_and!; repeat apply fixed_app; fix_or_given.
Qed.

Lemma kept_multi k kind object n : fixed (lit kind) -> fixed (lit object) ->
  Forall plain (lit "r_" ++ lit kind ++ lit "_meta_main.meta_attr_name") -> Forall plain (lit "r_" ++ lit kind ++ lit "_meta_main.meta_attr_value") ->
  triple (kept k) (handle_multi kind object n) (fun _ => kept k).
Proof.
  intros Hk Ho H1 H2. unfold handle_multi.
  eapply triple_bind; [apply kept_rename; [done|rewrite !length_app; cbn; lia]|intros ?].
  eapply triple_bind; [apply kept_rename; [done|rewrite !length_app; cbn; lia]|intros ?].
  assert (forall i, i ∈ numbers n -> fixed (multi_tables kind i) /\ fixed (multi_join kind i) /\ fixed (multi_object kind object i)) as Hf
    by (intros i Hi; apply multi_fixed; try done; by eapply numbers_pos).
  assert (triple (kept k) (for_each (fun i => add_to_from (multi_tables kind i)) (numbers n)) (fun _ => kept k)) as Hfrom
    by (apply triple_for_each; intros i Hi; apply kept_from; by destruct (Hf i Hi)).
  apply triple_void.
  - eapply triple_bind; [exact Hfrom|intros ?]. apply triple_for_each. intros i Hi. destruct (Hf i Hi) as (_ & ? & ?).
    eapply triple_bind; [by apply kept_where|intros ?]. by apply kept_where.
  - eapply exits_bind; [exact Hfrom|apply exits_for_each; intros i Hi; [apply kept_from; by destruct (Hf i Hi)|by apply exits_cat]|intros ?].
    apply exits_for_each; intros i Hi; destruct (Hf i Hi) as (_ & ? & ?).
    + eapply triple_bind; [by apply kept_where|intros ?]. by apply kept_where.
    + eapply exits_bind; [by apply kept_where|by apply exits_cat|intros ?; by apply exits_cat].
Qed.

Lemma kept_multi_data k n : triple (kept k) (handleMultiDataAVUConditions n) (fun _ => kept k).
Proof. apply kept_multi; [fixed_text|fixed_text|plain_text|plain_text]. Qed.

Lemma kept_multi_coll k n : triple (kept k) (handleMultiCollAVUConditions n) (fun _ => kept k).
Proof. apply kept_multi; [fixed_text|fixed_text|plain_text|plain_text]. Qed.

(** ** The access check *)

Definition access_texts : list bstr := [lit " AND "; ticket_owner; data_access; coll_access; data_ticket; coll_ticket].

(** The clauses once the access check has added to [where]. *)
Record checked (g : gq) : Prop := Checked {
  c_select : fixed (selectSQL (g_txt g));
  c_group : fixed (groupBySQL (g_txt g));
  c_from : fixed (from_ (g_txt g));
  c_where : exists w ts, where_ (g_txt g) = w ++ concat ts /\ safe w /\ Forall (fun t => t ∈ access_texts) ts;
  c_short : short g
}.

Definition balanced (k : Z) (g : gq) : Prop :=
  Z.of_nat (length (cllBindVars (g_binds g))) = Z.of_nat (placeholders (where_ (g_txt g))) + k.

(** No space for a text of the access check. *)
Definition full (g : gq) : Prop := MAX_SQL_SIZE_GQ <= Z.of_nat (length (where_ (g_txt g))) + 500.

Definition settled (k : Z) (g : gq) : Prop := checked g /\ (balanced k g \/ full g).

Lemma kept_checked k g : kept k g -> checked g /\ balanced k g.
Proof. intros [[] Hs]. split; [|done]. split; try done. exists (where_ (g_txt g)), []. split_and!; [by rewrite app_nil_r|done|constructor]. Qed.

Definition clause_text (t : bstr) : Prop := t ∈ access_texts /\ (placeholders t = O \/ (6 < length t)%nat).

Lemma checked_add t : clause_text t -> triple checked (add_where t) (fun _ => checked).
Proof.
  intros [Ht Hp]. apply triple_cat. intros g [? ? ? (w & ts & E & Hw & Hts) Hs]. split; try done.
  - exists w, (ts ++ [t]). change (where_ (g_txt (Gq ?a ?b))) with (where_ a). cbn -[concat]. rewrite concat_app. cbn. rewrite E, app_nil_r, <- app_assoc.
    split_and!; [done|done|]. apply Forall_app. by split; [|constructor].
  - unfold short in *. cbn -[where_]. change (where_ (put_where ?a ?b)) with a. rewrite length_app, placeholders_app. intros Hl.
    destruct Hp as [->|Hp]; [rewrite Hs by lia; done|lia].
Qed.

Lemma balanced_add k t : triple (balanced k) (add_where t) (fun _ => balanced (k - Z.of_nat (placeholders t))).
Proof. apply triple_cat. unfold balanced. intros g H. cbn -[where_]. change (where_ (put_where ?a ?b)) with a. rewrite placeholders_app. lia. Qed.

(** A part of the access check. *)
Definition settles (k : Z) (m : Q unit) : Prop :=
  triple (fun g => checked g /\ balanced k g) m (fun _ g => checked g /\ balanced k g) /\
  exits (fun g => checked g /\ balanced k g) m (settled k).

Lemma settles_seq k m n : settles k m -> settles k n -> settles k (m;; n).
Proof. intros [Hm Hmx] [Hn Hnx]. split; [eapply triple_bind; [exact Hm|by intros ?]|eapply exits_bind; [exact Hm|exact Hmx|by intros ?]]. Qed.

Lemma settles_when k b m : settles k m -> settles k (when b m).
Proof. intros [H1 H2]. split; [apply triple_when; [by intros _|done]|apply exits_when; by intros _]. Qed.

Lemma settles_get k (f : gq -> Q unit) : (forall g0, settles k (f g0)) -> settles k (g ← get; f g).
Proof.
  intros H. split.
  - apply triple_get. intros g0. eapply triple_pre; [|apply H]. by intros g [? _].
  - apply exits_get. intros g0. eapply exits_pre; [|apply H]. by intros g [? _].
Qed.

Lemma settles_code k code : settles k (ret_code code).
Proof. split; [apply triple_throw|]. apply exits_code. intros g [? ?]. split; [done|by left]. Qed.

Lemma settles_and k : settles k add_and.
Proof.
  assert (clause_text (lit " AND ")) as Ht by (split; [left|left; reflexivity]).
  apply settles_get. intros g0. apply settles_when. split.
  - apply (inv_and checked (balanced k) _ (fun _ => checked) (fun _ => balanced k)); [by apply checked_add|].
    eapply triple_post; [|apply balanced_add]. intros ? g. change (placeholders (lit " AND ")) with O. by rewrite Z.sub_0_r.
  - apply exits_cat. intros g [Hc Hb] _. split; [done|by left].
Qed.

Lemma settled_push vars : forall k, triple (fun g => checked g /\ balanced k g) (for_each (fun v => push_bind (BText v)) vars)
  (fun _ g => checked g /\ balanced (k + Z.of_nat (length vars)) g).
Proof.
  induction vars as [|v vars IH]; intros k; cbn [for_each].
  - apply triple_ret. intros g. by rewrite Z.add_0_r.
  - eapply triple_bind; [|intros ?; eapply triple_post; [|apply (IH (k + 1))]].
    + apply triple_binds. intros g [[] Hb]. split; [by split|]. unfold balanced in *. cbn -[where_]. rewrite length_app. cbn. lia.
    + intros ? g [? ?]. split; [done|]. cbn [length]. by replace (k + Z.of_nat (S (length vars))) with (k + 1 + Z.of_nat (length vars)) by lia.
Qed.

Lemma exits_push vars : forall P E, exits P (for_each (fun v => push_bind (BText v)) vars) E.
Proof.
  induction vars as [|v vars IH]; intros P E; cbn [for_each]; [apply exits_ret|].
  eapply exits_bind with (R := fun _ _ => True); [done|apply exits_binds|intros ?; apply IH].
Qed.

Lemma settles_restrict k vars t : clause_text t -> placeholders t = length vars -> (length t <= 500)%nat -> settles k (restrict vars t).
Proof.
  intros Ht Hp Hl. apply settles_seq; [apply settles_and|]. split.
  - eapply triple_bind; [apply settled_push|intros ?].
    apply (inv_and checked (balanced (k + Z.of_nat (length vars))) _ (fun _ => checked) (fun _ => balanced k)); [by apply checked_add|].
    eapply triple_post; [|apply balanced_add]. intros ? g. by rewrite Hp, Z.add_simpl_r.
  - eapply exits_bind; [apply settled_push|apply exits_push|intros ?].
    apply exits_cat. intros g [Hc _] Hf. split; [done|]. right. unfold full. lia.
Qed.

Definition clauses : list bstr := [ticket_owner; data_access; coll_access; data_ticket; coll_ticket].

Lemma clauses_text t : t ∈ clauses -> clause_text t /\ (length t <= 500)%nat.
Proof.
  intros Ht. assert (forallb (fun t => (6 <? length t)%nat && (length t <=? 500)%nat) clauses = true) as H by (vm_compute; reflexivity).
  rewrite forallb_forall in H. specialize (H t (proj1 (list_elem_of_In _ _) Ht)). rewrite andb_true_iff, Nat.ltb_lt, Nat.leb_le in H.
  destruct H as [? ?]. split; [|done]. split; [by right|by right].
Qed.

Lemma settles_clause k vars t : t ∈ clauses -> placeholders t = length vars -> settles k (restrict vars t).
Proof. intros Ht Hp. destruct (clauses_text t Ht) as [? ?]. by apply settles_restrict. Qed.

Ltac clause := apply settles_clause; [unfold clauses; repeat first [left; reflexivity | right]|reflexivity].

Lemma settles_access k acl : settles k (genqAppendAccessCheck acl).
Proof.
  unfold genqAppendAccessCheck. destruct (accessControlPriv acl =? LOCAL_PRIV_USER_AUTH); [split; [by apply triple_ret|apply exits_ret]|].
  cbv zeta. apply settles_seq; [apply settles_get; intros g0; apply settles_when, settles_code|].
  apply settles_get. intros g1. apply settles_seq; [apply settles_when; clause|]. apply settles_when, settles_get. intros g2.
  destruct (bstr_eqb (sessionTicket acl) []).
  - apply settles_seq; [apply settles_when; clause|]. apply settles_get. intros g3. apply settles_when. clause.
  - destruct (mentions "R_DATA_MAIN" (g_txt g2)); [clause|]. apply settles_when. clause.
Qed.

Lemma settled_void k acl : triple (kept k) (void (genqAppendAccessCheck acl)) (fun _ => settled k).
Proof.
  destruct (settles_access k acl) as [H1 H2]. eapply triple_pre; [apply kept_checked|]. apply triple_void; [|done].
  eapply triple_post; [|exact H1]. intros ? g [? ?]. split; [done|by left].
Qed.

(** *** What the access check adds *)

(** [where] and the variables grew, and the selected columns are the same. *)
Record grew (g g' : gq) : Prop := Grew {
  gr_select : selectSQL (g_txt g') = selectSQL (g_txt g);
  gr_where : where_ (g_txt g) `prefix_of` where_ (g_txt g');
  gr_count : cllBindVarCount (g_binds g) <= cllBindVarCount (g_binds g')
}.

#[local] Instance grew_preorder : PreOrder grew.
Proof. split; [by split|]. intros g1 g2 g3 [H1 H2 H3] [H4 H5 H6]. split; [congruence|by etrans|lia]. Qed.

Definition occurs (t c : bstr) : Prop := exists a b, c = a ++ t ++ b.

Lemma occurs_prefix t c c' : occurs t c -> c `prefix_of` c' -> occurs t c'.
Proof. intros (a & b & ->) [x ->]. exists a, (b ++ x). by rewrite <- !app_assoc. Qed.

Lemma strstr_longer t c c' : c `prefix_of` c' -> strstr c t <> None -> strstr c' t <> None.
Proof.
  intros [x ->]. induction c as [|a c IH]; cbn [app].
  - cbn [strstr]. rewrite take_nil. destruct (bstr_eqb [] t) eqn:E; [|done]. apply bstr_eqb_eq in E as <-. by destruct x.
  - cbn [strstr]. destruct (bstr_eqb (take (length t) (a :: c)) t) eqn:E.
    + apply bstr_eqb_eq in E. rewrite (proj2 (bstr_eqb_eq (take (length t) (a :: c ++ x)) t)); [done|].
      change (a :: c ++ x) with ((a :: c) ++ x). rewrite take_app_le; [done|]. apply (f_equal length) in E. rewrite length_take in E. lia.
    + intros H. destruct (bstr_eqb (take (length t) (a :: c ++ x)) t); [done|]. destruct (strstr c t); [|done].
      destruct (strstr (c ++ x) t); [done|]. exfalso. by apply IH.
Qed.

Lemma mentions_grew tb g g' : grew g g' -> mentions tb (g_txt g) = true -> mentions tb (g_txt g') = true.
Proof.
  intros [Hs Hw _]. unfold mentions. rewrite Hs. destruct (strstr (selectSQL (g_txt g)) (lit tb)); [done|].
  pose proof (strstr_longer (lit tb) _ _ Hw) as H. destruct (strstr (where_ (g_txt g)) (lit tb)); [|done]. intros _.
  destruct (strstr (where_ (g_txt g')) (lit tb)); [done|]. exfalso. by apply H.
Qed.

Lemma grew_add_where t g u g' : add_where t g = (Ok u, g') -> grew g g' /\ where_ (g_txt g') = where_ (g_txt g) ++ t.
Proof.
  intros E. refine (triple_cat where_ put_where t (fun g0 => g0 = g) (fun _ g' => grew g g' /\ where_ (g_txt g') = where_ (g_txt g) ++ t) _ g u g' eq_refl E).
  intros ? ->. split; [|done]. split; try done. cbn. by apply prefix_app_r.
Qed.

Lemma grew_push vars : forall g u g', for_each (fun v => push_bind (BText v)) vars g = (Ok u, g') -> grew g g' /\ where_ (g_txt g') = where_ (g_txt g).
Proof.
  induction vars as [|v vars IH]; intros g u g'; cbn [for_each]; [by intros [= _ <-]|].
  intros (? & g1 & [= _ <-] & E)%M_bind_inv. apply IH in E as [E Ew]. split; [|by rewrite Ew]. etrans; [|exact E]. split; try done.
  unfold cllBindVarCount. cbn. rewrite length_app. lia.
Qed.

Lemma grew_restrict vars t g u g' : restrict vars t g = (Ok u, g') -> grew g g' /\ occurs t (where_ (g_txt g')).
Proof.
  unfold restrict. intros (u1 & g1 & E1 & E)%M_bind_inv. apply M_bind_inv in E as (u2 & g2 & E2 & E3).
  apply grew_push in E2 as [E2 _]. apply grew_add_where in E3 as [E3 Ew]. split.
  - transitivity g1; [|transitivity g2; done]. unfold add_and in E1. rewrite bind_get in E1. destruct (6 <? _); [by apply grew_add_where in E1 as [? _]|].
    by injection E1 as _ <-.
  - exists (where_ (g_txt g2)), []. by rewrite Ew, app_nil_r.
Qed.

Lemma grew_when b vars t g u g' : when b (restrict vars t) g = (Ok u, g') -> grew g g' /\ (b = true -> occurs t (where_ (g_txt g'))).
Proof. destruct b; cbn; [intros [? ?]%grew_restrict; done|]. by intros [= _ <-]. Qed.

(** What protects the tables a query mentions. *)
Definition protected (acl : access) (t : txt) (w : bstr) : Prop :=
  (sessionTicket acl = [] -> mentions "R_DATA_MAIN" t = true -> occurs data_access w) /\
  (sessionTicket acl = [] -> mentions "R_COLL_MAIN" t = true -> occurs coll_access w) /\
  (sessionTicket acl <> [] -> mentions "R_DATA_MAIN" t = true -> occurs data_ticket w) /\
  (sessionTicket acl <> [] -> mentions "R_COLL_MAIN" t = true -> occurs data_ticket w \/ occurs coll_ticket w).

Lemma access_adds acl g u g' :
  accessControlPriv acl <> LOCAL_PRIV_USER_AUTH -> restricted acl = true ->
  genqAppendAccessCheck acl g = (Ok u, g') -> grew g g' /\ protected acl (g_txt g) (where_ (g_txt g')).
Proof.
  intros Hp Hr. unfold genqAppendAccessCheck. rewrite (proj2 (Z.eqb_neq _ _) Hp), Hr. cbv zeta.
  intros (u0 & g0 & E0 & E)%M_bind_inv. unfold check_binds in E0. rewrite bind_get in E0. apply when_code_inv in E0 as [_ ->].
  rewrite bind_get in E. apply M_bind_inv in E as (u1 & g1 & E1 & E). apply grew_when in E1 as [G1 _]. cbn [when] in E. rewrite bind_get in E.
  unfold protected. destruct (bstr_eqb (sessionTicket acl) []) eqn:Et.
  - apply bstr_eqb_eq in Et. apply M_bind_inv in E as (u2 & g2 & E2 & E). apply grew_when in E2 as [G2 H2]. rewrite bind_get in E. apply grew_when in E as [G3 H3].
    split; [transitivity g1; [done|by transitivity g2]|]. split_and!; try done; intros _ Hm.
    + eapply occurs_prefix; [apply H2; by eapply mentions_grew|apply G3].
    + apply H3. eapply mentions_grew; [|exact Hm]. by transitivity g1.
  - apply bstr_eqb_neq in Et. destruct (mentions "R_DATA_MAIN" (g_txt g1)) eqn:Ed.
    + apply grew_restrict in E as [G2 H2]. split; [by transitivity g1|]. split_and!; try done. intros _ _. by left.
    + apply grew_when in E as [G2 H2]. split; [by transitivity g1|]. split_and!; try done.
      * intros _ Hm. by rewrite (mentions_grew _ _ _ G1 Hm) in Ed.
      * intros _ Hm. right. apply H2. by eapply mentions_grew.
Qed.

(** Where the check stops: no space in [where] or for its variables. *)
Definition crowded (g : gq) : Prop := full g \/ MAX_BIND_VARS <= cllBindVarCount (g_binds g) + 6.

Definition always_true (g : gq) : Prop := True.

Lemma crowded_seq (m n : Q unit) : exits always_true m crowded -> exits always_true n crowded -> exits always_true (m;; n) crowded.
Proof. intros H1 H2. eapply exits_bind with (R := fun _ => always_true); [done|done|by intros ?]. Qed.

Lemma crowded_get (f : gq -> Q unit) : (forall g0, exits always_true (f g0) crowded) -> exits always_true (g ← get; f g) crowded.
Proof. intros H. apply exits_get. intros g0. eapply exits_pre; [|apply H]. done. Qed.

Lemma crowded_restrict vars t : t ∈ clauses -> exits always_true (restrict vars t) crowded.
Proof.
  intros [_ Hl]%clauses_text. apply crowded_seq; [|apply crowded_seq; [apply exits_push|apply exits_cat; intros g _ H; left; unfold full; lia]].
  apply crowded_get. intros g0. apply exits_when. intros _. apply exits_cat. intros g _ H. left. unfold full. change (length (lit " AND ")) with 5%nat in H. lia.
Qed.

Ltac crowd := apply crowded_restrict; unfold clauses; repeat first [left; reflexivity | right].

Lemma access_stops acl : exits always_true (genqAppendAccessCheck acl) crowded.
Proof.
  unfold genqAppendAccessCheck. destruct (_ =? _); [apply exits_ret|]. cbv zeta. apply crowded_seq.
  { apply exits_get. intros g0. apply exits_when. intros Hb%Z.leb_le. apply exits_code. intros g [_ ->]. by right. }
  apply crowded_get. intros g1. apply crowded_seq; [apply exits_when; intros _; crowd|]. apply exits_when. intros _. apply crowded_get. intros g2.
  destruct (bstr_eqb _ _).
  - apply crowded_seq; [apply exits_when; intros _; crowd|]. apply crowded_get. intros g3. apply exits_when. intros _. crowd.
  - destruct (mentions _ _); [crowd|]. apply exits_when. intros _. crowd.
Qed.

Lemma access_void acl g g' :
  accessControlPriv acl <> LOCAL_PRIV_USER_AUTH -> restricted acl = true ->
  void (genqAppendAccessCheck acl) g = (Ok tt, g') -> crowded g' \/ protected acl (g_txt g) (where_ (g_txt g')).
Proof.
  intros Hp Hr. unfold void, try_catch. destruct (genqAppendAccessCheck acl g) as [[u|e] g1] eqn:E; intros [= _ <-].
  - right. by eapply access_adds.
  - left. by eapply access_stops.
Qed.

(** ** The order *)

Section assembly.
Variable sc : schema.
Hypothesis Hfix : schema_fixed sc = true.

Section order.
Variable R : binds -> Prop.
Definition ordered (g : gq) : Prop := R (g_binds g) /\ fixed (orderBySQL (g_txt g)).

(** A step that keeps [ordered] and where it may stop. *)
Definition orders (m : Q unit) : Prop := triple ordered m (fun _ => ordered) /\ exits ordered m ordered.

Lemma orders_seq m n : orders m -> orders n -> orders (m;; n).
Proof. intros [Hm Hmx] [Hn Hnx]. split; [eapply triple_bind; [exact Hm|by intros ?]|eapply exits_bind; [exact Hm|exact Hmx|by intros ?]]. Qed.

Lemma orders_add t : fixed t -> orders (add_order t).
Proof. intros Ht. split; [|by apply exits_cat]. apply triple_cat. intros g [? ?]. split; [done|]. by apply fixed_app. Qed.

Lemma orders_ret : orders (mret tt).
Proof. split; [by apply triple_ret|apply exits_ret]. Qed.

Lemma orders_column c : c ∈ Columns sc -> orders (order_column c).
Proof using Hfix.
  intros Hc. destruct (schema_text sc Hfix) as (_ & H2 & _). destruct (H2 _ Hc).
  assert (orders (add_order (columnTable c);; add_order (lit ".");; add_order (columnName c))) as [H1 H1x].
  { apply orders_seq; [by apply orders_add|]. apply orders_seq; [apply orders_add; fixed_text|by apply orders_add]. }
  destruct (orders_add (lit ", ")) as [Ha Hax]; [fixed_text|]. unfold order_column. split.
  - apply triple_get. intros g0. apply triple_pre with (P' := ordered); [by intros g [? _]|].
    eapply triple_bind; [apply triple_when; [by intros _|done]|by intros ?].
  - apply exits_get. intros g0. apply exits_pre with (P' := ordered); [by intros g [? _]|].
    eapply exits_bind; [apply triple_when; [by intros _|done]|apply exits_when; by intros _|by intros ?].
Qed.

Lemma orders_void {A} (f : A -> Q unit) l : (forall a, orders (f a)) -> triple ordered (void (for_each f l)) (fun _ => ordered).
Proof. intros H. apply triple_void; [apply triple_for_each|apply exits_for_each]; intros a _; apply H. Qed.

Lemma ordered_by_user sel : triple ordered (setOrderByUser sc sel) (fun _ => ordered).
Proof using Hfix.
  apply orders_void. intros [inx value]. destruct (_ && _); [apply orders_ret|]. destruct (List.find _ _) as [c|] eqn:E; [|apply orders_ret].
  apply find_some in E as [Hc _]. apply orders_seq; [by apply orders_column, list_elem_of_In|]. destruct (negb _); [apply orders_add; fixed_text|apply orders_ret].
Qed.

Lemma ordered_by sel column : triple ordered (setOrderBy sc sel column) (fun _ => ordered).
Proof using Hfix.
  apply orders_void. intros [inx value]. destruct (inx =? column); [|apply orders_ret]. destruct (aggregate _); [apply orders_ret|].
  destruct (List.find _ _) as [c|] eqn:E; [|apply orders_ret]. apply find_some in E as [Hc _]. by apply orders_column, list_elem_of_In.
Qed.
End order.

(** ** The parts of a query *)

Variable split_path : bstr -> list bstr.

(** The clauses before the access check. *)
Definition built (inp : genQueryInp) (g g1 : gq) : Prop :=
  exists s1 s2 ga gb gc gd,
    select_loop sc 0 (selectInp inp) (init_query (q_options inp) g) = (Ok s1, ga) /\
    condition_loop sc split_path s1 (sqlCondInp inp) ga = (Ok s2, gb) /\
    link_tables sc s2 gb = (Ok tt, gc) /\
    when (1 <? count_column COL_META_DATA_ATTR_NAME (sqlCondInp inp))%nat
      (handleMultiDataAVUConditions (count_column COL_META_DATA_ATTR_NAME (sqlCondInp inp))) gc = (Ok tt, gd) /\
    when (1 <? count_column COL_META_COLL_ATTR_NAME (sqlCondInp inp))%nat
      (handleMultiCollAVUConditions (count_column COL_META_COLL_ATTR_NAME (sqlCondInp inp))) gd = (Ok tt, g1).

(** The same as one computation. *)
Definition build (inp : genQueryInp) : Q unit :=
  s1 ← select_loop sc 0 (selectInp inp);
  s2 ← condition_loop sc split_path s1 (sqlCondInp inp);
  link_tables sc s2;;
  when (1 <? count_column COL_META_DATA_ATTR_NAME (sqlCondInp inp))%nat
    (handleMultiDataAVUConditions (count_column COL_META_DATA_ATTR_NAME (sqlCondInp inp)));;
  when (1 <? count_column COL_META_COLL_ATTR_NAME (sqlCondInp inp))%nat
    (handleMultiCollAVUConditions (count_column COL_META_COLL_ATTR_NAME (sqlCondInp inp))).

Lemma build_built inp g : (build inp (init_query (q_options inp) g)).1 = Ok tt -> built inp g (build inp (init_query (q_options inp) g)).2.
Proof.
  intros H. destruct (build inp (init_query (q_options inp) g)) as [r g1] eqn:E. cbn in H |- *. subst r. unfold build in E.
  apply M_bind_inv in E as (s1 & ga & E1 & E). apply M_bind_inv in E as (s2 & gb & E2 & E). apply M_bind_inv in E as ([] & gc & E3 & E).
  apply M_bind_inv in E as ([] & gd & E4 & E). by exists s1, s2, ga, gb, gc, gd.
Qed.

Definition optional (b : bool) (t : bstr) : bstr := if b then t else [].

(** The text of the query: the clauses of [g1] before and of [g2] after the access check, and
    the order. *)
Definition assembled (inp : genQueryInp) (g1 g2 : gq) (order : bstr) : bstr :=
  selectSQL (g_txt g1) ++ lit " " ++ from_ (g_txt g1) ++
  optional (6 <? Z.of_nat (length (where_ (g_txt g2)))) (lit " " ++ where_ (g_txt g2)) ++
  optional (mightNeedGroupBy (g_txt g1) && (10 <? Z.of_nat (length (groupBySQL (g_txt g1))))) (lit " " ++ groupBySQL (g_txt g2)) ++
  optional (10 <? Z.of_nat (length order)) order ++
  optional (0 <? rowOffset inp) (lit " offset ?").

Lemma append_inv dest t g c g' : append dest t g = (Ok c, g') -> c = dest ++ t /\ g' = g.
Proof. unfold append. destruct (rstrcat _ _ _) as [r|] eqn:E; [|done]. intros [= <- <-]. by apply rstrcat_step in E as ->. Qed.

Lemma optional_append (b : bool) (c t : bstr) g c' g' :
  (if b then c ← append c (lit " "); append c t else mret c) g = (Ok c', g') -> c' = c ++ optional b (lit " " ++ t) /\ g' = g.
Proof.
  destruct b; cbn [optional].
  - intros (c1 & g1 & E1 & E2)%M_bind_inv. apply append_inv in E1 as [-> ->]. apply append_inv in E2 as [-> ->]. by rewrite app_assoc.
  - intros [= <- <-]. by rewrite app_nil_r.
Qed.

(** The first part of a sequence that succeeded. *)
Tactic Notation "part" hyp(E) simple_intropattern(x) ident(g) ident(H) := apply M_bind_inv in E as (x & g & H & E).

Lemma ordered_all (R : binds -> Prop) sel g g1 g2 g3 g4 g5 :
  R (g_binds g) -> txt_ (set_orderBy (lit " order by ")) g = (Ok tt, g1) -> setOrderByUser sc sel g1 = (Ok tt, g2) ->
  setOrderBy sc sel COL_COLL_NAME g2 = (Ok tt, g3) -> setOrderBy sc sel COL_DATA_NAME g3 = (Ok tt, g4) ->
  setOrderBy sc sel COL_DATA_REPL_NUM g4 = (Ok tt, g5) -> ordered R g5.
Proof using Hfix.
  intros HR [= <-] E1 E2 E3 E4. eapply ordered_by; [|exact E4]. eapply ordered_by; [|exact E3]. eapply ordered_by; [|exact E2].
  eapply ordered_by_user; [|exact E1]. split; [done|]. fixed_text.
Qed.

Lemma generateSQL_parts acl inp g c g' :
  generateSQL sc split_path acl inp g = (Ok c, g') ->
  exists g1 g2 order, built inp g g1 /\ void (genqAppendAccessCheck acl) g1 = (Ok tt, g2) /\ fixed order /\
    c = assembled inp g1 g2 order /\
    g_binds g' = (if 0 <? rowOffset inp then set_vars (cllBindVars (g_binds g2) ++ [BText (to_string (rowOffset inp))]) (g_binds g2) else g_binds g2).
Proof using Hfix.
  unfold generateSQL. intros E. rewrite bind_get, bind_put in E.
  part E s1 ga E1. part E s2 gb E2. part E [] gc E3. cbv zeta in E. part E [] gd E4. part E [] g1 E5.
  part E u g1' E6. apply when_code_inv in E6 as [_ ->]. rewrite bind_get in E. cbv zeta in E.
  part E c1 g1' E6. apply append_inv in E6 as [-> ->]. part E c2 g1' E6. apply append_inv in E6 as [-> ->].
  part E c3 g1' E6. apply append_inv in E6 as [-> ->]. part E [] g2 Ea. rewrite bind_get in E.
  part E c4 g2' E6. apply optional_append in E6 as [-> ->]. part E c5 g2' E6. apply optional_append in E6 as [-> ->].
  part E [] h1 O1. part E [] h2 O2. part E [] h3 O3. part E [] h4 O4. part E [] h5 O5. rewrite bind_get in E.
  pose proof (ordered_all (eq (g_binds g2)) _ _ _ _ _ _ _ eq_refl O1 O2 O3 O4 O5) as [Hb Ho].
  part E c6 h6 E6. exists g1, g2, (orderBySQL (g_txt h5)). split; [by exists s1, s2, ga, gb, gc, gd|]. split; [done|]. split; [done|].
  assert (c6 = (((([] ++ selectSQL (g_txt g1)) ++ lit " ") ++ from_ (g_txt g1)) ++
    optional (6 <? Z.of_nat (length (where_ (g_txt g2)))) (lit " " ++ where_ (g_txt g2))) ++
    optional (mightNeedGroupBy (g_txt g1) && (10 <? Z.of_nat (length (groupBySQL (g_txt g1))))) (lit " " ++ groupBySQL (g_txt g2)) ++
    optional (10 <? Z.of_nat (length (orderBySQL (g_txt h5)))) (orderBySQL (g_txt h5)) /\ h6 = h5) as [-> ->].
  { destruct (10 <? Z.of_nat (length (orderBySQL (g_txt h5)))); cbn [optional].
    - apply append_inv in E6 as [-> ->]. by rewrite <- !app_assoc.
    - injection E6 as <- <-. by rewrite app_nil_r. }
  unfold assembled. destruct (0 <? rowOffset inp); cbn [optional].
  - part E [] h7 E7. injection E7 as <-. apply append_inv in E as [-> ->]. cbn [g_binds]. rewrite <- Hb. split; [|done].
    cbn [app]. by rewrite <- !app_assoc.
  - injection E as <- <-. split; [|done]. cbn [app]. by rewrite <- !app_assoc, app_nil_r.
Qed.

Lemma good_init o g : good (cllBindVarCount (g_binds g)) (init_query o g).
Proof.
  split; [split; try fixed_text|by exists []].
  - cbn -[fixed lit]. destruct (_ =? 0); fixed_text.
  - reflexivity.
Qed.

Lemma built_kept inp g g1 : built inp g g1 -> kept (cllBindVarCount (g_binds g)) g1.
Proof using Hfix.
  intros (s1 & s2 & ga & gb & gc & gd & E1 & E2 & E3 & E4 & E5). set (k := cllBindVarCount (g_binds g)).
  pose proof (good_select_loop sc Hfix k _ _ _ _ _ (good_init _ _) E1) as H. cbn beta in H.
  apply (good_condition_loop sc Hfix split_path k _ _ _ _ _ H) in E2. cbn beta in E2.
  apply (good_link_tables sc Hfix k _ _ _ _ E2) in E3. cbn beta in E3. apply good_kept in E3.
  eapply triple_when; [intros _; apply kept_multi_coll|done| |exact E5].
  eapply triple_when; [intros _; apply kept_multi_data|done|exact E3|exact E4].
Qed.

Lemma optional_fixed b t : fixed t -> fixed (optional b t).
Proof. destruct b; [done|]. intros _. apply fixed_nil. Qed.

(** The text around [where], of which only the placeholder of the offset is not fixed. *)
Lemma assembled_text inp g1 g2 order : checked g1 -> checked g2 -> fixed order ->
  exists pre post, assembled inp g1 g2 order = pre ++ optional (6 <? Z.of_nat (length (where_ (g_txt g2)))) (where_ (g_txt g2)) ++ post /\
    fixed pre /\ safe post /\ placeholders post = if 0 <? rowOffset inp then 1%nat else O.
Proof.
  intros H1 H2 Ho. assert (fixed (selectSQL (g_txt g1)) /\ fixed (from_ (g_txt g1))) as [Hs Hf] by (by destruct H1).
  exists (selectSQL (g_txt g1) ++ lit " " ++ from_ (g_txt g1) ++ optional (6 <? Z.of_nat (length (where_ (g_txt g2)))) (lit " ")).
  exists (optional (mightNeedGroupBy (g_txt g1) && (10 <? Z.of_nat (length (groupBySQL (g_txt g1))))) (lit " " ++ groupBySQL (g_txt g2)) ++
    optional (10 <? Z.of_nat (length order)) order ++ optional (0 <? rowOffset inp) (lit " offset ?")).
  assert (fixed (lit " ")) as Hb by fixed_text. destruct H2 as [_ Hg _ _ _].
  assert (fixed (lit " " ++ groupBySQL (g_txt g2))) as Hg' by (by apply fixed_app). split_and!.
  - unfold assembled. destruct (6 <? _); cbn [optional]; by rewrite <- ?app_assoc.
  - by repeat apply fixed_app; try apply optional_fixed.
  - rewrite !safe_app. split_and!; [by apply optional_fixed|by apply optional_fixed|]. destruct (0 <? rowOffset inp); [safe_text|constructor].
  - rewrite !placeholders_app. destruct (optional_fixed (mightNeedGroupBy (g_txt g1) && (10 <? Z.of_nat (length (groupBySQL (g_txt g1))))) _ Hg') as [_ ->].
    destruct (optional_fixed (10 <? Z.of_nat (length order)) _ Ho) as [_ ->]. by destruct (0 <? rowOffset inp).
Qed.

(** ** Theorems *)

(** the SQL of a query has a placeholder for every variable that generating it bound, in
    every clause: conditions, IN and BETWEEN lists, parents of a path, compound conditions, the
    access check and the offset. The text must leave the space that the access check asks for:
    where that ends early its variables stay bound. *)
Theorem placeholders_bound acl inp g c g' :
  generateSQL sc split_path acl inp g = (Ok c, g') -> Z.of_nat (length c) + 600 <= MAX_SQL_SIZE_GQ ->
  (length (cllBindVars (g_binds g')) = length (cllBindVars (g_binds g)) + placeholders c)%nat.
Proof using Hfix.
  intros (g1 & g2 & order & Hg1 & Ha & Ho & -> & Hb)%generateSQL_parts Hl. apply built_kept in Hg1.
  pose proof (settled_void _ _ _ _ _ Hg1 Ha) as [Hc Hbal]. destruct (kept_checked _ _ Hg1) as [Hc1 _].
  destruct (assembled_text inp g1 g2 order Hc1 Hc Ho) as (pre & post & E & [_ Hpre] & _ & Hpost). rewrite E in *.
  rewrite !placeholders_app, Hpre, Hpost. rewrite !length_app in Hl.
  assert (balanced (cllBindVarCount (g_binds g)) g2) as Hbal2.
  { destruct Hbal as [|Hf]; [done|]. exfalso. unfold full in Hf. destruct (Z.ltb_spec 6 (Z.of_nat (length (where_ (g_txt g2))))); cbn [optional] in Hl; [lia|].
    unfold MAX_SQL_SIZE_GQ in *. lia. }
  assert (placeholders (optional (6 <? Z.of_nat (length (where_ (g_txt g2)))) (where_ (g_txt g2))) = placeholders (where_ (g_txt g2))) as ->.
  { destruct (Z.ltb_spec 6 (Z.of_nat (length (where_ (g_txt g2))))); [done|]. cbn [optional]. rewrite (c_short _ Hc); [done|lia]. }
  rewrite Hb. unfold balanced, cllBindVarCount in Hbal2. destruct (0 <? rowOffset inp); [|lia]. cbn -[where_]. rewrite length_app. cbn. lia.
Qed.

(** C12: what a client sends does not get into the SQL of its query: every character comes from
    a fixed set without quotes, semicolons, comment signs or backslashes, but for the texts of
    the access check, which are constants of the program. *)
Theorem query_text_is_fixed acl inp g c g' :
  generateSQL sc split_path acl inp g = (Ok c, g') ->
  exists pre ts post, c = pre ++ concat ts ++ post /\ safe pre /\ safe post /\ Forall (fun t => t ∈ access_texts) ts.
Proof using Hfix.
  intros (g1 & g2 & order & Hg1 & Ha & Ho & -> & _)%generateSQL_parts. apply built_kept in Hg1.
  pose proof (settled_void _ _ _ _ _ Hg1 Ha) as [Hc _]. destruct (kept_checked _ _ Hg1) as [Hc1 _].
  destruct (assembled_text inp g1 g2 order Hc1 Hc Ho) as (pre & post & -> & [Hpre _] & Hpost & _).
  destruct (c_where _ Hc) as (w & ts & -> & Hw & Hts). destruct (6 <? _); cbn [optional].
  - exists (pre ++ w), ts, post. rewrite <- !app_assoc. split_and!; try done. by apply safe_app.
  - exists pre, [], post. by split_and!.
Qed.

Lemma occurs_in t c a b : occurs t c -> occurs t (a ++ c ++ b).
Proof. intros (x & y & ->). exists (a ++ x), (y ++ b). by rewrite <- !app_assoc. Qed.

Lemma built_once inp g g1 g2 : built inp g g1 -> built inp g g2 -> g1 = g2.
Proof.
  intros (s1 & s2 & ga & gb & gc & gd & E1 & E2 & E3 & E4 & E5) (s1' & s2' & ga' & gb' & gc' & gd' & E1' & E2' & E3' & E4' & E5').
  rewrite E1 in E1'. injection E1' as <- <-. rewrite E2 in E2'. injection E2' as <- <-. rewrite E3 in E3'. injection E3' as <-.
  rewrite E4 in E4'. injection E4' as <-. rewrite E5 in E5'. by injection E5' as <-.
Qed.

Lemma protected_query acl t inp g1 g2 order :
  protected acl t (where_ (g_txt g2)) -> protected acl t (assembled inp g1 g2 order).
Proof.
  assert (forall x, x ∈ clauses -> occurs x (where_ (g_txt g2)) -> occurs x (assembled inp g1 g2 order)) as H.
  { intros x Hx Ho. assert (6 < Z.of_nat (length (where_ (g_txt g2)))) as Hl.
    { assert (forallb (fun t => 6 <? Z.of_nat (length t)) clauses = true) as Hc by (vm_compute; reflexivity).
      rewrite forallb_forall in Hc. specialize (Hc x (proj1 (list_elem_of_In _ _) Hx)). apply Z.ltb_lt in Hc.
      destruct Ho as (a & b & ->). rewrite !length_app. lia. }
    unfold assembled. rewrite (proj2 (Z.ltb_lt _ _) Hl). cbn [optional].
    apply (occurs_in x _ (selectSQL (g_txt g1) ++ lit " " ++ from_ (g_txt g1) ++ lit " ")
      (optional (mightNeedGroupBy (g_txt g1) && (10 <? Z.of_nat (length (groupBySQL (g_txt g1))))) (lit " " ++ groupBySQL (g_txt g2)) ++
       optional (10 <? Z.of_nat (length order)) order ++ optional (0 <? rowOffset inp) (lit " offset ?"))) in Ho.
    rewrite <- !app_assoc in Ho. rewrite <- !app_assoc. exact Ho. }
  unfold clauses in H. intros (H1 & H2 & H3 & H4). split_and!; intros Ht Hm.
  - apply H; [repeat first [left; reflexivity | right]|by apply H1].
  - apply H; [repeat first [left; reflexivity | right]|by apply H2].
  - apply H; [repeat first [left; reflexivity | right]|by apply H3].
  - destruct (H4 Ht Hm); [left|right]; (apply H; [repeat first [left; reflexivity | right]|done]).
Qed.

(** C11: the query of a user who is not the administrator of the zone and is restricted to what
    it may read contains, for the objects and collections that it mentions, the clause that
    restricts them to those the user or its ticket has access to, if the text leaves space
    and the variables of the check can be bound. Where they cannot the check is skipped
    without an error. *)
Theorem access_restricted acl inp g c g' g1 :
  generateSQL sc split_path acl inp g = (Ok c, g') -> built inp g g1 ->
  accessControlPriv acl <> LOCAL_PRIV_USER_AUTH -> restricted acl = true ->
  Z.of_nat (length c) + 600 <= MAX_SQL_SIZE_GQ -> cllBindVarCount (g_binds g') + 6 < MAX_BIND_VARS ->
  protected acl (g_txt g1) c.
Proof using Hfix.
  intros (g1' & g2 & order & Hg1 & Ha & Ho & -> & Hb)%generateSQL_parts Hg1' Hp Hr Hl Hc. rewrite (built_once _ _ _ _ Hg1' Hg1). clear Hg1' g1.
  apply access_void in Ha as [Hcr|Hpr]; [|by apply protected_query|done|done]. exfalso. destruct Hcr as [Hf|Hf].
  - unfold full in Hf. unfold assembled in Hl. rewrite !length_app in Hl.
    destruct (Z.ltb_spec 6 (Z.of_nat (length (where_ (g_txt g2))))); cbn [optional] in Hl; [rewrite length_app in Hl; lia|].
    unfold MAX_SQL_SIZE_GQ in *. lia.
  - rewrite Hb in Hc. unfold cllBindVarCount in *. destruct (0 <? rowOffset inp); [cbn in Hc; rewrite length_app in Hc|]; lia.
Qed.
End assembly.

(** ** A query *)

(** Nothing was bound before. *)
Definition clean : gq := Gq (Txt (Sql [] 0 [] []) [] [] [] true false false 0) (Binds [] 0 [] 0 [] [] 0 [] 0).

(** A string split at its slashes, adjacent ones as one. *)
Fixpoint slashes (cur s : bstr) : list bstr :=
  match s with
  | [] => [rev cur]
  | c :: s' =>
      if Ascii.eqb c "/" then
        match s' with
        | d :: _ => if Ascii.eqb d "/" then slashes cur s' else rev cur :: slashes [] s'
        | [] => rev cur :: slashes [] s'
        end
      else slashes (c :: cur) s'
  end.

Definition anonymous : access := Access (lit "anonymous") (lit "tempZone") 3 0 [].

Definition listing : genQueryInp :=
  GenQueryInp 5 0 [(COL_DATA_NAME, 1); (COL_COLL_NAME, 1)]
    [(COL_COLL_NAME, lit "parent_of '/a/b'"); (COL_DATA_NAME, lit "like 'x%' || = 'y'");
     (COL_META_DATA_ATTR_NAME, lit "in ('u','v')"); (COL_META_DATA_ATTR_NAME, lit "= 'w'")].

Definition text_of (r : res bstr * gq) : bstr := match r.1 with Ok c => c | Throw _ => [] end.
Definition listed : res bstr * gq := generateSQL icat (slashes []) anonymous listing clean.

Lemma listed_ok : generateSQL icat (slashes []) anonymous listing clean = (Ok (text_of listed), listed.2) /\ Z.of_nat (length (text_of listed)) + 600 <= MAX_SQL_SIZE_GQ /\
  cllBindVarCount (g_binds listed.2) + 6 < MAX_BIND_VARS.
Proof. split; [vm_compute; reflexivity|]. split; [apply Z.leb_le|apply Z.ltb_lt]; vm_compute; reflexivity. Qed.

Lemma placeholders_bound_witness : placeholders (text_of listed) = 13%nat /\ length (cllBindVars (g_binds listed.2)) = 13%nat.
Proof.
  assert (placeholders (text_of listed) = 13%nat) as H by (vm_compute; reflexivity). split; [exact H|].
  pose proof (placeholders_bound icat icat_fixed (slashes []) anonymous listing clean (text_of listed) listed.2 (proj1 listed_ok) (proj1 (proj2 listed_ok))) as E.
  rewrite H in E. exact E.
Defined.

Lemma query_text_is_fixed_witness :
  exists pre ts post, text_of listed = pre ++ concat ts ++ post /\ safe pre /\ safe post /\ Forall (fun t => t ∈ access_texts) ts.
Proof. exact (query_text_is_fixed icat icat_fixed (slashes []) anonymous listing clean (text_of listed) listed.2 (proj1 listed_ok)). Defined.

Lemma access_restricted_witness : occurs data_access (text_of listed) /\ occurs coll_access (text_of listed).
Proof.
  set (g1 := (build icat (slashes []) listing (init_query (q_options listing) clean)).2).
  assert (built icat (slashes []) listing clean g1) as Hb by (apply build_built; vm_compute; reflexivity).
  assert (mentions "R_DATA_MAIN" (g_txt g1) = true) as H1 by (vm_compute; reflexivity).
  assert (mentions "R_COLL_MAIN" (g_txt g1) = true) as H2 by (vm_compute; reflexivity).
  destruct (access_restricted icat icat_fixed (slashes []) anonymous listing clean (text_of listed) listed.2 g1 (proj1 listed_ok) Hb) as (Hd & Hc & _);
    [discriminate|reflexivity|exact (proj1 (proj2 listed_ok))|exact (proj2 (proj2 listed_ok))|].
  split; [exact (Hd eq_refl H1)|exact (Hc eq_refl H2)].
Defined.
