(* ===== verification/QueryValues.v ===== *)
(** * The values of a query of the catalog

    The variables that [GenQuery.generateSQL] binds point into buffers; here, that those of
    comparisons have the strings of the conditions as their values when the query is
    complete, and what becomes of the variables in the cases where they do not. *)

From stdpp Require Import base list strings.
From Stdlib Require Import ZArith Lia Ascii.
From S2P Require Import Prelude Errors Quota Numerals Schema TableLinks GenQuery QueryText.
Local Open Scope Z_scope.

(** ** Computations that bind nothing *)

Definition binds_none {A} (m : Q A) : Prop := forall g r g', m g = (r, g') -> g_binds g' = g_binds g.

Lemma none_bind {A B} (m : Q A) (k : A -> Q B) : binds_none m -> (forall a, binds_none (k a)) -> binds_none (m ≫= k).
Proof.
  intros Hm Hk g r g'. unfold mbind, Q_bind, M_bind. destruct (m g) as [[a|e] g1] eqn:E.
  - intros E2. rewrite (Hk a _ _ _ E2). by eapply Hm.
  - intros [= _ <-]. by eapply Hm.
Qed.

Lemma none_ret {A} (a : A) : binds_none (mret a).
Proof. by intros g r g' [= _ <-]. Qed.

Lemma none_throw {A} e : binds_none (throw e : Q A).
Proof. by intros g r g' [= _ <-]. Qed.

Lemma none_code {A} code : binds_none (ret_code code : Q A).
Proof. apply none_throw. Qed.

Lemma none_get : binds_none get.
Proof. by intros g r g' [= _ <-]. Qed.

Lemma none_txt f : binds_none (txt_ f).
Proof. by intros g r g' [= _ <-]. Qed.

Lemma none_cat read write t : binds_none (cat_to read write t).
Proof. apply none_bind; [apply none_get|]. intros g. destruct (rstrcat _ _ _); [apply none_txt|apply none_throw]. Qed.

Lemma none_when b m : binds_none m -> binds_none (when b m).
Proof. destruct b; [done|]. intros _. apply none_ret. Qed.

Lemma none_try {A} (m : Q A) h : binds_none m -> binds_none (try_catch m h).
Proof.
  intros Hm g r g'. unfold try_catch. destruct (m g) as [[a|e] g1] eqn:E; intros [= _ <-]; by eapply Hm.
Qed.

Lemma none_for_each {A} (f : A -> Q unit) l : (forall a, binds_none (f a)) -> binds_none (for_each f l).
Proof. intros H. induction l as [|a l IH]; cbn [for_each]; [apply none_ret|]. apply none_bind; [apply H|by intros ?]. Qed.

Create HintDb binds_none.
#[local] Hint Resolve none_ret none_throw none_code none_get none_txt none_cat : binds_none.
#[local] Hint Unfold add_where add_select add_group add_order add_to_from : binds_none.

Ltac none := repeat first
  [ progress auto with binds_none | apply none_bind; [|intros ?] | apply none_when | apply none_try | apply none_for_each; intros ?
  | match goal with |- binds_none (match ?x with _ => _ end) => destruct x end ].

Lemma none_set_table sc column sel o cast : binds_none (set_table sc column sel o cast).
Proof. unfold set_table, setTable, select_column, condition_column, add_and. none. Qed.

Lemma none_select_loop sc sel : forall start, binds_none (select_loop sc start sel).
Proof. induction sel as [|[inx value] sel IH]; intros start; cbn [select_loop]; [none|]. apply none_bind; [apply none_set_table|]. intros ?. apply IH. Qed.

Lemma none_link_tables sc start : binds_none (link_tables sc start).
Proof. unfold link_tables. none. Qed.

Lemma none_multi kind object n : binds_none (handle_multi kind object n).
Proof. unfold handle_multi, void. none. Qed.

(** ** The buffer of the comparisons *)

(** [v] is the string at [p], and everything behind it is at [top] or later. *)
Definition holds (m : mem) (top p : nat) (v : bstr) : Prop :=
  (p + length v < top)%nat /\ (forall i c, v !! i = Some c -> byte_at m (p + i) = c) /\ byte_at m (p + length v) = NUL.

Lemma byte_below m ix b q : (q < ix)%nat -> byte_at ((ix, b) :: m) q = byte_at m q.
Proof. intros H. cbn. destruct (Nat.leb_spec ix q); [lia|done]. Qed.

Lemma byte_written m ix b i c : b !! i = Some c -> byte_at ((ix, b) :: m) (ix + i) = c.
Proof.
  intros H. apply lookup_lt_Some in H as Hl. cbn [byte_at]. rewrite (proj2 (Nat.leb_le ix (ix + i))), (proj2 (Nat.ltb_lt (ix + i) (ix + length b))) by lia.
  cbn [andb]. replace (ix + i - ix)%nat with i by lia. by rewrite H.
Qed.

(** A write at [top] or later does not change it. *)
Lemma holds_below m top top' ix b p v : holds m top p v -> (top <= ix)%nat -> (top <= top')%nat -> holds ((ix, b) :: m) top' p v.
Proof.
  intros (H1 & H2 & H3) Hix Ht. split_and!; [lia| |].
  - intros i c Hi. apply lookup_lt_Some in Hi as Hl. rewrite byte_below by lia. by apply H2.
  - rewrite byte_below by lia. done.
Qed.

Lemma holds_written m ix v : holds ((ix, v ++ [NUL]) :: m) (ix + length v + 1) ix v.
Proof.
  split_and!; [lia| |].
  - intros i c Hi. apply byte_written. by apply lookup_app_l_Some.
  - apply byte_written. by apply list_lookup_middle.
Qed.

Lemma string_at_read n m : forall v p, (NUL ∉ v) -> (length v < n)%nat ->
  (forall i c, v !! i = Some c -> byte_at m (p + i) = c) -> byte_at m (p + length v) = NUL -> string_at n m p = v.
Proof.
  induction n as [|n IH]; intros v p Hv Hn H1 H2; [lia|]. cbn [string_at]. destruct v as [|c v].
  - cbn in H2. rewrite Nat.add_0_r in H2. by rewrite H2.
  - apply not_elem_of_cons in Hv as [Hc Hv]. pose proof (H1 O c eq_refl) as Hp. rewrite Nat.add_0_r in Hp. rewrite Hp.
    rewrite (proj2 (Ascii.eqb_neq c NUL)) by congruence. f_equal. apply IH; [done|cbn in Hn; lia| |].
    + intros i d Hi. replace (S p + i)%nat with (p + S i)%nat by lia. by apply H1.
    + cbn [length] in H2. by replace (S p + length v)%nat with (p + S (length v))%nat by lia.
Qed.

(** The variables of comparisons with these values. *)
Definition values (vs : list bstr) (b : binds) : Prop :=
  Forall2 (fun v x => (NUL ∉ v) /\ Z.of_nat (length v) < MAX_SQL_SIZE_GQ + 100 /\ exists p, x = BWhere p /\ holds (bindVars b) (bindIx b) p v) vs (cllBindVars b).

Lemma values_bind vs b v ix :
  values vs b -> (bindIx b <= ix)%nat -> (NUL ∉ v) -> Z.of_nat (length v) < MAX_SQL_SIZE_GQ + 100 ->
  values (vs ++ [v]) (set_vars (cllBindVars b ++ [BWhere ix]) (set_where_buf (ix + length v + 1) ((ix, v ++ [NUL]) :: bindVars b) b)).
Proof.
  intros Hvs Hix Hv Hl. apply Forall2_app.
  - eapply Forall2_impl; [exact Hvs|]. cbn. intros w x (? & ? & p & -> & Hp). split_and!; try done. exists p. split; [done|].
    eapply holds_below; [done|done|lia].
  - constructor; [|constructor]. split_and!; try done. exists ix. split; [done|]. apply holds_written.
Qed.

Lemma values_read vs b : values vs b -> map (bind_value b) (cllBindVars b) = map Ok vs.
Proof.
  unfold values. intros H. induction H as [|v x vs xs (Hn & Hl & p & -> & _ & H2 & H3) H IH]; [done|].
  cbn [map]. rewrite IH. f_equal. unfold bind_value. f_equal. apply string_at_read; try done. unfold MAX_SQL_SIZE_GQ in *. lia.
Qed.

(** ** Comparisons *)

Definition blankb (c : ascii) : bool := negb (Ascii.eqb c " ").

(** An operator such as =, <>, like or n>: not one of IN, BETWEEN, IS, begin_of and parent_of. *)
Definition comparison_op (op : bstr) : bool :=
  forallb (fun c => negb (is_any_of (lit "'|&p") c)) op &&
  match find_idx blankb op with
  | Some i => negb (is_any_of (lit "iIbB") (default NUL (op !! i)))
  | None => false
  end.

Definition compare (op v : bstr) : bstr := op ++ quote :: v ++ [quote].

Lemma comparison_op_spec op : comparison_op op = true ->
  (quote ∉ op) /\ ("|"%char ∉ op) /\ ("&"%char ∉ op) /\ ("p"%char ∉ op) /\
  exists a x r, op = a ++ x :: r /\ Forall (eq " "%char) a /\ x <> " "%char /\ is_any_of (lit "iIbB") x = false.
Proof.
  unfold comparison_op. rewrite andb_true_iff, forallb_forall. intros [H1 H2].
  assert (forall c, is_any_of (lit "'|&p") c = true -> c ∉ op) as Hno.
  { intros c Hc Hin%list_elem_of_In%H1. by rewrite Hc in Hin. }
  split_and!; [by apply Hno..|]. destruct (find_idx blankb op) as [i|] eqn:E; [|done].
  apply find_idx_Some in E as (a & x & r & -> & <- & Hx & Ha). rewrite list_lookup_middle in H2 by done. exists a, x, r. split_and!; [done| |by intros ->|].
  - eapply Forall_impl; [exact Ha|]. intros c Hc. unfold blankb in Hc. apply negb_false_iff, Ascii.eqb_eq in Hc. done.
  - by apply negb_true_iff in H2.
Qed.

Lemma find_idx_first {A} (p : A -> bool) a x r : Forall (fun c => p c = false) a -> p x = true -> find_idx p (a ++ x :: r) = Some (length a).
Proof. intros Ha Hx. apply find_idx_Some. by exists a, x, r. Qed.

Lemma strstr_at s w i c : strstr s (c :: w) = Some i -> s !! i = Some c.
Proof. intros (a & b & -> & <-)%strstr_match. by apply list_lookup_middle. Qed.

(** A word that begins with another character. *)
Lemma begins_other (l u : string) cl cu wl wu s x :
  lit l = cl :: wl -> lit u = cu :: wu -> (exists i, find_idx blankb s = Some i /\ s !! i = Some x) -> x <> cl -> x <> cu -> begins_with l u s = false.
Proof.
  intros El Eu (i & Hi & Hx) Hl Hu. unfold begins_with. rewrite El, Eu. change (fun c => negb (Ascii.eqb c " ")) with blankb. rewrite Hi. change (default (length s) (Some i)) with i.
  destruct (strstr s (cl :: wl)) as [j|] eqn:E1.
  - destruct (Nat.eqb_spec j i) as [->|]; [|done]. apply strstr_at in E1. congruence.
  - destruct (strstr s (cu :: wu)) as [j|] eqn:E2; [|done]. destruct (Nat.eqb_spec j i) as [->|]; [|done]. apply strstr_at in E2. congruence.
Qed.

Lemma compare_quotes op v : (quote ∉ op) ->
  find_idx is_quote (compare op v) = Some (length op) /\ find_last_idx is_quote (compare op v) = Some (length op + S (length v))%nat.
Proof.
  intros Hop. split.
  - apply find_idx_first; [|done]. apply Forall_forall. intros c Hc. unfold is_quote. apply Ascii.eqb_neq. by intros ->.
  - unfold find_last_idx, compare. rewrite (app_assoc op (quote :: v) [quote] : op ++ quote :: v ++ [quote] = _), rev_app_distr. cbn.
    f_equal. rewrite !length_app. cbn. lia.
Qed.

Lemma compare_value op v : take (length op + S (length v) - length op - 1) (drop (S (length op)) (compare op v)) = v.
Proof.
  replace (length op + S (length v) - length op - 1)%nat with (length v) by lia. unfold compare. rewrite drop_app_ge by lia.
  replace (S (length op) - length op)%nat with 1%nat by lia. cbn [drop]. apply take_app_length.
Qed.

Lemma erase_open s : (quote ∉ s) -> forall r, erase_quoted false (s ++ r) = s ++ erase_quoted false r.
Proof.
  induction s as [|c s IH]; intros Hs r; [done|]. apply not_elem_of_cons in Hs as [Hc Hs]. cbn [app erase_quoted].
  unfold is_quote. rewrite (proj2 (Ascii.eqb_neq c quote)) by congruence. cbn. by rewrite IH.
Qed.

Lemma erase_closed s c : (quote ∉ s) -> c ∈ erase_quoted true s -> c = " "%char.
Proof.
  induction s as [|d s IH]; intros Hs; [by intros ?%elem_of_nil|]. apply not_elem_of_cons in Hs as [Hd Hs]. cbn [erase_quoted].
  unfold is_quote. rewrite (proj2 (Ascii.eqb_neq d quote)) by congruence. cbn. rewrite elem_of_cons. intros [->|H]; [done|by apply IH].
Qed.

Lemma has_operator_none s : ("|"%char ∉ s) -> ("&"%char ∉ s) -> has_operator s = false.
Proof.
  intros H1 H2. unfold has_operator. destruct (strstr s (lit "||")) as [i|] eqn:E1; [apply strstr_at, list_elem_of_lookup_2 in E1; done|].
  destruct (strstr s (lit "&&")) as [i|] eqn:E2; [apply strstr_at, list_elem_of_lookup_2 in E2; done|done].
Qed.

Lemma erase_app q a b : erase_quoted q (a ++ b) = erase_quoted q a ++ erase_quoted (foldl (fun q c => if is_quote c then negb q else q) q a) b.
Proof. revert q. induction a as [|c a IH]; intros q; [done|]. cbn [app erase_quoted foldl]. by rewrite IH. Qed.

(** Outside of its quotes a comparison is only its operator. *)
Lemma compare_erased op v c : (quote ∉ op) -> (quote ∉ v) -> c ∈ erase_quoted false (compare op v) -> c ∈ op \/ c = " "%char.
Proof.
  intros Hop Hv. unfold compare. rewrite erase_open, elem_of_app by done. intros [|Hc]; [by left|right]. cbn in Hc. rewrite elem_of_cons in Hc.
  destruct Hc as [->|Hc]; [done|]. rewrite erase_app, elem_of_app in Hc. destruct Hc as [Hc|Hc]; [by eapply erase_closed|].
  cbn in Hc. by apply list_elem_of_singleton in Hc.
Qed.

Lemma compare_single op v : comparison_op op = true -> (quote ∉ v) -> compoundConditionSpecified (compare op v) = false.
Proof.
  intros (Hq & Hb & Ha & _)%comparison_op_spec Hv. unfold compoundConditionSpecified. rewrite (has_operator_none (erase_quoted _ _)); [apply andb_false_r|..].
  all: intros Hin; unfold rstrcpy in Hin.
  all: assert (forall n c, c ∈ erase_quoted false (take n (compare op v)) -> c ∈ op \/ c = " "%char) as Hsub
    by (intros n c Hc; apply (compare_erased op v c Hq Hv); rewrite <- (take_drop n (compare op v)), erase_app, elem_of_app; by left).
  all: apply Hsub in Hin as [Hin|Hin]; done.
Qed.

Lemma values_top vs b : values vs b -> values vs (set_where_buf (S (bindIx b)) (bindVars b) b).
Proof.
  intros H. eapply Forall2_impl; [exact H|]. cbn. intros v x (? & ? & p & -> & Hp & Hrest). split_and!; try done. exists p. split; [done|]. split; [cbn; lia|done].
Qed.

Lemma none_triple {A} (R : binds -> Prop) (m : Q A) : binds_none m -> triple (fun g => R (g_binds g)) m (fun _ g => R (g_binds g)).
Proof. intros Hm g a g' HR E. by rewrite (Hm _ _ _ E). Qed.

(** The value is bound. *)
Lemma values_compare split_path vs op v : comparison_op op = true -> (NUL ∉ v) ->
  triple (fun g => values vs (g_binds g)) (insertWhere split_path (compare op v)) (fun _ g => values (vs ++ [v]) (g_binds g)).
Proof.
  intros Hop Hv. pose proof (comparison_op_spec op Hop) as (Hq & _ & _ & Hp & a & x & r & Eop & Ha & Hx & Hi).
  assert (exists i, find_idx blankb (compare op v) = Some i /\ compare op v !! i = Some x) as Hfirst.
  { exists (length a). unfold compare. rewrite Eop, <- app_assoc. split; [|by apply list_lookup_middle]. apply find_idx_first.
    - eapply Forall_impl; [exact Ha|]. by intros c <-.
    - unfold blankb. by rewrite (proj2 (Ascii.eqb_neq x " ")). }
  assert (forall c, c ∈ lit "iIbB" -> x <> c) as Hne.
  { intros c Hc ->. assert (is_any_of (lit "iIbB") c = true) as E by (by apply is_any_of_true). by rewrite E in Hi. }
  unfold insertWhere. rewrite (begins_other "in" "IN" "i" "I" (lit "n") (lit "N") _ x), (begins_other "between" "BETWEEN" "b" "B" (lit "etween") (lit "ETWEEN") _ x)
    by (done || apply Hne; repeat first [left; reflexivity|right]).
  assert (quote ∈ compare op v) as Hin by (unfold compare; apply elem_of_app; right; left).
  rewrite (proj2 (bstr_eqb_neq (compare op v) (lit "IS NULL"))), (proj2 (bstr_eqb_neq (compare op v) (lit "IS NOT NULL")))
    by (intros E; rewrite E in Hin; revert Hin; apply is_any_of_false; reflexivity). cbn [orb].
  eapply triple_bind; [apply triple_binds with (R := fun _ g => values vs (g_binds g)); intros g Hg; by apply values_top|intros ?].
  apply triple_get. intros g0. cbv zeta. destruct (compare_quotes op v Hq) as [-> ->]. rewrite compare_value.
  destruct (Nat.eqb_spec (length op) (length op + S (length v))); [lia|]. destruct (Z.ltb_spec (MAX_SQL_SIZE_GQ + 90) (Z.of_nat (length op + S (length v) - length op + bindIx (g_binds g0)))); [apply triple_throw|].
  set (ix := bindIx (g_binds g0)) in *.
  eapply triple_bind with (R := fun _ g => exists b, values vs b /\ bindIx b = ix /\ g_binds g = set_where_buf (ix + length v + 1) ((ix, v ++ [NUL]) :: bindVars b) b).
  { apply triple_binds. intros g [Hg ->]. by exists (g_binds g0). }
  intros ?. eapply triple_bind; [apply triple_get; intros g1; apply triple_when; [intros _; apply triple_throw|]; intros _ g [Hg _]; exact Hg|intros ?].
  eapply triple_bind with (R := fun _ g => values (vs ++ [v]) (g_binds g)).
  { apply triple_binds. intros g (b & Hb & Eix & ->). cbn [g_binds]. apply (values_bind vs b v ix Hb); [lia|done|unfold MAX_SQL_SIZE_GQ in *; lia]. }
  intros ?. apply (none_triple (values (vs ++ [v]))). unfold compare. rewrite take_app_length.
  assert (strstr (lit " " ++ op) (lit "parent_of") = None) as Hpo.
  { destruct (strstr (lit " " ++ op) (lit "parent_of")) as [i|] eqn:E; [|done]. apply strstr_at, list_elem_of_lookup_2, elem_of_app in E as [E|E]; [|done].
    exfalso. revert E. apply is_any_of_false. reflexivity. }
  rewrite Hpo. unfold last_word. none.
Qed.

Lemma comparison_op_intro a x r : Forall (fun c => blankb c = false) a -> blankb x = true -> is_any_of (lit "iIbB") x = false ->
  Forall (fun c => is_any_of (lit "'|&p") c = false) (a ++ x :: r) -> comparison_op (a ++ x :: r) = true.
Proof.
  intros Ha Hx Hi Hall. unfold comparison_op. rewrite (find_idx_first blankb a x r Ha Hx), list_lookup_middle by done. cbn [default from_option id]. rewrite Hi, andb_true_r.
  apply forallb_forall. intros c Hc%list_elem_of_In. rewrite Forall_forall in Hall. by rewrite (Hall c Hc).
Qed.

(** The n of a numeric comparison is taken off. *)
Lemma compare_cast op v : comparison_op op = true -> exists b op', cast_condition (compare op v) = (b, compare op' v) /\ comparison_op op' = true.
Proof.
  intros Hop. pose proof (comparison_op_spec op Hop) as (_ & _ & _ & _ & a & x & r & Eop & Ha & Hx & Hi).
  assert (Forall (fun c => blankb c = false) a) as Ha' by (eapply Forall_impl; [exact Ha|]; by intros c <-).
  assert (blankb x = true) as Hx' by (unfold blankb; by rewrite (proj2 (Ascii.eqb_neq x " "))).
  unfold cast_condition. change (fun c => negb (Ascii.eqb c " ")) with blankb.
  assert (compare op v = a ++ x :: (r ++ quote :: v ++ [quote])) as Ec by (unfold compare; by rewrite Eop, <- app_assoc).
  rewrite Ec, (find_idx_first blankb _ _ _ Ha' Hx'), drop_app_length. destruct (_ || _) eqn:En; [|exists false, op; by rewrite Ec].
  assert (exists y r', x = "n"%char /\ r = y :: r' /\ y ∈ lit "<>=") as (y & r' & -> & -> & Hy).
  { rewrite !orb_true_iff, !bstr_eqb_eq in En. destruct r as [|y r]; [by destruct En as [[[=]|[=]]|[=]]|].
    exists y, r. destruct En as [[[=]|[=]]|[=]]; subst; split_and!; try done; repeat first [left; reflexivity|right]. }
  exists true, (a ++ " "%char :: y :: r'). split.
  - f_equal. rewrite insert_app_r_alt, Nat.sub_diag by lia. unfold compare. by rewrite <- app_assoc.
  - assert (Forall (fun c => is_any_of (lit "'|&p") c = false) op) as Hall.
    { unfold comparison_op in Hop. apply andb_true_iff in Hop as [Hop _]. rewrite forallb_forall in Hop. apply Forall_forall. intros c Hc%list_elem_of_In%Hop. by apply negb_true_iff in Hc. }
    rewrite Eop in Hall. apply Forall_app in Hall as [H1 [_ H2]%Forall_cons].
    change (a ++ " "%char :: y :: r') with (a ++ [" "%char] ++ y :: r'). rewrite app_assoc. apply comparison_op_intro.
    + apply Forall_app. split; [done|]. by constructor.
    + unfold blankb. rewrite (proj2 (Ascii.eqb_neq y " ")); [done|]. intros ->. revert Hy. by apply is_any_of_false.
    + apply list_elem_of_In in Hy. by destruct Hy as [<-|[<-|[<-|[]]]].
    + rewrite <- app_assoc. apply Forall_app. split; [done|]. cbn. by constructor.
Qed.

(** *** All conditions *)

(** Column, operator and value. *)
Definition comparison_of : Type := Z * bstr * bstr.
Definition condition_text (c : comparison_of) : Z * bstr := (c.1.1, compare c.1.2 c.2).
Definition plain_comparison (c : comparison_of) : Prop := comparison_op c.1.2 = true /\ (quote ∉ c.2) /\ (NUL ∉ c.2).

(** ** Variables that are bound later *)

(** More variables, and the buffer of the comparisons as it was. *)
Definition later (b b' : binds) : Prop := cllBindVars b `prefix_of` cllBindVars b' /\ bindVars b' = bindVars b.

#[local] Instance later_preorder : PreOrder later.
Proof. split; [by split|]. intros b1 b2 b3 [H1 H2] [H3 H4]. split; [by etrans|congruence]. Qed.

Definition extends {A} (m : Q A) : Prop := forall g r g', m g = (r, g') -> later (g_binds g) (g_binds g').

Lemma extends_none {A} (m : Q A) : binds_none m -> extends m.
Proof. intros H g r g' E. by rewrite (H _ _ _ E). Qed.

Lemma extends_bind {A B} (m : Q A) (k : A -> Q B) : extends m -> (forall a, extends (k a)) -> extends (m ≫= k).
Proof.
  intros Hm Hk g r g'. unfold mbind, Q_bind, M_bind. destruct (m g) as [[a|e] g1] eqn:E; [|intros [= _ <-]; by eapply Hm].
  intros E2. etrans; [by eapply Hm|by eapply Hk].
Qed.

Lemma extends_when b m : extends m -> extends (when b m).
Proof. destruct b; [done|]. intros _. apply extends_none, none_ret. Qed.

Lemma extends_push v : extends (push_bind v).
Proof. intros g r g' [= _ <-]. split; [by apply prefix_app_r|done]. Qed.

Lemma extends_restrict vars t : extends (restrict vars t).
Proof.
  unfold restrict. apply extends_bind; [apply extends_none; unfold add_and; none|intros ?].
  apply extends_bind; [|intros ?; apply extends_none; none]. induction vars as [|v vars IH]; cbn [for_each]; [apply extends_none; none|].
  apply extends_bind; [apply extends_push|by intros ?].
Qed.

Lemma extends_access acl : extends (void (genqAppendAccessCheck acl)).
Proof.
  assert (extends (genqAppendAccessCheck acl)) as H.
  { unfold genqAppendAccessCheck, check_binds. repeat first
      [ apply extends_restrict | apply extends_when | apply extends_bind; [|intros ?] | by apply extends_none; none
      | match goal with |- extends (match ?x with _ => _ end) => destruct x end ]. }
  intros g r g'. unfold void, try_catch. destruct (genqAppendAccessCheck acl g) as [[u|e] g1] eqn:E; intros [= _ <-]; by eapply H.
Qed.

Lemma values_later vs b b' : values vs b -> later b b' -> map (bind_value b') (take (length vs) (cllBindVars b')) = map Ok vs.
Proof.
  intros Hv [[x ->] Hm]. rewrite (Forall2_length _ _ _ Hv), take_app_length, <- (values_read vs b Hv).
  apply list_fmap_ext. intros i y Hy. destruct (Forall2_lookup_r _ _ _ _ _ Hv Hy) as (v & _ & _ & _ & p & -> & _). cbn. by rewrite Hm.
Qed.

Section values.
Variable sc : schema.
Variable split_path : bstr -> list bstr.

Lemma values_condition_loop cs : Forall plain_comparison cs -> forall vs start,
  triple (fun g => values vs (g_binds g)) (condition_loop sc split_path start (map condition_text cs)) (fun _ g => values (vs ++ map snd cs) (g_binds g)).
Proof.
  induction 1 as [|[[inx op] v] cs (Hop & Hq & Hn) Hcs IH]; intros vs start; cbn [map condition_loop condition_text fst snd].
  - apply triple_ret. intros g Hg. by rewrite app_nil_r.
  - cbn [fst snd] in Hop, Hq, Hn. apply triple_get. intros g0. destruct (compare_cast op v Hop) as (b & op' & -> & Hop').
    apply triple_pre with (P' := fun g => values vs (g_binds g)); [by intros g [? _]|].
    eapply triple_bind; [apply (none_triple (values vs)), none_set_table|intros i]. rewrite compare_single by done.
    eapply triple_bind; [by apply values_compare|intros ?]. rewrite (app_assoc vs [v] (map snd cs) : vs ++ v :: map snd cs = _). apply IH.
Qed.

Hypothesis Hfix : schema_fixed sc = true.

Lemma values_built inp g g1 cs :
  built sc split_path inp g g1 -> sqlCondInp inp = map condition_text cs -> Forall plain_comparison cs -> cllBindVars (g_binds g) = [] ->
  values (map snd cs) (g_binds g1).
Proof.
  intros (s1 & s2 & ga & gb & gc & gd & E1 & E2 & E3 & E4 & E5) Hc Hcs Hg.
  apply none_select_loop in E1. rewrite Hc in E2. apply none_link_tables in E3.
  rewrite (none_when _ _ (none_multi _ _ _) _ _ _ E5), (none_when _ _ (none_multi _ _ _) _ _ _ E4), E3.
  apply (values_condition_loop cs Hcs [] s1 ga s2 gb); [|done]. rewrite E1. unfold values. cbn. rewrite Hg. constructor.
Qed.

(** when the query of some comparisons is complete, the values of its first variables are
    the strings of the conditions between their quotes, in the order of the conditions,
    whatever was in the buffers and whatever the access check bound after them. *)
Theorem comparisons_bound acl inp cs g c g' :
  generateSQL sc split_path acl inp g = (Ok c, g') -> cllBindVars (g_binds g) = [] ->
  sqlCondInp inp = map condition_text cs -> Forall plain_comparison cs ->
  map (bind_value (g_binds g')) (take (length cs) (cllBindVars (g_binds g'))) = map Ok (map snd cs).
Proof using Hfix.
  intros (g1 & g2 & order & Hg1 & Ha & _ & _ & Hb)%generateSQL_parts Hg Hc Hcs; [|done].
  pose proof (values_built inp g g1 cs Hg1 Hc Hcs Hg) as Hv. replace (length cs) with (length (map snd cs)) by apply length_map. apply (values_later _ _ _ Hv).
  etrans; [by eapply extends_access|]. rewrite Hb. destruct (0 <? rowOffset inp); [|reflexivity]. split; [by apply prefix_app_r|done].
Qed.
End values.

(** ** Queries *)

Definition COL_DATA_SIZE : Z := 407.

Definition run (g : gq) (sel : list (Z * Z)) (conds : list (Z * bstr)) : res bstr * gq :=
  generateSQL icat (slashes []) anonymous (GenQueryInp 0 0 sel conds) g.

(** The values a statement is executed with. *)
Definition executed (r : res bstr * gq) : list (res bstr) := map (bind_value (g_binds r.2)) (cllBindVars (g_binds r.2)).

Definition large_files : list comparison_of :=
  [(COL_DATA_NAME, lit "like ", lit "x%"); (COL_DATA_SIZE, lit "n>", lit "300"); (COL_COLL_NAME, lit " = ", lit "/a;b")].

Definition large_listed : res bstr * gq := run clean [(COL_DATA_NAME, 1)] (map condition_text large_files).

Lemma large_ok : generateSQL icat (slashes []) anonymous (GenQueryInp 0 0 [(COL_DATA_NAME, 1)] (map condition_text large_files)) clean =
  (Ok (text_of large_listed), large_listed.2).
Proof. vm_compute. reflexivity. Qed.

Lemma comparisons_bound_witness :
  map (bind_value (g_binds large_listed.2)) (take 3 (cllBindVars (g_binds large_listed.2))) = [Ok (lit "x%"); Ok (lit "300"); Ok (lit "/a;b")].
Proof.
  apply (comparisons_bound icat (slashes []) icat_fixed anonymous (GenQueryInp 0 0 [(COL_DATA_NAME, 1)] (map condition_text large_files)) large_files clean
    (text_of large_listed) large_listed.2 large_ok); [reflexivity|reflexivity|].
  repeat constructor; try (apply is_any_of_false; reflexivity).
Defined.

(** The values of a BETWEEN are those of a later one, whose strings are written over them. *)
Example between_overwritten :
  executed (run clean [(COL_DATA_NAME, 1)] [(COL_DATA_SIZE, lit "between '1' '2'"); (COL_DATA_REPL_NUM, lit "between '333' '4'")]) =
  map (Ok ∘ lit) ["333"; "3"; "333"; "4"; "anonymous"; "tempZone"]%string.
Proof. vm_compute. reflexivity. Qed.

(** A condition that begins with a quote. *)
Example leading_quote_overflows : (run clean [(COL_DATA_NAME, 1)] [(COL_DATA_NAME, lit "'x'")]).1 = Throw Eundef.
Proof. vm_compute. reflexivity. Qed.

(** IN in capitals is known only if the values do not have it in small letters. *)
Example capitals_need_other_values :
  (run clean [(COL_DATA_NAME, 1)] [(COL_DATA_NAME, lit "IN ('main')")]).1 = Throw (Eirods CAT_INVALID_ARGUMENT) /\
  (exists c, (run clean [(COL_DATA_NAME, 1)] [(COL_DATA_NAME, lit "IN ('mayn')")]).1 = Ok c).
Proof. split; [vm_compute; reflexivity|]. eexists. vm_compute. reflexivity. Qed.

(** A query that is refused leaves its variables, and the next one is executed with those before
    its own: here the access check of the second query, whose two placeholders follow that of
    the condition, looks for the objects of the user whom the first query named. *)
Example refused_query_shifts :
  let g := (run clean [(COL_DATA_NAME, 1)]
    [(COL_DATA_NAME, lit "= 'xxxx'"); (COL_DATA_NAME, lit "= 'rods'"); (COL_DATA_NAME, lit "no 'tempZone'")]).2 in
  let r := run g [(COL_DATA_NAME, 1)] [(COL_DATA_NAME, lit "= 'new'")] in
  placeholders (text_of r) = 3%nat /\
  executed r = map (Ok ∘ lit) ["new"; "rods"; "tempZone"; "new"; "anonymous"; "tempZone"]%string.
Proof. vm_compute. split; reflexivity. Qed.

(** Once that many variables are left no query is restricted any more. *)
Lemma access_check_skipped acl g :
  accessControlPriv acl <> LOCAL_PRIV_USER_AUTH -> MAX_BIND_VARS <= cllBindVarCount (g_binds g) + 6 ->
  void (genqAppendAccessCheck acl) g = (Ok tt, g).
Proof.
  intros Hp Hb. unfold void, try_catch, genqAppendAccessCheck. rewrite (proj2 (Z.eqb_neq _ _) Hp). cbv zeta.
  unfold check_binds, mbind, Q_bind, M_bind, get, get_state. rewrite (proj2 (Z.leb_le _ _) Hb). reflexivity.
Qed.
