(* ===== verification/SpecialQuery.v ===== *)
(** * Quota queries and the session of a query

    [plugins/database/src/general_query.cpp]: the query of the quotas that apply to a user
    ([generateSpecialQuery], the option QUOTA_QUERY of a general query) and the functions that
    set whose access is checked. The variables point to static strings, which are part of
    the state. *)

From stdpp Require Import base list strings.
From Stdlib Require Import ZArith Lia Ascii.
From S2P Require Import Prelude Errors Quota Numerals Schema TableLinks GenQuery QueryText.
Local Open Scope Z_scope.

Definition LONG_NAME_LEN : nat := 256.
Definition COL_USER_NAME : Z := 202.

(** ** Names of users *)

Definition is_octothorpe (c : ascii) : bool := Ascii.eqb c "#".

(** [parseUserName]: the status, the name and the zone. *)
Definition parseUserName (fullUserNameIn : bstr) : Z * bstr * bstr :=
  let '(userNameString, zoneNameString) :=
    match find_idx is_octothorpe fullUserNameIn with
    | Some i => (take i fullUserNameIn, drop (S i) fullUserNameIn)
    | None => (fullUserNameIn, [])
    end in
  if existsb is_octothorpe zoneNameString || (NAME_LEN <=? length userNameString)%nat || (NAME_LEN <=? length zoneNameString)%nat
  then (USER_INVALID_USERNAME_FORMAT, [], [])
  else (0, rstrcpy userNameString NAME_LEN, rstrcpy zoneNameString NAME_LEN).

(** ** [generateSpecialQuery] *)

Definition quotaQuery1 : bstr :=
  lit "(SELECT DISTINCT QM.user_id, RM.resc_name, QM.quota_limit, QM.quota_over, QM.resc_id " ++
  lit "FROM R_QUOTA_MAIN QM, R_RESC_MAIN RM, R_USER_GROUP UG, R_USER_MAIN UM2 " ++
  lit "WHERE QM.resc_id = RM.resc_id AND (QM.user_id = UG.group_user_id AND UM2.user_name = ? " ++
  lit "AND UM2.zone_name = ? AND UG.user_id = UM2.user_id)) UNION (SELECT DISTINCT QM.user_id, " ++
  lit "RM.resc_name, QM.quota_limit, QM.quota_over, QM.resc_id FROM R_QUOTA_MAIN QM, R_USER_GROUP UG, " ++
  lit "R_USER_MAIN UM2, R_RESC_MAIN RM WHERE QM.resc_id = '0' AND (QM.user_id = UG.group_user_id " ++
  lit "AND UM2.user_name = ? AND UM2.zone_name = ? AND UG.user_id = UM2.user_id)) UNION " ++
  lit "(SELECT DISTINCT QM.user_id, RM.resc_name, QM.quota_limit, QM.quota_over, QM.resc_id " ++
  lit "FROM R_QUOTA_MAIN QM, R_USER_MAIN UM, R_RESC_MAIN RM WHERE (QM.resc_id = RM.resc_id " ++
  lit "OR QM.resc_id = '0') AND (QM.user_id = UM.user_id AND UM.user_name = ? AND UM.zone_name = ?)) " ++
  lit "ORDER BY quota_over ASC".

Definition quotaQuery2 : bstr :=
  lit "(SELECT DISTINCT QM.user_id, RM.resc_name, QM.quota_limit, QM.quota_over, QM.resc_id " ++
  lit "FROM R_QUOTA_MAIN QM, R_RESC_MAIN RM, R_USER_GROUP UG, R_USER_MAIN UM2 " ++
  lit "WHERE QM.resc_id = RM.resc_id AND RM.resc_name = ? AND (QM.user_id = UG.group_user_id " ++
  lit "AND UM2.user_name = ? AND UM2.zone_name = ? AND UG.user_id = UM2.user_id)) UNION " ++
  lit "(SELECT DISTINCT QM.user_id, RM.resc_name, QM.quota_limit, QM.quota_over, QM.resc_id " ++
  lit "FROM R_QUOTA_MAIN QM, R_USER_GROUP UG, R_USER_MAIN UM2, R_RESC_MAIN RM WHERE QM.resc_id = '0' " ++
  lit "AND RM.resc_name = ? AND (QM.user_id = UG.group_user_id AND UM2.user_name = ? " ++
  lit "AND UM2.zone_name = ? AND UG.user_id = UM2.user_id)) UNION (SELECT DISTINCT QM.user_id, " ++
  lit "RM.resc_name, QM.quota_limit, QM.quota_over, QM.resc_id FROM R_QUOTA_MAIN QM, R_USER_MAIN UM, " ++
  lit "R_RESC_MAIN RM WHERE (QM.resc_id = RM.resc_id OR QM.resc_id = '0') AND RM.resc_name = ? " ++
  lit "AND (QM.user_id = UM.user_id AND UM.user_name = ? AND UM.zone_name = ?)) " ++
  lit "ORDER BY quota_over ASC".

(** A variable of an earlier statement, or one that points to a static string. *)
Inductive specialvar : Type := SOther (v : bstr) | SUser | SZone | SResc.

Record special : Type := Special { rescName : bstr; userName : bstr; userZone : bstr; specialVars : list specialvar }.

Definition user_vars : list specialvar := [SUser; SZone; SUser; SZone; SUser; SZone].
Definition resc_vars : list specialvar := [SResc; SUser; SZone; SResc; SUser; SZone; SResc; SUser; SZone].

(** The users in the conditions; [local_zone] is the zone of the server. The status, whether
    there was a user, and the state. *)
Fixpoint special_users (local_zone : bstr) (conds : list (Z * bstr)) (valid : bool) (s : special) : Z * bool * special :=
  match conds with
  | [] => (0, valid, s)
  | (inx, value) :: conds' =>
      if inx =? COL_USER_NAME then
        let '(status, user, zone) := parseUserName value in
        if negb (status =? 0) then (status, valid, Special (rescName s) user zone (specialVars s))
        else
          let zone := match zone with [] => rstrcpy local_zone NAME_LEN | _ => zone end in
          special_users local_zone conds' true (Special (rescName s) user zone (specialVars s ++ user_vars))
      else special_users local_zone conds' valid s
  end.

(** The resources in the conditions: their variables are written from [cllCounter] on, over
    those of the user. The text and the state. *)
Fixpoint special_rescs (conds : list (Z * bstr)) (cllCounter : nat) (sql : bstr) (s : special) : bstr * special :=
  match conds with
  | [] => (sql, s)
  | (inx, value) :: conds' =>
      if inx =? COL_R_RESC_NAME then
        special_rescs conds' (cllCounter + length resc_vars) quotaQuery2
          (Special (rstrcpy value LONG_NAME_LEN) (userName s) (userZone s) (take cllCounter (specialVars s) ++ resc_vars))
      else special_rescs conds' cllCounter sql s
  end.

(** The status, the text and the state. *)
Definition generateSpecialQuery (local_zone : bstr) (conds : list (Z * bstr)) (s : special) : Z * bstr * special :=
  let cllCounter := length (specialVars s) in
  let '(status, valid, s) := special_users local_zone conds false s in
  if negb (status =? 0) then (status, [], s)
  else if negb valid then (CAT_INVALID_ARGUMENT, [], s)
  else let '(sql, s) := special_rescs conds cllCounter quotaQuery1 s in (0, sql, s).

(** The column of each column of the result. *)
Definition specialQueryIx (ix : Z) : Z :=
  if ix =? 0 then COL_QUOTA_USER_ID
  else if ix =? 1 then COL_R_RESC_NAME
  else if ix =? 2 then COL_QUOTA_LIMIT
  else if ix =? 3 then COL_QUOTA_OVER
  else if ix =? 4 then COL_QUOTA_RESC_ID
  else 0.

(** The value of a variable when the statement is executed. *)
Definition special_value (s : special) (v : specialvar) : bstr :=
  match v with SOther v => v | SUser => userName s | SZone => userZone s | SResc => rescName s end.

(** The conditions of [getQuotaByResc] of [Quota]. *)
Definition quota_conditions (user resc : bstr) : list (Z * bstr) :=
  (COL_USER_NAME, rstrcpy user MAX_NAME_LEN) :: match resc with [] => [] | _ => [(COL_R_RESC_NAME, rstrcpy resc MAX_NAME_LEN)] end.

(** ** The session *)

(** [chl_gen_query_access_control_setup_impl]; without a user only the flag is set. A name that
    does not fit is copied as far as it does. *)
Definition access_control_setup (user : option (bstr * bstr * Z)) (controlFlag : Z) (acl : access) : Z * access :=
  let set_flag acl :=
    (accessControlControlFlag acl,
     Access (accessControlUserName acl) (accessControlZone acl) (accessControlPriv acl)
       (if 0 <=? controlFlag then controlFlag else accessControlControlFlag acl) (sessionTicket acl)) in
  match user with
  | None => set_flag acl
  | Some (name, zone, priv) =>
      let acl := Access (rstrcpy name MAX_NAME_LEN) (accessControlZone acl) (accessControlPriv acl) (accessControlControlFlag acl) (sessionTicket acl) in
      if (MAX_NAME_LEN <=? length name)%nat then (USER_STRLEN_TOOLONG, acl)
      else
        let acl := Access (accessControlUserName acl) (rstrcpy zone MAX_NAME_LEN) (accessControlPriv acl) (accessControlControlFlag acl) (sessionTicket acl) in
        if (MAX_NAME_LEN <=? length zone)%nat then (USER_STRLEN_TOOLONG, acl)
        else set_flag (Access (accessControlUserName acl) (accessControlZone acl) priv (accessControlControlFlag acl) (sessionTicket acl))
  end.

(** [chl_gen_query_ticket_setup_impl]; of the address of the client, which no query reads, only
    the length matters. *)
Definition ticket_setup (ticket clientAddr : bstr) (acl : access) : Z * access :=
  let acl := Access (accessControlUserName acl) (accessControlZone acl) (accessControlPriv acl) (accessControlControlFlag acl) (rstrcpy ticket MAX_NAME_LEN) in
  if (MAX_NAME_LEN <=? length ticket)%nat || (MAX_NAME_LEN <=? length clientAddr)%nat then (USER_STRLEN_TOOLONG, acl) else (0, acl).

(** ** Properties *)

Lemma rstrcpy_short s n : (length s < n)%nat -> rstrcpy s n = s.
Proof. intros H. unfold rstrcpy. apply take_ge. lia. Qed.

(** A name and a zone without the separator. *)
Definition name_ok (n : bstr) : Prop := Forall (fun c => is_octothorpe c = false) n /\ (length n < NAME_LEN)%nat.

(** The parts of a full user name are its name and its zone. *)
Lemma user_name_roundtrip user zone : name_ok user -> name_ok zone ->
  parseUserName (user ++ "#"%char :: zone) = (0, user, zone) /\ parseUserName user = (0, user, []).
Proof.
  intros [Hu Hul] [Hz Hzl]. unfold parseUserName. split.
  - assert (find_idx is_octothorpe (user ++ "#"%char :: zone) = Some (length user)) as -> by (apply find_idx_Some; by exists user, "#"%char, zone).
    cbv beta iota.
    rewrite take_app_length. replace (S (length user)) with (length user + 1)%nat by lia. rewrite drop_app_add. cbn [drop]. rewrite drop_0.
    assert (existsb is_octothorpe zone = false) as ->.
    { destruct (existsb is_octothorpe zone) eqn:E; [|done]. apply existsb_exists in E as (c & Hc & Ho). rewrite Forall_forall in Hz.
      by rewrite (Hz c) in Ho by by apply list_elem_of_In. }
    rewrite (proj2 (Nat.leb_gt _ _) Hul), (proj2 (Nat.leb_gt _ _) Hzl). cbn [orb]. by rewrite !rstrcpy_short.
  - rewrite (proj2 (find_idx_None _ _) Hu). cbv beta iota. cbn [existsb]. rewrite (proj2 (Nat.leb_gt _ _) Hul). cbn [orb].
    change (NAME_LEN <=? length (@nil ascii))%nat with false. cbn [orb]. by rewrite rstrcpy_short.
Qed.

(** The placeholders of both texts. *)
Lemma quota_placeholders : placeholders quotaQuery1 = 6%nat /\ placeholders quotaQuery2 = 9%nat.
Proof. split; vm_compute; reflexivity. Qed.

(** The query for the quotas of a user, and of a resource if one is given, binds a value for
    each of its placeholders: the name of the user and its zone, which is the local one where
    it is not given, and before them the resource. *)
Lemma quota_query_bound local_zone user zone resc s :
  name_ok user -> name_ok zone -> name_ok local_zone -> (length resc < LONG_NAME_LEN)%nat ->
  let full := match zone with [] => user | _ => user ++ "#"%char :: zone end in
  let z := match zone with [] => local_zone | _ => zone end in
  exists s', generateSpecialQuery local_zone (quota_conditions full resc) s =
    (0, match resc with [] => quotaQuery1 | _ => quotaQuery2 end, s') /\
  exists own, specialVars s' = specialVars s ++ own /\
    map (special_value s') own = match resc with [] => [user; z; user; z; user; z] | _ => [resc; user; z; resc; user; z; resc; user; z] end /\
    length own = placeholders (match resc with [] => quotaQuery1 | _ => quotaQuery2 end).
Proof.
  intros Hu Hz Hlz Hr full z. destruct (user_name_roundtrip user zone Hu Hz) as [P1 P2].
  assert (length full < MAX_NAME_LEN)%nat as Hfull.
  { destruct Hu as [_ Hul], Hz as [_ Hzl]. unfold full, NAME_LEN, MAX_NAME_LEN in *. destruct zone; [lia|]. rewrite length_app. cbn [length] in *. lia. }
  assert (exists z', parseUserName full = (0, user, z') /\ match z' with [] => rstrcpy local_zone NAME_LEN | _ => z' end = z) as (z' & P & Ez).
  { unfold full, z. destruct zone as [|c zone]; [exists []; split; [done|apply rstrcpy_short, Hlz]|by exists (c :: zone)]. }
  assert (length resc < MAX_NAME_LEN)%nat as Hr' by (unfold LONG_NAME_LEN, MAX_NAME_LEN in *; lia).
  unfold generateSpecialQuery, quota_conditions. rewrite (rstrcpy_short full) by done. cbn [special_users]. rewrite Z.eqb_refl, P. cbn [negb Z.eqb]. rewrite Ez.
  destruct quota_placeholders as [Q1 Q2]. destruct resc as [|c resc].
  - eexists. split; [reflexivity|]. exists user_vars. by rewrite Q1.
  - rewrite (rstrcpy_short (c :: resc)) by done. cbn -[rstrcpy quotaQuery2 lit]. rewrite take_app_length, (rstrcpy_short (c :: resc)) by done.
    eexists. split; [reflexivity|]. exists resc_vars. by rewrite Q2.
Qed.

(** A second condition on the user binds its variables again, for which there are no
    placeholders. *)
Example second_user_unbound :
  let '(status, sql, s) := generateSpecialQuery (lit "tempZone") [(COL_USER_NAME, lit "a"); (COL_USER_NAME, lit "b")] (Special [] [] [] []) in
  status = 0 /\ placeholders sql = 6%nat /\ length (specialVars s) = 12%nat.
Proof. vm_compute. repeat split. Qed.

(** The flag that restricts queries can be taken back. *)
Lemma strict_taken_back acl flag : 0 <= flag -> accessControlControlFlag (access_control_setup None flag acl).2 = flag.
Proof. intros H. cbn. by rewrite (proj2 (Z.leb_le _ _) H). Qed.

(** Setting a user leaves the check of its queries as it was. *)
Lemma user_set acl name zone priv :
  (length name < MAX_NAME_LEN)%nat -> (length zone < MAX_NAME_LEN)%nat ->
  access_control_setup (Some (name, zone, priv)) (-1) acl =
  (accessControlControlFlag acl, Access name zone priv (accessControlControlFlag acl) (sessionTicket acl)).
Proof.
  intros H1 H2. unfold access_control_setup. rewrite (proj2 (Nat.leb_gt _ _) H1), (proj2 (Nat.leb_gt _ _) H2). cbn -[rstrcpy MAX_NAME_LEN].
  by rewrite !rstrcpy_short.
Qed.
