(* ===== verification/RuleReader.v ===== *)
(** * Reading the text of rules

    [plugins/rule_engines/irods_rule_language/src/parser.cpp]: a [Pointer] reads characters from
    a string or, through a buffer that slides over it, from a file. What the lexer does with
    a pointer is a program over its operations ([prog]), which either kind of pointer runs.
    [file_simulates]: a file is read as the string of its contents. [wp] is what a program
    comes to, for the theorems about the lexer. *)

From stdpp Require Import base list strings.
From Stdlib Require Import ZArith Lia Ascii.
From S2P Require Import Prelude Obf.
Local Open Scope Z_scope.

(** ** Programs over a pointer *)

Inductive prog (A : Type) : Type :=
| Ret (a : A)
| Fail (e : exn)
| LookAhead (n : nat) (k : Z -> prog A)
| NextChar (k : Z -> prog A)
| SeekTo (x : nat) (k : prog A)
| GetPos (k : nat -> prog A)
| DupString (start n : nat) (k : bstr -> prog A).
Arguments Ret {A} a.
Arguments Fail {A} e.
Arguments LookAhead {A} n k.
Arguments NextChar {A} k.
Arguments SeekTo {A} x k.
Arguments GetPos {A} k.
Arguments DupString {A} start n k.

Fixpoint prog_bind {A B} (f : A -> prog B) (m : prog A) : prog B :=
  match m with
  | Ret a => f a
  | Fail e => Fail e
  | LookAhead n k => LookAhead n (fun c => prog_bind f (k c))
  | NextChar k => NextChar (fun c => prog_bind f (k c))
  | SeekTo x k => SeekTo x (prog_bind f k)
  | GetPos k => GetPos (fun x => prog_bind f (k x))
  | DupString start n k => DupString start n (fun s => prog_bind f (k s))
  end.

#[export] Instance prog_mret : MRet prog := fun A => @Ret A.
#[export] Instance prog_mbind : MBind prog := fun A B => @prog_bind A B.

Definition lookAhead (n : nat) : prog Z := LookAhead n Ret.
Definition nextChar : prog Z := NextChar Ret.
Definition seek (x : nat) : prog unit := SeekTo x (Ret tt).
Definition getPos : prog nat := GetPos Ret.
Definition dupString (start n : nat) : prog bstr := DupString start n Ret.

(** The end of the text. *)
Definition EOS : Z := -1.

(** ** Strings *)

(** The character at a position of a string. *)
Definition char_at (src : bstr) (i : nat) : Z := match src !! i with Some c => schar c | None => EOS end.

Definition lookAhead_str (src : bstr) (strp n : nat) : Z := char_at src (strp + n).

(** The position stays at the end of the string; it is not read behind it. *)
Definition nextChar_str (src : bstr) (strp : nat) : res (Z * nat) :=
  if (length src <? strp)%nat then Throw Eundef
  else if (strp =? length src)%nat then Ok (EOS, strp)
  else Ok (char_at src (S strp), S strp).

Definition dupString_str (src : bstr) (start n : nat) : res bstr :=
  if (length src <? start)%nat then Throw Eundef else Ok (take n (drop start src)).

Fixpoint run_str {A} (src : bstr) (m : prog A) (strp : nat) : res (A * nat) :=
  match m with
  | Ret a => Ok (a, strp)
  | Fail e => Throw e
  | LookAhead n k => run_str src (k (lookAhead_str src strp n)) strp
  | NextChar k => '(c, strp) ← nextChar_str src strp; run_str src (k c) strp
  | SeekTo x k => run_str src k x
  | GetPos k => run_str src (k strp) strp
  | DupString start n k => s ← dupString_str src start n; run_str src (k s) strp
  end.

(** ** Files *)

Definition half_buf : nat := Z.to_nat 8192.
Definition POINTER_BUF_SIZE : nat := 2 * half_buf.

(** A file with the position it is read from, the part of it in the buffer, the next character
    in the buffer and the position of the buffer in the file. *)
Record fptr : Type := Fptr { file : bstr; foff : nat; buf : bstr; p_ : nat; fpos : nat }.

Definition initPointer (contents : bstr) : fptr := Fptr contents 0 [] 0 0.

Definition readToBuffer (f : fptr) : fptr :=
  let len := length (buf f) in
  let move := ((len + 1) / 2)%nat in
  let move := if (p_ f <? move)%nat then p_ f else move in
  let load := (POINTER_BUF_SIZE - (len - move))%nat in
  let got := take load (drop (foff f) (file f)) in
  Fptr (file f) (foff f + length got) (drop move (buf f) ++ got) (p_ f - move) (fpos f + move).

Definition clearBuffer (f : fptr) : fptr := Fptr (file f) (foff f) [] 0 (fpos f + length (buf f)).

(** The buffer is read again for every position, whatever is in it. *)
Definition seekInFile (f : fptr) (x : nat) : fptr :=
  if (fpos f <? x)%nat || (x <=? fpos f + length (buf f))%nat then
    let f := clearBuffer (Fptr (file f) x (buf f) (p_ f) (fpos f)) in
    readToBuffer (Fptr (file f) (foff f) (buf f) (p_ f) x)
  else Fptr (file f) (foff f) (buf f) (x - fpos f) (fpos f).

Definition lookAhead_file (f : fptr) (n : nat) : Z * fptr :=
  let f := if (length (buf f) <=? p_ f + n)%nat then readToBuffer f else f in
  (match buf f !! (p_ f + n)%nat with Some c => schar c | None => EOS end, f).

Definition nextChar_file (f : fptr) : Z * fptr :=
  let '(c, f) := lookAhead_file f 1 in (c, Fptr (file f) (foff f) (buf f) (S (p_ f)) (fpos f)).

Definition getFPos_file (f : fptr) : nat := (fpos f + p_ f)%nat.

(** At most [n] characters; a character whose value is that of the end ends them. *)
Fixpoint dup_loop (n : nat) (f : fptr) (acc : bstr) : bstr * fptr :=
  match n with
  | O => (rev acc, f)
  | S n =>
      let '(c, f) := lookAhead_file f 0 in
      if c =? EOS then (rev acc, f) else let '(_, f) := nextChar_file f in dup_loop n f (chr c :: acc)
  end.

Definition dupString_file (f : fptr) (start n : nat) : bstr * fptr :=
  let curr := getFPos_file f in
  let '(s, f) := dup_loop n (seekInFile f start) [] in (s, seekInFile f curr).

Fixpoint run_file {A} (m : prog A) (f : fptr) : res (A * fptr) :=
  match m with
  | Ret a => Ok (a, f)
  | Fail e => Throw e
  | LookAhead n k => let '(c, f) := lookAhead_file f n in run_file (k c) f
  | NextChar k => let '(c, f) := nextChar_file f in run_file (k c) f
  | SeekTo x k => run_file k (seekInFile f x)
  | GetPos k => run_file (k (getFPos_file f)) f
  | DupString start n k => let '(s, f) := dupString_file f start n in run_file (k s) f
  end.

(** ** Programs that stay within the text *)

(** As [run_str], but what a file does otherwise fails: a step behind the end, a look ahead by
    half of the buffer. *)
Fixpoint run_within {A} (src : bstr) (m : prog A) (pos : nat) : res (A * nat) :=
  match m with
  | Ret a => Ok (a, pos)
  | Fail e => Throw e
  | LookAhead n k => if (n <? half_buf)%nat then run_within src (k (lookAhead_str src pos n)) pos else Throw Eundef
  | NextChar k => if (pos <? length src)%nat then run_within src (k (char_at src (S pos))) (S pos) else Throw Eundef
  | SeekTo x k => if (x <=? length src)%nat then run_within src k x else Throw Eundef
  | GetPos k => run_within src (k pos) pos
  | DupString start n k => if (start <=? length src)%nat then run_within src (k (take n (drop start src))) pos else Throw Eundef
  end.

Lemma within_str {A} src (m : prog A) : forall pos a pos', run_within src m pos = Ok (a, pos') -> run_str src m pos = Ok (a, pos').
Proof.
  induction m as [a|e|n k IH|k IH|x k IH|k IH|start n k IH]; intros pos b pos'; cbn [run_within run_str]; try done.
  - destruct (n <? half_buf)%nat; [apply IH|done].
  - destruct (Nat.ltb_spec pos (length src)); [|done]. intros E. unfold nextChar_str.
    destruct (Nat.ltb_spec (length src) pos); [lia|]. destruct (Nat.eqb_spec pos (length src)); [lia|]. cbn. by apply IH.
  - destruct (x <=? length src)%nat; [apply IH|done].
  - apply IH.
  - destruct (Nat.leb_spec start (length src)); [|done]. unfold dupString_str. destruct (Nat.ltb_spec (length src) start); [lia|]. cbn. apply IH.
Qed.

(** ** A file is read as its contents *)

(** The pointer is at [pos] of [src]. *)
Record reads (src : bstr) (f : fptr) (pos : nat) : Prop := Reads {
  r_file : file f = src;
  r_buf : buf f = take (length (buf f)) (drop (fpos f) src);
  r_off : foff f = (fpos f + length (buf f))%nat;
  r_size : (length (buf f) <= POINTER_BUF_SIZE)%nat;
  r_p : (p_ f <= length (buf f))%nat;
  r_pos : pos = (fpos f + p_ f)%nat
}.

Lemma half_buf_large : (4 <= half_buf)%nat.
Proof. apply Nat.leb_le. vm_compute. reflexivity. Qed.

Lemma reads_init src : reads src (initPointer src) 0.
Proof. split; cbn; try done; lia. Qed.

(** A buffer that was filled at [pos] or before it. *)
Record filled (src : bstr) (f : fptr) : Prop := Filled {
  f_p : (p_ f <= half_buf)%nat;
  f_len : length (buf f) = Nat.min POINTER_BUF_SIZE (length src - fpos f)%nat
}.

Lemma read_contents src f pos (move := Nat.min (p_ f) ((length (buf f) + 1) / 2)) : reads src f pos ->
  buf (readToBuffer f) = take POINTER_BUF_SIZE (drop (fpos f + move) src) /\ fpos (readToBuffer f) = (fpos f + move)%nat /\
  p_ (readToBuffer f) = (p_ f - move)%nat.
Proof.
  intros [Hf Hb Ho Hs Hp _]. unfold readToBuffer.
  assert ((if (p_ f <? (length (buf f) + 1) / 2)%nat then p_ f else ((length (buf f) + 1) / 2)%nat) = move) as ->.
  { unfold move. destruct (Nat.ltb_spec (p_ f) ((length (buf f) + 1) / 2)); lia. }
  cbn [buf fpos p_]. split; [|done]. assert (move <= length (buf f))%nat by lia. clearbody move.
  rewrite Hf, Ho. set (len := length (buf f)) in *. rewrite Hb, skipn_firstn_comm, drop_drop.
  rewrite <- (firstn_skipn (len - move) (take POINTER_BUF_SIZE (drop (fpos f + move) src))). f_equal.
  - rewrite take_take. f_equal. lia.
  - rewrite skipn_firstn_comm, !drop_drop. do 2 f_equal; lia.
Qed.

Lemma half_move len p : (len <= POINTER_BUF_SIZE -> p <= len -> p - Nat.min p ((len + 1) / 2) <= half_buf)%nat.
Proof. unfold POINTER_BUF_SIZE. pose proof (Nat.div_mod_eq (len + 1) 2). pose proof (Nat.mod_upper_bound (len + 1) 2). lia. Qed.

Lemma read_off f : foff f = (fpos f + length (buf f))%nat -> (p_ f <= length (buf f))%nat -> (length (buf f) <= POINTER_BUF_SIZE)%nat ->
  foff (readToBuffer f) = (fpos (readToBuffer f) + length (buf (readToBuffer f)))%nat.
Proof.
  intros Ho Hp Hs. unfold readToBuffer. cbn [buf fpos foff]. rewrite length_app, length_drop.
  destruct (Nat.ltb_spec (p_ f) ((length (buf f) + 1) / 2)); lia.
Qed.

(** What the buffer holds behind a read. *)
Lemma read_spec src f pos : reads src f pos -> reads src (readToBuffer f) pos /\ filled src (readToBuffer f).
Proof.
  intros R. destruct (read_contents _ _ _ R) as (E & Ef & Ep). destruct R as [Hf Hb Ho Hs Hp ->].
  set (move := Nat.min _ _) in *.
  assert (length (buf f) <= length src - fpos f)%nat as Hl by (rewrite Hb, length_take, length_drop; lia).
  assert (length (buf (readToBuffer f)) = Nat.min POINTER_BUF_SIZE (length src - (fpos f + move)))%nat as El.
  { by rewrite E, length_take, length_drop. }
  pose proof (half_move _ _ Hs Hp) as Hm. fold move in Hm.
  split; [|split; [by rewrite Ep|by rewrite El, Ef]]. split.
  - done.
  - rewrite El, Ef, E. symmetry. rewrite <- length_drop, <- firstn_firstn. by rewrite (firstn_all2 (n := length _)).
  - by apply read_off.
  - lia.
  - lia.
  - lia.
Qed.

Lemma buf_char src f pos n : reads src f pos -> (p_ f + n < length (buf f))%nat ->
  match buf f !! (p_ f + n)%nat with Some c => schar c | None => EOS end = lookAhead_str src pos n.
Proof.
  intros [_ Hb _ _ _ ->] Hn. rewrite Hb. unfold lookAhead_str, char_at.
  rewrite lookup_take_lt, lookup_drop by done. by rewrite Nat.add_assoc.
Qed.

Lemma end_char src f pos n : reads src f pos -> filled src f -> (n < half_buf)%nat -> (length (buf f) <= p_ f + n)%nat ->
  match buf f !! (p_ f + n)%nat with Some c => schar c | None => EOS end = lookAhead_str src pos n.
Proof.
  intros [_ _ _ _ _ ->] [Hp Hl] Hn Hlen. unfold lookAhead_str, char_at.
  rewrite !lookup_ge_None_2; [done| |done]. unfold POINTER_BUF_SIZE in *. lia.
Qed.

(** A look ahead by less than half of the buffer is a look into the text, and leaves the pointer
    where it is. *)
Lemma look_ok src f pos n : reads src f pos -> (n < half_buf)%nat -> exists f',
  lookAhead_file f n = (lookAhead_str src pos n, f') /\ reads src f' pos /\ ((p_ f' + n < length (buf f'))%nat \/ filled src f').
Proof.
  intros R Hn. unfold lookAhead_file. destruct (Nat.leb_spec (length (buf f)) (p_ f + n)).
  - destruct (read_spec _ _ _ R) as [R' F]. exists (readToBuffer f). split; [|by auto]. f_equal.
    destruct (Nat.le_gt_cases (length (buf (readToBuffer f))) (p_ (readToBuffer f) + n)); [by apply end_char|by apply buf_char].
  - exists f. split; [|by auto]. f_equal. by apply buf_char.
Qed.

Lemma next_ok src f pos : reads src f pos -> (pos < length src)%nat -> exists f',
  nextChar_file f = (char_at src (S pos), f') /\ reads src f' (S pos).
Proof.
  intros R Hp. pose proof half_buf_large. destruct (look_ok src f pos 1 R ltac:(lia)) as (f' & E & R' & H').
  unfold nextChar_file. rewrite E. unfold lookAhead_str. rewrite Nat.add_1_r. eexists. split; [done|].
  destruct R' as [Hf Hb Ho Hs Hp' ->]. split; cbn [file foff buf p_ fpos]; try done.
  destruct H' as [?|[F1 F2]]; [lia|]. unfold POINTER_BUF_SIZE in *. lia.
Qed.

Lemma reads_at src f x : file f = src -> (x <= length src)%nat -> reads src (Fptr src x [] 0 x) x.
Proof. intros <- Hx. split; cbn; try done; lia. Qed.

Lemma seek_ok src f pos x : reads src f pos -> (x <= length src)%nat -> reads src (seekInFile f x) x.
Proof.
  intros [Hf Hb Ho Hs Hp ->] Hx. unfold seekInFile. destruct (_ || _) eqn:E.
  - cbn [clearBuffer file foff buf p_ fpos]. rewrite Hf. apply read_spec. by eapply reads_at.
  - apply orb_false_elim in E as [E1 E2]. apply Nat.ltb_ge in E1. apply Nat.leb_gt in E2. lia.
Qed.

(** ** The texts of rules *)

(** No character of the text has the value of the end of it. *)
Definition is_text (src : bstr) : bool := forallb (fun c => negb (schar c =? EOS)) src.

Lemma text_char src i c : is_text src = true -> src !! i = Some c -> char_at src i = schar c /\ char_at src i <> EOS.
Proof.
  unfold is_text, char_at. rewrite forallb_forall. intros H E. rewrite E. split; [done|].
  specialize (H c). rewrite <- list_elem_of_In, negb_true_iff, Z.eqb_neq in H. apply H. by eapply list_elem_of_lookup_2.
Qed.

Lemma chr_schar c : chr (schar c) = c.
Proof.
  apply uchar_inj. rewrite uchar_chr. pose proof (uchar_range c). unfold schar.
  destruct (uchar c <? 128); [by apply Z.mod_small|]. replace (uchar c - 256) with (uchar c + (-1) * 256) by lia.
  by rewrite Z.mod_add, Z.mod_small.
Qed.

Lemma dup_loop_ok src n : is_text src = true -> forall f pos acc, reads src f pos -> (pos <= length src)%nat -> exists f',
  dup_loop n f acc = (rev acc ++ take n (drop pos src), f') /\ reads src f' (pos + Nat.min n (length src - pos)).
Proof.
  intros T. pose proof half_buf_large. induction n as [|n IH]; intros f pos acc R Hp; cbn [dup_loop].
  - exists f. split; [by rewrite app_nil_r|]. by rewrite Nat.add_0_r.
  - destruct (look_ok src f pos 0 R ltac:(lia)) as (f1 & -> & R1 & _). unfold lookAhead_str. rewrite Nat.add_0_r.
    destruct (src !! pos) as [c|] eqn:Ec.
    + pose proof (lookup_lt_Some _ _ _ Ec). destruct (text_char _ _ _ T Ec) as [E1 E2].
      destruct (Z.eqb_spec (char_at src pos) EOS); [done|]. destruct (next_ok _ _ _ R1 ltac:(done)) as (f2 & -> & R2).
      destruct (IH f2 (S pos) (chr (char_at src pos) :: acc) R2 ltac:(lia)) as (f3 & -> & R3). exists f3. split.
      * rewrite (drop_S _ _ _ Ec), E1, chr_schar. cbn. by rewrite <- app_assoc.
      * by replace (pos + Nat.min (S n) (length src - pos))%nat with (S pos + Nat.min n (length src - S pos))%nat by lia.
    + unfold char_at. rewrite Ec, Z.eqb_refl. apply lookup_ge_None_1 in Ec. exists f1.
      rewrite drop_ge, take_nil, app_nil_r by done. split; [done|].
      by replace (pos + Nat.min (S n) (length src - pos))%nat with pos by lia.
Qed.

Lemma dup_ok src f pos start n : is_text src = true -> reads src f pos -> (pos <= length src)%nat -> (start <= length src)%nat -> exists f',
  dupString_file f start n = (take n (drop start src), f') /\ reads src f' pos.
Proof.
  intros T R Hp Hs. unfold dupString_file.
  destruct (dup_loop_ok src n T _ start [] (seek_ok _ _ _ _ R Hs) Hs) as (f' & -> & R'). eexists. split; [done|].
  replace (getFPos_file f) with pos by (by destruct R). by eapply seek_ok.
Qed.

(** A program that stays within the text runs on a file as on the string of its contents,
    whatever the buffer holds. *)
Lemma file_simulates {A} (src : bstr) (m : prog A) : is_text src = true -> forall (f : fptr) (pos : nat) (a : A) (pos' : nat),
  reads src f pos -> (pos <= length src)%nat -> run_within src m pos = Ok (a, pos') -> exists f', run_file m f = Ok (a, f') /\ reads src f' pos'.
Proof.
  intros T. induction m as [b|e|n k IH|k IH|x k IH|k IH|start n k IH]; intros f pos a pos' R Hp; cbn [run_within run_file].
  - intros [= -> ->]. by exists f.
  - done.
  - destruct (Nat.ltb_spec n half_buf); [|done]. destruct (look_ok _ _ _ _ R ltac:(done)) as (f' & -> & R' & _). by apply IH.
  - destruct (Nat.ltb_spec pos (length src)); [|done]. destruct (next_ok _ _ _ R ltac:(done)) as (f' & -> & R'). by apply IH.
  - destruct (Nat.leb_spec x (length src)); [|done]. apply IH; [by eapply seek_ok|done].
  - replace (getFPos_file f) with pos by (by destruct R). by apply IH.
  - destruct (Nat.leb_spec start (length src)); [|done]. destruct (dup_ok _ _ _ _ n T R Hp ltac:(done)) as (f' & -> & R'). by apply IH.
Qed.

(** ** What a program comes to

    [wp src m pos Q]: from [pos] the program stays within the text and returns a value and
    a position that satisfy [Q]. *)

Fixpoint wp {A} (src : bstr) (m : prog A) (pos : nat) (Q : A -> nat -> Prop) : Prop :=
  match m with
  | Ret a => Q a pos
  | Fail _ => False
  | LookAhead n k => (n < half_buf)%nat /\ wp src (k (char_at src (pos + n))) pos Q
  | NextChar k => (pos < length src)%nat /\ wp src (k (char_at src (S pos))) (S pos) Q
  | SeekTo x k => (x <= length src)%nat /\ wp src k x Q
  | GetPos k => wp src (k pos) pos Q
  | DupString start n k => (start <= length src)%nat /\ wp src (k (take n (drop start src))) pos Q
  end.

Lemma wp_run {A} src (m : prog A) : forall pos Q, wp src m pos Q -> exists a pos', run_within src m pos = Ok (a, pos') /\ Q a pos'.
Proof.
  induction m as [b|e|n k IH|k IH|x k IH|k IH|start n k IH]; intros pos Q; cbn [wp run_within].
  - eauto.
  - done.
  - intros [Hn H]. rewrite (proj2 (Nat.ltb_lt _ _) Hn). by apply IH.
  - intros [Hn H]. rewrite (proj2 (Nat.ltb_lt _ _) Hn). by apply IH.
  - intros [Hn H]. rewrite (proj2 (Nat.leb_le _ _) Hn). by apply IH.
  - apply IH.
  - intros [Hn H]. rewrite (proj2 (Nat.leb_le _ _) Hn). by apply IH.
Qed.

Lemma wp_bind {A B} src (m : prog A) (f : A -> prog B) Q : forall pos, wp src (m ≫= f) pos Q <-> wp src m pos (fun a p => wp src (f a) p Q).
Proof. unfold mbind, prog_mbind. induction m as [b|e|n k IH|k IH|x k IH|k IH|start n k IH]; intros pos; cbn; try done; naive_solver. Qed.

Lemma wp_mono {A} src (m : prog A) (Q R : A -> nat -> Prop) : (forall a p, Q a p -> R a p) -> forall pos, wp src m pos Q -> wp src m pos R.
Proof. intros HQ. induction m as [b|e|n k IH|k IH|x k IH|k IH|start n k IH]; intros pos; cbn; naive_solver. Qed.

Lemma wp_ret {A} src (a : A) pos (Q : A -> nat -> Prop) : wp src (mret a) pos Q <-> Q a pos.
Proof. done. Qed.

Lemma wp_look {A} src n (f : Z -> prog A) pos Q : (n < 4)%nat -> wp src (lookAhead n ≫= f) pos Q <-> wp src (f (char_at src (pos + n))) pos Q.
Proof. intros Hn. pose proof half_buf_large. rewrite wp_bind. cbn. split; [naive_solver|]. split; [lia|done]. Qed.

Lemma wp_next {A} src (f : Z -> prog A) pos Q : (pos < length src)%nat -> wp src (nextChar ≫= f) pos Q <-> wp src (f (char_at src (S pos))) (S pos) Q.
Proof. rewrite wp_bind. cbn. naive_solver. Qed.

Lemma char_inside src pos : char_at src pos <> EOS -> (pos < length src)%nat.
Proof. unfold char_at. destruct (src !! pos) eqn:E; [|done]. by apply lookup_lt_Some in E. Qed.

Lemma run_bind_inv {A B} src (m : prog A) (f : A -> prog B) : forall pos b pos', run_str src (m ≫= f) pos = Ok (b, pos') ->
  exists a p, run_str src m pos = Ok (a, p) /\ run_str src (f a) p = Ok (b, pos').
Proof.
  unfold mbind, prog_mbind. induction m as [a|e|n k IH|k IH|x k IH|k IH|start n k IH]; intros pos b pos'; cbn [prog_bind run_str]; eauto.
  - done.
  - destruct (nextChar_str src pos) as [[c p]|]; [apply IH|done].
  - destruct (dupString_str src start n); [apply IH|done].
Qed.
