(* ===== verification/RuleLexer.v ===== *)
(** * The tokens of the rule language

    The lexer of [plugins/rule_engines/irods_rule_language/src/parser.cpp]: the characters a
    pointer reads ([RuleReader.v]) are cut into tokens, which a ring of 1024 slots keeps so
    that the parser can take them back. A token is written over the one its slot held: its
    text is an array of bytes, of which the C string is a part. *)

From stdpp Require Import base list strings.
From Stdlib Require Import ZArith Lia Ascii.
From S2P Require Import Prelude Obf RuleReader.
Local Open Scope Z_scope.

(** ** Characters

    [isalpha] and the like in the C locale; they hold of no character outside ASCII and not
    of the end of the text. *)

Definition isdigit (ch : Z) : bool := (48 <=? ch) && (ch <=? 57).
Definition isalpha (ch : Z) : bool := ((65 <=? ch) && (ch <=? 90)) || ((97 <=? ch) && (ch <=? 122)).
Definition isalnum (ch : Z) : bool := isalpha ch || isdigit ch.
Definition is_ch (c : ascii) (ch : Z) : bool := ch =? schar c.
(** [strchr( d, ch ) != NULL]: the end of the string counts. *)
Definition strchr (d : bstr) (ch : Z) : bool := (ch =? 0) || existsb (fun c => is_ch c ch) d.
Definition word_char (ch : Z) : bool := is_ch "_" ch || isalnum ch.

(** ** Operators and keywords *)

Record Op : Type := mkOp { op_string : bstr; arity : Z; prec : Z }.

Definition new_ops : list Op :=
  [mkOp (lit "-") 1 10; mkOp (lit "++") 2 6; mkOp (lit "+") 2 6; mkOp (lit "-") 2 6; mkOp (lit "*") 2 7;
   mkOp (lit "/") 2 7; mkOp (lit "&&") 2 3; mkOp (lit "%%") 2 2; mkOp (lit "||") 2 2; mkOp (lit "%") 2 7;
   mkOp (lit "<=") 2 5; mkOp (lit ">=") 2 5; mkOp (lit "<") 2 5; mkOp (lit ">") 2 5; mkOp (lit "==") 2 4;
   mkOp (lit "!=") 2 4; mkOp (lit "!") 1 10; mkOp (lit "like regex") 2 4; mkOp (lit "not like regex") 2 4;
   mkOp (lit "like") 2 4; mkOp (lit "not like") 2 4; mkOp (lit "^^") 2 8; mkOp (lit "^") 2 8; mkOp (lit ".") 2 8;
   mkOp (lit "floor") 1 10; mkOp (lit "ceiling") 1 10; mkOp (lit "log") 1 10; mkOp (lit "exp") 1 10;
   mkOp (lit "abs") 1 10; mkOp (lit "=") 2 1; mkOp (lit "@@") 2 20].

Definition keywords : list bstr :=
  map lit ["in"; "let"; "match"; "with"; "for"; "forExec"; "while"; "whileExec"; "foreach"; "forEachExec"; "if"; "ifExec";
           "then"; "else"; "data"; "constructor"; "on"; "or"; "oron"]%string.

Definition isKeyword (text : bstr) : bool := existsb (fun k => bool_decide (k = text)) keywords.

(** ** Tokens *)

(** The node types of tokens. *)
Inductive NodeType : Type :=
| TK_EOS | TK_MISC_OP | TK_LOCAL_VAR | TK_SESSION_VAR | TK_PATH | TK_OP | TK_DOUBLE | TK_INT | TK_TEXT | TK_STRING
| TK_BACKQUOTED | N_ERROR.

#[export] Instance NodeType_eq_dec : EqDecision NodeType.
Proof. solve_decision. Defined.

Definition MAX_TOKEN_TEXT_LEN : nat := 1023.
Definition NVARS : nat := 100.

Record Token : Type := mkToken { type : NodeType; text : bstr; vars : list Z; exprloc : nat }.

Definition set_type (t : NodeType) (tok : Token) : Token := mkToken t (text tok) (vars tok) (exprloc tok).
Definition set_text (s : bstr) (tok : Token) : Token := mkToken (type tok) s (vars tok) (exprloc tok).
Definition set_vars (v : list Z) (tok : Token) : Token := mkToken (type tok) (text tok) v (exprloc tok).
Definition set_exprloc (x : nat) (tok : Token) : Token := mkToken (type tok) (text tok) (vars tok) x.

(** A write into an array, and of a string with its end into a buffer. *)
Definition put {A} (a : list A) (i : nat) (x : A) : prog (list A) :=
  if (i <? length a)%nat then mret (<[i:=x]> a) else Fail Eundef.

Definition store (s : bstr) (tok : Token) : prog Token :=
  if (length s <? length (text tok))%nat then mret (set_text (s ++ NUL :: drop (S (length s)) (text tok)) tok)
  else Fail Eundef.

(** ** Loops over characters *)

(** [while ( p( ch ) ) { ch = nextChar( e ); }] *)
Fixpoint skip_while (fuel : nat) (p : Z -> bool) (ch : Z) : prog unit :=
  if p ch then match fuel with O => Fail Ediverge | S fuel => ch ← nextChar; skip_while fuel p ch end
  else mret tt.

Definition is_blank (ch : Z) : bool := is_ch " " ch || (ch =? 9) || (ch =? 13) || (ch =? 10).

Definition skipWhitespace (fuel : nat) : prog unit :=
  ch ← lookAhead 0; skip_while fuel (fun ch => negb (ch =? EOS) && is_blank ch) ch.

Definition skipComments (fuel : nat) : prog unit :=
  ch ← lookAhead 0; skip_while fuel (fun ch => negb (ch =? 10) && negb (ch =? EOS)) ch.

Fixpoint nextChars (len : nat) : prog unit :=
  match len with O => mret tt | S len => _ ← nextChar; nextChars len end.

(** ** Strings *)

(** The first and the last character of the C string are dropped; of fewer than two
    characters a negative number is moved. *)
Definition trimquotes (s : bstr) : prog bstr :=
  let len := Z.of_nat (length (c_str s)) - 2 in
  if len <? 0 then Fail Eundef
  else mret (take (Z.to_nat len) (drop 1 s) ++ NUL :: drop (S (Z.to_nat len)) s).

(** Doubled delimiters in a row belong to the string, the last two excepted. *)
Fixpoint close_loop (fuel max_len : nat) (d0 d1 : Z) (value : nat) (s : bstr) : prog (option nat * bstr) :=
  c2 ← lookAhead 2;
  if c2 =? d1 then
    match fuel with
    | O => Fail Ediverge
    | S fuel =>
        s ← put s value (chr d0);
        if (max_len <=? S value)%nat then mret (None, s)
        else _ ← nextChar; close_loop fuel max_len d0 d1 (S value) s
    end
  else mret (Some value, s).

Fixpoint base2_loop (fuel max_len : nat) (d0 d1 : Z) (value : nat) (s : bstr) (ch : Z) : prog (Z * bstr) :=
  if ch =? EOS then mret (-1, s)
  else if (max_len <=? value)%nat then mret (-1, s)
  else
    match fuel with
    | O => Fail Ediverge
    | S fuel' =>
        closing ← (if d0 =? ch then c1 ← lookAhead 1; mret (d1 =? c1) else mret false);
        if closing : bool then
          '(v, s) ← (if d0 =? d1 then close_loop fuel max_len d0 d1 value s else mret (Some value, s));
          match v with
          | None => mret (-1, s)
          | Some v => s ← put s v NUL; _ ← nextChar; _ ← nextChar; mret (0, s)
          end
        else s ← put s value (chr ch); ch ← nextChar; base2_loop fuel' max_len d0 d1 (S value) s ch
    end.

Definition nextStringBase2 (fuel : nat) (value : bstr) (max_len : nat) (d0 d1 : Z) : prog (Z * bstr) :=
  _ ← nextChar; ch ← nextChar; base2_loop fuel max_len d0 d1 0 value ch.

(** The character that an escaped one stands for. *)
Definition unescape_char (ch : Z) : ascii :=
  if is_ch "n" ch then chr 10 else if is_ch "t" ch then chr 9 else if is_ch "r" ch then chr 13
  else if is_ch "0" ch then NUL else chr ch.

(** The place of a variable in the string is noted. *)
Definition note_var (ch : Z) (nov : nat) (vars : list Z) (x : Z) : prog (nat * list Z) :=
  if is_ch "*" ch || is_ch "$" ch then
    c1 ← lookAhead 1;
    if isalpha c1 then vars ← put vars nov x; mret (S nov, vars) else mret (nov, vars)
  else mret (nov, vars).

Fixpoint base_loop (fuel max_len : nat) (delim : bstr) (consumeDelim : bool) (escape : Z) (cntOffset : Z)
    (mode3 : bool) (value nov : nat) (s : bstr) (vars : list Z) (ch : Z) : prog (Z * bstr * list Z) :=
  if ch =? EOS then mret (-1, s, vars)
  else if (max_len <=? value)%nat then mret (-1, s, vars)
  else
    match fuel with
    | O => Fail Ediverge
    | S fuel =>
        s ← put s value (chr ch);
        if mode3 then
          s ← put s value (unescape_char ch);
          ch ← nextChar; base_loop fuel max_len delim consumeDelim escape cntOffset false (S value) nov s vars ch
        else if ch =? escape then
          ch ← nextChar; base_loop fuel max_len delim consumeDelim escape cntOffset true (S (value - 1)) nov s vars ch
        else if strchr delim ch then
          s ← (if consumeDelim then s ← put s (S value) NUL; s ← trimquotes s; _ ← nextChar; mret s
               else put s value NUL);
          vars ← put vars nov (-1);
          mret (Z.of_nat nov, s, vars)
        else
          '(nov, vars) ← note_var ch nov vars (Z.of_nat value - cntOffset);
          ch ← nextChar; base_loop fuel max_len delim consumeDelim escape cntOffset false (S value) nov s vars ch
    end.

Definition nextStringBase (fuel : nat) (value : bstr) (max_len : nat) (delim : bstr) (consumeDelim : bool) (escape : Z)
    (cntOffset : Z) (vars : list Z) : prog (Z * bstr * list Z) :=
  c0 ← lookAhead 0;
  s ← put value 0 (chr c0);
  ch ← nextChar;
  base_loop fuel max_len delim consumeDelim escape cntOffset false 1 0 s vars ch.

Definition dquote : ascii := ascii_of_nat 34.
Definition backslash : Z := 92.

Definition nextString (fuel : nat) (value : bstr) (vars : list Z) : prog (Z * bstr * list Z) :=
  nextStringBase fuel value MAX_TOKEN_TEXT_LEN [dquote] true backslash 1 vars.

Definition nextString2 (fuel : nat) (value : bstr) (vars : list Z) : prog (Z * bstr * list Z) :=
  nextStringBase fuel value MAX_TOKEN_TEXT_LEN (lit "'") true backslash 1 vars.

(** ** The lexer *)

(** What the cases on the first character come to: [break], [continue], or the code behind
    them, where the character may be another one. *)
Inductive flow : Type :=
| Break (tok : Token)
| Continue (tok : Token)
| Fall (ch : Z) (tok : Token).

Definition MISC : bstr := lit "{}[](),@;?".

(** The text from [start] to where the pointer is. *)
Definition take_text (start : nat) (tok : Token) : prog Token :=
  pos ← getPos; s ← dupString start (pos - start); store s tok.

(** A token made of the next [n] characters [s]. *)
Definition misc_op (s : bstr) (tok : Token) : prog flow :=
  tok ← store s tok; _ ← nextChars (length s); mret (Break (set_type TK_MISC_OP tok)).

(** A string was read: its outcome is [-1] if there is none. *)
Definition string_token (t : NodeType) (r : Z * bstr * list Z) (tok : Token) : Token :=
  let '(n, s, v) := r in set_type (if n =? -1 then N_ERROR else t) (set_vars v (set_text s tok)).

Definition path_delims : bstr := lit "),; " ++ [chr 9; chr 13; chr 10].

Definition lex_special (fuel : nat) (rulegen pathLiteral : bool) (start : nat) (ch : Z) (tok : Token) : prog flow :=
  bar ← (if is_ch "|" ch then if negb rulegen then mret true else c1 ← lookAhead 1; mret (negb (is_ch "|" c1))
         else mret false);
  if existsb (fun c => is_ch c ch) MISC || (bar : bool) then misc_op [chr ch] tok
  else if is_ch "#" ch then
    c1 ← lookAhead 1;
    if negb rulegen && is_ch "#" c1 then misc_op [chr ch; chr c1] tok
    else _ ← skipComments fuel; mret (Continue tok)
  else if is_ch "-" ch || is_ch "=" ch then
    c1 ← lookAhead 1;
    if is_ch ">" c1 then misc_op [chr ch; ">"%char] tok else mret (Fall ch tok)
  else if is_ch ":" ch then
    c1 ← lookAhead 1; c2 ← lookAhead 2;
    if rulegen && is_ch ":" c1 && is_ch ":" c2 then misc_op [chr ch; chr c1; chr c2] tok else misc_op [chr ch] tok
  else if is_ch "*" ch || is_ch "$" ch then
    let tok := set_type (if is_ch "*" ch then TK_LOCAL_VAR else TK_SESSION_VAR) tok in
    ch ← nextChar;
    if is_ch "_" ch || isalpha ch then
      ch ← nextChar; _ ← skip_while fuel word_char ch; tok ← take_text start tok; mret (Break tok)
    else _ ← seek start; mret (Fall ch tok)
  else if pathLiteral && is_ch "/" ch then
    r ← nextStringBase fuel (text tok) MAX_TOKEN_TEXT_LEN path_delims false backslash 0 (vars tok);
    mret (Break (string_token TK_PATH r tok))
  else mret (Fall ch tok).

(** The first operator that the next characters start with; the text is that of [op]. *)
Definition op_matches (op : bstr) (o : Op) : bool :=
  let len := length (op_string o) in
  bool_decide (take len op = op_string o) &&
  (negb (isalpha (char_at (op_string o) 0)) || negb (isalnum (char_at op len))).

Definition find_op (op : bstr) : option Op := List.find (op_matches op) new_ops.

Definition num_char (ch : Z) : bool := isdigit ch || is_ch "." ch.

Definition lex_operand (fuel start : nat) (ch : Z) (tok : Token) : prog Token :=
  if num_char ch then
    ch ← nextChar; _ ← skip_while fuel num_char ch; tok ← take_text start tok;
    mret (set_type (if existsb (Ascii.eqb ".") (c_str (text tok)) then TK_DOUBLE else TK_INT) tok)
  else if is_ch "_" ch || isalpha ch || is_ch "~" ch then
    ch ← nextChar; _ ← skip_while fuel word_char ch; tok ← take_text start tok; mret (set_type TK_TEXT tok)
  else if is_ch dquote ch then r ← nextString fuel (text tok) (vars tok); mret (string_token TK_STRING r tok)
  else if is_ch "'" ch then r ← nextString2 fuel (text tok) (vars tok); mret (string_token TK_STRING r tok)
  else if is_ch "`" ch then
    c1 ← lookAhead 1;
    if is_ch "`" c1 then
      '(n, s) ← nextStringBase2 fuel (text tok) MAX_TOKEN_TEXT_LEN 96 96;
      let tok := set_text s tok in
      if n =? -1 then mret (set_type N_ERROR tok)
      else v ← put (vars tok) 0 (-1); mret (set_vars v (set_type TK_STRING tok))
    else
      r ← nextStringBase fuel (text tok) MAX_TOKEN_TEXT_LEN (lit "`") true backslash 1 (vars tok);
      mret (string_token TK_BACKQUOTED r tok)
  else mret (set_type N_ERROR tok).

Definition lex_rest (fuel start : nat) (ch : Z) (tok : Token) : prog Token :=
  op ← dupString start 10;
  match find_op op with
  | Some o => tok ← store (op_string o) tok; _ ← nextChars (length (op_string o)); mret (set_type TK_OP tok)
  | None => lex_operand fuel start ch tok
  end.

Fixpoint lex_loop (fuel : nat) (rulegen pathLiteral : bool) (tok : Token) : prog Token :=
  match fuel with
  | O => Fail Ediverge
  | S fuel' =>
      _ ← skipWhitespace fuel;
      start ← getPos;
      let tok := set_exprloc start tok in
      ch ← lookAhead 0;
      if ch =? EOS then tok ← store (lit "EOS") tok; mret (set_type TK_EOS tok)
      else
        f ← lex_special fuel rulegen pathLiteral start ch tok;
        match f with
        | Break tok => mret tok
        | Continue tok => lex_loop fuel' rulegen pathLiteral tok
        | Fall ch tok => lex_rest fuel start ch tok
        end
  end.

(** ** The queue of tokens *)

Definition QUEUE : nat := 1024.

Record ParserContext : Type := mkContext { tokenQueue : list Token; tqp : nat; tqtop : nat; tqbot : nat }.

Definition INC_MOD (x m : nat) : nat := if (x =? m - 1)%nat then 0%nat else S x.
Definition DEC_MOD (x m : nat) : nat := if (x =? 0)%nat then (m - 1)%nat else (x - 1)%nat.

(** The slot of the token is returned. *)
Definition nextTokenRuleGen (fuel : nat) (rulegen pathLiteral : bool) (context : ParserContext) : prog (nat * ParserContext) :=
  let slot := tqp context in
  if negb (tqp context =? tqtop context)%nat then
    mret (slot, mkContext (tokenQueue context) (INC_MOD (tqp context) QUEUE) (tqtop context) (tqbot context))
  else
    let top := INC_MOD (tqtop context) QUEUE in
    let bot := if (tqbot context =? top)%nat then INC_MOD (tqbot context) QUEUE else tqbot context in
    match tokenQueue context !! slot with
    | None => Fail Eundef
    | Some tok =>
        tok ← lex_loop fuel rulegen pathLiteral tok;
        mret (slot, mkContext (<[slot:=tok]> (tokenQueue context)) top top bot)
    end.

Definition pushback (token : Token) (context : ParserContext) : ParserContext :=
  match type token with
  | TK_EOS => context
  | _ => mkContext (tokenQueue context) (DEC_MOD (tqp context) QUEUE) (tqtop context) (tqbot context)
  end.

Definition syncTokenQueue (context : ParserContext) : prog ParserContext :=
  if (tqp context =? tqtop context)%nat then mret context
  else
    match tokenQueue context !! tqp context with
    | None => Fail Eundef
    | Some nextToken =>
        _ ← seek (exprloc nextToken);
        mret (mkContext (tokenQueue context) (tqp context) (tqp context) (tqbot context))
    end.

(** The token of a given text, which is marked if it is another one. *)
Definition skip (fuel : nat) (txt : bstr) (context : ParserContext) (rulegen : bool) : prog (bool * nat * ParserContext) :=
  '(slot, context) ← nextTokenRuleGen fuel rulegen false context;
  match tokenQueue context !! slot with
  | None => Fail Eundef
  | Some token =>
      if negb (bool_decide (type token = TK_TEXT) || bool_decide (type token = TK_OP) || bool_decide (type token = TK_MISC_OP)) ||
         negb (bool_decide (c_str (text token) = txt)) then
        mret (false, slot, mkContext (<[slot:=set_type N_ERROR token]> (tokenQueue context)) (tqp context) (tqtop context) (tqbot context))
      else mret (true, slot, context)
  end.

(** ** Operators of tokens *)

Definition op_of (n : Z) (s : bstr) : option Op := List.find (fun o => (arity o =? n) && bool_decide (op_string o = s)) new_ops.

Definition getBinaryPrecedence (token : Token) : Z := match op_of 2 (c_str (text token)) with Some o => prec o | None => -1 end.
Definition getUnaryPrecedence (token : Token) : Z := match op_of 1 (c_str (text token)) with Some o => prec o | None => -1 end.
Definition isUnaryOp (token : Token) : bool :=
  existsb (fun o => bool_decide (op_string o = c_str (text token)) && (arity o =? 1)) new_ops.
Definition isBinaryOp (token : Token) : bool :=
  existsb (fun o => bool_decide (op_string o = c_str (text token)) && (arity o =? 2)) new_ops.
Definition isOp (token : bstr) : bool := existsb (fun o => bool_decide (op_string o = token)) new_ops.

(** ** Texts that the lexer's arrays hold *)

Definition token_char (ch : Z) : bool := word_char ch || num_char ch.

(** Behind every position there is an end of a word or number before the array is full. *)
Definition short_words (src : bstr) : bool :=
  forallb (fun start => existsb (fun i => negb (token_char (char_at src i))) (seq (S start) MAX_TOKEN_TEXT_LEN)) (seq 0 (length src)).

Definition var_at (src : bstr) (i : nat) : bool :=
  (is_ch "*" (char_at src i) || is_ch "$" (char_at src i)) && isalpha (char_at src (S i)).

Definition var_count (src : bstr) (n : nat) : nat := length (List.filter (var_at src) (seq 0 n)).

Definition no_null (src : bstr) : bool :=
  forallb (fun i => negb (char_at src i =? 0) && negb ((char_at src i =? backslash) && is_ch "0" (char_at src (S i)))) (seq 0 (length src)).

(** No word fills the text of a token, no string its variables, and no string has the
    character NUL in it. *)
Definition tame (src : bstr) : bool := short_words src && (var_count src (length src) <? NVARS)%nat && no_null src.

(** The arrays of a token. *)
Definition token_ok (tok : Token) : Prop := length (text tok) = S MAX_TOKEN_TEXT_LEN /\ length (vars tok) = NVARS.

(** ** The lexer returns *)

Section lexer.
Context (src : bstr).
Abbreviation ch_at := (char_at src).
Abbreviation len := (length src).

Lemma skip_while_wp p fuel : p EOS = false -> forall pos, (pos <= len)%nat -> (len - pos <= fuel)%nat ->
  wp src (skip_while fuel p (ch_at pos)) pos (fun _ pos' => (pos <= pos' <= len)%nat /\
    (forall i, (pos <= i < pos')%nat -> p (ch_at i) = true) /\ p (ch_at pos') = false).
Proof.
  intros Hp. induction fuel as [|fuel IH]; intros pos H1 H2; cbn [skip_while]; destruct (p (ch_at pos)) eqn:E.
  - assert (pos < len)%nat by (apply char_inside; congruence). lia.
  - apply wp_ret. split; [lia|]. split; [lia|done].
  - assert (pos < len)%nat by (apply char_inside; congruence). apply wp_next; [done|].
    eapply wp_mono; [|apply IH; lia]. intros _ pos' (H3 & H4 & H5). split; [lia|]. split; [|done].
    intros i Hi. destruct (decide (i = pos)) as [->|]; [done|]. apply H4. lia.
  - apply wp_ret. split; [lia|]. split; [lia|done].
Qed.

Lemma nextChars_wp n : forall pos, (pos + n <= len)%nat -> wp src (nextChars n) pos (fun _ p => p = (pos + n)%nat).
Proof.
  induction n as [|n IH]; intros pos H; cbn [nextChars].
  - apply wp_ret. lia.
  - apply wp_next; [lia|]. eapply wp_mono; [|apply IH; lia]. cbn. lia.
Qed.

Lemma put_wp {A} (a : list A) i x pos Q : (i < length a)%nat -> Q (<[i:=x]> a) pos -> wp src (put a i x) pos Q.
Proof. intros Hi HQ. unfold put. by rewrite (proj2 (Nat.ltb_lt _ _) Hi). Qed.

(** What [store] makes of a token. *)
Definition stored (s : bstr) (tok : Token) : Token := set_text (s ++ NUL :: drop (S (length s)) (text tok)) tok.

Lemma stored_ok s tok : token_ok tok -> (length s <= MAX_TOKEN_TEXT_LEN)%nat -> token_ok (stored s tok).
Proof. intros [H1 H2] Hs. split; [|done]. cbn. rewrite length_app. cbn. rewrite length_drop, H1. lia. Qed.

Lemma store_wp s tok pos Q : token_ok tok -> (length s <= MAX_TOKEN_TEXT_LEN)%nat -> Q (stored s tok) pos -> wp src (store s tok) pos Q.
Proof. intros [H1 H2] Hs HQ. unfold store. rewrite H1. by rewrite (proj2 (Nat.ltb_lt _ _)) by lia. Qed.

(** The text between two positions. *)
Definition slice (start pos : nat) : bstr := take (pos - start) (drop start src).

(** Blanks, and comments from # to the end of their line. *)
Inductive gap : nat -> nat -> Prop :=
| gap_nil p : gap p p
| gap_blank p q : is_blank (ch_at p) = true -> gap (S p) q -> gap p q
| gap_comment p e q : is_ch "#" (ch_at p) = true -> (p < e)%nat -> (forall i, (p < i < e)%nat -> ch_at i <> 10 /\ ch_at i <> EOS) ->
    ch_at e = 10 \/ ch_at e = EOS -> gap e q -> gap p q.

(** Tokens whose text is what stands in the source, and those between quotes. *)
Definition plain (t : NodeType) : bool :=
  match t with TK_MISC_OP | TK_OP | TK_LOCAL_VAR | TK_SESSION_VAR | TK_DOUBLE | TK_INT | TK_TEXT => true | _ => false end.
Definition in_quotes (t : NodeType) : bool := match t with TK_STRING | TK_BACKQUOTED => true | _ => false end.
Definition quote (ch : Z) : bool := existsb (fun c => is_ch c ch) [dquote; "'"%char; "`"%char].

(** What the stretch from [start] to [pos] has to do with its token. *)
Definition spelled (start : nat) (tok : Token) (pos : nat) : Prop :=
  (plain (type tok) = true -> c_str (text tok) = slice start pos) /\
  (in_quotes (type tok) = true -> (S start < pos)%nat /\ quote (ch_at (pos - 1)) = true).

Lemma gap_trans p q r : gap p q -> gap q r -> gap p r.
Proof.
  induction 1 as [|p q Hb _ IH|p e q Hc Hp Hi He _ IH]; intros Hr; [done|by apply gap_blank; [|apply IH]|].
  by apply (gap_comment p e); [| | | |apply IH].
Qed.

Lemma gap_blanks p q : (p <= q)%nat -> (forall i, (p <= i < q)%nat -> is_blank (ch_at i) = true) -> gap p q.
Proof.
  intros Hle. remember (q - p)%nat as n eqn:En. revert p Hle En. induction n as [|n IH]; intros p Hle En H.
  - replace q with p by lia. constructor.
  - apply gap_blank; [apply H; lia|]. apply IH; [lia|lia|]. intros i Hi. apply H. lia.
Qed.

Lemma slice_cons start pos : (start < len)%nat -> (start < pos)%nat -> slice start pos = chr (ch_at start) :: slice (S start) pos.
Proof.
  intros Hs Hp. unfold slice, char_at. destruct (lookup_lt_is_Some_2 src start Hs) as [c Hc]. rewrite Hc, chr_schar.
  rewrite (drop_S _ _ _ Hc). replace (pos - start)%nat with (S (pos - S start)) by lia. done.
Qed.

Lemma slice_empty p : slice p p = [].
Proof. unfold slice. by rewrite Nat.sub_diag. Qed.

Lemma length_slice start pos : (start <= pos <= len)%nat -> length (slice start pos) = (pos - start)%nat.
Proof. intros H. unfold slice. rewrite length_take, length_drop. lia. Qed.

Lemma take_text_wp start pos tok Q : token_ok tok -> (start <= pos <= len)%nat -> (pos - start <= MAX_TOKEN_TEXT_LEN)%nat ->
  Q (stored (slice start pos) tok) pos -> wp src (take_text start tok) pos Q.
Proof.
  intros Ht H1 H2 HQ. unfold take_text. apply wp_bind. cbn. split; [lia|].
  apply store_wp; [done| |done]. change (length (slice start pos) <= MAX_TOKEN_TEXT_LEN)%nat. by rewrite length_slice.
Qed.

(** *** Closing backquotes *)

Lemma close_loop_wp fuel : forall pos value s, (S pos < len)%nat -> ch_at (S pos) = 96 -> (len - pos <= fuel)%nat -> length s = S MAX_TOKEN_TEXT_LEN ->
  (value < MAX_TOKEN_TEXT_LEN)%nat ->
  wp src (close_loop fuel MAX_TOKEN_TEXT_LEN 96 96 value s) pos (fun r p =>
    (pos <= p /\ S p < len)%nat /\ ch_at (S p) = 96 /\ length r.2 = S MAX_TOKEN_TEXT_LEN /\ match r.1 with Some v => (v < MAX_TOKEN_TEXT_LEN)%nat | None => True end).
Proof.
  induction fuel as [|fuel IH]; intros pos value s H1 H96 H2 Hs Hv; [lia|]. cbn [close_loop]. apply wp_look; [lia|].
  destruct (Z.eqb_spec (ch_at (pos + 2)) 96) as [E|E].
  - assert (pos + 2 < len)%nat by (apply char_inside; by rewrite E). apply wp_bind, put_wp; [lia|].
    destruct (Nat.leb_spec MAX_TOKEN_TEXT_LEN (S value)).
    + apply wp_ret. cbn. rewrite length_insert. repeat split; try done; lia.
    + apply wp_next; [lia|]. eapply wp_mono; [|apply IH; try lia; [by rewrite <- E; f_equal; lia|by rewrite length_insert]]. cbn. intros [r t] p. cbn. intuition lia.
  - apply wp_ret. cbn. repeat split; try done; lia.
Qed.

Lemma base2_loop_wp fuel : forall pos value s, (pos <= len)%nat -> (len - pos <= fuel)%nat -> length s = S MAX_TOKEN_TEXT_LEN ->
  wp src (base2_loop fuel MAX_TOKEN_TEXT_LEN 96 96 value s (ch_at pos)) pos (fun r p => (pos <= p <= len)%nat /\ length r.2 = S MAX_TOKEN_TEXT_LEN /\
    (r.1 <> -1 -> (S pos < p)%nat /\ quote (ch_at (p - 1)) = true)).
Proof.
  induction fuel as [|fuel IH]; intros pos value s H1 H2 Hs; cbn [base2_loop]; destruct (Z.eqb_spec (ch_at pos) EOS) as [E|E];
    try (by apply wp_ret); try (apply char_inside in E; lia).
  apply char_inside in E as Hp. destruct (Nat.leb_spec MAX_TOKEN_TEXT_LEN value); [apply wp_ret; cbn; split; [lia|done]|].
  apply wp_bind. apply wp_mono with (Q := fun closing p => p = pos /\ (closing = true -> ch_at (S pos) = 96)).
  2:{ destruct (96 =? ch_at pos); [|by apply wp_ret]. apply wp_look; [lia|]. apply wp_ret. split; [done|]. rewrite Nat.add_1_r.
      intros E'. by apply Z.eqb_eq in E'. }
  intros [] p [-> Hc].
  - specialize (Hc eq_refl). assert (S pos < len)%nat by (apply char_inside; by rewrite Hc).
    apply wp_bind. eapply wp_mono; [|apply close_loop_wp; try lia; done]. cbn. intros [[v|] t] p; cbn.
    + intros ((H3 & H4) & H7 & H5 & H6). apply wp_bind, put_wp; [lia|]. apply wp_next; [lia|]. apply wp_next; [lia|]. apply wp_ret. cbn. rewrite length_insert.
      split; [lia|]. split; [done|]. intros _. split; [lia|]. replace (S (S p) - 1)%nat with (S p) by lia. by rewrite H7.
    + intros ((H3 & H4) & _ & H5 & H6). split; [lia|done].
  - apply wp_bind, put_wp; [lia|]. apply wp_next; [lia|]. eapply wp_mono; [|apply IH; try lia; by rewrite length_insert]. cbn. intros r p'. intuition lia.
Qed.

(** *** Quoted strings *)

Hypothesis src_tame : tame src = true.

Lemma var_count_S n : var_count src (S n) = (var_count src n + if var_at src n then 1 else 0)%nat.
Proof. unfold var_count. rewrite seq_S, List.filter_app, length_app. cbn. destruct (var_at src n); done. Qed.

Lemma var_count_mono n m : (n <= m)%nat -> (var_count src n <= var_count src m)%nat.
Proof. induction 1 as [|m _ IH]; [done|]. rewrite var_count_S. lia. Qed.

Lemma tame_vars n : (n <= len)%nat -> (var_count src n < NVARS)%nat.
Proof using src_tame.
  intros H. apply var_count_mono in H. unfold tame in src_tame. rewrite !andb_true_iff, Nat.ltb_lt in src_tame. lia.
Qed.

Lemma tame_char i : ch_at i <> EOS -> ch_at i <> 0 /\ (ch_at i = backslash -> is_ch "0" (ch_at (S i)) = false).
Proof using src_tame.
  intros Hi%char_inside. unfold tame in src_tame. rewrite !andb_true_iff in src_tame. destruct src_tame as [_ Hn].
  unfold no_null in Hn. rewrite forallb_forall in Hn. specialize (Hn i). rewrite in_seq, andb_true_iff in Hn.
  destruct Hn as [H1 H2]; [lia|]. rewrite negb_true_iff, Z.eqb_neq in H1. split; [done|]. intros E. rewrite E in H2. by destruct (is_ch _ _).
Qed.

Lemma chr_char i : ch_at i <> EOS -> chr (ch_at i) <> NUL.
Proof using src_tame.
  intros H. destruct (tame_char i H) as [H0 _]. revert H H0. unfold char_at. destruct (src !! i) as [c|]; [|done].
  rewrite chr_schar. intros _ H0 ->. by apply H0.
Qed.

(** The first two characters of a string, once they are written. *)
Definition head_ok (s : bstr) (value : nat) : Prop :=
  forall i, (i < 2)%nat -> (i < value)%nat -> exists c, s !! i = Some c /\ c <> NUL.

Lemma head_put s v c : (1 <= v)%nat -> (v < length s)%nat -> head_ok s v -> c <> NUL -> head_ok (<[v:=c]> s) (S v).
Proof.
  intros Hv Hl H Hc i Hi1 Hi2. destruct (decide (i = v)) as [->|].
  - exists c. by rewrite list_lookup_insert_eq.
  - rewrite list_lookup_insert_ne by done. apply H; lia.
Qed.

Lemma head_over s v c : head_ok s v -> head_ok (<[v:=c]> s) v.
Proof. intros H i Hi1 Hi2. rewrite list_lookup_insert_ne by lia. by apply H. Qed.

Lemma length_c_str s : (length (c_str s) <= length s)%nat.
Proof. induction s as [|c s IH]; cbn; [lia|]. destruct (Ascii.eqb c NUL); cbn; lia. Qed.

Lemma trimquotes_wp s v pos Q : (1 < v)%nat -> head_ok s v -> (forall t, length t = length s -> Q t pos) -> wp src (trimquotes s) pos Q.
Proof.
  intros Hv H HQ. unfold trimquotes. assert (2 <= length (c_str s))%nat.
  { destruct (H 0%nat) as (c & E1 & H1); [lia|lia|]. destruct (H 1%nat) as (d & E2 & H2); [lia|lia|]. destruct s as [|? [|? s]]; [done|done|].
    cbn in E1, E2. simplify_eq. cbn. rewrite !(proj2 (Ascii.eqb_neq _ NUL)) by done. cbn. lia. }
  destruct (Z.ltb_spec (Z.of_nat (length (c_str s)) - 2) 0); [lia|]. apply wp_ret, HQ. pose proof (length_c_str s).
  rewrite length_app, length_take, length_cons, !length_drop. lia.
Qed.

Lemma note_var_wp pos nov (v : list Z) x Q : (pos < len)%nat -> length v = NVARS -> (nov <= var_count src pos)%nat ->
  (forall nov' v', (nov' <= var_count src (S pos))%nat -> length v' = NVARS -> Q (nov', v') pos) -> wp src (note_var (ch_at pos) nov v x) pos Q.
Proof using src_tame.
  intros Hp Hv Hn HQ. pose proof (tame_vars pos ltac:(lia)). rewrite var_count_S in HQ. unfold var_at in HQ. unfold note_var.
  destruct (is_ch "*" (ch_at pos) || is_ch "$" (ch_at pos)); [|apply wp_ret, HQ; lia].
  apply wp_look; [lia|]. rewrite Nat.add_1_r. destruct (isalpha (ch_at (S pos))); cbn in HQ; [|apply wp_ret, HQ; lia].
  apply wp_bind, put_wp; [lia|]. apply wp_ret, HQ; [lia|by rewrite length_insert].
Qed.

(** What a loop over a string keeps. *)
Record in_string (mode3 : bool) (value nov : nat) (s : bstr) (v : list Z) (pos : nat) : Prop := In_string {
  is_pos : (1 <= pos <= len)%nat;
  is_s : length s = S MAX_TOKEN_TEXT_LEN;
  is_v : length v = NVARS;
  is_value : (1 <= value)%nat;
  is_nov : (nov <= var_count src pos)%nat;
  is_mode : mode3 = true -> ch_at (pos - 1) = backslash;
  is_head : head_ok s value
}.

Lemma unescape_not_nul pos : (1 <= pos)%nat -> ch_at (pos - 1) = backslash -> ch_at pos <> EOS -> unescape_char (ch_at pos) <> NUL.
Proof using src_tame.
  intros Hp Hb He. pose proof (chr_char pos He). unfold unescape_char. destruct (tame_char (pos - 1)) as [_ H0]; [by rewrite Hb|].
  replace (S (pos - 1)) with pos in H0 by lia. rewrite (H0 Hb). by repeat case_match.
Qed.

(** A string that is consumed ends behind one of its delimiters. *)
Definition closed (delim : bstr) (consume : bool) (pos : nat) (r : Z * bstr * list Z) (p : nat) : Prop :=
  consume = true -> r.1.1 <> -1 -> (pos < p)%nat /\ existsb (fun c => is_ch c (ch_at (p - 1))) delim = true.

Lemma not_closed delim consume pos (s : bstr) (v : list Z) : (pos <= len)%nat -> length s = S MAX_TOKEN_TEXT_LEN -> length v = NVARS ->
  (fun (r : Z * bstr * list Z) p => (pos <= p <= len)%nat /\ length r.1.2 = S MAX_TOKEN_TEXT_LEN /\ length r.2 = NVARS /\ closed delim consume pos r p) (-1, s, v) pos.
Proof. intros Hp Hs Hv. split_and!; done || lia. Qed.

Lemma closed_mono delim consume pos r p : closed delim consume (S pos) r p -> closed delim consume pos r p.
Proof. intros H H1 H2. destruct (H H1 H2). split; [lia|done]. Qed.

Lemma strchr_inside delim i : ch_at i <> EOS -> strchr delim (ch_at i) = existsb (fun c => is_ch c (ch_at i)) delim.
Proof using src_tame. intros H. unfold strchr. destruct (tame_char i H) as [H0 _]. by rewrite (proj2 (Z.eqb_neq _ _) H0). Qed.

Lemma base_loop_next delim consume pos (r : Z * bstr * list Z) p : (S pos <= p <= len)%nat /\ length r.1.2 = S MAX_TOKEN_TEXT_LEN /\ length r.2 = NVARS /\ closed delim consume (S pos) r p ->
  (pos <= p <= len)%nat /\ length r.1.2 = S MAX_TOKEN_TEXT_LEN /\ length r.2 = NVARS /\ closed delim consume pos r p.
Proof. intros (H1 & H2 & H3 & H4%closed_mono). split_and!; done || lia. Qed.

Lemma base_loop_wp fuel delim consume offset : forall mode3 pos value nov s v, in_string mode3 value nov s v pos -> (len - pos <= fuel)%nat ->
  wp src (base_loop fuel MAX_TOKEN_TEXT_LEN delim consume backslash offset mode3 value nov s v (ch_at pos)) pos
    (fun r p => (pos <= p <= len)%nat /\ length r.1.2 = S MAX_TOKEN_TEXT_LEN /\ length r.2 = NVARS /\ closed delim consume pos r p).
Proof using src_tame.
  induction fuel as [|fuel IH]; intros mode3 pos value nov s v [Hp Hs Hv H1 Hn Hm Hh] Hf; cbn [base_loop];
    destruct (Z.eqb_spec (ch_at pos) EOS) as [E|E]; try (apply wp_ret, not_closed; done || lia); pose proof (char_inside _ _ E); [lia|].
  pose proof (tame_vars pos ltac:(lia)). pose proof (chr_char pos E) as Hc. pose proof (var_count_mono pos (S pos) ltac:(lia)).
  destruct (Nat.leb_spec MAX_TOKEN_TEXT_LEN value); [apply wp_ret, not_closed; done || lia|].
  apply wp_bind, put_wp; [lia|].
  assert (forall m val n t w Q, in_string m val n t w (S pos) -> (forall r p, (S pos <= p <= len)%nat /\ length r.1.2 = S MAX_TOKEN_TEXT_LEN /\ length r.2 = NVARS /\ closed delim consume (S pos) r p -> Q r p) ->
    wp src (base_loop fuel MAX_TOKEN_TEXT_LEN delim consume backslash offset m val n t w (ch_at (S pos))) (S pos) Q) as Hloop.
  { intros m val n t w Q Hi HQ. eapply wp_mono; [|apply IH; [exact Hi|lia]]. exact HQ. }
  destruct mode3.
  - apply wp_bind, put_wp; [rewrite length_insert; lia|]. apply wp_next; [done|]. apply Hloop; [|intros r p; apply base_loop_next].
    rewrite list_insert_insert_eq. split; try done; rewrite ?length_insert; try lia. apply head_put; try done; [lia|].
    apply unescape_not_nul; [lia|by apply Hm|done].
  - destruct (Z.eqb_spec (ch_at pos) backslash) as [Eb|Eb].
    + apply wp_next; [done|]. apply Hloop; [|intros r p; apply base_loop_next].
      replace (S (value - 1)) with value by lia. split; try done; rewrite ?length_insert; try lia; [|by apply head_over].
      intros _. by replace (S pos - 1)%nat with pos by lia.
    + rewrite strchr_inside by done. destruct (existsb _ delim) eqn:Ed.
      * apply wp_bind. apply wp_mono with (Q := fun t p => (pos <= p <= len)%nat /\ length t = S MAX_TOKEN_TEXT_LEN /\ (consume = true -> p = S pos)).
        { intros t p (Hp' & Ht & Hcl). apply wp_bind, put_wp; [lia|]. apply wp_ret. cbn. rewrite length_insert. split_and!; try done; try lia.
          intros Hcs _. rewrite (Hcl Hcs). split; [lia|]. by replace (S pos - 1)%nat with pos by lia. }
        destruct consume; [|apply put_wp; [rewrite length_insert; lia|rewrite !length_insert; by split_and!; try lia]].
        apply wp_bind, put_wp; [rewrite length_insert; lia|]. apply wp_bind, (trimquotes_wp _ (S value)); [lia| |].
        { apply head_over. by apply head_put; [done|lia| |]. }
        intros t Ht. apply wp_next; [done|]. apply wp_ret. rewrite Ht, !length_insert. split_and!; done || lia.
      * apply wp_bind, note_var_wp; try done. intros nov' v' Hn' Hv'. apply wp_next; [done|].
        apply Hloop; [|intros r p; apply base_loop_next]. split; try done; rewrite ?length_insert; try lia. by apply head_put; [done|lia| |].
Qed.

Lemma nextStringBase_wp fuel delim consume offset pos s v : (pos < len)%nat -> (len - pos <= fuel)%nat -> ch_at pos <> EOS ->
  length s = S MAX_TOKEN_TEXT_LEN -> length v = NVARS ->
  wp src (nextStringBase fuel s MAX_TOKEN_TEXT_LEN delim consume backslash offset v) pos
    (fun r p => (pos < p <= len)%nat /\ length r.1.2 = S MAX_TOKEN_TEXT_LEN /\ length r.2 = NVARS /\ closed delim consume (S pos) r p).
Proof using src_tame.
  intros Hp Hf He Hs Hv. unfold nextStringBase. apply wp_look; [lia|]. rewrite Nat.add_0_r. apply wp_bind, put_wp; [lia|].
  apply wp_next; [done|]. eapply wp_mono; [|apply base_loop_wp; [|lia]].
  - intros r p. cbn. intuition lia.
  - split; try done; rewrite ?length_insert; try lia. intros i _ Hi. assert (i = 0)%nat as -> by lia.
    exists (chr (ch_at pos)). rewrite list_lookup_insert_eq by lia. split; [done|]. by apply chr_char.
Qed.

(** *** Words and operators *)

Lemma short_word start pos : (start < len)%nat -> (start < pos)%nat -> (forall i, (S start <= i < pos)%nat -> token_char (ch_at i) = true) ->
  (pos - start <= MAX_TOKEN_TEXT_LEN)%nat.
Proof using src_tame.
  intros Hs Hp H. unfold tame in src_tame. rewrite !andb_true_iff in src_tame. destruct src_tame as [[Hw _] _].
  unfold short_words in Hw. rewrite forallb_forall in Hw. specialize (Hw start). rewrite in_seq, existsb_exists in Hw.
  destruct Hw as (i & Hi & Hc); [lia|]. apply in_seq in Hi. destruct (decide (i < pos)%nat); [|lia].
  rewrite (H i) in Hc; [done|lia].
Qed.

Lemma misc_op_wp s pos tok Q : token_ok tok -> (length s <= 3)%nat -> (pos + length s <= len)%nat ->
  Q (Break (set_type TK_MISC_OP (stored s tok))) (pos + length s)%nat -> wp src (misc_op s tok) pos Q.
Proof.
  intros Ht Hs Hp HQ. unfold misc_op. apply wp_bind, store_wp; [done|unfold MAX_TOKEN_TEXT_LEN; lia|]. apply wp_bind.
  eapply wp_mono; [|by apply nextChars_wp]. by intros _ p ->.
Qed.

(** What a token comes to that starts at [start]. *)
Definition lexed (start : nat) (tok : Token) (pos : nat) : Prop :=
  token_ok tok /\ exprloc tok = start /\ (start <= pos <= len)%nat /\ (type tok <> N_ERROR -> start < pos)%nat /\ type tok <> TK_EOS /\
  spelled start tok pos.

Lemma slice_not_nul start pos : Forall (fun c => c <> NUL) (slice start pos).
Proof using src_tame.
  apply Forall_take, Forall_drop, Forall_lookup. intros i c Hc ->. destruct (tame_char i) as [H _]; unfold char_at in *; by rewrite Hc in *.
Qed.

Lemma stored_slice start pos tok : c_str (text (stored (slice start pos) tok)) = slice start pos.
Proof using src_tame. apply c_str_app, slice_not_nul. Qed.

Lemma lexed_stored start pos t tok : t <> TK_EOS -> in_quotes t = false -> token_ok tok -> exprloc tok = start -> (pos - start <= MAX_TOKEN_TEXT_LEN)%nat ->
  (start < pos <= len)%nat -> lexed start (set_type t (stored (slice start pos) tok)) pos.
Proof using src_tame.
  intros H1 Hq H2 H3 H4 H5. destruct (stored_ok (slice start pos) tok H2) as [T1 T2]; [rewrite length_slice; lia|].
  split; [done|]. split; [done|]. split; [lia|]. split; [lia|]. split; [done|]. split; cbn [type set_type]; [|by rewrite Hq].
  intros _. apply stored_slice.
Qed.

Lemma lexed_string start pos t r tok : t <> TK_EOS -> plain t = false -> exprloc tok = start -> (start < pos <= len)%nat ->
  length r.1.2 = S MAX_TOKEN_TEXT_LEN -> length r.2 = NVARS ->
  (in_quotes t = true -> r.1.1 <> -1 -> (S start < pos)%nat /\ quote (ch_at (pos - 1)) = true) -> lexed start (string_token t r tok) pos.
Proof.
  destruct r as [[n s] v]. cbn [fst snd]. intros H1 Hp H2 H3 H4 H5 Hq. split; [done|]. split; [done|]. split; [lia|]. split; [lia|].
  unfold spelled. cbn [string_token type set_type set_vars set_text]. destruct (Z.eqb_spec n (-1)) as [->|Hn]; [done|].
  split; [done|]. split; [by rewrite Hp|auto].
Qed.

(** What the cases on the first character come to. *)
Definition special_post (start : nat) (f : flow) (pos : nat) : Prop :=
  match f with
  | Break tok => lexed start tok pos
  | Continue tok => token_ok tok /\ (start < pos <= len)%nat /\ gap start pos
  | Fall ch tok => token_ok tok /\ exprloc tok = start /\ pos = start /\ (ch = ch_at start \/ ch = ch_at (S start))
  end.

Lemma is_ch_eos c i : is_ch c (ch_at i) = true -> schar c <> EOS -> (i < len)%nat.
Proof. unfold is_ch. rewrite Z.eqb_eq. intros E H. apply char_inside. by rewrite E. Qed.

Lemma is_ch_chr c ch : is_ch c ch = true -> chr ch = c.
Proof. intros ->%Z.eqb_eq. apply chr_schar. Qed.

Lemma slice_char start : (start < len)%nat -> slice start (start + 1) = [chr (ch_at start)].
Proof. intros H. by rewrite slice_cons, Nat.add_1_r, slice_empty by lia. Qed.

Lemma slice_chars start : (S start < len)%nat -> slice start (start + 2) = [chr (ch_at start); chr (ch_at (S start))].
Proof. intros H. rewrite slice_cons by lia. f_equal. rewrite <- slice_char by lia. f_equal. lia. Qed.

Lemma slice_chars3 start : (S (S start) < len)%nat -> slice start (start + 3) = [chr (ch_at start); chr (ch_at (S start)); chr (ch_at (S (S start)))].
Proof. intros H. rewrite slice_cons by lia. f_equal. rewrite <- slice_chars by lia. f_equal. lia. Qed.

Lemma misc_lexed start s tok : token_ok tok -> exprloc tok = start -> slice start (start + length s) = s -> (0 < length s <= 3)%nat ->
  (start + length s <= len)%nat -> wp src (misc_op s tok) start (special_post start).
Proof using src_tame.
  intros Ht He Es Hs Hp. apply misc_op_wp; try done; [lia|]. cbn [special_post].
  pose proof (lexed_stored start (start + length s) TK_MISC_OP tok) as H. rewrite Es in H. apply H; try done; unfold MAX_TOKEN_TEXT_LEN; lia.
Qed.

Lemma word_char_token ch : word_char ch = true -> token_char ch = true.
Proof. unfold token_char. by intros ->. Qed.

Lemma num_char_token ch : num_char ch = true -> token_char ch = true.
Proof. unfold token_char. intros ->. by rewrite orb_true_r. Qed.

Lemma var_wp fuel start tok : token_ok tok -> exprloc tok = start -> plain (type tok) = true -> (start < len)%nat -> (len - start <= fuel)%nat ->
  wp src (ch ← nextChar;
    if is_ch "_" ch || isalpha ch then ch ← nextChar; _ ← skip_while fuel word_char ch; tok ← take_text start tok; mret (Break tok)
    else _ ← seek start; mret (Fall ch tok)) start (special_post start).
Proof using src_tame.
  intros Ht He Hty Hs Hf. apply wp_next; [done|]. destruct (is_ch "_" (ch_at (S start)) || isalpha (ch_at (S start))) eqn:E.
  - assert (word_char (ch_at (S start)) = true) as Hw.
    { unfold word_char, isalnum. apply orb_true_iff in E as [->| ->]; [done|]. by rewrite orb_true_r. }
    assert (S start < len)%nat by (apply char_inside; intros E'; by rewrite E' in Hw).
    apply wp_next; [lia|]. apply wp_bind. eapply wp_mono; [|apply skip_while_wp; [done|lia|lia]]. intros _ pos (H1 & H2 & H3).
    assert (pos - start <= MAX_TOKEN_TEXT_LEN)%nat.
    { apply short_word; try lia. intros i Hi. apply word_char_token. destruct (decide (i = S start)) as [->|]; [done|]. apply H2. lia. }
    apply wp_bind, take_text_wp; try done; [lia|]. apply wp_ret.
    pose proof (lexed_stored start pos (type tok) tok) as Hl. destruct tok as [t x v e]. apply Hl; try done; try lia; by destruct t.
  - apply wp_bind. cbn. split; [lia|]. repeat split; try apply Ht; auto.
Qed.

Lemma lex_special_wp fuel rulegen pathLiteral start tok : token_ok tok -> exprloc tok = start -> ch_at start <> EOS -> (len - start <= fuel)%nat ->
  wp src (lex_special fuel rulegen pathLiteral start (ch_at start) tok) start (special_post start).
Proof using src_tame.
  intros Ht He Hc Hf. pose proof (char_inside _ _ Hc) as Hs. unfold lex_special. apply wp_bind.
  apply wp_mono with (Q := fun _ p => p = start).
  2:{ destruct (is_ch "|" (ch_at start)); [|by apply wp_ret]. destruct (negb rulegen); [by apply wp_ret|]. by apply wp_look; [lia|]. }
  intros bar p ->. destruct (_ || bar); [apply misc_lexed; try done; [by apply slice_char|cbn; lia..]|].
  destruct (is_ch "#" (ch_at start)) eqn:E1.
  { apply wp_look; [lia|]. rewrite Nat.add_1_r. destruct (negb rulegen && is_ch "#" (ch_at (S start))) eqn:E2.
    - apply andb_true_iff in E2 as [_ E2]. apply is_ch_eos in E2; [|done]. apply misc_lexed; try done; [by apply slice_chars|cbn; lia..].
    - apply wp_bind. unfold skipComments. apply wp_look; [lia|]. rewrite Nat.add_0_r.
      eapply wp_mono; [|apply skip_while_wp; [done|lia|lia]]. intros _ pos (H1 & H2 & H3). apply wp_ret.
      split; [done|]. assert (start < pos)%nat as Hp.
      { destruct (decide (pos = start)) as [->|]; [|lia]. apply Z.eqb_eq in E1. by rewrite E1 in H3. }
      split; [lia|]. apply (gap_comment start pos); [done|done| | |constructor].
      + intros i Hi. specialize (H2 i ltac:(lia)). rewrite andb_true_iff, !negb_true_iff, !Z.eqb_neq in H2. done.
      + rewrite andb_false_iff, !negb_false_iff, !Z.eqb_eq in H3. done. }
  destruct (is_ch "-" (ch_at start) || is_ch "=" (ch_at start)).
  { apply wp_look; [lia|]. rewrite Nat.add_1_r. destruct (is_ch ">" (ch_at (S start))) eqn:E2.
    - pose proof (is_ch_chr _ _ E2) as Eg. apply is_ch_eos in E2; [|done]. apply misc_lexed; try done; [by rewrite slice_chars, Eg by lia|cbn; lia..].
    - apply wp_ret. repeat split; try apply Ht; auto. }
  destruct (is_ch ":" (ch_at start)).
  { apply wp_look; [lia|]. apply wp_look; [lia|]. destruct (_ && _ && _) eqn:E2; [|apply misc_lexed; try done; [by apply slice_char|cbn; lia..]].
    rewrite !andb_true_iff in E2. destruct E2 as [_ E2]. apply is_ch_eos in E2; [|done].
    apply misc_lexed; try done; [|cbn; lia..]. cbn [length]. rewrite slice_chars3 by lia. by rewrite Nat.add_1_r, Nat.add_succ_r, Nat.add_1_r. }
  destruct (is_ch "*" (ch_at start) || is_ch "$" (ch_at start)).
  { apply var_wp; try done. by destruct (is_ch "*" (ch_at start)). }
  destruct (pathLiteral && is_ch "/" (ch_at start)).
  - destruct Ht as [H1 H2]. apply wp_bind. eapply wp_mono; [|by apply nextStringBase_wp]. intros r p (H3 & H4 & H5 & _). by apply lexed_string.
  - apply wp_ret. repeat split; try apply Ht; auto.
Qed.

Lemma find_op_spec op o : find_op op = Some o -> take (length (op_string o)) op = op_string o /\ (0 < length (op_string o) <= 14)%nat.
Proof.
  unfold find_op. intros [Hin Hm]%List.find_some. unfold op_matches in Hm. rewrite andb_true_iff, bool_decide_eq_true in Hm. split; [apply Hm|].
  assert (forallb (fun o => (0 <? length (op_string o))%nat && (length (op_string o) <=? 14)%nat) new_ops = true) as Hall by done.
  rewrite forallb_forall in Hall. specialize (Hall o Hin). rewrite andb_true_iff, Nat.ltb_lt, Nat.leb_le in Hall. lia.
Qed.

Lemma op_wp start o tok : token_ok tok -> exprloc tok = start -> (start < len)%nat -> find_op (take 10 (drop start src)) = Some o ->
  wp src (tok ← store (op_string o) tok; _ ← nextChars (length (op_string o)); mret (set_type TK_OP tok)) start (lexed start).
Proof using src_tame.
  intros Ht He Hs Hf. apply find_op_spec in Hf as [Hf Hl]. assert (start + length (op_string o) <= len)%nat.
  { rewrite take_take in Hf. apply (f_equal length) in Hf. rewrite length_take, length_drop in Hf. lia. }
  assert (slice start (start + length (op_string o)) = op_string o) as Es.
  { unfold slice. replace (start + length (op_string o) - start)%nat with (length (op_string o)) by lia.
    rewrite take_take in Hf. rewrite <- Hf at 2. f_equal. apply (f_equal length) in Hf. rewrite length_take in Hf. lia. }
  apply wp_bind, store_wp; [done|unfold MAX_TOKEN_TEXT_LEN; lia|]. apply wp_bind. eapply wp_mono; [|by apply nextChars_wp].
  intros _ p ->. apply wp_ret. pose proof (lexed_stored start (start + length (op_string o)) TK_OP tok) as Hx. rewrite Es in Hx.
  apply Hx; try done; unfold MAX_TOKEN_TEXT_LEN; lia.
Qed.

Lemma word_lexed p t fuel start tok : p EOS = false -> (forall ch, p ch = true -> token_char ch = true) -> (forall tok, t tok <> TK_EOS /\ in_quotes (t tok) = false) ->
  token_ok tok -> exprloc tok = start -> (start < len)%nat -> (len - start <= fuel)%nat ->
  wp src (ch ← nextChar; _ ← skip_while fuel p ch; tok ← take_text start tok; mret (set_type (t tok) tok)) start (lexed start).
Proof using src_tame.
  intros He Hp Hty Ht Hx Hs Hf. apply wp_next; [done|]. apply wp_bind. eapply wp_mono; [|apply skip_while_wp; [done|lia|lia]].
  intros _ pos (H1 & H2 & H3). assert (pos - start <= MAX_TOKEN_TEXT_LEN)%nat by (apply short_word; try lia; intros; by apply Hp, H2).
  apply wp_bind, take_text_wp; try done; [lia|]. apply wp_ret, lexed_stored; try done; try apply Hty; lia.
Qed.

Lemma lexed_error start tok : token_ok tok -> exprloc tok = start -> (start <= len)%nat -> lexed start (set_type N_ERROR tok) start.
Proof. intros [H1 H2] He Hs. repeat split; try done. Qed.

Lemma quoted_lexed fuel t delim start tok : in_quotes t = true -> (forall ch, existsb (fun c => is_ch c ch) delim = true -> quote ch = true) ->
  token_ok tok -> exprloc tok = start -> (start < len)%nat -> ch_at start <> EOS -> (len - start <= fuel)%nat ->
  wp src (r ← nextStringBase fuel (text tok) MAX_TOKEN_TEXT_LEN delim true backslash 1 (vars tok); mret (string_token t r tok)) start (lexed start).
Proof using src_tame.
  intros Hq Hd [Ht1 Ht2] He Hs Hc Hf. apply wp_bind. eapply wp_mono; [|by apply nextStringBase_wp]. intros r p (H3 & H4 & H5 & H6).
  apply wp_ret, lexed_string; try done; [by destruct t..|]. intros _ Hr. destruct (H6 eq_refl Hr) as [H7 H8]. split; [lia|by apply Hd].
Qed.

Lemma quote_delim c ch : quote (schar c) = true -> existsb (fun c => is_ch c ch) [c] = true -> quote ch = true.
Proof. cbn [existsb]. rewrite orb_false_r. by intros Hq ->%Z.eqb_eq. Qed.

Lemma lex_operand_wp fuel start ch tok : token_ok tok -> exprloc tok = start -> (start < len)%nat -> ch_at start <> EOS -> (len - start <= fuel)%nat ->
  (ch = ch_at start \/ ch = ch_at (S start)) -> wp src (lex_operand fuel start ch tok) start (lexed start).
Proof using src_tame.
  intros Ht He Hs Hc Hf Hch. pose proof Ht as [Ht1 Ht2]. unfold lex_operand.
  destruct (num_char ch).
  { apply word_lexed with (t := fun tok => if existsb (Ascii.eqb ".") (c_str (text tok)) then TK_DOUBLE else TK_INT); try done; [apply num_char_token|].
    intros t. by destruct (existsb _ _). }
  destruct (_ || _ || _); [apply word_lexed with (t := fun _ => TK_TEXT); try done; apply word_char_token|].
  destruct (is_ch dquote ch); [apply quoted_lexed; try done; intros x; by apply quote_delim|].
  destruct (is_ch "'" ch); [apply quoted_lexed; try done; intros x; by apply quote_delim|].
  destruct (is_ch "`" ch); [|apply wp_ret, lexed_error; try done; lia].
  apply wp_look; [lia|]. destruct (is_ch "`" (ch_at (start + 1))) eqn:E2; [|apply quoted_lexed; try done; intros x; by apply quote_delim].
  rewrite Nat.add_1_r in E2. apply is_ch_eos in E2; [|done]. apply wp_bind. unfold nextStringBase2. apply wp_next; [done|]. apply wp_next; [done|].
  eapply wp_mono; [|apply base2_loop_wp; [lia|lia|done]]. intros [n s] p (H3 & H4 & H5). cbn in H4, H5. destruct (Z.eqb_spec n (-1)) as [->|Hn].
  - apply wp_ret. repeat split; try done; cbn; lia.
  - destruct (H5 Hn) as [H6 H7]. apply wp_bind, put_wp; [cbn; rewrite Ht2; unfold NVARS; lia|]. apply wp_ret.
    split; [split; [done|cbn; by rewrite length_insert]|]. split; [done|]. split; [lia|]. split; [lia|]. split; [done|]. split; [done|]. split; [lia|done].
Qed.

(** What the lexer comes to from [pos]: a token of the text behind it, or its end. *)
Definition token_post (pos : nat) (tok : Token) (pos' : nat) : Prop :=
  token_ok tok /\ (pos <= exprloc tok <= pos' /\ pos' <= len)%nat /\ gap pos (exprloc tok) /\ spelled (exprloc tok) tok pos' /\
  match type tok with
  | TK_EOS => ch_at pos' = EOS /\ exprloc tok = pos' /\ c_str (text tok) = lit "EOS"
  | N_ERROR => True
  | _ => (exprloc tok < pos')%nat
  end.

Lemma lex_loop_wp fuel rulegen pathLiteral : forall pos tok, token_ok tok -> (pos <= len)%nat -> (len - pos < fuel)%nat ->
  wp src (lex_loop fuel rulegen pathLiteral tok) pos (token_post pos).
Proof using src_tame.
  induction fuel as [|fuel IH]; intros pos tok Ht Hp Hf; [lia|]. cbn [lex_loop]. apply wp_bind. unfold skipWhitespace.
  apply wp_look; [lia|]. rewrite Nat.add_0_r. eapply wp_mono; [|apply skip_while_wp; [done|done|lia]]. intros _ start ([H1 H2] & Hb & _).
  assert (gap pos start) as Hg.
  { apply gap_blanks; [done|]. intros i Hi. specialize (Hb i Hi). by apply andb_true_iff in Hb as [_ Hb]. }
  apply wp_bind. cbn [getPos wp]. apply wp_look; [lia|]. rewrite Nat.add_0_r. destruct (Z.eqb_spec (ch_at start) EOS) as [E|E].
  { apply wp_bind, store_wp; [done|unfold MAX_TOKEN_TEXT_LEN; cbn; lia|]. apply wp_ret. split; [apply (stored_ok (lit "EOS") tok); [done|unfold MAX_TOKEN_TEXT_LEN; cbn; lia]|].
    cbn. split; [lia|]. split; [done|]. repeat split; try done; lia. }
  pose proof (char_inside _ _ E). apply wp_bind. eapply wp_mono; [|apply lex_special_wp; try done; lia].
  assert (forall t p, lexed start t p -> token_post pos t p) as Hl.
  { intros t p (L1 & L2 & L3 & L4 & L5 & L6). split; [done|]. split; [lia|]. rewrite L2. split; [done|]. split; [done|].
    destruct (type t); try done; by apply L4. }
  intros [t|t|ch t] p; cbn [special_post].
  - intros Hx. apply wp_ret. by apply Hl.
  - intros (Hx & Hx2 & Hx3). eapply wp_mono; [|apply IH; [done|lia|lia]]. intros t' p' (L1 & L2 & L3 & L4). split; [done|]. split; [lia|].
    split; [|done]. by eapply gap_trans, gap_trans.
  - intros (Hx & He & -> & Hch). unfold lex_rest. apply wp_bind. cbn [dupString wp]. split; [lia|].
    destruct (find_op _) as [o|] eqn:Eo; (eapply wp_mono; [apply Hl|]); [by apply op_wp|]. apply lex_operand_wp; try done; lia.
Qed.

End lexer.

(** ** All tokens of a text *)

Definition context_ok (c : ParserContext) : Prop :=
  length (tokenQueue c) = QUEUE /\ Forall token_ok (tokenQueue c) /\ (tqp c < QUEUE)%nat /\ (tqtop c < QUEUE)%nat.

Lemma inc_mod x : (x < QUEUE)%nat -> (INC_MOD x QUEUE < QUEUE)%nat /\ DEC_MOD (INC_MOD x QUEUE) QUEUE = x /\ INC_MOD x QUEUE <> x.
Proof. unfold INC_MOD, DEC_MOD, QUEUE. intros H. destruct (Nat.eqb_spec x (1024 - 1)); cbn [Nat.eqb]; lia. Qed.

Definition is_last (tok : Token) : bool := bool_decide (type tok = TK_EOS) || bool_decide (type tok = N_ERROR).

(** The tokens up to the end of the text or to an error. The arguments of each call are the
    caller's. *)
Fixpoint all_tokens (n fuel : nat) (flags : nat -> bool * bool) (context : ParserContext) : prog (list Token) :=
  match n with
  | O => Fail Ediverge
  | S n =>
      '(slot, context) ← nextTokenRuleGen fuel (flags n).1 (flags n).2 context;
      match tokenQueue context !! slot with
      | None => Fail Eundef
      | Some tok => if is_last tok then mret [tok] else rest ← all_tokens n fuel flags context; mret (tok :: rest)
      end
  end.

(** A new token, whatever the lexer makes of the text. *)
Lemma next_wp src fuel rulegen pathLiteral c pos (P : Token -> nat -> Prop) : context_ok c -> tqp c = tqtop c ->
  (forall tok, token_ok tok -> wp src (lex_loop fuel rulegen pathLiteral tok) pos (fun t p => token_ok t /\ P t p)) ->
  wp src (nextTokenRuleGen fuel rulegen pathLiteral c) pos (fun x p => context_ok x.2 /\ tqp x.2 = tqtop x.2 /\
    exists tok, tokenQueue x.2 !! x.1 = Some tok /\ P tok p).
Proof.
  intros (H1 & H2 & H3 & H4) E HP. unfold nextTokenRuleGen. rewrite E, Nat.eqb_refl. cbn.
  destruct (lookup_lt_is_Some_2 (tokenQueue c) (tqtop c)) as [tok Et]; [lia|]. rewrite Et. apply wp_bind.
  eapply wp_mono; [|apply HP; eapply Forall_lookup_1; eassumption]. intros tok' p [Ht Hpost]. apply wp_ret. destruct (inc_mod (tqtop c) H4) as [Hi _].
  split; [|split; [done|]].
  - split; cbn; [by rewrite length_insert|]. split; [|done]. by apply Forall_insert.
  - exists tok'. split; [|done]. cbn. apply list_lookup_insert_eq. lia.
Qed.

Lemma next_new_wp src fuel rulegen pathLiteral c pos : tame src = true -> context_ok c -> tqp c = tqtop c -> (pos <= length src)%nat -> (length src - pos < fuel)%nat ->
  wp src (nextTokenRuleGen fuel rulegen pathLiteral c) pos (fun r p =>
    context_ok r.2 /\ tqp r.2 = tqtop r.2 /\ exists tok, tokenQueue r.2 !! r.1 = Some tok /\ token_post src pos tok p).
Proof.
  intros T Hc E Hp Hf. apply next_wp; [done|done|]. intros tok Ht.
  eapply wp_mono; [|by apply (lex_loop_wp src T)]. intros t p H. split; [apply H|done].
Qed.

(** The tokens of a text: each is what the lexer may make of the text from the end of the one
    before, and only the last of them is the end or an error. *)
Fixpoint in_order (src : bstr) (pos : nat) (toks : list Token) (pos' : nat) : Prop :=
  match toks with
  | [] => False
  | [tok] => is_last tok = true /\ token_post src pos tok pos'
  | tok :: toks => is_last tok = false /\ exists p, (exprloc tok < p)%nat /\ token_post src pos tok p /\ in_order src p toks pos'
  end.

Lemma tokens_wp src fuel flags : tame src = true -> forall n c pos, context_ok c -> tqp c = tqtop c -> (pos <= length src)%nat ->
  (length src - pos < fuel)%nat -> (length src - pos < n)%nat -> wp src (all_tokens n fuel flags c) pos (in_order src pos).
Proof.
  intros T. induction n as [|n IH]; intros c pos Hc E Hp Hf Hn; [lia|]. cbn [all_tokens]. apply wp_bind.
  eapply wp_mono; [|by apply next_new_wp]. intros [slot c'] p (Hc' & E' & tok & Et & Hpost). cbn in Hc', E', Et. rewrite Et.
  destruct (is_last tok) eqn:El; [by apply wp_ret|]. apply wp_bind.
  assert (pos <= exprloc tok < p /\ p <= length src)%nat as [Hx Hx'].
  { destruct Hpost as (_ & Hx & _ & _ & Hy). unfold is_last in El. destruct (type tok); try done; lia. }
  eapply wp_mono; [|apply IH; [done|done|lia|lia|lia]]. intros rest p' Hr. apply wp_ret. destruct rest as [|t rest]; [done|].
  split; [done|]. exists p. split; [lia|done].
Qed.

(** In a text without a byte 0xFF, the end is the end of the text. *)
Lemma in_order_end src pos toks pos' : is_text src = true -> in_order src pos toks pos' ->
  exists tok, last toks = Some tok /\ (type tok = N_ERROR \/ type tok = TK_EOS /\ pos' = length src).
Proof.
  intros X. revert pos. induction toks as [|tok toks IH]; intros pos; [done|]. destruct toks as [|t toks].
  - intros [Hl (_ & [Hp Hle] & _ & _ & He)]. exists tok. split; [done|]. unfold is_last in Hl.
    destruct (type tok); try done; [|by left]. right. split; [done|]. destruct He as (He & _ & _).
    destruct (decide (pos' < length src)%nat) as [Hlt|]; [|lia]. destruct (lookup_lt_is_Some_2 src pos' Hlt) as [c Hc].
    by destruct (text_char src pos' c X Hc).
  - intros (_ & p & _ & _ & H). by apply IH in H.
Qed.

(** C14: a text in which no run of word characters fills a token, with fewer than 100 variables,
    no NUL and no escape \0, is cut into tokens without a gap: with fuel for its length the
    lexer returns tokens of which only the last is the end or an error; before each of them,
    from the end of the one before, there are only blanks and comments; the text of a word,
    number, variable, operator or punctuation is just the stretch of the source that it takes,
    and a string ends behind a quote; and if the last token is the end and the text has no byte
    0xFF, which reads as the end, the whole text was read. *)
Theorem lexer_cuts_text (src : bstr) (fuel n : nat) (flags : nat -> bool * bool) (c : ParserContext) :
  tame src = true -> context_ok c -> tqp c = tqtop c -> (length src < fuel)%nat -> (length src < n)%nat ->
  exists toks pos, run_str src (all_tokens n fuel flags c) 0 = Ok (toks, pos) /\ in_order src 0 toks pos /\
    (is_text src = true -> exists tok, last toks = Some tok /\ (type tok = N_ERROR \/ type tok = TK_EOS /\ pos = length src)).
Proof.
  intros T Hc E Hf Hn. destruct (wp_run src (all_tokens n fuel flags c) 0 (in_order src 0)) as (toks & pos & E' & H).
  - apply tokens_wp; try done; lia.
  - exists toks, pos. split; [by apply within_str|]. split; [done|]. intros X. by eapply in_order_end.
Qed.

(** C17: the tokens of a file are those of the string of its contents: read through the
    buffer, the lexer returns the same tokens, with the same places. *)
Theorem file_tokens (src : bstr) (fuel n : nat) (flags : nat -> bool * bool) (c : ParserContext) :
  is_text src = true -> tame src = true -> context_ok c -> tqp c = tqtop c -> (length src < fuel)%nat -> (length src < n)%nat ->
  exists toks pos f, run_str src (all_tokens n fuel flags c) 0 = Ok (toks, pos) /\
    run_file (all_tokens n fuel flags c) (initPointer src) = Ok (toks, f) /\ getFPos_file f = pos.
Proof.
  intros X T Hc E Hf Hn. destruct (wp_run src (all_tokens n fuel flags c) 0 (in_order src 0)) as (toks & pos & E' & H).
  - apply tokens_wp; try done; lia.
  - destruct (file_simulates src _ X (initPointer src) 0 toks pos (reads_init src) ltac:(lia) E') as (f & Ef & R).
    exists toks, pos, f. split; [by apply within_str|]. split; [done|]. by destruct R.
Qed.

(** ** The ring of tokens keeps the last of them

    What the parser sees: the tokens so far and its place among them. [Next] is the call of
    the lexer that returns a token, [Back] the one that takes a token back. *)

Inductive event : Type :=
| Next (rulegen pathLiteral : bool) (tok : Token)
| Back (tok : Token).

Section ring.
Context (src : bstr) (fuel : nat).

(** The tokens so far, the place among them and the position in the text. *)
Inductive hstep : list Token * nat * nat -> event -> list Token * nat * nat -> Prop :=
| h_again h i p rulegen pathLiteral tok : h !! i = Some tok -> hstep (h, i, p) (Next rulegen pathLiteral tok) (h, S i, p)
| h_new h p rulegen pathLiteral old tok p' : run_str src (lex_loop fuel rulegen pathLiteral old) p = Ok (tok, p') ->
    hstep (h, length h, p) (Next rulegen pathLiteral tok) (h ++ [tok], S (length h), p')
| h_back h i p tok : type tok <> TK_EOS -> hstep (h, S i, p) (Back tok) (h, i, p)
| h_end h i p tok : type tok = TK_EOS -> hstep (h, i, p) (Back tok) (h, i, p).

(** The calls; a token is taken back only above the bottom of the ring. *)
Inductive cstep : ParserContext * nat -> event -> ParserContext * nat -> Prop :=
| c_next c p rulegen pathLiteral tok slot c' p' : run_str src (nextTokenRuleGen fuel rulegen pathLiteral c) p = Ok ((slot, c'), p') ->
    tokenQueue c' !! slot = Some tok -> cstep (c, p) (Next rulegen pathLiteral tok) (c', p')
| c_back c p tok : (type tok <> TK_EOS -> tqp c <> tqbot c) -> cstep (c, p) (Back tok) (pushback tok c, p).

Inductive csteps : ParserContext * nat -> list event -> ParserContext * nat -> Prop :=
| cs_nil s : csteps s [] s
| cs_cons s e s1 es s2 : cstep s e s1 -> csteps s1 es s2 -> csteps s (e :: es) s2.

Inductive hsteps : list Token * nat * nat -> list event -> list Token * nat * nat -> Prop :=
| hs_nil s : hsteps s [] s
| hs_cons s e s1 es s2 : hstep s e s1 -> hsteps s1 es s2 -> hsteps s (e :: es) s2.

(** The token with number [j] is in slot [j mod 1024], as long as it is among the last 1023. *)
Record holds (c : ParserContext) (h : list Token) (i : nat) : Prop := Holds {
  ho_len : length (tokenQueue c) = QUEUE;
  ho_top : tqtop c = (length h mod QUEUE)%nat;
  ho_p : tqp c = (i mod QUEUE)%nat;
  ho_bot : tqbot c = ((length h - (QUEUE - 1)) mod QUEUE)%nat;
  ho_i : (length h - (QUEUE - 1) <= i <= length h)%nat;
  ho_slot : forall j, (length h - (QUEUE - 1) <= j < length h)%nat -> tokenQueue c !! (j mod QUEUE)%nat = h !! j
}.

Lemma queue_pos : QUEUE <> 0%nat.
Proof. done. Qed.

Lemma inc_mod_S x : INC_MOD (x mod QUEUE) QUEUE = (S x mod QUEUE)%nat.
Proof.
  pose proof (Nat.mod_upper_bound x QUEUE queue_pos) as H. unfold INC_MOD. replace (S x) with (x + 1)%nat by lia.
  rewrite <- (Nat.Div0.add_mod_idemp_l x 1). destruct (Nat.eqb_spec (x mod QUEUE) (QUEUE - 1)) as [->|Hn]; [done|].
  rewrite (Nat.mod_small (x mod QUEUE + 1)); [by rewrite Nat.add_1_r|]. unfold QUEUE in *. lia.
Qed.

Lemma dec_mod_S x : DEC_MOD (S x mod QUEUE) QUEUE = (x mod QUEUE)%nat.
Proof. rewrite <- inc_mod_S. apply inc_mod, Nat.mod_upper_bound, queue_pos. Qed.

(** Numbers less than the size of the ring apart have different slots. *)
Lemma mod_apart i j : (i <= j < i + QUEUE)%nat -> (i mod QUEUE = j mod QUEUE)%nat -> i = j.
Proof.
  intros H E. pose proof (Nat.div_mod_eq i QUEUE) as Hi. pose proof (Nat.div_mod_eq j QUEUE) as Hj. rewrite E in Hi.
  assert (QUEUE * (j / QUEUE) = QUEUE * (i / QUEUE))%nat; [|lia].
  assert (j / QUEUE = i / QUEUE \/ j / QUEUE >= S (i / QUEUE) \/ S (j / QUEUE) <= i / QUEUE)%nat as [->|[Hd|Hd]] by lia; [done| |];
    apply (Nat.mul_le_mono_l _ _ QUEUE) in Hd; lia.
Qed.

Lemma bot_step n (bot := ((n - (QUEUE - 1)) mod QUEUE)%nat) :
  (if (bot =? S n mod QUEUE)%nat then INC_MOD bot QUEUE else bot) = ((S n - (QUEUE - 1)) mod QUEUE)%nat.
Proof.
  unfold bot. rewrite inc_mod_S. destruct (decide (n < QUEUE - 1)%nat) as [H|H].
  - replace (n - (QUEUE - 1))%nat with 0%nat by lia. replace (S n - (QUEUE - 1))%nat with 0%nat by lia.
    rewrite (Nat.mod_small (S n)) by lia. done.
  - assert (S n mod QUEUE = (n - (QUEUE - 1)) mod QUEUE)%nat as ->.
    { replace (S n) with (n - (QUEUE - 1) + 1 * QUEUE)%nat by (unfold QUEUE in *; lia). by apply Nat.Div0.mod_add. }
    rewrite Nat.eqb_refl. f_equal. lia.
Qed.

Lemma holds_new : forall q, length q = QUEUE -> holds (mkContext q 0 0 0) [] 0.
Proof. intros q Hq. split; cbn; try done; lia. Qed.

Lemma next_sim c h i p rulegen pathLiteral slot c' p' tok : holds c h i ->
  run_str src (nextTokenRuleGen fuel rulegen pathLiteral c) p = Ok ((slot, c'), p') -> tokenQueue c' !! slot = Some tok ->
  exists h' i', hstep (h, i, p) (Next rulegen pathLiteral tok) (h', i', p') /\ holds c' h' i'.
Proof.
  intros [H1 H2 H3 H4 H5 H6]. pose proof queue_pos as Hq. unfold nextTokenRuleGen. destruct (Nat.eqb_spec (tqp c) (tqtop c)) as [E|E]; cbn [negb].
  - assert (i = length h) as -> by (apply mod_apart; [lia|congruence]). destruct (tokenQueue c !! tqp c) as [old|] eqn:Eo; [|done].
    intros Er Es. apply run_bind_inv in Er as (new & p1 & Er & Ek). cbn in Ek. simplify_eq. cbn in Es.
    rewrite list_lookup_insert_eq in Es by (by apply lookup_lt_Some in Eo). simplify_eq.
    exists (h ++ [tok]), (S (length h)). split; [by econstructor|]. split; cbn [tokenQueue tqp tqtop tqbot]; rewrite ?length_app; cbn [length].
    + by rewrite length_insert.
    + rewrite H2, inc_mod_S. f_equal. lia.
    + by rewrite H2, inc_mod_S.
    + rewrite H4, H2, inc_mod_S, Nat.add_1_r. apply bot_step.
    + lia.
    + intros j Hj. destruct (decide (j = length h)) as [->|].
      * rewrite H3, list_lookup_insert_eq by (rewrite H1; apply Nat.mod_upper_bound, queue_pos). by rewrite list_lookup_middle.
      * rewrite list_lookup_insert_ne, lookup_app_l by (try lia; rewrite H3; intros E'; symmetry in E'; apply mod_apart in E'; lia). apply H6. lia.
  - cbn. intros [= <- <- <-]. cbn. intros Es. assert (i < length h)%nat by (destruct (decide (i = length h)) as [->|]; [congruence|lia]).
    exists h, (S i). rewrite H3, H6 in Es by lia. split; [by constructor|]. split; cbn [tokenQueue tqp tqtop tqbot]; try done; [by rewrite H3, inc_mod_S|lia].
Qed.

Lemma back_sim c h i p tok : holds c h i -> (type tok <> TK_EOS -> tqp c <> tqbot c) ->
  exists i', hstep (h, i, p) (Back tok) (h, i', p) /\ holds (pushback tok c) h i'.
Proof.
  intros H Hb. destruct (decide (type tok = TK_EOS)) as [E|E].
  { exists i. split; [by constructor|]. unfold pushback. by rewrite E. }
  specialize (Hb E). destruct H as [H1 H2 H3 H4 H5 H6]. rewrite H3, H4 in Hb.
  destruct i as [|i]; [destruct Hb; f_equal; lia|]. assert (S i <> length h - (QUEUE - 1))%nat by congruence.
  exists i. split; [by constructor|]. assert (pushback tok c = mkContext (tokenQueue c) (DEC_MOD (tqp c) QUEUE) (tqtop c) (tqbot c)) as ->.
  { unfold pushback. by destruct (type tok). }
  split; cbn [tokenQueue tqp tqtop tqbot]; try done; [by rewrite H3, dec_mod_S|lia].
Qed.

(** C16: the ring of 1024 slots with its three marks, which [nextTokenRuleGen] and
    [pushback] move, gives the parser the tokens of the text as a list without a limit: as
    long as nothing is taken back at the bottom of the ring, every sequence of calls returns
    the tokens that were read in their order, again after they were taken back, and reads
    a new one from the text only at the end of them. *)
Theorem ring_refines_history (c : ParserContext) (h : list Token) (i p : nat) (es : list event) (c' : ParserContext) (p' : nat) :
  holds c h i -> csteps (c, p) es (c', p') -> exists h' i', hsteps (h, i, p) es (h', i', p') /\ holds c' h' i'.
Proof.
  intros H Hs. remember (c, p) as s eqn:Es. remember (c', p') as s' eqn:Es'. revert c h i p Es H.
  induction Hs as [s|s e s1 es s2 Hstep Hs IH]; intros c h i p Es H.
  { simplify_eq. exists h, i. by split; [constructor|]. }
  subst s. specialize (IH Es'). destruct s1 as [c1 p1].
  assert (exists h1 i1, hstep (h, i, p) e (h1, i1, p1) /\ holds c1 h1 i1) as (h1 & i1 & H1 & H2).
  { inversion Hstep; simplify_eq; [by eapply next_sim|]. destruct (back_sim c h i p1 tok) as (i' & ? & ?); eauto. }
  destruct (IH c1 h1 i1 p1 eq_refl H2) as (h' & i' & H3 & H4). exists h', i'. split; [by econstructor|done].
Qed.

End ring.

(** ** Witnesses *)

Definition blank_token : Token := mkToken N_ERROR (replicate 1024 NUL) (replicate 100 0) 0.
Definition new_context : ParserContext := mkContext (replicate 1024 blank_token) 0 0 0.

Lemma new_context_ok : context_ok new_context.
Proof.
  split; [apply length_replicate|]. split; [|unfold QUEUE; cbn; lia].
  apply Forall_replicate. split; apply length_replicate.
Defined.

Definition rule_text : bstr := lit "acRule(*x) { if (*x ++ 'a$b' == ``c`d``) then $y = 12.5; # end" ++ [newline] ++ lit "}".
Lemma lexer_cuts_text_witness : exists toks, run_str rule_text (all_tokens 100 100 (fun _ => (true, true)) new_context) 0 = Ok (toks, length rule_text) /\
  in_order rule_text 0 toks (length rule_text) /\ type <$> last toks = Some TK_EOS.
Proof.
  destruct (lexer_cuts_text rule_text 100 100 (fun _ => (true, true)) new_context) as (toks & pos & E & H & Hend);
    [by vm_compute|apply new_context_ok|done|by_evaluation|by_evaluation|].
  assert (match run_str rule_text (all_tokens 100 100 (fun _ => (true, true)) new_context) 0 with Ok (toks, _) => type <$> last toks | _ => None end = Some TK_EOS) as Ht
    by (vm_compute; reflexivity).
  rewrite E in Ht. cbn in Ht. destruct Hend as (tok & Hl & Hend); [by vm_compute|]. rewrite Hl in Ht. injection Ht as Ht.
  destruct Hend as [Hn|[_ ->]]; [congruence|]. exists toks. split; [done|]. split; [done|]. by rewrite Hl, <- Ht.
Defined.

Lemma file_tokens_witness : exists toks pos f, run_str rule_text (all_tokens 100 100 (fun _ => (true, true)) new_context) 0 = Ok (toks, pos) /\
  run_file (all_tokens 100 100 (fun _ => (true, true)) new_context) (initPointer rule_text) = Ok (toks, f) /\ getFPos_file f = pos.
Proof.
  apply (file_tokens rule_text 100 100 (fun _ => (true, true)) new_context); [by vm_compute|by vm_compute|apply new_context_ok|done|by_evaluation|by_evaluation].
Defined.

(** A word is read, taken back and read again. *)
Definition word_a : Token := mkToken TK_TEXT ("a"%char :: replicate 1023 NUL) (replicate 100 0) 0.
Definition context_a : ParserContext := mkContext (word_a :: replicate 1023 blank_token) 1 1 0.

Lemma read_a : run_str (lit "a b") (nextTokenRuleGen 100 true false new_context) 0 = Ok ((0%nat, context_a), 1%nat).
Proof. vm_cast_no_check (eq_refl (Ok ((0%nat, context_a), 1%nat))). Qed.

Lemma read_a_again : run_str (lit "a b") (nextTokenRuleGen 100 true false (pushback word_a context_a)) 1 = Ok ((0%nat, context_a), 1%nat).
Proof. vm_cast_no_check (eq_refl (Ok ((0%nat, context_a), 1%nat))). Qed.

Lemma ring_refines_history_witness : exists h' i',
  hsteps (lit "a b") 100 ([], 0%nat, 0%nat) [Next true false word_a; Back word_a; Next true false word_a] (h', i', 1%nat) /\ holds context_a h' i'.
Proof.
  apply (ring_refines_history (lit "a b") 100 new_context [] 0 0); [apply holds_new, length_replicate|].
  apply (cs_cons _ _ _ _ (context_a, 1%nat)); [exact (c_next _ _ _ _ _ _ _ _ _ _ read_a eq_refl)|].
  apply (cs_cons _ _ _ _ (pushback word_a context_a, 1%nat)); [by apply c_back|].
  apply (cs_cons _ _ _ _ (context_a, 1%nat)); [exact (c_next _ _ _ _ _ _ _ _ _ _ read_a_again eq_refl)|apply cs_nil].
Defined.
