(* ===== verification/RulePrint.v ===== *)
(** * Rules that are written and read

    What a writer of rules prints as words, numbers, variables, quoted texts, punctuation and
    operators, the lexer of [RuleLexer.v] reads back. *)

From stdpp Require Import base list strings.
From Stdlib Require Import ZArith Lia Ascii.
From S2P Require Import Prelude Obf RuleReader RuleLexer.
Local Open Scope Z_scope.

(** ** Printed tokens are read back

    [lexemes] are what a writer of rules wants to say; each is printed behind a blank. *)

Inductive lexeme : Type :=
| Word (w : bstr)
| Number (ds : bstr)
| LocalVar (w : bstr)
| SessionVar (w : bstr)
| Quoted (s : bstr)
| Punct (c : ascii)
| Oper (o : bstr).

Definition needs_escape (c : ascii) : bool := existsb (Ascii.eqb c) (dquote :: lit "\*$").
Definition escape_char (c : ascii) : bstr := if needs_escape c then ["\"%char; c] else [c].
Definition escape_text (s : bstr) : bstr := concat (map escape_char s).

Definition print_lexeme (l : lexeme) : bstr :=
  match l with
  | Word w | Number w | Oper w => w
  | LocalVar w => "*"%char :: w
  | SessionVar w => "$"%char :: w
  | Quoted s => dquote :: escape_text s ++ [dquote]
  | Punct c => [c]
  end.

Definition print_lexemes (ls : list lexeme) : bstr := concat (map (fun l => " "%char :: print_lexeme l) ls).

(** The type and the text of the token. *)
Definition lexeme_token (l : lexeme) : NodeType * bstr :=
  match l with
  | Word w => (TK_TEXT, w)
  | Number ds => (if existsb (Ascii.eqb ".") ds then TK_DOUBLE else TK_INT, ds)
  | LocalVar w => (TK_LOCAL_VAR, "*"%char :: w)
  | SessionVar w => (TK_SESSION_VAR, "$"%char :: w)
  | Quoted s => (TK_STRING, s)
  | Punct c => (TK_MISC_OP, [c])
  | Oper o => (TK_OP, o)
  end.

(** A character of a string. *)
Definition text_ok (c : ascii) : bool := negb (schar c =? EOS) && negb (schar c =? 0).

Definition all_chars (p : Z -> bool) (s : bstr) : bool := forallb (fun c => p (schar c)) s.
Definition starts (p : Z -> bool) (s : bstr) : bool := match s with [] => false | c :: _ => p (schar c) end.
Definition word_start (ch : Z) : bool := is_ch "_" ch || isalpha ch.
Definition is_name (w : bstr) : bool := starts word_start w && all_chars word_char w && (length w <? MAX_TOKEN_TEXT_LEN)%nat.

(** The operators for which it does not matter what follows, if rules are read: not [like] and
    [not like], which [regex] may follow. *)
Definition readable_ops : list bstr :=
  map lit ["-"; "++"; "+"; "*"; "/"; "&&"; "%%"; "||"; "%"; "<="; ">="; "<"; ">"; "=="; "!="; "!"; "like regex";
           "^^"; "^"; "."; "floor"; "ceiling"; "log"; "exp"; "abs"; "="]%string.

(** Words that are not taken for an operator. *)
Definition free_word (w : bstr) : bool :=
  bool_decide (find_op (take 10 w) = None) && negb (bool_decide (w = lit "not")).

Definition lexeme_ok (l : lexeme) : bool :=
  match l with
  | Word w => is_name w && free_word w
  | Number ds => starts isdigit ds && all_chars num_char ds && (length ds <? MAX_TOKEN_TEXT_LEN)%nat
  | LocalVar w | SessionVar w => is_name w
  | Quoted s => forallb text_ok s && (length s <? 1021)%nat
  | Punct c => existsb (Ascii.eqb c) MISC
  | Oper o => existsb (fun s => bool_decide (s = o)) readable_ops
  end.

(** Behind a lexeme there is a blank or the end. *)
Definition rest_ok (r : bstr) : Prop := r = [] \/ exists r', r = " "%char :: r'.

Section print.
Context (src : bstr) (fuel : nat).
Abbreviation ch_at := (char_at src).

Lemma char_drop start s i : drop start src = s -> ch_at (start + i) = char_at s i.
Proof. intros <-. unfold char_at. by rewrite lookup_drop. Qed.

Lemma char_mid start s r i c : drop start src = s ++ r -> s !! i = Some c -> ch_at (start + i) = schar c.
Proof. intros H Hs. rewrite (char_drop _ _ _ H). unfold char_at. by rewrite (lookup_app_l_Some _ _ _ _ Hs). Qed.

Lemma char_rest start s r : drop start src = s ++ r -> rest_ok r -> ch_at (start + length s) = EOS \/ ch_at (start + length s) = 32.
Proof.
  intros H Hr. rewrite (char_drop _ _ _ H). unfold char_at. rewrite lookup_app_r, Nat.sub_diag by done.
  destruct Hr as [->|[r' ->]]; [by left|by right].
Qed.

Lemma drop_len start s r : drop start src = s ++ r -> (start <= length src)%nat -> (start + length s + length r = length src)%nat.
Proof. intros H Hs. apply (f_equal length) in H. rewrite length_drop, length_app in H. lia. Qed.

Lemma slice_drop start s r : drop start src = s ++ r -> slice src start (start + length s) = s.
Proof. intros H. unfold slice. rewrite H. replace (start + length s - start)%nat with (length s) by lia. by rewrite take_app_length. Qed.

(** The end of a run of characters. *)
Lemma run_end p start s r : drop start src = s ++ r -> rest_ok r -> p EOS = false -> p 32 = false ->
  all_chars p (drop 1 s) = true -> forall from pos, (S start <= from <= start + length s)%nat -> (from <= pos)%nat ->
  (forall i, (from <= i < pos)%nat -> p (ch_at i) = true) -> p (ch_at pos) = false -> pos = (start + length s)%nat.
Proof.
  intros H Hr He Hb Hall from pos Hf Hp Hin Hout. pose proof (char_rest _ _ _ H Hr) as Hx.
  destruct (Nat.lt_trichotomy pos (start + length s)) as [Hlt|[?|Hgt]]; [|done|].
  - destruct (lookup_lt_is_Some_2 s (pos - start)) as [c Ec]; [lia|]. pose proof (char_mid _ _ _ _ _ H Ec) as E.
    replace (start + (pos - start))%nat with pos in E by lia. unfold all_chars in Hall. rewrite forallb_forall in Hall.
    rewrite E, Hall in Hout; [done|]. apply list_elem_of_In, (list_elem_of_lookup_2 _ (pos - start - 1)). rewrite lookup_drop.
    rewrite <- Ec. f_equal. lia.
  - specialize (Hin (start + length s)%nat ltac:(lia)). destruct Hx as [E|E]; rewrite E in Hin; congruence.
Qed.

(** The rest of a run is taken as a text. *)
Lemma run_wp {A} p start s r from tok (f : Token -> prog A) Q : drop start src = s ++ r -> rest_ok r -> p EOS = false -> p 32 = false ->
  all_chars p (drop 1 s) = true -> (S start <= from <= start + length s)%nat -> (start <= length src)%nat -> (length src - from <= fuel)%nat ->
  token_ok tok -> (length s <= MAX_TOKEN_TEXT_LEN)%nat -> wp src (f (stored s tok)) (start + length s) Q ->
  wp src (_ ← skip_while fuel p (ch_at from); tok ← take_text start tok; f tok) from Q.
Proof.
  intros H Hr He Hb Hall Hf Hs Hfuel Ht Hlen HQ. pose proof (drop_len _ _ _ H Hs). apply wp_bind.
  eapply wp_mono; [|apply skip_while_wp; [done|lia|lia]]. intros _ pos (H1 & H2 & H3).
  assert (pos = start + length s)%nat as -> by (eapply run_end; try done; lia).
  apply wp_bind, take_text_wp; try done; [lia|lia|]. by rewrite (slice_drop _ _ _ H).
Qed.

(** The token that is wanted. *)
Definition reads_as (l : lexeme) (start : nat) (tok : Token) (pos : nat) : Prop :=
  token_ok tok /\ (type tok, c_str (text tok)) = lexeme_token l /\ pos = (start + length (print_lexeme l))%nat.

Lemma c_str_stored s tok : all_chars (fun ch => negb (ch =? 0)) s = true -> c_str (text (stored s tok)) = s.
Proof.
  intros H. apply c_str_app. rewrite List.Forall_forall. intros c Hc ->. unfold all_chars in H. rewrite forallb_forall in H. by specialize (H _ Hc).
Qed.

Lemma all_chars_mono (p q : Z -> bool) s : (forall ch, p ch = true -> q ch = true) -> all_chars p s = true -> all_chars q s = true.
Proof. unfold all_chars. rewrite !forallb_forall. auto. Qed.

(** A statement about every character. *)
Lemma every_char (p : ascii -> bool) : forallb (fun n => p (ascii_of_nat n)) (seq 0 256) = true -> forall c, p c = true.
Proof.
  rewrite forallb_forall. intros H c. rewrite <- (ascii_nat_embedding c). apply H, in_seq. pose proof (nat_ascii_bounded c). lia.
Qed.

Lemma every_impl (p q : ascii -> bool) : forallb (fun n => implb (p (ascii_of_nat n)) (q (ascii_of_nat n))) (seq 0 256) = true ->
  forall c, p c = true -> q c = true.
Proof. intros H c Hp. pose proof (every_char (fun c => implb (p c) (q c)) H c) as E. cbn in E. by rewrite Hp in E. Qed.

(** *** The cases on the first character *)

Definition fall_char (ch : Z) : bool := negb (existsb (fun c => is_ch c ch) (MISC ++ lit "|#-=:*$/")).

Lemma fall_wp rulegen pathLiteral start ch tok Q : fall_char ch = true -> Q (Fall ch tok) start ->
  wp src (lex_special fuel rulegen pathLiteral start ch tok) start Q.
Proof.
  unfold fall_char. rewrite negb_true_iff, existsb_app. cbn [existsb lit String.list_ascii_of_string]. rewrite !orb_false_iff.
  intros (Hm & H1 & H2 & H3 & H4 & H5 & H6 & H7 & H8 & _) HQ. unfold lex_special. rewrite H1, Hm, H2, H3, H4, H5, H6, H7, H8, andb_false_r. done.
Qed.

(** No operator starts with the character. *)
Definition op_head (c : ascii) : bool := existsb (fun o => bool_decide (head (op_string o) = Some c)) new_ops.

Lemma find_op_head c s n : op_head c = false -> find_op (take n (c :: s)) = None.
Proof.
  intros H. destruct (find_op (take n (c :: s))) as [o|] eqn:E; [|done]. pose proof (find_op_spec _ _ E) as [E1 E2].
  apply List.find_some in E as [Hin _]. assert (op_head c = true); [|congruence]. unfold op_head. rewrite existsb_exists. exists o. split; [done|].
  rewrite bool_decide_eq_true, <- E1. rewrite take_take. destruct (length (op_string o)) as [|k] eqn:El; [lia|].
  destruct n; [|done]. cbn in E1. rewrite <- E1 in El. done.
Qed.

(** The blank of an operator of two words is behind [like] or [not]. *)
Lemma op_blank o k : In o new_ops -> op_string o !! k = Some " "%char -> take k (op_string o) = lit "like" \/ take k (op_string o) = lit "not" \/ take k (op_string o) = lit "not like".
Proof.
  intros Hin Hk. assert (forallb (fun o => forallb (fun k => implb (bool_decide (op_string o !! k = Some " "%char))
    (existsb (fun w => bool_decide (take k (op_string o) = w)) [lit "like"; lit "not"; lit "not like"])) (seq 0 14)) new_ops = true) as H by by vm_compute.
  assert (forallb (fun o => length (op_string o) <=? 14)%nat new_ops = true) as Hl by done.
  rewrite forallb_forall in H, Hl. specialize (H o Hin). specialize (Hl o Hin). apply Nat.leb_le in Hl. rewrite forallb_forall in H. specialize (H k).
  rewrite bool_decide_true in H by done. apply lookup_lt_Some in Hk. rewrite in_seq in H. specialize (H ltac:(lia)). cbn [implb] in H.
  rewrite existsb_exists in H. destruct H as (w & Hw & E). apply bool_decide_eq_true in E. destruct Hw as [<-|[<-|[<-|[]]]]; auto.
Qed.

Lemma free_word_spec w r : is_name w = true -> free_word w = true -> rest_ok r -> find_op (take 10 (w ++ r)) = None.
Proof.
  unfold free_word, is_name. rewrite !andb_true_iff, bool_decide_eq_true, negb_true_iff, bool_decide_eq_false. intros [[_ Hw] _] [Hf Hn] Hr.
  destruct (find_op (take 10 (w ++ r))) as [o|] eqn:E; [|done]. pose proof (find_op_spec _ _ E) as [E1 E2].
  apply List.find_some in E as [Hin Hm]. rewrite take_take in E1.
  assert (length (op_string o) <= 10)%nat as H10 by (apply (f_equal length) in E1; rewrite length_take in E1; lia).
  rewrite Nat.min_l in E1 by done. destruct (decide (length (op_string o) <= length w)%nat) as [Hl|Hl].
  - pose proof (List.find_none _ _ Hf o Hin) as Hx. cbn in Hx. exfalso. apply eq_true_false_abs with (2 := Hx). revert Hm. unfold op_matches.
    rewrite !take_take, Nat.min_l by done. rewrite take_app_le in E1 by done. rewrite E1, take_app_le, E1, !bool_decide_true by done. cbn [andb].
    destruct (isalpha (char_at (op_string o) 0)); [|done]. cbn [negb orb]. intros Hm. apply negb_true_iff. apply negb_true_iff in Hm.
    unfold char_at in *. destruct (decide (length (op_string o) < 10)%nat) as [H|H].
    + rewrite lookup_take_lt in Hm |- * by done. destruct (decide (length (op_string o) < length w)%nat).
      * by rewrite lookup_app_l in Hm by done.
      * rewrite lookup_ge_None_2 by lia. done.
    + rewrite lookup_take_ge by lia. done.
  - destruct Hr as [->|[r' ->]]; [rewrite app_nil_r in E1; apply (f_equal length) in E1; rewrite length_take in E1; lia|].
    assert (take (length w) (op_string o) = w) as Ew by (rewrite <- E1, take_take, Nat.min_l, take_app_length by lia; done).
    assert (op_string o !! length w = Some " "%char) as Eb by (rewrite <- E1, lookup_take_lt, lookup_app_r, Nat.sub_diag by lia; done).
    destruct (op_blank o _ Hin Eb) as [Ex|[Ex|Ex]]; rewrite Ew in Ex; subst w; [by vm_compute in Hf|done|by vm_compute in Hw].
Qed.

(** *** Words, numbers and variables *)

Lemma rest_none start c s r tok Q : drop start src = c :: s ++ r -> find_op (take 10 (c :: s ++ r)) = None -> (start <= length src)%nat ->
  wp src (lex_operand fuel start (schar c) tok) start Q -> wp src (lex_rest fuel start (schar c) tok) start Q.
Proof. intros H Hf Hs HQ. unfold lex_rest. apply wp_bind. cbn [dupString wp]. split; [done|]. by rewrite H, Hf. Qed.

Lemma no_nul (p : Z -> bool) s : p 0 = false -> all_chars p s = true -> all_chars (fun ch => negb (ch =? 0)) s = true.
Proof. intros Hp. apply all_chars_mono. intros ch. destruct (Z.eqb_spec ch 0) as [->|]; [congruence|done]. Qed.

Section operand.
Context (start : nat) (r : bstr) (tok : Token).
Hypotheses (r_ok : rest_ok r) (s_in : (start <= length src)%nat) (f_ok : (length src - start <= fuel)%nat) (t_ok : token_ok tok).

Lemma word_operand w : drop start src = w ++ r -> lexeme_ok (Word w) = true -> wp src (lex_rest fuel start (ch_at start) tok) start (reads_as (Word w) start).
Proof using r_ok s_in f_ok t_ok.
  cbn [lexeme_ok]. intros H [Hw Hfw]%andb_true_iff. pose proof (free_word_spec _ _ Hw Hfw r_ok) as Hfind. pose proof (drop_len _ _ _ H s_in).
  unfold is_name in Hw. rewrite !andb_true_iff, Nat.ltb_lt in Hw. destruct Hw as [[Hs Hall] Hlen]. destruct w as [|c w]; [done|]. cbn in Hs.
  pose proof (char_mid start (c :: w) r 0 c H eq_refl) as Ec. rewrite Nat.add_0_r in Ec. rewrite Ec. apply (rest_none _ _ w r); try done.
  unfold lex_operand.
  assert (num_char (schar c) = false) as ->.
  { apply negb_true_iff. by apply (every_impl (fun c => word_start (schar c)) (fun c => negb (num_char (schar c))) eq_refl). }
  unfold word_start in Hs. rewrite Hs. cbn [orb]. cbn [length] in *. apply wp_next; [lia|]. unfold all_chars in Hall. cbn [forallb] in Hall.
  apply andb_true_iff in Hall as [Hc Hall]. apply (run_wp _ _ (c :: w) r); try done; cbn [length]; try lia. apply wp_ret.
  split; [apply stored_ok; [done|cbn; lia]|]. split; [|done]. cbn [type set_type text lexeme_token]. f_equal.
  change (c_str (text (stored (c :: w) tok)) = c :: w). apply c_str_stored. eapply (no_nul word_char); [done|]. unfold all_chars. cbn [forallb]. by rewrite Hc.
Qed.

Lemma number_operand ds : drop start src = ds ++ r -> lexeme_ok (Number ds) = true -> wp src (lex_rest fuel start (ch_at start) tok) start (reads_as (Number ds) start).
Proof using r_ok s_in f_ok t_ok.
  cbn [lexeme_ok]. rewrite !andb_true_iff, Nat.ltb_lt. intros H [[Hs Hall] Hlen]. pose proof (drop_len _ _ _ H s_in). destruct ds as [|c ds]; [done|]. cbn in Hs.
  pose proof (char_mid start (c :: ds) r 0 c H eq_refl) as Ec. rewrite Nat.add_0_r in Ec. rewrite Ec. apply (rest_none _ _ ds r); try done.
  { apply find_op_head, negb_true_iff. by apply (every_impl (fun c => isdigit (schar c)) (fun c => negb (op_head c)) eq_refl). }
  unfold lex_operand. assert (num_char (schar c) = true) as -> by (unfold num_char; by rewrite Hs). cbn [length] in *.
  apply wp_next; [lia|]. unfold all_chars in Hall. cbn [forallb] in Hall. apply andb_true_iff in Hall as [Hc Hall].
  apply (run_wp _ _ (c :: ds) r); try done; cbn [length]; try lia. apply wp_ret.
  assert (c_str (text (stored (c :: ds) tok)) = c :: ds) as E.
  { apply c_str_stored. eapply (no_nul num_char); [done|]. unfold all_chars. cbn [forallb]. by rewrite Hc. }
  split; [apply (stored_ok (c :: ds)); [done|cbn; lia]|]. split; [|done]. unfold set_type. cbn [type text lexeme_token]. by rewrite E.
Qed.

End operand.

(** *** Quoted strings *)

Lemma put_at {A} (w : list A) b x c : <[length w := c]> (w ++ b :: x) = w ++ c :: x.
Proof. rewrite <- (Nat.add_0_r (length w)). by rewrite insert_app_r. Qed.

Lemma trimmed w x : w <> [] -> Forall (fun c => c <> NUL) w -> forall pos Q,
  (forall t, length t = length (w ++ dquote :: NUL :: x) -> c_str t = drop 1 w -> Q t pos) -> wp src (trimquotes (w ++ dquote :: NUL :: x)) pos Q.
Proof.
  intros Hne Hw pos Q HQ. destruct w as [|q w]; [done|]. unfold trimquotes.
  assert (c_str ((q :: w) ++ dquote :: NUL :: x) = (q :: w) ++ [dquote]) as ->.
  { change (dquote :: NUL :: x) with ([dquote] ++ NUL :: x). rewrite app_assoc. apply c_str_app. apply Forall_app; split; [done|]. by repeat constructor. }
  rewrite length_app. cbn [length]. destruct (Z.ltb_spec (Z.of_nat (S (length w) + 1) - 2) 0); [lia|].
  replace (Z.to_nat (Z.of_nat (S (length w) + 1) - 2)) with (length w) by lia. apply Forall_cons in Hw as [_ Hw]. apply wp_ret, HQ.
  - cbn [drop app]. rewrite drop_0, take_app_length, !length_app. cbn [length]. rewrite length_drop, length_app. cbn [length]. lia.
  - cbn [drop app]. rewrite drop_0, take_app_length. by apply c_str_app.
Qed.

Lemma plain_char c : text_ok c = true -> needs_escape c = false ->
  schar c <> EOS /\ (schar c =? backslash) = false /\ strchr [dquote] (schar c) = false /\ is_ch "*" (schar c) || is_ch "$" (schar c) = false.
Proof.
  intros H1 H2. pose proof (every_impl (fun c => text_ok c && negb (needs_escape c))
    (fun c => negb (schar c =? EOS) && (negb (schar c =? backslash) && (negb (strchr [dquote] (schar c)) && negb (is_ch "*" (schar c) || is_ch "$" (schar c))))) eq_refl c) as H.
  cbn beta in H. rewrite H1, H2 in H. specialize (H eq_refl). rewrite !andb_true_iff, !negb_true_iff, Z.eqb_neq in H. tauto.
Qed.

Lemma escaped_char c : text_ok c = true -> needs_escape c = true -> schar c <> EOS /\ unescape_char (schar c) = c.
Proof.
  intros H1 H2. pose proof (every_impl (fun c => text_ok c && needs_escape c) (fun c => negb (schar c =? EOS) && Ascii.eqb (unescape_char (schar c)) c) eq_refl c) as H.
  cbn beta in H. rewrite H1, H2 in H. specialize (H eq_refl). by rewrite !andb_true_iff, !negb_true_iff, Z.eqb_neq, Ascii.eqb_eq in H.
Qed.

Lemma text_ok_nul c : text_ok c = true -> c <> NUL.
Proof. intros H ->. by vm_compute in H. Qed.

(** What reading a string comes to. *)
Definition quoted_post (s : bstr) (end_ : nat) (res : Z * bstr * list Z) (p : nat) : Prop :=
  res.1.1 = 0 /\ length res.1.2 = S MAX_TOKEN_TEXT_LEN /\ length res.2 = NVARS /\ c_str res.1.2 = s /\ p = end_.

Lemma quoted_end f pos w x v r : drop pos src = dquote :: r -> (pos < length src)%nat -> (length src - pos <= f)%nat ->
  (length w < MAX_TOKEN_TEXT_LEN)%nat -> length (w ++ x) = S MAX_TOKEN_TEXT_LEN -> length v = NVARS -> w <> [] -> Forall (fun c => c <> NUL) w ->
  wp src (base_loop f MAX_TOKEN_TEXT_LEN [dquote] true backslash 1 false (length w) 0 (w ++ x) v (ch_at pos)) pos (quoted_post (drop 1 w) (pos + 1)).
Proof.
  intros H Hp Hf Hlen Hx Hv Hne Hw.
  pose proof (char_mid pos [dquote] r 0 dquote H eq_refl) as Ec. rewrite Nat.add_0_r in Ec. rewrite Ec. destruct f as [|f]; [lia|].
  destruct x as [|b [|b' x]]; [rewrite length_app in Hx; cbn in Hx; lia|rewrite length_app in Hx; cbn in Hx; lia|].
  cbn [base_loop]. change (schar dquote =? EOS) with false. cbv iota. destruct (Nat.leb_spec MAX_TOKEN_TEXT_LEN (length w)); [lia|].
  apply wp_bind, put_wp; [lia|]. change (schar dquote =? backslash) with false. change (strchr [dquote] (schar dquote)) with true. cbv iota.
  rewrite chr_schar, put_at. apply wp_bind, wp_bind, put_wp; [rewrite length_app in *; cbn in *; lia|].
  assert (<[S (length w):=NUL]> (w ++ dquote :: b' :: x) = w ++ dquote :: NUL :: x) as ->.
  { change (w ++ dquote :: b' :: x) with (w ++ [dquote] ++ b' :: x). rewrite app_assoc. replace (S (length w)) with (length (w ++ [dquote])) by (rewrite length_app; cbn; lia).
    rewrite put_at. by rewrite <- app_assoc. }
  apply wp_bind, trimmed; try done. intros t Ht Et. apply wp_next; [done|]. apply wp_ret, wp_bind, put_wp; [rewrite Hv; unfold NVARS; lia|].
  apply wp_ret. repeat split; cbn.
  - rewrite Ht, <- Hx, !length_app. done.
  - by rewrite length_insert.
  - done.
  - lia.
Qed.

Lemma quoted_loop s : forallb text_ok s = true -> forall f pos w x v r, drop pos src = escape_text s ++ dquote :: r -> (pos <= length src)%nat ->
  (length src - pos <= f)%nat -> (length w + length s < MAX_TOKEN_TEXT_LEN)%nat -> length (w ++ x) = S MAX_TOKEN_TEXT_LEN -> length v = NVARS ->
  w <> [] -> Forall (fun c => c <> NUL) w ->
  wp src (base_loop f MAX_TOKEN_TEXT_LEN [dquote] true backslash 1 false (length w) 0 (w ++ x) v (ch_at pos)) pos
    (quoted_post (drop 1 (w ++ s)) (pos + length (escape_text s) + 1)).
Proof.
  induction s as [|c s IH]; intros Hs f pos w x v r H Hp Hf Hlen Hx Hv Hne Hw; pose proof (drop_len _ _ _ H Hp) as Hl; cbn [length] in Hl, Hlen.
  - rewrite app_nil_r. cbn [escape_text map concat app length] in *. rewrite Nat.add_0_r. by eapply quoted_end; try done; lia.
  - cbn [forallb] in Hs. apply andb_true_iff in Hs as [Hc Hs]. unfold escape_text in H, Hl. cbn [map concat] in H, Hl. fold (escape_text s) in H, Hl.
    destruct x as [|b x]; [rewrite length_app in Hx; cbn in Hx; lia|].
    assert (forall f' pos' r', drop pos' src = escape_text s ++ dquote :: r' -> (pos' <= length src)%nat -> (length src - pos' <= f')%nat ->
      pos' = (pos + length (escape_char c))%nat ->
      wp src (base_loop f' MAX_TOKEN_TEXT_LEN [dquote] true backslash 1 false (S (length w)) 0 (w ++ c :: x) v (ch_at pos')) pos'
        (quoted_post (drop 1 (w ++ c :: s)) (pos + length (escape_text (c :: s)) + 1))) as Hgo.
    { intros f' pos' r' H' Hp' Hf' ->. replace (w ++ c :: x) with ((w ++ [c]) ++ x) by (by rewrite <- app_assoc). replace (w ++ c :: s) with ((w ++ [c]) ++ s) by (by rewrite <- app_assoc).
      replace (S (length w)) with (length (w ++ [c])) by (rewrite length_app; cbn; lia).
      replace (pos + length (escape_text (c :: s)) + 1)%nat with (pos + length (escape_char c) + length (escape_text s) + 1)%nat by (unfold escape_text; cbn [map concat]; rewrite length_app; lia).
      eapply IH; try done; rewrite ?length_app in *; cbn [length] in *; try lia; [by destruct w|]. apply Forall_app. split; [done|]. repeat constructor. by apply text_ok_nul. }
    revert H Hl Hgo. unfold escape_char. destruct (needs_escape c) eqn:En; cbn [app]; intros H Hl Hgo; cbn [length] in Hl.
    + pose proof (char_mid pos ["\"%char; c] _ 0 "\"%char H eq_refl) as E0. rewrite Nat.add_0_r in E0. pose proof (char_mid pos ["\"%char; c] _ 1 c H eq_refl) as E1.
      rewrite Nat.add_1_r in E1. destruct (escaped_char c Hc En) as [Hce Hcu]. rewrite E0. destruct f as [|[|f]]; [lia|lia|]. cbn [length] in *.
      cbn [base_loop]. change (schar "\" =? EOS) with false. cbv iota. destruct (Nat.leb_spec MAX_TOKEN_TEXT_LEN (length w)); [lia|].
      apply wp_bind, put_wp; [lia|]. change (schar "\" =? backslash) with true. cbv iota. apply wp_next; [lia|].
      replace (S (length w - 1)) with (length w) by (destruct w; [done|cbn; lia]). rewrite E1, put_at. cbn [base_loop]. destruct (Z.eqb_spec (schar c) EOS); [done|].
      destruct (Nat.leb_spec MAX_TOKEN_TEXT_LEN (length w)); [lia|]. apply wp_bind, put_wp; [rewrite length_app; cbn; lia|]. rewrite put_at.
      apply wp_bind, put_wp; [rewrite length_app; cbn; lia|]. rewrite put_at, Hcu. apply wp_next; [lia|]. eapply Hgo; [|lia|lia|lia].
      replace (S (S pos)) with (pos + 2)%nat by lia. rewrite <- drop_drop, H. done.
    + pose proof (char_mid pos [c] _ 0 c H eq_refl) as E0. rewrite Nat.add_0_r in E0. destruct (plain_char c Hc En) as (Hc1 & Hc2 & Hc3 & Hc4).
      rewrite E0. destruct f as [|f]; [lia|]. cbn [length] in *. cbn [base_loop]. destruct (Z.eqb_spec (schar c) EOS); [done|].
      destruct (Nat.leb_spec MAX_TOKEN_TEXT_LEN (length w)); [lia|]. apply wp_bind, put_wp; [lia|]. rewrite Hc2, Hc3, chr_schar, put_at.
      apply wp_bind. unfold note_var. rewrite Hc4. apply wp_ret. apply wp_next; [lia|]. eapply Hgo; [|lia|lia|lia].
      replace (S pos) with (pos + 1)%nat by lia. rewrite <- drop_drop, H. done.
Qed.

Lemma first_char start c s r : drop start src = (c :: s) ++ r -> ch_at start = schar c.
Proof. intros H. rewrite <- (char_mid start (c :: s) r 0 c H eq_refl). by rewrite Nat.add_0_r. Qed.

Lemma second_char start c d s r : drop start src = (c :: d :: s) ++ r -> ch_at (S start) = schar d.
Proof. intros H. rewrite <- (char_mid start (c :: d :: s) r 1 d H eq_refl). by rewrite Nat.add_1_r. Qed.

Section lexemes.
Context (start : nat) (r : bstr) (tok : Token).
Hypotheses (r_ok : rest_ok r) (s_in : (start <= length src)%nat) (f_ok : (length src - start <= fuel)%nat) (t_ok : token_ok tok).

Lemma quoted_operand s : drop start src = print_lexeme (Quoted s) ++ r -> lexeme_ok (Quoted s) = true ->
  wp src (lex_rest fuel start (ch_at start) tok) start (reads_as (Quoted s) start).
Proof using r_ok s_in f_ok t_ok.
  cbn [lexeme_ok print_lexeme]. rewrite andb_true_iff, Nat.ltb_lt. intros H [Hs Hlen]. pose proof (drop_len _ _ _ H s_in) as Hl. cbn [length] in Hl.
  rewrite (first_char _ _ _ _ H). apply (rest_none _ _ (escape_text s ++ [dquote]) r); try done.
  unfold lex_operand. change (num_char (schar dquote)) with false. change (is_ch "_" (schar dquote) || isalpha (schar dquote) || is_ch "~" (schar dquote)) with false.
  change (is_ch dquote (schar dquote)) with true. cbv iota. destruct t_ok as [Ht1 Ht2]. destruct (text tok) as [|b x] eqn:Ex; [done|].
  apply wp_bind. unfold nextString, nextStringBase. apply wp_look; [lia|]. rewrite Nat.add_0_r, (first_char _ _ _ _ H), chr_schar.
  apply wp_bind, put_wp; [cbn; lia|]. apply wp_next; [lia|].
  eapply wp_mono; [|apply (quoted_loop s Hs fuel (S start) [dquote] x (vars tok) r); try done; try (cbn; lia)].
  - intros [[n t] v] p (E1 & E2 & E3 & E4 & E5). cbn in E1, E2, E3, E4. subst n. apply wp_ret. split; [done|]. split.
    + cbn. by rewrite E4.
    + rewrite E5. cbn. rewrite length_app. cbn. lia.
  - rewrite <- Nat.add_1_r, <- drop_drop, H. cbn. by rewrite drop_0, <- app_assoc.
  - unfold MAX_TOKEN_TEXT_LEN. cbn [length]. lia.
  - by repeat constructor.
Qed.

Lemma punct_special rulegen pathLiteral c : drop start src = print_lexeme (Punct c) ++ r -> lexeme_ok (Punct c) = true ->
  wp src (lex_special fuel rulegen pathLiteral start (ch_at start) tok) start (fun f p => exists t, f = Break t /\ reads_as (Punct c) start t p).
Proof using r_ok s_in f_ok t_ok.
  cbn [lexeme_ok print_lexeme]. intros H Hc. rewrite (first_char _ _ _ _ H). pose proof (drop_len _ _ _ H s_in). cbn [length] in *.
  pose proof (every_impl (fun c => existsb (Ascii.eqb c) MISC) (fun c => existsb (fun d => is_ch d (schar c)) MISC && (negb (is_ch "|" (schar c)) && negb (schar c =? 0))) eq_refl c Hc) as E.
  cbn beta in E. rewrite !andb_true_iff, !negb_true_iff in E. destruct E as (E1 & E2 & E3). unfold lex_special. rewrite E1, E2. apply wp_bind, wp_ret. cbn [orb].
  apply misc_op_wp; cbn [length]; try done; try lia. rewrite chr_schar. eexists. split; [done|]. split; [apply (stored_ok [c]); [done|cbn; unfold MAX_TOKEN_TEXT_LEN; lia]|].
  split; [|done]. unfold set_type. cbn [type text lexeme_token]. f_equal. apply c_str_stored. unfold all_chars. cbn [forallb]. by rewrite E3.
Qed.

Lemma var_special rulegen pathLiteral c w : c = "*"%char \/ c = "$"%char -> drop start src = (c :: w) ++ r -> is_name w = true ->
  wp src (lex_special fuel rulegen pathLiteral start (ch_at start) tok) start (fun f p => exists t, f = Break t /\
    token_ok t /\ (type t, c_str (text t)) = (if Ascii.eqb c "*" then TK_LOCAL_VAR else TK_SESSION_VAR, c :: w) /\ p = (start + length (c :: w))%nat).
Proof using r_ok s_in f_ok t_ok.
  intros Hc H Hw. unfold is_name in Hw. rewrite !andb_true_iff, Nat.ltb_lt in Hw. destruct Hw as [[Hs Hall] Hlen]. destruct w as [|d w]; [done|]. cbn in Hs.
  pose proof (drop_len _ _ _ H s_in) as Hl. cbn [length] in Hl, Hlen. rewrite (first_char _ _ _ _ H).
  set (ty := if Ascii.eqb c "*" then TK_LOCAL_VAR else TK_SESSION_VAR).
  apply (wp_mono _ _ (fun f p => exists t, f = Break t /\ t = stored (c :: d :: w) (set_type ty tok) /\ p = (start + length (c :: d :: w))%nat)).
  { intros f p (t & -> & -> & ->). exists (stored (c :: d :: w) (set_type ty tok)). split; [done|]. split; [apply stored_ok; [done|cbn [length]; lia]|]. split; [|done].
    f_equal. apply c_str_stored. unfold all_chars in *. cbn [forallb] in *. rewrite andb_true_iff in Hall. destruct Hall as [Hd Hall].
    apply andb_true_iff. split; [by destruct Hc as [->| ->]|]. by apply (no_nul word_char (d :: w)); [|unfold all_chars; cbn [forallb]; rewrite Hd]. }
  assert (lex_special fuel rulegen pathLiteral start (schar c) tok = (ch ← nextChar;
    if word_start ch then ch ← nextChar; _ ← skip_while fuel word_char ch; tok ← take_text start (set_type ty tok); mret (Break tok)
    else _ ← seek start; mret (Fall ch (set_type ty tok)))) as -> by (unfold ty; by destruct Hc as [->| ->]).
  apply wp_next; [lia|]. rewrite (second_char _ _ _ _ _ H), Hs. apply wp_next; [lia|]. unfold all_chars in Hall. cbn [forallb] in Hall. apply andb_true_iff in Hall as [Hd Hall].
  apply (run_wp word_char start (c :: d :: w) r (S (S start)) (set_type ty tok) (fun tok => mret (Break tok))); try done; cbn [length]; try lia.
  - change (all_chars word_char (d :: w) = true). unfold all_chars. cbn [forallb]. by rewrite Hd.
  - apply wp_ret. eauto.
Qed.

Lemma readable_found o : In o readable_ops -> option_map op_string (find_op (take 10 (o ++ r))) = Some o.
Proof using r_ok.
  intros Hin. destruct r_ok as [->|[r' ->]]; repeat (destruct Hin as [<-|Hin]; [vm_compute; reflexivity|]); by destruct Hin.
Qed.

(** Behind an operator of one character. *)
Lemma after_one c : drop start src = [c] ++ r -> ch_at (S start) = EOS \/ ch_at (S start) = 32.
Proof using r_ok s_in f_ok t_ok. intros H. pose proof (char_rest _ _ _ H r_ok) as Hr. by rewrite Nat.add_1_r in Hr. Qed.

Lemma arrow_special rulegen pathLiteral c : c = "-"%char \/ c = "="%char -> ch_at start = schar c -> is_ch ">" (ch_at (S start)) = false ->
  wp src (lex_special fuel rulegen pathLiteral start (schar c) tok) start (fun f p => exists ch t, f = Fall ch t /\ token_ok t /\ p = start).
Proof using r_ok s_in f_ok t_ok.
  intros Hc E H. assert (lex_special fuel rulegen pathLiteral start (schar c) tok = (c1 ← lookAhead 1;
    if is_ch ">" c1 then misc_op [chr (schar c); ">"%char] tok else mret (Fall (schar c) tok))) as -> by (by destruct Hc as [->| ->]).
  apply wp_look; [lia|]. rewrite Nat.add_1_r, H. apply wp_ret. eauto.
Qed.

Lemma star_special rulegen pathLiteral : drop start src = ["*"%char] ++ r ->
  wp src (lex_special fuel rulegen pathLiteral start (schar "*") tok) start (fun f p => exists ch t, f = Fall ch t /\ token_ok t /\ p = start).
Proof using r_ok s_in f_ok t_ok.
  intros H. pose proof (drop_len _ _ _ H s_in) as Hl. cbn [length] in Hl.
  assert (lex_special fuel rulegen pathLiteral start (schar "*") tok = (ch ← nextChar;
    if word_start ch then ch ← nextChar; _ ← skip_while fuel word_char ch; tok ← take_text start (set_type TK_LOCAL_VAR tok); mret (Break tok)
    else _ ← seek start; mret (Fall ch (set_type TK_LOCAL_VAR tok)))) as -> by done.
  apply wp_next; [lia|]. assert (word_start (ch_at (S start)) = false) as -> by (by destruct (after_one _ H) as [->| ->]).
  apply wp_bind. cbn [seek wp]. split; [done|]. do 2 eexists. split; [done|]. by split; [apply t_ok|].
Qed.

Lemma bar_special pathLiteral : ch_at (S start) = schar "|" ->
  wp src (lex_special fuel true pathLiteral start (schar "|") tok) start (fun f p => exists ch t, f = Fall ch t /\ token_ok t /\ p = start).
Proof using r_ok s_in f_ok t_ok. 
  intros H. unfold lex_special. apply wp_bind. change (is_ch "|" (schar "|")) with true. cbn [negb]. apply wp_look; [lia|]. rewrite Nat.add_1_r, H. apply wp_ret.
  change (existsb (fun c => is_ch c (schar "|")) MISC || negb (is_ch "|" (schar "|"))) with false. cbv iota.
  change (is_ch "#" (schar "|")) with false. change (is_ch "-" (schar "|") || is_ch "=" (schar "|")) with false. change (is_ch ":" (schar "|")) with false.
  change (is_ch "*" (schar "|") || is_ch "$" (schar "|")) with false. change (is_ch "/" (schar "|")) with false. rewrite andb_false_r. apply wp_ret. eauto.
Qed.

Lemma slash_special rulegen : wp src (lex_special fuel rulegen false start (schar "/") tok) start (fun f p => exists ch t, f = Fall ch t /\ token_ok t /\ p = start).
Proof using r_ok s_in f_ok t_ok. change (lex_special fuel rulegen false start (schar "/") tok) with (Ret (Fall (schar "/") tok)). apply wp_ret. eauto. Qed.

(** The first character of an operator decides nothing, these excepted. *)
Lemma oper_head o : In o readable_ops -> exists c s, o = c :: s /\
  (fall_char (schar c) = true \/ In o [lit "-"; lit "="; lit "=="; lit "*"; lit "/"; lit "||"]).
Proof using.
  intros Hin. assert (forallb (fun o => match o with [] => false | c :: _ =>
    fall_char (schar c) || existsb (fun x => bool_decide (x = o)) [lit "-"; lit "="; lit "=="; lit "*"; lit "/"; lit "||"] end) readable_ops = true) as H by by vm_compute.
  rewrite forallb_forall in H. specialize (H o Hin). destruct o as [|c s]; [done|]. exists c, s. split; [done|]. apply orb_true_iff in H as [H|H]; [by left|right].
  apply existsb_exists in H as (x & Hx & E). apply bool_decide_eq_true in E. by subst x.
Qed.

Lemma oper_special o : In o readable_ops -> drop start src = o ++ r ->
  wp src (lex_special fuel true false start (ch_at start) tok) start (fun f p => exists ch t, f = Fall ch t /\ token_ok t /\ p = start).
Proof using r_ok s_in f_ok t_ok.
  intros Hin H. destruct (oper_head o Hin) as (c & s & Eo & Hc). pose proof H as H'. rewrite Eo in H'. rewrite (first_char _ _ _ _ H').
  destruct Hc as [Hc|Hc]; [apply fall_wp; [done|by eauto]|]. subst o. destruct Hc as [E|[E|[E|[E|[E|[E|[]]]]]]]; injection E as <- <-.
  - apply arrow_special; [by auto|by apply (first_char _ _ [] r)|]. by destruct (after_one _ H) as [->| ->].
  - apply arrow_special; [by auto|by apply (first_char _ _ [] r)|]. by destruct (after_one _ H) as [->| ->].
  - apply arrow_special; [by auto|by apply (first_char _ _ ["="%char] r)|]. by rewrite (second_char _ _ _ _ _ H).
  - by apply star_special.
  - apply slash_special.
  - apply bar_special. by rewrite (second_char _ _ _ _ _ H).
Qed.

Lemma oper_rest o ch : In o readable_ops -> drop start src = o ++ r -> wp src (lex_rest fuel start ch tok) start (reads_as (Oper o) start).
Proof using r_ok s_in f_ok t_ok.
  intros Hin H. pose proof (readable_found o Hin) as Hf. pose proof (drop_len _ _ _ H s_in). unfold lex_rest. apply wp_bind. cbn [dupString wp]. split; [done|].
  rewrite H. destruct (find_op (take 10 (o ++ r))) as [o'|] eqn:Eo; [|done]. cbn in Hf. injection Hf as Hf. destruct (find_op_spec _ _ Eo) as [_ Hl].
  rewrite Hf in *. apply wp_bind, store_wp; [done|unfold MAX_TOKEN_TEXT_LEN; lia|]. apply wp_bind.
  eapply wp_mono; [|apply nextChars_wp; lia]. intros _ p ->. apply wp_ret. split; [apply (stored_ok o); [done|unfold MAX_TOKEN_TEXT_LEN; lia]|]. split; [|done].
  unfold set_type. cbn [type text lexeme_token]. f_equal. apply c_str_stored.
  assert (forallb (all_chars (fun ch => negb (ch =? 0))) readable_ops = true) as Hall by done. rewrite forallb_forall in Hall. by apply Hall.
Qed.

End lexemes.

Lemma lexeme_head l : lexeme_ok l = true -> exists c s, print_lexeme l = c :: s /\ is_blank (schar c) = false /\ schar c <> EOS.
Proof using.
  assert (forall p c, forallb (fun n => implb (p (ascii_of_nat n)) (negb (is_blank (schar (ascii_of_nat n))) && negb (schar (ascii_of_nat n) =? EOS))) (seq 0 256) = true ->
    p c = true -> is_blank (schar c) = false /\ schar c <> EOS) as Hp.
  { intros p c H Hc. pose proof (every_impl p (fun c => negb (is_blank (schar c)) && negb (schar c =? EOS)) H c Hc) as E.
    cbn beta in E. by rewrite andb_true_iff, !negb_true_iff, Z.eqb_neq in E. }
  destruct l as [w|w|w|w|w|c|o]; cbn [lexeme_ok print_lexeme]; rewrite ?andb_true_iff; intros H.
  - destruct H as [Hw _]. unfold is_name in Hw. rewrite !andb_true_iff in Hw. destruct w as [|c s]; [by destruct Hw as [[? ?] ?]|]. exists c, s. split; [done|].
    apply (Hp (fun c => word_start (schar c))); [by vm_compute|apply Hw].
  - destruct w as [|c s]; [by destruct H as [[? ?] ?]|]. exists c, s. split; [done|]. apply (Hp (fun c => isdigit (schar c))); [by vm_compute|apply H].
  - by exists "*"%char, w.
  - by exists "$"%char, w.
  - eexists _, _. by split.
  - exists c, []. split; [done|]. by apply (Hp (fun c => existsb (Ascii.eqb c) MISC)).
  - apply existsb_exists in H as (x & Hx & E). apply bool_decide_eq_true in E. subst x. assert (forallb (fun o => match o with [] => false | c :: _ => negb (is_blank (schar c)) && negb (schar c =? EOS) end) readable_ops = true) as Hall by done.
    rewrite forallb_forall in Hall. specialize (Hall o Hx). destruct o as [|c s]; [done|]. exists c, s. by rewrite andb_true_iff, !negb_true_iff, Z.eqb_neq in Hall.
Qed.

(** What the two parts of the lexer make of a lexeme. *)
Lemma lexeme_body l start r tok : drop start src = print_lexeme l ++ r -> rest_ok r -> lexeme_ok l = true -> (start <= length src)%nat ->
  (length src - start <= fuel)%nat -> token_ok tok ->
  wp src (f ← lex_special fuel true false start (ch_at start) tok;
    match f with Break tok => mret tok | Continue _ => Fail Eundef | Fall ch tok => lex_rest fuel start ch tok end) start (reads_as l start).
Proof using.
  intros H Hr Hl Hs Hf Ht. apply wp_bind. destruct (lexeme_head l Hl) as (c & s & Ep & _). pose proof H as H'. rewrite Ep in H'.
  assert (fall_char (ch_at start) = true -> wp src (lex_rest fuel start (ch_at start) tok) start (reads_as l start) ->
    wp src (lex_special fuel true false start (ch_at start) tok) start (fun f p => wp src (match f with Break tok => mret tok | Continue _ => Fail Eundef | Fall ch tok => lex_rest fuel start ch tok end) p (reads_as l start))) as Hfall.
  { intros Hc HQ. by apply fall_wp. }
  rewrite (first_char _ _ _ _ H') in *. destruct l as [w|w|w|w|w|d|o].
  - apply Hfall; [|rewrite <- (first_char _ _ _ _ H'); by apply (word_operand _ r)]. cbn [lexeme_ok print_lexeme] in *. unfold is_name in Hl. rewrite !andb_true_iff in Hl. subst w.
    apply (every_impl (fun c => word_start (schar c)) (fun c => fall_char (schar c)) eq_refl). apply Hl.
  - apply Hfall; [|rewrite <- (first_char _ _ _ _ H'); by apply (number_operand _ r)]. cbn [lexeme_ok print_lexeme] in *. rewrite !andb_true_iff in Hl. subst w.
    apply (every_impl (fun c => isdigit (schar c)) (fun c => fall_char (schar c)) eq_refl). apply Hl.
  - rewrite <- (first_char _ _ _ _ H'). eapply wp_mono; [|apply (var_special start r tok Hr Hs Hf Ht true false "*" w); [by left|done|done]].
    intros f p (t & -> & Ht' & E & ->). apply wp_ret. by split.
  - rewrite <- (first_char _ _ _ _ H'). eapply wp_mono; [|apply (var_special start r tok Hr Hs Hf Ht true false "$" w); [by right|done|done]].
    intros f p (t & -> & Ht' & E & ->). apply wp_ret. by split.
  - apply Hfall; [by injection Ep as <- _|rewrite <- (first_char _ _ _ _ H'); by apply (quoted_operand _ r)].
  - rewrite <- (first_char _ _ _ _ H'). eapply wp_mono; [|by apply (punct_special start r tok Hr Hs Hf Ht true false d)]. by intros f p (t & -> & Ht').
  - cbn [lexeme_ok print_lexeme] in *. apply existsb_exists in Hl as (x & Hx & E). apply bool_decide_eq_true in E. subst x.
    rewrite <- (first_char _ _ _ _ H'). eapply wp_mono; [|by apply (oper_special start r tok Hr Hs Hf Ht o)]. intros f p (ch & t & -> & Ht' & ->). by apply (oper_rest start r t).
Qed.

End print.

Lemma lexeme_loop src fuel l pos r tok : drop pos src = " "%char :: print_lexeme l ++ r -> rest_ok r -> lexeme_ok l = true -> (pos <= length src)%nat ->
  (length src - pos < fuel)%nat -> token_ok tok -> wp src (lex_loop fuel true false tok) pos (reads_as l (S pos)).
Proof.
  intros H Hr Hl Hp Hf Ht. destruct fuel as [|fuel]; [lia|]. cbn [lex_loop]. destruct (lexeme_head l Hl) as (c & s & Ep & Hb & He).
  pose proof H as H'. rewrite Ep in H'. pose proof (drop_len src pos [" "%char] _ H Hp) as Hlen. cbn [length] in Hlen.
  apply wp_bind. unfold skipWhitespace. apply wp_look; [lia|]. rewrite Nat.add_0_r. eapply wp_mono; [|apply skip_while_wp; [done|done|lia]].
  intros _ start (H1 & H2 & H3).
  assert (char_at src pos = 32) as E1 by (by apply (first_char src pos " "%char (c :: s ++ r) []); rewrite app_nil_r).
  assert (char_at src (S pos) = schar c) as E2 by (by apply (second_char src pos " "%char c (s ++ r) []); rewrite app_nil_r).
  assert (start = S pos) as ->.
  { destruct (Nat.lt_trichotomy start (S pos)) as [Hlt|[?|Hgt]]; [|done|].
    - assert (start = pos) as -> by lia. by rewrite E1 in H3.
    - specialize (H2 (S pos) ltac:(lia)). rewrite E2, Hb, andb_false_r in H2. done. }
  apply wp_bind. cbn [getPos wp]. apply wp_look; [lia|]. rewrite Nat.add_0_r. destruct (Z.eqb_spec (char_at src (S pos)) EOS) as [E|_]; [congruence|].
  assert (drop (S pos) src = print_lexeme l ++ r) as H4 by (rewrite <- Nat.add_1_r, <- drop_drop, H; done).
  pose proof (lexeme_body src (S fuel) l (S pos) r (set_exprloc (S pos) tok) H4 Hr Hl ltac:(lia) ltac:(lia) Ht) as Hw.
  apply wp_bind. apply wp_bind in Hw. eapply wp_mono; [|exact Hw]. intros [t|t|ch t] p; cbn beta iota; done.
Qed.

(** *** All lexemes of a text *)

Lemma print_rest_ok ls : rest_ok (print_lexemes ls).
Proof. destruct ls as [|l ls]; [by left|right]. unfold print_lexemes. cbn. eauto. Qed.

(** The types and the texts of tokens. *)
Definition readings (toks : list Token) : list (NodeType * bstr) := map (fun tok => (type tok, c_str (text tok))) toks.

Lemma lexeme_not_last l tok : (type tok, c_str (text tok)) = lexeme_token l -> is_last tok = false.
Proof.
  unfold is_last. intros E. apply (f_equal fst) in E. cbn in E. rewrite E. destruct l; cbn; try done. by destruct (existsb _ _).
Qed.

Lemma eos_wp src fuel rulegen pathLiteral tok : token_ok tok -> (0 < fuel)%nat ->
  wp src (lex_loop fuel rulegen pathLiteral tok) (length src) (fun t p => token_ok t /\ (type t, c_str (text t)) = (TK_EOS, lit "EOS") /\ p = length src).
Proof.
  intros Ht Hf. destruct fuel as [|fuel]; [lia|]. cbn [lex_loop]. assert (char_at src (length src) = EOS) as E by (unfold char_at; by rewrite lookup_ge_None_2).
  apply wp_bind. unfold skipWhitespace. apply wp_look; [lia|]. rewrite Nat.add_0_r, E. apply wp_ret. apply wp_bind. cbn [getPos wp].
  apply wp_look; [lia|]. rewrite Nat.add_0_r, E. change (EOS =? EOS) with true. cbv iota. apply wp_bind, store_wp; [done|unfold MAX_TOKEN_TEXT_LEN; cbn; lia|].
  apply wp_ret. split; [apply (stored_ok (lit "EOS") tok); [done|unfold MAX_TOKEN_TEXT_LEN; cbn; lia]|done].
Qed.

Lemma print_tokens_wp src fuel ls : forallb lexeme_ok ls = true -> forall n c pos, context_ok c -> tqp c = tqtop c ->
  drop pos src = print_lexemes ls -> (pos <= length src)%nat -> (length src - pos < fuel)%nat -> (length ls < n)%nat ->
  wp src (all_tokens n fuel (fun _ => (true, false)) c) pos (fun toks p => readings toks = map lexeme_token ls ++ [(TK_EOS, lit "EOS")] /\ p = length src).
Proof.
  induction ls as [|l ls IH]; intros Hl n c pos Hc E H Hp Hf Hn; (destruct n as [|n]; [cbn in Hn; lia|]); cbn [all_tokens]; apply wp_bind.
  - assert (pos = length src) as -> by (apply (f_equal length) in H; rewrite length_drop in H; cbn in H; lia).
    eapply wp_mono; [|apply (next_wp _ _ _ _ _ _ (fun t p => (type t, c_str (text t)) = (TK_EOS, lit "EOS") /\ p = length src) Hc E)].
    + intros [slot c'] p (Hc' & E' & tok & Et & Ht & ->). cbn in Et. rewrite Et. assert (is_last tok = true) as ->.
      { unfold is_last. apply (f_equal fst) in Ht. cbn in Ht. by rewrite Ht. }
      apply wp_ret. unfold readings. cbn. by rewrite Ht.
    + intros tok Ht. apply eos_wp; [done|lia].
  - cbn [forallb] in Hl. apply andb_true_iff in Hl as [Hl Hls]. cbn [length] in Hn. unfold print_lexemes in H. cbn [map concat] in H. fold (print_lexemes ls) in H.
    eapply wp_mono; [|apply (next_wp _ _ _ _ _ _ (fun t p => (type t, c_str (text t)) = lexeme_token l /\ p = (S pos + length (print_lexeme l))%nat) Hc E)].
    + intros [slot c'] p (Hc' & E' & tok & Et & Ht & ->). cbn in Et, Hc', E'. rewrite Et, (lexeme_not_last _ _ Ht). apply wp_bind.
      pose proof (drop_len src pos (" "%char :: print_lexeme l) _ H Hp) as Hlen. cbn [length] in Hlen.
      eapply wp_mono; [|apply IH; try done; try lia]. 
      * intros rest p' [Hr ->]. apply wp_ret. unfold readings in *. cbn. by rewrite Ht, Hr.
      * replace (S pos + length (print_lexeme l))%nat with (pos + length (" "%char :: print_lexeme l))%nat by (cbn [length]; lia).
        rewrite <- drop_drop, H. by rewrite drop_app_length.
    + intros tok Ht. eapply wp_mono; [|apply (lexeme_loop src fuel l pos (print_lexemes ls)); try done; apply print_rest_ok].
      intros t p (H1 & H2 & H3). by split.
Qed.

(** C15: what is printed is read back, within the limits of the lexer: what a writer prints as
    words, numbers, variables, quoted texts with their escapes, punctuation and operators, each
    behind a blank, the lexer, reading rules and no path literals, cuts into just these tokens,
    with their texts, and the end. The limits are [lexeme_ok]: words, variables and numbers have
    less than 1023 characters; a word is not "not" and does not start with an operator that no
    letter or digit follows (log_entry, say, is cut behind log); the operator is one of
    [readable_ops], not "like" or "not like", which regex may follow, nor "not like regex",
    which is never recognized, nor the list operator @@; a quoted text has less than 1021
    characters, none of them NUL or 0xFF, which reads as the end; a number starts with a digit. *)
Theorem lexer_reads_printed (ls : list lexeme) (fuel n : nat) (c : ParserContext) :
  forallb lexeme_ok ls = true -> context_ok c -> tqp c = tqtop c -> (length (print_lexemes ls) < fuel)%nat -> (length ls < n)%nat ->
  exists toks, run_str (print_lexemes ls) (all_tokens n fuel (fun _ => (true, false)) c) 0 = Ok (toks, length (print_lexemes ls)) /\
    readings toks = map lexeme_token ls ++ [(TK_EOS, lit "EOS")].
Proof.
  intros Hl Hc E Hf Hn. destruct (wp_run (print_lexemes ls) (all_tokens n fuel (fun _ => (true, false)) c) 0 _
    (print_tokens_wp (print_lexemes ls) fuel ls Hl n c 0 Hc E eq_refl ltac:(lia) ltac:(lia) Hn)) as (toks & pos & Er & Hr & ->).
  exists toks. split; [by apply within_str|done].
Qed.

(** ** A witness *)

Definition rule_lexemes : list lexeme :=
  [Word (lit "acRule"); Punct "("; LocalVar (lit "x"); Punct ")"; Punct "{"; SessionVar (lit "y_1"); Oper (lit "="); Quoted (lit "a\*b" ++ [dquote]);
   Oper (lit "like regex"); Number (lit "12.5"); Punct "}"].

Lemma lexer_reads_printed_witness : exists toks,
  run_str (print_lexemes rule_lexemes) (all_tokens 12 100 (fun _ => (true, false)) new_context) 0 = Ok (toks, length (print_lexemes rule_lexemes)) /\
  readings toks = map lexeme_token rule_lexemes ++ [(TK_EOS, lit "EOS")].
Proof.
  apply (lexer_reads_printed rule_lexemes 100 12 new_context); [by vm_compute|apply new_context_ok|done|by_evaluation|by_evaluation].
Defined.

