(* ===== verification/ConnPool.v ===== *)
(** * The pool of connections

    [lib/core/src/connection_pool.cpp]: a fixed number of connections to a server that threads
    take and give back through proxies. The calls of the pool that may run at the same time
    are steps of a relation ([step]); what runs between the lock of a slot and its release
    is a function of the slot. Connections are values of a type the pool does not look
    into; what the server, the catalog and the clock answer is in [answers]. *)

From stdpp Require Import base gmap list strings.
From Stdlib Require Import ZArith Lia Ascii.
From S2P Require Import Prelude Errors.
Local Open Scope Z_scope.

Definition USER_SOCK_CONNECT_ERR : Z := -305000.
Definition AUTHENTICATION_ERROR : Z := -178000.

(** ** Slots *)

Record connection_pool_options : Type := mkOptions {
  number_of_retrievals_before_connection_refresh : option Z;
  number_of_seconds_before_connection_refresh : option Z;
  refresh_connections_when_resource_changes_detected : bool
}.

Section pool.
Context {C : Type}.

(** A slot; [mutex] is the thread that holds it. *)
Record connection_context : Type := mkCtx {
  mutex : option nat;
  in_use : bool;
  refresh : bool;
  conn : option C;
  creation_time : Z;
  latest_resc_mtime : bstr;
  resc_count : Z;
  retrieval_count : Z
}.

Definition with_mutex (m : option nat) (x : connection_context) : connection_context :=
  mkCtx m (in_use x) (refresh x) (conn x) (creation_time x) (latest_resc_mtime x) (resc_count x) (retrieval_count x).
Definition with_in_use (b : bool) (x : connection_context) : connection_context :=
  mkCtx (mutex x) b (refresh x) (conn x) (creation_time x) (latest_resc_mtime x) (resc_count x) (retrieval_count x).
Definition with_refresh (b : bool) (x : connection_context) : connection_context :=
  mkCtx (mutex x) (in_use x) b (conn x) (creation_time x) (latest_resc_mtime x) (resc_count x) (retrieval_count x).
Definition with_conn (c : option C) (x : connection_context) : connection_context :=
  mkCtx (mutex x) (in_use x) (refresh x) c (creation_time x) (latest_resc_mtime x) (resc_count x) (retrieval_count x).
Definition with_time (z : Z) (x : connection_context) : connection_context :=
  mkCtx (mutex x) (in_use x) (refresh x) (conn x) z (latest_resc_mtime x) (resc_count x) (retrieval_count x).
Definition with_resc (n : Z) (m : bstr) (x : connection_context) : connection_context :=
  mkCtx (mutex x) (in_use x) (refresh x) (conn x) (creation_time x) m n (retrieval_count x).
Definition with_retrievals (n : Z) (x : connection_context) : connection_context :=
  mkCtx (mutex x) (in_use x) (refresh x) (conn x) (creation_time x) (latest_resc_mtime x) (resc_count x) n.

(** What a call learns from outside: the clock when the connection is checked and when one is
    made; the connection, unless there is an error; the function that authenticates it, if
    the pool was given one, or else what [authenticate_client] returns; the number of
    resources with the first row of the times they changed; the query for the zone. *)
Record answers : Type := mkAnswers {
  now_checked : Z;
  now_created : Z;
  rcConnect : option C;
  auth_func : option (res unit);
  authenticate_client : Z;
  resources : res (Z * res (bstr * bstr));
  zone : res unit
}.

Context (options : connection_pool_options).

(** [create_connection] on a slot; what is done about an error is the caller's, and may change
    the caller's state. *)
Definition create_connection {S} (a : answers) (on_connect_error on_login_error : M S unit) : M (connection_context * S) unit := fun s =>
  let '(ctx, st) := s in
  let ctx := if number_of_seconds_before_connection_refresh options is Some _ then with_time (now_created a) ctx else ctx in
  let ctx := if number_of_retrievals_before_connection_refresh options is Some _ then with_retrievals 0 ctx else ctx in
  let ctx := with_conn (rcConnect a) ctx in
  match conn ctx with
  | None => let '(r, st) := on_connect_error st in (r, (ctx, st))
  | Some _ =>
      match auth_func a with
      | Some r => (r, (ctx, st))
      | None =>
          if negb (authenticate_client a =? 0) then let '(r, st) := on_login_error st in (r, (ctx, st)) else (Ok tt, (ctx, st))
      end
  end.

(** Whether the resources are as the slot remembers them; it remembers what it sees. An
    exception of a query ends the check. *)
Definition resources_in_sync (a : answers) (ctx : connection_context) : res bool * connection_context :=
  match resources a with
  | Throw e => (Throw e, ctx)
  | Ok (v, front) =>
      let in_sync := v =? resc_count ctx in
      let ctx := with_resc v (latest_resc_mtime ctx) ctx in
      if 0 <? v then
        match front with
        | Throw e => (Throw e, ctx)
        | Ok (secs, millis) =>
            let latest_mtime := secs ++ lit "." ++ millis in
            if bool_decide (latest_mtime = latest_resc_mtime ctx) then (Ok in_sync, ctx)
            else (Ok false, with_resc v latest_mtime ctx)
        end
      else (Ok in_sync, ctx)
  end.

Definition verify_connection (a : answers) (ctx : connection_context) : bool * connection_context :=
  match conn ctx with
  | None => (false, ctx)
  | Some _ =>
      if match number_of_retrievals_before_connection_refresh options with Some n => n <=? retrieval_count ctx | None => false end then (false, ctx)
      else if match number_of_seconds_before_connection_refresh options with Some n => n <=? now_checked a - creation_time ctx | None => false end
      then (false, ctx)
      else if refresh_connections_when_resource_changes_detected options then
        let '(r, ctx) := resources_in_sync a ctx in (match r with Ok b => b | Throw _ => false end, ctx)
      else (match zone a with Ok _ => true | Throw _ => false end, ctx)
  end.

Definition refresh_connection (a : answers) : M connection_context (option C) := fun ctx =>
  let ctx := if refresh ctx then with_refresh false ctx else ctx in
  let '(ok, ctx) := verify_connection a ctx in
  if ok : bool then (Ok (conn ctx), ctx)
  else
    let '(r, (ctx, _)) := create_connection a (throw (Eirods USER_SOCK_CONNECT_ERR)) (throw (Eirods AUTHENTICATION_ERROR)) (ctx, tt) in
    (match r with Ok _ => Ok (conn ctx) | Throw e => Throw e end, ctx).

(** The rest of [get_connection] once a slot is claimed: the connection of the proxy. A null
    connection would be dereferenced. *)
Definition take_connection (a : answers) : M connection_context C := fun ctx =>
  match refresh_connection a ctx with
  | (Throw e, ctx) => (Throw e, ctx)
  | (Ok None, ctx) => (Throw Eundef, ctx)
  | (Ok (Some c), ctx) =>
      (Ok c, if number_of_retrievals_before_connection_refresh options is Some _ then with_retrievals (retrieval_count ctx + 1) ctx else ctx)
  end.

(** ** Proxies *)

(** [uninitialized_index] is [None]. *)
Record connection_proxy : Type := mkProxy { pool_ : bool; conn_ : option C; index_ : option nat }.

Definition default_proxy : connection_proxy := mkProxy false None None.

Definition proxy_bool (p : connection_proxy) : bool := if conn_ p is Some _ then true else false.

Definition proxy_ref (p : connection_proxy) : res C :=
  match conn_ p with None => Throw (Eirods SYS_LIBRARY_ERROR) | Some c => Ok c end.

Definition return_connection (i : nat) (l : list connection_context) : list connection_context := alter (with_in_use false) i l.

Definition release_connection (i : nat) (l : list connection_context) : list connection_context :=
  alter (fun x => with_conn None (with_refresh true x)) i l.

(** The destructor. *)
Definition destroy (p : connection_proxy) (l : list connection_context) : list connection_context :=
  match index_ p with Some i => if pool_ p then return_connection i l else l | None => l end.

(** [release()]: a proxy without a pool has no slot to release. *)
Definition release (p : connection_proxy) (l : list connection_context) : res (option C * connection_proxy * list connection_context) :=
  match pool_ p, index_ p with
  | true, Some i => Ok (conn_ p, mkProxy (pool_ p) None (index_ p), release_connection i l)
  | _, _ => Throw Eundef
  end.

(** ** The pool and its threads *)

(** Where a call of [get_connection] is: it looks at a slot, has locked it, has set it in use. *)
Inductive tstate : Type :=
| Scan (i : nat)
| Locked (i : nat)
| Claimed (i : nat).

(** The slots, the calls of [get_connection] that run, and the proxies there are. *)
Record state : Type := mkState {
  conn_ctxs_ : list connection_context;
  threads : gmap nat tstate;
  proxies : gmap nat connection_proxy
}.

Definition next_slot (s : state) (i : nat) : nat := ((i + 1) mod length (conn_ctxs_ s))%nat.

Definition set_thread (t : nat) (x : tstate) (s : state) : state := mkState (conn_ctxs_ s) (<[t:=x]> (threads s)) (proxies s).
Definition set_slot (i : nat) (x : connection_context) (s : state) : state := mkState (<[i:=x]> (conn_ctxs_ s)) (threads s) (proxies s).

Inductive step : state -> state -> Prop :=
| s_call s t : threads s !! t = None -> step s (set_thread t (Scan 0) s)
(** [try_lock] fails, which it may do without a reason. *)
| s_skip s t i : threads s !! t = Some (Scan i) -> step s (set_thread t (Scan (next_slot s i)) s)
| s_lock s t i x : threads s !! t = Some (Scan i) -> conn_ctxs_ s !! i = Some x -> mutex x = None ->
    step s (set_thread t (Locked i) (set_slot i (with_mutex (Some t) x) s))
| s_used s t i x : threads s !! t = Some (Locked i) -> conn_ctxs_ s !! i = Some x -> in_use x = true ->
    step s (set_thread t (Scan (next_slot s i)) (set_slot i (with_mutex None x) s))
| s_claim s t i x : threads s !! t = Some (Locked i) -> conn_ctxs_ s !! i = Some x -> in_use x = false ->
    step s (set_thread t (Claimed i) (set_slot i (with_in_use true x) s))
| s_get s t i x a c x' v : threads s !! t = Some (Claimed i) -> conn_ctxs_ s !! i = Some x -> take_connection a x = (Ok c, x') -> proxies s !! v = None ->
    step s (mkState (<[i:=with_mutex None x']> (conn_ctxs_ s)) (delete t (threads s)) (<[v:=mkProxy true (Some c) (Some i)]> (proxies s)))
(** The exception leaves the slot in use. *)
| s_throw s t i x a e x' : threads s !! t = Some (Claimed i) -> conn_ctxs_ s !! i = Some x -> take_connection a x = (Throw e, x') ->
    step s (mkState (<[i:=with_mutex None x']> (conn_ctxs_ s)) (delete t (threads s)) (proxies s))
| s_default s v : proxies s !! v = None -> step s (mkState (conn_ctxs_ s) (threads s) (<[v:=default_proxy]> (proxies s)))
| s_move s v w p : proxies s !! v = None -> proxies s !! w = Some p ->
    step s (mkState (conn_ctxs_ s) (threads s) (<[v:=p]> (<[w:=default_proxy]> (proxies s))))
(** Assignment from [w], which may be [v] itself; what [v] held is not given back. *)
| s_assign s v w p q : proxies s !! v = Some q -> proxies s !! w = Some p ->
    step s (mkState (conn_ctxs_ s) (threads s) (<[w:=default_proxy]> (<[v:=p]> (proxies s))))
| s_destroy s v p : proxies s !! v = Some p -> step s (mkState (destroy p (conn_ctxs_ s)) (threads s) (delete v (proxies s)))
| s_release s v p c p' l : proxies s !! v = Some p -> release p (conn_ctxs_ s) = Ok (c, p', l) ->
    step s (mkState l (threads s) (<[v:=p']> (proxies s))).

(** ** The constructor *)

Definition new_ctx : connection_context := mkCtx None false false None 0 [] 0 0.

(** A task of the constructor makes the connection of slot [i], unless an error is known. The
    two flags are the errors; an exception of the authentication ends the process. *)
Definition init_task (a : answers) (i : nat) : M (list connection_context * (bool * bool)) unit := fun s =>
  let '(l, (connect_error, login_error)) := s in
  if connect_error || login_error then (Ok tt, s)
  else
    match l !! i with
    | None => (Throw Eundef, s)
    | Some x =>
        let '(r, (x, flags)) := create_connection a (fun f => (Ok tt, (true, snd f))) (fun f => (Ok tt, (fst f, true))) (x, (connect_error, login_error)) in
        (match r with Ok _ => Ok tt | Throw _ => Throw Eundef end, (<[i:=x]> l, flags))
    end.

(** The tasks run in the order of [order]; [a] answers for each slot. The time the resources
    were last modified is read through the first connection. *)
Definition connection_pool (size : Z) (a : nat -> answers) (order : list nat) : res (list connection_context) :=
  if size <? 1 then Throw (Eirods SYS_INVALID_INPUT_PARAM)
  else if match number_of_retrievals_before_connection_refresh options with Some n => n <=? 0 | None => false end then Throw (Eirods SYS_INVALID_INPUT_PARAM)
  else if match number_of_seconds_before_connection_refresh options with Some n => n <=? 0 | None => false end then Throw (Eirods SYS_INVALID_INPUT_PARAM)
  else
    let l := replicate (Z.to_nat size) new_ctx in
    let '(r, (x, _)) := create_connection (a 0%nat) (throw (Eirods USER_SOCK_CONNECT_ERR)) (throw (Eirods AUTHENTICATION_ERROR)) (new_ctx, tt) in
    match r with
    | Throw e => Throw e
    | Ok _ =>
        let l := <[0%nat:=x]> l in
        l ← (if refresh_connections_when_resource_changes_detected options then
               '(n, front) ← resources (a 0%nat);
               latest ← (if 0 <? n then '(secs, millis) ← front; mret (secs ++ lit "." ++ millis) else mret []);
               mret (map (with_resc n latest) l)
             else mret l);
        if size =? 1 then mret l
        else
          match for_each (fun i => init_task (a i) i) order (l, (false, false)) with
          | (Throw e, _) => Throw e
          | (Ok _, (l, (connect_error, login_error))) =>
              if connect_error : bool then Throw (Eirods USER_SOCK_CONNECT_ERR)
              else if login_error : bool then Throw (Eirods AUTHENTICATION_ERROR)
              else mret l
          end
    end.

End pool.

(** ** What a pool keeps *)

Section invariant.
Context {C : Type} (options : connection_pool_options).
Abbreviation state := (@state C).
Abbreviation step := (@step C options).
Implicit Types (x : @connection_context C) (a : @answers C).

(** A slot belongs to the call that has claimed it or to a proxy. *)
Inductive owner : Type :=
| Call (t : nat)
| Proxy (v : nat).

Definition owns (s : state) (o : owner) (i : nat) : Prop :=
  match o with
  | Call t => threads s !! t = Some (Claimed i)
  | Proxy v => exists p, proxies s !! v = Some p /\ pool_ p = true /\ index_ p = Some i
  end.

Definition has_lock (s : state) (t i : nat) : Prop := threads s !! t = Some (Locked i) \/ threads s !! t = Some (Claimed i).

(** The connection of a proxy is that of its slot. *)
Definition serves (l : list (@connection_context C)) (p : @connection_proxy C) (c : C) : Prop :=
  exists i x, pool_ p = true /\ index_ p = Some i /\ l !! i = Some x /\ conn x = Some c.

Record pool_ok (s : state) : Prop := PoolOk {
  po_one : forall o o' i, owns s o i -> owns s o' i -> o = o';
  po_used : forall o i, owns s o i -> exists x, conn_ctxs_ s !! i = Some x /\ in_use x = true;
  po_lock : forall t i, has_lock s t i -> exists x, conn_ctxs_ s !! i = Some x /\ mutex x = Some t;
  po_conn : forall v p c, proxies s !! v = Some p -> conn_ p = Some c -> serves (conn_ctxs_ s) p c;
  po_count : forall n i x, number_of_retrievals_before_connection_refresh options = Some n -> conn_ctxs_ s !! i = Some x -> 0 <= retrieval_count x <= n
}.

(** *** What a call does to its slot *)

Lemma create_keeps {S} a (e1 e2 : M S unit) x st r x' st' : create_connection options a e1 e2 (x, st) = (r, (x', st')) ->
  mutex x' = mutex x /\ in_use x' = in_use x /\ conn x' = rcConnect a /\
  (is_Some (number_of_retrievals_before_connection_refresh options) -> retrieval_count x' = 0).
Proof.
  unfold create_connection. intros H.
  set (x1 := if number_of_retrievals_before_connection_refresh options is Some _ then _ else _) in H.
  assert (mutex x1 = mutex x /\ in_use x1 = in_use x /\
    (is_Some (number_of_retrievals_before_connection_refresh options) -> retrieval_count x1 = 0)) as (A1 & A2 & A3).
  { unfold x1. destruct (number_of_retrievals_before_connection_refresh options), (number_of_seconds_before_connection_refresh options); cbn;
      repeat split; auto; by intros [? ?]. }
  clearbody x1. cbn in H. assert (forall x2, x2 = with_conn (rcConnect a) x1 -> mutex x2 = mutex x /\ in_use x2 = in_use x /\ conn x2 = rcConnect a /\
    (is_Some (number_of_retrievals_before_connection_refresh options) -> retrieval_count x2 = 0)) as Hx by (by intros ? ->). destruct (rcConnect a) as [c|]; [destruct (auth_func a); [|destruct (negb _)]|]; try destruct (_ st) as [? ?]; simplify_eq; by apply Hx.
Qed.

Lemma resources_keeps a x r x' : resources_in_sync a x = (r, x') ->
  mutex x' = mutex x /\ in_use x' = in_use x /\ conn x' = conn x /\ retrieval_count x' = retrieval_count x.
Proof. unfold resources_in_sync. intros H. repeat case_match; simplify_eq; done. Qed.

Lemma verify_keeps a x b x' : verify_connection options a x = (b, x') ->
  mutex x' = mutex x /\ in_use x' = in_use x /\ conn x' = conn x /\ retrieval_count x' = retrieval_count x /\
  (b = true -> is_Some (conn x) /\ match number_of_retrievals_before_connection_refresh options with Some n => retrieval_count x < n | None => True end).
Proof.
  unfold verify_connection. intros H. destruct (conn x) eqn:Ec; [|by simplify_eq].
  destruct (match number_of_retrievals_before_connection_refresh options with Some n => n <=? retrieval_count x | None => false end) eqn:En; [by simplify_eq|].
  assert (match number_of_retrievals_before_connection_refresh options with Some n => retrieval_count x < n | None => True end) as Hn.
  { destruct (number_of_retrievals_before_connection_refresh options); [|done]. by apply Z.leb_gt. }
  destruct (match number_of_seconds_before_connection_refresh options with Some _ => _ | None => false end); [by simplify_eq|].
  destruct (refresh_connections_when_resource_changes_detected options).
  - destruct (resources_in_sync a x) as [r x1] eqn:Er. apply resources_keeps in Er as (E1 & E2 & E3 & E4). simplify_eq. rewrite E3, Ec. by repeat split; auto.
  - destruct (zone a); simplify_eq; by repeat split; auto.
Qed.

(** A connection that is handed out is that of the slot, and it was handed out less than the
    number of times that is allowed, or is new. *)
Lemma take_keeps a x r x' : take_connection options a x = (r, x') ->
  mutex x' = mutex x /\ in_use x' = in_use x /\ (forall c, r = Ok c -> conn x' = Some c) /\
  (forall n, number_of_retrievals_before_connection_refresh options = Some n -> 0 < n -> 0 <= retrieval_count x <= n -> 0 <= retrieval_count x' <= n).
Proof.
  unfold take_connection, refresh_connection. intros H.
  set (x0 := if refresh x then with_refresh false x else x) in H.
  assert (mutex x0 = mutex x /\ in_use x0 = in_use x /\ retrieval_count x0 = retrieval_count x) as (A1 & A2 & A3) by (unfold x0; by destruct (refresh x)).
  clearbody x0. destruct (verify_connection options a x0) as [b x1] eqn:Ev. apply verify_keeps in Ev as (B1 & B2 & B3 & B4 & B5).
  rewrite <- A1, <- A2, <- B1, <- B2. clear A1 A2 B1 B2. rewrite <- A3, <- B4 in *. clear A3. destruct b.
  - destruct (B5 eq_refl) as [[c Ec] Hn]. rewrite B3, Ec in H. simplify_eq. destruct (number_of_retrievals_before_connection_refresh options) as [m|]; cbn.
    + rewrite B3, Ec. split; [done|]. split; [done|]. split; [by intros ? [= <-]|]. intros n [= ->]. lia.
    + rewrite B3, Ec. split; [done|]. split; [done|]. split; [by intros ? [= <-]|done].
  - destruct (create_connection options a _ _ (x1, tt)) as [r1 [x2 st]] eqn:Ek. apply create_keeps in Ek as (C1 & C2 & C3 & C4).
    rewrite <- C1, <- C2. assert (forall n, number_of_retrievals_before_connection_refresh options = Some n -> retrieval_count x2 = 0) as C5 by eauto.
    destruct r1; [destruct (conn x2) as [c|] eqn:Ec|]; simplify_eq.
    + destruct (number_of_retrievals_before_connection_refresh options) as [m|]; cbn; rewrite ?Ec.
      * split; [done|]. split; [done|]. split; [by intros ? [= <-]|]. intros n [= ->]. rewrite (C5 n eq_refl). lia.
      * split; [done|]. split; [done|]. split; [by intros ? [= <-]|done].
    + split; [done|]. split; [done|]. split; [done|]. intros n Hn. rewrite (C5 n Hn). lia.
    + split; [done|]. split; [done|]. split; [done|]. intros n Hn. rewrite (C5 n Hn). lia.
Qed.


(** The count of a connection that is handed out. *)
Lemma take_count a x c x' n : number_of_retrievals_before_connection_refresh options = Some n -> 0 < n -> 0 <= retrieval_count x <= n ->
  take_connection options a x = (Ok c, x') ->
  1 <= retrieval_count x' <= n /\ (retrieval_count x = n -> rcConnect a = Some c /\ retrieval_count x' = 1).
Proof.
  unfold take_connection, refresh_connection. intros Hn Hpos Hx H. rewrite Hn in H.
  set (x0 := if refresh x then with_refresh false x else x) in H.
  assert (retrieval_count x0 = retrieval_count x) as A by (unfold x0; by destruct (refresh x)). rewrite <- A in *. clearbody x0. clear A x.
  destruct (verify_connection options a x0) as [b x1] eqn:Ev. apply verify_keeps in Ev as (_ & _ & B3 & B4 & B5). rewrite <- B4 in *. destruct b.
  - destruct (B5 eq_refl) as [[d Ec] Hlt]. rewrite Hn in Hlt. rewrite B3, Ec in H. simplify_eq. cbn. lia.
  - destruct (create_connection options a _ _ (x1, tt)) as [r1 [x2 st]] eqn:Ek. apply create_keeps in Ek as (_ & _ & C3 & C4). rewrite Hn in C4.
    destruct r1; [|done]. destruct (conn x2) as [d|] eqn:Ec; simplify_eq. cbn. rewrite (C4 ltac:(by eexists)). split; [lia|]. intros _. split; [congruence|lia].
Qed.
(** *** Every step keeps the invariant *)

Hypothesis options_positive : forall n, number_of_retrievals_before_connection_refresh options = Some n -> 0 < n.

(** Lookups in the parts of a state that a step writes. *)
Ltac lookups := repeat match goal with
  | H : <[_:=_]> (_ _) !! _ = Some _ |- _ => apply lookup_insert_Some in H as [[? ?]|[? ?]]; simplify_eq
  | H : <[_:=_]> (<[_:=_]> _) !! _ = Some _ |- _ => apply lookup_insert_Some in H as [[? ?]|[? ?]]; simplify_eq
  | H : delete _ _ !! _ = Some _ |- _ => apply lookup_delete_Some in H as [? ?]
  | H : <[_:=_]> _ !! _ = Some _ |- _ => apply list_lookup_insert_Some in H as [(? & ? & ?)|[? ?]]; simplify_eq
  | H : _ /\ _ |- _ => destruct H
  | H : exists _, _ |- _ => destruct H
  end.

Ltac owners := match goal with H : owns _ ?o _ |- _ => destruct o; cbn in H; lookups end.

Section facts.
Context (s : state) (s_ok : pool_ok s).

Lemma claim_used t i x : threads s !! t = Some (Claimed i) -> conn_ctxs_ s !! i = Some x -> in_use x = true.
Proof using s_ok. intros Ht Hx. destruct (po_used _ s_ok (Call t) i Ht) as (y & Hy & ?). by simplify_eq. Qed.

Lemma proxy_used v p i x : proxies s !! v = Some p -> pool_ p = true -> index_ p = Some i -> conn_ctxs_ s !! i = Some x -> in_use x = true.
Proof using s_ok. intros Hv H1 H2 Hx. destruct (po_used _ s_ok (Proxy v) i) as (y & Hy & ?); [by exists p|]. by simplify_eq. Qed.

Lemma claims_one t t' i : threads s !! t = Some (Claimed i) -> threads s !! t' = Some (Claimed i) -> t = t'.
Proof using s_ok. intros H H'. by injection (po_one _ s_ok (Call t) (Call t') i H H'). Qed.

Lemma claim_no_proxy t i v p : threads s !! t = Some (Claimed i) -> proxies s !! v = Some p -> pool_ p = true -> index_ p = Some i -> False.
Proof using s_ok. intros H Hv H1 H2. assert (owns s (Proxy v) i) as Hp by (by exists p). by pose proof (po_one _ s_ok (Call t) (Proxy v) i H Hp). Qed.

Lemma proxies_one v v' p p' i : proxies s !! v = Some p -> pool_ p = true -> index_ p = Some i ->
  proxies s !! v' = Some p' -> pool_ p' = true -> index_ p' = Some i -> v = v'.
Proof using s_ok.
  intros H H1 H2 H' H1' H2'. assert (owns s (Proxy v) i) as Hp by (by exists p). assert (owns s (Proxy v') i) as Hp' by (by exists p').
  by injection (po_one _ s_ok _ _ i Hp Hp').
Qed.

Lemma lock_one t t' i : has_lock s t i -> has_lock s t' i -> t = t'.
Proof using s_ok. intros H H'. destruct (po_lock _ s_ok _ _ H) as (x & Hx & ?), (po_lock _ s_ok _ _ H') as (x' & Hx' & ?). by simplify_eq. Qed.

End facts.

Lemma release_spec p l c p' l' : release p l = Ok (c, p', l') -> exists i, pool_ p = true /\ index_ p = Some i /\ c = conn_ p /\
  p' = mkProxy true None (Some i) /\ l' = @release_connection C i l.
Proof using. unfold release. destruct (pool_ p) eqn:E, (index_ p) as [i|] eqn:E2; try done. intros [= <- <- <-]. eauto 6. Qed.

(** The cases of a step, with what a release does. *)
Ltac step_cases Hs := destruct Hs;
  try match goal with H : release _ _ = Ok _ |- _ => apply release_spec in H as (? & ? & ? & ? & ? & ?); subst end;
  repeat owners; cbn in *; simplify_eq; try done.

Ltac conflict P := exfalso; match goal with
  | H : in_use ?x = false |- _ => assert (in_use x = true); [by eauto using claim_used, proxy_used|congruence]
  | H : threads _ !! _ = Some (Claimed _), H' : proxies _ !! _ = Some _ |- _ => eapply (claim_no_proxy _ P); eassumption
  | H : ?a <> ?b |- _ => solve [apply H; eauto using claims_one, proxies_one | apply H; symmetry; eauto using claims_one, proxies_one]
  end.

Lemma step_one s s' : pool_ok s -> step s s' -> forall o o' i, owns s' o i -> owns s' o' i -> o = o'.
Proof using.
  intros P Hs o o' j Ho Ho'. step_cases Hs.
  all: try (f_equal; eauto using claims_one, proxies_one; fail).
  all: conflict P.
Qed.

Lemma destroy_lookup p l i (x : @connection_context C) : destroy p l !! i = Some x -> exists y, l !! i = Some y /\
  (x = y \/ pool_ p = true /\ index_ p = Some i /\ x = with_in_use false y).
Proof using.
  unfold destroy, return_connection. destruct (index_ p) as [k|] eqn:E; [destruct (pool_ p) eqn:E2|]; eauto.
  destruct (decide (k = i)) as [->|Hk]; [rewrite list_lookup_alter_eq|rewrite list_lookup_alter_ne by done; eauto].
  intros (y & Hy & ->)%fmap_Some. eauto 7.
Qed.

Lemma destroy_lookup_same p l i (x : @connection_context C) : l !! i = Some x -> (pool_ p = true -> index_ p = Some i -> False) -> destroy p l !! i = Some x.
Proof using.
  intros H Hn. unfold destroy, return_connection. destruct (index_ p) as [k|]; [destruct (pool_ p)|]; try done.
  destruct (decide (k = i)) as [->|Hk]; [by destruct Hn|by rewrite list_lookup_alter_ne].
Qed.

Lemma release_lookup l i k (x : @connection_context C) : l !! i = Some x ->
  release_connection k l !! i = Some (if decide (k = i) then with_conn None (with_refresh true x) else x).
Proof using.
  intros H. unfold release_connection. destruct (decide (k = i)) as [->|Hk]; [by rewrite list_lookup_alter_eq, H|by rewrite list_lookup_alter_ne].
Qed.

(** A slot that is written is still in use if it was. *)
Lemma insert_used (l : list (@connection_context C)) i k x' : (exists y, l !! k = Some y /\ in_use y = true) -> (k = i -> in_use x' = true) ->
  exists z, <[i:=x']> l !! k = Some z /\ in_use z = true.
Proof using.
  intros (y & Hy & Hu) Hx'. destruct (decide (i = k)) as [->|Hk].
  - exists x'. rewrite list_lookup_insert_eq by (by eapply lookup_lt_Some). auto.
  - exists y. by rewrite list_lookup_insert_ne.
Qed.

Lemma destroy_used p (l : list (@connection_context C)) i : (exists x, l !! i = Some x /\ in_use x = true) -> (pool_ p = true -> index_ p = Some i -> False) ->
  exists x, destroy p l !! i = Some x /\ in_use x = true.
Proof using. intros (x & Hx & Hu) Hn. exists x. split; [by apply destroy_lookup_same|done]. Qed.

Lemma release_used k (l : list (@connection_context C)) i : (exists x, l !! i = Some x /\ in_use x = true) ->
  exists x, release_connection k l !! i = Some x /\ in_use x = true.
Proof using. intros (x & Hx & Hu). eexists. split; [by apply release_lookup|]. by destruct (decide _). Qed.

Lemma step_used s s' : pool_ok s -> step s s' -> forall o i, owns s' o i -> exists x, conn_ctxs_ s' !! i = Some x /\ in_use x = true.
Proof using.
  intros P Hs o j Ho. pose proof (po_used _ P) as HU.
  assert (forall v p, proxies s !! v = Some p -> pool_ p = true -> index_ p = Some j -> exists x, conn_ctxs_ s !! j = Some x /\ in_use x = true) as HP.
  { intros v p H1 H2 H3. apply (HU (Proxy v)). by exists p. }
  pose proof (fun t => HU (Call t) j) as HC. cbn in HC. step_cases Hs.
  all: try match goal with H : take_connection _ _ _ = _ |- _ => apply take_keeps in H as (_ & HT & _) end.
  all: try (by eauto).
  all: try (eexists; rewrite list_lookup_insert_eq by (by eapply lookup_lt_Some); split; [reflexivity|cbn; rewrite ?HT; eauto using claim_used]; fail).
  all: try (apply insert_used; [by eauto|intros ->; cbn; rewrite ?HT; by eauto using claim_used, proxy_used]).
  all: try (apply release_used; by eauto).
  all: apply destroy_used; [by eauto|intros; conflict P].
Qed.

Lemma insert_lock (l : list (@connection_context C)) i k x' t : (exists y, l !! k = Some y /\ mutex y = Some t) -> (k = i -> mutex x' = Some t) ->
  exists z, <[i:=x']> l !! k = Some z /\ mutex z = Some t.
Proof using.
  intros (y & Hy & Hu) Hx'. destruct (decide (i = k)) as [->|Hk].
  - exists x'. rewrite list_lookup_insert_eq by (by eapply lookup_lt_Some). auto.
  - exists y. by rewrite list_lookup_insert_ne.
Qed.

Lemma destroy_mutex p (l : list (@connection_context C)) i t : (exists y, l !! i = Some y /\ mutex y = Some t) -> exists y, destroy p l !! i = Some y /\ mutex y = Some t.
Proof using.
  intros (y & Hy & Hm). unfold destroy, return_connection. destruct (index_ p) as [k|]; [destruct (pool_ p)|]; eauto.
  destruct (decide (k = i)) as [->|Hk]; [rewrite list_lookup_alter_eq, Hy|rewrite list_lookup_alter_ne by done]; eauto.
Qed.

Lemma release_mutex k (l : list (@connection_context C)) i t : (exists y, l !! i = Some y /\ mutex y = Some t) -> exists y, release_connection k l !! i = Some y /\ mutex y = Some t.
Proof using. intros (y & Hy & Hm). eexists. split; [by apply release_lookup|]. by destruct (decide _). Qed.

Lemma lock_mutex s t i x : pool_ok s -> has_lock s t i -> conn_ctxs_ s !! i = Some x -> mutex x = Some t.
Proof using. intros P H Hx. destruct (po_lock _ P _ _ H) as (y & Hy & ?). by simplify_eq. Qed.

Lemma step_lock s s' : pool_ok s -> step s s' -> forall t i, has_lock s' t i -> exists x, conn_ctxs_ s' !! i = Some x /\ mutex x = Some t.
Proof using.
  intros P Hs t j Ho. pose proof (po_lock _ P) as HL.
  destruct Hs; try match goal with H : release _ _ = Ok _ |- _ => apply release_spec in H as (? & ? & ? & ? & ? & ?); subst end.
  all: unfold has_lock in Ho; cbn in *; destruct Ho; lookups; try done; try (by unfold has_lock in *; eauto using destroy_mutex, release_mutex).
  all: try (eexists; rewrite list_lookup_insert_eq by (by eapply lookup_lt_Some); split; [reflexivity|cbn; first [done|by (eapply lock_mutex; [done|left|])]]; fail).
  all: apply insert_lock; [by unfold has_lock in *; eauto|intros ->; exfalso].
  all: match goal with Hx : conn_ctxs_ ?s !! ?i = Some ?x, Ht : threads ?s !! ?t = Some (_ ?i), _ : ?u <> ?t |- _ => assert (has_lock s t i) as HT by (unfold has_lock; auto); pose proof (lock_mutex _ _ _ _ P HT Hx) end; try congruence.
  all: match goal with H : threads _ !! ?u = Some (_ ?i), H' : ?u <> ?t |- _ => apply H', (lock_one _ P u t i); unfold has_lock in *; auto end.
Qed.

Lemma serves_insert l i x' p c : serves l p c -> (forall x, l !! i = Some x -> index_ p = Some i -> conn x' = conn x) -> serves (<[i:=x']> l) p c.
Proof using.
  intros (k & x & H1 & H2 & H3 & H4) Hx. destruct (decide (i = k)) as [->|Hk].
  - exists k, x'. rewrite list_lookup_insert_eq by (by eapply lookup_lt_Some). by rewrite (Hx x H3 H2).
  - exists k, x. by rewrite list_lookup_insert_ne.
Qed.

Lemma serves_destroy l q p c : serves l p c -> serves (destroy q l) p c.
Proof using.
  intros (k & x & H1 & H2 & H3 & H4). unfold destroy, return_connection. destruct (index_ q) as [j|]; [destruct (pool_ q)|]; try (by exists k, x).
  destruct (decide (j = k)) as [->|Hk]; [exists k, (with_in_use false x); by rewrite list_lookup_alter_eq, H3|exists k, x; by rewrite list_lookup_alter_ne].
Qed.

Lemma serves_release l j p c : serves l p c -> index_ p <> Some j -> serves (release_connection j l) p c.
Proof using.
  intros (k & x & H1 & H2 & H3 & H4) Hj. exists k, x. split; [done|]. split; [done|]. rewrite (release_lookup _ _ _ _ H3). by destruct (decide (j = k)) as [->|].
Qed.

Lemma serves_new l i x' p c : is_Some (l !! i) -> pool_ p = true -> index_ p = Some i -> conn x' = Some c -> serves (<[i:=x']> l) p c.
Proof using. intros [y Hy] H1 H2 H3. exists i, x'. by rewrite list_lookup_insert_eq by (by eapply lookup_lt_Some). Qed.

Lemma step_conn s s' : pool_ok s -> step s s' -> forall v p c, proxies s' !! v = Some p -> conn_ p = Some c -> serves (conn_ctxs_ s') p c.
Proof using.
  intros P Hs v p c Hv Hc. pose proof (po_conn _ P) as HK.
  assert (forall v p c i, proxies s !! v = Some p -> conn_ p = Some c -> index_ p = Some i -> pool_ p = true) as HP.
  { intros v' p' c' i H H' _. by destruct (HK _ _ _ H H') as (? & ? & ? & _). }
  destruct Hs; try match goal with H : release _ _ = Ok _ |- _ => apply release_spec in H as (? & ? & ? & ? & ? & ?); subst end.
  all: cbn in *; lookups; cbn in *; simplify_eq; try done; try (by eauto using serves_destroy).
  all: try match goal with H : take_connection _ _ _ = _ |- _ => apply take_keeps in H as (_ & _ & HT & _) end.
  all: try (apply serves_new; cbn; eauto; fail).
  all: try (apply serves_insert; [by eauto|cbn; intros; by simplify_eq]).
  all: try (apply serves_insert; [by eauto|intros; exfalso; eapply (claim_no_proxy _ P); by eauto]).
  all: apply serves_release; [by eauto|intros ?]; match goal with H : ?a <> ?b |- _ => apply H; eapply (proxies_one _ P); by eauto end.
Qed.

Lemma release_inv (l : list (@connection_context C)) k i x : release_connection k l !! i = Some x -> exists z, l !! i = Some z /\ retrieval_count x = retrieval_count z.
Proof using.
  intros H. destruct (l !! i) as [z|] eqn:E.
  2:{ apply lookup_lt_Some in H. unfold release_connection in H. rewrite length_alter in H. apply lookup_ge_None in E. lia. }
  exists z. split; [done|]. rewrite (release_lookup _ _ k _ E) in H. by destruct (decide _); simplify_eq.
Qed.

Lemma step_count s s' : pool_ok s -> step s s' -> forall n i x, number_of_retrievals_before_connection_refresh options = Some n ->
  conn_ctxs_ s' !! i = Some x -> 0 <= retrieval_count x <= n.
Proof using options_positive.
  intros P Hs n j y Hn Hy. pose proof (po_count _ P n) as HK. specialize (options_positive n Hn).
  destruct Hs; try match goal with H : release _ _ = Ok _ |- _ => apply release_spec in H as (? & ? & ? & ? & ? & ?); subst end.
  all: cbn in *; lookups; cbn in *; simplify_eq; try (by eauto).
  all: try match goal with H : take_connection _ _ _ = _ |- _ => apply take_keeps in H as (_ & _ & _ & HT) end; try (by eauto).
  - apply destroy_lookup in Hy as (z & Hz & [->|(_ & _ & ->)]); cbn; by eapply HK.
  - apply release_inv in Hy as (z & Hz & ->). by eapply HK.
Qed.
Lemma step_ok s s' : pool_ok s -> step s s' -> pool_ok s'.
Proof using options_positive.
  intros P Hs. split; [by eapply step_one|by eapply step_used|by eapply step_lock|by eapply step_conn|by eapply step_count].
Qed.

Lemma steps_ok s s' : pool_ok s -> rtc step s s' -> pool_ok s'.
Proof using options_positive. intros P Hs. revert P. induction Hs; eauto using step_ok. Qed.

(** *** Slots that are lost *)

(** A slot in use that belongs to nobody. *)
Definition lost (s : state) (i : nat) : Prop := (exists x, conn_ctxs_ s !! i = Some x /\ in_use x = true) /\ forall o, ~ owns s o i.

Lemma lost_step s s' i : lost s i -> step s s' -> lost s' i.
Proof using.
  intros [HU HN] Hs. assert (forall v p, proxies s !! v = Some p -> pool_ p = true -> index_ p = Some i -> False) as HP.
  { intros v p H1 H2 H3. apply (HN (Proxy v)). by exists p. }
  assert (forall t, threads s !! t = Some (Claimed i) -> False) as HC by (intros t; apply (HN (Call t))).
  assert (forall x, conn_ctxs_ s !! i = Some x -> in_use x = true) as HX by (destruct HU as (y & Hy & ?); intros; by simplify_eq).
  split.
  - destruct Hs; try match goal with H : release _ _ = Ok _ |- _ => apply release_spec in H as (? & ? & ? & ? & ? & ?); subst end; cbn in *; try done.
    all: try (by apply release_used).
    all: try (apply destroy_used; by eauto).
    all: try match goal with H : take_connection _ _ _ = _ |- _ => apply take_keeps in H as (_ & HT & _) end.
    all: apply insert_used; [done|intros ->; cbn; rewrite ?HT; by eauto].
  - intros o Ho. step_cases Hs; try (by eauto). by match goal with H : in_use ?x = false, H' : _ !! _ = Some ?x |- _ => rewrite (HX _ H') in H end.
Qed.

Lemma throw_lost s t i x a e x' : pool_ok s -> threads s !! t = Some (Claimed i) -> conn_ctxs_ s !! i = Some x -> take_connection options a x = (Throw e, x') ->
  lost (mkState (<[i:=with_mutex None x']> (conn_ctxs_ s)) (delete t (threads s)) (proxies s)) i.
Proof using.
  intros P Ht Hx Ha. apply take_keeps in Ha as (_ & HT & _). split.
  - cbn. exists (with_mutex None x'). rewrite list_lookup_insert_eq by (by eapply lookup_lt_Some). split; [done|]. cbn. rewrite HT. by eapply (claim_used s P).
  - intros [u|v]; cbn.
    + intros [Hu Hu']%lookup_delete_Some. by apply Hu, (claims_one s P t u i).
    + intros (p & Hp & H1 & H2). by eapply (claim_no_proxy s P).
Qed.

(** *** A new pool *)

Lemma init_task_count a i l f r l' f' : (forall n j x, number_of_retrievals_before_connection_refresh options = Some n -> l !! j = Some x -> retrieval_count x = 0) ->
  init_task options a i (l, f) = (r, (l', f')) ->
  forall n j x, number_of_retrievals_before_connection_refresh options = Some n -> l' !! j = Some x -> retrieval_count x = 0.
Proof using.
  intros H E n j x Hn Hx. unfold init_task in E. destruct f as [ce le]. destruct (ce || le); [simplify_eq; by eauto|].
  destruct (l !! i) as [y|] eqn:Ey; [|simplify_eq; by eauto]. destruct (create_connection options a _ _ _) as [r1 [x1 f1]] eqn:Ec. apply create_keeps in Ec as (_ & _ & _ & HC).
  assert (l' = <[i:=x1]> l) as -> by (by destruct r1; simplify_eq). apply list_lookup_insert_Some in Hx as [(-> & -> & _)|[_ Hx]]; [apply HC; by eexists|by eauto].
Qed.

Lemma init_tasks_count (a : nat -> @answers C) order : forall l f r l' f', (forall n j x, number_of_retrievals_before_connection_refresh options = Some n -> l !! j = Some x -> retrieval_count x = 0) ->
  for_each (fun i => init_task options (a i) i) order (l, f) = (r, (l', f')) ->
  forall n j x, number_of_retrievals_before_connection_refresh options = Some n -> l' !! j = Some x -> retrieval_count x = 0.
Proof using.
  induction order as [|i order IH]; intros l f r l' f' H E; cbn in E.
  - unfold mret, M_ret in E. simplify_eq. exact H.
  - unfold mbind, M_bind in E. destruct (init_task options (a i) i (l, f)) as [r1 [l1 f1]] eqn:E1. pose proof (init_task_count _ _ _ _ _ _ _ H E1) as H1.
    destruct r1; [by eapply IH|]. simplify_eq. exact H1.
Qed.

Lemma unowned l o i : ~ owns (mkState l ∅ ∅) o i.
Proof using. destruct o; cbn; [by rewrite lookup_empty|intros (p & Hp & _); by rewrite lookup_empty in Hp]. Qed.

Lemma new_pool_ok size (a : nat -> @answers C) order l : connection_pool options size a order = Ok l -> pool_ok (mkState l ∅ ∅).
Proof using options_positive.
  intros E. split; cbn.
  - intros o o' i Ho. by apply unowned in Ho.
  - intros o i Ho. by apply unowned in Ho.
  - intros t i [H|H]; cbn in H; by rewrite lookup_empty in H.
  - intros v p c Hp. by rewrite lookup_empty in Hp.
  - intros n i x Hn Hx. enough (retrieval_count x = 0) as -> by (specialize (options_positive n Hn); lia). revert n i x Hn Hx.
    unfold connection_pool in E. destruct (size <? 1); [done|]. destruct (match number_of_retrievals_before_connection_refresh options with Some n => n <=? 0 | None => false end); [done|].
    destruct (match number_of_seconds_before_connection_refresh options with Some n => n <=? 0 | None => false end); [done|].
    destruct (create_connection options (a 0%nat) _ _ _) as [r [x0 st]] eqn:Ec. apply create_keeps in Ec as (_ & _ & _ & HC). destruct r; [|done].
    set (l0 := <[0%nat:=x0]> (replicate (Z.to_nat size) new_ctx)) in *.
    assert (forall n j x, number_of_retrievals_before_connection_refresh options = Some n -> l0 !! j = Some x -> retrieval_count x = 0) as H0.
    { intros n j x Hn Hx. apply list_lookup_insert_Some in Hx as [(<- & <- & _)|[_ Hx]]; [apply HC; by eexists|]. by apply lookup_replicate in Hx as [-> _]. }
    clearbody l0. destruct (if refresh_connections_when_resource_changes_detected options then _ else _) as [l1|] eqn:E1; [|done]. cbn in E.
    assert (forall n j x, number_of_retrievals_before_connection_refresh options = Some n -> l1 !! j = Some x -> retrieval_count x = 0) as H1.
    { destruct (refresh_connections_when_resource_changes_detected options); [|injection E1 as <-; exact H0]. destruct (resources (a 0%nat)) as [[k front]|]; [|done]. cbn in E1.
      destruct (if 0 <? k then _ else _) as [m|] eqn:Em; [|done]. injection E1 as <-.
      intros n j x Hn Hx. apply list_lookup_fmap_Some in Hx as (y & -> & Hx). exact (H0 n j y Hn Hx). }
    destruct (size =? 1); [injection E as <-; exact H1|]. destruct (for_each _ order (l1, (false, false))) as [r2 [l2 [ce le]]] eqn:E2. pose proof (init_tasks_count _ _ _ _ _ _ _ H1 E2) as H2.
    destruct r2; [|done]. destruct ce; [done|]. destruct le; [done|]. injection E as <-. exact H2.
Qed.

End invariant.

(** ** The theorems *)

Section theorems.
Context {C : Type} (options : connection_pool_options).

(** What may happen to a pool after its construction. *)
Definition reachable (s : @state C) : Prop := exists size a order l,
  connection_pool options size a order = Ok l /\ rtc (step options) (mkState l ∅ ∅) s.

Lemma positive_option size (a : nat -> @answers C) order l n : connection_pool options size a order = Ok l ->
  number_of_retrievals_before_connection_refresh options = Some n -> 0 < n.
Proof.
  unfold connection_pool. intros H Hn. rewrite Hn in H. destruct (size <? 1); [done|]. destruct (Z.leb_spec n 0); [done|lia].
Qed.

Lemma reachable_ok s : reachable s -> pool_ok options s.
Proof.
  intros (size & a & order & l & E & Hs). pose proof (positive_option size a order l) as Hp.
  apply (steps_ok options) with (2 := new_pool_ok options ltac:(eauto) size a order l E); eauto.
Qed.

(** C18: a connection is in the hands of one client at a time: however the calls of the
    threads, the moves of proxies and their ends interleave, two proxies with a connection
    have different slots, each has the connection of its slot, and no call works on a slot
    of a proxy or on that of another call. *)
Theorem pool_exclusive (s : @state C) : reachable s ->
  (forall v w p q c d, v <> w -> proxies s !! v = Some p -> proxies s !! w = Some q -> conn_ p = Some c -> conn_ q = Some d -> index_ p <> index_ q) /\
  (forall v p c, proxies s !! v = Some p -> conn_ p = Some c -> exists i x, index_ p = Some i /\ conn_ctxs_ s !! i = Some x /\ in_use x = true /\ conn x = Some c) /\
  (forall t u i, t <> u -> threads s !! t = Some (Claimed i) -> threads s !! u <> Some (Claimed i) /\ threads s !! u <> Some (Locked i)) /\
  (forall t v i p c, threads s !! t = Some (Claimed i) -> proxies s !! v = Some p -> conn_ p = Some c -> index_ p <> Some i).
Proof.
  intros P%reachable_ok. repeat split.
  - intros v w p q c d Hvw Hv Hw Hc Hd E. destruct (po_conn _ _ P _ _ _ Hv Hc) as (i & x & H1 & H2 & _), (po_conn _ _ P _ _ _ Hw Hd) as (j & y & H3 & H4 & _).
    apply Hvw. eapply (proxies_one _ _ P v w p q i); try done. by rewrite <- E.
  - intros v p c Hv Hc. destruct (po_conn _ _ P _ _ _ Hv Hc) as (i & x & H1 & H2 & H3 & H4). exists i, x.
    split; [done|]. split; [done|]. split; [by eapply (proxy_used _ _ P v p i)|done].
  - intros Hu. by eapply H, (lock_one _ _ P t u i); [right|right].
  - intros Hu. by eapply H, (lock_one _ _ P t u i); [right|left].
  - intros t v i p c Ht Hv Hc Hi. destruct (po_conn _ _ P _ _ _ Hv Hc) as (j & x & H1 & _). by eapply (claim_no_proxy _ _ P t i v p).
Qed.

(** C19: with a limit on the number of times a connection is handed out, the count of every
    slot stays within it, also while calls fail: a connection that has reached it is
    replaced before it is handed out again, and the 16 bits of the count are enough. *)
Theorem retrievals_bounded (s : @state C) (n : Z) (i : nat) (x : connection_context) : reachable s ->
  number_of_retrievals_before_connection_refresh options = Some n -> n < 2 ^ 15 -> conn_ctxs_ s !! i = Some x ->
  0 <= retrieval_count x <= n /\ (forall a c x', take_connection options a x = (Ok c, x') ->
    1 <= retrieval_count x' <= n /\ retrieval_count x' < 2 ^ 15 /\ (retrieval_count x = n -> rcConnect a = Some c /\ retrieval_count x' = 1)).
Proof.
  intros R Hn Hw Hx. assert (0 < n) as Hpos by (destruct R as (size & b & order & l & E & _); by eapply (positive_option size b order l)).
  apply reachable_ok in R as P. pose proof (po_count _ _ P n i x Hn Hx) as Hc. split; [done|]. intros a c x' Ha.
  destruct (take_count options a x c x' n Hn Hpos Hc Ha) as [H1 H2]. split; [done|]. split; [lia|done].
Qed.

(** C20: a slot whose connection cannot be refreshed is lost: the exception leaves it in use,
    and whatever happens afterwards it is never free and never handed out again. *)
Theorem failed_slot_is_lost (s : @state C) (t i : nat) (x : connection_context) (a : answers) (e : exn) (x' : connection_context) (s' : state) :
  reachable s -> threads s !! t = Some (Claimed i) -> conn_ctxs_ s !! i = Some x -> take_connection options a x = (Throw e, x') ->
  rtc (step options) (mkState (<[i:=with_mutex None x']> (conn_ctxs_ s)) (delete t (threads s)) (proxies s)) s' ->
  (exists y, conn_ctxs_ s' !! i = Some y /\ in_use y = true) /\ (forall u, threads s' !! u <> Some (Claimed i)) /\
  (forall v p, proxies s' !! v = Some p -> pool_ p = true -> index_ p <> Some i).
Proof.
  intros P%reachable_ok Ht Hx Ha Hs. pose proof (throw_lost options _ _ _ _ _ _ _ P Ht Hx Ha) as HL.
  assert (lost s' i) as [HU HN] by (clear P Ht Hx Ha; induction Hs; eauto using lost_step).
  split; [done|]. split.
  - intros u. apply (HN (Call u)).
  - intros v p Hv H1 H2. apply (HN (Proxy v)). by exists p.
Qed.

End theorems.

(** ** Witnesses

    A pool of two connections, each handed out at most twice. *)

Definition demo_options : connection_pool_options := mkOptions (Some 2) None false.
Definition demo_answers (ok : bool) : @answers nat := mkAnswers 0 0 (if ok then Some 7%nat else None) None 0 (Ok (0, Throw Estd)) (if ok then Ok tt else Throw Estd).
Definition demo_slot : @connection_context nat := mkCtx None false false (Some 7%nat) 0 [] 0 0.
Definition taken_slot : @connection_context nat := mkCtx None true false (Some 7%nat) 0 [] 0 1.

(** A thread calls [get_connection] and claims the first slot. *)
Definition demo_start : @state nat := mkState [demo_slot; demo_slot] ∅ ∅.
Definition demo_claimed : @state nat := mkState [mkCtx (Some 5%nat) true false (Some 7%nat) 0 [] 0 0; demo_slot] {[5%nat := Claimed 0]} ∅.
Definition demo_got : @state nat := mkState [taken_slot; demo_slot] ∅ {[9%nat := mkProxy true (Some 7%nat) (Some 0%nat)]}.

Lemma demo_pool : connection_pool demo_options 2 (fun _ => demo_answers true) [1%nat] = Ok (conn_ctxs_ demo_start).
Proof. by vm_compute. Qed.

Lemma demo_claimed_reachable : reachable demo_options demo_claimed.
Proof.
  exists 2, (fun _ => demo_answers true), [1%nat], (conn_ctxs_ demo_start). split; [exact demo_pool|].
  apply rtc_l with (set_thread 5 (Scan 0) demo_start); [by apply s_call|].
  eapply rtc_l; [eapply (s_lock _ _ 5 0 demo_slot); by vm_compute|].
  eapply rtc_l; [eapply (s_claim _ _ 5 0 (with_mutex (Some 5%nat) demo_slot)); by vm_compute|].
  match goal with |- rtc _ ?x ?y => replace x with y by by vm_compute end. apply rtc_refl.
Qed.

Lemma demo_take : take_connection demo_options (demo_answers true) (mkCtx (Some 5%nat) true false (Some 7%nat) 0 [] 0 0) =
  (Ok 7%nat, mkCtx (Some 5%nat) true false (Some 7%nat) 0 [] 0 1).
Proof. by vm_compute. Qed.

Lemma demo_got_reachable : reachable demo_options demo_got.
Proof.
  destruct demo_claimed_reachable as (size & a & order & l & E & Hs). exists size, a, order, l. split; [exact E|]. eapply rtc_r; [exact Hs|].
  pose proof (s_get demo_options demo_claimed 5 0 (mkCtx (Some 5%nat) true false (Some 7%nat) 0 [] 0 0) (demo_answers true) 7%nat _ 9 eq_refl eq_refl demo_take eq_refl) as H.
  match type of H with ConnPool.step _ _ ?y => replace demo_got with y by by vm_compute end. exact H.
Qed.

Lemma pool_exclusive_witness : exists i x, Some 0%nat = Some i /\ conn_ctxs_ demo_got !! i = Some x /\ in_use x = true /\ conn x = Some 7%nat.
Proof. apply (pool_exclusive demo_options demo_got demo_got_reachable) with (v := 9%nat) (p := mkProxy true (Some 7%nat) (Some 0%nat)) (c := 7%nat); reflexivity. Defined.

Lemma retrievals_bounded_witness : 0 <= retrieval_count taken_slot <= 2 /\ (forall a c x', take_connection demo_options a taken_slot = (Ok c, x') ->
  1 <= retrieval_count x' <= 2 /\ retrieval_count x' < 2 ^ 15 /\ (retrieval_count taken_slot = 2 -> rcConnect a = Some c /\ retrieval_count x' = 1)).
Proof. apply (retrievals_bounded demo_options demo_got 2 0 taken_slot demo_got_reachable); [reflexivity|lia|reflexivity]. Defined.

(** The first connection was lost and no other one can be made. *)
Lemma failed_slot_is_lost_witness : exists y, [mkCtx None true false None 0 [] 0 0; demo_slot] !! 0%nat = Some y /\ in_use y = true.
Proof.
  apply (failed_slot_is_lost demo_options demo_claimed 5 0 (mkCtx (Some 5%nat) true false (Some 7%nat) 0 [] 0 0) (demo_answers false) (Eirods USER_SOCK_CONNECT_ERR)
    (mkCtx (Some 5%nat) true false None 0 [] 0 0) (mkState [mkCtx None true false None 0 [] 0 0; demo_slot] ∅ ∅) demo_claimed_reachable);
    [reflexivity|reflexivity|vm_compute; reflexivity|].
  match goal with |- rtc _ ?x ?y => replace x with y by by vm_compute end. apply rtc_refl.
Defined.
