(* ===== verification/Region.v ===== *)
(** * Regions of memory

    [lib/core/src/region.cpp], as it is built without [REGION_MALLOC]: memory for rules is cut
    from blocks that are freed together. A pointer is the number of a block and an offset in
    it. What [malloc] answers is an argument. *)

From stdpp Require Import base list.
From Stdlib Require Import ZArith Lia.
From S2P Require Import Prelude.
Local Open Scope Z_scope.

Definition DEFAULT_BLOCK_SIZE : Z := 1024.
Definition REGION_ALIGNMENT : Z := 8.

Definition roundToAlignment (x : Z) : Z :=
  if x mod REGION_ALIGNMENT =? 0 then x else (x / REGION_ALIGNMENT + 1) * REGION_ALIGNMENT.

(** The size of a [RegionDesc]: a pointer, a [size_t] and an [int]. *)
Definition DESC : Z := roundToAlignment 24.

(** The values of a [size_t], and what an [int] makes of one. *)
Definition size_t (z : Z) : Z := z mod 2 ^ 64.
Definition int_of (z : Z) : Z := (z + 2 ^ 31) mod 2 ^ 32 - 2 ^ 31.

Record region_node : Type := mkNode { size : Z; used : Z }.

(** The blocks before the active one, which is the last, and whether there is a label to jump to
    when memory runs out. *)
Record Region : Type := mkRegion { before : list region_node; active : region_node; label : bool }.

(** Whether [malloc] finds memory for the node and for its block. The block is cleared before
    it is tested: without one, memory at a null pointer is written. *)
Definition make_region_node (malloc : bool * bool) (size0 : Z) : res (option region_node) :=
  if negb malloc.1 then Ok None
  else if negb malloc.2 then Throw Eundef
  else Ok (Some (mkNode size0 0)).

Definition make_region (malloc_region : bool) (malloc : bool * bool) (size0 : Z) (label : bool) : res (option Region) :=
  if negb malloc_region then Ok None
  else
    let size0 := if size0 =? 0 then DEFAULT_BLOCK_SIZE else size0 in
    node ← make_region_node malloc size0;
    mret (match node with None => None | Some node => Some (mkRegion [] node label) end).

(** The pointer, which may be null, and the size that was taken. [longjmp] leaves by an exception
    with its value. *)
Definition region_alloc_nodesc (malloc : bool * bool) (s : Z) : M Region (option (nat * Z * Z)) := fun r =>
  let place (r : Region) :=
    let alloc_size := if DEFAULT_BLOCK_SIZE <? s then s else roundToAlignment s in
    let a := active r in
    (Ok (Some (length (before r), used a, alloc_size)), mkRegion (before r) (mkNode (size a) (size_t (used a + alloc_size))) (label r)) in
  if size_t (size (active r) - used (active r)) <? s then
    let blocksize := if DEFAULT_BLOCK_SIZE <? s then int_of s else DEFAULT_BLOCK_SIZE in
    match make_region_node malloc (size_t blocksize) with
    | Throw e => (Throw e, r)
    | Ok None => (if label r then Throw (Eirods (-1)) else Ok None, r)
    | Ok (Some next) => place (mkRegion (before r ++ [active r]) next (label r))
    end
  else place r.

(** The pointer behind the descriptor; a null pointer is written through. *)
Definition region_alloc (malloc : bool * bool) (s : Z) : M Region (nat * Z) := fun r =>
  match region_alloc_nodesc malloc (size_t (s + DESC)) r with
  | (Ok (Some (b, off, _)), r) => (Ok (b, off + DESC), r)
  | (Ok None, r) => (Throw Eundef, r)
  | (Throw e, r) => (Throw e, r)
  end.

Definition blocks (r : Region) : list region_node := before r ++ [active r].

Definition region_size (r : Region) : Z := fold_left (fun s node => size_t (s + used node)) (blocks r) 0.

(** ** Allocations *)

(** A series of allocations for which there is memory. *)
Fixpoint region_allocs (ss : list Z) : M Region (list (nat * Z)) :=
  match ss with
  | [] => mret []
  | s :: ss => p ← region_alloc (true, true) s; ps ← region_allocs ss; mret (p :: ps)
  end.

(** Sizes the region can serve: those of an [int] with what is added to them. *)
Definition fits (s : Z) : Prop := 0 <= s < 2 ^ 31 - 64.

(** A block of the default size is used in steps of the alignment; any other is full. *)
Definition block_ok (n : region_node) : Prop :=
  0 <= used n <= size n /\ size n < 2 ^ 31 /\ (size n = DEFAULT_BLOCK_SIZE /\ (REGION_ALIGNMENT | used n) \/ used n = size n).

Definition region_ok (r : Region) : Prop := Forall block_ok (blocks r).

Lemma round_spec x : 0 <= x -> x <= roundToAlignment x < x + 8 /\ (REGION_ALIGNMENT | roundToAlignment x).
Proof.
  intros Hx. unfold roundToAlignment, REGION_ALIGNMENT. pose proof (Z.div_mod x 8 ltac:(lia)). pose proof (Z.mod_pos_bound x 8 ltac:(lia)).
  destruct (Z.eqb_spec (x mod 8) 0) as [E|E]; [split; [lia|by apply Z.mod_divide]|]. split; [lia|]. by exists (x / 8 + 1).
Qed.

Lemma round_fits x y : 0 <= x <= y -> (REGION_ALIGNMENT | y) -> roundToAlignment x <= y.
Proof.
  intros Hx [k ->]. unfold REGION_ALIGNMENT in *. destruct (round_spec x ltac:(lia)) as [H1 [j H2]]. unfold REGION_ALIGNMENT in *. lia.
Qed.

Lemma int_of_id z : 0 <= z < 2 ^ 31 -> int_of z = z.
Proof. intros H. unfold int_of. rewrite Z.mod_small by lia. lia. Qed.

Lemma size_t_id z : 0 <= z < 2 ^ 64 -> size_t z = z.
Proof. apply Z.mod_small. Qed.

(** How much of a block is used. *)
Definition used_at (r : Region) (b : nat) : Z := match blocks r !! b with Some n => used n | None => 0 end.

(** A piece of the block [b] at [off]. *)
Record piece (r : Region) (b : nat) (off s : Z) (r' : Region) : Prop := Piece {
  pc_off : off = used_at r b;
  pc_end : off + DESC + s <= used_at r' b;
  pc_align : (REGION_ALIGNMENT | off);
  pc_rest : forall c, c <> b -> used_at r' c = used_at r c
}.

Definition taken (s : Z) : Z := if DEFAULT_BLOCK_SIZE <? s then s else roundToAlignment s.

Lemma taken_spec s : 0 <= s -> s <= taken s < s + 8.
Proof. intros H. unfold taken. destruct (_ <? s); [lia|]. apply round_spec, H. Qed.

Lemma place_ok a s : block_ok a -> 0 < s -> s <= size a - used a -> block_ok (mkNode (size a) (used a + taken s)) /\ (REGION_ALIGNMENT | used a).
Proof.
  intros (Hu & Hsz & Ha) Hs Hfit. destruct Ha as [[Es Hd]|?]; [|lia]. split; [|done]. unfold taken, block_ok in *. cbn. rewrite Es in *.
  destruct (Z.ltb_spec DEFAULT_BLOCK_SIZE s); [unfold DEFAULT_BLOCK_SIZE in *; lia|]. destruct (round_spec s ltac:(lia)) as [H1 H2].
  assert (roundToAlignment s <= DEFAULT_BLOCK_SIZE - used a).
  { apply round_fits; [lia|]. apply Z.divide_sub_r; [by exists 128|done]. }
  split; [lia|]. split; [done|]. left. split; [done|]. by apply Z.divide_add_r.
Qed.

Lemma used_at_last l n c : (used_at (mkRegion l n c) (length l)) = used n.
Proof. unfold used_at, blocks. cbn. by rewrite list_lookup_middle. Qed.

Lemma used_at_before l n n' c c' b : b <> length l -> used_at (mkRegion l n c) b = used_at (mkRegion l n' c') b.
Proof.
  intros Hb. unfold used_at, blocks. cbn. destruct (decide (b < length l)%nat); [by rewrite !lookup_app_l|].
  by rewrite !lookup_ge_None_2 by (rewrite length_app; cbn; lia).
Qed.

Lemma used_at_new l m n c c' b : b <> S (length l) -> used_at (mkRegion (l ++ [m]) n c) b = used_at (mkRegion l m c') b.
Proof.
  intros Hb. unfold used_at, blocks. cbn. destruct (decide (b < length (l ++ [m]))%nat); [by rewrite (lookup_app_l (l ++ [m]))|].
  rewrite length_app in *. cbn in *. by rewrite !lookup_ge_None_2 by (rewrite !length_app; cbn; lia).
Qed.

Lemma used_at_none l m c : used_at (mkRegion l m c) (S (length l)) = 0.
Proof. unfold used_at, blocks. cbn. by rewrite lookup_ge_None_2 by (rewrite length_app; cbn; lia). Qed.

Lemma region_last r : region_ok r <-> Forall block_ok (before r) /\ block_ok (active r).
Proof. unfold region_ok, blocks. rewrite Forall_app, Forall_singleton. done. Qed.

(** What one allocation does. *)
Lemma alloc_spec s r : region_ok r -> fits s -> exists b off r', region_alloc (true, true) s r = (Ok (b, off + DESC), r') /\ region_ok r' /\ piece r b off s r'.
Proof.
  intros Hr Hs. unfold fits in Hs. destruct r as [l a lb]. apply region_last in Hr as [Hl Ha]. cbn in Hl, Ha. pose proof Ha as (Hu & Hsz & _).
  assert (DESC = 24) as ED by done. unfold region_alloc. rewrite (size_t_id (s + DESC)) by lia. unfold region_alloc_nodesc. cbn [active before label].
  pose proof (taken_spec (s + DESC) ltac:(lia)) as Ht. fold (taken (s + DESC)). rewrite (size_t_id (size a - used a)) by lia.
  destruct (Z.ltb_spec (size a - used a) (s + DESC)) as [H|H]; cbn [make_region_node negb fst snd size used].
  - set (bs := if DEFAULT_BLOCK_SIZE <? s + DESC then int_of (s + DESC) else DEFAULT_BLOCK_SIZE).
    assert (block_ok (mkNode (size_t bs) (taken (s + DESC)))) as Hn.
    { unfold bs, taken. destruct (Z.ltb_spec DEFAULT_BLOCK_SIZE (s + DESC)) as [Hb|Hb].
      - rewrite int_of_id, size_t_id by lia. unfold block_ok. cbn. split; [lia|]. split; [lia|by right].
      - assert (block_ok (mkNode DEFAULT_BLOCK_SIZE 0)) as H0 by (unfold block_ok, DEFAULT_BLOCK_SIZE; cbn; split; [lia|split; [lia|left; split; [done|by exists 0]]]).
        destruct (place_ok _ (s + DESC) H0 ltac:(lia)) as [H1 _]; [cbn; lia|]. cbn in H1. unfold taken in H1.
        destruct (Z.ltb_spec DEFAULT_BLOCK_SIZE (s + DESC)); [lia|]. rewrite size_t_id by (unfold DEFAULT_BLOCK_SIZE; lia). exact H1. }
    clearbody bs. rewrite (Z.add_0_l (taken (s + DESC))), (size_t_id (taken (s + DESC))) by lia. do 3 eexists. split; [reflexivity|]. split.
    + apply region_last. cbn. split; [|done]. by apply Forall_app; rewrite Forall_singleton.
    + rewrite length_app. cbn [length]. rewrite Nat.add_1_r. split.
      * by rewrite used_at_none.
      * replace (S (length l)) with (length (l ++ [a])) by (rewrite length_app; cbn; lia). rewrite used_at_last. cbn. lia.
      * by exists 0.
      * intros c Hc. by apply used_at_new.
  - destruct (place_ok a (s + DESC) Ha ltac:(lia) H) as [Hn Hd]. rewrite (size_t_id (used a + taken (s + DESC))) by lia.
    do 3 eexists. split; [reflexivity|]. split; [by apply region_last|]. split.
    + by rewrite used_at_last.
    + rewrite used_at_last. cbn. lia.
    + done.
    + intros c Hc. by apply used_at_before.
Qed.

(** What the pieces of a series are to each other and to the region. *)
Lemma allocs_spec ss : Forall fits ss -> forall r, region_ok r -> exists ps r', region_allocs ss r = (Ok ps, r') /\ region_ok r' /\ length ps = length ss /\
  (forall b, used_at r b <= used_at r' b) /\
  (forall i p s, ps !! i = Some p -> ss !! i = Some s -> used_at r p.1 + DESC <= p.2 /\ p.2 + s <= used_at r' p.1 /\ (REGION_ALIGNMENT | p.2)) /\
  (forall i j p q s, (i < j)%nat -> ps !! i = Some p -> ps !! j = Some q -> ss !! i = Some s -> p.1 = q.1 -> p.2 + s <= q.2 - DESC).
Proof.
  induction 1 as [|s ss Hs Hss IH]; intros r Hr.
  - exists [], r. by repeat split; try done; intros.
  - destruct (alloc_spec s r Hr Hs) as (b & off & r1 & E1 & Hr1 & [P1 P2 P3 P4]). destruct (IH r1 Hr1) as (ps & r' & E2 & Hr' & Hlen & M & A & B).
    assert (forall c, used_at r c <= used_at r1 c) as M1.
    { intros c. destruct (decide (c = b)) as [->|]; [|by rewrite P4]. unfold fits in Hs. assert (DESC = 24) by done. lia. }
    assert (DESC = 24) as ED by done.
    exists ((b, off + DESC) :: ps), r'. cbn [region_allocs]. unfold mbind, M_bind. rewrite E1, E2. split; [done|]. split; [done|]. split; [by cbn; rewrite Hlen|].
    split; [intros c; specialize (M c); specialize (M1 c); lia|]. split.
    + intros [|i] p s' Hp Hs'; cbn in Hp, Hs'; simplify_eq; cbn [fst snd].
      * split; [lia|]. split; [specialize (M b); lia|]. apply Z.divide_add_r; [done|by exists 3].
      * destruct (A i p s' Hp Hs') as (A1 & A2 & A3). specialize (M1 p.1). split; [lia|done].
    + intros [|i] [|j] p q s' Hij Hp Hq Hs' Eb; try lia; cbn in Hp, Hq, Hs'; simplify_eq.
      * cbn [fst snd] in *. destruct (lookup_lt_is_Some_2 ss j) as [s2 Hs2]; [rewrite <- Hlen; by eapply lookup_lt_Some|].
        destruct (A j q s2 Hq Hs2) as (A1 & _ & _). rewrite <- Eb in A1. lia.
      * eapply (B i j); try done; lia.
Qed.

(** C21: memory of a region made with the default size is handed out soundly: a series of
    requests, of sizes of an [int], is served while there is memory, every piece is aligned
    and lies inside its block with its descriptor in front of it, and no two pieces overlap. *)
Theorem region_pieces_disjoint (ss : list Z) (label : bool) : Forall fits ss -> exists r ps r',
  make_region true (true, true) 0 label = Ok (Some r) /\ region_allocs ss r = (Ok ps, r') /\ length ps = length ss /\
  (forall i p s, ps !! i = Some p -> ss !! i = Some s -> exists n, blocks r' !! p.1 = Some n /\ DESC <= p.2 /\ p.2 + s <= used n <= size n /\ (REGION_ALIGNMENT | p.2)) /\
  (forall i j p q s, (i < j)%nat -> ps !! i = Some p -> ps !! j = Some q -> ss !! i = Some s -> p.1 = q.1 -> p.2 + s <= q.2 - DESC).
Proof.
  intros Hss. set (r := mkRegion [] (mkNode DEFAULT_BLOCK_SIZE 0) label). assert (region_ok r) as Hr.
  { apply region_last. split; [done|]. unfold r, block_ok, DEFAULT_BLOCK_SIZE. cbn [active used size]. split; [lia|]. split; [lia|]. left. split; [done|by exists 0]. }
  destruct (allocs_spec ss Hss r Hr) as (ps & r' & E & Hr' & Hlen & M & A & B). exists r, ps, r'. split; [done|]. split; [done|]. split; [done|]. split; [|done].
  intros i p s Hp Hs. destruct (A i p s Hp Hs) as (A1 & A2 & A3). assert (0 <= s) by (rewrite Forall_lookup in Hss; specialize (Hss i s Hs); unfold fits in Hss; lia).
  assert (0 <= used_at r p.1) by (destruct p as [[|b] off]; by vm_compute). unfold used_at in A2. assert (DESC = 24) as ED by done.
  destruct (blocks r' !! p.1) as [n|] eqn:En; [|lia]. exists n. split; [done|]. unfold region_ok in Hr'. rewrite Forall_lookup in Hr'. destruct (Hr' _ _ En) as (Hu & _). repeat split; try done; lia.
Qed.

Lemma region_pieces_disjoint_witness : exists r ps r', make_region true (true, true) 0 true = Ok (Some r) /\ region_allocs [100; 3; 5000; 900] r = (Ok ps, r') /\ length ps = 4%nat.
Proof.
  destruct (region_pieces_disjoint [100; 3; 5000; 900] true) as (r & ps & r' & H1 & H2 & H3 & _); [repeat constructor; unfold fits; lia|]. exists r, ps, r'. auto.
Defined.
