(* ===== verification/PasswordHash.v ===== *)
(** * Hashed passwords

    [server/core/src/password_hash.cpp] and what the database plugin does with it
    ([plugins/database/src/db_plugin.cpp], [db_check_password_op] and the part of
    [db_mod_user_op] that stores a hash). The key derivation of OpenSSL is a parameter; the
    result is printed by [Base64]. *)

From stdpp Require Import base list strings.
From Stdlib Require Import ZArith Lia Ascii.
From S2P Require Import Prelude Errors Base64.
Local Open Scope Z_scope.

Definition CAT_PASSWORD_ENCODING_ERROR : Z := -850000.
Definition PASSWORD_EXCEEDS_MAX_SIZE : Z := -903000.

(** ** Parameters

    [parameters] is the JSON object of the parameters: what [find] of a key finds, and the
    [std::int32_t] it is, unless it is none. *)

Definition json_object : Type := bstr -> option (res Z).

(** A positive parameter up to a maximum. *)
Definition get_parameter (parameters : json_object) (key : bstr) (maximum : Z) : res Z :=
  match parameters key with
  | None => Throw (Eirods SYS_INVALID_INPUT_PARAM)
  | Some (Throw Ejson) => Throw (Eirods SYS_INVALID_INPUT_PARAM)
  | Some (Throw e) => Throw e
  | Some (Ok v) => if (v <? 1) || (maximum <? v) then Throw (Eirods SYS_INVALID_INPUT_PARAM) else Ok v
  end.

Definition maximum_key_length_in_bytes : Z := 2025.
Definition INT32_MAX : Z := 2 ^ 31 - 1.

Record scrypt_kdf : Type := mkScrypt { keylen : Z; work_factor : Z; resources : Z; parallelism : Z }.

(** The constructor of [scrypt_kdf]. *)
Definition scrypt_parameters (parameters : json_object) : res scrypt_kdf :=
  keylen ← get_parameter parameters (lit "key_length") maximum_key_length_in_bytes;
  n ← get_parameter parameters (lit "N") INT32_MAX;
  r ← get_parameter parameters (lit "r") INT32_MAX;
  p ← get_parameter parameters (lit "p") INT32_MAX;
  mret (mkScrypt keylen n r p).

Section hash.
(** [EVP_KDF_derive]: the key, unless it fails. *)
Variable derive : scrypt_kdf -> bstr -> bstr -> option bstr.

(** [strncpy] into a cleared buffer of the size of the string. *)
Definition strncpy_buf (s : bstr) : bstr := c_str s ++ replicate (length s - length (c_str s)) NUL.

Definition derive_key (kdf : scrypt_kdf) (password salt : bstr) : res bstr :=
  match derive kdf (strncpy_buf password) (strncpy_buf salt) with
  | None => Throw (Eirods CAT_PASSWORD_ENCODING_ERROR)
  | Some hash_buf => Ok hash_buf
  end.

Definition get_kdf (algorithm : bstr) (parameters : json_object) : res scrypt_kdf :=
  if bool_decide (algorithm = lit "scrypt") then scrypt_parameters parameters else Throw (Eirods SYS_NOT_SUPPORTED).

Definition maximum_password_length : Z := 1024 * 1024.

Definition hash_password (password salt algorithm : bstr) (parameters : json_object) : res bstr :=
  if bool_decide (password = []) || bool_decide (salt = []) then Throw (Eirods SYS_INVALID_INPUT_PARAM)
  else if maximum_password_length <? Z.of_nat (length password) then Throw (Eirods PASSWORD_EXCEEDS_MAX_SIZE)
  else
    match
      (kdf ← get_kdf algorithm parameters;
       derived_key ← derive_key kdf password salt;
       let '(err, out) := base64_encode derived_key (Z.of_nat (length derived_key) * 2) in
       if err <? 0 then Throw (Eirods err) else mret out)
    with
    | Throw Ejson | Throw Estd => Throw (Eirods SYS_LIBRARY_ERROR)
    | r => r
    end.

(** ** Credentials *)

Record credential : Type := mkCredential { hashed_password : bstr; salt : bstr; algorithm : bstr; hash_parameters : json_object }.

(** The row that is stored for a new password. *)
Definition new_credential (password salt algorithm : bstr) (parameters : json_object) : res credential :=
  hashed ← hash_password password salt algorithm parameters;
  mret (mkCredential hashed salt algorithm parameters).

(** The result and [_valid]. What a failed hash throws ends the loop. *)
Fixpoint check_credentials (password : bstr) (credentials : list credential) : error * Z :=
  match credentials with
  | [] => (SUCCESS, 0)
  | c :: credentials =>
      match hash_password password (salt c) (algorithm c) (hash_parameters c) with
      | Throw Ejson => (ERROR SYS_LIBRARY_ERROR, 0)
      | Throw _ => (ERROR SYS_INTERNAL_ERR, 0)
      | Ok hashed => if bool_decide (hashed = hashed_password c) then (SUCCESS, 1) else check_credentials password credentials
      end
  end.

(** [db_check_password_op] once its input is parsed; [rows] are the credentials of the user in the
    catalog, unless they cannot be read. For a user without one a hash is computed for the
    time it takes, whose result nobody sees. *)
Definition check_password (password : bstr) (rows : res (list credential)) : error * Z :=
  match rows with
  | Throw _ => (ERROR SYS_LIBRARY_ERROR, 0)
  | Ok credentials => check_credentials password credentials
  end.

(** ** What a hash is *)

(** A key has the length that was asked for. *)
Hypothesis derive_length : forall kdf p s h, 0 <= keylen kdf -> derive kdf p s = Some h -> Z.of_nat (length h) = keylen kdf.

Lemma parameter_range parameters key maximum v : get_parameter parameters key maximum = Ok v -> 1 <= v <= maximum.
Proof using.
  unfold get_parameter. destruct (parameters key) as [[w|[]]|]; try done. destruct (Z.ltb_spec w 1); [done|]. destruct (Z.ltb_spec maximum w); [done|].
  cbn. intros [= ->]. lia.
Qed.

Lemma scrypt_keylen parameters kdf : scrypt_parameters parameters = Ok kdf -> 1 <= keylen kdf <= maximum_key_length_in_bytes.
Proof using.
  unfold scrypt_parameters. destruct (get_parameter _ (lit "key_length") _) as [k|] eqn:Ek; [|done]. apply parameter_range in Ek.
  destruct (get_parameter _ (lit "N") _) as [n|]; [|done]. destruct (get_parameter _ (lit "r") _) as [r|]; [|done].
  destruct (get_parameter _ (lit "p") _) as [p|]; [|done]. cbn. intros [= <-]. exact Ek.
Qed.

(** The lengths of a key whose text does not fit into twice its size. *)
Definition short_key (k : Z) : bool := (k =? 1) || (k =? 2) || (k =? 4).

Lemma short_key_spec k : 1 <= k -> if short_key k then k * 2 < 4 * ((k + 2) / 3) + 1 else 4 * ((k + 2) / 3) + 1 <= k * 2.
Proof using.
  intros Hk. unfold short_key. destruct (Z.eqb_spec k 1) as [->|]; [done|]. destruct (Z.eqb_spec k 2) as [->|]; [done|]. destruct (Z.eqb_spec k 4) as [->|]; [done|].
  cbn. pose proof (Z.div_mod (k + 2) 3 ltac:(lia)). pose proof (Z.mod_pos_bound (k + 2) 3 ltac:(lia)). lia.
Qed.

(** A key derivation of valid parameters. *)
Lemma hash_spec password salt algorithm parameters kdf : password <> [] -> salt <> [] -> Z.of_nat (length password) <= maximum_password_length ->
  get_kdf algorithm parameters = Ok kdf ->
  match derive kdf (strncpy_buf password) (strncpy_buf salt) with
  | None => hash_password password salt algorithm parameters = Throw (Eirods CAT_PASSWORD_ENCODING_ERROR)
  | Some h =>
      if short_key (keylen kdf) then hash_password password salt algorithm parameters = Throw (Eirods BASE64_BUFFER_OVERFLOW)
      else exists e, hash_password password salt algorithm parameters = Ok e /\ Z.of_nat (length e) = 4 * ((keylen kdf + 2) / 3) /\
        Z.of_nat (length e) <= 2700 /\ base64_decode e (keylen kdf) = (0, h) /\ base64_encode h (keylen kdf * 2) = (0, e)
  end.
Proof using derive_length.
  intros Hp Hs Hl Hk. unfold hash_password. rewrite !bool_decide_eq_false_2 by done. cbn [orb]. destruct (Z.ltb_spec maximum_password_length (Z.of_nat (length password))); [lia|].
  rewrite Hk. cbn. unfold derive_key. destruct (derive kdf _ _) as [h|] eqn:Eh; [|done]. cbn.
  assert (1 <= keylen kdf <= maximum_key_length_in_bytes) as Hr.
  { unfold get_kdf in Hk. destruct (bool_decide _); [|done]. by eapply scrypt_keylen. }
  pose proof (derive_length kdf _ _ h ltac:(lia) Eh) as Elen.
  unfold maximum_key_length_in_bytes in Hr. pose proof (short_key_spec (keylen kdf) ltac:(lia)) as Hsk.
  destruct (base64_roundtrip h (Z.of_nat (length h) * 2) (keylen kdf)) as [H1 H2]; [rewrite Elen; lia|lia|]. rewrite Elen in *.
  destruct (short_key (keylen kdf)).
  - rewrite (H2 Hsk). done.
  - destruct (H1 Hsk) as (e & E & Elen' & Ed). rewrite Z.ltb_irrefl in Ed. rewrite E. exists e. repeat split; try done.
    rewrite Elen'. pose proof (Z.div_le_mono (keylen kdf + 2) 2027 3 ltac:(lia) ltac:(lia)). change (2027 / 3) with 675 in H0. lia.
Qed.

(** C13: a stored password is checked soundly and completely: for a password that was hashed,
    with parameters whose key is not too short for its text, the stored row accepts exactly
    the passwords from which the same key is derived, the password itself among them; the
    hash fits the 2700 characters of its column. A key of 1, 2 or 4 bytes cannot be stored,
    and a password whose key cannot be derived is an error, not an accepted one. *)
Theorem password_checked (password salt algorithm : bstr) (parameters : json_object) (kdf : scrypt_kdf) (h : bstr) :
  password <> [] -> salt <> [] -> Z.of_nat (length password) <= maximum_password_length -> get_kdf algorithm parameters = Ok kdf ->
  derive kdf (strncpy_buf password) (strncpy_buf salt) = Some h ->
  if short_key (keylen kdf) then new_credential password salt algorithm parameters = Throw (Eirods BASE64_BUFFER_OVERFLOW)
  else exists row, new_credential password salt algorithm parameters = Ok row /\ Z.of_nat (length (hashed_password row)) <= 2700 /\
    check_password password (Ok [row]) = (SUCCESS, 1) /\
    forall p, p <> [] -> Z.of_nat (length p) <= maximum_password_length ->
      check_password p (Ok [row]) =
        match derive kdf (strncpy_buf p) (strncpy_buf salt) with
        | None => (ERROR SYS_INTERNAL_ERR, 0)
        | Some h' => (SUCCESS, if bool_decide (h' = h) then 1 else 0)
        end.
Proof using derive_length.
  intros Hp Hs Hl Hk Hd. pose proof (hash_spec password salt algorithm parameters kdf Hp Hs Hl Hk) as H. rewrite Hd in H. unfold new_credential.
  destruct (short_key (keylen kdf)) eqn:Esk; [by rewrite H|]. destruct H as (e & E & _ & Hlen & Ed & Ee). rewrite E. cbn. eexists. split; [done|]. split; [done|]. cbn.
  split; [rewrite E; by rewrite bool_decide_eq_true_2|]. intros p Hp' Hl'.
  pose proof (hash_spec p salt algorithm parameters kdf Hp' Hs Hl' Hk) as H. destruct (derive kdf (strncpy_buf p) _) as [h'|] eqn:Eh'; [|by rewrite H].
  rewrite Esk in H. destruct H as (e' & E' & _ & _ & Ed' & Ee'). rewrite E'.
  destruct (decide (h' = h)) as [->|Hh].
  - assert (e' = e) as -> by congruence. by rewrite !bool_decide_eq_true_2.
  - rewrite (bool_decide_eq_false_2 (h' = h)) by done. rewrite bool_decide_eq_false_2; [done|]. cbn. intros ->. congruence.
Qed.

(** What comes behind a NUL of a password plays no part. *)
Lemma nul_ends_password p q : c_str p = c_str q -> length p = length q -> strncpy_buf p = strncpy_buf q.
Proof using. unfold strncpy_buf. by intros -> ->. Qed.

End hash.

(** ** A witness *)

(** A derivation that keeps the first bytes of the password and the salt. *)
Definition keep_bytes (kdf : scrypt_kdf) (password salt : bstr) : option bstr :=
  Some (take (Z.to_nat (keylen kdf)) (password ++ salt ++ replicate (Z.to_nat (keylen kdf)) NUL)).

Lemma keep_bytes_length kdf p s h : 0 <= keylen kdf -> keep_bytes kdf p s = Some h -> Z.of_nat (length h) = keylen kdf.
Proof. intros Hk [= <-]. rewrite length_take, !length_app, length_replicate. lia. Qed.

Definition demo_parameters : json_object := fun key =>
  if bool_decide (key = lit "key_length") then Some (Ok 6) else if bool_decide (key = lit "N") then Some (Ok 16384) else Some (Ok 8).

Lemma password_checked_witness : exists row, new_credential keep_bytes (lit "rods") (lit "salt") (lit "scrypt") demo_parameters = Ok row /\
  check_password keep_bytes (lit "rods") (Ok [row]) = (SUCCESS, 1) /\ check_password keep_bytes (lit "Rods") (Ok [row]) = (SUCCESS, 0).
Proof.
  destruct (password_checked keep_bytes keep_bytes_length (lit "rods") (lit "salt") (lit "scrypt") demo_parameters (mkScrypt 6 16384 8 8) (lit "rodssa"))
    as (row & H1 & _ & H2 & H3); [done|done|by vm_compute|by vm_compute|by vm_compute|]. exists row. split; [exact H1|]. split; [exact H2|].
  rewrite (H3 (lit "Rods")); [by vm_compute|done|by vm_compute].
Defined.
