(* ===== verification/ResourceWalk.v ===== *)
(** * Walks over the resource manager's tables

    The rest of [server/core/src/irods_resource_manager.cpp]: the overloads that
    return an [error], and the operations that walk the whole name table or a
    resource's subtree - roots, leaves, leaf bundles, all hierarchies - and the
    maintenance operations of the plugins.  A [lookup_table] is a hash map: the order
    it is iterated in is a parameter ([TableOrder]). *)

From stdpp Require Import base gmap list sorting strings.
From Stdlib Require Import ZArith Lia Ascii.
From S2P Require Import Prelude Errors Numerals Hierarchy Children Resources.

(** ** Iteration over a table *)

(** The order in which [begin()] to [end()] visit the entries of a table. *)
Class TableOrder : Type := table_order : forall V : Type, gmap bstr V -> list (bstr * V).

(** Each entry is visited once. *)
Class TableOrderLaws (TO : TableOrder) : Prop :=
  table_order_perm : forall V (m : gmap bstr V), table_order V m ≡ₚ map_to_list m.

(** ** Data *)

(** [pdmo_type], a [boost::function]: it may be empty. *)
Inductive pdmo_result : Type :=
| PdmoReturns (e : error)
| PdmoBadCall. (* boost::bad_function_call *)

Section walks.
Context {L : LexicalCast} {TO : TableOrder}.

(** ** The overloads that return an [error] *)

(** What such an overload leaves: its error and its output argument. *)
Fixpoint hier_to_root_error_loop (fuel : nat) (m : resource_manager) (parent_name hierarchy : bstr)
    : res (error * bstr) :=
  match fuel with
  | O => Throw Ediverge
  | S fuel' =>
      match parent_name with
      | [] => Ok (SUCCESS, hierarchy)
      | _ =>
          match resolve_name m parent_name with
          | Throw (Eirods c) => Ok (ERROR c, hierarchy)
          | Throw e => Throw e
          | Ok resc =>
              match get_parent_name m resc with
              | Throw (Eirods c) =>
                  if (c =? HIERARCHY_ERROR)%Z then Ok (SUCCESS, hierarchy)
                  else Ok (ERROR c, hierarchy)
              | Throw e => Throw e
              | Ok parent_name' =>
                  hier_to_root_error_loop fuel' m parent_name'
                    match parent_name' with
                    | [] => hierarchy
                    | _ => parent_name' ++ DELIM ++ hierarchy
                    end
              end
          end
      end
  end.

Definition get_hier_to_root_for_resc_error (fuel : nat) (m : resource_manager) (resc_name : bstr)
    : res (error * bstr) :=
  hier_to_root_error_loop fuel m resc_name resc_name.

(** The [while] loop over the parent pointers: [hier.insert(0, ";")] and
    [hier.insert(0, name)]. *)
Fixpoint walk_parents_error (fuel : nat) (m : resource_manager) (resc : option nat) (hier : bstr)
    : res bstr :=
  match resc with
  | None => Ok hier
  | Some p =>
      match fuel with
      | O => Throw Ediverge
      | S fuel' =>
          r ← deref m p;
          walk_parents_error fuel' m (parent_ r) (r_name r ++ lit ";" ++ hier)
      end
  end.

(** [inl] is an error, which leaves [_hier] as it was. *)
Definition leaf_id_to_hier_error (fuel : nat) (m : resource_manager) (id : Z) : res (Z + bstr) :=
  match resource_id_map_ m !! id with
  | None => Ok (inl SYS_RESC_DOES_NOT_EXIST)
  | Some p => r ← deref m p;
              inr <$> walk_parents_error fuel m (parent_ r) (r_name r)
  end.

(** [Some name] is written to [_name]; [None] leaves it as it was. *)
Definition resc_id_to_name_error (m : resource_manager) (id : Z) : res (Z + option bstr) :=
  if (id =? 0)%Z then Ok (inr None)
  else match resource_id_map_ m !! id with
       | None => Ok (inl SYS_RESC_DOES_NOT_EXIST)
       | Some p => (fun r => inr (Some (r_name r))) <$> deref m p
       end.

Definition resc_id_str_to_name_error (m : resource_manager) (id_str : bstr)
    : res (Z + option bstr) :=
  if bstr_eqb (lit "0") id_str || match id_str with [] => true | _ => false end then Ok (inr None)
  else match lexical_cast LONG_MIN LONG_MAX id_str with
       | None => Ok (inl INVALID_LEXICAL_CAST)
       | Some resc_id =>
           match resource_id_map_ m !! resc_id with
           | None => Ok (inl SYS_RESC_DOES_NOT_EXIST)
           | Some p => (fun r => inr (Some (r_name r))) <$> deref m p
           end
       end.

Definition is_coordinating_resource_error (m : resource_manager) (resc_name : bstr)
    : res (Z + bool) :=
  match resource_name_map_ m !! resc_name with
  | None => Ok (inl SYS_RESC_DOES_NOT_EXIST)
  | Some p => (fun r => inr (Nat.ltb 0 (num_children r))) <$> deref m p
  end.

(** ** Roots, leaves and bundles *)

(** [resource::children]: the keys of the child table. *)
Definition children (r : resource) : list bstr := (table_order _ (children_ r)).*1.

(** The names of the resources whose [get_parent] fails, behind those in [_list]. *)
Definition get_root_resources (m : resource_manager) (_list : list bstr) : res (list bstr) :=
  fold_res (fun l entry =>
      r ← deref m entry.2;
      Ok (match parent_ r with None => l ++ [r_name r] | Some _ => l end))
    _list (table_order _ (resource_name_map_ m)).

Fixpoint gather_leaf_bundle_for_child (fuel : nat) (m : resource_manager) (_bundle : list Z)
    (_resc_name : bstr) : res (list Z) :=
  match fuel with
  | O => Throw Ediverge
  | S fuel' =>
      p ← resolve_name m _resc_name;
      resc ← deref m p;
      if Nat.ltb 0 (num_children resc) then
        fold_res (gather_leaf_bundle_for_child fuel' m) _bundle (children resc)
      else Ok (_bundle ++ [r_id resc])
  end.

(** One bundle for each child, sorted with [std::sort]. *)
Definition gather_leaf_bundles_for_resc (fuel : nat) (m : resource_manager) (_resource_name : bstr)
    : res (list (list Z)) :=
  p ← resolve_name m _resource_name;
  resc ← deref m p;
  fold_res (fun ret child =>
      b ← gather_leaf_bundle_for_child fuel m [] child;
      Ok (ret ++ [merge_sort Z.le b]))
    [] (children resc).

Definition get_all_resc_hierarchies (fuel : nat) (m : resource_manager) : res (list bstr) :=
  fold_res (fun hier_list entry =>
      resc ← deref m entry.2;
      if Nat.ltb 0 (num_children resc) then Ok hier_list
      else err ← leaf_id_to_hier_error fuel m (r_id resc);
           match err with
           | inl c => Throw (Eirods c)
           | inr curr_hier => Ok (hier_list ++ [curr_hier])
           end)
    [] (table_order _ (resource_name_map_ m)).

(** ** Plugins *)

Definition PLUGIN_ERROR_MISSING_SHARED_OBJECT : Z := -1827000.

(** [load_resource_plugin]: [load_plugin] is what the shared object gives for the type, the
    instance name and the context; a resource whose object is missing is an [impostor]. *)
Definition load_resource_plugin (load_plugin : bstr -> bstr -> bstr -> resource + Z)
    (impostor : resource) (_plugin_name _inst_name _context : bstr) : resource + Z :=
  match load_plugin _plugin_name _inst_name _context with
  | inl resc => inl resc
  | inr c => if (c =? PLUGIN_ERROR_MISSING_SHARED_OBJECT)%Z then inl impostor else inr c
  end.

(** [init_from_type]: the resource is entered in the name table only. *)
Definition init_from_type (load_plugin : bstr -> bstr -> bstr -> resource + Z) (impostor : resource)
    (_type _key _inst _ctx : bstr) (m : resource_manager) : error * resource_manager :=
  match load_resource_plugin load_plugin impostor _type _inst _ctx with
  | inr c => (ERROR c, m)
  | inl resc =>
      (SUCCESS,
       {| heap := heap m ++ [resc];
          resource_name_map_ := <[_key := length (heap m)]> (resource_name_map_ m);
          resource_id_map_ := resource_id_map_ m |})
  end.

(** [start_resource_plugins] and [shut_down_resources]: the operation is run on
    each plugin; its error is logged or dropped. [W] is what the plugins change. *)
Definition for_all_plugins {W : Type} (op : nat -> W -> error * W) (m : resource_manager) (w : W) : W :=
  foldl (fun w entry => (op entry.2 w).2) w (table_order _ (resource_name_map_ m)).

(** [need_maintenance_operations]: [need p] is the flag the plugin sets. *)
Definition need_maintenance_operations (need : nat -> bool) (m : resource_manager) : bool :=
  existsb (fun entry => need entry.2) (table_order _ (resource_name_map_ m)).

Section maintenance.
(** [post_disconnect_maintenance_operation] of a plugin, if it has one. *)
Context {Op : Type} (pdmo : nat -> option Op).

Definition push_op (resc : nat) (ops : list Op) : list Op :=
  match pdmo resc with Some op => ops ++ [op] | None => ops end.

(** The first loop of [gather_operations_recursive]; [false]: a child is unknown. *)
Fixpoint gather_children (m : resource_manager) (names : list bstr) (proc_vec : list bstr)
    (resc_ops : list Op) : bool * list bstr * list Op :=
  match names with
  | [] => (true, proc_vec, resc_ops)
  | child :: names' =>
      match resource_name_map_ m !! child with
      | None => (false, proc_vec, resc_ops)
      | Some resc => gather_children m names' (proc_vec ++ [child]) (push_op resc resc_ops)
      end
  end.

(** The second loop, over [recurse]; what the recursive calls return is dropped. *)
Section descend.
Context (recurse : bstr -> list bstr -> list Op -> res (error * list bstr * list Op)).

Fixpoint descend_children (m : resource_manager) (names : list bstr) (proc_vec : list bstr)
    (resc_ops : list Op) : res (error * list bstr * list Op) :=
  match names with
  | [] => Ok (SUCCESS, proc_vec, resc_ops)
  | child :: names' =>
      match resource_name_map_ m !! child with
      | None => Ok (ERROR SYS_INVALID_INPUT_PARAM, proc_vec, resc_ops)
      | Some p =>
          r ← deref m p;
          match p_children (r_props r) with
          | [] => descend_children m names' proc_vec resc_ops
          | child_str =>
              '(_, proc_vec, resc_ops) ← recurse child_str proc_vec resc_ops;
              descend_children m names' proc_vec resc_ops
          end
      end
  end.
End descend.

(** [gather_operations_recursive]; the parser's own error is not looked at, and
    its list, a [std::map], is that of the children it read before it. *)
Fixpoint gather_operations_recursive (fuel : nat) (m : resource_manager) (_children : bstr)
    (_proc_vec : list bstr) (_resc_ops : list Op) : res (error * list bstr * list Op) :=
  match fuel with
  | O => Throw Ediverge
  | S fuel' =>
      match Children.set_string _children with
      | None => Throw Ediverge
      | Some (_, children_list) =>
          match gather_children m children_list.*1 _proc_vec _resc_ops with
          | (false, proc_vec, resc_ops) =>
              Ok (ERROR SYS_INVALID_INPUT_PARAM, proc_vec, resc_ops)
          | (true, proc_vec, resc_ops) =>
              descend_children (gather_operations_recursive fuel' m) m children_list.*1
                proc_vec resc_ops
          end
      end
  end.

(** One round of [gather_operations], on [proc_vec] and [maintenance_operations_]. *)
Definition gather_round (fuel : nat) (m : resource_manager) (st : list bstr * list (list Op))
    (entry : bstr * nat) : res (list bstr * list (list Op)) :=
  let '(proc_vec, maintenance_operations_) := st in
  r ← deref m entry.2;
  if bool_decide (r_name r ∈ proc_vec) then Ok st
  else
    let resc_ops := push_op entry.2 [] in
    let proc_vec := proc_vec ++ [r_name r] in
    '(proc_vec, resc_ops) ←
      match p_children (r_props r) with
      | [] => Ok (proc_vec, resc_ops)
      | child_str =>
          '(_, proc_vec, resc_ops) ← gather_operations_recursive fuel m child_str proc_vec resc_ops;
          Ok (proc_vec, resc_ops)
      end;
    Ok (proc_vec, match resc_ops with
                  | [] => maintenance_operations_
                  | _ => maintenance_operations_ ++ [resc_ops]
                  end).

Definition gather_operations (fuel : nat) (m : resource_manager)
    (maintenance_operations_ : list (list Op)) : res (list (list Op)) :=
  snd <$> fold_res (gather_round fuel m) ([], maintenance_operations_)
            (table_order _ (resource_name_map_ m)).

(** [call_maintenance_operations]: [run] is the call of one operation. *)
Definition call_round {W : Type} (run : Op -> W -> pdmo_result * W) (st : Z * W) (op : Op) : Z * W :=
  let '(result, w) := st in
  match run op w with
  | (PdmoReturns SUCCESS, w') => (result, w')
  | (PdmoReturns (ERROR c), w') => (c, w')
  | (PdmoBadCall, w') => (SYS_INTERNAL_ERR, w')
  end.

Definition call_maintenance_operations {W : Type} (run : Op -> W -> pdmo_result * W)
    (maintenance_operations_ : list (list Op)) (w : W) : Z * W :=
  foldl (foldl (call_round run)) (0%Z, w) maintenance_operations_.
End maintenance.
End walks.

(** ** The tree of a loaded manager *)

(** The child tables hold exactly the resources whose parent link points back. *)
Record children_wf (m : resource_manager) : Prop := {
  wf_child : forall q rq n c p, heap m !! q = Some rq -> children_ rq !! n = Some (c, p) ->
             exists rp, heap m !! p = Some rp /\ r_name rp = n /\ parent_ rp = Some q;
  wf_parent_child : forall p rp q, heap m !! p = Some rp -> parent_ rp = Some q ->
             exists rq c, heap m !! q = Some rq /\ children_ rq !! r_name rp = Some (c, p)
}.

(** Following parents ends for every resource. *)
Definition forest (m : resource_manager) : Prop :=
  forall p r, heap m !! p = Some r -> exists l, ancestry m p l.

(** [x] is a resource without children at or below [p]. *)
Inductive leaf_under (m : resource_manager) : nat -> nat -> Prop :=
| leaf_here p r : heap m !! p = Some r -> children_ r = ∅ -> leaf_under m p p
| leaf_below p r n c q x :
    heap m !! p = Some r -> children_ r !! n = Some (c, q) -> leaf_under m q x -> leaf_under m p x.

Record tree_manager `{LexicalCast} (m : resource_manager) : Prop := {
  tree_valid : manager_valid m;
  tree_children : children_wf m;
  tree_forest : forest m
}.

Lemma ancestry_unique m p l l' : ancestry m p l -> ancestry m p l' -> l = l'.
Proof.
  intros H. revert l'. induction H as [p r Hp Hpar|p r q l Hp Hpar _ IH]; intros l' H';
    inversion H'; simplify_eq; [done|]. by f_equal; apply IH.
Qed.

(** Each name of a path is that of an ancestor, whose path is a prefix. *)
Lemma ancestry_member m p l n :
  ancestry m p l -> n ∈ l ->
  exists q r l1 l2, heap m !! q = Some r /\ r_name r = n /\ ancestry m q l1 /\ l = l1 ++ l2.
Proof.
  induction 1 as [p r Hp Hpar|p r q l Hp Hpar Hq IH]; intros Hn.
  - apply list_elem_of_singleton in Hn as ->. exists p, r, [r_name r], [].
    split_and!; [done|done|by apply ancestry_root|done].
  - apply elem_of_app in Hn as [Hn|Hn%list_elem_of_singleton].
    + destruct (IH Hn) as (q' & r' & l1 & l2 & ? & ? & ? & ->).
      exists q', r', l1, (l2 ++ [r_name r]). by rewrite app_assoc.
    + subst. exists p, r, (l ++ [r_name r]), [].
      rewrite app_nil_r. split_and!; [done|done|by eapply ancestry_child|done].
Qed.

Section tree.
Context `{L : LexicalCast} (m : resource_manager) (Hm : tree_manager m).

Lemma tree_name p q r r' :
  heap m !! p = Some r -> heap m !! q = Some r' -> r_name r = r_name r' -> p = q.
Proof using All.
  intros Hp Hq E. pose proof (wf_name m (proj1 (tree_valid m Hm)) p r Hp) as H.
  rewrite E, (wf_name m (proj1 (tree_valid m Hm)) q r' Hq) in H. by simplify_eq.
Qed.

Lemma ancestry_NoDup p l : ancestry m p l -> NoDup l.
Proof using All.
  induction 1 as [p r Hp Hpar|p r q l Hp Hpar Hq IH]; [by apply NoDup_singleton|].
  apply NoDup_app. split_and!; [done| |by apply NoDup_singleton].
  intros n Hn ->%list_elem_of_singleton.
  destruct (ancestry_member m q l _ Hq Hn) as (q' & r' & l1 & l2 & Hq' & E & Hl1 & ->).
  assert (q' = p) as -> by by eapply tree_name.
  pose proof (ancestry_unique m p _ _ Hl1 (ancestry_child m p r q _ Hp Hpar Hq)) as E'.
  apply (f_equal length) in E'. rewrite !length_app in E'. simpl in E'. lia.
Qed.

(** A path is no longer than the table of resources. *)
Lemma ancestry_length p l : ancestry m p l -> (length l <= length (heap m))%nat.
Proof using All.
  intros H. transitivity (length (r_name <$> heap m)); [|by rewrite length_fmap].
  apply submseteq_length, NoDup_submseteq; [by eapply ancestry_NoDup|].
  intros n Hn. destruct (ancestry_member m p l n H Hn) as (q & r & _ & _ & Hq & <- & _).
  apply list_elem_of_fmap. exists r. split; [done|]. by eapply list_elem_of_lookup_2.
Qed.

Lemma child_ancestry p r n c q l :
  heap m !! p = Some r -> children_ r !! n = Some (c, q) -> ancestry m p l ->
  ancestry m q (l ++ [n]).
Proof using All.
  intros Hp Hn Hl. destruct (wf_child m (tree_children m Hm) p r n c q Hp Hn) as (rq & Hq & <- & Hpar).
  by eapply ancestry_child.
Qed.

Lemma leaf_under_ancestry p x l :
  leaf_under m p x -> ancestry m p l -> exists s, ancestry m x (l ++ s).
Proof using All.
  intros H. revert l. induction H as [p r Hp _|p r n c q x Hp Hn _ IH]; intros l Hl.
  - exists []. by rewrite app_nil_r.
  - destruct (IH (l ++ [n])) as [s Hs]; [by eapply child_ancestry|].
    exists (n :: s). by rewrite <- app_assoc in Hs.
Qed.

(** A leaf is below one child only. *)
Lemma leaf_under_child p r n1 c1 q1 n2 c2 q2 x :
  heap m !! p = Some r -> children_ r !! n1 = Some (c1, q1) -> children_ r !! n2 = Some (c2, q2) ->
  leaf_under m q1 x -> leaf_under m q2 x -> n1 = n2.
Proof using All.
  intros Hp H1 H2 Hx1 Hx2. destruct (tree_forest m Hm p r Hp) as [l Hl].
  destruct (leaf_under_ancestry q1 x _ Hx1 (child_ancestry p r n1 c1 q1 l Hp H1 Hl)) as [s1 Hs1].
  destruct (leaf_under_ancestry q2 x _ Hx2 (child_ancestry p r n2 c2 q2 l Hp H2 Hl)) as [s2 Hs2].
  pose proof (ancestry_unique m x _ _ Hs1 Hs2) as E. rewrite <- !app_assoc in E. by simplify_eq/=.
Qed.

Lemma leaf_under_lookup p x :
  leaf_under m p x -> exists r, heap m !! x = Some r /\ children_ r = ∅.
Proof using. induction 1; eauto. Qed.

Lemma tree_id p q r r' :
  heap m !! p = Some r -> heap m !! q = Some r' -> r_id r = r_id r' -> p = q.
Proof using All.
  intros Hp Hq E. pose proof (wf_id m (proj1 (tree_valid m Hm)) p r Hp) as H.
  rewrite E, (wf_id m (proj1 (tree_valid m Hm)) q r' Hq) in H. by simplify_eq.
Qed.

(** The ids of the leaves at or below [p]. *)
Definition leaf_id_under (p : nat) (i : Z) : Prop :=
  exists x r, leaf_under m p x /\ heap m !! x = Some r /\ r_id r = i.

Lemma leaf_id_under_child p r n1 c1 q1 n2 c2 q2 i :
  heap m !! p = Some r -> children_ r !! n1 = Some (c1, q1) -> children_ r !! n2 = Some (c2, q2) ->
  leaf_id_under q1 i -> leaf_id_under q2 i -> n1 = n2.
Proof using All.
  intros Hp H1 H2 (x & rx & Hx & Hrx & <-) (y & ry & Hy & Hry & E).
  assert (y = x) as -> by by eapply tree_id. exact (leaf_under_child p r n1 c1 q1 n2 c2 q2 x Hp H1 H2 Hx Hy).
Qed.

Lemma num_children_pos r : Nat.ltb 0 (num_children r) = bool_decide (children_ r <> ∅).
Proof using.
  apply eq_true_iff_eq. rewrite Nat.ltb_lt, bool_decide_eq_true. unfold num_children.
  destruct (decide (children_ r = ∅)) as [E|E]; [rewrite E, map_size_empty; split; [lia|done]|].
  split; [done|]. intros _. apply map_size_non_empty_iff in E. lia.
Qed.

End tree.

Section bundles.
Context `{L : LexicalCast} {TO : TableOrder} {TL : TableOrderLaws TO}.
Context (m : resource_manager) (Hm : tree_manager m).

Lemma elem_of_children r n : n ∈ children r <-> exists c q, children_ r !! n = Some (c, q).
Proof using TL.
  unfold children. rewrite (table_order_perm _ (children_ r)), list_elem_of_fmap. split.
  - intros ([n' [c q]] & -> & H). apply elem_of_map_to_list in H. eauto.
  - intros (c & q & H). exists (n, (c, q)). split; [done|]. by apply elem_of_map_to_list.
Qed.

Lemma NoDup_children r : NoDup (children r).
Proof using TL. unfold children. rewrite (table_order_perm _ (children_ r)). apply NoDup_fst_map_to_list. Qed.

Lemma children_nil r : children_ r = ∅ -> children r = [].
Proof using TL.
  intros E. destruct (children r) as [|n l] eqn:El; [done|].
  assert (n ∈ children r) as H by (rewrite El; by left).
  apply elem_of_children in H as (c & q & H). by rewrite E, lookup_empty in H.
Qed.

(** What gathering the bundle of [p] adds to the bundle passed in. *)
Definition gathers (f : list Z -> bstr -> res (list Z)) (n : bstr) (p : nat) : Prop :=
  forall b, exists ids, f b n = Ok (b ++ ids) /\ NoDup ids /\ forall i, i ∈ ids <-> leaf_id_under m p i.

Lemma fold_gathers f p r names :
  heap m !! p = Some r ->
  (forall n c q, children_ r !! n = Some (c, q) -> gathers f n q) ->
  NoDup names -> (forall n, n ∈ names -> exists c q, children_ r !! n = Some (c, q)) ->
  forall b, exists ids, fold_res f b names = Ok (b ++ ids) /\ NoDup ids /\
    forall i, i ∈ ids <-> exists n c q, n ∈ names /\ children_ r !! n = Some (c, q) /\ leaf_id_under m q i.
Proof using All.
  intros Hp Hf. induction names as [|n names IH]; intros Hnd Hin b.
  - exists []. rewrite app_nil_r. split_and!; [done|by apply NoDup_nil|]. intros i. split.
    + by intros H%not_elem_of_nil.
    + by intros (n & c & q & H%not_elem_of_nil & _).
  - apply NoDup_cons in Hnd as [Hn Hnd].
    destruct (Hin n) as (c & q & Hq); [by left|].
    destruct (Hf n c q Hq b) as (ids1 & E1 & N1 & M1).
    destruct (IH Hnd (fun n' H' => Hin n' (list_elem_of_further _ _ _ H')) (b ++ ids1)) as (ids2 & E2 & N2 & M2).
    exists (ids1 ++ ids2). cbn [fold_res]. rewrite E1. cbn. rewrite E2, <- app_assoc. split_and!; [done| |].
    + apply NoDup_app. split_and!; [done| |done]. intros i Hi1%M1 Hi2%M2.
      destruct Hi2 as (n' & c' & q' & Hn' & Hq' & Hi2). apply Hn.
      by rewrite (leaf_id_under_child m Hm p r n c q n' c' q' i).
    + intros i. rewrite elem_of_app, M1, M2. split.
      * intros [Hi|(n' & c' & q' & ? & ? & ?)]; [|by exists n', c', q'; split_and!; [right|..]].
        exists n, c, q. split_and!; [by left|done|done].
      * intros (n' & c' & q' & [->|Hn']%elem_of_cons & Hq' & Hi); [left; by simplify_eq|].
        right. by exists n', c', q'.
Qed.

Lemma gather_leaf_bundle_for_child_spec fuel p r l :
  heap m !! p = Some r -> ancestry m p l -> (length (heap m) < length l + fuel)%nat ->
  gathers (gather_leaf_bundle_for_child fuel m) (r_name r) p.
Proof using All.
  revert p r l. induction fuel as [|fuel IH]; intros p r l Hp Hl Hf b.
  - pose proof (ancestry_length m Hm p l Hl). lia.
  - cbn [gather_leaf_bundle_for_child].
    rewrite (resolve_name_spec m p r (tree_valid m Hm) Hp). unfold deref, mbind, res_bind. rewrite Hp.
    rewrite num_children_pos. case_bool_decide as Hc.
    + destruct (fold_gathers (gather_leaf_bundle_for_child fuel m) p r (children r) Hp) with (b := b)
        as (ids & E & N & M).
      * intros n c q Hn. destruct (wf_child m (tree_children m Hm) p r n c q Hp Hn) as (rq & Hq & <- & _).
        eapply IH; [done|exact (child_ancestry m Hm p r _ c q l Hp Hn Hl)|]. rewrite length_app. simpl. lia.
      * apply NoDup_children.
      * intros n. apply elem_of_children.
      * exists ids. split_and!; [done|done|]. intros i. rewrite M. split.
        -- intros (n & c & q & _ & Hq & x & rx & ? & ? & ?). exists x, rx. split_and!; [|done|done].
           by eapply leaf_below.
        -- intros (x & rx & Hx & Hrx & <-). inversion Hx as [? r' Hp'|? r' n c q ? Hp' Hn Hq]; simplify_eq.
           exists n, c, q. split_and!; [apply elem_of_children; eauto|done|]. by exists x, rx.
    + exists [r_id r]. split_and!; [done|by apply NoDup_singleton|].
      intros i. rewrite list_elem_of_singleton. split.
      * intros ->. exists p, r. split_and!; [by eapply leaf_here|done|done].
      * intros (x & rx & Hx & Hrx & <-). inversion Hx as [? r' Hp'|? r' n c q ? Hp' Hn Hq]; simplify_eq; [done|].
        by rewrite Hc, lookup_empty in Hn.
Qed.

(** The bundles of a list of children, one for each, in that order. *)
Lemma fold_bundles fuel p r names ret :
  heap m !! p = Some r -> (length (heap m) <= fuel)%nat ->
  (forall n, n ∈ names -> exists c q, children_ r !! n = Some (c, q)) ->
  exists bundles,
    fold_res (fun ret child =>
      b ← gather_leaf_bundle_for_child fuel m [] child;
      Ok (ret ++ [merge_sort Z.le b])) ret names = Ok (ret ++ bundles) /\
    Forall2 (fun n b => Sorted Z.le b /\ NoDup b /\
               exists c q, children_ r !! n = Some (c, q) /\ forall i, i ∈ b <-> leaf_id_under m q i)
      names bundles.
Proof using All.
  intros Hp Hf. revert ret. induction names as [|n names IH]; intros ret Hin.
  - exists []. rewrite app_nil_r. by split; [|constructor].
  - destruct (Hin n) as (c & q & Hn); [by left|].
    destruct (wf_child m (tree_children m Hm) p r n c q Hp Hn) as (rq & Hq & Eq & _).
    destruct (tree_forest m Hm q rq Hq) as [l Hl].
    assert (0 < length l)%nat as Hpos by (destruct (ancestry_valid m q l (tree_valid m Hm) Hl), l; [done|simpl; lia]).
    destruct (gather_leaf_bundle_for_child_spec fuel q rq l Hq Hl ltac:(lia) []) as (ids & E & N & M).
    rewrite Eq in E.
    destruct (IH (ret ++ [merge_sort Z.le ids])) as (bs & Eb & Hbs); [by intros n' Hn'; apply Hin; right|].
    exists (merge_sort Z.le ids :: bs). cbn [fold_res]. rewrite E. cbn [app]. unfold mbind, res_bind.
    unfold mbind, res_bind in Eb. rewrite Eb, <- app_assoc. split; [done|]. constructor; [|done].
    pose proof (merge_sort_Permutation Z.le ids) as P.
    split_and!; [apply Sorted_merge_sort, _|by rewrite P|].
    exists c, q. split; [done|]. intros i. by rewrite P.
Qed.

(** The entries the walks over the name table visit: each resource, once. *)
Lemma name_table_entries n p :
  (n, p) ∈ table_order _ (resource_name_map_ m) <-> exists r, heap m !! p = Some r /\ r_name r = n.
Proof using All.
  rewrite (table_order_perm _ (resource_name_map_ m)), elem_of_map_to_list. split.
  - apply (wf_name_heap m (proj1 (tree_valid m Hm))).
  - intros (r & Hp & <-). by apply (wf_name m (proj1 (tree_valid m Hm))).
Qed.

(** A walk over the name table that collects the texts [g] gives. *)
Definition collected (entries : list (bstr * nat)) (g : nat -> option bstr) : list bstr :=
  omap (fun entry => g entry.2) entries.

Lemma fold_collect (f : list bstr -> bstr * nat -> res (list bstr)) g entries l :
  (forall b n p, (n, p) ∈ entries ->
     f b (n, p) = Ok (match g p with Some t => b ++ [t] | None => b end)) ->
  fold_res f l entries = Ok (l ++ collected entries g).
Proof using.
  revert l. induction entries as [|[n p] entries IH]; intros l Hf; [by rewrite app_nil_r|].
  cbn [fold_res]. rewrite Hf by by left. unfold mbind, res_bind.
  rewrite IH by (intros; apply Hf; by right). unfold collected. simpl.
  destruct (g p); [by rewrite <- app_assoc|done].
Qed.

Lemma elem_of_collected g t :
  t ∈ collected (table_order _ (resource_name_map_ m)) g <->
  exists p r, heap m !! p = Some r /\ g p = Some t.
Proof using All.
  unfold collected. rewrite list_elem_of_omap. split.
  - intros ([n p] & Hin & Hg). apply name_table_entries in Hin as (r & Hp & _). eauto.
  - intros (p & r & Hp & Hg). exists (r_name r, p). split; [|done]. apply name_table_entries. eauto.
Qed.

Lemma NoDup_collected g :
  (forall p q t, g p = Some t -> g q = Some t -> p = q) ->
  NoDup (collected (table_order _ (resource_name_map_ m)) g).
Proof using All.
  intros Hg. assert (NoDup (table_order _ (resource_name_map_ m)).*1) as Hnd.
  { rewrite (table_order_perm _ (resource_name_map_ m)). apply NoDup_fst_map_to_list. }
  assert (forall n p, (n, p) ∈ table_order _ (resource_name_map_ m) ->
            exists r, heap m !! p = Some r /\ r_name r = n) as Hn by (intros n p; apply name_table_entries).
  revert Hnd Hn. generalize (table_order _ (resource_name_map_ m)).
  induction l as [|[n p] l IH]; intros Hnd Hn; [by apply NoDup_nil|]. simpl.
  apply NoDup_cons in Hnd as [Hnin Hnd].
  assert (NoDup (collected l g)) as IHl by (apply IH; [done|]; intros; apply Hn; by right).
  destruct (g p) as [t|] eqn:Eg; [|done]. apply NoDup_cons. split; [|done].
  unfold collected. rewrite list_elem_of_omap. intros ([n' p'] & Hin & Eg'). simpl in Eg'.
  rewrite (Hg p p' t Eg Eg') in Hn. apply Hnin, list_elem_of_fmap. exists (n', p'). split; [|done].
  destruct (Hn n p') as (r & Hr & <-); [by left|].
  destruct (Hn n' p') as (r' & Hr' & <-); [by right|]. by simplify_eq.
Qed.
End bundles.

(** ** The overloads agree *)

Lemma join_hier_app l1 l2 :
  l1 <> [] -> l2 <> [] -> join_hier (l1 ++ l2) = join_hier l1 ++ DELIM ++ join_hier l2.
Proof.
  intros H1 H2. induction l1 as [|r l1 IH]; [done|].
  destruct l1 as [|r' l1]; [by destruct l2|].
  change (join_hier ((r :: r' :: l1) ++ l2)) with (r ++ DELIM ++ join_hier ((r' :: l1) ++ l2)).
  rewrite IH by done. change (join_hier (r :: r' :: l1)) with (r ++ DELIM ++ join_hier (r' :: l1)).
  by rewrite <- !app_assoc.
Qed.

Section overloads.
Context `{L : LexicalCast} (m : resource_manager).

Lemma walk_parents_error_spec fuel q l hier :
  ancestry m q l -> (length l <= fuel)%nat ->
  walk_parents_error fuel m (Some q) hier = Ok (join_hier l ++ DELIM ++ hier).
Proof using.
  intros Hanc. revert fuel hier.
  induction Hanc as [p r Hp Hpar|p r q l Hp Hpar Hanc IH]; intros fuel hier Hf;
    rewrite ?length_app in Hf; simpl in Hf; (destruct fuel as [|fuel]; [lia|]);
    simpl; unfold deref; rewrite Hp; simpl; rewrite Hpar; [by destruct fuel|].
  rewrite IH by lia. assert (l <> []) by (by destruct Hanc as [|? ? ? []]).
  by rewrite join_hier_app, <- !app_assoc.
Qed.

Lemma leaf_id_to_hier_error_spec fuel p r l :
  manager_wf m -> heap m !! p = Some r -> ancestry m p l -> (length l <= fuel)%nat ->
  leaf_id_to_hier_error fuel m (r_id r) = Ok (inr (join_hier l)).
Proof using.
  intros Hwf Hp Hanc Hf. unfold leaf_id_to_hier_error.
  rewrite (wf_id m Hwf p r Hp). unfold deref. rewrite Hp. simpl.
  destruct Hanc as [p r' Hp' Hpar|p r' q l Hp' Hpar Hanc]; simplify_eq; rewrite Hpar.
  - by destruct fuel.
  - rewrite length_app in Hf. rewrite (walk_parents_error_spec fuel q l) by (done || lia). simpl.
    assert (l <> []) by (by destruct Hanc as [|? ? ? []]).
    by rewrite join_hier_app.
Qed.

Lemma hier_to_root_error_loop_spec fuel p r l hierarchy :
  manager_valid m -> heap m !! p = Some r -> ancestry m p l -> (length l <= fuel)%nat ->
  exists l', l = l' ++ [r_name r] /\
  hier_to_root_error_loop fuel m (r_name r) hierarchy =
    Ok (SUCCESS, match l' with [] => hierarchy | _ => join_hier l' ++ DELIM ++ hierarchy end).
Proof using.
  intros Hv Hp Hanc. revert r fuel hierarchy Hp.
  induction Hanc as [p r Hp Hpar|p r q l Hp Hpar Hanc IH]; intros r' fuel hierarchy Hr Hf;
    simplify_eq; pose proof (get_parent_name_spec m p r Hv Hp) as Hg; rewrite Hpar in Hg;
    rewrite ?length_app in Hf; simpl in Hf; (destruct fuel as [|fuel]; [lia|]);
    destruct (proj2 Hv p r Hp) as [(Hne & _) _]; cbn [hier_to_root_error_loop];
    rewrite (resolve_name_spec m p r Hv Hp).
  - exists []. split; [done|]. rewrite Hg. by destruct (r_name r).
  - destruct Hg as (rq & Hq & Hg). rewrite Hg.
    destruct (IH rq fuel (r_name rq ++ DELIM ++ hierarchy) Hq ltac:(lia)) as (l' & -> & E).
    exists (l' ++ [r_name rq]). split; [done|].
    destruct (proj2 Hv q rq Hq) as [(Hneq & _) _].
    destruct (r_name r) as [|c n]; [done|]. destruct (r_name rq) as [|c' n'] eqn:Eq; [done|].
    rewrite E. destruct l' as [|x l']; [done|].
    rewrite join_hier_app by done. cbn [app join_hier]. by rewrite <- !app_assoc.
Qed.

Lemma get_hier_to_root_for_resc_error_spec fuel p r l :
  manager_valid m -> heap m !! p = Some r -> ancestry m p l -> (length l <= fuel)%nat ->
  get_hier_to_root_for_resc_error fuel m (r_name r) = Ok (SUCCESS, join_hier l).
Proof using.
  intros Hv Hp Hanc Hf. unfold get_hier_to_root_for_resc_error.
  destruct (hier_to_root_error_loop_spec fuel p r l (r_name r) Hv Hp Hanc Hf) as (l' & -> & ->).
  destruct l' as [|x l']; [done|]. by rewrite join_hier_app.
Qed.

End overloads.

(** ** What the walks return *)

Section results.
Context `{L : LexicalCast} {TO : TableOrder} {TL : TableOrderLaws TO}.

Lemma hier_str_join l : Forall valid_name l -> hier_str l [] = join_hier l.
Proof using.
  intros Hl. destruct l as [|r l]; [done|].
  assert ([] ∉ r :: l) as Hn.
  { intros Hin. by destruct (proj1 (Forall_forall _ _) Hl [] Hin) as [? _]. }
  unfold hier_str. cbn [str_loop]. apply not_elem_of_cons in Hn as [Hr Hn].
  rewrite (proj2 (bstr_eqb_neq r [])) by congruence.
  rewrite str_loop_spec, upto_no_term by done. destruct l; [apply app_nil_r|done].
Qed.

(** The overloads of the hierarchy lookups that return an [error] give what the
    throwing ones give. *)
Theorem hierarchy_overloads_agree m p r fuel :
  tree_manager m -> heap m !! p = Some r -> (length (heap m) <= fuel)%nat ->
  exists h, leaf_id_to_hier fuel m (r_id r) = Ok h /\
            leaf_id_to_hier_error fuel m (r_id r) = Ok (inr h) /\
            get_hier_to_root_for_resc fuel m (r_name r) = Ok h /\
            get_hier_to_root_for_resc_error fuel m (r_name r) = Ok (SUCCESS, h) /\
            hier_to_leaf_id m h = Ok (r_id r).
Proof using.
  intros Hm Hp Hf. destruct (tree_forest m Hm p r Hp) as [l Hl].
  pose proof (ancestry_length m Hm p l Hl).
  destruct (ancestry_valid m p l (tree_valid m Hm) Hl) as [_ Hall].
  destruct (leaf_hierarchy_roundtrip m p r l fuel (tree_valid m Hm) Hp Hl ltac:(lia)) as (E1 & E2 & E3).
  exists (hier_str l []). rewrite E1, E2, E3, hier_str_join by done. split_and!; [done| |done| |done].
  - apply (leaf_id_to_hier_error_spec m fuel p r l (proj1 (tree_valid m Hm)) Hp Hl). lia.
  - apply (get_hier_to_root_for_resc_error_spec m fuel p r l (tree_valid m Hm) Hp Hl). lia.
Qed.

(** C39: For a resource of a loaded tree, the leaf bundles computed for the rebalance
    are one for each child, in the order of the child table; each is sorted, has
    no id twice and holds exactly the ids of the leaves at or below that child; and no id
    is in the bundles of two children. Fuel for the number of resources is enough. *)
Theorem leaf_bundles_split m p r fuel :
  tree_manager m -> heap m !! p = Some r -> (length (heap m) <= fuel)%nat ->
  exists bundles,
    gather_leaf_bundles_for_resc fuel m (r_name r) = Ok bundles /\
    Forall2 (fun n b => Sorted Z.le b /\ NoDup b /\
               exists c q, children_ r !! n = Some (c, q) /\ forall i, i ∈ b <-> leaf_id_under m q i)
      (children r) bundles /\
    NoDup (concat bundles).
Proof using All.
  intros Hm Hp Hf.
  destruct (fold_bundles m Hm fuel p r (children r) [] Hp Hf) as (bs & E & Hbs).
  { intros n. apply elem_of_children. }
  exists bs. split_and!; [|done|].
  { unfold gather_leaf_bundles_for_resc. rewrite (resolve_name_spec m p r (tree_valid m Hm) Hp).
    unfold deref, mbind, res_bind. rewrite Hp. exact E. }
  clear E. pose proof (NoDup_children r) as Hnd. revert Hnd.
  induction Hbs as [|n b names bs (Hs & Hb & c & q & Hq & Hi) Hbs IH]; [by intros; apply NoDup_nil|].
  intros [Hn Hnd]%NoDup_cons. simpl. apply NoDup_app. split_and!; [done| |by apply IH].
  intros i Hib Hic. apply Hn. apply list_elem_of_In, in_concat in Hic as (b' & Hb'%list_elem_of_In & Hib'%list_elem_of_In).
  apply list_elem_of_lookup in Hb' as [k Hk].
  destruct (Forall2_lookup_r _ _ _ _ _ Hbs Hk) as (n' & Hn' & _ & _ & c' & q' & Hq' & Hi').
  rewrite (leaf_id_under_child m Hm p r n c q n' c' q' i Hp Hq Hq'); [by eapply list_elem_of_lookup_2|..].
  - by apply Hi.
  - by apply Hi'.
Qed.

(** The roots are the resources without a parent, each listed once. *)
Theorem root_resources_listed m :
  tree_manager m ->
  exists roots, (forall l, get_root_resources m l = Ok (l ++ roots)) /\ NoDup roots /\
    forall n, n ∈ roots <-> exists p r, heap m !! p = Some r /\ parent_ r = None /\ r_name r = n.
Proof using All.
  intros Hm.
  set (g := fun p => r ← heap m !! p; match parent_ r with None => Some (r_name r) | Some _ => None end).
  assert (forall p t, g p = Some t <-> exists r, heap m !! p = Some r /\ parent_ r = None /\ r_name r = t) as Hg.
  { intros p t. unfold g. rewrite bind_Some. split.
    - intros (r & Hp & E). exists r. destruct (parent_ r); by simplify_eq.
    - intros (r & Hp & E & <-). exists r. by rewrite E. }
  exists (collected (table_order _ (resource_name_map_ m)) g). split_and!.
  - intros l. unfold get_root_resources. apply fold_collect.
    intros b n p Hin. apply (name_table_entries m Hm) in Hin as (r & Hp & _).
    unfold deref, g. simpl. rewrite Hp. simpl. by destruct (parent_ r).
  - apply (NoDup_collected m Hm). intros p q t (r & Hp & _ & <-)%Hg (r' & Hq & _ & E)%Hg.
    by eapply (tree_name m Hm).
  - intros n. rewrite (elem_of_collected m Hm). split.
    + intros (p & r & _ & (r' & ? & ? & ?)%Hg). by exists p, r'.
    + intros (p & r & Hp & ? & ?). exists p, r. split; [done|]. apply Hg. by exists r.
Qed.

(** All hierarchies are the paths to the resources without children, each listed
    once, and the leaf id of each is that of its resource. *)
Theorem all_hierarchies_listed m fuel :
  tree_manager m -> (length (heap m) <= fuel)%nat ->
  exists hiers, get_all_resc_hierarchies fuel m = Ok hiers /\ NoDup hiers /\
    (forall h, h ∈ hiers <-> exists p r, heap m !! p = Some r /\ children_ r = ∅ /\
                leaf_id_to_hier fuel m (r_id r) = Ok h) /\
    Forall (fun h => exists p r, heap m !! p = Some r /\ hier_to_leaf_id m h = Ok (r_id r)) hiers.
Proof using All.
  intros Hm Hf.
  set (g := fun p => r ← heap m !! p;
         if decide (children_ r = ∅) then
           match leaf_id_to_hier fuel m (r_id r) with Ok h => Some h | Throw _ => None end
         else None).
  assert (forall p t, g p = Some t <-> exists r, heap m !! p = Some r /\ children_ r = ∅ /\
            leaf_id_to_hier fuel m (r_id r) = Ok t) as Hg.
  { intros p t. unfold g. rewrite bind_Some. split.
    - intros (r & Hp & E). exists r. case_decide; [|done]. by destruct (leaf_id_to_hier _ _ _); simplify_eq.
    - intros (r & Hp & E & E'). exists r. by rewrite decide_True, E'. }
  assert (forall p r t, heap m !! p = Some r -> leaf_id_to_hier fuel m (r_id r) = Ok t ->
            hier_to_leaf_id m t = Ok (r_id r)) as Hback.
  { intros p r t Hp E. destruct (hierarchy_overloads_agree m p r fuel Hm Hp Hf) as (h & E1 & _ & _ & _ & E2).
    rewrite E in E1. by simplify_eq. }
  assert (forall h, h ∈ collected (table_order _ (resource_name_map_ m)) g <->
            exists p r, heap m !! p = Some r /\ children_ r = ∅ /\ leaf_id_to_hier fuel m (r_id r) = Ok h) as Hin.
  { intros h. rewrite (elem_of_collected m Hm). split.
    - intros (p & r & _ & (r' & ? & ? & ?)%Hg). by exists p, r'.
    - intros (p & r & Hp & ? & ?). exists p, r. split; [done|]. apply Hg. by exists r. }
  exists (collected (table_order _ (resource_name_map_ m)) g). split_and!; [| |done|].
  - unfold get_all_resc_hierarchies. apply (fold_collect _ g _ []).
    intros b n p Hnp. apply (name_table_entries m Hm) in Hnp as (r & Hp & _).
    destruct (hierarchy_overloads_agree m p r fuel Hm Hp Hf) as (h & E1 & E2 & _).
    unfold deref, g, mbind, res_bind. cbn [snd]. rewrite Hp. cbn [option_bind].
    rewrite num_children_pos, E1, E2.
    case_bool_decide; case_decide; done.
  - apply (NoDup_collected m Hm). intros p q t (r & Hp & _ & E)%Hg (r' & Hq & _ & E')%Hg.
    apply (Hback p r t Hp) in E. apply (Hback q r' t Hq) in E'. rewrite E in E'.
    eapply (tree_id m Hm p q r r' Hp Hq). congruence.
  - apply Forall_forall. intros h (p & r & Hp & _ & E)%Hin. exists p, r. split; [done|]. by eapply Hback.
Qed.
End results.

(** ** The tree that is loaded *)

Section loading.
Context `{L : LexicalCast}.

Lemma alter_children (f : resource -> resource) i j (h : list resource) r :
  h !! i = Some r -> (forall x, children_ (f x) = children_ x) ->
  exists r', alter f j h !! i = Some r' /\ children_ r' = children_ r.
Proof using.
  intros Hi Hf. destruct (decide (i = j)) as [->|Hne].
  - rewrite list_lookup_alter_eq, Hi. eauto.
  - rewrite list_lookup_alter_ne by done. eauto.
Qed.

(** The entry for [p] reaches the table of [i] when [i] is the parent it names. *)
Definition links (ids : gmap Z nat) (h : list resource) (i : nat) (n : bstr) (p : nat) : Prop :=
  n <> [] /\ exists c, h !! p = Some c /\ parent_of ids (r_props c) = Some i.

Lemma wire_child_children ids h n p i r :
  h !! i = Some r ->
  exists r', wire_child ids h (n, p) !! i = Some r' /\
   ((links ids h i n p /\ exists c, children_ r' = <[n := (c, p)]> (children_ r)) \/
    (~ links ids h i n p /\ children_ r' = children_ r)).
Proof using.
  intros Hi. unfold wire_child, links.
  destruct (h !! p) as [c|] eqn:Hp.
  2:{ exists r. split; [done|]. right. split; [|done]. by intros (_ & ? & ? & _). }
  destruct (parent_of ids (r_props c)) as [q|] eqn:Hq.
  2:{ exists r. split; [done|]. right. split; [|done]. intros (_ & ? & ? & ?). by simplify_eq. }
  set (f := add_child_link n (p_parent_context (r_props c)) p).
  destruct (decide (i = q)) as [->|Hne].
  - destruct (alter_children (set_parent q) q p (alter f q h) (f r)) as (r' & H1 & H2);
      [by rewrite list_lookup_alter_eq, Hi|done|].
    exists r'. split; [done|]. rewrite H2. unfold f.
    destruct n as [|x n]; [right; split; [by intros [? _]|done]|]. left. split; [by eauto|].
    eexists. reflexivity.
  - destruct (alter_children (set_parent q) i p (alter f q h) r) as (r' & H1 & H2);
      [by rewrite list_lookup_alter_ne|done|].
    exists r'. split; [done|]. right. split; [|done]. intros (_ & c' & ? & ?). by simplify_eq.
Qed.

Lemma links_wire ids h e i n p : links ids (wire_child ids h e) i n p <-> links ids h i n p.
Proof using.
  destruct e as [n' p']. unfold links. split; intros (Hn & c & Hc & Hpar); (split; [done|]).
  - destruct (h !! p) as [c0|] eqn:E.
    + destruct (wire_child_lookup ids h n' p' p c0 E) as (c1 & E1 & E2 & _).
      simplify_eq. exists c0. by rewrite <- E2.
    + apply lookup_lt_Some in Hc. rewrite wire_child_length in Hc.
      apply lookup_ge_None in E. lia.
  - destruct (wire_child_lookup ids h n' p' p c Hc) as (c1 & E1 & E2 & _).
    exists c1. by rewrite E2.
Qed.

(** The child table of each resource after all the rounds. *)
Lemma wire_children_children ids l h i r :
  h !! i = Some r -> NoDup l.*1 ->
  exists r', foldl (wire_child ids) h l !! i = Some r' /\
   forall n p, (exists c, children_ r' !! n = Some (c, p)) <->
     ((n, p) ∈ l /\ links ids h i n p) \/
     (~ (exists p', (n, p') ∈ l /\ links ids h i n p') /\ exists c, children_ r !! n = Some (c, p)).
Proof using.
  revert h r. induction l as [|[n0 p0] l IH]; intros h r Hi Hnd.
  - exists r. split; [done|]. intros n p. split.
    + intros H. right. split; [|done]. by intros (? & ?%not_elem_of_nil & _).
    + by intros [[?%not_elem_of_nil _]|[_ ?]].
  - apply NoDup_cons in Hnd as [Hn0 Hnd]. cbn [foldl].
    destruct (wire_child_children ids h n0 p0 i r Hi) as (r1 & H1 & Hc1).
    destruct (IH _ r1 H1 Hnd) as (r2 & H2 & Hc2). exists r2. split; [done|].
    intros n p. rewrite Hc2. setoid_rewrite links_wire. setoid_rewrite elem_of_cons. clear Hc2.
    assert (forall x, (n0, x) ∉ l) as Hno.
    { intros x Hx. apply Hn0, list_elem_of_fmap. by exists (n0, x). }
    destruct (decide (n = n0)) as [->|Hne].
    + destruct Hc1 as [(Hl & c & ->)|(Hl & ->)].
      * rewrite lookup_insert_eq. split.
        -- intros [[? _]|(_ & c' & [= -> ->])]; [by exfalso; eapply Hno|]. left. split; [by left|done].
        -- intros [[[[= ->]|?] _]|[Hnot _]]; [|by exfalso; eapply Hno|].
           ++ right. split; [|by exists c]. intros (x & Hx & _). by eapply Hno.
           ++ exfalso. apply Hnot. exists p0. split; [by left|done].
      * split.
        -- intros [[? _]|(_ & Hc)]; [by exfalso; eapply Hno|]. right. split; [|done].
           intros (x & [[= ->]|Hx] & Hx'); [done|by eapply Hno].
        -- intros [[[[= ->]|?] ?]|[_ Hc]]; [done|by exfalso; eapply Hno|].
           right. split; [|done]. intros (x & Hx & _). by eapply Hno.
    + assert (forall c, children_ r1 !! n = Some (c, p) <-> children_ r !! n = Some (c, p)) as Hsame.
      { intros c'. destruct Hc1 as [(_ & c & ->)|(_ & ->)]; [by rewrite lookup_insert_ne|done]. }
      setoid_rewrite Hsame. split.
      * intros [[? ?]|[Hnot ?]]; [left; auto|right]. split; [|done].
        intros (x & [[= ]|Hx] & Hx'); [done|]. apply Hnot. eauto.
      * intros [[[[= ]|?] ?]|[Hnot ?]]; [done|left; auto|right]. split; [|done].
        intros (x & Hx & Hx'). apply Hnot. eauto.
Qed.

(** Loading rows with distinct names that are not empty and distinct ids makes parent
    links and child tables that agree. *)
Theorem init_from_catalog_children loads rows :
  Forall (fun w => loads (c_type w) (c_name w) (c_context w) = true) rows ->
  Forall (fun w => c_name w <> []) rows ->
  NoDup (c_name <$> rows) -> NoDup ((fun w => strtoll0 (c_id w)) <$> rows) ->
  children_wf (init_from_catalog loads rows empty_manager).
Proof using.
  intros Hl Hne Hn Hi.
  destruct (init_from_catalog_wf_aux loads rows Hl Hn Hi) as [Hwf Hrows].
  set (m := init_from_catalog loads rows empty_manager) in *.
  assert (exists h0, heap m = foldl (wire_child (resource_id_map_ m)) h0 (map_to_list (resource_name_map_ m)) /\
            forall i r, h0 !! i = Some r -> children_ r = ∅ /\ parent_ r = None) as (h0 & Hh & Hempty).
  { unfold m, init_from_catalog. rewrite load_rows_spec by done.
    exists ([] ++ (resource_of_row <$> rows)). split; [done|]. intros i r. simpl.
    rewrite list_lookup_fmap. intros (w & _ & ->)%fmap_Some. done. }
  assert (forall q rq n p, heap m !! q = Some rq ->
            (exists c, children_ rq !! n = Some (c, p)) <->
            resource_name_map_ m !! n = Some p /\ links (resource_id_map_ m) (heap m) q n p) as Hspec.
  { intros q rq n p Hq.
    assert (is_Some (h0 !! q)) as [r0 Hr0].
    { apply lookup_lt_is_Some. rewrite <- (foldl_wire_length (resource_id_map_ m) (map_to_list (resource_name_map_ m))), <- Hh.
      by eapply lookup_lt_Some. }
    destruct (wire_children_children (resource_id_map_ m) (map_to_list (resource_name_map_ m)) h0 q r0 Hr0)
      as (r' & Hr' & Hc); [apply NoDup_fst_map_to_list|].
    rewrite <- Hh, Hq in Hr'. injection Hr' as <-. rewrite Hc, elem_of_map_to_list.
    destruct (Hempty q r0 Hr0) as [-> _].
    assert (links (resource_id_map_ m) (heap m) q n p <-> links (resource_id_map_ m) h0 q n p) as ->.
    { rewrite Hh. generalize (map_to_list (resource_name_map_ m)). intros l. clear. revert h0.
      induction l as [|e l IH]; intros h; [done|]. cbn [foldl]. by rewrite IH, links_wire. }
    split; [|by left]. intros [?|(_ & c & Hx)]; [done|by rewrite lookup_empty in Hx]. }
  assert (forall p r, heap m !! p = Some r -> r_name r <> []) as Hnames.
  { intros p r Hp. destruct (Forall2_lookup_r _ _ _ _ _ Hrows Hp) as (w & Hw & Hpr).
    unfold r_name. rewrite Hpr. by apply (Forall_lookup_1 _ _ _ _ Hne Hw). }
  split.
  - intros q rq n c p Hq Hn'. destruct (proj1 (Hspec q rq n p Hq)) as [Hmap (_ & rp & Hp & Hpar)]; [eauto|].
    destruct (wf_name_heap m Hwf n p Hmap) as (rp' & Hp' & <-).
    exists rp'. split_and!; [done|done|]. rewrite (wf_parent m Hwf p rp' Hp'). congruence.
  - intros p rp q Hp Hpar. rewrite (wf_parent m Hwf p rp Hp) in Hpar.
    assert (is_Some (heap m !! q)) as [rq Hq].
    { unfold parent_of in Hpar. destruct (p_parent (r_props rp)); [done|].
      apply bind_Some in Hpar as (i & _ & Hi'). destruct (wf_id_heap m Hwf i q Hi') as (? & ? & _). eauto. }
    destruct (proj2 (Hspec q rq (r_name rp) p Hq)) as [c Hc]; [|eauto].
    split; [by apply (wf_name m Hwf)|]. split; [by eapply Hnames|]. eauto.
Qed.
End loading.

(** A resource made from a type is found under its key, by no id that was not there, and no
    other resource is touched. *)
Lemma init_from_type_resolves load_plugin impostor ty key inst ctx m m' :
  init_from_type load_plugin impostor ty key inst ctx m = (SUCCESS, m') -> key <> [] ->
  exists p r, resolve_name m' key = Ok p /\ deref m' p = Ok r /\
    load_resource_plugin load_plugin impostor ty inst ctx = inl r /\
    (forall i, resolve_id m' i = resolve_id m i) /\
    (forall n, n <> key -> resolve_name m' n = resolve_name m n) /\
    (forall q r', heap m !! q = Some r' -> heap m' !! q = Some r').
Proof.
  unfold init_from_type. destruct (load_resource_plugin _ _ _ _ _) as [r|c]; intros [= <-]; intros Hk.
  exists (length (heap m)), r. unfold resolve_name, resolve_id, deref. cbn [heap resource_name_map_ resource_id_map_].
  split_and!; [destruct key; [done|by rewrite lookup_insert_eq]|by rewrite list_lookup_middle|done|done| |].
  - intros n Hn. destruct n; [done|]. by rewrite lookup_insert_ne.
  - intros q r' Hq. by apply lookup_app_l_Some.
Qed.

(** ** Maintenance operations *)

Section maintenance_facts.
Context {Op W : Type} (pdmo : nat -> option Op) (m : resource_manager).

(** Every operation is called, in order; the codes are those of the calls that fail. *)
Fixpoint run_all (run : Op -> W -> pdmo_result * W) (ops : list Op) (w : W) : list Z * W :=
  match ops with
  | [] => ([], w)
  | op :: ops' =>
      let '(ret, w1) := run op w in
      let '(codes, w2) := run_all run ops' w1 in
      (match ret with
       | PdmoReturns SUCCESS => codes
       | PdmoReturns (ERROR c) => c :: codes
       | PdmoBadCall => SYS_INTERNAL_ERR :: codes
       end, w2)
  end.

Lemma call_rounds run ops result w :
  foldl (call_round run) (result, w) ops =
  (List.last (run_all run ops w).1 result, (run_all run ops w).2).
Proof using.
  revert result w. induction ops as [|op ops IH]; intros result w; [done|]. cbn [foldl run_all].
  unfold call_round at 2. destruct (run op w) as [ret w1]. specialize (IH result w1) as IH0.
  destruct (run_all run ops w1) as [codes w2] eqn:E.
  assert (forall c, List.last (c :: codes) result = List.last codes c) as Hlast.
  { intros c. revert c. induction codes as [|c' codes' IH']; intros c; [done|].
    cbn [List.last] in *. destruct codes'; [done|]. clear. generalize c. induction codes'; [done|].
    intros; simpl in *; destruct codes'; done. }
  destruct ret as [[|c]|]; rewrite IH, E; cbn [fst snd]; by rewrite ?Hlast.
Qed.

(** A failing operation does not stop the others; the result is the last failure. *)
Theorem maintenance_runs_all run ops w :
  call_maintenance_operations run ops w =
  (List.last (run_all run (concat ops) w).1 0%Z, (run_all run (concat ops) w).2).
Proof using.
  unfold call_maintenance_operations. rewrite <- call_rounds. generalize (0%Z, w).
  induction ops as [|o ops IH]; intros st; [done|]. simpl. by rewrite IH, foldl_app.
Qed.

(** The operations in [ops] are there for every resource named in [proc_vec]. *)
Definition covered (ops : list Op) (proc_vec : list bstr) : Prop :=
  forall n p op, n ∈ proc_vec -> resource_name_map_ m !! n = Some p -> pdmo p = Some op -> op ∈ ops.

(** A step keeps what is listed and covers what it marks, behind the operations [B]. *)
Definition gathers_more (B : list Op) (st st' : list bstr * list Op) : Prop :=
  (covered (B ++ st.2) st.1 -> covered (B ++ st'.2) st'.1) /\ st.1 ⊆ st'.1 /\ st.2 ⊆ st'.2.

Lemma gathers_refl B st : gathers_more B st st.
Proof using. by split_and!. Qed.

Lemma gathers_trans B a b c : gathers_more B a b -> gathers_more B b c -> gathers_more B a c.
Proof using. intros (? & ? & ?) (? & ? & ?). split_and!; [auto|etrans; eauto..]. Qed.

Lemma push_op_in p ops op : pdmo p = Some op -> op ∈ push_op pdmo p ops.
Proof using. intros E. unfold push_op. rewrite E. apply elem_of_app. right. by left. Qed.

Lemma push_op_sub p ops : ops ⊆ push_op pdmo p ops.
Proof using. unfold push_op. destruct (pdmo p); [|done]. by apply list_subseteq_app_l. Qed.

Lemma gathers_push B n p proc ops :
  resource_name_map_ m !! n = Some p -> gathers_more B (proc, ops) (proc ++ [n], push_op pdmo p ops).
Proof using.
  intros Hn. split_and!; [|by apply list_subseteq_app_l|apply push_op_sub]. simpl.
  intros Hc n' p' op [Hin| ->%list_elem_of_singleton]%elem_of_app Hp' Hop.
  - pose proof (Hc n' p' op Hin Hp' Hop) as [?|?]%elem_of_app; apply elem_of_app; [by left|right].
    by apply push_op_sub.
  - simplify_eq. apply elem_of_app. right. by apply push_op_in.
Qed.

Lemma gather_children_extends B names proc ops b proc' ops' :
  gather_children pdmo m names proc ops = (b, proc', ops') ->
  gathers_more B (proc, ops) (proc', ops') /\
  (b = true -> forall n, n ∈ names -> is_Some (resource_name_map_ m !! n)).
Proof using.
  revert proc ops. induction names as [|n names IH]; intros proc ops; simpl.
  - intros [= <- <- <-]. split; [apply gathers_refl|]. by intros _ n ?%not_elem_of_nil.
  - destruct (resource_name_map_ m !! n) as [p|] eqn:En.
    + intros [He Hn]%IH. split; [eapply gathers_trans; [by apply gathers_push|done]|].
      intros Hb n' [->|Hn']%elem_of_cons; [by eexists|by apply Hn].
    + intros [= <- <- <-]. by split; [apply gathers_refl|].
Qed.

(** A rank by which the children strings go down, so that following them ends. *)
Context (rank : nat -> nat).
Definition ranked : Prop :=
  forall p r e l n q, heap m !! p = Some r -> Children.set_string (p_children (r_props r)) = Some (e, l) ->
    n ∈ l.*1 -> resource_name_map_ m !! n = Some q -> (rank q < rank p)%nat.

Lemma set_string_total s : is_Some (Children.set_string s).
Proof using. destruct s as [|c s]; [by eexists|]. by apply (set_string_loop_total (length (c :: s)) (c :: s)). Qed.

Lemma descend_children_extends B recurse names proc ops :
  (forall n p, resource_name_map_ m !! n = Some p -> is_Some (heap m !! p)) ->
  (forall n p r proc ops, n ∈ names -> resource_name_map_ m !! n = Some p -> heap m !! p = Some r ->
     exists e proc' ops', recurse (p_children (r_props r)) proc ops = Ok (e, proc', ops') /\
       gathers_more B (proc, ops) (proc', ops')) ->
  exists e proc' ops', descend_children recurse m names proc ops = Ok (e, proc', ops') /\
    gathers_more B (proc, ops) (proc', ops').
Proof using.
  intros Hheap. revert proc ops. induction names as [|n names IH]; intros proc ops Hrec; cbn [descend_children].
  - eexists _, _, _. split; [done|apply gathers_refl].
  - destruct (resource_name_map_ m !! n) as [p|] eqn:En.
    2:{ eexists _, _, _. split; [done|apply gathers_refl]. }
    destruct (Hheap n p En) as [r Hr]. unfold deref, mbind, res_bind. rewrite Hr.
    assert (forall n' p r proc ops, n' ∈ names -> resource_name_map_ m !! n' = Some p -> heap m !! p = Some r ->
       exists e proc' ops', recurse (p_children (r_props r)) proc ops = Ok (e, proc', ops') /\
         gathers_more B (proc, ops) (proc', ops')) as Hrec' by (intros; eapply Hrec; [by right|done..]).
    destruct (Hrec n p r proc ops) as (e1 & proc1 & ops1 & E1 & X1); [by left|done|done|].
    destruct (p_children (r_props r)) as [|c s]; [by apply IH|].
    rewrite E1. destruct (IH proc1 ops1 Hrec') as (e2 & proc2 & ops2 & E2 & X2).
    eexists _, _, _. split; [exact E2|]. by eapply gathers_trans.
Qed.

Lemma gather_recursive_extends B fuel p r proc ops :
  ranked -> (forall n p, resource_name_map_ m !! n = Some p -> is_Some (heap m !! p)) ->
  heap m !! p = Some r -> (rank p < fuel)%nat ->
  exists e proc' ops',
    gather_operations_recursive pdmo fuel m (p_children (r_props r)) proc ops = Ok (e, proc', ops') /\
    gathers_more B (proc, ops) (proc', ops').
Proof using.
  intros Hrank Hheap. revert p r proc ops. induction fuel as [|fuel IH]; intros p r proc ops Hp Hf; [lia|].
  cbn [gather_operations_recursive].
  destruct (set_string_total (p_children (r_props r))) as [[e l] El]. rewrite El.
  destruct (gather_children pdmo m l.*1 proc ops) as [[b proc1] ops1] eqn:Eg.
  destruct (gather_children_extends B _ _ _ _ _ _ Eg) as [X1 _].
  destruct b; [|by eexists _, _, _; split; [done|]].
  destruct (descend_children_extends B (gather_operations_recursive pdmo fuel m) l.*1 proc1 ops1 Hheap)
    as (e2 & proc2 & ops2 & E2 & X2).
  { intros n q rq proc' ops' Hn Hq Hrq. apply (IH q rq); [done|].
    pose proof (Hrank p r e l n q Hp El Hn Hq). lia. }
  eexists _, _, _. split; [exact E2|]. by eapply gathers_trans.
Qed.

Lemma gather_round_covers fuel st n p r :
  ranked -> (forall n p, resource_name_map_ m !! n = Some p -> exists r, heap m !! p = Some r /\ r_name r = n) ->
  resource_name_map_ m !! n = Some p -> heap m !! p = Some r -> r_name r = n -> (rank p < fuel)%nat ->
  covered (concat st.2) st.1 ->
  exists st', gather_round pdmo fuel m st (n, p) = Ok st' /\ covered (concat st'.2) st'.1 /\
    n ∈ st'.1 /\ st.1 ⊆ st'.1.
Proof using.
  intros Hrank Hheap Hn Hp <- Hf Hc. destruct st as [proc maint]. cbn [fst snd] in *.
  unfold gather_round, deref, mbind, res_bind. cbn [snd]. rewrite Hp.
  case_bool_decide as Hin; [by exists (proc, maint)|].
  pose proof (gathers_push (concat maint) (r_name r) p proc [] Hn) as X0.
  assert (exists proc' ops',
     match p_children (r_props r) with
     | [] => Ok (proc ++ [r_name r], push_op pdmo p [])
     | child_str => '(_, proc_vec, resc_ops) ←
         gather_operations_recursive pdmo fuel m child_str (proc ++ [r_name r]) (push_op pdmo p []);
         Ok (proc_vec, resc_ops)
     end = Ok (proc', ops') /\ gathers_more (concat maint) (proc, []) (proc', ops') /\ r_name r ∈ proc')
    as (proc' & ops' & E & (X1 & X2 & _) & Hnin).
  { assert (r_name r ∈ proc ++ [r_name r]) as Hin' by (apply elem_of_app; right; by left).
    destruct (gather_recursive_extends (concat maint) fuel p r (proc ++ [r_name r]) (push_op pdmo p []))
      as (e & proc' & ops' & E & X); [done| |done|done|].
    { intros n' p' (r' & ? & _)%Hheap. by eexists. }
    destruct (p_children (r_props r)) as [|c s]; [by eexists _, _|].
    unfold mbind, res_bind. rewrite E. eexists _, _. split; [done|].
    split; [by eapply gathers_trans|]. by apply (proj1 (proj2 X)). }
  unfold mbind, res_bind in E. rewrite E. eexists. split; [done|]. cbn [fst snd] in *. split_and!; [|done|done].
  rewrite app_nil_r in X1. specialize (X1 Hc). destruct ops' as [|o ops']; [by rewrite app_nil_r in X1|].
  by rewrite concat_app; simpl; rewrite app_nil_r.
Qed.
End maintenance_facts.

Section gathering.
Context `{L : LexicalCast} {TO : TableOrder} {TL : TableOrderLaws TO}.
Context {Op : Type} (pdmo : nat -> option Op).

(** When the children strings lead down, gathering ends, and the operation of every
    resource is among those gathered; fuel above the ranks is enough. *)
Theorem gathered_operations_complete m rank fuel :
  manager_wf m -> ranked m rank -> (forall p r, heap m !! p = Some r -> (rank p < fuel)%nat) ->
  exists ops, gather_operations pdmo fuel m [] = Ok ops /\
    forall p r op, heap m !! p = Some r -> pdmo p = Some op -> op ∈ concat ops.
Proof using TL.
  intros Hwf Hrank Hf.
  assert (forall entries st,
     (forall n p, (n, p) ∈ entries -> resource_name_map_ m !! n = Some p) ->
     covered pdmo m (concat st.2) st.1 ->
     exists st', fold_res (gather_round pdmo fuel m) st entries = Ok st' /\
       covered pdmo m (concat st'.2) st'.1 /\ entries.*1 ⊆ st'.1 /\ st.1 ⊆ st'.1) as Hfold.
  { induction entries as [|[n p] entries IH]; intros st Hin Hc.
    - exists st. split_and!; [done|done|apply list_subseteq_nil|done].
    - pose proof (Hin n p ltac:(by left)) as Hn.
      destruct (wf_name_heap m Hwf n p Hn) as (r & Hp & Er).
      destruct (gather_round_covers pdmo m rank fuel st n p r Hrank (wf_name_heap m Hwf) Hn Hp Er (Hf p r Hp) Hc)
        as (st1 & E1 & C1 & N1 & S1).
      destruct (IH st1) as (st2 & E2 & C2 & N2 & S2); [intros; apply Hin; by right|done|].
      exists st2. cbn [fold_res]. unfold mbind, res_bind in *. rewrite E1. split_and!; [done|done| |].
      + intros x [->|Hx]%elem_of_cons; [by apply S2|by apply N2].
      + by etrans. }
  destruct (Hfold (table_order _ (resource_name_map_ m)) ([], [])) as ([proc ops] & E & C & N & _).
  { intros n p. rewrite (table_order_perm _ (resource_name_map_ m)). apply elem_of_map_to_list. }
  { intros n p op Hn. by apply not_elem_of_nil in Hn. }
  exists ops. unfold gather_operations. rewrite E. split; [done|].
  intros p r op Hp Hop. apply (C (r_name r) p op); [|by apply (wf_name m Hwf)|done].
  apply N, list_elem_of_fmap. exists (r_name r, p). split; [done|].
  rewrite (table_order_perm _ (resource_name_map_ m)). apply elem_of_map_to_list. by apply (wf_name m Hwf).
Qed.
End gathering.

(** ** Instances *)

#[local] Existing Instance lexical_cast_ref.

(** A table iterated in the order of [gmap]'s own enumeration, and in the reverse order. *)
Definition order_forward : TableOrder := fun V m => map_to_list m.
Definition order_backward : TableOrder := fun V m => reverse (map_to_list m).

#[export] Instance order_forward_laws : TableOrderLaws order_forward.
Proof. by intros V m. Qed.

#[export] Instance order_backward_laws : TableOrderLaws order_backward.
Proof. intros V m. apply reverse_Permutation. Qed.

(** [root] with the children [mid] and [c]; [mid] with the leaves [a] and [b]. *)
Definition tree_rows : list row :=
  [sample_row "10" "root" ""; sample_row "11" "mid" "10"; sample_row "13" "b" "11";
   sample_row "12" "a" "11"; sample_row "9" "c" "10"].
Definition tree_sample : resource_manager :=
  init_from_catalog (fun _ _ _ => true) tree_rows empty_manager.

(** A test for the paths of a table of resources. *)
Fixpoint path_up (fuel : nat) (m : resource_manager) (p : nat) : option (list bstr) :=
  match fuel with
  | O => None
  | S fuel' =>
      r ← heap m !! p;
      match parent_ r with
      | None => Some [r_name r]
      | Some q => l ← path_up fuel' m q; Some (l ++ [r_name r])
      end
  end.

Lemma path_up_ancestry fuel m p l : path_up fuel m p = Some l -> ancestry m p l.
Proof.
  revert p l. induction fuel as [|fuel IH]; intros p l; [done|]. simpl.
  intros (r & Hp & H)%bind_Some. destruct (parent_ r) as [q|] eqn:Eq.
  - apply bind_Some in H as (l' & Hq & [= <-]). eapply ancestry_child; eauto.
  - injection H as <-. by apply ancestry_root.
Qed.

Lemma tree_sample_tree : tree_manager tree_sample.
Proof.
  split.
  - split; [refine (proj1 (init_from_catalog_wf_aux (fun _ _ _ => true) tree_rows _ _ _)); by_evaluation|].
    assert (Forall (fun r => valid_name (r_name r) /\
        (p_parent (r_props r) = [] \/
         is_Some (parent_of (resource_id_map_ tree_sample) (r_props r)))) (heap tree_sample)) as H
      by by_evaluation.
    intros p r Hr. exact (Forall_lookup_1 _ _ _ _ H Hr).
  - apply init_from_catalog_children; by_evaluation.
  - intros p r Hp.
    assert (Forall (fun p => is_Some (path_up 5 tree_sample p)) (seq 0 5)) as H by by_evaluation.
    destruct (proj1 (Forall_forall _ _) H p) as [l Hl]; [|exists l; by eapply path_up_ancestry].
    apply lookup_lt_Some in Hp. change (length (heap tree_sample)) with 5%nat in Hp.
    apply elem_of_seq. lia.
Qed.

Lemma leaf_bundles_split_witness :
  exists bundles,
    @gather_leaf_bundles_for_resc order_forward 5 tree_sample (lit "root") = Ok bundles /\
    NoDup (concat bundles) /\ length (concat bundles) = 3.
Proof.
  assert (exists r, heap tree_sample !! 0 = Some r /\ r_name r = lit "root") as (r & Hp & Er)
    by (eexists; split; vm_compute; reflexivity).
  destruct (@leaf_bundles_split _ order_forward _ tree_sample 0 r 5 tree_sample_tree Hp) as (bs & E & _ & N).
  { vm_compute. lia. }
  rewrite Er in E. exists bs. split_and!; [exact E|exact N|].
  assert (@gather_leaf_bundles_for_resc order_forward 5 tree_sample (lit "root") = Ok [[9%Z]; [12%Z; 13%Z]] \/
          @gather_leaf_bundles_for_resc order_forward 5 tree_sample (lit "root") = Ok [[12%Z; 13%Z]; [9%Z]])
    as [E'|E'] by (vm_compute; tauto); rewrite E' in E; injection E as <-; reflexivity.
Defined.

(** A leaf that the table lists before its root, and a root whose children string names
    it, have the leaf's operation gathered twice; in the other order once. *)
Definition maintained_rows : list row :=
  [Row (lit "10") (lit "root") [] [] [] [] [] [] [] [] [] [] [] (lit "leaf{}") [] [] [];
   sample_row "11" "leaf" "10"].
Definition maintained : resource_manager :=
  init_from_catalog (fun _ _ _ => true) maintained_rows empty_manager.

Example operations_gathered_twice :
  exists O1 O2 : TableOrder, TableOrderLaws O1 /\ TableOrderLaws O2 /\
    (@concat nat <$> @gather_operations O1 nat Some 5 maintained []) = Ok [0; 1]%nat /\
    (@concat nat <$> @gather_operations O2 nat Some 5 maintained []) = Ok [1; 0; 1]%nat.
Proof.
  first [ exists order_forward, order_backward; split_and!; [apply _|apply _|by vm_compute|by vm_compute]
        | exists order_backward, order_forward; split_and!; [apply _|apply _|by vm_compute|by vm_compute] ].
Qed.

(** The two overloads of [resc_id_to_name] for strings differ on a zero that is not
    written ["0"]. *)
Example resc_id_overloads_differ :
  resc_id_str_to_name tree_sample (lit "00") = Ok [] /\
  resc_id_str_to_name_error tree_sample (lit "00") = Ok (inl SYS_RESC_DOES_NOT_EXIST).
Proof. by vm_compute. Qed.
