(* ===== verification/PhysPath.v ===== *)
(** * Physical paths and vaults

    Where the file of a replica lies and which physical paths a client may name:
    [server/core/src/physPath.cpp] (the schemes that compose a path, and following a
    rename), [server/core/src/fileOpr.cpp] (the checks of a path that is
    registered or created), [validate_vault_path] of
    [server/core/src/irods_resource_manager.cpp], [server/api/src/rsChkNVPathPerm.cpp] and
    the microservices of [server/re/src/reSysDataObjOpr.cpp] that choose among them.
    Strings have no NUL byte. *)

From stdpp Require Import base gmap list strings.
From Stdlib Require Import ZArith Lia Ascii.
From S2P Require Import Prelude Errors Numerals Hierarchy Quota FsPath Resources ResourceWalk.
Local Open Scope Z_scope.

(** ** Data *)

Inductive vaultPathScheme : Type := GRAFT_PATH_S | RANDOM_S.

Record vaultPathPolicy : Type := VaultPathPolicy {
  scheme : vaultPathScheme;
  addUserName : Z;
  trimDirCnt : Z
}.

Definition DEF_VAULT_PATH_SCHEME : vaultPathScheme := GRAFT_PATH_S.
Definition DEF_ADD_USER_FLAG : Z := 1.
Definition DEF_TRIM_DIR_CNT : Z := 1.

Definition DISALLOW_PATH_REG : Z := 0.
Definition NO_CHK_PATH_PERM : Z := 1.
Definition DO_CHK_PATH_PERM : Z := 2.
Definition CHK_NON_VAULT_PATH_PERM : Z := 3.

Definition NO_CREATE_PATH : Z := 0.

Definition SYS_INVALID_FILE_PATH : Z := -31000.
Definition SYS_NO_PATH_PERMISSION : Z := -36000.
Definition SYS_INPUT_PERM_OUT_OF_RANGE : Z := -48000.
Definition SYS_PHY_PATH_INUSE : Z := -120000.
Definition CANT_REG_IN_VAULT_FILE : Z := -128000.
Definition PATH_REG_NOT_ALLOWED : Z := -129000.

(** The fields of [dataObjInfo_t] that are read here, and the path that is written. *)
Record phys_replica : Type := PhysReplica {
  objPath : bstr; rescName : bstr; rescHier : bstr; filePath : bstr
}.

Definition set_filePath (f : bstr) (d : phys_replica) : phys_replica :=
  PhysReplica (objPath d) (rescName d) (rescHier d) f.

(** [snprintf(outPath, MAX_NAME_LEN, ...)] of a text: its result and what is stored. *)
Definition snprintf_path (text : bstr) : Z * bstr :=
  (Z.of_nat (length text), take (MAX_NAME_LEN - 1) text).

(** ** The schemes *)

(** [msiSetGraftPathScheme] and [msiSetRandomScheme]: the status and the parameter
    [VAULT_PATH_POLICY] left in the rule's parameters; [None]: as it was. *)
Definition msiSetGraftPathScheme (addUserNameStr trimDirCntStr : bstr) : Z * option vaultPathPolicy :=
  let addUserName :=
    if bstr_eqb addUserNameStr (lit "no") then Some 0
    else if bstr_eqb addUserNameStr (lit "yes") then Some 1
    else None in
  match addUserName with
  | None => (SYS_INPUT_PERM_OUT_OF_RANGE, None)
  | Some addUserName =>
      match trimDirCntStr with
      | c :: _ => if is_digit c
                  then (0, Some (VaultPathPolicy GRAFT_PATH_S addUserName (atoi trimDirCntStr)))
                  else (SYS_INPUT_PERM_OUT_OF_RANGE, None)
      | [] => (SYS_INPUT_PERM_OUT_OF_RANGE, None)
      end
  end.

Definition msiSetRandomScheme : Z * option vaultPathPolicy := (0, Some (VaultPathPolicy RANDOM_S 0 0)).

(** [getVaultPathPolicy]: [applied] is the status of the rule [acSetVaultPathPolicy] and
    the policy it leaves. *)
Definition getVaultPathPolicy (applied : Z * option vaultPathPolicy) : Z + vaultPathPolicy :=
  let '(status, msParam) := applied in
  if status <? 0 then inl status
  else
    let policy := match msParam with
                  | None => VaultPathPolicy DEF_VAULT_PATH_SCHEME DEF_ADD_USER_FLAG DEF_TRIM_DIR_CNT
                  | Some p => p
                  end in
    inr (if DEF_TRIM_DIR_CNT <? trimDirCnt policy
         then VaultPathPolicy (scheme policy) (addUserName policy) DEF_TRIM_DIR_CNT
         else policy).

(** [splitPathByKey]: the status and, where they are written, the two buffers. *)
Definition splitPathByKey (srcPath : bstr) (maxDirLen maxFileLen : nat) (key : ascii)
    : Z * option (bstr * bstr) :=
  if Nat.eqb maxDirLen 0 || Nat.eqb maxFileLen 0 then (SYS_INVALID_INPUT_PARAM, None)
  else match srcPath with
       | [] => (0, Some ([], []))
       | _ =>
           match find_last (Ascii.eqb key) srcPath with
           | None => (SYS_INVALID_FILE_PATH, Some ([], rstrcpy srcPath maxFileLen))
           | Some index_of_last_key =>
               let dir := take (Nat.max index_of_last_key 1) srcPath in
               let file := drop (S index_of_last_key) srcPath in
               if Nat.leb maxDirLen (length dir) || Nat.leb maxFileLen (length file)
               then (USER_STRLEN_TOOLONG, None)
               else (0, Some (rstrcpy dir maxDirLen, rstrcpy file maxFileLen))
           end
       end.

(** [setPathForRandomScheme]: [myRandom] is the random number, [rnd_str] the random
    suffix of the styles 1 and 2 and [now] the time; [None]: [outPath] is left. *)
Definition setPathForRandomScheme (style : Z) (rnd_str : bstr) (myRandom now : Z)
    (objPath vaultPath userName : bstr) : Z * option bstr :=
  let dir1 := Z.land myRandom 15 in
  let dir2 := Z.land (Z.shiftr myRandom 4) 15 in
  let '(status, split) := splitPathByKey objPath MAX_NAME_LEN MAX_NAME_LEN "/" in
  if status <? 0 then (status, None)
  else
    let logicalFileName := match split with Some (_, f) => f | None => [] end in
    let slash := lit "/" in
    let dirs := vaultPath ++ slash ++ userName ++ slash ++ to_string dir1 ++ slash ++ to_string dir2 ++ slash in
    let time := to_string (to_int now) in
    let text :=
      if style =? 1 then dirs ++ logicalFileName ++ lit "." ++ time ++ lit "." ++ rnd_str
      else if style =? 2 then dirs ++ time ++ lit "." ++ rnd_str
      else dirs ++ logicalFileName ++ lit "." ++ time in
    (0, Some (snprintf_path text).2).

(** The [for] loop of [setPathForGraftPathScheme], from round [i] on. *)
Fixpoint trim_dirs (rounds : nat) (first : bool) (objPathPtr : bstr) : bstr :=
  match rounds with
  | O => objPathPtr
  | S rounds' =>
      match find_idx (Ascii.eqb "/") objPathPtr with
      | None => objPathPtr
      | Some k =>
          let objPathPtr' := drop (S k) objPathPtr in
          if first && bstr_eqb (take 6 objPathPtr') (lit "trash/") then objPathPtr'
          else trim_dirs rounds' false objPathPtr'
      end
  end.

Definition setPathForGraftPathScheme (objPath vaultPath : bstr) (addUserName : Z) (userName : bstr)
    (trimDirCnt : Z) : Z * bstr :=
  let objPathPtr := trim_dirs (Z.to_nat trimDirCnt) true (drop 1 objPath) in
  let slash := lit "/" in
  let '(len, outPath) :=
    snprintf_path (if 0 <? addUserName then vaultPath ++ slash ++ userName ++ slash ++ objPathPtr
                   else vaultPath ++ slash ++ objPathPtr) in
  if Z.of_nat MAX_NAME_LEN <=? len then (USER_STRLEN_TOOLONG, outPath) else (0, outPath).

(** What the agent and the resource bring to [getFilePathName]: the value of
    [RESOURCE_CHECK_PATH_PERM], 0 when there is none; the vault path of the leaf, or the
    error; what the rule leaves; the random scheme's style, suffix, number and time. *)
Record path_inputs : Type := PathInputs {
  chk_path : Z;
  vault_path : Z + bstr;
  applied : Z * option vaultPathPolicy;
  style : Z; rnd_str : bstr; myRandom : Z; now : Z
}.

(** [getFilePathName]: [kw] is the client's [FILE_PATH_KW], [inp_path] the logical path
    of the input. *)
Definition getFilePathName (e : path_inputs) (userName : bstr) (kw : option bstr) (inp_path : bstr)
    (d : phys_replica) : Z * phys_replica :=
  match kw with
  | Some ((_ :: _) as path) => (0, set_filePath (rstrcpy path MAX_NAME_LEN) d)
  | _ =>
      match rescName d with
      | [] => (SYS_INVALID_RESC_INPUT, d)
      | _ =>
          if NO_CREATE_PATH =? chk_path e then (0, set_filePath [] d)
          else match vault_path e with
               | inl status => (status, d)
               | inr vault =>
                   match getVaultPathPolicy (applied e) with
                   | inl status => (status, d)
                   | inr policy =>
                       match scheme policy with
                       | GRAFT_PATH_S =>
                           let '(status, out) := setPathForGraftPathScheme inp_path vault
                                                   (addUserName policy) userName (trimDirCnt policy) in
                           (status, set_filePath out d)
                       | RANDOM_S =>
                           match setPathForRandomScheme (style e) (rnd_str e) (myRandom e) (now e)
                                   inp_path vault userName with
                           | (status, Some out) => (status, set_filePath out d)
                           | (status, None) => (status, d)
                           end
                       end
                   end
               end
      end
  end.

(** ** Which vault a path is in *)

(** [int has_prefix(path, prefix)] *)
Definition trim_last_empty (els : list bstr) : list bstr :=
  match rev els with
  | e :: els' => if path_eqb [] e then rev els' else els
  | [] => els
  end.

Fixpoint elements_start (child parent : list bstr) : bool :=
  match parent, child with
  | [], _ => true
  | p :: parent', c :: child' => path_eqb p c && elements_start child' parent'
  | _ :: _, [] => false
  end.

Definition has_path_prefix (path prefix : bstr) : bool :=
  match prefix with
  | [] => false
  | _ => if path_eqb prefix path then false
         else elements_start (elements path) (trim_last_empty (elements prefix))
  end.

Section vaults.
Context {TO : TableOrder}.

(** [RESOURCE_HOST] of a resource; a host is a number, [None] the null pointer. *)
Context (host_of : nat -> option nat) (m : resource_manager).

(** The loop: the vault path of the first resource on the host that occurs in the path. *)
Fixpoint find_vault (svr_host : nat) (_physical_path : bstr) (entries : list (bstr * nat))
    : res (option bstr) :=
  match entries with
  | [] => Ok None
  | (_, p) :: entries' =>
      if bool_decide (host_of p = Some svr_host) then
        r ← deref m p;
        let path := p_path (r_props r) in
        match path, strstr _physical_path path with
        | _ :: _, Some _ => Ok (Some path)
        | _, _ => find_vault svr_host _physical_path entries'
        end
      else find_vault svr_host _physical_path entries'
  end.

(** [inl]: the error; [inr]: [_out_path]. *)
Definition validate_vault_path (_physical_path : bstr) (_svr_host : option nat) : res (Z + bstr) :=
  match _svr_host with
  | None => Ok (inl USER__NULL_INPUT_ERR)
  | Some h =>
      if bool_decide (resource_name_map_ m = ∅) then Ok (inl SYS_INVALID_INPUT_PARAM)
      else match _physical_path with
           | [] => Ok (inl SYS_INVALID_INPUT_PARAM)
           | _ => v ← find_vault h _physical_path (table_order _ (resource_name_map_ m));
                  Ok (match v with Some path => inr path | None => inl SYS_INVALID_INPUT_PARAM end)
           end
  end.

(** ** The checks of a path that is registered *)

(** [path.compare(path.size() - 3, ...)] throws when the path is shorter: the unsigned
    difference is past its end. *)
Definition isValidFilePath (path : bstr) : res Z :=
  match strstr path (lit "/../") with
  | Some _ => Ok SYS_INVALID_FILE_PATH
  | None =>
      if Nat.ltb (length path) 3 then Throw Estd
      else Ok (if bstr_eqb (drop (length path - 3) path) (lit "/..") then SYS_INVALID_FILE_PATH else 0)
  end.

(** [userName] is that of [_comm], [None] for a null pointer. *)
Definition matchCliVaultPath (userName : option bstr) (_path : bstr) (_svr_host : option nat) : res Z :=
  match userName, _path, _svr_host with
  | Some userName, _ :: _, Some _ =>
      ret ← validate_vault_path _path _svr_host;
      match ret with
      | inl _ | inr [] => Ok 0
      | inr vault_path =>
          if Nat.ltb (length _path) (length vault_path) then Throw Estd
          else
            let user_path := drop (length vault_path) _path in
            let home_pos := match user_path with
                            | c :: _ => if Ascii.eqb c "/" then 1%nat else 0%nat
                            | [] => 0%nat
                            end in
            if negb (bool_decide (strstr user_path (lit "home/") = Some home_pos)) then Ok (-1)
            else
              let user_pos := (home_pos + 5)%nat in
              if negb (bool_decide (strstr user_path userName = Some user_pos)) then Ok (-1)
              else Ok 1
      end
  | _, _, _ => Ok SYS_INVALID_INPUT_PARAM
  end.

(** [nv_status] is what [rsChkNVPathPermByHost] returns. *)
Definition chkFilePathPerm (userName : option bstr) (fileName : bstr) (rodsServerHost : option nat)
    (chkType nv_status : Z) : res Z :=
  if chkType =? NO_CHK_PATH_PERM then Ok 0
  else if chkType =? DISALLOW_PATH_REG then Ok PATH_REG_NOT_ALLOWED
  else
    status ← isValidFilePath fileName;
    if status <? 0 then Ok status
    else match rodsServerHost with
         | None => Ok SYS_INTERNAL_NULL_INPUT_ERR
         | Some _ =>
             if chkType =? CHK_NON_VAULT_PATH_PERM then
               status ← matchCliVaultPath userName fileName rodsServerHost;
               if status =? 1 then Ok status
               else if status =? -1 then Ok CANT_REG_IN_VAULT_FILE
               else Ok nv_status
             else if chkType =? DO_CHK_PATH_PERM then
               ret ← validate_vault_path fileName rodsServerHost;
               match ret with
               | inr _ => Ok CANT_REG_IN_VAULT_FILE
               | inl _ => Ok nv_status
               end
             else Ok SYS_INVALID_INPUT_PARAM
         end.
End vaults.

(** [getchkPathPerm]: [inp] is [None] when an input is null; otherwise whether
    [REGISTER_AS_INTERMEDIATE_KW] is there, and [FILE_PATH_KW]. [rule_status] is what the
    rule [acSetChkFilePathPerm] leaves, [chk] the resource's property if it has one. *)
Definition getchkPathPerm (privileged : bool) (inp : option (bool * option bstr)) (rescName : bstr)
    (rule_status : Z) (chk : option Z) : Z :=
  if privileged then NO_CHK_PATH_PERM
  else match inp with
       | None => NO_CHK_PATH_PERM
       | Some (true, _) => NO_CHK_PATH_PERM
       | Some (false, Some (_ :: _)) =>
           match rescName with
           | [] => NO_CHK_PATH_PERM
           | _ =>
               match chk with
               | Some c => if (rule_status =? NO_CHK_PATH_PERM) || (NO_CHK_PATH_PERM =? c)
                           then NO_CHK_PATH_PERM else rule_status
               | None => rule_status
               end
           end
       | Some (false, _) => NO_CHK_PATH_PERM
       end.

Definition msiSetChkFilePathPerm (chkType : bstr) : Z :=
  if bstr_eqb chkType (lit "doChkPathPerm") then DO_CHK_PATH_PERM
  else if bstr_eqb chkType (lit "noChkPathPerm") then NO_CHK_PATH_PERM
  else if bstr_eqb chkType (lit "chkNonVaultPathPerm") then CHK_NON_VAULT_PATH_PERM
  else if bstr_eqb chkType (lit "disallowPathReg") then DISALLOW_PATH_REG
  else DISALLOW_PATH_REG.

(** ** The check on the server's own file system *)

Record stat_result : Type := StatResult {
  stat_code : Z; (* the code of [fileStat] *)
  stat_eexist : bool; (* [errno], or that of the code, is [EEXIST] *)
  st_uid : Z; st_mode : Z
}.

(** Back to the slash before: the path up to it, and [len]. *)
Fixpoint cut_back (len : nat) (tmpPath : bstr) : bstr * nat :=
  match len with
  | O => (tmpPath, O)
  | S len' => if bool_decide (tmpPath !! len = Some "/"%char) then (take len tmpPath, len')
              else cut_back len' tmpPath
  end.

(** The [while] loop; [len] goes down in each round but the last. *)
Fixpoint stat_loop (fuel : nat) (fileStat : bstr -> stat_result) (tmpPath : bstr) (len : nat)
    : res (bstr * stat_result) :=
  match fuel with
  | O => Throw Ediverge
  | S fuel' =>
      let st := fileStat tmpPath in
      if 0 <=? stat_code st then Ok (tmpPath, st)
      else if stat_eexist st then
        match cut_back len tmpPath with
        | (_, O) => Ok (tmpPath, st)
        | (tmpPath', len') => stat_loop fuel' fileStat tmpPath' len'
        end
      else Ok (tmpPath, st)
  end.

Definition S_IWOTH : Z := 2.

(** [_rsChkNVPathPerm]: the status and the [sysUid] left in the session. *)
Definition rsChkNVPathPerm (fileStat : bstr -> stat_result) (getUnixUid : bstr -> Z)
    (objPath userName fileName : bstr) (sysUid : Z) : res (Z * Z) :=
  match objPath with
  | [] => Ok (-1, sysUid)
  | _ =>
      if sysUid <? 0 then Ok (SYS_NO_PATH_PERMISSION, sysUid)
      else
        let sysUid := if sysUid =? 0 then getUnixUid userName else sysUid in
        if sysUid <? 0 then Ok (SYS_NO_PATH_PERMISSION, sysUid)
        else
          let tmpPath := rstrcpy fileName MAX_NAME_LEN in
          '(_, st) ← stat_loop (S (length tmpPath)) fileStat tmpPath (length tmpPath);
          Ok (if stat_code st <? 0 then SYS_NO_PATH_PERMISSION
              else if negb (sysUid =? st_uid st) && (Z.land (st_mode st) S_IWOTH =? 0)
              then SYS_NO_PATH_PERMISSION
              else 0,
              sysUid)
  end.

(** ** Following a rename *)

(** What the sync calls: the size of the file in the vault, the handling of an orphan
    file, the rename on the resource, which returns the name it gave, and the catalog. *)
Record phys_calls (W : Type) : Type := PhysCalls {
  getSizeInVault : bstr -> W -> Z;
  chkAndHandleOrphanFile : bstr -> W -> Z * W;
  rsFileRename : bstr -> bstr -> W -> (Z * bstr) * W;
  rsModDataObjMeta : bstr -> W -> Z * W
}.
Arguments getSizeInVault {W}.
Arguments chkAndHandleOrphanFile {W}.
Arguments rsFileRename {W}.
Arguments rsModDataObjMeta {W}.

(** [isInVault]: an error code or [has_prefix], as an [int]. *)
Definition isInVault (vault_path : Z + bstr) (d : phys_replica) : Z :=
  match vault_path with
  | inl code => code
  | inr v => if has_path_prefix (filePath d) v then 1 else 0
  end.

Section sync.
Context {W : Type} (calls : phys_calls W) (e : path_inputs).

(** [create_path] is the resource's property, 0 when there is none; [live] and
    [location] are the errors of [is_resc_live] and [get_loc_for_hier_string]. *)
Definition syncDataObjPhyPathS (create_path : Z) (live location : error) (userName : bstr)
    (inp : option (option bstr * bstr)) (d : phys_replica) (w : W) : Z * phys_replica * W :=
  if bstr_eqb (rescName d) (lit "bundleResc") then (0, d, w)
  else if NO_CREATE_PATH =? create_path then (0, d, w)
  else
    let synced := match getVaultPathPolicy (applied e) with
                  | inl _ => true
                  | inr policy => match scheme policy with GRAFT_PATH_S => true | RANDOM_S => false end
                  end in
    if negb synced then (0, d, w)
    else if isInVault (vault_path e) d =? 0 then (0, d, w)
    else match live, location with
         | ERROR c, _ => (c, d, w)
         | SUCCESS, ERROR c => (c, d, w)
         | SUCCESS, SUCCESS =>
             let oldFileName := rstrcpy (filePath d) MAX_NAME_LEN in
             let '(kw, path) := match inp with
                                | Some i => i
                                | None => (None, rstrcpy (objPath d) MAX_NAME_LEN)
                                end in
             let '(status, d) := getFilePathName e userName kw path d in
             if status <? 0 then (status, d, w)
             else if bstr_eqb oldFileName (filePath d) then (0, d, w)
             else
               let '(in_use, w) :=
                 if 0 <=? getSizeInVault calls (filePath d) w then
                   let '(status, w) := chkAndHandleOrphanFile calls (filePath d) w in (status <=? 0, w)
                 else (false, w) in
               if in_use : bool then (SYS_PHY_PATH_INUSE, d, w)
               else
                 let newFileName := rstrcpy (filePath d) MAX_NAME_LEN in
                 let '(status, file_name, w) := rsFileRename calls oldFileName newFileName w in
                 if status <? 0 then (status, d, w)
                 else
                   let d := set_filePath (take MAX_NAME_LEN file_name) d in
                   let '(status, w) := rsModDataObjMeta calls file_name w in
                   if status <? 0 then
                     let '(_, w) := rsFileRename calls newFileName oldFileName w in (status, d, w)
                   else (0, d, w)
         end.
End sync.

(** ** Searching *)

Lemma strstr_found s t k : strstr s t = Some k -> exists r, s = take k s ++ t ++ r /\ (k + length t <= length s)%nat.
Proof.
  assert (forall u, bstr_eqb (take (length t) u) t = true -> exists r, u = t ++ r /\ (length t <= length u)%nat) as Hu.
  { intros u E%bstr_eqb_eq. exists (drop (length t) u). split.
    - rewrite <- E at 1. by rewrite take_drop.
    - apply (f_equal length) in E. rewrite length_take in E. lia. }
  revert k. induction s as [|c s IH]; intros k; cbn [strstr].
  - destruct (bstr_eqb _ _) eqn:E; [|done]. intros [= <-]. apply (Hu []) in E as (r & E & ?). exists r. split; [exact E|simpl in *; lia].
  - destruct (bstr_eqb _ _) eqn:E.
    + intros [= <-]. apply (Hu (c :: s)) in E as (r & E & ?). exists r. split; [exact E|simpl in *; lia].
    + intros (k' & E' & ->)%fmap_Some. destruct (IH k' E') as (r & Er & ?).
      exists r. split; [|simpl; lia]. simpl. by f_equal.
Qed.

Lemma strstr_start t b : strstr (t ++ b) t = Some O.
Proof.
  assert (bstr_eqb (take (length t) (t ++ b)) t = true) as E by (by rewrite take_app_length, bstr_eqb_refl).
  revert E. destruct (t ++ b); intros E; cbn [strstr]; by rewrite E.
Qed.

Lemma strstr_occurs a t b : exists k, strstr (a ++ t ++ b) t = Some k.
Proof.
  induction a as [|c a [k IH]]; [exists O; exact (strstr_start t b)|].
  cbn [app strstr]. destruct (bstr_eqb _ _); [by exists O|]. rewrite IH. by exists (S k).
Qed.

Lemma strstr_found_drop s t k : strstr s t = Some k -> exists r, drop k s = t ++ r.
Proof.
  intros H. destruct (strstr_found s t k H) as (r & E & Hk). exists r.
  rewrite E at 1. rewrite drop_app_ge by (rewrite length_take; lia).
  rewrite length_take. replace (k - k `min` length s)%nat with O by lia. done.
Qed.

(** ** The vault of a path *)

Section vault_facts.
Context `{L : LexicalCast} {TO : TableOrder} {TL : TableOrderLaws TO}.
Context (host_of : nat -> option nat) (m : resource_manager) (Hm : manager_wf m).

(** [v] is the vault of a resource on the host [h]. *)
Definition vault_on (h : nat) (v : bstr) : Prop :=
  exists p r, heap m !! p = Some r /\ host_of p = Some h /\ p_path (r_props r) = v /\ v <> [].

Lemma find_vault_spec h path entries :
  (forall n p, (n, p) ∈ entries -> resource_name_map_ m !! n = Some p) ->
  exists o, find_vault host_of m h path entries = Ok o /\
   match o with
   | Some v => vault_on h v /\ is_Some (strstr path v)
   | None => forall n p r, (n, p) ∈ entries -> heap m !! p = Some r -> host_of p = Some h ->
               p_path (r_props r) <> [] -> strstr path (p_path (r_props r)) = None
   end.
Proof using Hm.
  induction entries as [|[n p] entries IH]; intros Hin.
  - exists None. split; [done|]. by intros n p r ?%not_elem_of_nil.
  - destruct IH as (o & E & Ho); [intros; apply Hin; by right|].
    destruct (wf_name_heap m Hm n p) as (r & Hp & _); [apply Hin; by left|].
    cbn [find_vault]. unfold deref, mbind, res_bind. case_bool_decide as Hh.
    2:{ exists o. split; [done|]. destruct o; [done|].
        intros n' p' r' [[= -> ->]|Hn']%elem_of_cons ? ? ?; [done|by eapply Ho]. }
    rewrite Hp. destruct (p_path (r_props r)) as [|c v] eqn:Ev.
    + exists o. split; [done|]. destruct o; [done|].
      intros n' p' r' [[= -> ->]|Hn']%elem_of_cons ? ? ?; [by simplify_eq|by eapply Ho].
    + destruct (strstr path (c :: v)) as [k|] eqn:Ek.
      * exists (Some (c :: v)). split; [done|]. split; [|by eexists]. exists p, r. by split_and!.
      * exists o. split; [done|]. destruct o; [done|].
        intros n' p' r' [[= -> ->]|Hn']%elem_of_cons ? ? ?; [by simplify_eq; rewrite Ev|by eapply Ho].
Qed.

(** A path is in a vault of the host as far as the text of one occurs in it. *)
Lemma validate_vault_path_spec h path :
  path <> [] ->
  exists o, validate_vault_path host_of m path (Some h) = Ok o /\
   match o with
   | inr v => vault_on h v /\ is_Some (strstr path v)
   | inl c => c = SYS_INVALID_INPUT_PARAM /\ forall v, vault_on h v -> strstr path v = None
   end.
Proof using All.
  intros Hne. unfold validate_vault_path.
  case_bool_decide as Hempty.
  { eexists. split; [done|]. split; [done|]. intros v (p & r & Hp & _).
    pose proof (wf_name m Hm p r Hp) as H. by rewrite Hempty, lookup_empty in H. }
  destruct path as [|c path]; [done|].
  destruct (find_vault_spec h (c :: path) (table_order _ (resource_name_map_ m))) as (o & E & Ho).
  { intros n p. rewrite (table_order_perm _ (resource_name_map_ m)). apply elem_of_map_to_list. }
  unfold mbind, res_bind. rewrite E. eexists. split; [done|].
  destruct o as [v|]; [done|]. split; [done|].
  intros v (p & r & Hp & Hh & <- & Hv). apply (Ho (r_name r) p r); [|done..].
  rewrite (table_order_perm _ (resource_name_map_ m)). apply elem_of_map_to_list. by apply (wf_name m Hm).
Qed.

Lemma isValidFilePath_cases path :
  (isValidFilePath path = Throw Estd /\ (length path < 3)%nat) \/
  isValidFilePath path = Ok SYS_INVALID_FILE_PATH \/
  (isValidFilePath path = Ok 0 /\ (3 <= length path)%nat /\ strstr path (lit "/../") = None /\
   (forall a, path <> a ++ lit "/..")).
Proof using.
  unfold isValidFilePath. destruct (strstr path (lit "/../")); [by right; left|].
  destruct (Nat.ltb_spec (length path) 3); [by left|].
  destruct (bstr_eqb _ _) eqn:E; [by right; left|]. right. right. split_and!; [done|lia|done|].
  intros a ->. revert E. rewrite length_app. change (length (lit "/..")) with 3%nat.
  rewrite Nat.add_sub, drop_app_length. done.
Qed.

(** What an accepted match says of the path. *)
Lemma matchCliVaultPath_cases u h path :
  path <> [] ->
  exists c, matchCliVaultPath host_of m (Some u) path (Some h) = Ok c /\
   ((c = 1 /\ exists v, vault_on h v /\ is_Some (strstr path v) /\
       exists r, drop (length v) path = lit "home/" ++ u ++ r \/ drop (length v) path = lit "/home/" ++ u ++ r) \/
    (c = -1 /\ exists v, vault_on h v /\ is_Some (strstr path v)) \/
    (c = 0 /\ forall v, vault_on h v -> strstr path v = None)).
Proof using All.
  intros Hne. unfold matchCliVaultPath. destruct path as [|x path]; [done|].
  destruct (validate_vault_path_spec h (x :: path) Hne) as (o & E & Ho).
  unfold mbind, res_bind. rewrite E. destruct o as [c|v].
  { destruct Ho as [-> Ho]. exists 0. auto. }
  destruct Ho as [Hv Hk]. destruct v as [|y v]; [by destruct Hv as (? & ? & _ & _ & ? & ?)|].
  set (vault := y :: v) in *. assert ((length vault <= length (x :: path))%nat) as Hlen.
  { destruct Hk as [k Hk]. destruct (strstr_found _ _ _ Hk) as (_ & _ & ?). lia. }
  rewrite (proj2 (Nat.ltb_ge _ _) Hlen).
  set (up := drop (length vault) (x :: path)).
  set (home_pos := match up with c :: _ => if Ascii.eqb c "/" then 1%nat else 0%nat | [] => 0%nat end).
  case_bool_decide as Hhome; cbn [negb]; [|exists (-1); split; [done|]; right; left; split; [done|]; by exists vault].
  case_bool_decide as Huser; cbn [negb]; [|exists (-1); split; [done|]; right; left; split; [done|]; by exists vault].
  exists 1. split; [done|]. left. split; [done|]. exists vault. split_and!; [done|done|].
  fold up. destruct (strstr_found_drop _ _ _ Hhome) as [rh Erh].
  destruct (strstr_found_drop _ _ _ Huser) as [ru Eru]. exists ru.
  rewrite <- drop_drop, Erh in Eru. change (drop 5 (lit "home/" ++ rh)) with rh in Eru. subst rh.
  assert (take home_pos up = [] \/ take home_pos up = lit "/") as Ht.
  { unfold home_pos. destruct up as [|c up']; [by left|].
    destruct (Ascii.eqb_spec c "/") as [->|Hc]; [by right|by left]. }
  rewrite <- (take_drop home_pos up), Erh. destruct Ht as [-> | ->]; auto.
Qed.
End vault_facts.

Section checks.
Context `{L : LexicalCast} {TO : TableOrder} {TL : TableOrderLaws TO}.
Context (host_of : nat -> option nat) (m : resource_manager).

(** C38: A path that the check of a registration or a creation lets through, where the check is
    on, has no /../ in it and does not end in /.. (a parent step at its beginning, as in ../f,
    is not looked for), and either no vault of the host occurs in it and the host's own check
    passed it, or the check lets users register in vaults and what is behind the length of a
    vault's path is home/ and the user's name. *)
Theorem path_permission_granted u path h chkType nv c :
  manager_wf m -> chkType <> NO_CHK_PATH_PERM ->
  chkFilePathPerm host_of m (Some u) path (Some h) chkType nv = Ok c -> 0 <= c ->
  strstr path (lit "/../") = None /\ (forall a, path <> a ++ lit "/..") /\
  ((c = nv /\ forall v, vault_on host_of m h v -> strstr path v = None) \/
   (chkType = CHK_NON_VAULT_PATH_PERM /\ exists v r, vault_on host_of m h v /\ is_Some (strstr path v) /\
     (drop (length v) path = lit "home/" ++ u ++ r \/ drop (length v) path = lit "/home/" ++ u ++ r))).
Proof using All.
  intros Hm Hno Hc Hpos. unfold chkFilePathPerm in Hc.
  rewrite (proj2 (Z.eqb_neq chkType _) Hno) in Hc.
  destruct (chkType =? DISALLOW_PATH_REG); [injection Hc as <-; by unfold PATH_REG_NOT_ALLOWED in Hpos|].
  destruct (isValidFilePath_cases path) as [[E _]|[E|(E & Hlen & H1 & H2)]]; rewrite E in Hc;
    [done|injection Hc as <-; by unfold SYS_INVALID_FILE_PATH in Hpos|].
  split_and!; [done|done|]. assert (path <> []) as Hne by (by intros ->).
  unfold mbind, res_bind in Hc. change (0 <? 0) with false in Hc. cbv iota in Hc.
  destruct (Z.eqb_spec chkType CHK_NON_VAULT_PATH_PERM) as [->|_].
  - destruct (matchCliVaultPath_cases host_of m Hm u h path Hne) as (c' & E' & Hcases).
    rewrite E' in Hc. destruct Hcases as [(-> & v & Hv & Hk & r & Hr)|[(-> & _)|(-> & Hv)]].
    + right. split; [done|]. by exists v, r.
    + injection Hc as <-. by unfold CANT_REG_IN_VAULT_FILE in Hpos.
    + injection Hc as <-. by left.
  - destruct (chkType =? DO_CHK_PATH_PERM); [|injection Hc as <-; by unfold SYS_INVALID_INPUT_PARAM in Hpos].
    destruct (validate_vault_path_spec host_of m Hm h path Hne) as (o & E' & Ho).
    rewrite E' in Hc. destruct o as [c'|v]; injection Hc as <-.
    + left. by destruct Ho.
    + by unfold CANT_REG_IN_VAULT_FILE in Hpos.
Qed.

(** With [DO_CHK_PATH_PERM], a path behind the path of a vault of the host is refused. *)
Theorem vault_paths_refused u v rest h nv :
  manager_wf m -> vault_on host_of m h v -> (3 <= length (v ++ rest))%nat ->
  exists c, chkFilePathPerm host_of m u (v ++ rest) (Some h) DO_CHK_PATH_PERM nv = Ok c /\
            (c = CANT_REG_IN_VAULT_FILE \/ c = SYS_INVALID_FILE_PATH).
Proof using All.
  intros Hm Hv Hlen. unfold chkFilePathPerm.
  change (DO_CHK_PATH_PERM =? NO_CHK_PATH_PERM) with false.
  change (DO_CHK_PATH_PERM =? DISALLOW_PATH_REG) with false. cbv iota.
  destruct (isValidFilePath_cases (v ++ rest)) as [[_ ?]|[E|(E & _)]]; [lia| |]; rewrite E; [by eexists; split; [|right]|].
  unfold mbind, res_bind. change (0 <? 0) with false. cbv iota.
  change (DO_CHK_PATH_PERM =? CHK_NON_VAULT_PATH_PERM) with false.
  rewrite Z.eqb_refl. cbv iota.
  destruct (validate_vault_path_spec host_of m Hm h (v ++ rest)) as (o & E' & Ho); [by destruct (v ++ rest)|].
  rewrite E'. destruct o as [c|v']; [|by eexists; split; [|left]].
  destruct Ho as [_ Ho]. specialize (Ho v Hv). by rewrite strstr_start in Ho.
Qed.
End checks.

(** ** Composed paths *)

Lemma find_idx_slash z r : "/"%char ∉ z -> find_idx (Ascii.eqb "/") (z ++ "/"%char :: r) = Some (length z).
Proof.
  intros Hz. apply find_idx_Some. exists z, "/"%char, r. split_and!; [done|done|done|].
  apply Forall_forall. intros c Hc. apply Ascii.eqb_neq. by intros <-.
Qed.

(** The path of [/zone/rest] under the graft scheme, with the zone trimmed. *)
Definition graft_path (vault user : bstr) (add_user : bool) (rest : bstr) : bstr :=
  vault ++ lit "/" ++ (if add_user then user ++ lit "/" else []) ++ rest.

Lemma setPathForGraftPathScheme_spec zone rest vault add user :
  "/"%char ∉ zone ->
  let text := graft_path vault user (0 <? add) rest in
  setPathForGraftPathScheme (lit "/" ++ zone ++ lit "/" ++ rest) vault add user 1 =
  if Nat.ltb (length text) MAX_NAME_LEN then (0, text)
  else (USER_STRLEN_TOOLONG, take (MAX_NAME_LEN - 1) text).
Proof.
  intros Hz text. unfold setPathForGraftPathScheme. change (Z.to_nat 1) with 1%nat.
  change (drop 1 (lit "/" ++ zone ++ lit "/" ++ rest)) with (zone ++ "/"%char :: rest).
  cbn [trim_dirs]. rewrite find_idx_slash by done.
  assert (drop (S (length zone)) (zone ++ "/"%char :: rest) = rest) as ->.
  { change (S (length zone)) with (1 + length zone)%nat. rewrite Nat.add_comm, <- drop_drop, drop_app_length. done. }
  set (p := if true && _ then rest else rest). assert (p = rest) as -> by (unfold p; by destruct (true && _)).
  unfold snprintf_path.
  assert ((if 0 <? add then vault ++ lit "/" ++ user ++ lit "/" ++ rest else vault ++ lit "/" ++ rest) = text) as ->.
  { unfold text, graft_path. destruct (0 <? add); [by rewrite <- (app_assoc user)|done]. }
  destruct (Nat.ltb_spec (length text) MAX_NAME_LEN).
  - rewrite take_ge by lia. rewrite (proj2 (Z.leb_gt _ _)) by lia. done.
  - rewrite (proj2 (Z.leb_le _ _)) by lia. done.
Qed.

(** C31: Under the graft scheme, two objects of a zone whose paths are composed for the
    same vault, user and policy have different physical paths, and each lies behind the
    vault's path. *)
Theorem graft_paths_distinct e u zone r1 r2 vault d1 d2 d1' d2' :
  "/"%char ∉ zone -> r1 <> r2 -> rescName d1 <> [] -> rescName d2 <> [] ->
  chk_path e <> NO_CREATE_PATH -> vault_path e = inr vault ->
  (exists p, getVaultPathPolicy (applied e) = inr p /\ scheme p = GRAFT_PATH_S /\ trimDirCnt p = 1) ->
  getFilePathName e u None (lit "/" ++ zone ++ lit "/" ++ r1) d1 = (0, d1') ->
  getFilePathName e u None (lit "/" ++ zone ++ lit "/" ++ r2) d2 = (0, d2') ->
  filePath d1' <> filePath d2' /\
  (exists s, filePath d1' = vault ++ lit "/" ++ s) /\ (exists s, filePath d2' = vault ++ lit "/" ++ s).
Proof.
  intros Hz Hr Hd1 Hd2 Hchk Hv (p & Hp & Hs & Ht) E1 E2.
  assert (forall r d d', rescName d <> [] ->
    getFilePathName e u None (lit "/" ++ zone ++ lit "/" ++ r) d = (0, d') ->
    filePath d' = graft_path vault u (0 <? addUserName p) r) as Hget.
  { intros r d d' Hd. unfold getFilePathName. destruct (rescName d); [done|].
    assert ((NO_CREATE_PATH =? chk_path e) = false) as -> by (apply Z.eqb_neq; congruence).
    rewrite Hv, Hp, Hs, Ht.
    rewrite setPathForGraftPathScheme_spec by done.
    destruct (Nat.ltb _ _); intros [= <-]; done. }
  rewrite (Hget _ _ _ Hd1 E1), (Hget _ _ _ Hd2 E2). split_and!.
  - unfold graft_path. intros E%app_inv_head%app_inv_head%app_inv_head. done.
  - by eexists.
  - by eexists.
Qed.

(** ** The check of the file system *)

Lemma cut_back_spec len tmp :
  (snd (cut_back len tmp) < len \/ len = 0)%nat /\ exists n, fst (cut_back len tmp) = take n tmp.
Proof.
  induction len as [|len IH]; cbn [cut_back].
  - split; [by right|]. exists (length tmp). by rewrite take_ge.
  - case_bool_decide.
    + split; [left; simpl; lia|]. by eexists.
    + destruct IH as [IH1 IH2]. split; [|done]. left. destruct IH1 as [?| ->]; [lia|simpl; lia].
Qed.

(** The loop ends, at the path or at one of its ancestors. *)
Lemma stat_loop_spec fuel fileStat tmp len :
  (len < fuel)%nat ->
  exists n st, stat_loop fuel fileStat tmp len = Ok (n, st) /\
    (0 <= stat_code st -> exists k, n = take k tmp /\ st = fileStat n).
Proof.
  revert tmp len. induction fuel as [|fuel IH]; intros tmp len Hf; [lia|]. cbn [stat_loop].
  destruct (Z.leb_spec 0 (stat_code (fileStat tmp))) as [Hok|Hbad].
  { eexists _, _. split; [done|]. intros _. exists (length tmp). by rewrite take_ge. }
  destruct (stat_eexist _).
  2:{ eexists _, _. split; [done|]. intros; lia. }
  destruct (cut_back len tmp) as [tmp' len'] eqn:Ec.
  destruct (cut_back_spec len tmp) as [Hl [n Hn]]. rewrite Ec in Hl, Hn. cbn [fst snd] in *.
  destruct len' as [|len']; [eexists _, _; split; [done|intros; lia]|].
  destruct (IH tmp' (S len')) as (x & st & E & Hst); [destruct Hl as [?| ->]; [lia|by simpl in Ec; simplify_eq]|].
  exists x, st. split; [done|]. intros H. destruct (Hst H) as (k & -> & ->).
  exists (k `min` n)%nat. subst tmp'. by rewrite take_take.
Qed.

(** The check ends, and passes only when the path or an ancestor of it can be
    looked at and belongs to the user or can be written by all. *)
Theorem rsChkNVPathPerm_granted fileStat getUnixUid objPath u fileName sysUid :
  exists c uid, rsChkNVPathPerm fileStat getUnixUid objPath u fileName sysUid = Ok (c, uid) /\
    (0 <= c -> exists k st, st = fileStat (take k fileName) /\ 0 <= stat_code st /\ 0 <= uid /\
      (uid = sysUid \/ uid = getUnixUid u) /\ (st_uid st = uid \/ Z.land (st_mode st) S_IWOTH <> 0)).
Proof.
  unfold rsChkNVPathPerm. destruct objPath as [|o objPath]; [eexists _, _; split; [done|intros; lia]|].
  destruct (sysUid <? 0); [eexists _, _; split; [done|unfold SYS_NO_PATH_PERMISSION; intros; lia]|].
  set (uid := if sysUid =? 0 then getUnixUid u else sysUid).
  destruct (Z.ltb_spec uid 0); [eexists _, _; split; [done|unfold SYS_NO_PATH_PERMISSION; intros; lia]|].
  set (tmp := rstrcpy fileName MAX_NAME_LEN).
  destruct (stat_loop_spec (S (length tmp)) fileStat tmp (length tmp)) as (n & st & E & Hst); [lia|].
  unfold mbind, res_bind. rewrite E. eexists _, _. split; [done|].
  destruct (Z.ltb_spec (stat_code st) 0); [unfold SYS_NO_PATH_PERMISSION; intros; lia|].
  destruct (Hst ltac:(lia)) as (k & -> & Est).
  intros Hc. unfold tmp, rstrcpy in Est. rewrite take_take in Est.
  eexists _, st. split_and!; [exact Est|done|done| |].
  - unfold uid. destruct (sysUid =? 0); auto.
  - destruct (Z.eqb_spec uid (st_uid st)); [by left|]. simpl in Hc.
    destruct (Z.eqb_spec (Z.land (st_mode st) S_IWOTH) 0); [unfold SYS_NO_PATH_PERMISSION in Hc; lia|by right].
Qed.

(** ** Following a rename *)

(** When the sync of a replica succeeds, the replica was left alone, or its path is the
    one it had, or the file was renamed and the catalog has the name the resource gave. *)
Theorem sync_success_consistent {W} (calls : phys_calls W) e create live loc u inp d w d' w' :
  syncDataObjPhyPathS calls e create live loc u inp d w = (0, d', w') ->
  (w' = w /\ (filePath d' = filePath d \/ filePath d' = rstrcpy (filePath d) MAX_NAME_LEN)) \/
  (exists path name w1 w2 st st',
     rsFileRename calls (rstrcpy (filePath d) MAX_NAME_LEN) path w1 = ((st, name), w2) /\ 0 <= st /\
     rsModDataObjMeta calls name w2 = (st', w') /\ 0 <= st' /\ filePath d' = take MAX_NAME_LEN name).
Proof.
  unfold syncDataObjPhyPathS.
  destruct (bstr_eqb _ _); [intros [= <- <-]; auto|].
  destruct (NO_CREATE_PATH =? create); [intros [= <- <-]; auto|].
  destruct (negb _); [intros [= <- <-]; auto|].
  destruct (_ =? 0); [intros [= <- <-]; auto|].
  destruct live as [|c]; [|intros [= -> <- <-]; auto].
  destruct loc as [|c]; [|intros [= -> <- <-]; auto].
  destruct (match inp with Some i => i | None => _ end) as [kw path].
  destruct (getFilePathName e u kw path d) as [status d1].
  destruct (Z.ltb_spec status 0) as [?|_]; [intros [= -> <- <-]; lia|].
  destruct (bstr_eqb _ (filePath d1)) eqn:Eq.
  { intros [= <- <-]. left. split; [done|]. right. by apply bstr_eqb_eq in Eq. }
  destruct (if 0 <=? getSizeInVault calls (filePath d1) w then _ else _) as [in_use w1].
  destruct in_use; [by intros [= ]|].
  destruct (rsFileRename calls _ _ w1) as [[st name] w2] eqn:Er.
  destruct (Z.ltb_spec st 0) as [?|?]; [intros [= -> <- <-]; lia|].
  destruct (rsModDataObjMeta calls name w2) as [st' w3] eqn:Em.
  destruct (Z.ltb_spec st' 0) as [?|?].
  { destruct (rsFileRename calls _ _ w3) as [[? ?] w4]. intros [= -> <- <-]. lia. }
  intros [= <- <-]. right. eexists _, name, w1, w2, st, st'. by split_and!.
Qed.

Section own_home.
Context `{L : LexicalCast} {TO : TableOrder} {TL : TableOrderLaws TO}.
Context (host_of : nat -> option nat) (m : resource_manager).

(** The path the graft scheme gives a file of a user's own collection, without a user name,
    is one the user may register, when the host has one vault and the user's name
    does not occur in ["/home/"]. *)
Theorem own_home_matches h v u rest :
  manager_wf m -> vault_on host_of m h v -> (forall v', vault_on host_of m h v' -> v' = v) ->
  strstr (lit "/home/" ++ u ++ lit "/" ++ rest) u = Some 6%nat ->
  matchCliVaultPath host_of m (Some u) (graft_path v u false (lit "home/" ++ u ++ lit "/" ++ rest)) (Some h) = Ok 1.
Proof using All.
  intros Hm Hv Hone Hu. set (tail := lit "/home/" ++ u ++ lit "/" ++ rest) in *.
  assert (graft_path v u false (lit "home/" ++ u ++ lit "/" ++ rest) = v ++ tail) as -> by done.
  unfold matchCliVaultPath. destruct (v ++ tail) as [|c s] eqn:E; [by destruct v|]. rewrite <- E.
  destruct (validate_vault_path_spec host_of m Hm h (v ++ tail)) as (o & E' & Ho); [by rewrite E|].
  unfold mbind, res_bind. rewrite E'. destruct o as [c'|v'].
  { destruct Ho as [_ Ho]. specialize (Ho v Hv). by rewrite strstr_start in Ho. }
  rewrite (Hone v' (proj1 Ho)). destruct v as [|x v]; [by destruct Hv as (? & ? & _ & _ & ? & ?)|].
  rewrite (proj2 (Nat.ltb_ge _ _)) by (rewrite length_app; lia). rewrite drop_app_length.
  assert (strstr tail (lit "home/") = Some 1%nat) as Eh by by vm_compute.
  change (match tail with c :: _ => if Ascii.eqb c "/" then 1%nat else 0%nat | [] => 0%nat end) with 1%nat.
  rewrite Eh, bool_decide_true by done. change (1 + 5)%nat with 6%nat. by rewrite Hu, bool_decide_true.
Qed.
End own_home.

(** ** Instances *)

#[local] Existing Instance lexical_cast_ref.
#[local] Existing Instance order_forward.

(** One storage resource with the vault [/vault], on the host 0. *)
Definition disk_rows : list row :=
  [Row (lit "10") (lit "disk") [] [] [] [] (lit "/vault") [] [] [] [] [] [] [] [] [] []].
Definition disk : resource_manager := init_from_catalog (fun _ _ _ => true) disk_rows empty_manager.
Definition disk_host (p : nat) : option nat := Some O.

Lemma disk_wf : manager_wf disk.
Proof. refine (proj1 (init_from_catalog_wf_aux (fun _ _ _ => true) disk_rows _ _ _)); by_evaluation. Qed.

Lemma path_permission_granted_witness :
  exists c, chkFilePathPerm disk_host disk (Some (lit "al")) (lit "/vault/home/al/f") (Some O)
              CHK_NON_VAULT_PATH_PERM (-1) = Ok c /\ strstr (lit "/vault/home/al/f") (lit "/../") = None.
Proof.
  exists 1. assert (chkFilePathPerm disk_host disk (Some (lit "al")) (lit "/vault/home/al/f") (Some O)
              CHK_NON_VAULT_PATH_PERM (-1) = Ok 1) as E by (vm_compute; reflexivity).
  split; [exact E|].
  refine (proj1 (path_permission_granted disk_host disk (lit "al") (lit "/vault/home/al/f") O
            CHK_NON_VAULT_PATH_PERM (-1) 1 disk_wf _ E _)); [by vm_compute|lia].
Defined.

Definition disk_inputs : path_inputs := PathInputs 2 (inr (lit "/vault")) (0, None) 0 [] 0 0.
Definition disk_replica : phys_replica := PhysReplica (lit "/z/home/al/f") (lit "disk") (lit "disk") [].

Lemma graft_paths_distinct_witness :
  filePath (getFilePathName disk_inputs (lit "al") None (lit "/z/home/al/f") disk_replica).2 <>
  filePath (getFilePathName disk_inputs (lit "al") None (lit "/z/home/al/g") disk_replica).2.
Proof.
  refine (proj1 (graft_paths_distinct disk_inputs (lit "al") (lit "z") (lit "home/al/f") (lit "home/al/g")
            (lit "/vault") disk_replica disk_replica _ _ _ _ _ _ _ _ _ _ _)).
  - by_evaluation.
  - by_evaluation.
  - by_evaluation.
  - by_evaluation.
  - by_evaluation.
  - reflexivity.
  - exists (VaultPathPolicy GRAFT_PATH_S 1 1). split_and!; reflexivity.
  - vm_compute. reflexivity.
  - vm_compute. reflexivity.
Defined.

(** The name is compared as a prefix: [al] may register a file of [alice]. *)
Example other_users_files : 
  matchCliVaultPath disk_host disk (Some (lit "al")) (lit "/vault/home/alice/f") (Some O) = Ok 1.
Proof. by vm_compute. Qed.

(** A user whose name occurs in [/home/] may not register a file of the own collection. *)
Example names_within_home : 
  matchCliVaultPath disk_host disk (Some (lit "me")) (lit "/vault/home/me/f") (Some O) = Ok (-1).
Proof. by vm_compute. Qed.

(** A path is taken for one of the vault wherever the vault's path occurs in it, and
    what is behind as many bytes is then read as the path within the vault. *)
Example vault_in_the_middle :
  validate_vault_path disk_host disk (lit "/data/vault/f") (Some O) = Ok (inr (lit "/vault")) /\
  matchCliVaultPath disk_host disk (Some (lit "al")) (lit "/datas/home/al/vault") (Some O) = Ok 1.
Proof. by vm_compute. Qed.

(** A parent step at the beginning of a path passes. *)
Example leading_parent_step :
  isValidFilePath (lit "../f") = Ok 0 /\
  chkFilePathPerm disk_host disk (Some (lit "al")) (lit "../f") (Some O) DO_CHK_PATH_PERM 0 = Ok 0.
Proof. by vm_compute. Qed.

(** The check throws on a path of less than three bytes. *)
Example short_path_throws : isValidFilePath (lit "/a") = Throw Estd.
Proof. by vm_compute. Qed.

(** A resource without the property of its path check has no path composed, and the
    status is that of success. *)
Example no_property_no_path :
  getFilePathName (PathInputs 0 (inr (lit "/vault")) (0, None) 0 [] 0 0) (lit "al") None (lit "/z/home/al/f")
    disk_replica = (0, set_filePath [] disk_replica).
Proof. by vm_compute. Qed.

(** The random scheme cuts a path that is too long and reports success: the paths of two
    objects can be equal. *)
Example random_path_is_cut :
  let name := concat (replicate 120 (lit "0123456789")) in
  let vault := lit "/" ++ take 1000 name in
  let path c := (setPathForRandomScheme 0 [] 0 0 (lit "/z/" ++ take 200 name ++ lit c) vault (lit "al")) in
  (path "a"%string).1 = 0 /\ path "a"%string = path "b"%string.
Proof. by vm_compute. Qed.

(** A file that is not there yet: its parent is not looked at. *)
Example missing_file_has_no_permission :
  let fileStat path := if bstr_eqb path (lit "/data/new") then StatResult (-510002) false 0 0
                       else StatResult 0 false 500 16895 in
  rsChkNVPathPerm fileStat (fun _ => 500) (lit "/z/f") (lit "al") (lit "/data/new") 0 =
  Ok (SYS_NO_PATH_PERMISSION, 500).
Proof. by vm_compute. Qed.

(** When the catalog refuses the new path, the file is renamed back, from the path that was
    asked for, while the replica in memory keeps the new one. *)
Example sync_rolls_back :
  let calls := PhysCalls (list (bstr * bstr)) (fun _ _ => -1) (fun _ w => (0, w))
                 (fun old new w => ((0, new ++ lit ".moved"), w ++ [(old, new)])) (fun _ w => (-1, w)) in
  let d := PhysReplica (lit "/z/home/al/g") (lit "disk") (lit "disk") (lit "/vault/al/home/al/f") in
  let '(status, d', w) := syncDataObjPhyPathS calls disk_inputs 1 SUCCESS SUCCESS (lit "al") None d [] in
  status = -1 /\ filePath d' = lit "/vault/al/home/al/g.moved" /\
  w = [(lit "/vault/al/home/al/f", lit "/vault/al/home/al/g");
       (lit "/vault/al/home/al/g", lit "/vault/al/home/al/f")].
Proof. by vm_compute. Qed.
