(* ===== verification/QueryRows.v ===== *)
(** * The rows of a query

    The rest of [plugins/database/src/general_query.cpp]: [chl_gen_query_impl], which hands out
    the rows of a general query page by page, and [checkCondInputAccess], with the table
    of statements of [low_level_odbc.cpp] and [mid_level_routines.cpp] it keeps them
    open in. The SQL text, which [GenQuery] and [SpecialQuery] generate, the database and
    its access checks are parameters; the static variables of the code are fields of the
    session. *)

From stdpp Require Import base list strings.
From Stdlib Require Import ZArith Lia Ascii.
From S2P Require Import Prelude Errors Numerals Quota SpecialQuery.
Local Open Scope Z_scope.

Definition MAX_NUM_OF_CONCURRENT_STMTS : nat := 50.
Definition MAX_NUM_OF_SELECT_ITEMS : nat := 30.
Definition MINIMUM_COL_SIZE : nat := 50.
Definition UNINITIALIZED_STATEMENT_NUMBER : Z := -1.
Definition RETURN_TOTAL_ROW_COUNT : Z := 32.
Definition QUOTA_QUERY : Z := 128.
Definition AUTO_CLOSE : Z := 256.

Definition CAT_ENV_ERR : Z := -802000.
Definition CAT_SQL_ERR : Z := -806000.
Definition CAT_GET_ROW_ERR : Z := -807000.
Definition CAT_STATEMENT_TABLE_FULL : Z := -860000.

(** ** Statements *)

(** What [SQLFetch] gives next: a row or an error; the end of the list is [SQL_NO_DATA]. *)
Inductive fetch : Type := FRow (values : list bstr) | FError.

(** [icatStmtStrct]: the columns, the row they are bound to (its length is [numOfCols]),
    the count the driver gives, and the rows the cursor still has. *)
Record statement : Type := Statement {
  resultColName : list bstr;
  resultValue : list bstr;
  rowCount : Z;
  cursor : list fetch
}.

(** The statement table of the session, and the static variables of the two functions. *)
Record session : Type := Session {
  stmtPtr : list (option statement);
  recursiveCall : bool;
  prevDataId : bstr; prevUser : bstr; prevAccess : bstr; prevStatus : Z
}.

Definition set_stmts (t : list (option statement)) (s : session) : session :=
  Session t (recursiveCall s) (prevDataId s) (prevUser s) (prevAccess s) (prevStatus s).
Definition set_recursive (b : bool) (s : session) : session :=
  Session (stmtPtr s) b (prevDataId s) (prevUser s) (prevAccess s) (prevStatus s).
Definition set_prev (d u a : bstr) (c : Z) (s : session) : session :=
  Session (stmtPtr s) (recursiveCall s) d u a c.

Definition empty_session : session :=
  Session (replicate MAX_NUM_OF_CONCURRENT_STMTS None) false [] [] [] 0.

Abbreviation R := (M session).

(** The statement with a number; nothing is checked. *)
Definition statement_at (n : Z) : R statement := fun s =>
  if n <? 0 then (Throw Eundef, s)
  else match stmtPtr s !! Z.to_nat n with
       | Some (Some st) => (Ok st, s)
       | _ => (Throw Eundef, s)
       end.

Definition put_statement (n : Z) (st : option statement) : R unit := fun s =>
  (Ok tt, set_stmts (<[Z.to_nat n := st]> (stmtPtr s)) s).

(** [cllFreeStatement]; the number the caller holds is set to -1. *)
Definition cllFreeStatement (n : Z) : R Z :=
  if n <? 0 then mret 0
  else s ← get_state;
       match stmtPtr s !! Z.to_nat n with
       | None => throw Eundef
       | Some None => mret 0
       | Some (Some _) => put_statement n None ≫= fun _ => mret 0
       end.

Definition cmlFreeStatement : Z -> R Z := cllFreeStatement.

(** What executing a text gives: an error, or the statement before its first row. *)
Definition free_slot (t : list (option statement)) : option nat :=
  find_idx (fun o => match o with None => true | Some _ => false end) t.

(** [cllExecSqlWithResult]: its result and the statement number. An error after the
    slot is taken leaves the statement there. *)
Definition cllExecSqlWithResult (outcome : Z + statement) : R (Z * Z) :=
  s ← get_state;
  match free_slot (stmtPtr s) with
  | None => mret (CAT_STATEMENT_TABLE_FULL, UNINITIALIZED_STATEMENT_NUMBER)
  | Some n =>
      match outcome with
      | inl code => put_statement (Z.of_nat n) (Some (Statement [] [] 0 [])) ≫= fun _ => mret (code, Z.of_nat n)
      | inr st => put_statement (Z.of_nat n) (Some st) ≫= fun _ => mret (0, Z.of_nat n)
      end
  end.

(** [cllGetRow] *)
Definition cllGetRow (n : Z) : R Z :=
  st ← statement_at n;
  match cursor st with
  | [] => put_statement n (Some (Statement [] [] (rowCount st) [])) ≫= fun _ => mret 0
  | FError :: c =>
      put_statement n (Some (Statement (resultColName st) (map (fun _ => []) (resultValue st)) (rowCount st) c))
      ≫= fun _ => mret (-1)
  | FRow values :: c =>
      put_statement n (Some (Statement (resultColName st) values (rowCount st) c)) ≫= fun _ => mret 0
  end.

Definition cmlGetNextRowFromStatement (n : Z) : R Z :=
  i ← cllGetRow n;
  if negb (i =? 0) then cllFreeStatement n ≫= fun _ => mret CAT_GET_ROW_ERR
  else st ← statement_at n;
       if Nat.eqb (length (resultValue st)) 0 then cllFreeStatement n ≫= fun _ => mret CAT_NO_ROWS_FOUND
       else mret 0.

Definition cmlGetFirstRowFromSql (outcome : Z + statement) : R (Z * Z) :=
  '(i, n) ← cllExecSqlWithResult outcome;
  if negb (i =? 0) then
    cllFreeStatement n ≫= fun _ =>
    mret (if i <=? CAT_ENV_ERR then i else CAT_SQL_ERR, UNINITIALIZED_STATEMENT_NUMBER)
  else
    status ← cmlGetNextRowFromStatement n;
    mret (if status =? 0 then (0, n) else (status, UNINITIALIZED_STATEMENT_NUMBER)).

(** ** The check of the access the conditions ask for *)

(** [cmlCheckDataObjId] and [cmlCheckDirId] of an id, a user, a zone and an access, and the
    name of the local zone. *)
Record access_checks : Type := AccessChecks {
  check_data : bstr -> bstr -> bstr -> bstr -> Z;
  check_coll : bstr -> bstr -> bstr -> bstr -> Z;
  local_zone : bstr
}.

(** The index of the last element that satisfies a predicate. *)
Definition last_index {A} (p : A -> bool) (l : list A) : option nat :=
  (fun i => length l - 1 - i)%nat <$> find_idx p (rev l).

Definition has_key (k : string) (kv : list (bstr * bstr)) : bool := existsb (fun p => bstr_eqb p.1 (lit k)) kv.

Definition value_of (k : string) (kv : list (bstr * bstr)) : option bstr :=
  i ← last_index (fun p => bstr_eqb p.1 (lit k)) kv; snd <$> kv !! i.

(** [checkCondInputAccess]. With a ticket the code also ends the transaction, which changes
    nothing that is modelled. *)
Definition checkCondInputAccess (db : access_checks) (condInput : list (bstr * bstr)) (n : Z)
    (continueFlag : bool) : R Z :=
  if has_key "irodsAdmin" condInput then mret 0
  else if match condInput with [(k, _)] => bstr_eqb k (lit "zone") | _ => false end then mret 0
  else match value_of "userNameClient" condInput, value_of "rodsZoneClient" condInput,
             value_of "accessPermission" condInput with
       | Some user, Some zone, Some access =>
           st ← statement_at n;
           let column name := last_index (fun c => bstr_eqb c (lit name)) (resultColName st) in
           let value i := default [] (resultValue st !! i) in
           let either a b := match a, b with
                             | Some i, Some j => Some (Nat.max i j)
                             | Some i, None => Some i
                             | None, o => o
                             end in
           let zoneName := match zone with [] => local_zone db | _ => zone end in
           match either (column "data_id"%string) (column "DATA_ID"%string),
                 either (column "coll_id"%string) (column "COLL_ID"%string) with
           | Some dataIx, _ =>
               s ← get_state;
               if continueFlag && bstr_eqb (prevDataId s) (value dataIx) && bstr_eqb (prevUser s) user
                    && bstr_eqb (prevAccess s) access
               then mret (prevStatus s)
               else
                 let status := check_data db (value dataIx) user zoneName access in
                 put_state (set_prev (rstrcpy (value dataIx) LONG_NAME_LEN) (rstrcpy user LONG_NAME_LEN)
                              (rstrcpy access LONG_NAME_LEN) status s) ≫= fun _ => mret status
           | None, Some collIx =>
               s ← get_state;
               let status := check_coll db (value collIx) user zoneName access in
               put_state (set_prev (prevDataId s) (prevUser s) (prevAccess s) status s) ≫= fun _ => mret status
           | None, None => mret CAT_INVALID_ARGUMENT
           end
       | _, _, _ => mret (if has_key "disable_strict_acls" condInput then 0 else CAT_INVALID_ARGUMENT)
       end.

(** ** The result *)

(** [sqlResult_t]: [value] is an array of rows of [len] bytes each. *)
Record column : Type := Column { attriInx : Z; col_len : nat; value : bstr }.

Record genQueryOut : Type := GenQueryOut {
  rowCnt : nat; attriCnt : nat; continueInx : Z; totalRowCount : Z; sqlResult : list column
}.

(** The fields of [genQueryInp_t] this file reads. *)
Record rowsInp : Type := RowsInp {
  maxRows : Z; in_continueInx : Z; in_rowOffset : Z; options : Z;
  condInput : list (bstr * bstr);
  select_inx : list Z
}.

Definition has_option (o : Z) (inp : rowsInp) : bool := negb (Z.land (options inp) o =? 0).

(** [malloc] of [totalLen] bytes and [memset]; [totalLen] is an [int]. *)
Definition new_value (numOfCols maxColSize : nat) (maxRows : Z) : res bstr :=
  let attriTextLen := Z.of_nat (numOfCols * maxColSize) in
  if (attriTextLen <=? INT_MAX) && (attriTextLen * maxRows <=? INT_MAX)
  then Ok (replicate (Z.to_nat (attriTextLen * maxRows)) NUL)
  else Throw Eundef.

(** [strncpy(buf + off, src, n)]: [n] bytes are written. *)
Definition strncpy_at (off n : nat) (src buf : bstr) : res bstr :=
  if Nat.leb (off + n) (length buf) then
    Ok (take off buf ++ take n (c_str src ++ replicate n NUL) ++ drop (off + n) buf)
  else Throw Eundef.

(** The first row: the columns are allocated. *)
Definition allocate_columns (inp : rowsInp) (numOfCols maxColSize : nat) : res (list column) :=
  fold_res (fun cols j =>
      v ← new_value numOfCols maxColSize (maxRows inp);
      inx ← (if has_option QUOTA_QUERY inp then Ok (specialQueryIx (Z.of_nat j))
             else match select_inx inp !! j with Some i => Ok i | None => Throw Eundef end);
      Ok (cols ++ [Column inx maxColSize v]))
    [] (seq 0 numOfCols).

(** A wider row: each column is copied, [rows] of them, into rows of [maxColSize]. *)
Definition widen_column (inp : rowsInp) (numOfCols maxColSize rows : nat) (c : column) : res column :=
  v ← new_value numOfCols maxColSize (maxRows inp);
  v' ← fold_res (fun buf k => strncpy_at (k * maxColSize) (col_len c)
                                 (take (col_len c) (drop (k * col_len c) (value c))) buf)
         v (seq 0 rows);
  Ok (Column (attriInx c) maxColSize v').

Definition map_res {A B} (f : A -> res B) (l : list A) : res (list B) :=
  fold_res (fun bs a => b ← f a; Ok (bs ++ [b])) [] l.

(** The current row is stored in row [k] of the columns of width [w]. *)
Definition store_row (w k : nat) (vals : list bstr) (cols : list column) : res (list column) :=
  map_res (fun '(c, v) => value' ← strncpy_at (w * k) w v (value c);
                          Ok (Column (attriInx c) (col_len c) value')) (zip cols vals).

(** [maxColSize] of a row. *)
Definition row_width (vals : list bstr) : nat :=
  Nat.max (S (max_list_with length vals)) MINIMUM_COL_SIZE.

(** One round of the loop behind the fetch: row number [rowCnt] of the result, which is the
    round [i]; [w] is [currentMaxColSize]. *)
Definition add_row (inp : rowsInp) (n : Z) (first : bool) (vals : list bstr) (out : genQueryOut) (w : nat)
    : res (genQueryOut * nat) :=
  let numOfCols := length vals in
  let rows := S (rowCnt out) in
  let maxColSize := row_width vals in
  '(cols, w) ← (if first then cols ← allocate_columns inp numOfCols maxColSize; Ok (cols, maxColSize)
                else Ok (sqlResult out, w));
  '(cols, w) ← (if Nat.ltb w maxColSize then
                  let maxColSize := (maxColSize + MINIMUM_COL_SIZE)%nat in
                  cols ← map_res (widen_column inp numOfCols maxColSize rows) cols; Ok (cols, maxColSize)
                else Ok (cols, w));
  cols ← store_row w (rows - 1) vals cols;
  Ok (GenQueryOut rows numOfCols (n + 1) (totalRowCount out) cols, w).

(** What the loop ends with: a [return], or the end of its rounds. *)
Inductive loop_end : Type := Returned (status : Z) | Rounds.

Section rows.
Context (db : access_checks).

(** The [for] loop, with [rounds] rounds left. *)
Fixpoint row_loop (inp : rowsInp) (n : Z) (rounds : nat) (first needToGetNextRow : bool) (out : genQueryOut)
    (w : nat) : R (loop_end * genQueryOut) :=
  match rounds with
  | O => mret (Rounds, out)
  | S rounds' =>
      status ← (if needToGetNextRow then
                  status ← cmlGetNextRowFromStatement n;
                  if status =? CAT_NO_ROWS_FOUND then
                    cmlFreeStatement n ≫= fun _ =>
                    mret (Some (if Nat.eqb (rowCnt out) 0 then status else 0, 0))
                  else if status <? 0 then mret (Some (status, continueInx out))
                  else match condInput inp with
                       | [] => mret None
                       | _ => status ← checkCondInputAccess db (condInput inp) n true;
                              mret (if status =? 0 then None else Some (status, continueInx out))
                       end
                else mret None);
      match status with
      | Some (status, cont) =>
          mret (Returned status,
                GenQueryOut (rowCnt out) (attriCnt out) cont (totalRowCount out) (sqlResult out))
      | None =>
          st ← statement_at n;
          '(out, w) ← lift (add_row inp n first (resultValue st) out w);
          row_loop inp n rounds' false true out w
      end
  end.

(** The loop and what follows it. *)
Definition rows_of_statement (inp : rowsInp) (n : Z) (needToGetNextRow : bool) (out : genQueryOut)
    : R (Z * genQueryOut) :=
  '(e, out) ← row_loop inp n (Z.to_nat (maxRows inp)) true needToGetNextRow out 0;
  match e with
  | Returned status => mret (status, out)
  | Rounds =>
      let with_cont c := GenQueryOut (rowCnt out) (attriCnt out) c (totalRowCount out) (sqlResult out) in
      if has_option AUTO_CLOSE inp then status2 ← cmlFreeStatement n; mret (status2, with_cont (-1))
      else mret (0, with_cont (n + 1))
  end.

(** [exec offset] is what the SQL generated for the query with the row offset gives: the error
    of its generation, or what the database gives for the text. *)
Context (exec : Z -> Z + (Z + statement)).

Definition set_total (t : Z) (out : genQueryOut) : genQueryOut :=
  GenQueryOut (rowCnt out) (attriCnt out) (continueInx out) t (sqlResult out).
Definition clear_counts (out : genQueryOut) : genQueryOut :=
  GenQueryOut 0 0 (continueInx out) 0 (sqlResult out).
Definition set_cont (c : Z) (out : genQueryOut) : genQueryOut :=
  GenQueryOut (rowCnt out) (attriCnt out) c (totalRowCount out) (sqlResult out).

(** The first call of a query with the offset [offset]; [again] is the recursive call. *)
Definition first_page (again : genQueryOut -> R genQueryOut) (inp : rowsInp) (offset : Z) (out : genQueryOut)
    : R (Z * genQueryOut) :=
  match exec offset with
  | inl status => mret (status, out)
  | inr outcome =>
      '(status, n) ← cmlGetFirstRowFromSql outcome;
      if status <? 0 then
        if (status =? CAT_NO_ROWS_FOUND) && has_option RETURN_TOTAL_ROW_COUNT inp && (0 <? offset) then
          s ← get_state;
          put_state (set_recursive true s) ≫= fun _ =>
          out ← again out;
          mret (status, out)
        else mret (status, out)
      else
        st ← statement_at n;
        s ← get_state;
        let out := if has_option RETURN_TOTAL_ROW_COUNT inp && (0 <=? rowCount st)
                   then set_total (rowCount st + offset) out else out in
        if has_option RETURN_TOTAL_ROW_COUNT inp && recursiveCall s then
          put_state (set_recursive false s) ≫= fun _ => mret (status, out)
        else
          match condInput inp with
          | [] => rows_of_statement inp n false out
          | _ =>
              status ← checkCondInputAccess db (condInput inp) n false;
              if negb (status =? 0) then mret (status, set_cont (n + 1) out)
              else rows_of_statement inp n false out
          end
  end.

(** [chl_gen_query_impl] behind [chlGetRcs]. The recursive call has the offset 0 and does
    not call again. *)
Definition chl_gen_query (inp : rowsInp) (out : genQueryOut) : R (Z * genQueryOut) :=
  let out := clear_counts out in
  if in_continueInx inp =? 0 then
    first_page (fun out =>
        r ← first_page (fun out => mret out) inp 0 (clear_counts out); mret r.2)
      inp (in_rowOffset inp) out
  else
    let n := in_continueInx inp - 1 in
    if maxRows inp <=? 0 then status ← cmlFreeStatement n; mret (status, out)
    else rows_of_statement inp n true out.
End rows.

(** ** What a client reads *)

(** Row [k] of a result: the string at its place in each column. *)
Definition row_at (out : genQueryOut) (k : nat) : list bstr :=
  map (fun c => c_str (drop (k * col_len c) (value c))) (sqlResult out).

Definition rows_read (out : genQueryOut) : list (list bstr) := map (row_at out) (seq 0 (rowCnt out)).

(** ** The array of a column *)

(** A value in its place: padded with NULs. *)
Definition pad (w : nat) (v : bstr) : bstr := v ++ replicate (w - length v) NUL.

Definition text (v : bstr) : Prop := Forall (fun c => c <> NUL) v.

Lemma c_str_pad w v : text v -> c_str (pad w v) = v.
Proof.
  intros Hv. unfold pad. destruct (w - length v)%nat; [by rewrite app_nil_r; apply c_str_id|].
  by apply c_str_app.
Qed.

Lemma length_pad w v : (length v <= w)%nat -> length (pad w v) = w.
Proof. intros H. unfold pad. rewrite length_app, length_replicate. lia. Qed.

Lemma pad_wider w w' v z :
  (length v <= w <= w')%nat -> (w' <= z)%nat ->
  pad w v ++ replicate (z - w) NUL = pad w' v ++ replicate (z - w') NUL.
Proof.
  intros H H'. unfold pad. rewrite <- !app_assoc, <- !replicate_add. do 2 f_equal. lia.
Qed.

Lemma length_pads w vs : Forall (fun v => (length v <= w)%nat) vs -> length (concat (pad w <$> vs)) = (w * length vs)%nat.
Proof.
  induction 1 as [|v vs Hv _ IH]; [simpl; lia|].
  rewrite fmap_cons. cbn [concat length]. rewrite length_app, length_pad, IH by done. lia.
Qed.

(** Writing behind what is stored. *)
Lemma strncpy_at_end off n v a z :
  length a = off -> text v -> (length v <= n)%nat -> (n <= z)%nat ->
  strncpy_at off n v (a ++ replicate z NUL) = Ok (a ++ pad n v ++ replicate (z - n) NUL).
Proof.
  intros <- Hv Hn Hz. unfold strncpy_at. rewrite length_app, length_replicate.
  rewrite (proj2 (Nat.leb_le _ _)) by lia. f_equal. rewrite take_app_length. f_equal.
  rewrite c_str_id by done. f_equal.
  - unfold pad. rewrite take_app_ge by lia. by rewrite take_replicate, Nat.min_l by lia.
  - rewrite drop_app_ge by lia. rewrite drop_replicate. f_equal. lia.
Qed.

(** The place of value [k]. *)
Lemma pads_drop w vs k z v :
  Forall (fun v => (length v <= w)%nat) vs -> vs !! k = Some v ->
  exists r, drop (k * w) (concat (pad w <$> vs) ++ replicate z NUL) = pad w v ++ r.
Proof.
  intros Hvs Hk. apply list_elem_of_split_length in Hk as (l1 & l2 & -> & ->).
  apply Forall_app in Hvs as [H1 H2]. rewrite fmap_app, fmap_cons, concat_app. simpl.
  exists (concat (pad w <$> l2) ++ replicate z NUL). rewrite <- !app_assoc.
  replace (length l1 * w)%nat with (length (concat (pad w <$> l1))) by (rewrite length_pads; [lia|done]).
  apply drop_app_length.
Qed.

Lemma map_res_ok {A B} (f : A -> res B) l l' :
  Forall2 (fun a b => f a = Ok b) l l' -> map_res f l = Ok l'.
Proof.
  intros H. unfold map_res.
  assert (forall acc, fold_res (fun bs a => b ← f a; Ok (bs ++ [b])) acc l = Ok (acc ++ l')) as Ha; [|apply (Ha [])].
  induction H as [|a b l l' Hab _ IH]; intros acc; [by rewrite app_nil_r|].
  cbn [fold_res]. unfold mbind, res_bind in *. rewrite Hab, IH, <- app_assoc. done.
Qed.

(** A column holds [vals] in rows of [w] bytes and has room for [more]. *)
Definition column_holds (w more : nat) (vals : list bstr) (c : column) : Prop :=
  col_len c = w /\ exists z, value c = concat (pad w <$> vals) ++ replicate z NUL /\ (w * more <= z)%nat.

Definition fits (w : nat) (v : bstr) : Prop := text v /\ (length v < w)%nat.

Lemma fits_le w vs : Forall (fits w) vs -> Forall (fun v => (length v <= w)%nat) vs.
Proof. intros H. eapply Forall_impl; [exact H|]. intros v [_ ?]. lia. Qed.

Lemma column_row w more vals c k v :
  Forall (fits w) vals -> column_holds w more vals c -> vals !! k = Some v ->
  c_str (drop (k * col_len c) (value c)) = v.
Proof.
  intros Hf (-> & z & -> & _) Hk. destruct (pads_drop w vals k z v (fits_le _ _ Hf) Hk) as [r ->].
  destruct (Forall_lookup_1 _ _ _ _ Hf Hk) as [Ht Hl]. unfold pad. rewrite <- app_assoc.
  destruct (w - length v)%nat as [|n] eqn:E; [lia|]. simpl. by apply c_str_app.
Qed.

Lemma store_column w more vals c v :
  Forall (fits w) vals -> fits w v -> column_holds w (S more) vals c ->
  exists b, strncpy_at (w * length vals) w v (value c) = Ok b /\
    column_holds w more (vals ++ [v]) (Column (attriInx c) (col_len c) b).
Proof.
  intros Hf [Ht Hl] (Hc & z & Hv & Hz). rewrite Hv, strncpy_at_end; [|by rewrite length_pads by by apply fits_le|done|lia|lia].
  eexists. split; [done|]. split; [done|]. exists (z - w)%nat. cbn [value].
  rewrite fmap_app, concat_app. simpl. rewrite app_nil_r, <- app_assoc. split; [done|lia].
Qed.

Lemma new_value_ok nc w maxr :
  0 <= maxr -> Z.of_nat (nc * w) * maxr <= INT_MAX -> (0 < maxr) ->
  new_value nc w maxr = Ok (replicate (nc * w * Z.to_nat maxr) NUL).
Proof.
  intros H0 H1 H2. unfold new_value. rewrite (proj2 (Z.leb_le _ _)) by nia.
  rewrite (proj2 (Z.leb_le _ _)) by lia. simpl. do 2 f_equal. lia.
Qed.

Lemma text_c_str s : text (c_str s).
Proof. induction s as [|x s IH]; simpl; [constructor|]. destruct (Ascii.eqb_spec x NUL); by constructor. Qed.

Lemma strncpy_at_c_str off n s buf : strncpy_at off n s buf = strncpy_at off n (c_str s) buf.
Proof. unfold strncpy_at. by rewrite (c_str_id (c_str s)) by apply text_c_str. Qed.

(** Copying the rows into wider ones. *)
Lemma widen_column_holds inp nc w w' more vals c :
  (0 < nc)%nat -> (w <= w')%nat -> Z.of_nat (nc * w') * maxRows inp <= INT_MAX ->
  (length vals + S more <= Z.to_nat (maxRows inp))%nat ->
  Forall (fits w) vals -> column_holds w (S more) vals c ->
  exists c', widen_column inp nc w' (S (length vals)) c = Ok c' /\ column_holds w' (S more) vals c'.
Proof.
  intros Hnc Hw Hint Hroom Hf (Hc & z & Hv & Hz). unfold widen_column.
  rewrite new_value_ok by lia. set (total := (nc * w' * Z.to_nat (maxRows inp))%nat).
  assert (w' * (length vals + S more) <= total)%nat as Htotal.
  { transitivity (w' * Z.to_nat (maxRows inp))%nat; [by apply Nat.mul_le_mono_l|].
    unfold total. rewrite <- Nat.mul_assoc. generalize (w' * Z.to_nat (maxRows inp))%nat. intros x. nia. }
  clearbody total.
  assert (forall k, (k <= length vals)%nat ->
    fold_res (fun buf k => strncpy_at (k * w') (col_len c) (take (col_len c) (drop (k * col_len c) (value c))) buf)
      (replicate total NUL) (seq 0 k) =
    Ok (concat (pad w' <$> take k vals) ++ replicate (total - w' * k) NUL)) as Hcopy.
  { induction k as [|k IH]; intros Hk; [simpl; by rewrite Nat.mul_0_r, Nat.sub_0_r|].
    rewrite seq_S, fold_res_app, IH by lia. cbn [fold_res]. unfold mbind, res_bind. cbn [Nat.add].
    destruct (lookup_lt_is_Some_2 vals k ltac:(lia)) as [v Ev].
    destruct (Forall_lookup_1 _ _ _ _ Hf Ev) as [Ht Hl].
    destruct (pads_drop w vals k z v (fits_le _ _ Hf) Ev) as [r Er].
    assert (Forall (fun v => (length v <= w')%nat) (take k vals)) as Hft.
    { apply Forall_take. eapply Forall_impl; [exact Hf|]. intros x [_ ?]. lia. }
    rewrite Hc, Hv, Er, take_app_le, take_ge by (rewrite length_pad by lia; lia).
    rewrite strncpy_at_c_str, c_str_pad by done.
    rewrite strncpy_at_end; [|rewrite length_pads by done; rewrite length_take; lia|done|lia|nia].
    rewrite (pad_wider w w') by nia. rewrite (take_S_r _ _ v) by done.
    rewrite fmap_app, concat_app. simpl. rewrite app_nil_r, <- app_assoc. do 4 f_equal. nia. }
  unfold mbind at 1, res_bind at 1. cbv beta iota.
  rewrite seq_S, fold_res_app, Hcopy by lia. cbn [fold_res]. unfold mbind, res_bind. cbn [Nat.add].
  rewrite (take_ge vals) by lia.
  assert (Forall (fun v => (length v <= w')%nat) vals) as Hft.
  { eapply Forall_impl; [exact Hf|]. intros x [_ ?]. lia. }
  assert (c_str (take (col_len c) (drop (length vals * col_len c) (value c))) = []) as Hnil.
  { rewrite Hc, Hv. replace (length vals * w)%nat with (length (concat (pad w <$> vals))) by
      (rewrite length_pads; [lia|by apply fits_le]).
    rewrite drop_app_length, take_replicate. by destruct (w `min` z)%nat. }
  rewrite strncpy_at_c_str, Hnil, strncpy_at_end; [|rewrite length_pads by done; lia|constructor|simpl; lia|nia].
  eexists. split; [done|]. split; [done|]. exists (total - w' * length vals)%nat. cbn [value].
  split; [|nia]. f_equal. unfold pad. simpl. rewrite <- replicate_add. f_equal. nia.
Qed.

(** ** The columns of a result *)

(** The values of column [j]. *)
Definition col (j : nat) (rows : list (list bstr)) : list bstr := (fun r => default [] (r !! j)) <$> rows.

Definition row_fits (nc w : nat) (r : list bstr) : Prop := length r = nc /\ Forall (fits w) r.

Definition columns_hold (nc w more : nat) (rows : list (list bstr)) (cols : list column) : Prop :=
  length cols = nc /\ Forall (row_fits nc w) rows /\
  forall j c, cols !! j = Some c -> column_holds w more (col j rows) c.

Lemma col_fits nc w rows j : (j < nc)%nat -> Forall (row_fits nc w) rows -> Forall (fits w) (col j rows).
Proof.
  intros Hj H. apply Forall_fmap. eapply Forall_impl; [exact H|]. intros r [Hl Hr]. simpl.
  destruct (lookup_lt_is_Some_2 r j ltac:(lia)) as [v Hv]. rewrite Hv. by apply (Forall_lookup_1 _ _ _ _ Hr Hv).
Qed.

Lemma row_width_spec vals v : v ∈ vals -> (length v < row_width vals)%nat.
Proof.
  intros H. unfold row_width. assert (length v <= max_list_with length vals)%nat; [|lia].
  induction vals as [|x vals IH]; [by apply not_elem_of_nil in H|]. simpl.
  apply elem_of_cons in H as [->|H]; [lia|]. specialize (IH H). lia.
Qed.

Lemma row_width_le B vals : Forall (fun v => (length v < B)%nat) vals -> (row_width vals <= Nat.max B MINIMUM_COL_SIZE)%nat.
Proof.
  intros H. unfold row_width. assert (S (max_list_with length vals) <= Nat.max B 1)%nat; [|unfold MINIMUM_COL_SIZE; lia].
  induction H as [|v vals Hv _ IH]; simpl; lia.
Qed.

Lemma row_fits_mono nc w w' r : (w <= w')%nat -> row_fits nc w r -> row_fits nc w' r.
Proof.
  intros Hw [Hl H]. split; [done|]. eapply Forall_impl; [exact H|]. intros v [Ht Hv]. split; [done|lia].
Qed.

Section add_row.
Context (inp : rowsInp) (nc W : nat).
Hypothesis nc_pos : (0 < nc)%nat.
Hypothesis rows_pos : 0 < maxRows inp.
Hypothesis sizes : Z.of_nat (nc * W) * maxRows inp <= INT_MAX.
Hypothesis selected : has_option QUOTA_QUERY inp = true \/ (nc <= length (select_inx inp))%nat.

Lemma size_ok w : (w <= W)%nat -> Z.of_nat (nc * w) * maxRows inp <= INT_MAX.
Proof using All.
  intros Hw. transitivity (Z.of_nat (nc * W) * maxRows inp); [|done].
  apply Z.mul_le_mono_nonneg_r; [lia|]. apply inj_le, Nat.mul_le_mono_l, Hw.
Qed.

Lemma allocate_columns_hold w :
  (w <= W)%nat ->
  exists cols, allocate_columns inp nc w = Ok cols /\ columns_hold nc w (Z.to_nat (maxRows inp)) [] cols.
Proof using All.
  intros Hw. unfold allocate_columns. rewrite new_value_ok by (apply size_ok in Hw; lia).
  set (v := replicate (nc * w * Z.to_nat (maxRows inp)) NUL).
  assert (forall k, (k <= nc)%nat -> exists cols,
     fold_res (fun cols j =>
       v ← Ok v;
       inx ← (if has_option QUOTA_QUERY inp then Ok (specialQueryIx (Z.of_nat j))
              else match select_inx inp !! j with Some i => Ok i | None => Throw Eundef end);
       Ok (cols ++ [Column inx w v])) [] (seq 0 k) = Ok cols /\
     length cols = k /\ Forall (fun c => col_len c = w /\ value c = v) cols) as Hk.
  { induction k as [|k IH]; intros Hk; [exists []; done|].
    destruct IH as (cols & E & Hlen & Hall); [lia|]. rewrite seq_S, fold_res_app, E. cbn [fold_res]. unfold mbind, res_bind.
    assert (exists i, (if has_option QUOTA_QUERY inp then Ok (specialQueryIx (Z.of_nat (0 + k)))
              else match select_inx inp !! (0 + k)%nat with Some i => Ok i | None => Throw Eundef end) = Ok i) as [i Ei].
    { destruct selected as [-> |Hs]; [eauto|]. destruct (has_option _ _); [eauto|].
      destruct (lookup_lt_is_Some_2 (select_inx inp) (0 + k) ltac:(lia)) as [i ->]. eauto. }
    rewrite Ei. eexists. split; [done|]. rewrite length_app. simpl. split; [lia|].
    apply Forall_app. split; [done|]. by apply Forall_singleton. }
  destruct (Hk nc (Nat.le_refl nc)) as (cols & E & Hlen & Hall). exists cols. split; [exact E|].
  split_and!; [done|constructor|]. intros j c Hj.
  destruct (Forall_lookup_1 _ _ _ _ Hall Hj) as [Hc Hv]. split; [done|].
  exists (nc * w * Z.to_nat (maxRows inp))%nat. split; [done|]. rewrite <- Nat.mul_assoc.
  generalize (w * Z.to_nat (maxRows inp))%nat. intros x. nia.
Qed.

Lemma widen_columns_hold w w' more rows cols :
  (w <= w' <= W)%nat -> (length rows + S more = Z.to_nat (maxRows inp))%nat ->
  columns_hold nc w (S more) rows cols ->
  exists cols', map_res (widen_column inp nc w' (S (length rows))) cols = Ok cols' /\
    columns_hold nc w' (S more) rows cols'.
Proof using All.
  intros Hw Hroom (Hlen & Hrows & Hcols).
  assert (exists cols', Forall2 (fun c c' => widen_column inp nc w' (S (length rows)) c = Ok c') cols cols' /\
            forall j c', cols' !! j = Some c' -> column_holds w' (S more) (col j rows) c') as (cols' & H2 & Hc').
  { assert (forall k, (k <= length cols)%nat -> exists cols',
       Forall2 (fun c c' => widen_column inp nc w' (S (length rows)) c = Ok c') (take k cols) cols' /\
       forall j c', cols' !! j = Some c' -> column_holds w' (S more) (col j rows) c') as Hk.
    { induction k as [|k IH]; intros Hk; [exists []; split; [constructor|done]|].
      destruct IH as (cols' & H2 & Hc'); [lia|].
      destruct (lookup_lt_is_Some_2 cols k ltac:(lia)) as [c Hc].
      destruct (widen_column_holds inp nc w w' more (col k rows) c) as (c' & E & Hold); [done|lia| | | |by apply Hcols|].
      - apply size_ok. lia.
      - unfold col. rewrite length_fmap. lia.
      - apply (col_fits nc); [lia|done].
      - exists (cols' ++ [c']). rewrite (take_S_r _ _ c) by done. split.
        + apply Forall2_app; [done|]. constructor; [|constructor].
          unfold col in E. by rewrite length_fmap in E.
        + intros j x [Hj|[Hj Hx]]%lookup_app_Some; [by apply Hc'|].
          apply Forall2_length in H2. rewrite length_take in H2.
          apply list_lookup_singleton_Some in Hx as [Hx ->].
          replace j with k by lia. done. }
    destruct (Hk (length cols) (Nat.le_refl _)) as (cols' & H2 & Hc'). rewrite take_ge in H2 by done. eauto. }
  exists cols'. split; [by apply map_res_ok|]. split_and!; [|eapply Forall_impl; [exact Hrows|]|done].
  - apply Forall2_length in H2. lia.
  - intros r Hr. eapply row_fits_mono; [|exact Hr]. lia.
Qed.

Lemma store_row_holds w more rows vals cols :
  columns_hold nc w (S more) rows cols -> row_fits nc w vals ->
  exists cols', store_row w (length rows) vals cols = Ok cols' /\ columns_hold nc w more (rows ++ [vals]) cols'.
Proof using All.
  intros (Hlen & Hrows & Hcols) [Hl Hv]. unfold store_row.
  set (f := fun '(c, v) => value' ← strncpy_at (w * length rows) w v (value c); Ok (Column (attriInx c) (col_len c) value')).
  assert (forall k, (k <= nc)%nat -> exists cols',
     Forall2 (fun cv c' => f cv = Ok c') (take k (zip cols vals)) cols' /\
     forall j c', cols' !! j = Some c' -> column_holds w more (col j (rows ++ [vals])) c') as Hk.
  { induction k as [|k IH]; intros Hk; [exists []; split; [constructor|done]|].
    destruct IH as (cols' & H2 & Hc'); [lia|].
    destruct (lookup_lt_is_Some_2 cols k ltac:(lia)) as [c Hc].
    destruct (lookup_lt_is_Some_2 vals k ltac:(lia)) as [v Ev].
    assert (zip cols vals !! k = Some (c, v)) as Hz by (apply lookup_zip_with_Some; eauto).
    destruct (store_column w more (col k rows) c v) as (b & E & Hold);
      [apply (col_fits nc); [lia|done]|by apply (Forall_lookup_1 _ _ _ _ Hv Ev)|by apply Hcols|].
    unfold col in E. rewrite length_fmap in E.
    exists (cols' ++ [Column (attriInx c) (col_len c) b]). rewrite (take_S_r _ _ (c, v)) by done. split.
    + apply Forall2_app; [done|]. constructor; [|constructor]. unfold f, mbind, res_bind. by rewrite E.
    + intros j x [Hj|[Hj Hx]]%lookup_app_Some; [by apply Hc'|].
      apply Forall2_length in H2. rewrite length_take, length_zip_with in H2.
      apply list_lookup_singleton_Some in Hx as [Hx <-].
      replace j with k by lia. unfold col. rewrite fmap_app. simpl. by rewrite Ev. }
  destruct (Hk nc (Nat.le_refl nc)) as (cols' & H2 & Hc').
  assert (take nc (zip cols vals) = zip cols vals) as Ez by (apply take_ge; rewrite length_zip_with; lia).
  rewrite Ez in H2. exists cols'. split; [by apply map_res_ok|]. split_and!; [| |done].
  - apply Forall2_length in H2. rewrite length_zip_with in H2. lia.
  - apply Forall_app. split; [done|]. by apply Forall_singleton.
Qed.
End add_row.

(** ** Pages *)

(** The result shows [rows] and has room for the page. *)
Definition shows (nc w maxr : nat) (rows : list (list bstr)) (out : genQueryOut) : Prop :=
  rowCnt out = length rows /\ columns_hold nc w (maxr - length rows) rows (sqlResult out).

Lemma shows_rows nc w maxr rows out : shows nc w maxr rows out -> rows_read out = rows.
Proof.
  intros (Hcnt & Hlen & Hrows & Hcols). unfold rows_read. rewrite Hcnt.
  apply list_eq. intros k. change (map (row_at out) (seq 0 (length rows))) with (row_at out <$> seq 0 (length rows)). rewrite list_lookup_fmap. destruct (rows !! k) as [r|] eqn:Ek.
  - pose proof (lookup_lt_Some _ _ _ Ek). rewrite lookup_seq_lt by done. simpl. f_equal.
    destruct (Forall_lookup_1 _ _ _ _ Hrows Ek) as [Hr Hf].
    apply list_eq. intros j. change (row_at out k) with ((fun c => c_str (drop (k * col_len c) (value c))) <$> sqlResult out). rewrite list_lookup_fmap.
    destruct (sqlResult out !! j) as [c|] eqn:Ej; simpl.
    + pose proof (lookup_lt_Some _ _ _ Ej). destruct (lookup_lt_is_Some_2 r j ltac:(lia)) as [v Hv].
      rewrite Hv. f_equal. apply (column_row w (maxr - length rows) (col j rows)); [|by apply Hcols|].
      * apply (col_fits nc); [lia|done].
      * unfold col. rewrite list_lookup_fmap, Ek. simpl. by rewrite Hv.
    + apply lookup_ge_None in Ej. symmetry. apply lookup_ge_None. lia.
  - apply lookup_ge_None in Ek. rewrite lookup_ge_None_2; [done|]. rewrite length_seq. lia.
Qed.

(** Values of the columns of a query whose texts are shorter than [B]. *)
Definition row_ok (nc B : nat) (r : list bstr) : Prop :=
  length r = nc /\ Forall (fun v => text v /\ (length v < B)%nat) r.

Definition widest (B : nat) : nat := (Nat.max B MINIMUM_COL_SIZE + MINIMUM_COL_SIZE)%nat.

Lemma row_ok_fits nc B w r : row_ok nc B r -> (row_width r <= w)%nat -> row_fits nc w r.
Proof.
  intros [Hl Hr] Hw. split; [done|]. apply Forall_forall. intros v Hv.
  destruct (proj1 (Forall_forall _ _) Hr v Hv) as [Ht _]. split; [done|].
  pose proof (row_width_spec r v Hv). lia.
Qed.

Section pages.
Context (inp : rowsInp) (nc B : nat).
Hypothesis nc_pos : (0 < nc)%nat.
Hypothesis rows_pos : 0 < maxRows inp.
Hypothesis sizes : Z.of_nat (nc * widest B) * maxRows inp <= INT_MAX.
Hypothesis selected : has_option QUOTA_QUERY inp = true \/ (nc <= length (select_inx inp))%nat.

Let maxr : nat := Z.to_nat (maxRows inp).

(** The result at the start of a round. *)
Definition before_round (first : bool) (w : nat) (rows : list (list bstr)) (out : genQueryOut) : Prop :=
  if first then rows = [] /\ rowCnt out = 0%nat
  else shows nc w maxr rows out /\ (w <= widest B)%nat.

Lemma add_row_shows n first w rows vals out :
  before_round first w rows out -> row_ok nc B vals -> (length rows < maxr)%nat ->
  exists out' w', add_row inp n first vals out w = Ok (out', w') /\
    before_round false w' (rows ++ [vals]) out' /\ continueInx out' = n + 1 /\
    totalRowCount out' = totalRowCount out.
Proof using All.
  intros Hpre Hok Hroom. pose proof Hok as [Hl Hv].
  assert (row_width vals <= Nat.max B MINIMUM_COL_SIZE)%nat as Hwidth.
  { apply row_width_le. eapply Forall_impl; [exact Hv|]. by intros v [_ ?]. }
  assert (rowCnt out = length rows) as Hcnt by (destruct first; [by destruct Hpre as [-> ->]|by destruct Hpre as [[? _] _]]).
  unfold add_row. rewrite Hl, Hcnt.
  assert (exists cols0 w0,
     (if first then cols ← allocate_columns inp nc (row_width vals); Ok (cols, row_width vals)
      else Ok (sqlResult out, w)) = Ok (cols0, w0) /\
     columns_hold nc w0 (maxr - length rows) rows cols0 /\ (w0 <= widest B)%nat) as (cols0 & w0 & E0 & H0 & W0).
  { destruct first.
    - destruct Hpre as [-> _].
      destruct (allocate_columns_hold inp nc (widest B) nc_pos rows_pos sizes selected (row_width vals)) as (cols & E & H);
        [unfold widest; lia|].
      unfold mbind, res_bind. rewrite E. eexists _, _. split; [done|]. rewrite Nat.sub_0_r.
      split; [exact H|]. unfold widest. lia.
    - destruct Hpre as [[_ H] ?]. by eexists _, _. }
  rewrite E0. unfold mbind at 1, res_bind at 1. cbv beta iota.
  assert (exists cols1 w1,
     (if Nat.ltb w0 (row_width vals) then
        cols ← map_res (widen_column inp nc (row_width vals + MINIMUM_COL_SIZE) (S (length rows))) cols0;
        Ok (cols, (row_width vals + MINIMUM_COL_SIZE)%nat)
      else Ok (cols0, w0)) = Ok (cols1, w1) /\
     columns_hold nc w1 (maxr - length rows) rows cols1 /\ (row_width vals <= w1 <= widest B)%nat)
    as (cols1 & w1 & E1 & H1 & W1).
  { destruct (Nat.ltb_spec w0 (row_width vals)).
    - replace (maxr - length rows)%nat with (S (maxr - S (length rows))) in * by lia.
      destruct (widen_columns_hold inp nc (widest B) nc_pos rows_pos sizes selected w0 (row_width vals + MINIMUM_COL_SIZE)
                  (maxr - S (length rows)) rows cols0) as (cols & E & H'); [unfold widest in *; lia|unfold maxr in *; lia|done|].
      unfold mbind, res_bind. rewrite E. eexists _, _. split; [done|]. split; [done|]. unfold widest. lia.
    - eexists _, _. split; [done|]. split; [done|]. lia. }
  rewrite E1. unfold mbind at 1, res_bind at 1. cbv beta iota.
  replace (maxr - length rows)%nat with (S (maxr - S (length rows))) in H1 by lia.
  destruct (store_row_holds inp nc (widest B) nc_pos rows_pos sizes selected w1 (maxr - S (length rows)) rows vals cols1) as (cols2 & E2 & H2); [done|apply (row_ok_fits nc B); [done|lia]|].
  replace (S (length rows) - 1)%nat with (length rows) by lia.
  unfold mbind, res_bind. rewrite E2. eexists _, w1. split; [done|].
  split; [|done]. split; [|lia]. split; [by rewrite length_app; simpl; lia|].
  cbn [sqlResult]. rewrite length_app. simpl. by replace (length rows + 1)%nat with (S (length rows)) by lia.
Qed.
End pages.

(** ** Statements in their slots *)

Definition at_slot (n : nat) (x : option statement) (s : session) : session :=
  set_stmts (<[n := x]> (stmtPtr s)) s.

Lemma at_slot_twice n x y s : at_slot n x (at_slot n y s) = at_slot n x s.
Proof. unfold at_slot, set_stmts. cbn. by rewrite list_insert_insert_eq. Qed.

Lemma put_statement_at n x y s : put_statement (Z.of_nat n) x (at_slot n y s) = (Ok tt, at_slot n x s).
Proof.
  unfold put_statement. rewrite Nat2Z.id.
  change (set_stmts (<[n:=x]> (stmtPtr (at_slot n y s))) (at_slot n y s)) with (at_slot n x (at_slot n y s)).
  by rewrite at_slot_twice.
Qed.

Section slots.
Context (n : nat) (s : session) (n_ok : (n < length (stmtPtr s))%nat).

Lemma statement_at_slot st : statement_at (Z.of_nat n) (at_slot n (Some st) s) = (Ok st, at_slot n (Some st) s).
Proof using n_ok.
  unfold statement_at. rewrite (proj2 (Z.ltb_ge _ _)) by lia. rewrite Nat2Z.id.
  unfold at_slot at 1, set_stmts at 1. cbn [stmtPtr]. by rewrite list_lookup_insert_eq.
Qed.

Lemma cllFreeStatement_slot x : cllFreeStatement (Z.of_nat n) (at_slot n x s) = (Ok 0, at_slot n None s).
Proof using n_ok.
  unfold cllFreeStatement. rewrite (proj2 (Z.ltb_ge _ _)) by lia. run_M. rewrite Nat2Z.id.
  unfold at_slot at 1, set_stmts at 1. cbn [stmtPtr]. rewrite list_lookup_insert_eq by done.
  destruct x as [st|]; [by rewrite put_statement_at|done].
Qed.

(** A fetch from a statement whose cursor has rows with at least one column. *)
Lemma next_row_slot cols cur cnt r todo :
  r <> [] ->
  cmlGetNextRowFromStatement (Z.of_nat n) (at_slot n (Some (Statement cols cur cnt (FRow <$> r :: todo))) s) =
  (Ok 0, at_slot n (Some (Statement cols r cnt (FRow <$> todo))) s).
Proof using n_ok.
  intros Hr. unfold cmlGetNextRowFromStatement, cllGetRow. run_M. rewrite statement_at_slot.
  cbn [fmap list_fmap cursor resultColName rowCount]. rewrite put_statement_at.
  change (negb (0 =? 0)) with false. cbv beta iota. rewrite statement_at_slot. cbn [resultValue]. by destruct r.
Qed.

Lemma no_more_rows_slot cols cur cnt :
  cmlGetNextRowFromStatement (Z.of_nat n) (at_slot n (Some (Statement cols cur cnt [])) s) =
  (Ok CAT_NO_ROWS_FOUND, at_slot n None s).
Proof using n_ok.
  unfold cmlGetNextRowFromStatement, cllGetRow. run_M. rewrite statement_at_slot.
  cbn [cursor rowCount]. rewrite put_statement_at.
  change (negb (0 =? 0)) with false. cbv beta iota. rewrite statement_at_slot. cbn [resultValue length Nat.eqb].
  by rewrite cllFreeStatement_slot.
Qed.
End slots.

Section loop.
Context (db : access_checks) (inp : rowsInp) (nc B : nat).
Hypothesis nc_pos : (0 < nc)%nat.
Hypothesis rows_pos : 0 < maxRows inp.
Hypothesis sizes : Z.of_nat (nc * widest B) * maxRows inp <= INT_MAX.
Hypothesis selected : has_option QUOTA_QUERY inp = true \/ (nc <= length (select_inx inp))%nat.
Hypothesis unchecked : condInput inp = [].

Let maxr : nat := Z.to_nat (maxRows inp).

(** The loop from a round that fetches: it stores the rows that are left, or a page. *)
Lemma row_loop_fetches n s : (n < length (stmtPtr s))%nat ->
  forall todo rounds first w rows out cols cur cnt,
  before_round inp nc B first w rows out -> Forall (row_ok nc B) todo -> (length rows + rounds <= maxr)%nat ->
  exists e out' w' x,
    row_loop db inp (Z.of_nat n) rounds first true out w (at_slot n (Some (Statement cols cur cnt (FRow <$> todo))) s) =
      (Ok (e, out'), at_slot n x s) /\
    (if Nat.ltb (length todo) rounds then
       e = Returned (if Nat.eqb (length (rows ++ todo)) 0 then CAT_NO_ROWS_FOUND else 0) /\
       x = None /\ continueInx out' = 0 /\ rows_read out' = rows ++ todo
     else
       e = Rounds /\ (exists cur', x = Some (Statement cols cur' cnt (FRow <$> drop rounds todo))) /\
       before_round inp nc B (first && Nat.eqb rounds 0) w' (rows ++ take rounds todo) out' /\
       totalRowCount out' = totalRowCount out).
Proof using All.
  intros Hn. assert (forall r, row_ok nc B r -> r <> []) as Hne by (intros r [Hl _] ->; simpl in Hl; lia).
  induction todo as [|r todo IH]; intros rounds first w rows out cols cur cnt Hpre Htodo Hroom;
    destruct rounds as [|rounds].
  - eexists Rounds, out, w, _. split; [done|]. simpl. rewrite app_nil_r, andb_true_r.
    split_and!; [done|by eexists|done|done].
  - eexists _, _, 0%nat, None. cbn [row_loop]. run_M. cbn [fmap list_fmap].
    rewrite no_more_rows_slot by done. rewrite Z.eqb_refl. unfold cmlFreeStatement.
    rewrite cllFreeStatement_slot by done. split; [done|]. simpl. rewrite app_nil_r.
    assert (rowCnt out = length rows) as Hcnt by (destruct first; [by destruct Hpre as [-> ->]|by destruct Hpre as [[? _] _]]).
    rewrite Hcnt. split_and!; [done|done|done|].
    destruct first; [by destruct Hpre as [-> E]|].
    destruct Hpre as [Hs _]. etransitivity; [|exact (shows_rows _ _ _ _ _ Hs)]. unfold rows_read. cbn. by rewrite Hcnt.
  - eexists Rounds, out, w, _. split; [done|]. simpl. rewrite app_nil_r, andb_true_r.
    split_and!; [done|by eexists|done|done].
  - apply Forall_cons in Htodo as [Hr Htodo].
    destruct (add_row_shows inp nc B nc_pos rows_pos sizes selected (Z.of_nat n) first w rows r out)
      as (out1 & w1 & E1 & H1 & _ & T1); [done|done|unfold maxr in *; lia|].
    destruct (IH rounds false w1 (rows ++ [r]) out1 cols r cnt) as (e & out' & w' & x & E & Hspec);
      [done|done|rewrite length_app; simpl; lia|].
    exists e, out', w', x. split.
    + cbn [row_loop]. run_M. rewrite next_row_slot by (done || by apply Hne).
      change (0 =? CAT_NO_ROWS_FOUND) with false. change (0 <? 0) with false. cbv iota. rewrite unchecked.
      rewrite statement_at_slot by done. cbn [resultValue]. rewrite E1. exact E.
    + change (Nat.ltb (length (r :: todo)) (S rounds)) with (Nat.ltb (length todo) rounds).
      rewrite <- !app_assoc in Hspec. simpl in Hspec. rewrite T1 in Hspec. simpl.
      rewrite andb_false_r. exact Hspec.
Qed.
End loop.

(** ** Reading a whole query *)

Definition continue_with (c : Z) (inp : rowsInp) : rowsInp :=
  RowsInp (maxRows inp) c (in_rowOffset inp) (options inp) (condInput inp) (select_inx inp).

(** The loop of a client: it asks for the next page as long as there is an index to go on
    with, and takes [CAT_NO_ROWS_FOUND] for the end. *)
Fixpoint read_pages (fuel : nat) (db : access_checks) (exec : Z -> Z + (Z + statement)) (inp : rowsInp)
    (out : genQueryOut) : R (Z * list (list bstr)) :=
  match fuel with
  | O => throw Ediverge
  | S fuel' =>
      '(status, out) ← chl_gen_query db exec inp out;
      if negb (status =? 0) then mret (status, [])
      else if continueInx out =? 0 then mret (0, rows_read out)
      else '(status', more) ← read_pages fuel' db exec (continue_with (continueInx out) inp) out;
           mret (if status' =? CAT_NO_ROWS_FOUND then 0 else status', rows_read out ++ more)
  end.

Section reading.
Context (db : access_checks) (inp : rowsInp) (nc B : nat).
Hypothesis nc_pos : (0 < nc)%nat.
Hypothesis rows_pos : 0 < maxRows inp.
Hypothesis sizes : Z.of_nat (nc * widest B) * maxRows inp <= INT_MAX.
Hypothesis selected : has_option QUOTA_QUERY inp = true \/ (nc <= length (select_inx inp))%nat.
Hypothesis unchecked : condInput inp = [].
Hypothesis kept_open : has_option AUTO_CLOSE inp = false.

Let maxr : nat := Z.to_nat (maxRows inp).

(** What a page leaves: the last one closes the statement. *)
Definition page_result (n : nat) cols cnt (todo : list (list bstr)) (status : Z) (out : genQueryOut)
    (x : option statement) : Prop :=
  if Nat.ltb (length todo) maxr then
    status = (if Nat.eqb (length todo) 0 then CAT_NO_ROWS_FOUND else 0) /\
    x = None /\ continueInx out = 0 /\ rows_read out = todo
  else
    status = 0 /\ (exists cur, x = Some (Statement cols cur cnt (FRow <$> drop maxr todo))) /\
    continueInx out = Z.of_nat n + 1 /\ rows_read out = take maxr todo.

Lemma shows_read first w rows out : before_round inp nc B first w rows out -> first = false -> rows_read out = rows.
Proof using. intros H ->. destruct H as [H _]. by eapply shows_rows. Qed.

Lemma next_page n s todo out cols cur cnt :
  (n < length (stmtPtr s))%nat -> Forall (row_ok nc B) todo -> rowCnt out = 0%nat ->
  exists status out' x,
    rows_of_statement db inp (Z.of_nat n) true out (at_slot n (Some (Statement cols cur cnt (FRow <$> todo))) s) =
      (Ok (status, out'), at_slot n x s) /\ page_result n cols cnt todo status out' x.
Proof using All.
  intros Hn Htodo Hout. unfold rows_of_statement. fold maxr.
  destruct (row_loop_fetches db inp nc B nc_pos rows_pos sizes selected unchecked n s Hn todo maxr true 0 [] out
              cols cur cnt) as (e & out' & w' & x & E & Hspec); [by split|done|simpl; lia|].
  run_M. rewrite E. unfold page_result. destruct (Nat.ltb (length todo) maxr).
  - destruct Hspec as (-> & -> & Hc & Hr). eexists _, _, _. split; [done|]. by rewrite Hc.
  - destruct Hspec as (-> & Hx & Hb & _). rewrite kept_open. eexists _, _, _. split; [done|].
    split_and!; [done|done|done|].
    change (rows_read out' = [] ++ take maxr todo). eapply shows_read; [exact Hb|].
    assert (0 < maxr)%nat by (unfold maxr; lia). by destruct maxr; [lia|].
Qed.

(** The first page: its first row is fetched already. *)
Lemma first_rows n s r todo out cols cnt :
  (n < length (stmtPtr s))%nat -> Forall (row_ok nc B) (r :: todo) -> rowCnt out = 0%nat ->
  exists status out' x,
    rows_of_statement db inp (Z.of_nat n) false out (at_slot n (Some (Statement cols r cnt (FRow <$> todo))) s) =
      (Ok (status, out'), at_slot n x s) /\ page_result n cols cnt (r :: todo) status out' x.
Proof using All.
  intros Hn Hall Hout. apply Forall_cons in Hall as [Hr Htodo].
  assert (exists k, maxr = S k) as [k Hk] by (exists (maxr - 1)%nat; unfold maxr; lia).
  unfold rows_of_statement. fold maxr. rewrite Hk. cbn [row_loop].
  destruct (add_row_shows inp nc B nc_pos rows_pos sizes selected (Z.of_nat n) true 0 [] r out)
    as (out1 & w1 & E1 & H1 & _ & _); [by split|done|fold maxr; simpl; lia|].
  destruct (row_loop_fetches db inp nc B nc_pos rows_pos sizes selected unchecked n s Hn todo k false w1 [r] out1
              cols r cnt) as (e & out' & w' & x & E & Hspec); [done|done|fold maxr; simpl; lia|].
  run_M. rewrite statement_at_slot by done. cbn [resultValue]. rewrite E1. cbv beta iota. rewrite E.
  unfold page_result. rewrite Hk. change (Nat.ltb (length (r :: todo)) (S k)) with (Nat.ltb (length todo) k).
  destruct (Nat.ltb (length todo) k).
  - destruct Hspec as (-> & -> & Hc & Hr'). eexists _, _, _. split; [done|]. by rewrite Hc.
  - destruct Hspec as (-> & Hx & Hb & _). rewrite kept_open. eexists _, _, _. split; [done|].
    split_and!; [done|done|done|].
    change (rows_read out' = [r] ++ take k todo). by eapply shows_read; [exact Hb|].
Qed.

End reading.

Section whole.
Context (db : access_checks) (exec : Z -> Z + (Z + statement)) (inp : rowsInp) (nc B : nat).
Hypothesis nc_pos : (0 < nc)%nat.
Hypothesis rows_pos : 0 < maxRows inp.
Hypothesis sizes : Z.of_nat (nc * widest B) * maxRows inp <= INT_MAX.
Hypothesis selected : has_option QUOTA_QUERY inp = true \/ (nc <= length (select_inx inp))%nat.
Hypothesis unchecked : condInput inp = [].
Hypothesis kept_open : has_option AUTO_CLOSE inp = false.

Let maxr : nat := Z.to_nat (maxRows inp).

Lemma read_pages_continued n s fuel : (n < length (stmtPtr s))%nat ->
  forall todo out cols cur cnt,
  Forall (row_ok nc B) todo -> (length todo < fuel)%nat ->
  read_pages fuel db exec (continue_with (Z.of_nat n + 1) inp) out
    (at_slot n (Some (Statement cols cur cnt (FRow <$> todo))) s) =
  (Ok (if Nat.eqb (length todo) 0 then CAT_NO_ROWS_FOUND else 0, todo), at_slot n None s).
Proof using All.
  intros Hn. induction fuel as [|fuel IH]; intros todo out cols cur cnt Htodo Hf; [lia|].
  cbn [read_pages]. unfold chl_gen_query. cbn [in_continueInx continue_with maxRows].
  rewrite (proj2 (Z.eqb_neq _ _)) by lia. rewrite (proj2 (Z.leb_gt _ _)) by lia.
  replace (Z.of_nat n + 1 - 1) with (Z.of_nat n) by lia.
  destruct (next_page db (continue_with (Z.of_nat n + 1) inp) nc B nc_pos rows_pos sizes selected unchecked kept_open
              n s todo (clear_counts out) cols cur cnt Hn Htodo eq_refl) as (status & out' & x & E & Hp).
  run_M. rewrite E. unfold page_result in Hp. cbn [maxRows continue_with] in Hp. fold maxr in Hp. destruct (Nat.ltb_spec (length todo) maxr).
  - destruct Hp as (-> & -> & Hc & Hr). destruct todo as [|r todo]; [done|].
    cbn [length Nat.eqb]. change (negb (0 =? 0)) with false. cbv iota. by rewrite Hc, Hr.
  - destruct Hp as (-> & (cur' & ->) & Hc & Hr). change (negb (0 =? 0)) with false. cbv iota.
    assert (0 < maxr)%nat by (unfold maxr; lia).
    rewrite Hc, (proj2 (Z.eqb_neq _ _)) by lia.
    change (continue_with (Z.of_nat n + 1) (continue_with (Z.of_nat n + 1) inp)) with (continue_with (Z.of_nat n + 1) inp).
    rewrite IH; [|by apply Forall_drop|rewrite length_drop; lia].
    rewrite Hr, take_drop. destruct todo as [|r todo]; [simpl in *; lia|]. cbn [length Nat.eqb].
    by destruct (Nat.eqb (length (drop maxr (r :: todo))) 0).
Qed.

(** A client that reads page after page gets every row of the query once and in
    order, whatever the size of its pages and of the values, and the statement the query was
    open in is free again. *)
Theorem all_rows_returned s n r rows cols cur cnt out fuel :
  in_continueInx inp = 0 -> free_slot (stmtPtr s) = Some n ->
  exec (in_rowOffset inp) = inr (inr (Statement cols cur cnt (FRow <$> r :: rows))) ->
  Forall (row_ok nc B) (r :: rows) ->
  (has_option RETURN_TOTAL_ROW_COUNT inp = true -> recursiveCall s = false) ->
  (length rows + 2 <= fuel)%nat ->
  read_pages fuel db exec inp out s = (Ok (0, r :: rows), s).
Proof using All.
  intros Hc0 Hslot Hexec Hall Hrec Hf.
  destruct (find_idx_Some (fun o : option statement => match o with None => true | Some _ => false end) (stmtPtr s) n)
    as [Hfind _].
  destruct (Hfind Hslot) as (l1 & x0 & l2 & Hs & Hl & Hx & _). destruct x0; [done|].
  assert (n < length (stmtPtr s))%nat as Hn by (rewrite Hs, length_app; simpl; lia).
  assert (at_slot n None s = s) as Hclosed.
  { unfold at_slot. rewrite list_insert_id; [by destruct s|]. rewrite Hs, <- Hl. apply list_lookup_middle. done. }
  destruct fuel as [|fuel]; [lia|]. cbn [read_pages]. unfold chl_gen_query. rewrite Hc0. cbn [Z.eqb].
  unfold first_page. rewrite Hexec. unfold cmlGetFirstRowFromSql, cllExecSqlWithResult. run_M. rewrite Hslot.
  assert (forall st, put_statement (Z.of_nat n) (Some st) s = (Ok tt, at_slot n (Some st) s)) as Hput.
  { intros st. unfold put_statement. by rewrite Nat2Z.id. }
  rewrite Hput. change (negb (0 =? 0)) with false. cbv beta iota.
  pose proof (Forall_cons_1 _ _ _ Hall) as [Hr _]. destruct Hr as [Hlr _].
  rewrite next_row_slot; [|done|intros ->; simpl in Hlr; lia].
  cbv beta iota. change (0 =? 0) with true. cbv beta iota. change (0 <? 0) with false. cbv beta iota.
  rewrite statement_at_slot by done. cbn [rowCount].
  assert (has_option RETURN_TOTAL_ROW_COUNT inp && recursiveCall (at_slot n (Some (Statement cols r cnt (FRow <$> rows))) s) = false) as ->.
  { change (recursiveCall (at_slot n _ s)) with (recursiveCall s). destruct (has_option RETURN_TOTAL_ROW_COUNT inp); [exact (Hrec eq_refl)|done]. }
  rewrite unchecked. set (out0 := if _ : bool then _ else _).
  assert (rowCnt out0 = 0%nat) as Hout0 by (unfold out0; by destruct (_ && _)).
  destruct (first_rows db inp nc B nc_pos rows_pos sizes selected unchecked kept_open n s r rows out0 cols cnt Hn Hall Hout0)
    as (status & out' & x & E & Hp).
  rewrite E. unfold page_result in Hp. fold maxr in Hp. destruct (Nat.ltb_spec (length (r :: rows)) maxr).
  - destruct Hp as (-> & -> & Hc & Hr'). cbn [length Nat.eqb]. change (negb (0 =? 0)) with false. cbv iota.
    by rewrite Hc, Hr', Hclosed.
  - destruct Hp as (-> & (cur' & ->) & Hc & Hr'). change (negb (0 =? 0)) with false. cbv iota.
    rewrite Hc, (proj2 (Z.eqb_neq _ _)) by lia.
    rewrite read_pages_continued; [|done|by apply Forall_drop|rewrite length_drop; simpl; lia].
    rewrite Hr', take_drop, Hclosed. by destruct (Nat.eqb (length (drop maxr (r :: rows))) 0).
Qed.
End whole.

(** ** Instances *)

Definition all_allowed : access_checks := AccessChecks (fun _ _ _ _ => 0) (fun _ _ _ _ => 0) (lit "zone").
Definition no_output : genQueryOut := GenQueryOut 0 0 0 0 [].

(** A query for one column whose result has the names [names]. *)
Definition names_of (names : list string) : Z -> Z + (Z + statement) := fun _ =>
  inr (inr (Statement [lit "coll_name"] [] (Z.of_nat (length names)) (map (fun n => FRow [lit n]) names))).

Definition page_inp (maxRows cont offset options : Z) : rowsInp := RowsInp maxRows cont offset options [] [501].

Lemma all_rows_returned_witness :
  read_pages 5 all_allowed (names_of ["a"; "bc"; "d"]%string) (page_inp 2 0 0 0) no_output empty_session =
  (Ok (0, [[lit "a"]; [lit "bc"]; [lit "d"]]), empty_session).
Proof.
  refine (all_rows_returned all_allowed (names_of ["a"; "bc"; "d"]%string) (page_inp 2 0 0 0) 1 10
            _ _ _ _ _ _ empty_session 0 [lit "a"] [[lit "bc"]; [lit "d"]] [lit "coll_name"] [] 3 no_output 5
            _ _ _ _ _ _).
  - lia.
  - reflexivity.
  - by_evaluation.
  - right. simpl. lia.
  - reflexivity.
  - reflexivity.
  - reflexivity.
  - reflexivity.
  - reflexivity.
  - unfold row_ok, text. by_evaluation.
  - reflexivity.
  - simpl. lia.
Defined.

(** A query with an offset behind its end and the total asked for leaves the statement
    of the recursive call open. *)
Example total_leaves_statement_open :
  let exec offset := if offset =? 0 then names_of ["a"]%string 0 else names_of [] 0 in
  let '(r, s) := chl_gen_query all_allowed exec (page_inp 2 0 5 RETURN_TOTAL_ROW_COUNT) no_output empty_session in
  (fun p => (p.1, totalRowCount p.2)) <$> r = Ok (CAT_NO_ROWS_FOUND, 1) /\
  free_slot (stmtPtr s) = Some 1%nat /\ recursiveCall s = false.
Proof. by vm_compute. Qed.

(** When it has no rows at all, the flag of the recursive call stays, and the next query
    that asks for a total gets no rows and leaves its statement open. *)
Example flag_hides_rows :
  let '(_, s) := chl_gen_query all_allowed (names_of []) (page_inp 2 0 5 RETURN_TOTAL_ROW_COUNT) no_output empty_session in
  let '(r, s') := chl_gen_query all_allowed (names_of ["a"]%string) (page_inp 2 0 0 RETURN_TOTAL_ROW_COUNT) no_output s in
  (fun p => (p.1, rows_read p.2, continueInx p.2)) <$> r = Ok (0, [], 0) /\ free_slot (stmtPtr s') = Some 1%nat.
Proof. by vm_compute. Qed.

(** A statement that is read on without selected columns, or whose index is not one of an
    open statement. *)
Example continuing_reads_selection :
  let '(_, s) := chl_gen_query all_allowed (names_of ["a"; "b"]%string) (page_inp 1 0 0 0) no_output empty_session in
  (chl_gen_query all_allowed (names_of []) (RowsInp 1 1 0 0 [] []) no_output s).1 = Throw Eundef /\
  (chl_gen_query all_allowed (names_of []) (page_inp 1 7 0 0) no_output s).1 = Throw Eundef.
Proof. by vm_compute. Qed.

(** A first call for no rows opens the statement, and the first row is lost. *)
Example no_rows_asked_for :
  let '(r, s) := chl_gen_query all_allowed (names_of ["a"; "b"]%string) (page_inp 0 0 0 0) no_output empty_session in
  (fun p => (p.1, continueInx p.2)) <$> r = Ok (0, 1) /\
  (fun p => rows_read p.2) <$> (chl_gen_query all_allowed (names_of []) (page_inp 2 1 0 0) no_output s).1 =
    Ok [[lit "b"]].
Proof. by vm_compute. Qed.

(** The size of the arrays is an [int]. *)
Example size_overflows : new_value 1 50 INT_MAX = Throw Eundef.
Proof. reflexivity. Qed.

(** The result of the last check is taken for a user of the same name in another zone. *)
Example check_ignores_zone :
  let db := AccessChecks (fun _ _ z _ => if bstr_eqb z (lit "home") then 0 else CAT_NO_ROWS_FOUND) (fun _ _ _ _ => 0) [] in
  let kv zone := [(lit "userNameClient", lit "bob"); (lit "rodsZoneClient", lit zone);
                  (lit "accessPermission", lit "read object")] in
  let s0 := at_slot 0 (Some (Statement [lit "data_id"] [lit "10001"] 1 [])) empty_session in
  let '(r1, s1) := checkCondInputAccess db (kv "home") 0 false s0 in
  r1 = Ok 0 /\ (checkCondInputAccess db (kv "away") 0 true s1).1 = Ok 0 /\
  (checkCondInputAccess db (kv "away") 0 true s0).1 = Ok CAT_NO_ROWS_FOUND.
Proof. by vm_compute. Qed.
